(* ===== verification/_CoqProject ===== *)
-Q . S2P
Prelude.v
Ring.v
Bitops.v
Kfifo.v
KString.v
Logger.v
Skbuff.v
Filter.v
Ashmem.v
Bitmap.v
Time.v
Rwsem.v
Semaphore.v
Sort.v
Vsprintf.v
Lowmem.v
Wakelock.v
Rbtree.v
RbInsert.v
RbErase.v
RbWalk.v
RbIndex.v
Binder.v
BinderIndex.v
BinderLayout.v
BinderState.v
BinderAlloc.v
BinderFree.v
BinderRun.v
WakelockUse.v
EarlySuspend.v
PowerSuspend.v
Alarm.v
AlarmRun.v
PowerAlarm.v
UserWakelock.v
