(* ===== verification/Prelude.v ===== *)
(** * A verification library for core routines of the Xperia X10 kernel (Linux 2.6.29, ARM)

    ** What is modelled

    The repository is a whole Linux kernel.  This development takes the code that
    carries logic of its own and runs on the phone: Android's additions to the
    kernel and the library and core routines they and the rest of the kernel are
    built from.  Every path below is relative to src/kernel/.

    - [Prelude] (this file): machine integers, memories, the setoid of numbers
      modulo 2 ^ 32, counting over finite maps, tactics and hint databases.
    - [Ring]: copying a run of bytes across the end of a circular buffer, the step
      shared by kernel/kfifo.c and the logger driver.
    - [Bitops]: arch/arm/include/asm/bitops.h, lib/find_next_bit.c,
      lib/find_last_bit.c, lib/hweight.c, include/linux/log2.h.
    - [Kfifo]: kernel/kfifo.c and include/linux/kfifo.h; section [Spsc] is its
      lock-free use by one producer and one consumer.
    - [KString]: lib/string.c, lib/ctype.c.
    - [Logger]: drivers/staging/android/logger.c.
    - [Skbuff]: packet access of net/core/skbuff.c and include/linux/skbuff.h.
    - [Filter]: net/core/filter.c with the attribute walk of net/netlink/attr.c and
      the option memory of net/core/sock.c.
    - [Ashmem]: mm/ashmem.c.
    - [Bitmap]: lib/bitmap.c.
    - [Time]: drivers/rtc/rtc-lib.c, [mktime] and the timespec routines of
      kernel/time.c and include/linux/time.h, [ktime_t] (include/linux/ktime.h).
    - [Rwsem]: lib/rwsem-spinlock.c.
    - [Semaphore]: kernel/semaphore.c, with [signal_pending_state]
      (include/linux/sched.h) and [schedule_timeout] (kernel/timer.c).
    - [Sort]: lib/sort.c.
    - [Vsprintf]: lib/vsprintf.c.
    - [Lowmem]: drivers/staging/android/lowmemorykiller.c.
    - [Wakelock]: kernel/power/wakelock.c and include/linux/wakelock.h.
    - [EarlySuspend]: kernel/power/earlysuspend.c over an interface of the main wake
      lock; [WakelockUse] is what the user of one wake lock can rely on, and [PowerSuspend]
      uses it to show that [Wakelock] implements the interface, and joins the two.
    - [Alarm]: drivers/rtc/alarm.c and include/linux/android_alarm.h over an interface of
      its two wake locks; [AlarmRun] holds the invariant of its reachable states and the
      theorems, [PowerAlarm] joins it with [Wakelock] in the same way.
    - [Rbtree]: lib/rbtree.c and include/linux/rbtree.h over a memory of nodes;
      [RbInsert], [RbErase] and [RbWalk] hold the theorems on insertion, erasure and
      the walks, and [RbIndex] describes a tree as an index of nodes sorted by a key.
    - [UserWakelock]: kernel/power/userwakelock.c, on top of [Rbtree], [KString],
      [Vsprintf] and [Wakelock].
    - [Binder]: the buffer allocator of drivers/staging/android/binder.c.
      [BinderIndex] is about its two red-black indices, [BinderLayout] about the chain
      of buffers and the pages, [BinderState] about the state they form and the
      effect of single steps, [BinderAlloc] and [BinderFree] about whole allocations and
      releases, [BinderRun] about the callers and all reachable states.

    ** How the parts interact

    The logger copies through [Ring] and names its processes with [KString]; a FIFO
    copies through [Ring] and checks its size with [Bitops]; bitmaps are words
    searched by [Bitops]; a socket filter reads packets through [Skbuff]; ashmem
    names areas with [KString]; formatted output measures strings and classifies
    characters with [KString]; wake locks keep their statistics with [Time];
    the binder indexes its buffers by [Rbtree], whose nodes lie in the headers of the
    buffers, so both trees share one memory; user wake locks are found by name in a
    [Rbtree], read with [KString] and [Vsprintf], and are locks of [Wakelock].  Where a component calls another through a function
    pointer, the promise is a type class ([Sort.SwapFunc], [Sort.CmpFunc]) that the
    built-in implementations discharge; early suspend and the alarm driver are proved
    against the classes [EarlySuspend.MainLock] and [Alarm.AlarmLocks] of what they need of
    wake locks, and alarms compute with the times of [Time].

    ** Conventions

    A w-bit unsigned integer is a [Z] and arithmetic that can leave its range is
    written with the wrap ([u32], [+u], [-u], [*u]); signed results go through [s32]
    and [s64].  [int], [long], pointers and [size_t] have 32 bits.  An object in
    memory is the list of its bytes or words; a read or write outside is [None], so
    a theorem that an operation is [Some _] also says that it stays inside.  Error
    codes are negative numbers, as in the source.  A routine that takes a lock is
    one definition per locked section, and sleeping is the boundary between two
    transitions of a step relation, so interleavings of the sections are the paths
    of the relation.  Results of code outside a component (user copies, allocation,
    security hooks, time-outs, [sprint_symbol]) are arguments.

    Loops are structural where the source counts over data, and otherwise take fuel
    computed from their input: the entries of a log ([fix_up_readers]), the
    instructions left in a filter (jumps go forward, so the length of the program is
    enough), the words of a bitmap, the depth of a heap, the digits of a 64-bit
    number (four rounds of five decimal digits, 22 octal digits), the characters of a
    format string.  The loops of a red-black tree of n nodes take 2 log2 (n + 1) + 3
    turns ([rb_fuel]); a tree whose nodes lie at different 32-bit addresses never needs
    more than 67 ([RB_FUEL]).  Running out of fuel is [None]; every theorem about such a loop
    states that it returns [Some _].

    ** What the theorems show

    - [Logger]: the entries readable after a write are those before, less a prefix,
      and the new entry; every reachable state of concurrent readers and writers
      keeps each reader at the start of an entry, as long as a file has one read at a
      time and no flush comes between the halves of a read.  Counterexamples show what
      happens otherwise, the user buffer overrun and the leak of heap bytes.
    - [Filter], [Skbuff]: a checked program never divides by zero, never leaves its
      memory words and returns within its length, on every packet shorter than 2 ^ 31
      bytes; attached filters stay checked, decide what is done with a packet, and their
      memory stays charged; a packet read yields the bytes of its linearisation.
      Counterexamples for loads that reach up to three bytes behind the packet, the
      attribute loads and the uninitialised scratch memory.
    - [Ashmem]: pin, unpin and shrink act on the set of unpinned pages as their
      manual says, all reachable states keep the ranges sorted and disjoint and the
      LRU count equal to the pages on the list, if no request is for zero bytes at the
      end of the area; mapping respects the protection mask.  Counterexamples for the
      mask, lost purge state and empty ranges.
    - [Kfifo]: the FIFO refines a bounded queue across index wrap-around, also with
      the two sides interleaved at single byte accesses; the steps of one side, run
      without the other, are its function.
    - [Rwsem], [Semaphore]: in every reachable state of any number of tasks, readers
      and writers exclude each other, waiters are served in the order they came, and no
      permit is lost or duplicated; a waiting rwsem drains.
    - [Sort]: the result is a sorted permutation of the elements, for every
      comparison that is a total preorder, sizes and swap functions as in the source.
    - [Vsprintf]: what is stored and returned is determined by the text of the
      format ([format_text], written without a buffer), as long as the output pointer
      does not wrap past the top of the address space; numbers printed are read
      back; the decimal conversion is division; local buffers are large enough.
    - [Wakelock]: the operations refine those on a state without statistics; in
      every reachable state of lock holders, timer and suspend work the lists and
      flags agree, no operation crashes, the check before suspend is exact, and, if no
      lock is destroyed while it is held, a suspend is never forgotten (with a
      counterexample for a held lock).
    - [EarlySuspend], [PowerSuspend]: however requests and the two halves of a
      registration (the handler goes on the list; its suspend function is called, without
      the lock of the state) overlap the work items, the handlers are called alternately and in the order
      of their levels, the worker comes to rest in the state last asked for, and the
      phone suspends only after the handlers ran, but for one that is being registered.
    - [Alarm]: in every reachable state of commands, timers, interrupts, suspend and
      resume each enabled alarm has its timer set or is being delivered; a wait returns the
      alarms that rang; for normalised times within 2 ^ 31 seconds, setting the clock
      does not move the elapsed clock (and a failed attempt does) and the real-time clock
      wakes a suspended phone in time, with counterexamples for times that are not
      normalised; and with the kernel's wake locks a ringing alarm keeps the phone awake
      for five seconds.
    - [UserWakelock]: in every reachable state in which the names are of 7-bit characters a
      name has one lock; writing a line takes or releases exactly the lock it names, for
      the time-out asked for if that is below 2 ^ 31 jiffies, and a malformed line changes
      nothing.  Counterexamples for other names and for longer time-outs.
    - [Rbtree]: insertion and erasure keep a red-black tree and its order, touch only
      its nodes, and end within a number of turns logarithmic in the size; the walks
      visit the nodes in order.
    - [Binder]: every reachable state of a process is well formed, allocated buffers
      are disjoint, large enough and backed by pages, allocation is best fit, release
      merges and is the inverse of allocation, any user pointer given to BC_FREE_BUFFER
      is safe, and the end of a process returns every buffer and page.  No BUG_ON of the
      allocator fires.
    - [Lowmem]: below the first threshold that the page cache is under, the victim is the
      first of the best, and there is one kill at a time.
    - [Time]: seconds and calendar dates are inverse to each other over their whole
      ranges (the day of the year is off by one); timespec and ktime arithmetic is
      arithmetic on nanoseconds.
    - [Bitops], [Bitmap], [KString]: the word-wise searches, set operations, shifts,
      maps and region allocator agree with their bit-level meaning; string copies
      are bounded and terminated; overlapping moves and comparisons are right.

    ** What is not modelled

    The nodes, references, threads and transactions of the binder, and so the release of
    the objects in a buffer by BC_FREE_BUFFER (binder_transaction_buffer_release); of a
    node BC_FREE_BUFFER has only has_async_transaction and async_todo.  The
    suspend work that wake locks queue on the work queue of early suspend: the work items of
    the two models are run by one thread in the source.  A release of a log file while a
    writer walks the list of readers, which the driver does without its lock.  Timed
    output (a sysfs file per vibrator); mutexes and spinlocks (assembly fast
    paths); the scheduler, page allocator, file systems and the network stack beyond
    packet filters; device drivers and platform code, which talk to hardware
    registers; parsing and printing of bitmaps; vsscanf and the variadic wrappers;
    the show functions of sysfs files; module registration. *)
From stdpp Require Export base numbers list gmap.
From Stdlib Require Export ZArith Lia.

#[global] Open Scope Z_scope.

(** ** Machine integers *)

Definition wrap (w x : Z) : Z := x mod 2 ^ w.
Definition u8 (x : Z) : Z := wrap 8 x.
Definition u16 (x : Z) : Z := wrap 16 x.
Definition u32 (x : Z) : Z := wrap 32 x.
Definition u64 (x : Z) : Z := wrap 64 x.
Definition swrap (w x : Z) : Z := (x + 2 ^ (w - 1)) mod 2 ^ w - 2 ^ (w - 1).
Definition s32 (x : Z) : Z := swrap 32 x.
Definition s64 (x : Z) : Z := swrap 64 x.

Definition is_u8 (x : Z) : Prop := 0 <= x < 2 ^ 8.
Definition is_u16 (x : Z) : Prop := 0 <= x < 2 ^ 16.
Definition is_u32 (x : Z) : Prop := 0 <= x < 2 ^ 32.
Definition is_u64 (x : Z) : Prop := 0 <= x < 2 ^ 64.
Definition is_s32 (x : Z) : Prop := - 2 ^ 31 <= x < 2 ^ 31.

Declare Scope kernel_scope.
Delimit Scope kernel_scope with K.
Notation "x +u y" := (u32 (x + y)) (at level 50, left associativity) : kernel_scope.
Notation "x -u y" := (u32 (x - y)) (at level 50, left associativity) : kernel_scope.
Notation "x *u y" := (u32 (x * y)) (at level 40, left associativity) : kernel_scope.
Notation "x '<<u' y" := (u32 (Z.shiftl x y)) (at level 45, left associativity) : kernel_scope.
Notation "'~u' x" := (u32 (Z.lnot x)) (at level 35, right associativity) : kernel_scope.

Create HintDb kernel.

Lemma wrap_range w x : 0 <= w -> 0 <= wrap w x < 2 ^ w.
Proof. intros; apply Z.mod_pos_bound; lia. Qed.

Lemma u32_range x : 0 <= u32 x < 2 ^ 32.
Proof. apply wrap_range; lia. Qed.
Lemma u64_range x : 0 <= u64 x < 2 ^ 64.
Proof. apply wrap_range; lia. Qed.
Lemma u16_range x : 0 <= u16 x < 2 ^ 16.
Proof. apply wrap_range; lia. Qed.
Lemma u8_range x : 0 <= u8 x < 2 ^ 8.
Proof. apply wrap_range; lia. Qed.

Lemma u32_id x : is_u32 x -> u32 x = x.
Proof. intros; apply Z.mod_small; auto. Qed.
Lemma u64_id x : is_u64 x -> u64 x = x.
Proof. intros; apply Z.mod_small; auto. Qed.
Lemma u16_id x : is_u16 x -> u16 x = x.
Proof. intros; apply Z.mod_small; auto. Qed.
Lemma u8_id x : is_u8 x -> u8 x = x.
Proof. intros; apply Z.mod_small; auto. Qed.

Lemma s32_id x : is_s32 x -> s32 x = x.
Proof.
  unfold is_s32, s32, swrap. intros.
  rewrite Z.mod_small by lia. lia.
Qed.

#[export] Hint Resolve u32_range u64_range u16_range u8_range : kernel.

Lemma u32_idemp x : u32 (u32 x) = u32 x.
Proof. apply u32_id, u32_range. Qed.

Lemma u32_add_l x y : u32 (u32 x + y) = u32 (x + y).
Proof. apply Zplus_mod_idemp_l. Qed.
Lemma u32_add_r x y : u32 (x + u32 y) = u32 (x + y).
Proof. apply Zplus_mod_idemp_r. Qed.
Lemma u32_sub_l x y : u32 (u32 x - y) = u32 (x - y).
Proof. apply Zminus_mod_idemp_l. Qed.
Lemma u32_sub_r x y : u32 (x - u32 y) = u32 (x - y).
Proof. apply Zminus_mod_idemp_r. Qed.

Lemma u32_mul_l x y : u32 (u32 x * y) = u32 (x * y).
Proof. apply Zmult_mod_idemp_l. Qed.
Lemma u32_mul_r x y : u32 (x * u32 y) = u32 (x * y).
Proof. apply Zmult_mod_idemp_r. Qed.

Lemma s32_range x : is_s32 (s32 x).
Proof. unfold s32, swrap, is_s32. pose proof (Z.mod_pos_bound (x + 2 ^ (32 - 1)) (2 ^ 32) ltac:(lia)). lia. Qed.

Lemma s32_eqm x : exists k, s32 x = x + 2 ^ 32 * k.
Proof. unfold s32, swrap. exists (- ((x + 2 ^ (32 - 1)) / 2 ^ 32)). Z.to_euclidean_division_equations; lia. Qed.

Lemma s32_add_l x y : s32 (s32 x + y) = s32 (x + y).
Proof.
  destruct (s32_eqm x) as [k ->]. unfold s32, swrap. f_equal.
  replace (x + 2 ^ 32 * k + y + 2 ^ (32 - 1)) with (x + y + 2 ^ (32 - 1) + k * 2 ^ 32) by ring.
  apply Z_mod_plus_full.
Qed.

Create Rewrite HintDb kwrap.
#[export] Hint Rewrite u32_idemp u32_add_l u32_add_r u32_sub_l u32_sub_r u32_mul_l u32_mul_r : kwrap.

(** [kwrap] removes nested wrap-arounds. *)
Ltac kwrap := autorewrite with kwrap in *.

(** Equality modulo [2 ^ 32], to rewrite under sums and products. *)
Definition eq32 (a b : Z) : Prop := u32 a = u32 b.

#[export] Instance eq32_equiv : Equivalence eq32.
Proof. split; unfold eq32; congruence. Qed.

#[export] Instance eq32_add : Proper (eq32 ==> eq32 ==> eq32) Z.add.
Proof.
  intros a a' Ha b b' Hb. unfold eq32 in *. rewrite <- u32_add_l, <- u32_add_r, Ha, Hb.
  by rewrite u32_add_l, u32_add_r.
Qed.

#[export] Instance eq32_sub : Proper (eq32 ==> eq32 ==> eq32) Z.sub.
Proof.
  intros a a' Ha b b' Hb. unfold eq32 in *. rewrite <- u32_sub_l, <- u32_sub_r, Ha, Hb.
  by rewrite u32_sub_l, u32_sub_r.
Qed.

#[export] Instance eq32_mul : Proper (eq32 ==> eq32 ==> eq32) Z.mul.
Proof.
  intros a a' Ha b b' Hb. unfold eq32 in *. rewrite <- u32_mul_l, <- u32_mul_r, Ha, Hb.
  by rewrite u32_mul_l, u32_mul_r.
Qed.

Lemma eq32_u32 x : eq32 (u32 x) x.
Proof. apply u32_idemp. Qed.

(** [eqm32] reduces an equality of wrapped sums and products to one without
    inner wrap-arounds. *)
Ltac eqm32 :=
  lazymatch goal with |- u32 ?a = u32 ?b => change (eq32 a b) end;
  rewrite ?eq32_u32; apply (f_equal u32).

(** ** Error numbers (include/asm-generic/errno-base.h) *)

Definition EPERM : Z := 1.
Definition ENOENT : Z := 2.
Definition EINTR : Z := 4.
Definition EIO : Z := 5.
Definition E2BIG : Z := 7.
Definition EBADF : Z := 9.
Definition EAGAIN : Z := 11.
Definition ENOMEM : Z := 12.
Definition EACCES : Z := 13.
Definition EFAULT : Z := 14.
Definition EBUSY : Z := 16.
Definition EEXIST : Z := 17.
Definition ENODEV : Z := 19.
Definition EINVAL : Z := 22.
Definition ENOTTY : Z := 25.
Definition ENOSPC : Z := 28.
Definition ERANGE : Z := 34.
Definition EOVERFLOW : Z := 75.

(** ** Powers of two as masks *)

Lemma land_mask x k : 0 <= k -> Z.land x (2 ^ k - 1) = x mod 2 ^ k.
Proof.
  intros. rewrite <- Z.land_ones by lia. f_equal. rewrite Z.ones_equiv. lia.
Qed.

Lemma mod_u32_pow2 x k : 0 <= k <= 32 -> (u32 x) mod 2 ^ k = x mod 2 ^ k.
Proof.
  intros. unfold u32, wrap.
  replace 32 with (k + (32 - k)) by lia. rewrite Z.pow_add_r by lia.
  rewrite Z.rem_mul_r by lia.
  rewrite Z.mul_comm, Z_mod_plus_full. apply Z.mod_mod; lia.
Qed.

(** ** Arrays: an access outside the array is [None] (undefined behaviour) *)

Definition zget {A} (l : list A) (i : Z) : option A :=
  if 0 <=? i then l !! Z.to_nat i else None.

Definition zset {A} (l : list A) (i : Z) (x : A) : option (list A) :=
  if (0 <=? i) && (i <? Z.of_nat (length l)) then Some (<[Z.to_nat i := x]> l) else None.

Definition mem_read (m : list Z) (off len : Z) : option (list Z) :=
  if (0 <=? off) && (0 <=? len) && (off + len <=? Z.of_nat (length m))
  then Some (take (Z.to_nat len) (drop (Z.to_nat off) m)) else None.

Definition mem_write (m : list Z) (off : Z) (bs : list Z) : option (list Z) :=
  if (0 <=? off) && (off + Z.of_nat (length bs) <=? Z.of_nat (length m))
  then Some (take (Z.to_nat off) m ++ bs ++ drop (Z.to_nat off + length bs) m) else None.

(** [len l] is the length as an integer; [zat l i] the [i]-th element, 0 outside. *)
Abbreviation len l := (Z.of_nat (length l)).

Definition zat (l : list Z) (i : Z) : Z := default 0 (zget l i).

Lemma zat_out l i : i < 0 \/ len l <= i -> zat l i = 0.
Proof.
  intros. unfold zat, zget. destruct (Z.leb_spec 0 i); [|done].
  rewrite lookup_ge_None_2 by lia. done.
Qed.

Lemma zget_zat l i : 0 <= i < len l -> zget l i = Some (zat l i).
Proof.
  intros. unfold zat, zget. destruct (Z.leb_spec 0 i); [|lia].
  destruct (lookup_lt_is_Some_2 l (Z.to_nat i)) as [x Hx]; [lia|]. by rewrite Hx.
Qed.

Lemma zget_None {A} (l : list A) i : i < 0 \/ len l <= i -> zget l i = None.
Proof.
  intros. unfold zget. destruct (Z.leb_spec 0 i); [|done].
  apply lookup_ge_None_2; lia.
Qed.

Lemma zget_Some {A} (l : list A) i x : zget l i = Some x -> 0 <= i < len l.
Proof.
  unfold zget. destruct (Z.leb_spec 0 i); [|done]. intros H1.
  apply lookup_lt_Some in H1. lia.
Qed.

Lemma zget_lookup {A} (l : list A) i : 0 <= i -> zget l i = l !! Z.to_nat i.
Proof. intros; unfold zget. destruct (Z.leb_spec 0 i); [done|lia]. Qed.

Lemma zget_is_Some {A} (l : list A) i : 0 <= i < len l -> exists x, zget l i = Some x.
Proof.
  intros. rewrite zget_lookup by lia. apply lookup_lt_is_Some_2; lia.
Qed.

Lemma lookup_zat l (n : nat) : (n < length l)%nat -> l !! n = Some (zat l (Z.of_nat n)).
Proof.
  intros. rewrite <- zget_zat by lia. unfold zget.
  destruct (Z.leb_spec 0 (Z.of_nat n)); [|lia]. by rewrite Nat2Z.id.
Qed.

Lemma zlist_ext l1 l2 :
  length l1 = length l2 -> (forall i, 0 <= i < len l1 -> zat l1 i = zat l2 i) -> l1 = l2.
Proof.
  intros Hl H. apply list_eq_same_length with (length l2); [done|done|].
  intros i x y Hi H1 H2. specialize (H (Z.of_nat i) ltac:(lia)).
  rewrite lookup_zat in H1, H2 by lia. congruence.
Qed.

Lemma zat_app l1 l2 i :
  zat (l1 ++ l2) i = if i <? len l1 then zat l1 i else zat l2 (i - len l1).
Proof.
  destruct (Z.ltb_spec i 0).
  { rewrite !zat_out by lia. by destruct (i <? len l1). }
  unfold zat, zget. destruct (Z.leb_spec 0 i); [|lia].
  destruct (Z.ltb_spec i (len l1)).
  - by rewrite lookup_app_l by lia.
  - rewrite lookup_app_r by lia. destruct (Z.leb_spec 0 (i - len l1)); [|lia].
    do 2 f_equal. lia.
Qed.

Lemma zat_take (n : nat) l i :
  zat (take n l) i = if i <? Z.of_nat n then zat l i else 0.
Proof.
  destruct (Z.ltb_spec i 0).
  { rewrite !zat_out by lia. by destruct (i <? Z.of_nat n). }
  unfold zat, zget. destruct (Z.leb_spec 0 i); [|lia].
  rewrite lookup_take. destruct (Z.ltb_spec i (Z.of_nat n)); case_decide; try lia; done.
Qed.

Lemma zat_drop (n : nat) l i :
  0 <= i -> zat (drop n l) i = zat l (Z.of_nat n + i).
Proof.
  intros. unfold zat, zget. destruct (Z.leb_spec 0 i); [|lia].
  destruct (Z.leb_spec 0 (Z.of_nat n + i)); [|lia].
  rewrite lookup_drop. do 2 f_equal. lia.
Qed.

Lemma zat_insert l (n : nat) x i :
  zat (<[n := x]> l) i =
    if decide (i = Z.of_nat n /\ i < len l) then x else zat l i.
Proof.
  destruct (Z.ltb_spec i 0).
  { rewrite !zat_out by (rewrite ?length_insert; lia). case_decide; [lia|done]. }
  unfold zat, zget. destruct (Z.leb_spec 0 i); [|lia].
  rewrite list_lookup_insert.
  repeat case_decide; try done; lia.
Qed.

Lemma zat_map f l i : 0 <= i < len l -> zat (f <$> l) i = f (zat l i).
Proof.
  intros. unfold zat, zget. destruct (Z.leb_spec 0 i); [|lia].
  rewrite list_lookup_fmap.
  destruct (lookup_lt_is_Some_2 l (Z.to_nat i)) as [x Hx]; [lia|]. by rewrite Hx.
Qed.

Lemma zat_seqZ m n i : 0 <= i < n -> zat (seqZ m n) i = m + i.
Proof.
  intros. unfold zat, zget. destruct (Z.leb_spec 0 i); [|lia].
  rewrite lookup_seqZ_lt by lia. simpl. lia.
Qed.

Lemma zset_spec {A} (l : list A) i x :
  0 <= i < len l -> zset l i x = Some (<[Z.to_nat i := x]> l).
Proof.
  intros. unfold zset. destruct (Z.leb_spec 0 i), (Z.ltb_spec i (len l)); try lia; done.
Qed.

(** ** Block copies *)

Lemma mem_read_spec m off n :
  0 <= off -> 0 <= n -> off + n <= len m ->
  exists r, mem_read m off n = Some r /\ len r = n /\
    forall i, 0 <= i < n -> zat r i = zat m (off + i).
Proof.
  intros. unfold mem_read.
  destruct (Z.leb_spec 0 off), (Z.leb_spec 0 n), (Z.leb_spec (off + n) (len m)); try lia.
  simpl. eexists; split; [done|]. split.
  - rewrite length_take, length_drop. lia.
  - intros i Hi. rewrite zat_take. destruct (Z.ltb_spec i (Z.of_nat (Z.to_nat n))); [|lia].
    rewrite zat_drop by lia. f_equal. lia.
Qed.

Lemma mem_write_spec m off bs :
  0 <= off -> off + len bs <= len m ->
  exists m', mem_write m off bs = Some m' /\ length m' = length m /\
    forall i, zat m' i =
      if (off <=? i) && (i <? off + len bs) then zat bs (i - off) else zat m i.
Proof.
  intros. unfold mem_write.
  destruct (Z.leb_spec 0 off), (Z.leb_spec (off + len bs) (len m)); try lia.
  simpl. eexists; split; [done|]. split.
  - rewrite !length_app, length_take, length_drop. lia.
  - intros i. destruct (Z.ltb_spec i 0).
    { rewrite (zat_out (_ ++ _)) by lia. rewrite (zat_out m) by lia.
      destruct (Z.leb_spec off i); [lia|done]. }
    rewrite !zat_app, zat_take, length_take.
    destruct (Z.leb_spec off i), (Z.ltb_spec i (off + len bs)); simpl;
      repeat match goal with |- context [Z.ltb ?a ?b] => destruct (Z.ltb_spec a b) end;
      try lia; try (f_equal; lia).
    rewrite zat_drop by lia. f_equal. lia.
Qed.

(** A memory of bytes stays one under a block copy. *)
Definition bytes (m : list Z) : Prop := Forall is_u8 m.

Lemma bytes_check l : forallb (fun x => (0 <=? x) && (x <? 256)) l = true -> bytes l.
Proof.
  rewrite forallb_forall. intros H. apply Forall_forall. intros x Hx.
  apply list_elem_of_In, H, andb_prop in Hx as [?%Z.leb_le ?%Z.ltb_lt]. unfold is_u8. lia.
Qed.

Lemma mem_read_bytes m off n r : mem_read m off n = Some r -> bytes m -> bytes r.
Proof.
  unfold mem_read. case_match; [|done]. intros [= <-] ?. by apply Forall_take, Forall_drop.
Qed.

Lemma mem_write_bytes m off bs m' :
  mem_write m off bs = Some m' -> bytes m -> bytes bs -> bytes m'.
Proof.
  unfold mem_write. case_match; [|done]. intros [= <-] ??.
  apply Forall_app; split; [by apply Forall_take|].
  apply Forall_app; split; [done|by apply Forall_drop].
Qed.

(** ** Bits of words *)

Lemma testbit_wrap w x i : 0 <= w -> Z.testbit (wrap w x) i = (i <? w) && Z.testbit x i.
Proof.
  intros. unfold wrap. destruct (Z.ltb_spec i w); simpl.
  - destruct (Z.ltb_spec i 0); [by rewrite !Z.testbit_neg_r by lia|].
    apply Z.mod_pow2_bits_low; lia.
  - apply Z.mod_pow2_bits_high; lia.
Qed.

Lemma testbit_u32 x i : Z.testbit (u32 x) i = (i <? 32) && Z.testbit x i.
Proof. apply testbit_wrap; lia. Qed.
Lemma testbit_u8 x i : Z.testbit (u8 x) i = (i <? 8) && Z.testbit x i.
Proof. apply testbit_wrap; lia. Qed.
Lemma testbit_u16 x i : Z.testbit (u16 x) i = (i <? 16) && Z.testbit x i.
Proof. apply testbit_wrap; lia. Qed.

Lemma testbit_shiftl x k i :
  0 <= k -> Z.testbit (Z.shiftl x k) i = (k <=? i) && Z.testbit x (i - k).
Proof.
  intros. destruct (Z.leb_spec k i); simpl.
  - apply Z.shiftl_spec; lia.
  - destruct (Z.ltb_spec i 0); [by apply Z.testbit_neg_r|].
    apply Z.shiftl_spec_low; lia.
Qed.

Lemma testbit_shiftr x k i :
  Z.testbit (Z.shiftr x k) i = (0 <=? i) && Z.testbit x (i + k).
Proof.
  destruct (Z.leb_spec 0 i); simpl; [by apply Z.shiftr_spec|by apply Z.testbit_neg_r].
Qed.

Lemma testbit_lnot x i : Z.testbit (Z.lnot x) i = (0 <=? i) && negb (Z.testbit x i).
Proof.
  destruct (Z.leb_spec 0 i); simpl; [by apply Z.lnot_spec|by apply Z.testbit_neg_r].
Qed.

Lemma testbit_mask k i : 0 <= k -> Z.testbit (2 ^ k - 1) i = (0 <=? i) && (i <? k).
Proof.
  intros. replace (2 ^ k - 1) with (Z.ones k) by (rewrite Z.ones_equiv; lia).
  destruct (Z.leb_spec 0 i); simpl; [|by apply Z.testbit_neg_r].
  destruct (Z.ltb_spec i k); [apply Z.ones_spec_low|apply Z.ones_spec_high]; lia.
Qed.

Lemma testbit_pow2 k i : 0 <= k -> Z.testbit (2 ^ k) i = (i =? k).
Proof.
  intros. destruct (Z.eqb_spec i k) as [->|]; [by apply Z.pow2_bits_true|].
  apply Z.pow2_bits_false; lia.
Qed.

Lemma testbit_high w x i : 0 <= x < 2 ^ w -> w <= i -> Z.testbit x i = false.
Proof.
  intros. destruct (Z.ltb_spec i 0); [by apply Z.testbit_neg_r|].
  destruct (Z.eqb_spec x 0) as [->|]; [apply Z.testbit_0_l|].
  apply Z.bits_above_log2; [lia|].
  assert (Z.log2 x < w); [apply Z.log2_lt_pow2; lia|lia].
Qed.

Lemma word_bound w x : 0 <= w -> 0 <= x -> (forall i, w <= i -> Z.testbit x i = false) ->
  0 <= x < 2 ^ w.
Proof.
  intros Hw H0 H. split; [done|]. destruct (Z.ltb_spec x (2 ^ w)); [done|].
  assert (0 < x) by lia.
  assert (w <= Z.log2 x) by (apply Z.log2_le_pow2; lia).
  specialize (H (Z.log2 x) ltac:(lia)). rewrite Z.bit_log2 in H by lia. done.
Qed.

Lemma is_u32_bits x : 0 <= x -> (forall i, 32 <= i -> Z.testbit x i = false) -> is_u32 x.
Proof. apply word_bound; lia. Qed.

Lemma land_range w x y : 0 <= w -> 0 <= x < 2 ^ w -> 0 <= Z.land x y < 2 ^ w.
Proof.
  intros. apply word_bound; [done|apply Z.land_nonneg; lia|].
  intros. rewrite Z.land_spec, (testbit_high w x) by lia. done.
Qed.

Lemma lor_range w x y : 0 <= w -> 0 <= x < 2 ^ w -> 0 <= y < 2 ^ w -> 0 <= Z.lor x y < 2 ^ w.
Proof.
  intros. apply word_bound; [done|apply Z.lor_nonneg; lia|].
  intros. rewrite Z.lor_spec, (testbit_high w x), (testbit_high w y) by lia. done.
Qed.

Lemma lxor_range w x y : 0 <= w -> 0 <= x < 2 ^ w -> 0 <= y < 2 ^ w -> 0 <= Z.lxor x y < 2 ^ w.
Proof.
  intros. apply word_bound; [done|apply Z.lxor_nonneg; lia|].
  intros. rewrite Z.lxor_spec, (testbit_high w x), (testbit_high w y) by lia. done.
Qed.

Lemma shiftr_range w x k : 0 <= w -> 0 <= k -> 0 <= x < 2 ^ w -> 0 <= Z.shiftr x k < 2 ^ w.
Proof.
  intros. rewrite Z.shiftr_div_pow2 by lia.
  assert (0 < 2 ^ k) by lia. split; [apply Z.div_pos; lia|].
  apply Z.le_lt_trans with x; [|lia]. apply Z.div_le_upper_bound; nia.
Qed.

#[export] Hint Resolve land_range lor_range lxor_range shiftr_range : kernel.

(** Single flags. *)
Lemma test_flag x k : 0 <= k -> negb (Z.land x (2 ^ k) =? 0) = Z.testbit x k.
Proof.
  intros Hk. assert (E : Z.land x (2 ^ k) = if Z.testbit x k then 2 ^ k else 0).
  { apply Z.bits_inj'. intros i Hi. rewrite Z.land_spec, testbit_pow2 by lia.
    destruct (Z.eqb_spec i k) as [->|]; destruct (Z.testbit x k) eqn:E;
      rewrite ?andb_true_r, ?andb_false_r, ?testbit_pow2, ?Z.bits_0, ?Z.eqb_refl by lia; try done.
    by rewrite (proj2 (Z.eqb_neq i k)). }
  rewrite E. destruct (Z.testbit x k); [|done]. rewrite (proj2 (Z.eqb_neq _ _)); [done|].
  pose proof (Z.pow_pos_nonneg 2 k). lia.
Qed.

Lemma bit_clear x k i : 0 <= k -> 0 <= i -> Z.testbit (Z.land x (Z.lnot (2 ^ k))) i = if i =? k then false else Z.testbit x i.
Proof.
  intros. rewrite Z.land_spec, testbit_lnot, testbit_pow2 by lia. rewrite (proj2 (Z.leb_le 0 i)) by lia.
  destruct (i =? k); cbn [andb negb]; [by rewrite andb_false_r|by rewrite andb_true_r].
Qed.

Lemma bit_set x k i : 0 <= k -> Z.testbit (Z.lor x (2 ^ k)) i = if i =? k then true else Z.testbit x i.
Proof. intros. rewrite Z.lor_spec, testbit_pow2 by lia. destruct (i =? k); [apply orb_true_r|apply orb_false_r]. Qed.

Create Rewrite HintDb kbits.
#[export] Hint Rewrite testbit_u32 testbit_u8 testbit_u16 testbit_shiftr testbit_lnot
  Z.land_spec Z.lor_spec Z.lxor_spec Z.ldiff_spec Z.testbit_0_l : kbits.
#[export] Hint Rewrite testbit_shiftl testbit_mask testbit_pow2 using lia : kbits.

(** Split every boolean comparison of the goal. *)
Ltac split_cmp :=
  repeat match goal with
    | |- context [Z.ltb ?a ?b] => destruct (Z.ltb_spec a b)
    | |- context [Z.leb ?a ?b] => destruct (Z.leb_spec a b)
    | |- context [Z.eqb ?a ?b] => destruct (Z.eqb_spec a b)
    end.

(** Equality of words, bit by bit. *)
Ltac kbits :=
  apply Z.bits_inj'; intros ?i ?Hi; autorewrite with kbits;
  split_cmp; simpl; try lia;
  rewrite ?andb_true_r, ?andb_false_r, ?orb_false_r, ?orb_true_r; try done.

Lemma land_high_mask x j w :
  0 <= j <= w -> 0 <= x < 2 ^ w -> Z.land x (2 ^ w - 2 ^ j) = x - x mod 2 ^ j.
Proof.
  intros Hj Hx. replace (2 ^ w - 2 ^ j) with (Z.shiftl (2 ^ (w - j) - 1) j).
  2:{ rewrite Z.shiftl_mul_pow2, Z.mul_sub_distr_r, <- Z.pow_add_r by lia.
      rewrite Z.sub_add, Z.mul_1_l. done. }
  transitivity (Z.shiftl (Z.shiftr x j) j).
  - kbits; replace (i - j + j) with i by lia; [done|]. symmetry. apply (testbit_high w); lia.
  - rewrite Z.shiftl_mul_pow2, Z.shiftr_div_pow2 by lia.
    rewrite Z.mod_eq by lia. lia.
Qed.

(** ** Counting the entries of a finite map (tasks in a state) *)

Section Count.
Context {A : Type}.
Implicit Types (P : A -> bool) (m : gmap nat A).

Definition cnt P m : Z :=
  Z.of_nat (size (filter (fun kv => P kv.2 = true) m)).

Lemma cnt_nonneg P m : 0 <= cnt P m.
Proof. unfold cnt. lia. Qed.

Lemma cnt_new P m t s : m !! t = None -> cnt P (<[t := s]> m) = cnt P m + Z.b2z (P s).
Proof.
  intros Hn. unfold cnt. assert (Hf : filter (fun kv => P kv.2 = true) m !! t = None).
  { apply map_lookup_filter_None_2. by left. }
  destruct (P s) eqn:E; cbn [Z.b2z].
  - rewrite map_filter_insert_True by done. rewrite map_size_insert_None by done. lia.
  - rewrite map_filter_insert_False by (cbn; congruence). rewrite delete_id by done. lia.
Qed.

Lemma cnt_delete P m t s : m !! t = Some s -> cnt P (delete t m) = cnt P m - Z.b2z (P s).
Proof.
  intros Hs. pose proof (cnt_new P (delete t m) t s (lookup_delete_eq m t)) as H.
  rewrite insert_delete_id in H by done. lia.
Qed.

Lemma cnt_over P m t s s' : m !! t = Some s ->
  cnt P (<[t := s']> m) = cnt P m - Z.b2z (P s) + Z.b2z (P s').
Proof.
  intros Hs. rewrite <- insert_delete_eq, cnt_new by apply lookup_delete_eq.
  by rewrite (cnt_delete P m t s).
Qed.

Lemma cnt_zero P m : cnt P m = 0 -> forall t s, m !! t = Some s -> P s = false.
Proof.
  intros H t s Hs. pose proof (cnt_delete P m t s Hs) as E. pose proof (cnt_nonneg P (delete t m)).
  destruct (P s); [cbn [Z.b2z] in E; lia|done].
Qed.

Lemma cnt_one P m t t' s s' : cnt P m <= 1 -> m !! t = Some s -> m !! t' = Some s' ->
  P s = true -> P s' = true -> t = t'.
Proof.
  intros H Ht Ht' Hp Hp'. destruct (decide (t = t')) as [|Hne]; [done|].
  pose proof (cnt_delete P m t s Ht) as E. rewrite Hp in E. cbn [Z.b2z] in E.
  assert (E0 : cnt P (delete t m) = 0) by (pose proof (cnt_nonneg P (delete t m)); lia).
  rewrite (cnt_zero P _ E0 t' s') in Hp'; [done|]. by rewrite lookup_delete_ne.
Qed.

Lemma cnt_pos P m : 0 < cnt P m -> exists t s, m !! t = Some s /\ P s = true.
Proof.
  unfold cnt. intros H. destruct (decide (filter (fun kv => P kv.2 = true) m = ∅)) as [E|E].
  { rewrite E, map_size_empty in H. lia. }
  apply map_choose in E as (t & s & E). apply map_lookup_filter_Some in E as [? ?]. eauto.
Qed.

Lemma cnt_bound P m n : (forall t, is_Some (m !! t) -> Z.of_nat t < n) -> 0 <= n -> cnt P m <= n.
Proof.
  intros Hb Hn. unfold cnt. etransitivity; [apply inj_le, map_size_filter|].
  rewrite <- size_dom. transitivity (Z.of_nat (size (set_seq 0 (Z.to_nat n) : gset nat))).
  - apply inj_le, subseteq_size. intros t Ht%elem_of_dom. apply Hb in Ht. apply elem_of_set_seq. lia.
  - rewrite size_set_seq. lia.
Qed.

End Count.
