(* ===== verification/Ring.v ===== *)
(** Ring buffers: the two block copies with which [__kfifo_put], [__kfifo_get],
    [do_write_log] and [do_read_log_to_user] move a run of bytes across the end
    of a circular buffer, and the modular view of the buffer they implement.
    Shared by [Kfifo] and [Logger]. *)
From S2P Require Import Prelude.

(** The byte at stream position [p] of a ring of [sz] bytes. *)
Definition ring_at (m : list Z) (sz p : Z) : Z := zat m (p mod sz).

(** The [n] bytes that start at stream position [p]. *)
Definition ring_slice (m : list Z) (sz p n : Z) : list Z :=
  (fun i => ring_at m sz (p + i)) <$> seqZ 0 n.

Definition ring_put (m : list Z) (sz off : Z) (bs : list Z) (n : Z) : option (list Z) :=
  let l := Z.min n (sz - off) in
  m1 ← mem_write m off (take (Z.to_nat l) bs);
  mem_write m1 0 (take (Z.to_nat (n - l)) (drop (Z.to_nat l) bs)).

Definition ring_get (m : list Z) (sz off n : Z) : option (list Z) :=
  let l := Z.min n (sz - off) in
  a ← mem_read m off l;
  b ← mem_read m 0 (n - l);
  Some (a ++ b).

Lemma len_ring_slice m sz p n : 0 <= n -> len (ring_slice m sz p n) = n.
Proof. intros. unfold ring_slice. rewrite length_fmap, length_seqZ. lia. Qed.

Lemma zat_ring_slice m sz p n i :
  0 <= i < n -> zat (ring_slice m sz p n) i = ring_at m sz (p + i).
Proof.
  intros. unfold ring_slice. rewrite zat_map by (rewrite length_seqZ; lia).
  rewrite zat_seqZ by lia. done.
Qed.

Lemma ring_slice_app m sz p n1 n2 :
  0 <= n1 -> 0 <= n2 ->
  ring_slice m sz p (n1 + n2) = ring_slice m sz p n1 ++ ring_slice m sz (p + n1) n2.
Proof.
  intros. unfold ring_slice. rewrite seqZ_app, fmap_app by lia. f_equal.
  apply zlist_ext; [rewrite !length_fmap, !length_seqZ; done|].
  rewrite length_fmap, length_seqZ. intros i Hi.
  rewrite !zat_map by (rewrite length_seqZ; lia). rewrite !zat_seqZ by lia.
  f_equal. lia.
Qed.

Lemma ring_slice_mod m sz p n : 0 < sz -> ring_slice m sz (p mod sz) n = ring_slice m sz p n.
Proof.
  intros. unfold ring_slice. apply list_fmap_ext. intros i x _.
  unfold ring_at. by rewrite Zplus_mod_idemp_l.
Qed.

Lemma mod_step x sz : 0 < sz -> 0 <= x < 2 * sz -> x mod sz = if x <? sz then x else x - sz.
Proof.
  intros. destruct (Z.ltb_spec x sz).
  - apply Z.mod_small; lia.
  - symmetry. apply Z.mod_unique with 1; lia.
Qed.

(** [ring_get] reads the modular slice, and reads inside the buffer. *)
Lemma ring_get_spec m sz off n :
  len m = sz -> 0 <= off < sz -> 0 <= n <= sz ->
  ring_get m sz off n = Some (ring_slice m sz off n).
Proof.
  intros. unfold ring_get.
  destruct (mem_read_spec m off (Z.min n (sz - off))) as (a & Ha & Hal & Hat); try lia.
  destruct (mem_read_spec m 0 (n - Z.min n (sz - off))) as (b & Hb & Hbl & Hbt); try lia.
  rewrite Ha; simpl. rewrite Hb; simpl. f_equal. apply zlist_ext.
  { apply Nat2Z.inj. rewrite length_app, len_ring_slice by lia. lia. }
  intros i Hi. rewrite length_app in Hi. rewrite zat_ring_slice by lia.
  unfold ring_at. rewrite zat_app, mod_step by lia.
  destruct (Z.ltb_spec i (len a)), (Z.ltb_spec (off + i) sz); try lia.
  - apply Hat; lia.
  - rewrite Hbt by lia. f_equal; lia.
Qed.

(** [ring_put] stores byte [j] of the source at ring position [off + j] and
    leaves every other position alone, all inside the buffer. *)
Lemma ring_put_spec m sz off bs n :
  len m = sz -> 0 <= off < sz -> 0 <= n <= sz -> n <= len bs ->
  exists m', ring_put m sz off bs n = Some m' /\ length m' = length m /\
    forall p, ring_at m' sz p =
      if (p - off) mod sz <? n then zat bs ((p - off) mod sz) else ring_at m sz p.
Proof.
  intros. unfold ring_put. set (l := Z.min n (sz - off)).
  destruct (mem_write_spec m off (take (Z.to_nat l) bs)) as (m1 & E1 & Hl1 & Ht1);
    [lia|rewrite length_take; lia|].
  rewrite E1; simpl.
  destruct (mem_write_spec m1 0 (take (Z.to_nat (n - l)) (drop (Z.to_nat l) bs)))
    as (m2 & E2 & Hl2 & Ht2); [lia|rewrite length_take, length_drop; lia|].
  exists m2. split; [done|]. split; [lia|]. intros p. unfold ring_at.
  pose proof (Z.mod_pos_bound p sz ltac:(lia)).
  assert (E : (p - off) mod sz =
              if off <=? p mod sz then p mod sz - off else p mod sz - off + sz).
  { rewrite <- (Zminus_mod_idemp_l p off sz).
    destruct (Z.leb_spec off (p mod sz)).
    - apply Z.mod_small; lia.
    - symmetry; apply Z.mod_unique with (-1); lia. }
  rewrite E, Ht2, Ht1, !length_take, !length_drop.
  rewrite !zat_take.
  set (q := p mod sz) in *.
  destruct (Z.leb_spec off q); simpl;
    repeat match goal with
      | |- context [Z.ltb ?a ?b] => destruct (Z.ltb_spec a b)
      | |- context [Z.leb ?a ?b] => destruct (Z.leb_spec a b)
      end; simpl; try lia; try reflexivity.
  all: rewrite zat_drop by lia; f_equal; lia.
Qed.

Lemma ring_put_bytes m sz off bs n m' :
  ring_put m sz off bs n = Some m' -> bytes m -> bytes bs -> bytes m'.
Proof.
  unfold ring_put. intros H Hm Hb.
  destruct (mem_write m off _) as [m1|] eqn:E1; simpl in H; [|done].
  eapply mem_write_bytes; [exact H| |by apply Forall_take, Forall_drop].
  eapply mem_write_bytes; [exact E1|done|by apply Forall_take].
Qed.
