(* ===== verification/Bitops.v ===== *)
(** Bit operations on words and bit arrays: [fls], [ffs] and friends
    (arch/arm/include/asm/bitops.h), [hweight32] (lib/hweight.c), the word-wise
    searches [find_next_bit] ... [find_last_bit] (lib/find_next_bit.c,
    lib/find_last_bit.c) and the non-atomic single-bit updates.  Each search is
    related to the least (or greatest) index with the wanted bit value, and
    [hweight32] to a bit-by-bit count. *)
From S2P Require Import Prelude.
Local Open Scope kernel_scope.

Definition BITS_PER_LONG : Z := 32.

(** ** Words *)

(** The ARM instruction [clz]: the number of leading zero bits of a word. *)
Definition clz (x : Z) : Z := if x =? 0 then 32 else 31 - Z.log2 x.

Definition constant_fls (x : Z) : Z :=
  if x =? 0 then 0 else
  let r := 32 in
  let '(x, r) := if Z.land x 0xffff0000 =? 0 then (x <<u 16, r - 16) else (x, r) in
  let '(x, r) := if Z.land x 0xff000000 =? 0 then (x <<u 8, r - 8) else (x, r) in
  let '(x, r) := if Z.land x 0xf0000000 =? 0 then (x <<u 4, r - 4) else (x, r) in
  let '(x, r) := if Z.land x 0xc0000000 =? 0 then (x <<u 2, r - 2) else (x, r) in
  let '(x, r) := if Z.land x 0x80000000 =? 0 then (x <<u 1, r - 1) else (x, r) in
  r.

Definition fls (x : Z) : Z := 32 - clz x.
Definition __fls (x : Z) : Z := fls x - 1.
Definition ffs (x : Z) : Z := fls (Z.land x (u32 (- x))).
Definition __ffs (x : Z) : Z := ffs x - 1.
Definition ffz (x : Z) : Z := __ffs (~u x).
Definition fls64 (x : Z) : Z :=
  let h := u32 (Z.shiftr x 32) in
  if negb (h =? 0) then fls h + 32 else fls (u32 x).
Definition fls_long (l : Z) : Z := fls l.

Definition is_power_of_2 (n : Z) : bool := negb (n =? 0) && (Z.land n (n -u 1) =? 0).
Definition __roundup_pow_of_two (n : Z) : Z := 1 <<u fls_long (n -u 1).
Definition __rounddown_pow_of_two (n : Z) : Z := 1 <<u (fls_long n - 1).

Definition get_count_order (count : Z) : Z :=
  let order := fls count - 1 in
  if negb (Z.land count (count -u 1) =? 0) then order + 1 else order.

Definition rol32 (word shift : Z) : Z := Z.lor (word <<u shift) (Z.shiftr word (32 - shift)).
Definition ror32 (word shift : Z) : Z := Z.lor (Z.shiftr word shift) (word <<u (32 - shift)).

Definition hweight32 (w : Z) : Z :=
  let res := w -u Z.land (Z.shiftr w 1) 0x55555555 in
  let res := Z.land res 0x33333333 +u Z.land (Z.shiftr res 2) 0x33333333 in
  let res := Z.land (res +u Z.shiftr res 4) 0x0F0F0F0F in
  let res := res +u Z.shiftr res 8 in
  Z.land (res +u Z.shiftr res 16) 0x000000FF.

Definition hweight16 (w : Z) : Z :=
  let res := w -u Z.land (Z.shiftr w 1) 0x5555 in
  let res := Z.land res 0x3333 +u Z.land (Z.shiftr res 2) 0x3333 in
  let res := Z.land (res +u Z.shiftr res 4) 0x0F0F in
  Z.land (res +u Z.shiftr res 8) 0x00FF.

Definition hweight8 (w : Z) : Z :=
  let res := w -u Z.land (Z.shiftr w 1) 0x55 in
  let res := Z.land res 0x33 +u Z.land (Z.shiftr res 2) 0x33 in
  Z.land (res +u Z.shiftr res 4) 0x0F.

Definition hweight64 (w : Z) : Z :=
  hweight32 (u32 (Z.shiftr w 32)) +u hweight32 (u32 w).

Definition hweight_long (w : Z) : Z := hweight32 w.

(** ** Bit arrays: lists of 32-bit words *)

Definition BIT_MASK (nr : Z) : Z := 1 <<u (nr mod BITS_PER_LONG).
Definition BIT_WORD (nr : Z) : Z := nr / BITS_PER_LONG.
Definition BITS_TO_LONGS (nr : Z) : Z := (nr + BITS_PER_LONG - 1) / BITS_PER_LONG.

Definition __set_bit (nr : Z) (addr : list Z) : option (list Z) :=
  w ← zget addr (BIT_WORD nr); zset addr (BIT_WORD nr) (Z.lor w (BIT_MASK nr)).

Definition __clear_bit (nr : Z) (addr : list Z) : option (list Z) :=
  w ← zget addr (BIT_WORD nr); zset addr (BIT_WORD nr) (Z.land w (~u BIT_MASK nr)).

Definition __change_bit (nr : Z) (addr : list Z) : option (list Z) :=
  w ← zget addr (BIT_WORD nr); zset addr (BIT_WORD nr) (Z.lxor w (BIT_MASK nr)).

Definition test_bit (nr : Z) (addr : list Z) : option bool :=
  w ← zget addr (BIT_WORD nr);
  Some (negb (Z.land 1 (Z.shiftr w (Z.land nr (BITS_PER_LONG - 1))) =? 0)).

(** The [while (size & ~(BITS_PER_LONG-1))] loop of the searches: stop at the
    first word that passes [test], or at the partial word at the end. *)
Inductive scan : Type :=
  | Found (result tmp : Z)
  | Rest (p size result : Z).

Fixpoint scan_words (fuel : nat) (test : Z -> bool) (addr : list Z)
    (p size result : Z) : option scan :=
  match fuel with
  | O => None
  | S fuel' =>
      if Z.land size (~u (BITS_PER_LONG - 1)) =? 0 then Some (Rest p size result) else
      tmp ← zget addr p;
      if test tmp then Some (Found result tmp)
      else scan_words fuel' test addr (p + 1) (size -u BITS_PER_LONG)
             (result +u BITS_PER_LONG)
  end.

Definition scan_fuel (size : Z) : nat := S (Z.to_nat (size / BITS_PER_LONG)).

Definition nonzero (x : Z) : bool := negb (x =? 0).
Definition not_all_ones (x : Z) : bool := negb ((~u x) =? 0).

(** [found_first] of [find_next_bit] and the tail of [find_first_bit]. *)
Definition found_first (tmp size result : Z) : Z :=
  let tmp := Z.land tmp (Z.shiftr 0xffffffff (BITS_PER_LONG - size)) in
  if tmp =? 0 then result +u size else result +u __ffs tmp.

Definition found_first_zero (tmp size result : Z) : Z :=
  let tmp := Z.lor tmp (0xffffffff <<u size) in
  if tmp =? 0xffffffff then result +u size else result +u ffz tmp.

Definition find_first_bit (addr : list Z) (size : Z) : option Z :=
  s ← scan_words (scan_fuel size) nonzero addr 0 size 0;
  match s with
  | Found result tmp => Some (result +u __ffs tmp)
  | Rest p size result =>
      if size =? 0 then Some result else
      tmp ← zget addr p; Some (found_first tmp size result)
  end.

Definition find_first_zero_bit (addr : list Z) (size : Z) : option Z :=
  s ← scan_words (scan_fuel size) not_all_ones addr 0 size 0;
  match s with
  | Found result tmp => Some (result +u ffz tmp)
  | Rest p size result =>
      if size =? 0 then Some result else
      tmp ← zget addr p; Some (found_first_zero tmp size result)
  end.

Definition find_next_bit (addr : list Z) (size offset : Z) : option Z :=
  let p := offset / BITS_PER_LONG in
  let result := Z.land offset (~u (BITS_PER_LONG - 1)) in
  if size <=? offset then Some size else
  let size := size -u result in
  let offset := offset mod BITS_PER_LONG in
  let words p size result :=
    s ← scan_words (scan_fuel size) nonzero addr p size result;
    match s with
    | Found result tmp => Some (result +u __ffs tmp)
    | Rest p size result =>
        if size =? 0 then Some result else
        tmp ← zget addr p; Some (found_first tmp size result)
    end in
  if negb (offset =? 0) then
    tmp ← zget addr p;
    let tmp := Z.land tmp (0xffffffff <<u offset) in
    if size <? BITS_PER_LONG then Some (found_first tmp size result)
    else if nonzero tmp then Some (result +u __ffs tmp)
    else words (p + 1) (size -u BITS_PER_LONG) (result +u BITS_PER_LONG)
  else words p size result.

Definition find_next_zero_bit (addr : list Z) (size offset : Z) : option Z :=
  let p := offset / BITS_PER_LONG in
  let result := Z.land offset (~u (BITS_PER_LONG - 1)) in
  if size <=? offset then Some size else
  let size := size -u result in
  let offset := offset mod BITS_PER_LONG in
  let words p size result :=
    s ← scan_words (scan_fuel size) not_all_ones addr p size result;
    match s with
    | Found result tmp => Some (result +u ffz tmp)
    | Rest p size result =>
        if size =? 0 then Some result else
        tmp ← zget addr p; Some (found_first_zero tmp size result)
    end in
  if negb (offset =? 0) then
    tmp ← zget addr p;
    let tmp := Z.lor tmp (Z.shiftr 0xffffffff (BITS_PER_LONG - offset)) in
    if size <? BITS_PER_LONG then Some (found_first_zero tmp size result)
    else if not_all_ones tmp then Some (result +u ffz tmp)
    else words (p + 1) (size -u BITS_PER_LONG) (result +u BITS_PER_LONG)
  else words p size result.

(** [find_last_bit]'s [while (words)] loop; [words] counts down to 0. *)
Fixpoint last_word (addr : list Z) (words : nat) : option (option (Z * Z)) :=
  match words with
  | O => Some None
  | S w =>
      tmp ← zget addr (Z.of_nat w);
      if nonzero tmp then Some (Some (Z.of_nat w, tmp)) else last_word addr w
  end.

Definition find_last_bit (addr : list Z) (size : Z) : option Z :=
  let words := size / BITS_PER_LONG in
  let from_words :=
    r ← last_word addr (Z.to_nat words);
    match r with
    | Some (w, tmp) => Some ((w *u BITS_PER_LONG) +u __fls tmp)
    | None => Some size
    end in
  let part := Z.land size (BITS_PER_LONG - 1) in
  if nonzero part then
    w ← zget addr words;
    let tmp := Z.land w (Z.shiftr 0xffffffff (BITS_PER_LONG - part)) in
    if nonzero tmp then Some ((words *u BITS_PER_LONG) +u __fls tmp) else from_words
  else from_words.

(** ** Words: what [fls], [ffs] and [hweight32] compute *)

Lemma fls_log2 x : 0 < x -> fls x = Z.log2 x + 1.
Proof. intros. unfold fls, clz. destruct (Z.eqb_spec x 0); lia. Qed.

Lemma fls_range x : is_u32 x -> 0 <= fls x <= 32.
Proof.
  unfold is_u32, fls, clz. intros. destruct (Z.eqb_spec x 0); [lia|].
  pose proof (Z.log2_nonneg x).
  assert (Z.log2 x < 32); [apply Z.log2_lt_pow2; lia|lia].
Qed.

(** One halving step of [constant_fls]. *)
Lemma fls_step x k :
  0 <= k <= 32 -> is_u32 x ->
  (Z.land x (2 ^ 32 - 2 ^ (32 - k)) =? 0) = (x <? 2 ^ (32 - k)).
Proof.
  intros Hk Hx. rewrite land_high_mask by (unfold is_u32 in *; lia).
  unfold is_u32 in Hx. pose proof (Z.mod_pos_bound x (2 ^ (32 - k)) ltac:(lia)).
  destruct (Z.eqb_spec (x - x mod 2 ^ (32 - k)) 0), (Z.ltb_spec x (2 ^ (32 - k)));
    try lia.
  rewrite Z.mod_small in n; lia.
Qed.

Lemma shl_small x k : 0 <= k <= 32 -> 0 < x < 2 ^ (32 - k) ->
  u32 (Z.shiftl x k) = x * 2 ^ k /\ 0 < x * 2 ^ k < 2 ^ 32 /\
  Z.log2 (x * 2 ^ k) = Z.log2 x + k.
Proof.
  intros. rewrite Z.shiftl_mul_pow2 by lia.
  assert (x * 2 ^ k < 2 ^ 32).
  { replace 32 with ((32 - k) + k) by lia. rewrite Z.pow_add_r by lia.
    apply Z.mul_lt_mono_pos_r; lia. }
  split; [|split].
  - apply u32_id. unfold is_u32. lia.
  - lia.
  - rewrite Z.log2_mul_pow2 by lia. lia.
Qed.

(** After the steps for 16, 8, 4, 2 and 1 the top bit of the word is set. *)
Definition fls_inv (x0 x r k : Z) : Prop :=
  0 < x < 2 ^ 32 /\ 2 ^ (32 - k) <= x /\ Z.log2 x0 + 1 = r - (31 - Z.log2 x).

Lemma fls_inv_step x0 x r k k' :
  0 <= k <= k' -> k' <= 32 -> k' <= 2 * k -> fls_inv x0 x r k' ->
  let '(y, r') := if Z.land x (2 ^ 32 - 2 ^ (32 - k)) =? 0
                  then (u32 (Z.shiftl x k), r - k) else (x, r) in
  fls_inv x0 y r' k.
Proof.
  intros Hk Hk' H2 (Hx & Hl & Hr). rewrite fls_step by (unfold is_u32; lia).
  destruct (Z.ltb_spec x (2 ^ (32 - k))).
  - destruct (shl_small x k) as (-> & ? & HL); [lia|lia|].
    split; [done|]. split; [|lia].
    transitivity (2 ^ (32 - k') * 2 ^ k); [|apply Z.mul_le_mono_nonneg_r; lia].
    rewrite <- Z.pow_add_r by lia. apply Z.pow_le_mono_r; lia.
  - split; [done|]. split; lia.
Qed.

(** Advance [fls_inv] over the next conditional shift of the goal. *)
Ltac fls_next k k' H :=
  match goal with
  | |- context [if ?c then (u32 (Z.shiftl ?y k), ?r - k) else _] =>
      let H' := fresh "H" in
      pose proof (fls_inv_step _ y r k k' ltac:(lia) ltac:(lia) ltac:(lia) H) as H';
      revert H'; destruct (if c then _ else _) as [? ?]; intros H'; clear H
  end.

(** The C fallback agrees with the [clz] instruction. *)
Lemma constant_fls_correct x : is_u32 x -> constant_fls x = fls x.
Proof.
  unfold is_u32. intros Hx. unfold constant_fls.
  destruct (Z.eqb_spec x 0) as [->|Hn]; [done|].
  rewrite fls_log2 by lia.
  assert (H0 : fls_inv x x 32 32) by (split; [lia|split; [simpl; lia|lia]]).
  change 0xffff0000 with (2 ^ 32 - 2 ^ (32 - 16)).
  change 0xff000000 with (2 ^ 32 - 2 ^ (32 - 8)).
  change 0xf0000000 with (2 ^ 32 - 2 ^ (32 - 4)).
  change 0xc0000000 with (2 ^ 32 - 2 ^ (32 - 2)).
  change 0x80000000 with (2 ^ 32 - 2 ^ (32 - 1)).
  fls_next 16 32 H0. fls_next 8 16 H. fls_next 4 8 H0. fls_next 2 4 H. fls_next 1 2 H0.
  destruct H as (Hb & Ht & Hr). 
  pose proof (Z.log2_unique _ 31 ltac:(lia) (conj Ht (proj2 Hb))). lia.
Qed.

(** Every positive number is an odd number shifted left. *)
Lemma odd_part x : 0 < x -> exists k q, 0 <= k /\ 0 <= q /\ x = (2 * q + 1) * 2 ^ k.
Proof.
  intros H. destruct x as [|p|p]; try lia. clear H. induction p as [p IH|p IH|].
  - exists 0, (Z.pos p). lia.
  - destruct IH as (k & q & ? & ? & E). exists (k + 1), q.
    rewrite Z.pow_add_r, Z.pow_1_r by lia. lia.
  - exists 0, 0. lia.
Qed.

Lemma land_neg q k : 0 <= k ->
  Z.land ((2 * q + 1) * 2 ^ k) (- ((2 * q + 1) * 2 ^ k)) = 2 ^ k.
Proof.
  intros. replace (- ((2 * q + 1) * 2 ^ k)) with ((2 * (Z.lnot q) + 1) * 2 ^ k)
    by (unfold Z.lnot; lia).
  rewrite <- !Z.shiftl_mul_pow2 by lia. rewrite <- Z.shiftl_land.
  replace (Z.land (2 * q + 1) (2 * Z.lnot q + 1)) with 1.
  { rewrite Z.shiftl_1_l. done. }
  apply Z.bits_inj'. intros i Hi. rewrite Z.land_spec.
  destruct (Z.eqb_spec i 0) as [->|]; [by rewrite !Z.testbit_odd_0|].
  replace i with (Z.succ (i - 1)) by lia.
  rewrite !Z.testbit_odd_succ by lia. rewrite Z.lnot_spec by lia.
  rewrite andb_negb_r. change 1 with (2 * 0 + 1).
  rewrite Z.testbit_odd_succ by lia. apply Z.testbit_0_l.
Qed.

(** [is_first P lo hi r]: [r] is the least index of [lo, hi) with [P], [hi] if none. *)
Definition is_first (P : Z -> bool) (lo hi r : Z) : Prop :=
  lo <= r <= hi /\ (forall j, lo <= j < r -> P j = false) /\ (r < hi -> P r = true).

Lemma is_first_unique P lo hi r r' : is_first P lo hi r -> is_first P lo hi r' -> r = r'.
Proof.
  intros (H1 & H2 & H3) (H1' & H2' & H3').
  destruct (Z.lt_trichotomy r r') as [|[|]]; [|done|].
  - rewrite H2' in H3 by lia. specialize (H3 ltac:(lia)). done.
  - rewrite H2 in H3' by lia. specialize (H3' ltac:(lia)). done.
Qed.

(** [__ffs] is the index of the lowest set bit. *)
Lemma ffs_first x : is_u32 x -> x <> 0 -> is_first (Z.testbit x) 0 32 (__ffs x) /\ __ffs x < 32.
Proof.
  unfold is_u32. intros Hx Hn.
  destruct (odd_part x ltac:(lia)) as (k & q & Hk & Hq & E).
  assert (Hk32 : k < 32).
  { apply (Z.pow_lt_mono_r_iff 2); [lia|lia|]. nia. }
  assert (F : __ffs x = k).
  { unfold __ffs, ffs.
    assert (L : Z.land x (u32 (- x)) = 2 ^ k).
    { rewrite <- (land_neg q k) by lia. rewrite <- E.
      apply Z.bits_inj'. intros i Hi. autorewrite with kbits.
      destruct (Z.ltb_spec i 32); simpl; [done|].
      rewrite (testbit_high 32 x i) by lia. done. }
    rewrite L, fls_log2, Z.log2_pow2 by lia. lia. }
  rewrite F. split; [|done]. split; [lia|]. split.
  - intros j Hj. rewrite E. apply Z.mul_pow2_bits_low. lia.
  - intros _. rewrite E, Z.mul_pow2_bits, Z.sub_diag by lia. apply Z.testbit_odd_0.
Qed.

Lemma ffz_first x : is_u32 x -> x <> 0xffffffff ->
  is_first (fun j => negb (Z.testbit x j)) 0 32 (ffz x) /\ ffz x < 32.
Proof.
  intros Hx Hn. unfold ffz.
  assert (E : u32 (Z.lnot x) = 0xffffffff - x).
  { unfold u32, wrap, is_u32, Z.lnot in *. symmetry. apply Z.mod_unique with (-1); lia. }
  destruct (ffs_first (u32 (Z.lnot x))) as [(A & B & C) D];
    [apply u32_range|rewrite E; unfold is_u32 in Hx; lia|].
  assert (T : forall j, 0 <= j < 32 ->
    Z.testbit (u32 (Z.lnot x)) j = negb (Z.testbit x j)).
  { intros. autorewrite with kbits. split_cmp; simpl; try lia. done. }
  split; [|done]. split; [lia|]. split.
  - intros j Hj. rewrite <- T by lia. auto.
  - intros _. rewrite <- T by lia. auto.
Qed.

Lemma is_power_of_2_spec n : is_u32 n ->
  is_power_of_2 n = true <-> exists k, 0 <= k < 32 /\ n = 2 ^ k.
Proof.
  unfold is_u32, is_power_of_2. intros Hn. rewrite andb_true_iff. split.
  - intros [H0 H1]. apply negb_true_iff, Z.eqb_neq in H0. apply Z.eqb_eq in H1.
    rewrite u32_id in H1 by (unfold is_u32; lia).
    exists (Z.log2 n). pose proof (Z.log2_nonneg n).
    split; [split; [lia|apply Z.log2_lt_pow2; lia]|].
    destruct (Z.log2_spec n) as [L1 L2]; [lia|].
    destruct (Z.eqb_spec n (2 ^ Z.log2 n)); [done|exfalso].
    assert (B : Z.testbit (Z.land n (n - 1)) (Z.log2 n) = true).
    { rewrite Z.land_spec, Z.bit_log2 by lia. simpl.
      assert (E : Z.log2 (n - 1) = Z.log2 n) by (apply Z.log2_unique; lia).
      rewrite <- E. apply Z.bit_log2; lia. }
    rewrite H1, Z.testbit_0_l in B. done.
  - intros (k & Hk & ->). split; [apply negb_true_iff, Z.eqb_neq; lia|].
    rewrite u32_id by (unfold is_u32; lia). apply Z.eqb_eq.
    kbits.
Qed.

Lemma roundup_pow_of_two_spec n : 1 < n <= 2 ^ 31 ->
  exists k, 0 <= k <= 31 /\ __roundup_pow_of_two n = 2 ^ k /\ 2 ^ (k - 1) < n <= 2 ^ k.
Proof.
  intros. unfold __roundup_pow_of_two, fls_long.
  rewrite (u32_id (n - 1)) by (unfold is_u32; lia). rewrite fls_log2 by lia.
  exists (Z.log2 (n - 1) + 1). destruct (Z.log2_spec (n - 1)) as [L1 L2]; [lia|].
  pose proof (Z.log2_nonneg (n - 1)).
  assert (Z.log2 (n - 1) < 31) by (apply Z.log2_lt_pow2; lia).
  split; [lia|]. rewrite Z.shiftl_1_l. split.
  - apply u32_id. unfold is_u32. split; [lia|]. apply Z.pow_lt_mono_r; lia.
  - replace (Z.log2 (n - 1) + 1 - 1) with (Z.log2 (n - 1)) by lia.
    replace (Z.log2 (n - 1) + 1) with (Z.succ (Z.log2 (n - 1))) by lia. lia.
Qed.

(** ** Hamming weight *)

Fixpoint popcount (n : nat) (x : Z) : Z :=
  match n with
  | O => 0
  | S n' => Z.b2z (Z.testbit x (Z.of_nat n')) + popcount n' x
  end.

(** A word as its bytes, least significant first. *)
Fixpoint le_val (bs : list Z) : Z :=
  match bs with [] => 0 | b :: bs' => b + 256 * le_val bs' end.

Lemma le_val_nonneg bs : bytes bs -> 0 <= le_val bs.
Proof. induction 1 as [|b bs Hb _ IH]; simpl; [lia|]. unfold is_u8 in Hb. lia. Qed.

(** A byte below the rest of a word, as disjoint bits. *)
Lemma byte_cons_bits b x i : is_u8 b -> 0 <= i ->
  Z.testbit (b + 256 * x) i = if i <? 8 then Z.testbit b i else Z.testbit x (i - 8).
Proof.
  unfold is_u8. intros Hb Hi. destruct (Z.ltb_spec i 8).
  - rewrite <- (Z.mod_pow2_bits_low (b + 256 * x) 8) by lia. f_equal.
    change (2 ^ 8) with 256. rewrite (Z.mul_comm 256), Z_mod_plus_full.
    apply Z.mod_small. lia.
  - replace i with ((i - 8) + 8) at 1 by lia. rewrite <- Z.div_pow2_bits by lia.
    f_equal. change (2 ^ 8) with 256. rewrite (Z.mul_comm 256), Z.div_add by lia.
    rewrite Z.div_small; lia.
Qed.

Lemma byte_cons_land b x m y : is_u8 b -> is_u8 m ->
  Z.land (b + 256 * x) (m + 256 * y) = Z.land b m + 256 * Z.land x y.
Proof.
  intros Hb Hm. apply Z.bits_inj'. intros i Hi.
  rewrite Z.land_spec, !byte_cons_bits by (done || (apply (land_range 8); [lia|done])).
  destruct (i <? 8); rewrite Z.land_spec; done.
Qed.

Lemma byte_cons_shr_land b x m y k : is_u8 b -> 0 <= k <= 8 -> 0 <= m < 2 ^ (8 - k) ->
  Z.land (Z.shiftr (b + 256 * x) k) (m + 256 * y) =
    Z.land (Z.shiftr b k) m + 256 * Z.land (Z.shiftr x k) y.
Proof.
  intros Hb Hk Hm.
  assert (Hm8 : is_u8 m).
  { unfold is_u8. pose proof (Z.pow_le_mono_r 2 (8 - k) 8). lia. }
  apply Z.bits_inj'. intros i Hi.
  rewrite Z.land_spec, testbit_shiftr, !byte_cons_bits by
    first [done | lia | apply (land_range 8); [lia|apply shiftr_range; [lia|lia|done]]].
  rewrite !Z.land_spec, !testbit_shiftr.
  split_cmp; simpl; try lia; try done.
  - rewrite (testbit_high (8 - k) m i) by lia. rewrite !andb_false_r. done.
  - f_equal. f_equal. lia.
Qed.

Lemma le_val_land bs m : bytes bs -> is_u8 m ->
  Z.land (le_val bs) (le_val (replicate (length bs) m)) = le_val ((fun b => Z.land b m) <$> bs).
Proof.
  intros Hbs Hm. induction Hbs as [|b bs Hb _ IH]; simpl; [done|].
  rewrite byte_cons_land, IH by done. done.
Qed.

Lemma le_val_shr_land bs m k : bytes bs -> 0 <= k <= 8 -> 0 <= m < 2 ^ (8 - k) ->
  Z.land (Z.shiftr (le_val bs) k) (le_val (replicate (length bs) m)) =
    le_val ((fun b => Z.land (Z.shiftr b k) m) <$> bs).
Proof.
  intros Hbs Hk Hm. induction Hbs as [|b bs Hb _ IH]; simpl.
  - by rewrite Z.land_0_r.
  - rewrite byte_cons_shr_land, IH by done. done.
Qed.

Lemma le_val_fmap_sub (f g : Z -> Z) (bs : list Z) :
  le_val (f <$> bs) - le_val (g <$> bs) = le_val ((fun b => f b - g b) <$> bs).
Proof. induction bs; rewrite ?fmap_cons; cbn [le_val]; [done|lia]. Qed.

Lemma le_val_fmap_add (f g : Z -> Z) (bs : list Z) :
  le_val (f <$> bs) + le_val (g <$> bs) = le_val ((fun b => f b + g b) <$> bs).
Proof. induction bs; rewrite ?fmap_cons; cbn [le_val]; [done|lia]. Qed.

(** Bytes whose two nibbles are at most 4: adding the word to itself shifted
    by a nibble carries nothing into the low nibbles. *)
Definition small_nibbles (b : Z) : Prop := 0 <= b <= 0x44 /\ b mod 16 <= 4.

Lemma le_val_nibbles bs : Forall small_nibbles bs ->
  0 <= le_val bs /\ le_val bs mod 16 <= 4 /\
  Z.land (le_val bs + Z.shiftr (le_val bs) 4) (le_val (replicate (length bs) 0x0F)) =
    le_val ((fun b => Z.land (b + Z.shiftr b 4) 0x0F) <$> bs).
Proof.
  induction 1 as [|b bs [Hb Hb'] _ (IH0 & IH1 & IH2)]; cbn [le_val length replicate fmap list_fmap].
  { split; [lia|]. split; [done|]. done. }
  split; [lia|]. split.
  { replace (b + 256 * le_val bs) with (b + (16 * le_val bs) * 16) by lia.
    rewrite Z_mod_plus_full. done. }
  rewrite <- IH2. rewrite !Z.shiftr_div_pow2 by lia. change (2 ^ 4) with 16.
  set (R := le_val bs) in *. pose proof (Z.div_mod R 16 ltac:(lia)).
  replace (b + 256 * R + (b + 256 * R) / 16)
    with ((b + b / 16 + 16 * (R mod 16)) + 256 * (R + R / 16)).
  2:{ replace ((b + 256 * R) / 16) with (b / 16 + 16 * R); [lia|].
      replace (b + 256 * R) with (b + (16 * R) * 16) by lia. rewrite Z.div_add; lia. }
  assert (0 <= b / 16 <= 4) by (Z.to_euclidean_division_equations; lia).
  pose proof (Z.mod_pos_bound R 16 ltac:(lia)).
  rewrite byte_cons_land by (unfold is_u8; lia). f_equal.
  change 15 with (2 ^ 4 - 1). rewrite !land_mask by lia. change (2 ^ 4) with 16.
  rewrite (Z.mul_comm 16), Z_mod_plus_full. done.
Qed.

(** Facts about one byte are checked on all 256. *)
Lemma all_bytes (P : Z -> Prop) {PD : forall b, Decision (P b)} :
  forallb (fun b => bool_decide (P b)) (seqZ 0 256) = true -> forall b, is_u8 b -> P b.
Proof.
  intros H b Hb. rewrite forallb_forall in H. specialize (H b).
  apply (bool_decide_eq_true_1 (P b)), H. apply list_elem_of_In, elem_of_seqZ.
  unfold is_u8 in Hb. lia.
Qed.

Definition hw_step1 (b : Z) : Z := b - Z.land (Z.shiftr b 1) 0x55.
Definition hw_step2 (b : Z) : Z :=
  Z.land (hw_step1 b) 0x33 + Z.land (Z.shiftr (hw_step1 b) 2) 0x33.

Definition hw_byte_ok (b : Z) : Prop :=
  (0 <= hw_step1 b < 2 ^ 8) /\ (0 <= hw_step2 b <= 0x44 /\ hw_step2 b mod 16 <= 4) /\
  Z.land (hw_step2 b + Z.shiftr (hw_step2 b) 4) 0x0F = popcount 8 b /\
  0 <= popcount 8 b <= 8.

#[local] Instance hw_byte_ok_dec b : Decision (hw_byte_ok b).
Proof. unfold hw_byte_ok. apply _. Defined.

Lemma hw_byte b : is_u8 b -> hw_byte_ok b.
Proof. revert b. apply (all_bytes hw_byte_ok). vm_compute. reflexivity. Qed.

(** The first three lines of [hweight32], byte by byte. *)
Lemma hw_bytes bs : bytes bs ->
  let M m := le_val (replicate (length bs) m) in
  let r1 := le_val bs - Z.land (Z.shiftr (le_val bs) 1) (M 0x55) in
  let r2 := Z.land r1 (M 0x33) + Z.land (Z.shiftr r1 2) (M 0x33) in
  r1 = le_val (hw_step1 <$> bs) /\ r2 = le_val (hw_step2 <$> bs) /\
  Z.land (r2 + Z.shiftr r2 4) (M 0x0F) = le_val (popcount 8 <$> bs).
Proof.
  intros Hbs M r1 r2.
  assert (E1 : r1 = le_val (hw_step1 <$> bs)).
  { unfold r1, M. rewrite le_val_shr_land by (done || lia).
    rewrite <- (list_fmap_id bs) at 1. rewrite le_val_fmap_sub. done. }
  assert (B1 : bytes (hw_step1 <$> bs)).
  { apply Forall_fmap. eapply Forall_impl; [exact Hbs|]. intros b Hb. apply hw_byte, Hb. }
  assert (E2 : r2 = le_val (hw_step2 <$> bs)).
  { unfold r2, M. rewrite E1, <- (length_fmap hw_step1 bs).
    rewrite le_val_land, le_val_shr_land by (done || lia).
    rewrite <- !list_fmap_compose, le_val_fmap_add. done. }
  split; [done|]. split; [done|]. unfold M. rewrite E2, <- (length_fmap hw_step2 bs).
  destruct (le_val_nibbles (hw_step2 <$> bs)) as (_ & _ & ->).
  { apply Forall_fmap. eapply Forall_impl; [exact Hbs|]. intros b Hb. apply hw_byte, Hb. }
  f_equal. rewrite <- list_fmap_compose. apply list_fmap_ext. intros i b Hb.
  eapply Forall_lookup_1 in Hbs; [|exact Hb]. apply hw_byte, Hbs.
Qed.

Lemma popcount_ext n x y :
  (forall i, 0 <= i < Z.of_nat n -> Z.testbit x i = Z.testbit y i) ->
  popcount n x = popcount n y.
Proof.
  induction n as [|n IH]; intros H; cbn [popcount]; [done|].
  rewrite H, IH; [done| |lia]. intros; apply H; lia.
Qed.

Lemma popcount_split n m x :
  popcount (n + m) x = popcount n x + popcount m (Z.shiftr x (Z.of_nat n)).
Proof.
  induction m as [|m IH]; [rewrite Nat.add_0_r; simpl; lia|].
  rewrite Nat.add_succ_r. cbn [popcount]. rewrite IH, testbit_shiftr.
  destruct (Z.leb_spec 0 (Z.of_nat m)); [|lia]. simpl andb.
  replace (Z.of_nat (n + m)) with (Z.of_nat m + Z.of_nat n) by lia. lia.
Qed.

(** The four bytes of a word. *)
Lemma word_bytes w : is_u32 w -> exists a b c d,
  bytes [a; b; c; d] /\ w = le_val [a; b; c; d] /\
  popcount 32 w = popcount 8 a + popcount 8 b + popcount 8 c + popcount 8 d.
Proof.
  unfold is_u32. intros Hw.
  exists (w mod 256), (w / 256 mod 256), (w / 65536 mod 256), (w / 16777216 mod 256).
  split; [|split].
  - repeat constructor; unfold is_u8; apply Z.mod_pos_bound; lia.
  - simpl. Z.to_euclidean_division_equations. lia.
  - rewrite (popcount_split 8 24), (popcount_split 8 16), (popcount_split 8 8).
    rewrite !Z.shiftr_shiftr by lia.
    change (Z.of_nat 8 + Z.of_nat 8 + Z.of_nat 8) with 24.
    change (Z.of_nat 8 + Z.of_nat 8) with 16. change (Z.of_nat 8) with 8.
    assert (B : forall k, 0 <= k ->
      popcount 8 (Z.shiftr w k) = popcount 8 (w / 2 ^ k mod 2 ^ 8)).
    { intros k Hk. apply popcount_ext. intros i Hi.
      rewrite testbit_shiftr, Z.mod_pow2_bits_low, Z.div_pow2_bits by lia.
      split_cmp; [done|lia]. }
    rewrite <- (Z.shiftr_0_r w) at 1. rewrite !B by lia.
    change (2 ^ 0) with 1. rewrite Z.div_1_r.
    change (2 ^ 8) with 256. change (2 ^ 16) with 65536. change (2 ^ 24) with 16777216.
    ring.
Qed.

Lemma hweight32_popcount w : is_u32 w -> hweight32 w = popcount 32 w.
Proof.
  intros Hw. destruct (word_bytes w Hw) as (a & b & c & d & HB & E & ->).
  destruct (hw_bytes _ HB) as (E1 & E2 & E3).
  unfold hweight32.
  change 0x55555555 with (le_val (replicate (length [a; b; c; d]) 0x55)).
  change 0x33333333 with (le_val (replicate (length [a; b; c; d]) 0x33)).
  change 0x0F0F0F0F with (le_val (replicate (length [a; b; c; d]) 0x0F)).
  rewrite E in *. set (bs := [a; b; c; d]) in *.
  assert (Hpc : Forall (fun b => 0 <= popcount 8 b <= 8) bs)
    by (eapply Forall_impl; [exact HB|]; intros x Hx; apply hw_byte, Hx).
  assert (H1 : is_u32 (le_val (hw_step1 <$> bs))).
  { rewrite <- E1. assert (Forall (fun b => is_u8 (hw_step1 b)) bs) as HF
      by (eapply Forall_impl; [exact HB|]; intros x Hx; apply hw_byte, Hx).
    rewrite E1. subst bs. rewrite !Forall_cons in HF. unfold is_u32, is_u8 in *.
    simpl in *. lia. }
  assert (H2 : is_u32 (le_val (hw_step2 <$> bs)) /\ le_val (hw_step2 <$> bs) <= 0x44444444).
  { assert (Forall (fun b => 0 <= hw_step2 b <= 0x44) bs) as HF
      by (eapply Forall_impl; [exact HB|]; intros x Hx; apply hw_byte, Hx).
    subst bs. rewrite !Forall_cons in HF. unfold is_u32. simpl in *. lia. }
  rewrite (u32_id (le_val bs - _)) by (rewrite E1; done). rewrite E1.
  rewrite E1 in E2, E3. rewrite E2 in E3. rewrite E2.
  rewrite (u32_id (le_val (hw_step2 <$> bs))) by apply H2.
  rewrite (u32_id (le_val (hw_step2 <$> bs) + _)).
  2:{ rewrite Z.shiftr_div_pow2 by lia. unfold is_u32 in *.
      Z.to_euclidean_division_equations. lia. }
  rewrite E3. subst bs. rewrite !Forall_cons in Hpc. destruct Hpc as (Ha & Hb & Hc & Hd & _).
  rewrite !fmap_cons. cbn [le_val fmap list_fmap].
  generalize dependent (popcount 8 a). generalize dependent (popcount 8 b).
  generalize dependent (popcount 8 c). generalize dependent (popcount 8 d).
  clear. intros p3 H3 p2 H2 p1 H1 p0 H0.
  rewrite !Z.shiftr_div_pow2 by lia. change (2 ^ 8) with 256. change (2 ^ 16) with 65536.
  assert (D1 : forall x y, 0 <= x < 256 -> (x + 256 * y) / 256 = y)
    by (intros; Z.to_euclidean_division_equations; lia).
  rewrite D1 by lia. rewrite (u32_id (p0 + 256 * _ + _)) by (unfold is_u32; lia).
  match goal with |- context [?x / 65536] => replace (x / 65536) with (p2 + p3 + 256 * p3)
    by (Z.to_euclidean_division_equations; lia) end.
  rewrite (u32_id (_ + _)) by (unfold is_u32; lia).
  change 255 with (2 ^ 8 - 1). rewrite land_mask by lia. change (2 ^ 8) with 256.
  Z.to_euclidean_division_equations. lia.
Qed.

(** ** Bit arrays *)

(** Bit [i] of a bit array. *)
Definition bit (addr : list Z) (i : Z) : bool := Z.testbit (zat addr (i / 32)) (i mod 32).

Definition words (addr : list Z) : Prop := Forall is_u32 addr.

Lemma words_zat addr i : words addr -> is_u32 (zat addr i).
Proof.
  intros H. destruct (decide (0 <= i < len addr)) as [Hi|Hi].
  - assert (Hg := zget_zat addr i Hi). unfold zget in Hg.
    destruct (Z.leb_spec 0 i); [|lia]. eapply Forall_lookup_1 in H; [|exact Hg]. done.
  - rewrite zat_out by lia. unfold is_u32. lia.
Qed.

Lemma bit_word addr p j : 0 <= j < 32 -> bit addr (32 * p + j) = Z.testbit (zat addr p) j.
Proof.
  intros. unfold bit.
  replace ((32 * p + j) / 32) with p by (Z.to_euclidean_division_equations; lia).
  replace ((32 * p + j) mod 32) with j by (Z.to_euclidean_division_equations; lia). done.
Qed.

Lemma bit_index i : exists p j, i = 32 * p + j /\ 0 <= j < 32 /\ p = i / 32 /\ j = i mod 32.
Proof.
  exists (i / 32), (i mod 32). pose proof (Z.div_mod i 32). pose proof (Z.mod_pos_bound i 32). lia.
Qed.

Lemma BIT_MASK_pow2 nr : BIT_MASK nr = 2 ^ (nr mod 32).
Proof.
  unfold BIT_MASK, BITS_PER_LONG. rewrite Z.shiftl_1_l. apply u32_id. unfold is_u32.
  pose proof (Z.mod_pos_bound nr 32). split; [lia|]. apply Z.pow_lt_mono_r; lia.
Qed.

(** Replacing one word of a bit array changes the bits of that word. *)
Lemma bit_insert addr p w i : 0 <= p < len addr ->
  bit (<[Z.to_nat p := w]> addr) i =
    if i / 32 =? p then Z.testbit w (i mod 32) else bit addr i.
Proof.
  intros. unfold bit. rewrite zat_insert. destruct (Z.eqb_spec (i / 32) p).
  - destruct (decide _) as [|Hn]; [done|]. exfalso; apply Hn; lia.
  - destruct (decide _); [lia|done].
Qed.

(** The single-bit updates change exactly bit [nr]. *)
Section SingleBit.
Variables (addr : list Z) (nr : Z).
Hypothesis Hw : words addr.
Hypothesis Hnr : 0 <= nr < 32 * len addr.

Lemma nr_word : 0 <= BIT_WORD nr < len addr.
Proof.
  unfold BIT_WORD, BITS_PER_LONG. split; [apply Z.div_pos; lia|].
  apply Z.div_lt_upper_bound; lia.
Qed.

Lemma update_word (f : Z -> Z) (g : bool -> bool) :
  (forall w, is_u32 w -> is_u32 (f w)) ->
  (forall w j, is_u32 w -> 0 <= j < 32 ->
     Z.testbit (f w) j = if j =? nr mod 32 then g (Z.testbit w j) else Z.testbit w j) ->
  exists addr', (w ← zget addr (BIT_WORD nr); zset addr (BIT_WORD nr) (f w)) = Some addr' /\
    words addr' /\ length addr' = length addr /\
    forall i, bit addr' i = if i =? nr then g (bit addr nr) else bit addr i.
Proof.
  intros Hf1 Hf2. pose proof nr_word as Hp. rewrite zget_zat by lia. simpl.
  rewrite zset_spec by lia. eexists; split; [done|]. split; [|split].
  - apply Forall_insert; [done|]. apply Hf1, words_zat, Hw.
  - apply length_insert.
  - intros i. rewrite bit_insert by lia.
    pose proof (Z.div_mod i 32). pose proof (Z.mod_pos_bound i 32).
    pose proof (Z.div_mod nr 32). unfold BIT_WORD, BITS_PER_LONG in *.
    destruct (Z.eqb_spec (i / 32) (nr / 32)) as [E|].
    + rewrite Hf2 by (try lia; apply words_zat, Hw). rewrite <- E.
      destruct (Z.eqb_spec (i mod 32) (nr mod 32)), (Z.eqb_spec i nr); subst; try lia; done.
    + destruct (Z.eqb_spec i nr); [subst; lia|done].
Qed.

Lemma set_bit_spec : exists addr', __set_bit nr addr = Some addr' /\
  words addr' /\ length addr' = length addr /\
  forall i, bit addr' i = if i =? nr then true else bit addr i.
Proof.
  unfold __set_bit. apply (update_word (fun w => Z.lor w (BIT_MASK nr)) (fun _ => true)).
  - intros w H. rewrite BIT_MASK_pow2. apply (lor_range 32); [lia|done|].
    pose proof (Z.mod_pos_bound nr 32). split; [lia|]. apply Z.pow_lt_mono_r; lia.
  - intros w j H Hj. rewrite BIT_MASK_pow2, Z.lor_spec, testbit_pow2
      by (apply Z.mod_pos_bound; lia).
    destruct (j =? nr mod 32); [apply orb_true_r|apply orb_false_r].
Qed.

Lemma clear_bit_spec : exists addr', __clear_bit nr addr = Some addr' /\
  words addr' /\ length addr' = length addr /\
  forall i, bit addr' i = if i =? nr then false else bit addr i.
Proof.
  unfold __clear_bit. apply (update_word (fun w => Z.land w (~u BIT_MASK nr)) (fun _ => false)).
  - intros w H. apply (land_range 32); [lia|done].
  - intros w j H Hj. rewrite BIT_MASK_pow2, Z.land_spec, testbit_u32, testbit_lnot,
      testbit_pow2 by (apply Z.mod_pos_bound; lia).
    destruct (Z.ltb_spec j 32), (Z.leb_spec 0 j); try lia. simpl.
    destruct (j =? nr mod 32); [apply andb_false_r|apply andb_true_r].
Qed.

Lemma change_bit_spec : exists addr', __change_bit nr addr = Some addr' /\
  words addr' /\ length addr' = length addr /\
  forall i, bit addr' i = if i =? nr then negb (bit addr nr) else bit addr i.
Proof.
  unfold __change_bit. apply (update_word (fun w => Z.lxor w (BIT_MASK nr)) negb).
  - intros w H. rewrite BIT_MASK_pow2. apply (lxor_range 32); [lia|done|].
    pose proof (Z.mod_pos_bound nr 32). split; [lia|]. apply Z.pow_lt_mono_r; lia.
  - intros w j H Hj. rewrite BIT_MASK_pow2, Z.lxor_spec, testbit_pow2
      by (apply Z.mod_pos_bound; lia).
    destruct (j =? nr mod 32); [apply xorb_true_r|apply xorb_false_r].
Qed.

Lemma test_bit_spec : test_bit nr addr = Some (bit addr nr).
Proof.
  unfold test_bit. pose proof nr_word. rewrite zget_zat by lia. simpl. f_equal.
  unfold BITS_PER_LONG. change (32 - 1) with (2 ^ 5 - 1). rewrite land_mask by lia.
  change (2 ^ 5) with 32. unfold bit, BIT_WORD, BITS_PER_LONG.
  set (w := zat _ _). set (k := nr mod 32).
  assert (0 <= k) by (apply Z.mod_pos_bound; lia).
  change 1 with (2 ^ 1 - 1). rewrite Z.land_comm, land_mask by lia.
  change (2 ^ 1) with 2. rewrite Zmod_odd, Z.shiftr_div_pow2, Z.testbit_odd,
    Z.shiftr_div_pow2 by lia.
  by destruct (Z.odd _).
Qed.
End SingleBit.

(** ** The word-wise searches *)

(** A search looks for a bit property [P w j] of the words; [test] says whether
    a word has such a bit and [locate] where its lowest one is. *)
Section Search.
Variables (P : Z -> Z -> bool) (test : Z -> bool) (locate : Z -> Z).
Hypothesis test_none : forall w, is_u32 w -> test w = false ->
  forall j, 0 <= j < 32 -> P w j = false.
Hypothesis test_some : forall w, is_u32 w -> test w = true ->
  is_first (P w) 0 32 (locate w) /\ locate w < 32.

Variable addr : list Z.
Hypothesis Hw : words addr.
Hypothesis Hlen : 32 * len addr < 2 ^ 32.

(** The property at bit [i] of the array. *)
Definition arrP (i : Z) : bool := P (zat addr (i / 32)) (i mod 32).

Lemma arrP_word p j : 0 <= j < 32 -> arrP (32 * p + j) = P (zat addr p) j.
Proof.
  intros. unfold arrP.
  replace ((32 * p + j) / 32) with p by (Z.to_euclidean_division_equations; lia).
  replace ((32 * p + j) mod 32) with j by (Z.to_euclidean_division_equations; lia). done.
Qed.

Lemma size_test size : is_u32 size ->
  (Z.land size (~u (BITS_PER_LONG - 1)) =? 0) = (size <? 32).
Proof.
  intros H. change (~u (BITS_PER_LONG - 1)) with (2 ^ 32 - 2 ^ (32 - 27)).
  rewrite fls_step by (done || lia). done.
Qed.

Definition scan_ok (p size : Z) (s : scan) : Prop :=
  match s with
  | Found r t => exists p', r = 32 * p' /\ t = zat addr p' /\ test t = true /\
      p <= p' /\ 32 * p' + 32 <= 32 * p + size /\
      forall i, 32 * p <= i < 32 * p' -> arrP i = false
  | Rest p' size' r => r = 32 * p' /\ 0 <= size' < 32 /\ 32 * p' + size' = 32 * p + size /\
      p <= p' /\ forall i, 32 * p <= i < 32 * p' -> arrP i = false
  end.

Lemma scan_words_ok fuel p size :
  0 <= p -> 0 <= size -> 32 * p + size <= 32 * len addr ->
  (Z.to_nat (size / 32) < fuel)%nat ->
  exists s, scan_words fuel test addr p size (32 * p) = Some s /\ scan_ok p size s.
Proof.
  revert p size. induction fuel as [|fuel IH]; intros p size Hp Hs Hb Hf; [lia|].
  cbn [scan_words]. rewrite size_test by (unfold is_u32; lia).
  destruct (Z.ltb_spec size 32).
  { eexists; split; [done|]. split; [done|]. split; [lia|]. split; [lia|]. split; [lia|].
    intros; lia. }
  rewrite zget_zat by lia. simpl.
  assert (Hz := words_zat addr p Hw).
  destruct (test (zat addr p)) eqn:Et.
  { eexists; split; [done|]. exists p. repeat split; try lia. done. }
  unfold BITS_PER_LONG. rewrite !u32_id by (unfold is_u32; lia).
  replace (32 * p + 32) with (32 * (p + 1)) by lia.
  destruct (IH (p + 1) (size - 32)) as (s & -> & Hs'); try lia.
  { replace (size - 32) with (size + (-1) * 32) by lia. rewrite Z.div_add by lia.
    assert (1 <= size / 32) by (apply Z.div_le_lower_bound; lia). lia. }
  exists s. split; [done|].
  assert (Hp0 : forall i, 32 * p <= i < 32 * (p + 1) -> arrP i = false).
  { intros i Hi. replace i with (32 * p + (i - 32 * p)) by lia.
    rewrite arrP_word by lia. apply test_none; [done|done|lia]. }
  destruct s as [r t|p' size' r]; simpl in *.
  - destruct Hs' as (p' & ? & ? & ? & ? & ? & Hn). exists p'. repeat split; try done; try lia.
    intros i Hi. destruct (Z.ltb_spec i (32 * (p + 1))); [apply Hp0|apply Hn]; lia.
  - destruct Hs' as (? & ? & ? & ? & Hn). repeat split; try done; try lia.
    intros i Hi. destruct (Z.ltb_spec i (32 * (p + 1))); [apply Hp0|apply Hn]; lia.
Qed.

(** A word in which [locate] found the bit, after bits known not to have it. *)
Lemma found_word lo hi p : lo <= 32 * p -> 32 * p + 32 <= hi ->
  test (zat addr p) = true -> (forall i, lo <= i < 32 * p -> arrP i = false) ->
  is_first arrP lo hi (32 * p + locate (zat addr p)).
Proof.
  intros Hlo Hhi Ht Hb.
  destruct (test_some _ (words_zat addr p Hw) Ht) as [(A & B & C) D].
  split; [lia|]. split.
  - intros j Hj. destruct (Z.ltb_spec j (32 * p)); [apply Hb; lia|].
    replace j with (32 * p + (j - 32 * p)) by lia. rewrite arrP_word by lia. apply B; lia.
  - intros _. rewrite arrP_word by lia. apply C; lia.
Qed.

(** [tail t size] searches the low [size] bits of a word. *)
Variable tail : Z -> Z -> Z -> Z.
Hypothesis tail_ok : forall w size base, is_u32 w -> 0 < size < 32 -> is_u32 (base + 32) ->
  0 <= base -> exists k, tail w size base = base + k /\ is_first (P w) 0 size k.

Lemma partial_word lo p size : lo <= 32 * p -> 0 < size < 32 -> 0 <= p -> 32 * p + 32 < 2 ^ 32 ->
  (forall i, lo <= i < 32 * p -> arrP i = false) ->
  is_first arrP lo (32 * p + size) (tail (zat addr p) size (32 * p)).
Proof.
  intros Hlo Hs Hp Hlt Hb.
  destruct (tail_ok (zat addr p) size (32 * p)) as (k & -> & A & B & C);
    [apply words_zat, Hw|lia|unfold is_u32; lia|lia|].
  split; [lia|]. split.
  - intros j Hj. destruct (Z.ltb_spec j (32 * p)); [apply Hb; lia|].
    replace j with (32 * p + (j - 32 * p)) by lia. rewrite arrP_word by lia. apply B; lia.
  - intros ?. rewrite arrP_word by lia. apply C; lia.
Qed.

(** The loop and the code after it, from a word boundary. *)
Definition search_from (p size result : Z) : option Z :=
  s ← scan_words (scan_fuel size) test addr p size result;
  match s with
  | Found result tmp => Some (result +u locate tmp)
  | Rest p size result =>
      if size =? 0 then Some result else
      tmp ← zget addr p; Some (tail tmp size result)
  end.

Lemma search_from_ok lo p size : lo <= 32 * p -> 0 <= p -> 0 <= size ->
  32 * p + size <= 32 * len addr -> (forall i, lo <= i < 32 * p -> arrP i = false) ->
  exists r, search_from p size (32 * p) = Some r /\ is_first arrP lo (32 * p + size) r.
Proof.
  intros Hlo Hp Hs Hb Hlow. unfold search_from.
  destruct (scan_words_ok (scan_fuel size) p size) as (s & -> & Hok); try lia.
  { unfold scan_fuel, BITS_PER_LONG. lia. }
  assert (Hjoin : forall p', (forall i, 32 * p <= i < 32 * p' -> arrP i = false) ->
    forall i, lo <= i < 32 * p' -> arrP i = false).
  { intros p' Hn i Hi. destruct (Z.ltb_spec i (32 * p)); [apply Hlow|apply Hn]; lia. }
  simpl. destruct s as [r t|p' size' r]; simpl in Hok.
  - destruct Hok as (p' & -> & -> & Ht & ? & ? & Hn).
    destruct (test_some _ (words_zat addr p' Hw) Ht) as [(A & _ & _) D].
    eexists; split; [done|]. rewrite u32_id by (unfold is_u32; lia).
    apply found_word; try lia; [done|]. by apply Hjoin.
  - destruct Hok as (-> & ? & E & ? & Hn). destruct (Z.eqb_spec size' 0).
    + eexists; split; [done|]. split; [lia|]. split; [|lia].
      intros; apply (Hjoin p'); [done|lia].
    + rewrite zget_zat by lia. simpl. eexists; split; [done|]. rewrite <- E.
      apply partial_word; try lia. by apply Hjoin.
Qed.
End Search.

Lemma nonzero_none w : is_u32 w -> nonzero w = false ->
  forall j, 0 <= j < 32 -> Z.testbit w j = false.
Proof.
  unfold nonzero. intros _ H j _. apply negb_false_iff, Z.eqb_eq in H. subst. apply Z.testbit_0_l.
Qed.

Lemma nonzero_some w : is_u32 w -> nonzero w = true ->
  is_first (Z.testbit w) 0 32 (__ffs w) /\ __ffs w < 32.
Proof.
  unfold nonzero. intros Hw H. apply negb_true_iff, Z.eqb_neq in H. by apply ffs_first.
Qed.

Definition is_zero_bit (w j : Z) : bool := negb (Z.testbit w j).

Lemma lnot_word w : is_u32 w -> ~u w = 0xffffffff - w.
Proof.
  unfold is_u32. intros. unfold u32, wrap, Z.lnot. symmetry. apply Z.mod_unique with (-1); lia.
Qed.

Lemma ones_none w : is_u32 w -> not_all_ones w = false ->
  forall j, 0 <= j < 32 -> is_zero_bit w j = false.
Proof.
  unfold not_all_ones, is_zero_bit. intros Hw H j Hj. rewrite lnot_word in H by done.
  apply negb_false_iff, Z.eqb_eq in H. replace w with (2 ^ 32 - 1) by lia.
  rewrite testbit_mask by lia. split_cmp; try lia; done.
Qed.

Lemma ones_some w : is_u32 w -> not_all_ones w = true ->
  is_first (is_zero_bit w) 0 32 (ffz w) /\ ffz w < 32.
Proof.
  unfold not_all_ones. intros Hw H. rewrite lnot_word in H by done.
  apply negb_true_iff, Z.eqb_neq in H. apply ffz_first; [done|lia].
Qed.

Lemma ones_shiftr size : 0 <= size <= 32 -> Z.shiftr 0xffffffff (32 - size) = 2 ^ size - 1.
Proof.
  intros. change 0xffffffff with (2 ^ 32 - 1). apply Z.bits_inj'. intros i Hi.
  rewrite testbit_shiftr, !testbit_mask by lia. split_cmp; simpl; try lia; done.
Qed.

Lemma found_first_ok w size base : is_u32 w -> 0 < size < 32 -> is_u32 (base + 32) -> 0 <= base ->
  exists k, found_first w size base = base + k /\ is_first (Z.testbit w) 0 size k.
Proof.
  intros Hw Hs Hb Hb0. unfold found_first, BITS_PER_LONG. rewrite ones_shiftr by lia.
  set (t := Z.land w (2 ^ size - 1)).
  assert (Ht : is_u32 t) by (apply (land_range 32); [lia|done]).
  assert (T : forall j, 0 <= j < size -> Z.testbit t j = Z.testbit w j).
  { intros j Hj. unfold t. rewrite Z.land_spec, testbit_mask by lia.
    split_cmp; try lia. apply andb_true_r. }
  unfold is_u32 in Hb. destruct (Z.eqb_spec t 0) as [E|Hn].
  - exists size. rewrite u32_id by (unfold is_u32; lia). split; [done|]. split; [lia|].
    split; [|lia]. intros j Hj. rewrite <- T by lia. rewrite E. apply Z.testbit_0_l.
  - destruct (ffs_first t Ht Hn) as [(A & B & C) D]. specialize (C D).
    exists (__ffs t). rewrite u32_id by (unfold is_u32; lia). split; [done|].
    assert (__ffs t < size).
    { destruct (Z.ltb_spec (__ffs t) size); [done|]. unfold t at 1 in C.
      rewrite Z.land_spec, testbit_mask in C by lia.
      destruct (Z.ltb_spec (__ffs t) size); [lia|]. rewrite !andb_false_r in C. done. }
    split; [lia|]. split; [|intros _; rewrite <- T by lia; done].
    intros j Hj. rewrite <- T by lia. apply B; lia.
Qed.

Lemma found_first_zero_ok w size base :
  is_u32 w -> 0 < size < 32 -> is_u32 (base + 32) -> 0 <= base ->
  exists k, found_first_zero w size base = base + k /\ is_first (is_zero_bit w) 0 size k.
Proof.
  intros Hw Hs Hb Hb0. unfold found_first_zero.
  set (t := Z.lor w (0xffffffff <<u size)).
  assert (Ht : is_u32 t) by (apply (lor_range 32); [lia|done|apply u32_range]).
  assert (T : forall j, 0 <= j < 32 ->
    is_zero_bit t j = (j <? size) && is_zero_bit w j).
  { intros j Hj. unfold t, is_zero_bit. change 0xffffffff with (2 ^ 32 - 1).
    rewrite Z.lor_spec, testbit_u32, testbit_shiftl, testbit_mask by lia.
    split_cmp; simpl; try lia; rewrite ?orb_false_r, ?orb_true_r; done. }
  unfold is_u32 in Hb. destruct (Z.eqb_spec t 0xffffffff) as [E|Hn].
  - exists size. rewrite u32_id by (unfold is_u32; lia). split; [done|]. split; [lia|].
    split; [|lia]. intros j Hj.
    assert (is_zero_bit t j = false) as F.
    { unfold is_zero_bit. rewrite E. change 0xffffffff with (2 ^ 32 - 1).
      rewrite testbit_mask by lia. split_cmp; try lia; done. }
    rewrite T in F by lia. destruct (Z.ltb_spec j size); [done|lia].
  - destruct (ffz_first t Ht Hn) as [(A & B & C) D]. specialize (C D).
    fold (is_zero_bit t (ffz t)) in C. rewrite T in C by lia.
    apply andb_true_iff in C as [C1 C2]. apply Z.ltb_lt in C1.
    exists (ffz t). rewrite u32_id by (unfold is_u32; lia). split; [done|].
    split; [lia|]. split; [|intros _; done].
    intros j Hj. specialize (B j ltac:(lia)). fold (is_zero_bit t j) in B.
    rewrite T in B by lia. destruct (Z.ltb_spec j size); [done|lia].
Qed.

(** [is_first] under a mask that hides the bits below [o]. *)
Lemma is_first_mask (P Q : Z -> bool) o h k : 0 <= o <= h ->
  (forall j, 0 <= j < h -> Q j = if j <? o then false else P j) ->
  is_first Q 0 h k -> is_first P o h k.
Proof.
  intros Ho HQ (A & B & C).
  assert (o <= k).
  { destruct (Z.leb_spec o k); [done|]. specialize (C ltac:(lia)).
    rewrite HQ in C by lia. destruct (Z.ltb_spec k o); [done|lia]. }
  split; [lia|]. split.
  - intros j Hj. specialize (B j ltac:(lia)). rewrite HQ in B by lia.
    destruct (Z.ltb_spec j o); [lia|done].
  - intros Hk. specialize (C Hk). rewrite HQ in C by lia.
    destruct (Z.ltb_spec k o); [done|done].
Qed.

Section SearchNext.
Variables (P : Z -> Z -> bool) (test : Z -> bool) (locate : Z -> Z).
Variables (tail : Z -> Z -> Z -> Z) (mask : Z -> Z -> Z).
Hypothesis test_none : forall w, is_u32 w -> test w = false ->
  forall j, 0 <= j < 32 -> P w j = false.
Hypothesis test_some : forall w, is_u32 w -> test w = true ->
  is_first (P w) 0 32 (locate w) /\ locate w < 32.
Hypothesis tail_ok : forall w size base, is_u32 w -> 0 < size < 32 -> is_u32 (base + 32) ->
  0 <= base -> exists k, tail w size base = base + k /\ is_first (P w) 0 size k.
Hypothesis mask_u32 : forall w o, is_u32 w -> 0 < o < 32 -> is_u32 (mask w o).
Hypothesis mask_ok : forall w o j, 0 < o < 32 -> 0 <= j < 32 ->
  P (mask w o) j = if j <? o then false else P w j.

Variable addr : list Z.
Hypothesis Hw : words addr.
Hypothesis Hlen : 32 * len addr + 32 < 2 ^ 32.

Definition search_next (size offset : Z) : option Z :=
  let p := offset / BITS_PER_LONG in
  let result := Z.land offset (~u (BITS_PER_LONG - 1)) in
  if size <=? offset then Some size else
  let size := size -u result in
  let offset := offset mod BITS_PER_LONG in
  if negb (offset =? 0) then
    tmp ← zget addr p;
    let tmp := mask tmp offset in
    if size <? BITS_PER_LONG then Some (tail tmp size result)
    else if test tmp then Some (result +u locate tmp)
    else search_from test locate addr tail (p + 1) (size -u BITS_PER_LONG)
           (result +u BITS_PER_LONG)
  else search_from test locate addr tail p size result.

(** From the first (masked) word to the array. *)
Lemma first_of_word p o h k : 0 <= o -> h <= 32 ->
  is_first (P (zat addr p)) o h k -> is_first (arrP P addr) (32 * p + o) (32 * p + h) (32 * p + k).
Proof.
  intros Ho Hh (A & B & C). split; [lia|]. split.
  - intros j Hj. replace j with (32 * p + (j - 32 * p)) by lia.
    rewrite arrP_word by lia. apply B; lia.
  - intros Hk. rewrite arrP_word by lia. apply C; lia.
Qed.

Lemma is_first_extend lo hi hi' r : r < hi -> hi <= hi' ->
  is_first (arrP P addr) lo hi r -> is_first (arrP P addr) lo hi' r.
Proof. intros ?? (A & B & C). split; [lia|]. split; [done|]. intros _. by apply C. Qed.

Lemma search_next_ok size offset :
  0 <= offset < size -> size <= 32 * len addr ->
  exists r, search_next size offset = Some r /\ is_first (arrP P addr) offset size r.
Proof.
  intros Ho Hs. unfold search_next. destruct (Z.leb_spec size offset); [lia|].
  change (~u (BITS_PER_LONG - 1)) with (2 ^ 32 - 2 ^ 5).
  rewrite land_high_mask by lia. change (2 ^ 5) with 32. unfold BITS_PER_LONG.
  destruct (bit_index offset) as (p & o & E & Ho32 & Hp & Ho'). rewrite <- Hp, <- Ho'.
  assert (0 <= p) by (rewrite Hp; apply Z.div_pos; lia).
  replace (offset - o) with (32 * p) by lia.
  rewrite (u32_id (size - 32 * p)) by (unfold is_u32; lia).
  destruct (Z.eqb_spec o 0) as [->|Hno]; simpl negb; cbv iota.
  { destruct (search_from_ok P test locate test_none test_some addr Hw ltac:(lia) tail tail_ok
      (32 * p) p (size - 32 * p)) as (r & -> & Hr); try lia.
    exists r. split; [done|]. replace (32 * p + (size - 32 * p)) with size in Hr by lia.
    replace offset with (32 * p) by lia. done. }
  rewrite zget_zat by lia. simpl.
  assert (Hzm : is_u32 (mask (zat addr p) o)) by (apply mask_u32; [apply words_zat, Hw|lia]).
  destruct (Z.ltb_spec (size - 32 * p) 32).
  { eexists; split; [done|].
    destruct (tail_ok (mask (zat addr p) o) (size - 32 * p) (32 * p)) as (k & -> & Hk);
      [done|lia|unfold is_u32; lia|lia|].
    apply (is_first_mask (P (zat addr p)) _ o) in Hk; [|lia|intros; apply mask_ok; lia].
    apply (first_of_word p) in Hk; [|lia|lia].
    replace (32 * p + (size - 32 * p)) with size in Hk by lia. rewrite E. done. }
  destruct (test (mask (zat addr p) o)) eqn:Et.
  { eexists; split; [done|]. destruct (test_some _ Hzm Et) as [Hk HD].
    assert (0 <= locate (mask (zat addr p) o)) by (destruct Hk; lia).
    rewrite u32_id by (unfold is_u32; lia).
    apply (is_first_mask (P (zat addr p)) _ o) in Hk; [|lia|intros; apply mask_ok; lia].
    apply (first_of_word p) in Hk; [|lia|lia]. rewrite E.
    eapply is_first_extend; [| |exact Hk]; lia. }
  rewrite !u32_id by (unfold is_u32; lia).
  replace (32 * p + 32) with (32 * (p + 1)) by lia.
  destruct (search_from_ok P test locate test_none test_some addr Hw ltac:(lia) tail tail_ok
    offset (p + 1) (size - 32 * p - 32)) as (r & -> & Hr); try lia.
  { intros i Hi. replace i with (32 * p + (i - 32 * p)) by lia. rewrite arrP_word by lia.
    pose proof (test_none _ Hzm Et (i - 32 * p) ltac:(lia)) as HF.
    rewrite mask_ok in HF by lia. destruct (Z.ltb_spec (i - 32 * p) o); [lia|done]. }
  exists r. split; [done|].
  replace (32 * (p + 1) + (size - 32 * p - 32)) with size in Hr by lia. done.
Qed.
End SearchNext.

Lemma arrP_bit addr : arrP Z.testbit addr = bit addr.
Proof. done. Qed.

Definition zero_bit (addr : list Z) (i : Z) : bool := negb (bit addr i).

Lemma set_mask_ok w o j : 0 < o < 32 -> 0 <= j < 32 ->
  Z.testbit (Z.land w (0xffffffff <<u o)) j = if j <? o then false else Z.testbit w j.
Proof.
  intros. change 0xffffffff with (2 ^ 32 - 1).
  rewrite Z.land_spec, testbit_u32, testbit_shiftl, testbit_mask by lia.
  split_cmp; simpl; try lia; rewrite ?andb_false_r, ?andb_true_r; done.
Qed.

Lemma zero_mask_ok w o j : 0 < o < 32 -> 0 <= j < 32 ->
  is_zero_bit (Z.lor w (Z.shiftr 0xffffffff (BITS_PER_LONG - o))) j =
    if j <? o then false else is_zero_bit w j.
Proof.
  intros. unfold is_zero_bit, BITS_PER_LONG. rewrite ones_shiftr by lia.
  rewrite Z.lor_spec, testbit_mask by lia.
  split_cmp; simpl; try lia; rewrite ?orb_false_r, ?orb_true_r; done.
Qed.

Section Searches.
Variable addr : list Z.
Hypothesis Hw : words addr.
Hypothesis Hlen : 32 * len addr + 32 < 2 ^ 32.

Lemma find_next_bit_ok size offset : 0 <= offset < size -> size <= 32 * len addr ->
  exists r, find_next_bit addr size offset = Some r /\ is_first (bit addr) offset size r.
Proof.
  apply (search_next_ok Z.testbit nonzero __ffs found_first
    (fun w o => Z.land w (0xffffffff <<u o)) nonzero_none nonzero_some found_first_ok);
    [|apply set_mask_ok|done|done].
  intros. apply (land_range 32); [lia|done].
Qed.

Lemma find_next_zero_bit_ok size offset : 0 <= offset < size -> size <= 32 * len addr ->
  exists r, find_next_zero_bit addr size offset = Some r /\ is_first (zero_bit addr) offset size r.
Proof.
  apply (search_next_ok is_zero_bit not_all_ones ffz found_first_zero
    (fun w o => Z.lor w (Z.shiftr 0xffffffff (BITS_PER_LONG - o)))
    ones_none ones_some found_first_zero_ok);
    [|apply zero_mask_ok|done|done].
  intros. apply (lor_range 32); [lia|done|].
  unfold BITS_PER_LONG. rewrite ones_shiftr by lia.
  pose proof (Z.pow_lt_mono_r 2 o 32). lia.
Qed.

Lemma find_first_bit_ok size : 0 <= size <= 32 * len addr ->
  exists r, find_first_bit addr size = Some r /\ is_first (bit addr) 0 size r.
Proof.
  intros. destruct (search_from_ok Z.testbit nonzero __ffs nonzero_none nonzero_some addr Hw
    ltac:(lia) found_first found_first_ok 0 0 size) as (r & E & Hr); try lia.
  exists r. split; [exact E|done].
Qed.

Lemma find_first_zero_bit_ok size : 0 <= size <= 32 * len addr ->
  exists r, find_first_zero_bit addr size = Some r /\ is_first (zero_bit addr) 0 size r.
Proof.
  intros. destruct (search_from_ok is_zero_bit not_all_ones ffz ones_none ones_some addr Hw
    ltac:(lia) found_first_zero found_first_zero_ok 0 0 size) as (r & E & Hr); try lia.
  exists r. split; [exact E|done].
Qed.

Lemma find_next_bit_past size offset : size <= offset -> find_next_bit addr size offset = Some size.
Proof. intros. unfold find_next_bit. destruct (Z.leb_spec size offset); [done|lia]. Qed.

Lemma find_next_zero_bit_past size offset :
  size <= offset -> find_next_zero_bit addr size offset = Some size.
Proof. intros. unfold find_next_zero_bit. destruct (Z.leb_spec size offset); [done|lia]. Qed.

(** [is_last P hi r]: [r] is the greatest index below [hi] with [P], [hi] if none. *)
Definition is_last (P : Z -> bool) (hi r : Z) : Prop :=
  (0 <= r < hi /\ P r = true /\ forall j, r < j < hi -> P j = false) \/
  (r = hi /\ forall j, 0 <= j < hi -> P j = false).

Lemma last_bit_word w : is_u32 w -> w <> 0 ->
  0 <= __fls w < 32 /\ Z.testbit w (__fls w) = true /\
  forall j, __fls w < j -> Z.testbit w j = false.
Proof.
  unfold is_u32. intros Hx Hn. unfold __fls. rewrite fls_log2 by lia.
  replace (Z.log2 w + 1 - 1) with (Z.log2 w) by lia.
  assert (Z.log2 w < 32) by (apply Z.log2_lt_pow2; lia).
  split; [pose proof (Z.log2_nonneg w); lia|]. split; [apply Z.bit_log2; lia|].
  intros. apply Z.bits_above_log2; lia.
Qed.

(** A set bit of word [p], with nothing set between that word and [hi]. *)
Lemma last_of_word p t hi : 0 <= p -> is_u32 t -> t <> 0 -> 32 * p + __fls t < hi ->
  hi <= 32 * len addr ->
  (forall j, 0 <= j < 32 -> 32 * p + j < hi -> Z.testbit t j = bit addr (32 * p + j)) ->
  (forall j, 32 * p + 32 <= j < hi -> bit addr j = false) ->
  is_last (bit addr) hi ((p *u BITS_PER_LONG) +u __fls t).
Proof.
  intros Hp Ht Hn Hh Hhi Hb Hup. destruct (last_bit_word t Ht Hn) as (A & B & C).
  unfold BITS_PER_LONG. rewrite (u32_id (p * 32)), u32_id by (unfold is_u32; lia).
  replace (p * 32) with (32 * p) by lia. left. split; [lia|]. split.
  - rewrite <- Hb by lia. done.
  - intros j Hj. destruct (Z.ltb_spec j (32 * p + 32)); [|apply Hup; lia].
    replace j with (32 * p + (j - 32 * p)) by lia. rewrite <- Hb by lia. apply C; lia.
Qed.

Lemma last_word_ok n : Z.of_nat n <= len addr ->
  exists r, last_word addr n = Some r /\
    match r with
    | Some (p, t) => 0 <= p < Z.of_nat n /\ t = zat addr p /\ t <> 0 /\
        forall j, 32 * p + 32 <= j < 32 * Z.of_nat n -> bit addr j = false
    | None => forall j, 0 <= j < 32 * Z.of_nat n -> bit addr j = false
    end.
Proof.
  induction n as [|n IH]; intros Hn; cbn [last_word].
  { exists None; split; [done|]. cbn. intros; lia. }
  rewrite zget_zat by lia. cbn [mbind option_bind].
  assert (Hz := words_zat addr (Z.of_nat n) Hw).
  destruct (nonzero (zat addr (Z.of_nat n))) eqn:E.
  - eexists; split; [done|]. unfold nonzero in E. apply negb_true_iff, Z.eqb_neq in E.
    split; [lia|]. split; [done|]. split; [done|]. intros; lia.
  - assert (Hno : forall j, 32 * Z.of_nat n <= j < 32 * Z.of_nat (S n) -> bit addr j = false).
    { intros j Hj. replace j with (32 * Z.of_nat n + (j - 32 * Z.of_nat n)) by lia.
      rewrite bit_word by lia. apply nonzero_none; [done|done|lia]. }
    destruct IH as (r & -> & Hr); [lia|]. exists r. split; [done|].
    destruct r as [[p t]|].
    + destruct Hr as (? & ? & ? & Hr). repeat split; try done; try lia.
      intros j Hj. destruct (Z.ltb_spec j (32 * Z.of_nat n)); [apply Hr|apply Hno]; lia.
    + intros j Hj. destruct (Z.ltb_spec j (32 * Z.of_nat n)); [apply Hr|apply Hno]; lia.
Qed.

Lemma last_words_ok size : 0 <= size <= 32 * len addr ->
  (forall j, 32 * (size / 32) <= j < size -> bit addr j = false) ->
  exists r, (r ← last_word addr (Z.to_nat (size / BITS_PER_LONG));
    match r with
    | Some (w, tmp) => Some ((w *u BITS_PER_LONG) +u __fls tmp)
    | None => Some size
    end) = Some r /\ is_last (bit addr) size r.
Proof.
  intros Hs Htop. change (size / BITS_PER_LONG) with (size / 32).
  assert (0 <= size / 32) by (apply Z.div_pos; lia).
  pose proof (Z.mul_div_le size 32 ltac:(lia)).
  destruct (last_word_ok (Z.to_nat (size / 32))) as (r & -> & Hr); [lia|].
  cbn [mbind option_bind]. destruct r as [[p t]|].
  - destruct Hr as (? & -> & Hn & Hr). eexists; split; [done|].
    destruct (last_bit_word (zat addr p) (words_zat addr p Hw) Hn) as (? & _ & _).
    apply last_of_word; try done; try lia; [apply words_zat, Hw| |].
    + intros. by rewrite bit_word.
    + intros j Hj. destruct (Z.ltb_spec j (32 * (size / 32))); [apply Hr|apply Htop]; lia.
  - eexists; split; [done|]. right. split; [done|]. intros j Hj.
    destruct (Z.ltb_spec j (32 * (size / 32))); [apply Hr|apply Htop]; lia.
Qed.

Lemma find_last_bit_ok size : 0 <= size <= 32 * len addr ->
  exists r, find_last_bit addr size = Some r /\ is_last (bit addr) size r.
Proof.
  intros Hs. unfold find_last_bit.
  destruct (bit_index size) as (p & o & E & Ho & Hp & Ho').
  assert (0 <= p) by (rewrite Hp; apply Z.div_pos; lia).
  change (Z.land size (BITS_PER_LONG - 1)) with (Z.land size (2 ^ 5 - 1)).
  rewrite land_mask by lia. change (2 ^ 5) with 32. rewrite <- Ho'.
  unfold nonzero at 1. destruct (Z.eqb_spec o 0) as [->|Hno]; cbn [negb].
  { apply last_words_ok; [done|]. rewrite <- Hp. intros; lia. }
  change (size / BITS_PER_LONG) with (size / 32). rewrite <- Hp.
  rewrite zget_zat by lia. cbn [mbind option_bind].
  change (BITS_PER_LONG - o) with (32 - o). rewrite ones_shiftr by lia.
  set (t := Z.land (zat addr p) (2 ^ o - 1)).
  assert (Ht : is_u32 t) by (apply (land_range 32); [lia|apply words_zat, Hw]).
  assert (T : forall j, 0 <= j < 32 -> Z.testbit t j = (j <? o) && bit addr (32 * p + j)).
  { intros j Hj. unfold t. rewrite Z.land_spec, testbit_mask, bit_word by lia.
    split_cmp; simpl; try lia; rewrite ?andb_true_r, ?andb_false_r; done. }
  destruct (nonzero t) eqn:En; unfold nonzero in En.
  - apply negb_true_iff, Z.eqb_neq in En. eexists; split; [done|].
    destruct (last_bit_word t Ht En) as (? & B & _). rewrite T in B by lia.
    apply andb_true_iff in B as [B _]. apply Z.ltb_lt in B.
    apply last_of_word; try done; try lia.
    intros j Hj Hjs. rewrite T by lia. destruct (Z.ltb_spec j o); [done|lia].
  - apply negb_false_iff, Z.eqb_eq in En. rewrite Hp. apply last_words_ok; [lia|].
    rewrite <- Hp. intros j Hj. specialize (T (j - 32 * p) ltac:(lia)).
    rewrite En, Z.testbit_0_l in T. destruct (Z.ltb_spec (j - 32 * p) o); [|lia].
    replace (32 * p + (j - 32 * p)) with j in T by lia. done.
Qed.
End Searches.

(** ** Correctness *)

(** The five word-wise searches of lib/find_next_bit.c and
    lib/find_last_bit.c return, for every bit array of 32-bit words and every
    size and offset inside it, exactly the least (greatest) index at or after
    the offset whose bit has the wanted value, or the size when there is none;
    they read no word outside the array. *)
Theorem find_bit_correct addr size offset :
  words addr -> 32 * len addr + 32 < 2 ^ 32 ->
  0 <= offset < size -> size <= 32 * len addr ->
  (exists r, find_next_bit addr size offset = Some r /\ is_first (bit addr) offset size r) /\
  (exists r, find_next_zero_bit addr size offset = Some r /\
     is_first (zero_bit addr) offset size r) /\
  (exists r, find_first_bit addr size = Some r /\ is_first (bit addr) 0 size r) /\
  (exists r, find_first_zero_bit addr size = Some r /\ is_first (zero_bit addr) 0 size r) /\
  (exists r, find_last_bit addr size = Some r /\ is_last (bit addr) size r).
Proof.
  intros Hw Hl Ho Hs.
  split; [by apply find_next_bit_ok|]. split; [by apply find_next_zero_bit_ok|].
  split; [apply find_first_bit_ok; done || lia|].
  split; [apply find_first_zero_bit_ok; done || lia|].
  apply find_last_bit_ok; done || lia.
Qed.

Lemma find_bit_correct_witness :
  find_next_bit [0; 0x10; 0] 70 3 = Some 36 /\
  exists r, find_next_bit [0; 0x10; 0] 70 3 = Some r /\ is_first (bit [0; 0x10; 0]) 3 70 r.
Proof.
  split; [reflexivity|].
  apply (find_bit_correct [0; 0x10; 0] 70 3);
    [repeat constructor; unfold is_u32; lia | simpl; lia | lia | simpl; lia].
Defined.

(** [hweight32]'s masked additions count the set bits of every 32-bit word,
    and the C fallback [constant_fls] agrees with the [clz]-based [fls] of the
    ARM header, the index of the highest set bit plus one. *)
Theorem hweight32_fls_correct w : is_u32 w ->
  hweight32 w = popcount 32 w /\ constant_fls w = fls w /\
  (w <> 0 -> fls w = Z.log2 w + 1).
Proof.
  intros Hw. split; [by apply hweight32_popcount|]. split; [by apply constant_fls_correct|].
  intros. apply fls_log2. unfold is_u32 in Hw. lia.
Qed.

Lemma hweight32_fls_correct_witness :
  hweight32 0x80000401 = 3 /\ hweight32 0x80000401 = popcount 32 0x80000401.
Proof.
  split; [reflexivity|]. apply (hweight32_fls_correct 0x80000401). unfold is_u32; lia.
Defined.
