(* ===== verification/Kfifo.v ===== *)
(** The kernel FIFO (kernel/kfifo.c, include/linux/kfifo.h): a ring buffer whose
    free-running 32-bit indices [in_] and [out] wrap.  The section [Spsc] runs
    one writer and one reader concurrently, a byte at a time and without a lock,
    as the comment above [__kfifo_put] allows. *)
From S2P Require Import Prelude Ring Bitops.
Local Open Scope kernel_scope.

Record kfifo := mk_kfifo { buffer : list Z; size : Z; in_ : Z; out : Z }.

Definition set_in (f : kfifo) (i : Z) : kfifo := mk_kfifo (buffer f) (size f) i (out f).
Definition set_out (f : kfifo) (o : Z) : kfifo := mk_kfifo (buffer f) (size f) (in_ f) o.

(** [BUG_ON] is [None]; [ERR_PTR] is [Err]. *)
Inductive ptr_or_err (A : Type) : Type := Ptr (a : A) | Err (e : Z).
Arguments Ptr {A}. Arguments Err {A}.

(** [kmalloc_ok] is whether the allocation of the [struct kfifo] succeeds. *)
Definition kfifo_init (buf : list Z) (sz : Z) (kmalloc_ok : bool) : option (ptr_or_err kfifo) :=
  if negb (is_power_of_2 sz) then None
  else if negb kmalloc_ok then Some (Err (- ENOMEM))
  else Some (Ptr (mk_kfifo buf sz 0 0)).

(** [kmalloc_buf n] is the buffer [kmalloc] returns for [n] bytes, if any. *)
Definition kfifo_alloc (sz : Z) (kmalloc_buf : Z -> option (list Z)) (kmalloc_ok : bool)
    : option (ptr_or_err kfifo) :=
  let alloc sz :=
    match kmalloc_buf sz with
    | None => Some (Err (- ENOMEM))
    | Some buf => kfifo_init buf sz kmalloc_ok
    end in
  if negb (Z.land sz (sz -u 1) =? 0) then
    if 0x80000000 <? sz then None else alloc (__roundup_pow_of_two sz)
  else alloc sz.

Definition __kfifo_put (fifo : kfifo) (buf : list Z) (n : Z) : option (kfifo * Z) :=
  let n := Z.min n ((size fifo -u in_ fifo) +u out fifo) in
  let off := Z.land (in_ fifo) (size fifo -u 1) in
  let l := Z.min n (size fifo -u off) in
  b1 ← mem_write (buffer fifo) off (take (Z.to_nat l) buf);
  b2 ← mem_write b1 0 (take (Z.to_nat (n -u l)) (drop (Z.to_nat l) buf));
  Some (mk_kfifo b2 (size fifo) (in_ fifo +u n) (out fifo), n).

(** Returns the bytes copied to the caller's buffer with their number. *)
Definition __kfifo_get (fifo : kfifo) (n : Z) : option (kfifo * list Z * Z) :=
  let n := Z.min n (in_ fifo -u out fifo) in
  let off := Z.land (out fifo) (size fifo -u 1) in
  let l := Z.min n (size fifo -u off) in
  a ← mem_read (buffer fifo) off l;
  b ← mem_read (buffer fifo) 0 (n -u l);
  Some (set_out fifo (out fifo +u n), a ++ b, n).

Definition __kfifo_reset (fifo : kfifo) : kfifo := mk_kfifo (buffer fifo) (size fifo) 0 0.

Definition __kfifo_len (fifo : kfifo) : Z := in_ fifo -u out fifo.

(** The locked versions run under [fifo->lock]. *)
Definition kfifo_put (fifo : kfifo) (buf : list Z) (n : Z) : option (kfifo * Z) :=
  __kfifo_put fifo buf n.

Definition kfifo_get (fifo : kfifo) (n : Z) : option (kfifo * list Z * Z) :=
  '(f, bs, r) ← __kfifo_get fifo n;
  if in_ f =? out f then Some (mk_kfifo (buffer f) (size f) 0 0, bs, r) else Some (f, bs, r).

(** ** Well-formed FIFOs and their contents *)

Definition wf (f : kfifo) : Prop :=
  (exists k, 0 <= k < 32 /\ size f = 2 ^ k) /\ len (buffer f) = size f /\
  is_u32 (in_ f) /\ is_u32 (out f) /\ in_ f -u out f <= size f.

Lemma wf_intro b s i o : (exists k, 0 <= k < 32 /\ s = 2 ^ k) -> len b = s ->
  is_u32 i -> is_u32 o -> i -u o <= s -> wf (mk_kfifo b s i o).
Proof. done. Qed.

Definition contents (f : kfifo) : list Z :=
  ring_slice (buffer f) (size f) (out f) (in_ f -u out f).

Lemma wf_size f : wf f -> 0 < size f <= 2 ^ 31.
Proof.
  intros ((k & Hk & ->) & _). split; [lia|]. apply Z.pow_le_mono_r; lia.
Qed.

Lemma wf_mask f x : wf f -> Z.land x (size f -u 1) = x mod size f /\ 0 <= x mod size f < size f.
Proof.
  intros Hf. pose proof (wf_size f Hf). destruct Hf as ((k & Hk & E) & _).
  rewrite u32_id by (unfold is_u32; lia). rewrite E, land_mask by lia.
  split; [done|]. apply Z.mod_pos_bound. lia.
Qed.

Lemma wf_mod f x : wf f -> (u32 x) mod size f = x mod size f.
Proof. intros ((k & Hk & ->) & _). apply mod_u32_pow2; lia. Qed.

Lemma len_contents f : len (contents f) = __kfifo_len f.
Proof. apply len_ring_slice, u32_range. Qed.

(** The free space computed by [__kfifo_put]. *)
Lemma free_space f : wf f -> (size f -u in_ f) +u out f = size f - __kfifo_len f.
Proof.
  intros Hf. pose proof (wf_size f Hf). destruct Hf as (_ & _ & _ & _ & Hl).
  unfold __kfifo_len. rewrite u32_add_l.
  replace (size f - in_ f + out f) with (size f - (in_ f - out f)) by lia.
  rewrite <- u32_sub_r. apply u32_id.
  pose proof (u32_range (in_ f - out f)). unfold is_u32. lia.
Qed.

(** [__kfifo_put] is one ring write followed by the index update. *)
Lemma kfifo_put_ring f buf n : wf f -> 0 <= n -> Z.min n (size f - __kfifo_len f) <= len buf ->
  let m := Z.min n (size f - __kfifo_len f) in
  exists b, ring_put (buffer f) (size f) (in_ f mod size f) buf m = Some b /\
    __kfifo_put f buf n = Some (mk_kfifo b (size f) (in_ f +u m) (out f), m) /\
    length b = length (buffer f) /\
    (forall p, ring_at b (size f) p =
      if (p - in_ f) mod size f <? m then zat buf ((p - in_ f) mod size f)
      else ring_at (buffer f) (size f) p).
Proof.
  intros Hf Hn Hbuf m. pose proof (wf_size f Hf).
  destruct (wf_mask f (in_ f) Hf) as [Em Hm].
  pose proof (u32_range (in_ f - out f)) as Hlr. fold (__kfifo_len f) in Hlr.
  assert (Hl : __kfifo_len f <= size f) by apply Hf.
  destruct (ring_put_spec (buffer f) (size f) (in_ f mod size f) buf m)
    as (b & Hb & Hbl & Hbt); [apply Hf|lia|lia|lia|].
  exists b. split; [done|]. split.
  - unfold __kfifo_put. rewrite free_space by done. fold m. rewrite Em.
    unfold ring_put in Hb.
    rewrite (u32_id (size f - in_ f mod size f)) by (unfold is_u32; lia).
    rewrite (u32_id (m - _)) by (unfold is_u32; lia).
    destruct (mem_write _ _ _) as [b1|]; simpl in *; [|done].
    destruct (mem_write _ _ _) as [b2|]; simpl in *; [|done]. congruence.
  - split; [done|]. intros p. rewrite Hbt. rewrite Zminus_mod_idemp_r. done.
Qed.

Lemma kfifo_get_ring f n : wf f -> 0 <= n ->
  let m := Z.min n (__kfifo_len f) in
  __kfifo_get f n =
    Some (set_out f (out f +u m), ring_slice (buffer f) (size f) (out f) m, m).
Proof.
  intros Hf Hn m. pose proof (wf_size f Hf). destruct (wf_mask f (out f) Hf) as [Em Hm].
  pose proof (u32_range (in_ f - out f)) as Hlr. fold (__kfifo_len f) in Hlr.
  assert (Hl : __kfifo_len f <= size f) by apply Hf.
  pose proof (ring_get_spec (buffer f) (size f) (out f mod size f) m) as Hg.
  unfold __kfifo_get. fold (__kfifo_len f). fold m. rewrite Em.
  rewrite (u32_id (size f - out f mod size f)) by (unfold is_u32; lia).
  rewrite (u32_id (m - _)) by (unfold is_u32; lia).
  rewrite ring_slice_mod in Hg by lia. specialize (Hg ltac:(apply Hf) Hm ltac:(lia)).
  unfold ring_get in Hg.
  destruct (mem_read (buffer f) (out f mod size f) _) as [a|]; simpl in *; [|done].
  destruct (mem_read (buffer f) 0 _) as [b|]; simpl in *; [|done]. congruence.
Qed.

Lemma len_after_put f m : wf f -> 0 <= m <= size f - __kfifo_len f ->
  (in_ f +u m) -u out f = __kfifo_len f + m.
Proof.
  intros Hf Hm. pose proof (wf_size f Hf). unfold __kfifo_len in *. kwrap.
  replace (in_ f + m - out f) with ((in_ f - out f) + m) by lia.
  rewrite <- u32_add_l. apply u32_id. pose proof (u32_range (in_ f - out f)).
  unfold is_u32. lia.
Qed.

Lemma len_after_get f m : wf f -> 0 <= m <= __kfifo_len f ->
  in_ f -u (out f +u m) = __kfifo_len f - m.
Proof.
  intros Hf Hm. unfold __kfifo_len in *. kwrap.
  replace (in_ f - (out f + m)) with ((in_ f - out f) - m) by lia.
  rewrite <- u32_sub_l. apply u32_id. pose proof (u32_range (in_ f - out f)).
  unfold is_u32. lia.
Qed.

(** The ring positions of [out + i] for [i] below the length are those the put
    leaves alone; the positions from [in_] on are those it writes. *)
Lemma pos_of_index f i : wf f -> 0 <= i < size f ->
  (out f + i - in_ f) mod size f = (i - __kfifo_len f) mod size f.
Proof.
  intros Hf Hi. unfold __kfifo_len.
  rewrite <- (Zminus_mod_idemp_r i (u32 _)), wf_mod, Zminus_mod_idemp_r by done.
  f_equal. lia.
Qed.

Lemma put_contents f buf n : wf f -> 0 <= n ->
  Z.min n (size f - __kfifo_len f) <= len buf ->
  exists f', __kfifo_put f buf n = Some (f', Z.min n (size f - __kfifo_len f)) /\ wf f' /\
    size f' = size f /\
    contents f' = contents f ++ take (Z.to_nat (Z.min n (size f - __kfifo_len f))) buf.
Proof.
  intros Hf Hn Hbuf. destruct (kfifo_put_ring f buf n Hf Hn Hbuf) as (b & _ & Hp & Hbl & Hbt).
  set (m := Z.min n _) in *. pose proof (wf_size f Hf).
  pose proof (u32_range (in_ f - out f)) as Hlr. fold (__kfifo_len f) in Hlr.
  assert (Hl : __kfifo_len f <= size f) by apply Hf.
  eexists; split; [exact Hp|].
  assert (E : (in_ f +u m) -u out f = __kfifo_len f + m) by (apply len_after_put; [done|lia]).
  split; [|split; [done|]].
  { destruct Hf as (? & ? & ? & ? & ?). apply wf_intro; try done; try lia. apply u32_range. }
  unfold contents at 1. cbn [buffer size in_ out]. rewrite E. apply zlist_ext.
  { apply Nat2Z.inj. rewrite length_app, len_ring_slice, length_take by lia.
    pose proof (len_contents f). lia. }
  intros i Hi. rewrite len_ring_slice in Hi by lia. rewrite zat_ring_slice by lia.
  rewrite Hbt, zat_app, len_contents, pos_of_index by (done || lia).
  destruct (Z.ltb_spec i (__kfifo_len f)) as [Hlt|Hge].
  - replace ((i - __kfifo_len f) mod size f) with (i - __kfifo_len f + size f)
      by (apply Z.mod_unique with (-1); lia).
    destruct (Z.ltb_spec (i - __kfifo_len f + size f) m); [lia|].
    unfold contents. rewrite zat_ring_slice by (fold (__kfifo_len f); lia). done.
  - rewrite Z.mod_small by lia. destruct (Z.ltb_spec (i - __kfifo_len f) m); [|lia].
    rewrite zat_take. destruct (Z.ltb_spec (i - __kfifo_len f) (Z.of_nat (Z.to_nat m))); [done|lia].
Qed.

Lemma get_contents f n : wf f -> 0 <= n ->
  exists f' bs, __kfifo_get f n = Some (f', bs, Z.min n (__kfifo_len f)) /\ wf f' /\
    size f' = size f /\ len bs = Z.min n (__kfifo_len f) /\ contents f = bs ++ contents f'.
Proof.
  intros Hf Hn. pose proof (kfifo_get_ring f n Hf Hn) as Hg. cbv zeta in Hg.
  set (m := Z.min n _) in *. pose proof (u32_range (in_ f - out f)) as Hlr.
  fold (__kfifo_len f) in Hlr. pose proof (wf_size f Hf).
  assert (E : in_ f -u (out f +u m) = __kfifo_len f - m) by (apply len_after_get; [done|lia]).
  do 2 eexists; split; [exact Hg|]. split; [|split; [done|split]].
  - destruct Hf as (? & ? & ? & ? & Hle). fold (__kfifo_len f) in Hle.
    apply wf_intro; try done; [apply u32_range|]. rewrite E. lia.
  - apply len_ring_slice. lia.
  - unfold contents, set_out. cbn [buffer size in_ out]. rewrite E. fold (__kfifo_len f).
    replace (__kfifo_len f) with (m + (__kfifo_len f - m)) at 1 by lia.
    rewrite ring_slice_app by lia. f_equal.
    rewrite <- (ring_slice_mod _ _ (out f +u m)), wf_mod, ring_slice_mod by (done || lia). done.
Qed.

(** ** Correctness: the FIFO refines a bounded queue of bytes *)

(** C4: on every well-formed FIFO, also when the 32-bit indices have wrapped,
    [__kfifo_put] stays inside the buffer, appends exactly the longest prefix of
    the data that fits and returns its length; [kfifo_get] removes exactly the
    requested number of bytes, or all of them, from the front in order; both keep the
    FIFO well formed. *)
Theorem kfifo_refines_queue f buf n : wf f -> 0 <= n ->
  Z.min n (size f - len (contents f)) <= len buf ->
  (exists f', __kfifo_put f buf n = Some (f', Z.min n (size f - len (contents f))) /\ wf f' /\
     contents f' = contents f ++ take (Z.to_nat (Z.min n (size f - len (contents f)))) buf) /\
  (exists f' bs, kfifo_get f n = Some (f', bs, Z.min n (len (contents f))) /\ wf f' /\
     len bs = Z.min n (len (contents f)) /\ contents f = bs ++ contents f').
Proof.
  rewrite len_contents. intros Hf Hn Hb. split.
  - destruct (put_contents f buf n Hf Hn Hb) as (f' & ? & ? & _ & ?). eauto.
  - destruct (get_contents f n Hf Hn) as (f' & bs & Hg & Hwf & Hs & Hl & Hc).
    unfold kfifo_get. rewrite Hg. simpl. destruct (Z.eqb_spec (in_ f') (out f')) as [E|].
    + do 2 eexists; split; [done|]. split; [|split; [done|]].
      * destruct Hwf as (? & ? & ? & ? & Hle). apply wf_intro; try done.
        rewrite E, Z.sub_diag in Hle. done.
      * unfold contents in Hc |- *. cbn [buffer size in_ out]. rewrite Hc, E, Z.sub_diag. done.
    + eauto 6.
Qed.

Lemma kfifo_refines_queue_witness :
  let f := mk_kfifo [1; 2; 3; 4] 4 1 0xfffffffe in
  contents f = [3; 4; 1] /\
  exists f', __kfifo_put f [7; 8] 2 = Some (f', 1) /\ wf f' /\ contents f' = [3; 4; 1; 7].
Proof.
  intros f. split; [reflexivity|].
  refine (proj1 (kfifo_refines_queue f [7; 8] 2 _ _ _)).
  - apply wf_intro; [exists 2; lia|done|unfold is_u32; lia|unfold is_u32; lia|].
    vm_compute. congruence.
  - lia.
  - vm_compute. congruence.
Defined.

(** [kfifo_alloc] either reports the BUG (size 0, or a size above 2^31 that
    is not a power of two), an allocation failure, or returns an empty
    well-formed FIFO whose size is the least power of two holding the request. *)
Theorem kfifo_alloc_wf sz kmalloc_buf ok : is_u32 sz ->
  (forall n b, 0 <= n -> kmalloc_buf n = Some b -> len b = n) ->
  match kfifo_alloc sz kmalloc_buf ok with
  | None => sz = 0 \/ 2 ^ 31 < sz
  | Some (Err e) => e = - ENOMEM
  | Some (Ptr f) => wf f /\ contents f = [] /\ sz <= size f /\ (1 < sz -> size f < 2 * sz)
  end.
Proof.
  intros Hsz Hk.
  assert (Hinit : forall s b, is_u32 s -> len b = s -> is_power_of_2 s = true ->
    wf (mk_kfifo b s 0 0) /\ contents (mk_kfifo b s 0 0) = []).
  { intros s b Hs Hb Hp. apply is_power_of_2_spec in Hp as (k & ? & ->); [|done].
    split; [|done]. apply wf_intro; try done; try (unfold is_u32; lia); [by exists k|].
    simpl. change (0 -u 0) with 0. lia. }
  unfold kfifo_alloc, kfifo_init. unfold is_u32 in Hsz.
  destruct (Z.eqb_spec (Z.land sz (sz -u 1)) 0) as [E|Hn]; cbn [negb].
  - destruct (kmalloc_buf sz) as [b|] eqn:Eb; [|done].
    destruct (is_power_of_2 sz) eqn:Ep; cbn [negb].
    + destruct ok; cbn [negb]; [|done].
      destruct (Hinit sz b) as [? ?]; [done|apply Hk; done || lia|done|]. split; [done|].
      split; [done|]. simpl. lia.
    + left. unfold is_power_of_2 in Ep. rewrite E in Ep.
      destruct (Z.eqb_spec sz 0); [done|]. discriminate.
  - destruct (Z.ltb_spec 0x80000000 sz); [right; lia|].
    assert (1 < sz).
    { destruct (Z.eqb_spec sz 0) as [->|]; [done|]. destruct (Z.eqb_spec sz 1) as [->|]; [done|lia]. }
    destruct (roundup_pow_of_two_spec sz) as (k & Hk1 & Er & Hr); [lia|]. rewrite Er.
    assert (is_u32 (2 ^ k)).
    { unfold is_u32. split; [lia|]. apply Z.pow_lt_mono_r; lia. }
    assert (Hp : is_power_of_2 (2 ^ k) = true) by (apply is_power_of_2_spec; [done|exists k; lia]).
    destruct (kmalloc_buf (2 ^ k)) as [b|] eqn:Eb; [|done]. rewrite Hp. cbn [negb].
    destruct ok; cbn [negb]; [|done].
    destruct (Hinit (2 ^ k) b) as [? ?]; [done|apply Hk; done || lia|done|]. split; [done|].
    split; [done|]. simpl. split; [lia|]. intros _.
    destruct (Z.eqb_spec k 0) as [->|]; [simpl in *; lia|].
    replace k with (Z.succ (k - 1)) by lia. rewrite Z.pow_succ_r by lia. lia.
Qed.

Lemma kfifo_alloc_wf_witness :
  let km n := Some (replicate (Z.to_nat n) 0) in
  match kfifo_alloc 5 km true with
  | Some (Ptr f) => size f = 8 /\ wf f
  | _ => False
  end.
Proof.
  intros km. split; [reflexivity|].
  refine (proj1 (kfifo_alloc_wf 5 km true _ _)).
  - unfold is_u32. lia.
  - intros n b Hn [= <-]. rewrite length_replicate. lia.
Defined.

(** ** One concurrent writer and one concurrent reader, without a lock

    Each side samples the other's index, copies byte by byte and then publishes
    its own index; the steps of the two sides interleave freely (the barriers
    of the source make each side's steps visible in this order).  [written] and
    [got] record the bytes whose [fifo->in] and [fifo->out] updates are done. *)
Section Spsc.

Inductive writer : Type :=
  | WIdle
  | WCopy (data : list Z) (n k : Z).  (** [k] of [n] accepted bytes are copied *)

Inductive reader : Type :=
  | RIdle
  | RCopy (acc : list Z) (n : Z).     (** [acc]: the bytes copied out so far, of [n] *)

Record spsc := mk_spsc { fifo : kfifo; wr : writer; rd : reader; written : list Z; got : list Z }.

(** Buffer index of byte [k] of a copy that starts at ring index [idx]: the
    first memcpy covers [l] bytes from the masked index on, the second the rest
    from 0. *)
Definition copy_pos (f : kfifo) (idx n k : Z) : Z :=
  let off := Z.land idx (size f -u 1) in
  let l := Z.min n (size f -u off) in
  if k <? l then off + k else k - l.

(** A call of [__kfifo_put] begins: the free space is sampled and the length cut. *)
Definition put_begin (s : spsc) (data : list Z) (n : Z) : spsc :=
  mk_spsc (fifo s) (WCopy data (Z.min n ((size (fifo s) -u in_ (fifo s)) +u out (fifo s))) 0) (rd s) (written s) (got s).

(** The rest of the call: the copies, then the update of [fifo->in]. *)
Inductive put_step : spsc -> spsc -> Prop :=
  | W_byte f r w g data n k b : k < n ->
      zset (buffer f) (copy_pos f (in_ f) n k) (zat data k) = Some b ->
      put_step (mk_spsc f (WCopy data n k) r w g)
               (mk_spsc (mk_kfifo b (size f) (in_ f) (out f)) (WCopy data n (k + 1)) r w g)
  | W_publish f r w g data n :
      put_step (mk_spsc f (WCopy data n n) r w g)
               (mk_spsc (set_in f (in_ f +u n)) WIdle r (w ++ take (Z.to_nat n) data) g).

(** The same for [__kfifo_get]. *)
Definition get_begin (s : spsc) (n : Z) : spsc :=
  mk_spsc (fifo s) (wr s) (RCopy [] (Z.min n (in_ (fifo s) -u out (fifo s)))) (written s) (got s).

Inductive get_step : spsc -> spsc -> Prop :=
  | R_byte f wp w g acc n x : len acc < n ->
      zget (buffer f) (copy_pos f (out f) n (len acc)) = Some x ->
      get_step (mk_spsc f wp (RCopy acc n) w g) (mk_spsc f wp (RCopy (acc ++ [x]) n) w g)
  | R_publish f wp w g acc n : len acc = n ->
      get_step (mk_spsc f wp (RCopy acc n) w g)
               (mk_spsc (set_out f (out f +u n)) wp RIdle w (g ++ acc)).

Inductive step : spsc -> spsc -> Prop :=
  | W_call s data n : wr s = WIdle -> 0 <= n <= len data -> step s (put_begin s data n)
  | W_run s s' : put_step s s' -> step s s'
  | R_call s n : rd s = RIdle -> 0 <= n -> step s (get_begin s n)
  | R_run s s' : get_step s s' -> step s s'.

Definition steps : spsc -> spsc -> Prop := rtc step.

Definition initial (s : spsc) : Prop :=
  wf (fifo s) /\ in_ (fifo s) = out (fifo s) /\ wr s = WIdle /\ rd s = RIdle /\
  written s = [] /\ got s = [].

Definition writer_inv (f : kfifo) (wp : writer) : Prop :=
  match wp with
  | WIdle => True
  | WCopy data n k => 0 <= k <= n /\ n <= len data /\ n <= size f - __kfifo_len f /\
      forall j, 0 <= j < k -> ring_at (buffer f) (size f) (in_ f + j) = zat data j
  end.

Definition reader_inv (f : kfifo) (rp : reader) : Prop :=
  match rp with
  | RIdle => True
  | RCopy acc n => len acc <= n <= __kfifo_len f /\
      forall j, 0 <= j < len acc -> zat acc j = ring_at (buffer f) (size f) (out f + j)
  end.

Definition inv (s : spsc) : Prop :=
  wf (fifo s) /\ written s = got s ++ contents (fifo s) /\
  writer_inv (fifo s) (wr s) /\ reader_inv (fifo s) (rd s).

Lemma copy_pos_mod f idx n k : wf f -> 0 <= k < n -> n <= size f ->
  copy_pos f idx n k = (idx + k) mod size f.
Proof.
  intros Hf Hk Hn. unfold copy_pos. destruct (wf_mask f idx Hf) as [-> Hm].
  pose proof (wf_size f Hf). rewrite u32_id by (unfold is_u32; lia).
  rewrite <- (Zplus_mod_idemp_l idx k), (mod_step (idx mod size f + k)) by lia.
  destruct (Z.ltb_spec k (Z.min n (size f - idx mod size f))),
    (Z.ltb_spec (idx mod size f + k) (size f)); lia.
Qed.

(** A byte stored at ring index [in_ + k], inside the free space. *)
Lemma write_byte f k x b : wf f -> 0 <= k < size f - __kfifo_len f ->
  zset (buffer f) ((in_ f + k) mod size f) x = Some b ->
  wf (mk_kfifo b (size f) (in_ f) (out f)) /\
  ring_at b (size f) (in_ f + k) = x /\
  (forall j, 0 <= j < size f -> j <> k ->
     ring_at b (size f) (in_ f + j) = ring_at (buffer f) (size f) (in_ f + j)) /\
  (forall j, 0 <= j < __kfifo_len f ->
     ring_at b (size f) (out f + j) = ring_at (buffer f) (size f) (out f + j)).
Proof.
  intros Hf Hk Hs. pose proof (wf_size f Hf).
  pose proof (u32_range (in_ f - out f)) as Hlr. fold (__kfifo_len f) in Hlr.
  assert (Hbl : len (buffer f) = size f) by apply Hf.
  pose proof (Z.mod_pos_bound (in_ f + k) (size f) ltac:(lia)) as Hp.
  rewrite zset_spec in Hs by lia. injection Hs as <-.
  assert (Hne : forall p, (p - in_ f) mod size f <> k ->
    p mod size f <> (in_ f + k) mod size f).
  { intros p Hd E. apply Hd. rewrite <- Zminus_mod_idemp_l, E, Zminus_mod_idemp_l.
    replace (in_ f + k - in_ f) with k by lia. apply Z.mod_small. lia. }
  assert (Hother : forall p, (p - in_ f) mod size f <> k ->
    ring_at (<[Z.to_nat ((in_ f + k) mod size f):=x]> (buffer f)) (size f) p =
    ring_at (buffer f) (size f) p).
  { intros p Hd. unfold ring_at. rewrite zat_insert. specialize (Hne p Hd).
    destruct (decide _); [lia|done]. }
  split; [|split; [|split]].
  - destruct Hf as (? & ? & ? & ? & ?). apply wf_intro; try done. by rewrite length_insert.
  - unfold ring_at. rewrite zat_insert. destruct (decide _) as [|Hd]; [done|]. lia.
  - intros j Hj Hjk. apply Hother.
    replace (in_ f + j - in_ f) with j by lia. rewrite Z.mod_small by lia. done.
  - intros j Hj. apply Hother. rewrite pos_of_index by (done || lia).
    rewrite <- (Z.mod_unique (j - __kfifo_len f) (size f) (-1) (j - __kfifo_len f + size f));
      lia.
Qed.

Lemma contents_ext f b : (forall j, 0 <= j < __kfifo_len f ->
    ring_at b (size f) (out f + j) = ring_at (buffer f) (size f) (out f + j)) ->
  contents (mk_kfifo b (size f) (in_ f) (out f)) = contents f.
Proof.
  intros H. unfold contents. cbn [buffer size in_ out]. unfold __kfifo_len in H.
  pose proof (u32_range (in_ f - out f)). apply zlist_ext.
  - apply Nat2Z.inj. rewrite !len_ring_slice by lia. done.
  - intros i Hi. rewrite len_ring_slice in Hi by lia. rewrite !zat_ring_slice by lia.
    apply H. lia.
Qed.

Lemma inv_initial s : initial s -> inv s.
Proof.
  destruct s as [f wp rp w g]. unfold initial. simpl. intros (Hf & E & -> & -> & -> & ->).
  split; [done|]. split; [|done]. unfold contents. simpl. rewrite E, Z.sub_diag. done.
Qed.

Lemma inv_write_byte f r w g data n k b : k < n ->
  zset (buffer f) (copy_pos f (in_ f) n k) (zat data k) = Some b ->
  inv (mk_spsc f (WCopy data n k) r w g) ->
  inv (mk_spsc (mk_kfifo b (size f) (in_ f) (out f)) (WCopy data n (k + 1)) r w g).
Proof.
  intros Hkn Hz (Hf & Hc & (Hk & Hn & Hfree & Hd) & Hrd). simpl in *.
  pose proof (u32_range (in_ f - out f)) as Hlr. fold (__kfifo_len f) in Hlr.
  rewrite copy_pos_mod in Hz by (done || lia).
  destruct (write_byte f k (zat data k) b Hf ltac:(lia) Hz) as (Hwf & Hx & Ho & Hold).
  split; [done|]. cbn [fifo written got wr rd].
  split; [by rewrite contents_ext|]. split.
  - split; [lia|]. split; [lia|]. split; [done|]. cbn [buffer size in_]. intros j Hj.
    destruct (Z.eqb_spec j k) as [->|]; [done|]. rewrite Ho by lia. apply Hd. lia.
  - destruct r as [|acc m]; [done|]. destruct Hrd as [Hm Hacc]. split; [done|].
    cbn [buffer size out]. intros j Hj. rewrite Hold by lia. by apply Hacc.
Qed.

(** Publishing [n] copied bytes appends them to the contents. *)
Lemma publish_contents f data n : wf f -> 0 <= n <= size f - __kfifo_len f -> n <= len data ->
  (forall j, 0 <= j < n -> ring_at (buffer f) (size f) (in_ f + j) = zat data j) ->
  contents (set_in f (in_ f +u n)) = contents f ++ take (Z.to_nat n) data.
Proof.
  intros Hf Hn Hdl Hd. pose proof (wf_size f Hf).
  pose proof (u32_range (in_ f - out f)) as Hlr. fold (__kfifo_len f) in Hlr.
  unfold contents, set_in. cbn [buffer size in_ out].
  rewrite len_after_put, ring_slice_app by (done || lia). f_equal. apply zlist_ext.
  { apply Nat2Z.inj. rewrite len_ring_slice, length_take by lia. lia. }
  intros j Hj. rewrite len_ring_slice in Hj by lia. rewrite zat_ring_slice, zat_take by lia.
  destruct (Z.ltb_spec j (Z.of_nat (Z.to_nat n))); [|lia]. rewrite <- Hd by lia.
  unfold ring_at. f_equal. unfold __kfifo_len.
  replace (out f + u32 (in_ f - out f) + j) with (u32 (in_ f - out f) + (out f + j)) by lia.
  rewrite <- Zplus_mod_idemp_l, wf_mod, Zplus_mod_idemp_l by done. f_equal. lia.
Qed.

Lemma inv_publish f r w g data n :
  inv (mk_spsc f (WCopy data n n) r w g) ->
  inv (mk_spsc (set_in f (in_ f +u n)) WIdle r (w ++ take (Z.to_nat n) data) g).
Proof.
  intros (Hf & Hc & (Hk & Hn & Hfree & Hd) & Hrd). simpl in *.
  assert (E := len_after_put f n Hf ltac:(lia)). split; [|split; [|split]]; simpl.
  - destruct Hf as (? & ? & ? & ? & ?). apply wf_intro; try done; [apply u32_range|]. lia.
  - rewrite (publish_contents f data n), Hc, app_assoc by (done || lia). done.
  - done.
  - destruct r as [|acc m]; [done|]. destruct Hrd as [Hm Hacc]. split; [|done].
    unfold __kfifo_len at 1. simpl. rewrite E. lia.
Qed.

Lemma inv_read_byte f wp w g acc n x : len acc < n ->
  zget (buffer f) (copy_pos f (out f) n (len acc)) = Some x ->
  inv (mk_spsc f wp (RCopy acc n) w g) -> inv (mk_spsc f wp (RCopy (acc ++ [x]) n) w g).
Proof.
  intros Hlt Hg (Hf & Hc & Hw & Hm & Hacc). simpl in *. pose proof (wf_size f Hf).
  assert (Hl : __kfifo_len f <= size f) by apply Hf.
  split; [done|]. split; [done|]. split; [done|]. split.
  - rewrite length_app. simpl. lia.
  - intros j Hj. rewrite length_app in Hj. simpl in Hj. rewrite zat_app.
    destruct (Z.ltb_spec j (len acc)); [apply Hacc; lia|].
    replace j with (len acc) by lia. rewrite Z.sub_diag. unfold ring_at.
    rewrite copy_pos_mod in Hg by (done || lia).
    assert (Hbl : len (buffer f) = size f) by apply Hf.
    rewrite zget_zat in Hg by (rewrite Hbl; apply Z.mod_pos_bound; lia).
    injection Hg as <-. done.
Qed.

Lemma inv_read_publish f wp w g acc n : len acc = n ->
  inv (mk_spsc f wp (RCopy acc n) w g) ->
  inv (mk_spsc (set_out f (out f +u n)) wp RIdle w (g ++ acc)).
Proof.
  intros <- (Hf & Hc & Hw & Hm & Hacc). simpl in *. pose proof (wf_size f Hf).
  assert (E := len_after_get f (len acc) Hf ltac:(lia)).
  assert (Hl : __kfifo_len f <= size f) by apply Hf.
  split; [|split; [|split]]; simpl.
  - destruct Hf as (? & ? & ? & ? & ?). apply wf_intro; try done; [apply u32_range|]. lia.
  - rewrite Hc, <- app_assoc. f_equal. unfold contents, set_out. cbn [buffer size in_ out].
    rewrite E. fold (__kfifo_len f).
    replace (__kfifo_len f) with (len acc + (__kfifo_len f - len acc)) at 1 by lia.
    rewrite ring_slice_app by lia. f_equal.
    + symmetry. apply zlist_ext; [apply Nat2Z.inj; rewrite len_ring_slice; lia|].
      intros j Hj. rewrite zat_ring_slice by lia. by apply Hacc.
    + rewrite <- (ring_slice_mod _ _ (out f +u _)), wf_mod, ring_slice_mod by (done || lia).
      done.
  - destruct wp as [|data m k]; [done|]. simpl in *. destruct Hw as (? & ? & ? & ?).
    repeat split; try done; try lia. unfold __kfifo_len at 1. simpl. rewrite E. lia.
  - done.
Qed.

Lemma inv_step s s' : step s s' -> inv s -> inv s'.
Proof.
  destruct 1 as [[f wp r w g] data n Hi Hn|s s' Hs|[f wp r w g] n Hi Hn|s s' Hs]; try destruct Hs.
  - intros (Hf & Hc & _ & Hr). split; [done|]. split; [done|]. split; [|done].
    simpl in *. rewrite free_space by done.
    assert (Hl : __kfifo_len f <= size f) by apply Hf. repeat split; lia.
  - by apply inv_write_byte.
  - apply inv_publish.
  - intros (Hf & Hc & Hw & _). split; [done|]. split; [done|]. split; [done|].
    simpl. pose proof (u32_range (in_ f - out f)). unfold __kfifo_len. split; [lia|].
    intros; lia.
  - by apply inv_read_byte.
  - by apply inv_read_publish.
Qed.

(** ** A call that nothing interrupts

    The steps of a call, taken one after the other, are the function: they are deterministic, and every run of them can
    be completed to the state the function computes. *)
Definition runs_to (R : spsc -> spsc -> Prop) (s t : spsc) : Prop :=
  rtc R s t /\ forall t', rtc R s t' -> rtc R t' t.

Lemma runs_to_intro R s t : (forall x y z, R x y -> R x z -> y = z) -> (forall y, ~ R t y) -> rtc R s t -> runs_to R s t.
Proof.
  intros Hdet Hnf Hst. split; [done|]. induction Hst as [t|s s1 t H1 Hst IH]; intros t' Ht'.
  - inversion Ht' as [|? y ? Hy]; subst; [done|]. by destruct (Hnf y).
  - inversion Ht' as [|? y ? Hy Hr]; subst; [by eapply rtc_l|]. rewrite (Hdet _ _ _ Hy H1) in Hr. by apply IH.
Qed.

Lemma put_step_det x y z : put_step x y -> put_step x z -> y = z.
Proof. intros H1 H2. inversion H1; subst; inversion H2; subst; try lia; congruence. Qed.

Lemma get_step_det x y z : get_step x y -> get_step x z -> y = z.
Proof. intros H1 H2. inversion H1; subst; inversion H2; subst; try lia; congruence. Qed.

(** What the rest of the copies makes of the buffer. *)
Lemma put_steps_copy f data m r w g : wf f -> m <= size f -> forall c k b, Z.of_nat c = m - k -> 0 <= k -> len b = size f ->
  exists b', length b' = length b /\
    rtc put_step (mk_spsc (mk_kfifo b (size f) (in_ f) (out f)) (WCopy data m k) r w g)
                 (mk_spsc (mk_kfifo b' (size f) (in_ f) (out f)) (WCopy data m m) r w g) /\
    forall p, ring_at b' (size f) p =
      let i := (p - in_ f) mod size f in if (k <=? i) && (i <? m) then zat data i else ring_at b (size f) p.
Proof.
  intros Hf Hm. pose proof (wf_size f Hf) as Hsz. induction c as [|c IH]; intros k b Hc Hk Hb.
  - replace k with m by lia. exists b. split_and!; [done|constructor|]. intros p. cbv zeta.
    by destruct (Z.leb_spec m ((p - in_ f) mod size f)), (Z.ltb_spec ((p - in_ f) mod size f) m); try lia.
  - set (fb := mk_kfifo b (size f) (in_ f) (out f)).
    assert (Hfb : wf fb) by (destruct Hf as (? & ? & ? & ? & ?); by apply wf_intro).
    pose proof (Z.mod_pos_bound (in_ f + k) (size f) ltac:(lia)) as Hp.
    set (b1 := <[Z.to_nat ((in_ f + k) mod size f) := zat data k]> b).
    destruct (IH (k + 1) b1 ltac:(lia) ltac:(lia)) as (b' & Hl & Hr & Ha); [by unfold b1; rewrite length_insert|].
    exists b'. split_and!.
    + rewrite Hl. apply length_insert.
    + eapply rtc_l; [|exact Hr]. apply (W_byte fb); [lia|]. rewrite copy_pos_mod by (done || cbn; lia).
      cbn [size in_ buffer fb]. apply zset_spec. lia.
    + intros p. rewrite Ha. cbv zeta. pose proof (Z.mod_pos_bound (p - in_ f) (size f) ltac:(lia)) as Hi.
      assert (E : p mod size f = (in_ f + (p - in_ f) mod size f) mod size f) by (rewrite Zplus_mod_idemp_r; f_equal; lia).
      destruct (Z.eqb_spec ((p - in_ f) mod size f) k) as [Ek|Ek].
      * rewrite Ek in *. rewrite (proj2 (Z.leb_gt _ _)), (proj2 (Z.leb_le k k)), (proj2 (Z.ltb_lt k m)) by lia. cbn [andb].
        unfold ring_at, b1. rewrite E, zat_insert. destruct (decide _) as [|Hd]; [done|lia].
      * assert (Ek' : (k + 1 <=? (p - in_ f) mod size f) = (k <=? (p - in_ f) mod size f))
          by (destruct (Z.leb_spec (k + 1) ((p - in_ f) mod size f)), (Z.leb_spec k ((p - in_ f) mod size f)); lia).
        rewrite Ek'. destruct (_ && _); [done|]. unfold ring_at, b1. rewrite zat_insert. destruct (decide _) as [Hd|]; [|done].
        exfalso. apply Ek. assert (Ep : p mod size f = (in_ f + k) mod size f) by lia.
        rewrite <- Zminus_mod_idemp_l, Ep, Zminus_mod_idemp_l. replace (in_ f + k - in_ f) with k by lia. apply Z.mod_small. lia.
Qed.

Lemma put_alone f r w g data n : wf f -> 0 <= n <= len data ->
  exists f' m, __kfifo_put f data n = Some (f', m) /\
    runs_to put_step (put_begin (mk_spsc f WIdle r w g) data n) (mk_spsc f' WIdle r (w ++ take (Z.to_nat m) data) g).
Proof.
  intros Hf Hn. pose proof (wf_size f Hf) as Hsz. assert (Hl : __kfifo_len f <= size f) by apply Hf.
  pose proof (u32_range (in_ f - out f)) as Hlr. fold (__kfifo_len f) in Hlr.
  destruct (kfifo_put_ring f data n Hf ltac:(lia) ltac:(lia)) as (b & _ & Hp & Hbl & Hbt).
  set (m := Z.min n (size f - __kfifo_len f)) in *. assert (Hb : len (buffer f) = size f) by apply Hf.
  eexists _, _. split; [exact Hp|]. unfold put_begin. cbn [fifo rd written got]. rewrite free_space by done. fold m.
  apply runs_to_intro; [apply put_step_det|intros y Hy; inversion Hy|].
  destruct (put_steps_copy f data m r w g Hf ltac:(lia) (Z.to_nat m) 0 (buffer f) ltac:(lia) ltac:(lia) Hb) as (b' & Hbl' & Hr & Hbt').
  assert (E : b' = b).
  { apply zlist_ext; [congruence|]. intros p Hp'. specialize (Hbt p). specialize (Hbt' p). cbv zeta in Hbt'.
    pose proof (Z.mod_pos_bound (p - in_ f) (size f) ltac:(lia)). rewrite (proj2 (Z.leb_le _ _)) in Hbt' by lia. cbn [andb] in Hbt'.
    rewrite <- Hbt in Hbt'. unfold ring_at in Hbt'. rewrite !Z.mod_small in Hbt' by lia. done. }
  subst b'. destruct f as [fb fs fi fo]. cbn [buffer size in_ out] in *. eapply rtc_r; [exact Hr|]. apply (W_publish (mk_kfifo b fs fi fo)).
Qed.

Lemma get_steps_copy f wp w g m : wf f -> m <= size f -> forall c acc, Z.of_nat c = m - len acc ->
  acc = ring_slice (buffer f) (size f) (out f) (len acc) ->
  rtc get_step (mk_spsc f wp (RCopy acc m) w g) (mk_spsc f wp (RCopy (ring_slice (buffer f) (size f) (out f) m) m) w g).
Proof.
  intros Hf Hm. pose proof (wf_size f Hf) as Hsz. assert (Hb : len (buffer f) = size f) by apply Hf.
  induction c as [|c IH]; intros acc Hc Ha.
  - rewrite Ha at 1. replace (len acc) with m by lia. constructor.
  - eapply rtc_l.
    { apply R_byte; [lia|]. rewrite copy_pos_mod by (done || lia). apply zget_zat. rewrite Hb. apply Z.mod_pos_bound. lia. }
    apply IH; rewrite length_app; cbn [length]; [lia|]. replace (Z.of_nat (length acc + 1)) with (len acc + 1) by lia.
    rewrite ring_slice_app by lia. rewrite <- Ha. f_equal. apply zlist_ext; [apply Nat2Z.inj; by rewrite len_ring_slice|].
    intros i Hi. cbn [length] in Hi. replace i with 0 by lia. rewrite zat_ring_slice by lia. rewrite Z.add_0_r. done.
Qed.

Lemma get_alone f wp w g n : wf f -> 0 <= n ->
  exists f' bs m, __kfifo_get f n = Some (f', bs, m) /\
    runs_to get_step (get_begin (mk_spsc f wp RIdle w g) n) (mk_spsc f' wp RIdle w (g ++ bs)).
Proof.
  intros Hf Hn. pose proof (wf_size f Hf) as Hsz. assert (Hl : __kfifo_len f <= size f) by apply Hf.
  pose proof (u32_range (in_ f - out f)) as Hlr. fold (__kfifo_len f) in Hlr.
  pose proof (kfifo_get_ring f n Hf Hn) as Hg. cbv zeta in Hg. eexists _, _, _. split; [exact Hg|].
  unfold get_begin. cbn [fifo wr written got]. fold (__kfifo_len f). set (m := Z.min n (__kfifo_len f)) in *.
  apply runs_to_intro; [apply get_step_det|intros y Hy; inversion Hy|].
  eapply rtc_r; [apply (get_steps_copy f wp w g m Hf ltac:(lia) (Z.to_nat m) []); [cbn; lia|done]|].
  apply R_publish. apply len_ring_slice. lia.
Qed.

(** A side that has bytes left to copy can always make its next step. *)
Definition can_copy (s : spsc) : Prop :=
  (forall data n k, wr s = WCopy data n k -> k < n -> exists b,
     zset (buffer (fifo s)) (copy_pos (fifo s) (in_ (fifo s)) n k) (zat data k) = Some b) /\
  (forall acc n, rd s = RCopy acc n -> len acc < n -> exists x,
     zget (buffer (fifo s)) (copy_pos (fifo s) (out (fifo s)) n (len acc)) = Some x).

Lemma inv_can_copy s : inv s -> can_copy s.
Proof.
  destruct s as [f wp rp w g]. intros (Hf & _ & Hw & Hr). simpl in *.
  pose proof (wf_size f Hf). assert (Hbl : len (buffer f) = size f) by apply Hf.
  assert (Hl : __kfifo_len f <= size f) by apply Hf.
  pose proof (u32_range (in_ f - out f)) as Hlr. fold (__kfifo_len f) in Hlr.
  split; simpl.
  - intros data n k -> ?. simpl in Hw. destruct Hw as (? & ? & ? & _).
    rewrite copy_pos_mod by (done || lia). eexists. apply zset_spec.
    rewrite Hbl. apply Z.mod_pos_bound. lia.
  - intros acc n -> ?. simpl in Hr. destruct Hr as (? & _).
    rewrite copy_pos_mod by (done || lia). eexists. apply zget_zat.
    rewrite Hbl. apply Z.mod_pos_bound. lia.
Qed.

(** C36: with one writer and one reader running [__kfifo_put] and [__kfifo_get]
    concurrently and no lock, the copies a byte at a time, every reachable state
    satisfies: the bytes published by the writer are, in order, the bytes the reader
    has taken followed by the FIFO's contents (nothing is lost, duplicated, reordered
    or torn), the FIFO is well formed, and no copy ever leaves the buffer.  And the
    steps are those of the functions: in every reachable state in which a side is
    idle, a call of its function, run to its end without the other side moving, ends
    in exactly the FIFO, and with exactly the bytes, that [__kfifo_put] or
    [__kfifo_get] gives. *)
Theorem spsc_lock_free s s' : initial s -> steps s s' ->
  (written s' = got s' ++ contents (fifo s') /\ wf (fifo s') /\ can_copy s') /\
  (forall data n, wr s' = WIdle -> 0 <= n <= len data -> exists f m, __kfifo_put (fifo s') data n = Some (f, m) /\
     runs_to put_step (put_begin s' data n) (mk_spsc f WIdle (rd s') (written s' ++ take (Z.to_nat m) data) (got s'))) /\
  (forall n, rd s' = RIdle -> 0 <= n -> exists f bs m, __kfifo_get (fifo s') n = Some (f, bs, m) /\
     runs_to get_step (get_begin s' n) (mk_spsc f (wr s') RIdle (written s') (got s' ++ bs))).
Proof.
  intros H0 Hs. assert (Hi : inv s').
  { clear - H0 Hs. apply inv_initial in H0. induction Hs; [done|].
    apply IHHs. eapply inv_step; eauto. }
  split_and!; [apply Hi|apply Hi|by apply inv_can_copy| |]; destruct Hi as (Hf & _); destruct s' as [f wp r w g].
  - intros data n E Hn. cbn in E. subst wp. by apply put_alone.
  - intros n E Hn. cbn in E. subst r. by apply get_alone.
Qed.
End Spsc.

(** A writer that has copied its byte but not published it, across the wrap of the indices; a reader that comes now
    gets nothing. *)
Lemma spsc_lock_free_witness :
  let f := mk_kfifo [0; 0] 2 0xffffffff 0xffffffff in
  let s' := mk_spsc (mk_kfifo [0; 5] 2 0xffffffff 0xffffffff) (WCopy [5] 1 1) RIdle [] [] in
  steps (mk_spsc f WIdle RIdle [] []) s' /\ written s' = got s' ++ contents (fifo s') /\
  exists f' bs m, __kfifo_get (fifo s') 1 = Some (f', bs, m) /\ bs = [] /\
    runs_to get_step (get_begin s' 1) (mk_spsc f' (wr s') RIdle (written s') (got s' ++ bs)).
Proof.
  intros f s'.
  assert (Hst : steps (mk_spsc f WIdle RIdle [] []) s').
  { eapply rtc_l. { apply (W_call (mk_spsc f WIdle RIdle [] []) [5] 1); [reflexivity|simpl; lia]. }
    eapply rtc_l. { apply W_run. apply (W_byte f); [vm_compute; reflexivity|]. vm_compute. reflexivity. }
    apply rtc_refl. }
  split; [exact Hst|].
  destruct (spsc_lock_free (mk_spsc f WIdle RIdle [] []) s') as ((H1 & _) & _ & H3); [|exact Hst|].
  { split; [|done]. apply wf_intro; try (unfold is_u32; lia); [exists 1; lia|done|]. vm_compute. congruence. }
  split; [exact H1|]. destruct (H3 1 eq_refl ltac:(lia)) as (f' & bs & m & E & Hr). exists f', bs, m.
  split; [exact E|]. split; [|exact Hr]. vm_compute in E. injection E as _ <- _. reflexivity.
Defined.
