(* ===== verification/KString.v ===== *)
(** Strings and memory blocks (lib/string.c, lib/ctype.c, include/linux/ctype.h).
    A [char *] is the list of bytes from the pointer to the end of its object;
    reading or writing past the end is [None].  [char] is unsigned on ARM. *)
From S2P Require Import Prelude.
Local Open Scope kernel_scope.

(** ** Character classes *)

Definition _U : Z := 0x01.
Definition _L : Z := 0x02.
Definition _D : Z := 0x04.
Definition _C : Z := 0x08.
Definition _P : Z := 0x10.
Definition _S : Z := 0x20.
Definition _X : Z := 0x40.
Definition _SP : Z := 0x80.

Definition _ctype : list Z :=
  [
   _C; _C; _C; _C; _C; _C; _C; _C;
   _C; Z.lor _C _S; Z.lor _C _S; Z.lor _C _S; Z.lor _C _S; Z.lor _C _S; _C; _C;
   _C; _C; _C; _C; _C; _C; _C; _C;
   _C; _C; _C; _C; _C; _C; _C; _C;
   Z.lor _S _SP; _P; _P; _P; _P; _P; _P; _P;
   _P; _P; _P; _P; _P; _P; _P; _P;
   _D; _D; _D; _D; _D; _D; _D; _D;
   _D; _D; _P; _P; _P; _P; _P; _P;
   _P; Z.lor _U _X; Z.lor _U _X; Z.lor _U _X; Z.lor _U _X; Z.lor _U _X; Z.lor _U _X; _U;
   _U; _U; _U; _U; _U; _U; _U; _U;
   _U; _U; _U; _U; _U; _U; _U; _U;
   _U; _U; _U; _P; _P; _P; _P; _P;
   _P; Z.lor _L _X; Z.lor _L _X; Z.lor _L _X; Z.lor _L _X; Z.lor _L _X; Z.lor _L _X; _L;
   _L; _L; _L; _L; _L; _L; _L; _L;
   _L; _L; _L; _L; _L; _L; _L; _L;
   _L; _L; _L; _P; _P; _P; _P; _C;
   0; 0; 0; 0; 0; 0; 0; 0; 0; 0; 0; 0; 0; 0; 0; 0;
   0; 0; 0; 0; 0; 0; 0; 0; 0; 0; 0; 0; 0; 0; 0; 0;
   Z.lor _S _SP; _P; _P; _P; _P; _P; _P; _P; _P; _P; _P; _P; _P; _P; _P; _P;
   _P; _P; _P; _P; _P; _P; _P; _P; _P; _P; _P; _P; _P; _P; _P; _P;
   _U; _U; _U; _U; _U; _U; _U; _U; _U; _U; _U; _U; _U; _U; _U; _U;
   _U; _U; _U; _U; _U; _U; _U; _P; _U; _U; _U; _U; _U; _U; _U; _L;
   _L; _L; _L; _L; _L; _L; _L; _L; _L; _L; _L; _L; _L; _L; _L; _L;
   _L; _L; _L; _L; _L; _L; _L; _P; _L; _L; _L; _L; _L; _L; _L; _L].

Definition __ismask (x : Z) : Z := zat _ctype (u8 x).
Definition has_class (c m : Z) : bool := negb (Z.land (__ismask c) m =? 0).
Definition isalnum (c : Z) : bool := has_class c (Z.lor _U (Z.lor _L _D)).
Definition isalpha (c : Z) : bool := has_class c (Z.lor _U _L).
Definition iscntrl (c : Z) : bool := has_class c _C.
Definition isdigit (c : Z) : bool := has_class c _D.
Definition isgraph (c : Z) : bool := has_class c (Z.lor _P (Z.lor _U (Z.lor _L _D))).
Definition islower (c : Z) : bool := has_class c _L.
Definition isprint (c : Z) : bool :=
  has_class c (Z.lor _P (Z.lor _U (Z.lor _L (Z.lor _D _SP)))).
Definition ispunct (c : Z) : bool := has_class c _P.
Definition isspace (c : Z) : bool := has_class c _S.
Definition isupper (c : Z) : bool := has_class c _U.
Definition isxdigit (c : Z) : bool := has_class c (Z.lor _D _X).
Definition tolower (c : Z) : Z := if isupper c then u8 (c - (65 - 97)) else c.
Definition toupper (c : Z) : Z := if islower c then u8 (c - (97 - 65)) else c.

(** ** Lengths *)

Fixpoint strlen (s : list Z) : option Z :=
  match s with
  | [] => None
  | c :: s' => if c =? 0 then Some 0 else n ← strlen s'; Some (n + 1)
  end.

Fixpoint strnlen (s : list Z) (count : nat) {struct count} : option Z :=
  match count with
  | O => Some 0
  | S count' =>
      match s with
      | [] => None
      | c :: s' => if c =? 0 then Some 0 else n ← strnlen s' count'; Some (n + 1)
      end
  end.

(** ** Comparison *)

Definition s8 (x : Z) : Z := swrap 8 x.

Fixpoint strcmp (cs ct : list Z) : option Z :=
  match cs, ct with
  | c :: cs', d :: ct' =>
      let res := s8 (c - d) in
      if negb (res =? 0) || (c =? 0) then Some res else strcmp cs' ct'
  | _, _ => None
  end.

Fixpoint strncmp (cs ct : list Z) (count : nat) {struct count} : option Z :=
  match count with
  | O => Some 0
  | S count' =>
      match cs, ct with
      | c :: cs', d :: ct' =>
          let res := s8 (c - d) in
          if negb (res =? 0) || (c =? 0) then Some res else strncmp cs' ct' count'
      | _, _ => None
      end
  end.

(** The do-while of [strnicmp]; [len] counts the characters left, this one
    included. *)
Fixpoint strnicmp_loop (s1 s2 : list Z) (len : nat) : option Z :=
  match len, s1, s2 with
  | S len', c1 :: s1', c2 :: s2' =>
      if (c1 =? 0) || (c2 =? 0) then Some (c1 - c2) else
      let '(c1, c2) := if c1 =? c2 then (c1, c2) else (tolower c1, tolower c2) in
      if negb (c1 =? c2) then Some (c1 - c2) else
      match len' with O => Some (c1 - c2) | S _ => strnicmp_loop s1' s2' len' end
  | _, _, _ => None
  end.

Definition strnicmp (s1 s2 : list Z) (len : nat) : option Z :=
  match len with O => Some 0 | S _ => strnicmp_loop s1 s2 len end.

Fixpoint strcasecmp (s1 s2 : list Z) : option Z :=
  match s1, s2 with
  | a :: s1', b :: s2' =>
      let c1 := tolower a in let c2 := tolower b in
      if (c1 =? c2) && negb (c1 =? 0) then strcasecmp s1' s2' else Some (c1 - c2)
  | _, _ => None
  end.

Fixpoint memcmp (cs ct : list Z) (count : nat) {struct count} : option Z :=
  match count with
  | O => Some 0
  | S count' =>
      match cs, ct with
      | a :: cs', b :: ct' =>
          if negb (a - b =? 0) then Some (a - b) else memcmp cs' ct' count'
      | _, _ => None
      end
  end.

(** [*s1] at the end of the object is an access outside it. *)
Fixpoint sysfs_streq (s1 s2 : list Z) : option bool :=
  match s1, s2 with
  | a :: s1', b :: s2' =>
      if negb (a =? 0) && (a =? b) then sysfs_streq s1' s2'
      else if a =? b then Some true
      else
        t ← (if (a =? 0) && (b =? 10) then y ← head s2'; Some (y =? 0) else Some false);
        if (t : bool) then Some true else
        if a =? 10 then x ← head s1'; Some ((x =? 0) && (b =? 0)) else Some false
  | _, _ => None
  end.

(** ** Copies between two objects *)

Fixpoint strcpy (dest src : list Z) : option (list Z) :=
  match dest, src with
  | _ :: dest', c :: src' =>
      if c =? 0 then Some (0 :: dest') else d ← strcpy dest' src'; Some (c :: d)
  | _, _ => None
  end.

Fixpoint strncpy (dest src : list Z) (count : nat) {struct count} : option (list Z) :=
  match count with
  | O => Some dest
  | S count' =>
      match dest, src with
      | _ :: dest', c :: src' =>
          d ← strncpy dest' (if c =? 0 then src else src') count'; Some (c :: d)
      | _, _ => None
      end
  end.

Definition strlcpy (dest src : list Z) (size : Z) : option (list Z * Z) :=
  ret ← strlen src;
  if size =? 0 then Some (dest, ret) else
  let n := if size <=? ret then size -u 1 else ret in
  d ← mem_write dest 0 (take (Z.to_nat n) src);
  d ← zset d n 0;
  Some (d, ret).

Fixpoint strcat (dest src : list Z) : option (list Z) :=
  match dest with
  | [] => None
  | c :: dest' => if c =? 0 then strcpy dest src else d ← strcat dest' src; Some (c :: d)
  end.

Fixpoint strncat_copy (dest src : list Z) (count : nat) : option (list Z) :=
  match dest, src, count with
  | _ :: dest', c :: src', S count' =>
      if c =? 0 then Some (0 :: dest') else
      match count' with
      | O => match dest' with [] => None | _ :: dest'' => Some (c :: 0 :: dest'') end
      | S _ => d ← strncat_copy dest' src' count'; Some (c :: d)
      end
  | _, _, _ => None
  end.

Fixpoint strncat_seek (dest src : list Z) (count : nat) : option (list Z) :=
  match dest with
  | [] => None
  | c :: dest' =>
      if c =? 0 then strncat_copy dest src count
      else d ← strncat_seek dest' src count; Some (c :: d)
  end.

Definition strncat (dest src : list Z) (count : nat) : option (list Z) :=
  match count with O => Some dest | S _ => strncat_seek dest src count end.

(** [BUG_ON] is [None] too. *)
Definition strlcat (dest src : list Z) (count : Z) : option (list Z * Z) :=
  dsize ← strlen dest;
  n ← strlen src;
  let res := dsize + n in
  if count <=? dsize then None else
  let count := count - dsize in
  let n := if count <=? n then count - 1 else n in
  d ← mem_write dest dsize (take (Z.to_nat n) src);
  d ← zset d (dsize + n) 0;
  Some (d, res).

(** [n] is a [size_t]: 0 wraps to 2^32 - 1 at the first [--n]. *)
Fixpoint strncasecmp (s1 s2 : list Z) (n : Z) : option Z :=
  match s1, s2 with
  | a :: s1', b :: s2' =>
      let c1 := tolower a in let c2 := tolower b in
      let n := n -u 1 in
      if (0 <? n) && (c1 =? c2) && negb (c1 =? 0) then strncasecmp s1' s2' n
      else Some (c1 - c2)
  | _, _ => None
  end.

(** ** Searches: [Some None] is a NULL result, [Some (Some i)] the pointer [s + i] *)

Definition shift (r : option (option Z)) : option (option Z) :=
  x ← r; Some (i ← x; Some (i + 1)).

Fixpoint strchr (s : list Z) (c : Z) : option (option Z) :=
  match s with
  | [] => None
  | x :: s' => if negb (x =? u8 c) then if x =? 0 then Some None else shift (strchr s' c)
               else Some (Some 0)
  end.

Fixpoint strrchr_loop (s : list Z) (c : Z) (p : nat) : option (option Z) :=
  x ← s !! p;
  if x =? u8 c then Some (Some (Z.of_nat p)) else
  match p with O => Some None | S p' => strrchr_loop s c p' end.

Definition strrchr (s : list Z) (c : Z) : option (option Z) :=
  n ← strlen s; strrchr_loop s c (Z.to_nat n).

Fixpoint strnchr (s : list Z) (count : nat) (c : Z) {struct count} : option (option Z) :=
  match count with
  | O => Some None
  | S count' =>
      match s with
      | [] => None
      | x :: s' => if x =? 0 then Some None
                   else if x =? u8 c then Some (Some 0) else shift (strnchr s' count' c)
      end
  end.

(** The inner loops: is [x] one of the characters of the string [set]? *)
Fixpoint in_set (x : Z) (set : list Z) : option bool :=
  match set with
  | [] => None
  | a :: set' => if a =? 0 then Some false else if x =? a then Some true else in_set x set'
  end.

Fixpoint strspn (s accept : list Z) : option Z :=
  match s with
  | [] => None
  | x :: s' =>
      if x =? 0 then Some 0 else
      b ← in_set x accept;
      if (b : bool) then n ← strspn s' accept; Some (n + 1) else Some 0
  end.

Fixpoint strcspn (s reject : list Z) : option Z :=
  match s with
  | [] => None
  | x :: s' =>
      if x =? 0 then Some 0 else
      b ← in_set x reject;
      if (b : bool) then Some 0 else n ← strcspn s' reject; Some (n + 1)
  end.

Fixpoint strpbrk (cs ct : list Z) : option (option Z) :=
  match cs with
  | [] => None
  | x :: cs' =>
      if x =? 0 then Some None else
      b ← in_set x ct;
      if (b : bool) then Some (Some 0) else shift (strpbrk cs' ct)
  end.

(** [strsep]: [mem] holds the string, [*s] is the index [pos] ([None] for NULL).
    Returns the memory, the token's start and the new [*s]. *)
Definition strsep (mem : list Z) (pos : option nat) (ct : list Z)
    : option (list Z * option nat * option nat) :=
  match pos with
  | None => Some (mem, None, None)
  | Some p =>
      e ← strpbrk (drop p mem) ct;
      match e with
      | Some i =>
          m ← zset mem (Z.of_nat p + i) 0;
          Some (m, Some p, Some (p + Z.to_nat i + 1)%nat)
      | None => Some (mem, Some p, None)
      end
  end.

(** [strstrip]'s two scans: drop trailing, then leading white space. *)
Fixpoint strip_end (s : list Z) (n : nat) : option nat :=
  match n with
  | O => Some O
  | S n' => x ← s !! n'; if isspace x then strip_end s n' else Some n
  end.

Fixpoint strip_start (s : list Z) : option nat :=
  match s with
  | [] => None
  | x :: s' => if negb (x =? 0) && isspace x then n ← strip_start s'; Some (S n) else Some O
  end.

Definition strstrip (s : list Z) : option (list Z * nat) :=
  size ← strlen s;
  if size =? 0 then Some (s, O) else
  e ← strip_end s (Z.to_nat size);
  s ← zset s (Z.of_nat e) 0;
  n ← strip_start s;
  Some (s, n).

(** ** Blocks inside one memory: [dest] and [src] are indices *)

Fixpoint memset (m : list Z) (xs : Z) (c : Z) (count : nat) {struct count} : option (list Z) :=
  match count with
  | O => Some m
  | S count' => m ← zset m xs (u8 c); memset m (xs + 1) c count'
  end.

Fixpoint memcpy (m : list Z) (tmp s : Z) (count : nat) {struct count} : option (list Z) :=
  match count with
  | O => Some m
  | S count' => x ← zget m s; m ← zset m tmp x; memcpy m (tmp + 1) (s + 1) count'
  end.

Fixpoint memcpy_down (m : list Z) (tmp s : Z) (count : nat) {struct count} : option (list Z) :=
  match count with
  | O => Some m
  | S count' => x ← zget m (s - 1); m ← zset m (tmp - 1) x; memcpy_down m (tmp - 1) (s - 1) count'
  end.

Definition memmove (m : list Z) (dest src : Z) (count : nat) : option (list Z) :=
  if dest <=? src then memcpy m dest src count
  else memcpy_down m (dest + Z.of_nat count) (src + Z.of_nat count) count.

Fixpoint memscan (p : list Z) (c : Z) (size : nat) {struct size} : option Z :=
  match size with
  | O => Some 0
  | S size' =>
      match p with
      | [] => None
      | x :: p' => if x =? c then Some 0 else n ← memscan p' c size'; Some (n + 1)
      end
  end.

Fixpoint memchr (s : list Z) (c : Z) (n : nat) {struct n} : option (option Z) :=
  match n with
  | O => Some None
  | S n' =>
      match s with
      | [] => None
      | x :: s' => if u8 c =? x then Some (Some 0) else shift (memchr s' c n')
      end
  end.

(** The [while (l1 >= l2)] loop: [extra] is [l1 - l2]. *)
Fixpoint strstr_loop (s1 s2 : list Z) (l2 extra : nat) : option (option Z) :=
  r ← memcmp s1 s2 l2;
  if r =? 0 then Some (Some 0) else
  match extra with
  | O => Some None
  | S e => shift (strstr_loop (tail s1) s2 l2 e)
  end.

Definition strstr (s1 s2 : list Z) : option (option Z) :=
  l2 ← strlen s2;
  if l2 =? 0 then Some (Some 0) else
  l1 ← strlen s1;
  if l1 <? l2 then Some None
  else strstr_loop s1 s2 (Z.to_nat l2) (Z.to_nat (l1 - l2)).

(** ** Strings in memory *)

(** [s] holds the string [t], its terminating NUL and the bytes [rest]. *)
Definition nonul (t : list Z) : Prop := Forall (fun c => is_u8 c /\ c <> 0) t.
Definition holds (s t rest : list Z) : Prop := s = t ++ 0 :: rest /\ nonul t.

Lemma holds_inv s t rest : holds s t rest -> s = t ++ 0 :: rest /\ nonul t.
Proof. done. Qed.

Lemma nonul_cons c t : nonul (c :: t) <-> (is_u8 c /\ c <> 0) /\ nonul t.
Proof. unfold nonul. by rewrite Forall_cons. Qed.

Lemma strlen_nonneg s n : strlen s = Some n -> 0 <= n.
Proof.
  revert n. induction s as [|c s IH]; intros n; cbn [strlen]; [done|].
  destruct (c =? 0); [by intros [= <-]|].
  destruct (strlen s) as [m|]; cbn [mbind option_bind]; [|done].
  intros [= <-]. specialize (IH m eq_refl). lia.
Qed.

Lemma strlen_ok s t rest : holds s t rest -> strlen s = Some (len t).
Proof.
  intros [-> Ht]. induction Ht as [|c t [_ Hc] _ IH]; simpl; [done|].
  destruct (Z.eqb_spec c 0); [done|]. rewrite IH. simpl. f_equal. lia.
Qed.

Lemma strnlen_ok s t rest n : holds s t rest -> strnlen s n = Some (Z.min (len t) (Z.of_nat n)).
Proof.
  intros [-> Ht]. revert n. induction Ht as [|c t [_ Hc] _ IH]; intros [|n];
    cbn [strnlen app length]; try (f_equal; lia).
  destruct (Z.eqb_spec c 0); [done|]. rewrite IH. cbn [mbind option_bind]. f_equal. lia.
Qed.

(** The truncation to [signed char] loses no inequality of bytes. *)
Lemma s8_diff a b : is_u8 a -> is_u8 b -> (s8 (a - b) =? 0) = (a =? b).
Proof.
  unfold is_u8, s8, swrap. change (2 ^ (8 - 1)) with 128. change (2 ^ 8) with 256. intros.
  destruct (Z.eqb_spec ((a - b + 128) mod 256 - 128) 0), (Z.eqb_spec a b); try done;
    Z.to_euclidean_division_equations; lia.
Qed.

Lemma strncmp_prefix s1 t1 r1 s2 t2 r2 n : holds s1 t1 r1 -> holds s2 t2 r2 ->
  exists v, strncmp s1 s2 n = Some v /\ (v = 0 <-> take n t1 = take n t2).
Proof.
  intros [-> H1] [-> H2]. revert t2 H2 n.
  induction H1 as [|c t1 [Hc8 Hc] H1 IH]; intros t2 H2 [|n]; simpl; try (exists 0; done).
  - destruct H2 as [|d t2 [Hd8 Hd] H2]; simpl.
    + exists 0. done.
    + rewrite orb_true_r. eexists; split; [done|]. rewrite <- Z.eqb_eq, s8_diff, Z.eqb_eq by done.
      split; [congruence|]. done.
  - destruct H2 as [|d t2 [Hd8 Hd] H2]; simpl.
    + rewrite s8_diff by done. destruct (Z.eqb_spec c 0); [done|]. simpl.
      eexists; split; [done|]. rewrite <- Z.eqb_eq, s8_diff, Z.eqb_eq by done. done.
    + rewrite s8_diff by done. destruct (Z.eqb_spec c 0); [done|]. rewrite orb_false_r.
      destruct (Z.eqb_spec c d) as [->|Hne]; simpl.
      * destruct (IH t2 H2 n) as (v & -> & Hv). exists v. split; [done|]. rewrite Hv.
        split; congruence.
      * eexists; split; [done|]. rewrite <- Z.eqb_eq, s8_diff, Z.eqb_eq by done. split; congruence.
Qed.

Lemma strcmp_eq s1 t1 r1 s2 t2 r2 : holds s1 t1 r1 -> holds s2 t2 r2 ->
  exists v, strcmp s1 s2 = Some v /\ (v = 0 <-> t1 = t2).
Proof.
  intros [-> H1] [-> H2]. revert t2 H2.
  induction H1 as [|c t1 [Hc8 Hc] H1 IH]; intros t2 H2; simpl.
  - destruct H2 as [|d t2 [Hd8 Hd] H2]; simpl; [exists 0; done|].
    rewrite orb_true_r. eexists; split; [done|].
    rewrite <- Z.eqb_eq, s8_diff, Z.eqb_eq by done. split; congruence.
  - destruct H2 as [|d t2 [Hd8 Hd] H2]; simpl.
    + rewrite s8_diff by done. destruct (Z.eqb_spec c 0); [done|]. simpl.
      eexists; split; [done|]. rewrite <- Z.eqb_eq, s8_diff, Z.eqb_eq by done. done.
    + rewrite s8_diff by done. destruct (Z.eqb_spec c 0); [done|]. rewrite orb_false_r.
      destruct (Z.eqb_spec c d) as [->|Hne]; simpl.
      * destruct (IH t2 H2) as (v & -> & Hv). exists v. split; [done|]. rewrite Hv.
        split; congruence.
      * eexists; split; [done|]. rewrite <- Z.eqb_eq, s8_diff, Z.eqb_eq by done. split; congruence.
Qed.

(** A block of a string written at [off] and terminated. *)
Lemma write_terminated dest off bs : 0 <= off -> off + len bs < len dest ->
  exists d, (d ← mem_write dest off bs; zset d (off + len bs) 0) = Some d /\
    d = take (Z.to_nat off) dest ++ bs ++ 0 :: drop (Z.to_nat off + length bs + 1) dest.
Proof.
  intros H0 Hl. unfold mem_write.
  destruct (Z.leb_spec 0 off), (Z.leb_spec (off + len bs) (len dest)); try lia. simpl.
  eexists; split.
  - rewrite zset_spec; [reflexivity|]. rewrite !length_app, length_take, length_drop. lia.
  - rewrite insert_app_r_alt; rewrite length_take; [|lia]. f_equal.
    rewrite insert_app_r_alt by lia. f_equal.
    replace (Z.to_nat (off + len bs) - Z.to_nat off `min` length dest - length bs)%nat with O by lia.
    destruct (drop (Z.to_nat off + length bs) dest) as [|x xs] eqn:E.
    + apply (f_equal length) in E. rewrite length_drop in E. simpl in E. lia.
    + cbn. f_equal. rewrite <- drop_drop, E. done.
Qed.

Lemma strlcpy_ok dest src t rest sz : holds src t rest -> 0 < sz < 2 ^ 32 -> sz <= len dest ->
  let n := Z.to_nat (Z.min (len t) (sz - 1)) in
  strlcpy dest src sz = Some (take n t ++ 0 :: drop (n + 1) dest, len t).
Proof.
  intros Hs Hsz Hd n. unfold strlcpy. rewrite (strlen_ok _ _ _ Hs). cbn [mbind option_bind].
  destruct (Z.eqb_spec sz 0); [lia|]. rewrite u32_id by (unfold is_u32; lia).
  assert (En : (if sz <=? len t then sz - 1 else len t) = Z.of_nat n).
  { unfold n. destruct (Z.leb_spec sz (len t)); lia. }
  rewrite En, Nat2Z.id. destruct Hs as [-> _].
  assert (Et : take n (t ++ 0 :: rest) = take n t) by (apply take_app_le; lia).
  rewrite Et. destruct (write_terminated dest 0 (take n t)) as (d & Hd' & Ed);
    [lia|rewrite length_take; lia|].
  rewrite length_take, Nat.min_l in Hd', Ed by lia. rewrite Z.add_0_l in Hd'.
  destruct (mem_write dest 0 (take n t)) as [d0|]; cbn [mbind option_bind] in *; [|done].
  rewrite Hd'. cbn [mbind option_bind]. rewrite Ed. done.
Qed.

Lemma strlcat_ok dest src t u drest rest count :
  holds dest u drest -> holds src t rest -> len u < count -> count <= len dest ->
  let n := Z.to_nat (Z.min (len t) (count - len u - 1)) in
  exists drest', strlcat dest src count = Some (u ++ take n t ++ 0 :: drest', len u + len t) /\
    length (u ++ take n t ++ 0 :: drest') = length dest.
Proof.
  intros Hu Ht Hc Hd n. unfold strlcat.
  rewrite (strlen_ok _ _ _ Hu), (strlen_ok _ _ _ Ht). cbn [mbind option_bind].
  destruct (Z.leb_spec count (len u)); [lia|].
  assert (En : (if count - len u <=? len t then count - len u - 1 else len t) = Z.of_nat n).
  { unfold n. destruct (Z.leb_spec (count - len u) (len t)); lia. }
  rewrite En, Nat2Z.id. destruct Ht as [-> _].
  assert (Et : take n (t ++ 0 :: rest) = take n t) by (apply take_app_le; lia).
  rewrite Et. destruct (write_terminated dest (len u) (take n t)) as (d & Hd' & Ed);
    [lia|rewrite length_take; lia|].
  rewrite length_take, Nat.min_l in Hd', Ed by lia.
  destruct (mem_write dest (len u) (take n t)) as [d0|]; cbn [mbind option_bind] in *; [|done].
  rewrite Hd'. cbn [mbind option_bind].
  assert (E1 : take (Z.to_nat (len u)) dest = u).
  { rewrite Nat2Z.id. destruct Hu as [-> _]. apply take_app_length. }
  rewrite E1 in Ed. exists (drop (Z.to_nat (len u) + n + 1) dest). rewrite <- Ed.
  split; [done|]. rewrite Ed, !length_app, length_take. cbn [length]. rewrite length_drop. lia.
Qed.

(** ** Overlapping block moves *)

Lemma memcpy_up m tmp s n : 0 <= tmp <= s -> s + Z.of_nat n <= len m ->
  exists m', memcpy m tmp s n = Some m' /\ length m' = length m /\
    forall i, zat m' i = if (tmp <=? i) && (i <? tmp + Z.of_nat n) then zat m (s + (i - tmp)) else zat m i.
Proof.
  revert m tmp s. induction n as [|n IH]; intros m tmp s Ht Hb; cbn [memcpy].
  { exists m. split; [done|]. split; [done|]. intros i. split_cmp; simpl; try lia; done. }
  rewrite zget_zat by lia. cbn [mbind option_bind]. rewrite zset_spec by lia.
  cbn [mbind option_bind].
  destruct (IH (<[Z.to_nat tmp:=zat m s]> m) (tmp + 1) (s + 1)) as (m' & -> & Hl & Hi);
    [lia|rewrite length_insert; lia|].
  exists m'. split; [done|]. rewrite length_insert in Hl. split; [done|]. intros i. rewrite Hi.
  rewrite !zat_insert.
  split_cmp; simpl; try lia; repeat case_decide; try lia; try (f_equal; lia).
Qed.

Lemma memcpy_down_ok m tmp s n : 0 <= s - Z.of_nat n -> s < tmp -> tmp <= len m ->
  exists m', memcpy_down m tmp s n = Some m' /\ length m' = length m /\
    forall i, zat m' i = if (tmp - Z.of_nat n <=? i) && (i <? tmp) then zat m (s + (i - tmp)) else zat m i.
Proof.
  revert m tmp s. induction n as [|n IH]; intros m tmp s Hs Ht Hb; cbn [memcpy_down].
  { exists m. split; [done|]. split; [done|]. intros i. split_cmp; simpl; try lia; done. }
  rewrite zget_zat by lia. cbn [mbind option_bind]. rewrite zset_spec by lia.
  cbn [mbind option_bind].
  destruct (IH (<[Z.to_nat (tmp - 1):=zat m (s - 1)]> m) (tmp - 1) (s - 1)) as (m' & -> & Hl & Hi);
    [lia|lia|rewrite length_insert; lia|].
  exists m'. split; [done|]. rewrite length_insert in Hl. split; [done|]. intros i. rewrite Hi.
  rewrite !zat_insert.
  split_cmp; simpl; try lia; repeat case_decide; try lia; try (f_equal; lia).
Qed.

(** ** Substring search *)

Lemma memcmp_eq a b n : bytes a -> bytes b -> (n <= length a)%nat -> (n <= length b)%nat ->
  exists v, memcmp a b n = Some v /\ (v = 0 <-> take n a = take n b).
Proof.
  revert a b. induction n as [|n IH]; intros a b Ha Hb La Lb; [exists 0; done|].
  destruct Ha as [|x a Hx Ha], Hb as [|y b Hy Hb]; simpl in *; try lia.
  destruct (Z.eqb_spec (x - y) 0) as [E|]; simpl.
  - assert (x = y) as -> by lia. destruct (IH a b Ha Hb) as (v & -> & Hv); [lia|lia|].
    exists v. split; [done|]. rewrite Hv. split; congruence.
  - eexists; split; [done|]. split; [lia|]. intros [= ? ?]. lia.
Qed.

(** [occurs u t i]: the string [t] occurs in [u] at index [i]. *)
Definition occurs (u t : list Z) (i : Z) : Prop :=
  0 <= i /\ i + len t <= len u /\ take (length t) (drop (Z.to_nat i) u) = t.

Definition first_occurrence (u t : list Z) (r : option Z) : Prop :=
  match r with
  | Some i => occurs u t i /\ forall j, 0 <= j < i -> ~ occurs u t j
  | None => forall j, ~ occurs u t j
  end.

Lemma nonul_bytes t : nonul t -> bytes t.
Proof. intros H. eapply Forall_impl; [exact H|]. by intros ? [? _]. Qed.

Lemma first_occurrence_shift x u t r : ~ occurs (x :: u) t 0 ->
  first_occurrence u t r -> first_occurrence (x :: u) t (i ← r; Some (i + 1)).
Proof.
  intros H0 Hr.
  assert (Hs : forall j, 0 <= j -> occurs (x :: u) t (j + 1) <-> occurs u t j).
  { intros j Hj. unfold occurs. replace (Z.to_nat (j + 1)) with (S (Z.to_nat j)) by lia.
    cbn [length drop]. split; intros (? & ? & ?); repeat split; try done; lia. }
  assert (Hz : forall j, occurs (x :: u) t j -> 0 < j).
  { intros j Hj. destruct (Z.eqb_spec j 0) as [->|]; [done|]. destruct Hj. lia. }
  destruct r as [i|]; simpl.
  - destruct Hr as [Hi Hn]. split; [apply Hs; [apply Hi|done]|].
    intros j Hj Ho. pose proof (Hz j Ho). replace j with ((j - 1) + 1) in Ho by lia.
    apply Hs in Ho; [|lia]. apply (Hn (j - 1)); [lia|done].
  - intros j Ho. pose proof (Hz j Ho). replace j with ((j - 1) + 1) in Ho by lia.
    apply Hs in Ho; [|lia]. by apply (Hr (j - 1)).
Qed.

Lemma memcmp_strings u t r r2 : nonul u -> nonul t -> bytes r -> bytes r2 ->
  (length t <= length u)%nat ->
  exists v, memcmp (u ++ 0 :: r) (t ++ 0 :: r2) (length t) = Some v /\
    (v = 0 <-> take (length t) u = t).
Proof.
  intros Hu Ht Hr Hr2 Hl.
  assert (B : forall a b, nonul a -> bytes b -> bytes (a ++ 0 :: b)).
  { intros a b Ha Hb. apply Forall_app. split; [by apply nonul_bytes|].
    constructor; [unfold is_u8; lia|done]. }
  destruct (memcmp_eq (u ++ 0 :: r) (t ++ 0 :: r2) (length t)) as (v & E & Hv);
    [by apply B|by apply B|rewrite length_app; lia|rewrite length_app; lia|].
  exists v. split; [done|]. rewrite (take_app_le u), take_app_length in Hv by lia. done.
Qed.

Lemma strstr_loop_ok e u t r r2 : nonul u -> nonul t -> bytes r -> bytes r2 -> (0 < length t)%nat ->
  length u = (length t + e)%nat ->
  exists res, strstr_loop (u ++ 0 :: r) (t ++ 0 :: r2) (length t) e = Some res /\
    first_occurrence u t res.
Proof.
  revert u. induction e as [|e IH]; intros u Hu Ht Hr Hr2 Hl E; cbn [strstr_loop];
    (destruct (memcmp_strings u t r r2) as (v & -> & Hv); try done; [lia|]);
    cbn [mbind option_bind]; destruct (Z.eqb_spec v 0) as [Ev|Ev].
  1,3: eexists; split; [done|]; split; [|intros; lia]; split; [lia|]; split; [lia|]; by apply Hv.
  - eexists; split; [done|]. intros j (? & ? & Ho). replace j with 0 in Ho by lia.
    by apply Ev, Hv.
  - destruct u as [|x u]; [simpl in E; lia|]. cbn [app tail].
    apply nonul_cons in Hu as [_ Hu].
    destruct (IH u) as (res & -> & Hres); try done; [simpl in E; lia|].
    eexists; split; [done|]. apply first_occurrence_shift; [|done].
    intros (_ & _ & Ho). apply Ev, Hv, Ho.
Qed.

(** ** Correctness *)

(** [strlcpy] and [strlcat] never write past [size] bytes of the destination,
    always leave a terminated string that is the longest prefix of the (joined)
    string that fits, and return the length they tried to create. *)
Theorem strl_bounded_copy dest src t rest u drest sz :
  holds src t rest -> holds dest u drest -> len u < sz -> sz <= len dest -> sz < 2 ^ 32 ->
  (exists d, strlcpy dest src sz = Some (d, len t) /\ length d = length dest /\
     take (Z.to_nat (Z.min (len t) (sz - 1)) + 1) d =
       take (Z.to_nat (Z.min (len t) (sz - 1))) t ++ [0] /\
     drop (Z.to_nat sz) d = drop (Z.to_nat sz) dest) /\
  (exists drest', strlcat dest src sz =
       Some (u ++ take (Z.to_nat (Z.min (len t) (sz - len u - 1))) t ++ 0 :: drest',
             len u + len t) /\
     length (u ++ take (Z.to_nat (Z.min (len t) (sz - len u - 1))) t ++ 0 :: drest')
       = length dest).
Proof.
  intros Hs Hd Hu Hsz H32. split; [|by apply strlcat_ok with drest rest].
  eexists; split; [apply (strlcpy_ok dest src t rest); done || lia|].
  set (n := Z.to_nat (Z.min (len t) (sz - 1))).
  assert (Hn : (length (take n t) = n)%nat) by (rewrite length_take; lia).
  split; [|split].
  - rewrite length_app. cbn [length]. rewrite length_drop. lia.
  - rewrite <- Hn at 1. rewrite take_app_add'. simpl. done. done.
  - rewrite drop_app_ge by lia. rewrite Hn. destruct (Z.to_nat sz - n)%nat eqn:E; [lia|].
    cbn [drop]. rewrite drop_drop. f_equal. lia.
Qed.

Lemma strl_bounded_copy_witness :
  strlcpy [1; 0; 3; 4; 5] [97; 98; 99; 100; 0] 3 = Some ([97; 98; 0; 4; 5], 4) /\
  exists d, strlcpy [1; 0; 3; 4; 5] [97; 98; 99; 100; 0] 3 = Some (d, 4) /\ length d = 5%nat.
Proof.
  split; [reflexivity|].
  destruct (strl_bounded_copy [1; 0; 3; 4; 5] [97; 98; 99; 100; 0] [97; 98; 99; 100] []
    [1] [3; 4; 5] 3) as [(d & E & L & _) _].
  - split; [reflexivity|]. repeat constructor; unfold is_u8; lia.
  - split; [reflexivity|]. repeat constructor; unfold is_u8; lia.
  - simpl; lia.
  - simpl; lia.
  - lia.
  - exists d. split; [exact E|exact L].
Defined.

(** [strcmp] and [strncmp] return 0 exactly for equal strings (equal first [n]
    characters), although the difference is truncated to a signed char; and
    [strstr] returns the first occurrence of the second string in the first, or
    NULL when there is none. *)
Theorem strcmp_strstr_correct s1 t1 r1 s2 t2 r2 n :
  holds s1 t1 r1 -> holds s2 t2 r2 -> bytes r1 -> bytes r2 ->
  (exists v, strcmp s1 s2 = Some v /\ (v = 0 <-> t1 = t2)) /\
  (exists v, strncmp s1 s2 n = Some v /\ (v = 0 <-> take n t1 = take n t2)) /\
  (exists r, strstr s1 s2 = Some r /\ first_occurrence t1 t2 r).
Proof.
  intros H1 H2 B1 B2. split; [by apply (strcmp_eq s1 t1 r1 s2 t2 r2)|].
  split; [by apply (strncmp_prefix s1 t1 r1 s2 t2 r2)|].
  unfold strstr. rewrite (strlen_ok _ _ _ H2), (strlen_ok _ _ _ H1). cbn [mbind option_bind].
  destruct (Z.eqb_spec (len t2) 0) as [E|Hn].
  { eexists; split; [done|]. split; [|intros; lia]. split; [lia|]. split; [lia|].
    destruct t2; [done|simpl in E; lia]. }
  destruct (Z.ltb_spec (len t1) (len t2)).
  { eexists; split; [done|]. intros j (? & ? & _). lia. }
  rewrite Nat2Z.id. destruct H1 as [-> N1], H2 as [-> N2].
  apply strstr_loop_ok; try done; lia.
Qed.

Lemma strcmp_strstr_correct_witness :
  strstr [97; 98; 97; 99; 0] [97; 99; 0] = Some (Some 2) /\
  exists r, strstr [97; 98; 97; 99; 0] [97; 99; 0] = Some r /\
    first_occurrence [97; 98; 97; 99] [97; 99] r.
Proof.
  split; [reflexivity|].
  refine (proj2 (proj2 (strcmp_strstr_correct _ [97; 98; 97; 99] [] _ [97; 99] [] 1%nat _ _ _ _))).
  - split; [reflexivity|]. repeat constructor; unfold is_u8; lia.
  - split; [reflexivity|]. repeat constructor; unfold is_u8; lia.
  - constructor.
  - constructor.
Defined.

(** [memmove] gives the destination the source's old bytes for every overlap
    of the two blocks inside one memory, and changes nothing else. *)
Theorem memmove_overlap m dest src n :
  0 <= dest -> 0 <= src -> dest + Z.of_nat n <= len m -> src + Z.of_nat n <= len m ->
  exists m', memmove m dest src n = Some m' /\ length m' = length m /\
    forall i, zat m' i = if (dest <=? i) && (i <? dest + Z.of_nat n)
                         then zat m (src + (i - dest)) else zat m i.
Proof.
  intros. unfold memmove. destruct (Z.leb_spec dest src).
  - apply memcpy_up; lia.
  - destruct (memcpy_down_ok m (dest + Z.of_nat n) (src + Z.of_nat n) n) as (m' & -> & Hl & Hi);
      try lia.
    exists m'. split; [done|]. split; [done|]. intros i. rewrite Hi.
    replace (dest + Z.of_nat n - Z.of_nat n) with dest by lia.
    destruct (_ && _); [f_equal; lia|done].
Qed.

Lemma memmove_overlap_witness :
  memmove [1; 2; 3; 4; 5] 1 0 3 = Some [1; 1; 2; 3; 5] /\
  exists m', memmove [1; 2; 3; 4; 5] 1 0 3 = Some m' /\ length m' = 5%nat.
Proof.
  split; [reflexivity|].
  destruct (memmove_overlap [1; 2; 3; 4; 5] 1 0 3) as (m' & E & L & _); try (simpl; lia).
  exists m'. split; [exact E|exact L].
Defined.

(** The sign of [strcmp] is not an ordering of strings: the signed char
    truncation makes it cyclic on one-character strings. *)
Theorem strcmp_not_an_order :
  strcmp [200; 0] [100; 0] = Some 100 /\ strcmp [100; 0] [0; 0] = Some 100 /\
  strcmp [200; 0] [0; 0] = Some (-56).
Proof. vm_compute. done. Qed.
