(* ===== verification/Logger.v ===== *)
(** The Android logger (drivers/staging/android/logger.c): a power-of-two ring
    of variable-length entries that the writer laps over slow readers.  One
    definition per function of the driver; each runs under the spinlock it
    takes, and [logger_read] is split at the points where it drops the lock.
    [logger_release] takes no lock in the source (unlike [logger_open]): its
    [list_del] is one step here, and what a writer that walks the list at the same
    moment would see is outside of the model. *)
From S2P Require Import Prelude Ring KString.
Local Open Scope kernel_scope.

(** ** Data *)

Record logger_reader := mk_reader { r_id : nat; r_off : Z; fixed : Z }.

Record logger_tag := mk_tag { t_name : list Z; t_priority : Z; t_enabled : Z }.

Record logger_log := mk_log {
  buffer : list Z;
  w_off : Z;
  head : Z;
  size : Z;
  enabled : Z;
  priority : Z;
  was_overrun : Z;
  tags : list logger_tag;
  readers : list logger_reader }.

Definition set_ring (log : logger_log) (b : list Z) (w : Z) : logger_log :=
  mk_log b w (head log) (size log) (enabled log) (priority log) (was_overrun log)
    (tags log) (readers log).
Definition set_head (log : logger_log) (h o : Z) : logger_log :=
  mk_log (buffer log) (w_off log) h (size log) (enabled log) (priority log) o
    (tags log) (readers log).
Definition set_readers (log : logger_log) (o : Z) (rs : list logger_reader) : logger_log :=
  mk_log (buffer log) (w_off log) (head log) (size log) (enabled log) (priority log) o
    (tags log) rs.
Definition set_tags (log : logger_log) (p : Z) (ts : list logger_tag) : logger_log :=
  mk_log (buffer log) (w_off log) (head log) (size log) (enabled log) p (was_overrun log)
    ts (readers log).
Definition set_enabled (log : logger_log) (e : Z) : logger_log :=
  mk_log (buffer log) (w_off log) (head log) (size log) e (priority log) (was_overrun log)
    (tags log) (readers log).

Definition sizeof_logger_entry : Z := 20.
Definition LOGGER_ENTRY_MAX_LEN : Z := 4 * 1024.
Definition LOGGER_ENTRY_MAX_PAYLOAD : Z := LOGGER_ENTRY_MAX_LEN - sizeof_logger_entry.
Definition LOG_PRIORITY_SILENT : Z := 8.


(** The [struct logger_entry] on the writer's stack, in memory order; [pad] is
    the uninitialised [__pad] field. *)
Record entry_env := mk_env { pad : Z; pid : Z; tid : Z; sec : Z; nsec : Z }.

Definition le16 (x : Z) : list Z := [u8 x; u8 (x / 2 ^ 8)].
Definition le32 (x : Z) : list Z :=
  [u8 x; u8 (x / 2 ^ 8); u8 (x / 2 ^ 16); u8 (x / 2 ^ 24)].

Definition header_bytes (n : Z) (env : entry_env) : list Z :=
  le16 n ++ le16 (pad env) ++ le32 (pid env) ++ le32 (tid env) ++ le32 (sec env) ++
  le32 (nsec env).

(** ** Reading *)

Definition logger_offset (log : logger_log) (n : Z) : Z := Z.land n (size log -u 1).

Definition get_entry_len (log : logger_log) (off : Z) : option Z :=
  if size log -u off =? 1 then
    a ← zget (buffer log) off; b ← zget (buffer log) 0;
    Some (sizeof_logger_entry + (a + 256 * b))
  else
    a ← zget (buffer log) off; b ← zget (buffer log) (off + 1);
    Some (sizeof_logger_entry + (a + 256 * b)).

Definition find_reader (log : logger_log) (id : nat) : option logger_reader :=
  list_find (fun r => r_id r = id) (readers log) ≫= fun p => Some (snd p).

Definition upd_reader (log : logger_log) (id : nat) (f : logger_reader -> logger_reader)
    : logger_log :=
  set_readers log (was_overrun log)
    ((fun r => if Nat.eqb (r_id r) id then f r else r) <$> readers log).

(** What a read call hands back: its return value, and the bytes stored in the
    user's buffer when [copy_to_user] succeeds. *)
Record read_result := mk_res { ret : Z; user_bytes : list Z }.

(** The locked section moves [count] bytes, which [fixed] replaces by the length
    of the entry now at [r_off]; [ret] is the count the caller passed. *)
Definition do_read_log_to_user (log : logger_log) (id : nat) (count : Z)
    (kmalloc_ok copy_ok : bool) : option (logger_log * read_result) :=
  if negb kmalloc_ok then Some (log, mk_res (- ENOMEM) []) else
  reader ← find_reader log id;
  let ret := count in
  count ← (if negb (fixed reader =? 0) then get_entry_len log (r_off reader) else Some count);
  let l := Z.min count (size log -u r_off reader) in
  a ← mem_read (buffer log) (r_off reader) l;
  b ← (if negb (count =? l) then mem_read (buffer log) 0 (count -u l) else Some []);
  if LOGGER_ENTRY_MAX_LEN <? count then None else
  let log' := upd_reader log id
    (fun r => mk_reader (r_id r) (logger_offset log (r_off reader +u count)) 0) in
  Some (log', if copy_ok then mk_res ret (a ++ b) else mk_res (- EFAULT) []).

(** The wait loop and the second locked section of [logger_read]. *)
Inductive read_start : Type :=
  | RErr (e : Z)          (** returned to the caller *)
  | RSleep                (** [schedule()] *)
  | RLen (n : Z).         (** length of the next entry *)

Definition logger_read_start (log : logger_log) (id : nat) (nonblock signal : bool)
    : option read_start :=
  reader ← find_reader log id;
  if w_off log =? r_off reader then
    Some (if nonblock then RErr (- EAGAIN) else if signal then RErr (- EINTR) else RSleep)
  else n ← get_entry_len log (r_off reader); Some (RLen n).

(** The return: [-EINVAL] for a short buffer, else the copy. *)
Definition logger_read_finish (log : logger_log) (id : nat) (count n : Z)
    (kmalloc_ok copy_ok : bool) : option (logger_log * read_result) :=
  if count <? n then Some (log, mk_res (- EINVAL) [])
  else do_read_log_to_user log id n kmalloc_ok copy_ok.

(** ** Writing *)

Fixpoint get_next_entry_loop (fuel : nat) (log : logger_log) (off n count : Z) : option Z :=
  match fuel with
  | O => None
  | S fuel' =>
      nr ← get_entry_len log off;
      let off := logger_offset log (off +u nr) in
      let count := count +u nr in
      if count <? n then get_next_entry_loop fuel' log off n count else Some off
  end.

Definition get_next_entry (log : logger_log) (off n : Z) : option Z :=
  get_next_entry_loop (S (Z.to_nat n)) log off n 0.

Definition clock_interval (a b c : Z) : bool :=
  if b <? a then (a <? c) || (c <=? b) else (a <? c) && (c <=? b).

Fixpoint fix_readers (log : logger_log) (old new n : Z) (rs : list logger_reader)
    : option (Z * list logger_reader) :=
  match rs with
  | [] => Some (was_overrun log, [])
  | r :: rs' =>
      if clock_interval old new (r_off r) then
        off ← get_next_entry log (r_off r) n;
        '(_, out) ← fix_readers log old new n rs';
        Some (1, mk_reader (r_id r) off 1 :: out)
      else
        '(o, out) ← fix_readers log old new n rs'; Some (o, r :: out)
  end.

Definition fix_up_readers (log : logger_log) (n : Z) : option logger_log :=
  let old := w_off log in
  let new := logger_offset log (old +u n) in
  log ← (if clock_interval old new (head log) then
           h ← get_next_entry log (head log) n;
           Some (set_head log h (if decide (readers log = []) then 1 else was_overrun log))
         else Some log);
  '(o, rs) ← fix_readers log old new n (readers log);
  Some (set_readers log o rs).

(** Reading past the end of the source buffer is [None] too. *)
Definition do_write_log (log : logger_log) (buf : list Z) (count : Z) : option logger_log :=
  if len buf <? count then None else
  let count := if size log <? count then size log else count in
  let l := Z.min count (size log -u w_off log) in
  b1 ← mem_write (buffer log) (w_off log) (take (Z.to_nat l) buf);
  b2 ← (if negb (count =? l)
        then mem_write b1 0 (take (Z.to_nat (count -u l)) (drop (Z.to_nat l) buf))
        else Some b1);
  Some (set_ring log b2 (logger_offset log (w_off log +u count))).

Definition write_log_entry_events (log : logger_log) (env : entry_env) (buf : list Z)
    (buf_len : Z) : option (logger_log * Z) :=
  let hlen := u16 (Z.min buf_len LOGGER_ENTRY_MAX_PAYLOAD) in
  log ← fix_up_readers log (sizeof_logger_entry + hlen);
  log ← do_write_log log (header_bytes hlen env) sizeof_logger_entry;
  log ← do_write_log log buf hlen;
  Some (log, hlen).

Definition write_log_entry_mainradio (log : logger_log) (env : entry_env) (prio : Z)
    (tag : list Z) (tag_bytes : Z) (msg : list Z) (msg_bytes : Z) : option (logger_log * Z) :=
  let hlen := u16 (Z.min (tag_bytes + msg_bytes + 1) LOGGER_ENTRY_MAX_PAYLOAD) in
  log ← fix_up_readers log (sizeof_logger_entry + hlen);
  log ← do_write_log log (header_bytes hlen env) sizeof_logger_entry;
  log ← do_write_log log [prio] 1;
  log ← do_write_log log tag tag_bytes;
  log ← do_write_log log msg msg_bytes;
  Some (log, hlen).

(** ** Tags and priorities *)

(** The list walk of [get_tag]: the first tag whose name matches. *)
Fixpoint lookup_tag (ts : list logger_tag) (name : list Z) (n : nat) : option (option logger_tag) :=
  match ts with
  | [] => Some None
  | t :: ts' =>
      r ← strncmp (t_name t) name n;
      if r =? 0 then Some (Some t) else lookup_tag ts' name n
  end.

(** [kzalloc_ok] and [kobj_ret] are the results of [kzalloc] and
    [kobject_init_and_add]; [default_enabled] is [logger_default_enabled]. *)
Definition get_tag (log : logger_log) (name : list Z) (n : Z) (kzalloc_ok : bool)
    (kobj_ret default_enabled : Z) : option (logger_log * (logger_tag + Z)) :=
  found ← lookup_tag (tags log) name (Z.to_nat n);
  match found with
  | Some t => Some (log, inl t)
  | None =>
      if negb kzalloc_ok then Some (log, inr (- ENOMEM)) else
      nm ← mem_read name 0 n;
      let t := mk_tag nm (priority log) default_enabled in
      if kobj_ret =? 0 then Some (set_tags log (priority log) (t :: tags log), inl t)
      else Some (log, inr (if 0 <? kobj_ret then - EFAULT else kobj_ret))
  end.

Definition check_tag_and_priorities (log : logger_log) (prio : Z) (name : list Z) (n : Z)
    (kzalloc_ok : bool) (kobj_ret default_enabled : Z) : option (logger_log * Z) :=
  if 1 <? n then
    '(log, r) ← get_tag log name n kzalloc_ok kobj_ret default_enabled;
    Some (log,
      match r with
      | inr e => e
      | inl t => if negb (t_enabled t =? 0) &&
                    ((priority log <=? prio) || (t_priority t <=? prio)) then 1 else 0
      end)
  else Some (log, 0).

(** ** The write method *)

Record iovec := mk_iov { iov_len : Z; iov_base : option (list Z) }.  (** [None]: faulting *)

(** The copy loop over the first three segments: [left] is [curr_logbytes],
    [at_] the offset of [curr_buf] in [temp_buf]; [None] is [-EFAULT]. *)
Fixpoint copy_segments (iov : list iovec) (segs : nat) (temp_buf : list Z) (at_ left : Z)
    : option (option (list Z)) :=
  match segs with
  | O => Some (Some temp_buf)
  | S segs' =>
      match iov with
      | [] => None
      | v :: iov' =>
          let n := Z.min (iov_len v) left in
          if n =? 0 then Some (Some temp_buf) else
          match iov_base v with
          | None => Some None
          | Some bs =>
              src ← mem_read bs 0 n;
              temp_buf ← mem_write temp_buf at_ src;
              copy_segments iov' segs' temp_buf (at_ + n) (left - n)
          end
      end
  end.

(** [temp_buf]: the uninitialised block [kmalloc] returns, if any; [is_events]:
    [log == &log_events]. *)
Definition logger_aio_write (log : logger_log) (is_events : bool) (env : entry_env)
    (iov : list iovec) (ki_left : Z) (temp_buf : option (list Z))
    (kzalloc_ok : bool) (kobj_ret default_enabled : Z) : option (logger_log * Z) :=
  if enabled log =? 0 then Some (log, 0) else
  let total := Z.min ki_left LOGGER_ENTRY_MAX_PAYLOAD in
  if total =? 0 then Some (log, 0) else
  match temp_buf with
  | None => Some (log, - ENOMEM)
  | Some temp_buf =>
      c ← copy_segments iov (Nat.min (length iov) 3) temp_buf 0 total;
      match c with
      | None => Some (log, - EFAULT)
      | Some temp_buf =>
          if is_events then write_log_entry_events log env temp_buf total else
          match iov with
          | v0 :: v1 :: v2 :: _ =>
              if negb (iov_len v0 =? 1) then Some (log, - EINVAL) else
              prio ← zget temp_buf 0;
              '(log, r) ← check_tag_and_priorities log prio (drop 1 temp_buf) (iov_len v1)
                            kzalloc_ok kobj_ret default_enabled;
              if r <=? 0 then Some (log, r) else
              if LOGGER_ENTRY_MAX_PAYLOAD <? iov_len v1 + 1 then Some (log, - EINVAL) else
              let msglen := if LOGGER_ENTRY_MAX_PAYLOAD <? iov_len v2 + iov_len v1 + 1
                            then LOGGER_ENTRY_MAX_PAYLOAD - iov_len v1 - 1 else iov_len v2 in
              write_log_entry_mainradio log env prio (drop 1 temp_buf) (iov_len v1)
                (drop (Z.to_nat (iov_len v1 + 1)) temp_buf) msglen
          | _ => Some (log, - EINVAL)
          end
      end
  end.

(** [msg]: the string [kvasprintf] allocated, with its terminating NUL. *)
Definition kernel_logger_write (log : logger_log) (env : entry_env) (prio : Z) (tag : list Z)
    (msg : option (list Z)) (kzalloc_ok : bool) (kobj_ret default_enabled : Z)
    : option (logger_log * Z) :=
  tl ← strlen tag;
  let tag_bytes := tl + 1 in
  if enabled log =? 0 then Some (log, 0) else
  '(log, r) ← check_tag_and_priorities log prio tag tag_bytes kzalloc_ok kobj_ret default_enabled;
  if r <=? 0 then Some (log, r) else
  match msg with
  | None => Some (log, - ENOMEM)
  | Some msg =>
      ml ← strlen msg;
      let msg_bytes := ml + 1 in
      if msg_bytes <=? 1 then Some (log, r) else
      if LOGGER_ENTRY_MAX_PAYLOAD <? msg_bytes + tag_bytes + 1 then Some (log, - E2BIG) else
      write_log_entry_mainradio log env prio tag tag_bytes msg msg_bytes
  end.

(** ** Open, release, poll, ioctl and the sysfs attributes *)

Definition POLLIN_RDNORM : Z := 0x0001 + 0x0040.
Definition POLLOUT_WRNORM : Z := 0x0004 + 0x0100.

(** [known]: [get_log_from_minor] found the log; [seek_ret]: the result of
    [nonseekable_open]; [fixed0]: what [kmalloc] left in the field, which
    [logger_open] does not set. *)
Definition logger_open (log : logger_log) (seek_ret : Z) (known for_read kmalloc_ok : bool)
    (id : nat) (fixed0 : Z) : logger_log * Z :=
  if negb (seek_ret =? 0) then (log, seek_ret) else
  if negb known then (log, - ENODEV) else
  if for_read then
    if negb kmalloc_ok then (log, - ENOMEM)
    else (set_readers log (was_overrun log) (readers log ++ [mk_reader id (head log) fixed0]), 0)
  else (log, 0).

(** The source's [list_del] and [kfree] run without [bufflock]. *)
Definition logger_release (log : logger_log) (for_read : bool) (id : nat) : logger_log :=
  if for_read
  then set_readers log (was_overrun log)
         (filter (fun r => Nat.eqb (r_id r) id = false) (readers log))
  else log.

Definition logger_poll (log : logger_log) (for_read : bool) (id : nat) : option Z :=
  if negb for_read then Some POLLOUT_WRNORM else
  reader ← find_reader log id;
  Some (if negb (w_off log =? r_off reader) then POLLOUT_WRNORM + POLLIN_RDNORM
        else POLLOUT_WRNORM).

Definition flush_log (log : logger_log) : logger_log :=
  mk_log (buffer log) (w_off log) (w_off log) (size log) (enabled log) (priority log)
    (was_overrun log) (tags log)
    ((fun r => mk_reader (r_id r) (w_off log) (fixed r)) <$> readers log).

Inductive ioctl_cmd : Type :=
  | LOGGER_GET_LOG_BUF_SIZE | LOGGER_GET_LOG_LEN | LOGGER_GET_NEXT_ENTRY_LEN
  | LOGGER_FLUSH_LOG | OTHER_CMD.

Definition logger_ioctl (log : logger_log) (cmd : ioctl_cmd) (mode_read mode_write : bool)
    (id : nat) : option (logger_log * Z) :=
  match cmd with
  | LOGGER_GET_LOG_BUF_SIZE => Some (log, size log)
  | LOGGER_GET_LOG_LEN =>
      if negb mode_read then Some (log, - EBADF) else
      reader ← find_reader log id;
      Some (log, if r_off reader <=? w_off log then w_off log -u r_off reader
                 else (size log -u r_off reader) +u w_off log)
  | LOGGER_GET_NEXT_ENTRY_LEN =>
      if negb mode_read then Some (log, - EBADF) else
      reader ← find_reader log id;
      if negb (w_off log =? r_off reader)
      then n ← get_entry_len log (r_off reader); Some (log, n)
      else Some (log, 0)
  | LOGGER_FLUSH_LOG =>
      if negb mode_write then Some (log, - EBADF) else Some (flush_log log, 0)
  | OTHER_CMD => Some (log, - ENOTTY)
  end.

(** The attribute stores; [parsed] is what [sscanf] read from [buf], if
    anything, and the result the return value. *)
Definition store_global_enable (log : logger_log) (buf : list Z) (count : nat) (parsed : option Z)
    : option (logger_log * Z) :=
  match parsed with
  | None => Some (log, - EINVAL)
  | Some e => n ← strnlen buf count; Some (set_enabled log e, n)
  end.

Definition store_global_priority (log : logger_log) (buf : list Z) (count : nat)
    (parsed : option Z) : option (logger_log * Z) :=
  match parsed with
  | None => Some (log, - EINVAL)
  | Some p =>
      if LOG_PRIORITY_SILENT <? p then Some (log, - EINVAL) else
      let log' := if negb (p =? priority log)
        then set_tags log p ((fun t => mk_tag (t_name t) p (t_enabled t)) <$> tags log)
        else log in
      n ← strnlen buf count; Some (log', n)
  end.

Definition store_global_flush (log : logger_log) (buf : list Z) (count : nat)
    : option (logger_log * Z) :=
  n ← strnlen buf count; Some (flush_log log, n).

(** The stores of one tag's own attributes; [i] is the tag's place in the list. *)
Definition upd_tag (log : logger_log) (i : nat) (f : logger_tag -> logger_tag) : logger_log :=
  set_tags log (priority log) (alter f i (tags log)).

Definition store_tag_enable (log : logger_log) (i : nat) (buf : list Z) (count : nat)
    (parsed : option Z) : option (logger_log * Z) :=
  match parsed with
  | None => Some (log, - EINVAL)
  | Some e => n ← strnlen buf count; Some (upd_tag log i (fun t => mk_tag (t_name t) (t_priority t) e), n)
  end.

Definition store_tag_priority (log : logger_log) (i : nat) (buf : list Z) (count : nat)
    (parsed : option Z) : option (logger_log * Z) :=
  match parsed with
  | None => Some (log, - EINVAL)
  | Some p =>
      if LOG_PRIORITY_SILENT <? p then Some (log, - EINVAL) else
      n ← strnlen buf count; Some (upd_tag log i (fun t => mk_tag (t_name t) p (t_enabled t)), n)
  end.

(** [show_global_was_overrun] reads and clears the flag. *)
Definition show_global_was_overrun (log : logger_log) : logger_log * Z :=
  (set_readers log 0 (readers log), was_overrun log).

(** [DEFINE_LOGGER_DEVICE] followed by [init_log]'s two [atomic_set]s. *)
Definition new_log (sz default_priority default_enabled : Z) : logger_log :=
  mk_log (replicate (Z.to_nat sz) 0) 0 0 sz default_enabled default_priority 0 [] [].

(** ** Entries and the log invariant *)

(** A complete entry: a header whose length field counts the payload. *)
Definition entry_ok (e : list Z) : Prop :=
  bytes e /\ sizeof_logger_entry <= len e <= LOGGER_ENTRY_MAX_LEN /\
  len e = sizeof_logger_entry + (zat e 0 + 256 * zat e 1).

(** The entries between offset [off] and the write head. *)
Definition pending (log : logger_log) (off : Z) (es : list (list Z)) : Prop :=
  Forall entry_ok es /\ 0 <= off < size log /\ len (concat es) < size log /\
  ring_slice (buffer log) (size log) off (len (concat es)) = concat es /\
  (off + len (concat es)) mod size log = w_off log.

(** The ring is a power of two above LOGGER_ENTRY_MAX_LEN, and the default start
    and every reader stand at the start of complete entries. *)
Definition ring_ok (log : logger_log) : Prop :=
  (exists k, 13 <= k <= 30 /\ size log = 2 ^ k) /\ len (buffer log) = size log /\
  bytes (buffer log) /\ 0 <= w_off log < size log.

Definition log_inv (log : logger_log) : Prop :=
  ring_ok log /\ (exists es, pending log (head log) es) /\
  Forall (fun r => exists es, pending log (r_off r) es) (readers log).

Lemma ring_size log : ring_ok log -> 2 * LOGGER_ENTRY_MAX_LEN <= size log <= 2 ^ 30.
Proof.
  intros ((k & Hk & ->) & _). split; [|apply Z.pow_le_mono_r; lia].
  change (2 * LOGGER_ENTRY_MAX_LEN) with (2 ^ 13). apply Z.pow_le_mono_r; lia.
Qed.

Lemma logger_offset_mod log x : ring_ok log ->
  logger_offset log x = x mod size log /\ 0 <= x mod size log < size log.
Proof.
  intros H. pose proof (ring_size log H) as Hs. unfold LOGGER_ENTRY_MAX_LEN in Hs.
  destruct H as ((k & Hk & E) & _). unfold logger_offset.
  rewrite u32_id by (unfold is_u32; lia). rewrite E, land_mask by lia.
  split; [done|]. apply Z.mod_pos_bound. lia.
Qed.

Lemma pending_cons log off e es : pending log off (e :: es) ->
  entry_ok e /\ ring_slice (buffer log) (size log) off (len e) = e /\
  pending log ((off + len e) mod size log) es.
Proof.
  intros (Hf & Ho & Hl & Hs & Hw). apply Forall_cons in Hf as [He Hf].
  cbn [concat] in *. rewrite length_app, Nat2Z.inj_add in *.
  rewrite ring_slice_app in Hs by lia.
  apply app_inj_1 in Hs as [H1 H2].
  2:{ apply Nat2Z.inj. rewrite len_ring_slice; lia. }
  split; [done|]. split; [done|]. split; [done|].
  split; [apply Z.mod_pos_bound; lia|]. split; [lia|].
  split; [by rewrite ring_slice_mod by lia|].
  rewrite Zplus_mod_idemp_l. rewrite <- Hw. f_equal. lia.
Qed.

(** At an entry boundary [get_entry_len] reads the length of the next entry,
    also when its two length bytes straddle the end of the buffer. *)
Lemma get_entry_len_ok log off e es : ring_ok log -> pending log off (e :: es) ->
  get_entry_len log off = Some (len e).
Proof.
  intros Hr Hp. pose proof (ring_size log Hr) as Hs. unfold LOGGER_ENTRY_MAX_LEN in Hs.
  assert (Ho : 0 <= off < size log) by apply Hp.
  destruct (pending_cons _ _ _ _ Hp) as ((Hb & Hl & He) & Hsl & _).
  unfold sizeof_logger_entry, LOGGER_ENTRY_MAX_LEN in *.
  destruct Hr as (_ & Hbl & _ & _).
  assert (E : forall i, 0 <= i < len e -> zat e i = ring_at (buffer log) (size log) (off + i)).
  { intros i Hi. rewrite <- Hsl at 1. apply zat_ring_slice. lia. }
  rewrite He, !E by lia. unfold ring_at, get_entry_len.
  rewrite u32_id by (unfold is_u32; lia). rewrite Z.add_0_r, Z.mod_small by lia.
  destruct (Z.eqb_spec (size log - off) 1) as [E1|].
  - rewrite !zget_zat by lia. cbn [mbind option_bind].
    replace ((off + 1) mod size log) with 0 by (apply Z.mod_unique with 1; lia). done.
  - rewrite !zget_zat by lia. cbn [mbind option_bind]. rewrite Z.mod_small by lia. done.
Qed.

(** [get_next_entry] skips complete entries until at least [n] bytes are gone. *)
Lemma get_next_entry_ok log n : ring_ok log -> forall fuel off es count,
  pending log off es -> 0 <= count -> count + len (concat es) < 2 ^ 32 ->
  (Z.to_nat (n - count) < fuel)%nat -> count < n -> n - count <= len (concat es) ->
  exists k off', get_next_entry_loop fuel log off n count = Some off' /\
    pending log off' (drop k es) /\ n - count <= len (concat (take k es)).
Proof.
  intros Hr. pose proof (ring_size log Hr) as Hs. unfold LOGGER_ENTRY_MAX_LEN in Hs.
  induction fuel as [|fuel IH]; intros off es count Hp Hc0 Hc32 Hf Hcn Hle; [lia|].
  destruct es as [|e es]; [simpl in Hle; lia|].
  destruct (pending_cons _ _ _ _ Hp) as ((_ & Hel & _) & _ & Hp').
  unfold sizeof_logger_entry, LOGGER_ENTRY_MAX_LEN in Hel.
  assert (Ho : 0 <= off < size log) by apply Hp.
  cbn [get_next_entry_loop]. rewrite (get_entry_len_ok log off e es) by done.
  cbn [mbind option_bind]. rewrite (u32_id (off + len e)) by (unfold is_u32; lia).
  destruct (logger_offset_mod log (off + len e) Hr) as [-> _].
  cbn [concat] in Hle, Hc32. rewrite length_app, Nat2Z.inj_add in Hle, Hc32.
  rewrite (u32_id (count + len e)) by (unfold is_u32; lia).
  destruct (Z.ltb_spec (count + len e) n).
  - destruct (IH _ es (count + len e) Hp') as (k & off' & E & Hpk & Hk); try lia.
    exists (S k), off'. split; [done|]. split; [done|]. cbn [take concat].
    rewrite length_app. lia.
  - exists 1%nat. eexists. split; [done|]. split; [done|].
    cbn [take concat]. rewrite app_nil_r. lia.
Qed.

(** The distance from the write head to a pending offset decides [clock_interval]. *)
Lemma clock_interval_ok log off es n : ring_ok log -> pending log off es -> 0 < n < size log ->
  clock_interval (w_off log) ((w_off log + n) mod size log) off =
    (size log - len (concat es) <=? n).
Proof.
  intros Hr (_ & Ho & Hl & _ & Hw) Hn. destruct Hr as (_ & _ & _ & Hwo).
  rewrite mod_step by lia. rewrite mod_step in Hw by lia. unfold clock_interval.
  set (T := len (concat es)) in *.
  destruct (Z.ltb_spec (off + T) (size log)), (Z.ltb_spec (w_off log + n) (size log)); cbv iota in *;
    split_cmp; simpl; try lia; done.
Qed.

(** ** Writing entries *)

(** [written log bs log']: the bytes [bs] went into the ring at the write head. *)
Definition written (log : logger_log) (bs : list Z) (log' : logger_log) : Prop :=
  size log' = size log /\ head log' = head log /\ readers log' = readers log /\
  tags log' = tags log /\ enabled log' = enabled log /\ priority log' = priority log /\
  was_overrun log' = was_overrun log /\ ring_ok log' /\
  w_off log' = (w_off log + len bs) mod size log /\
  forall p, ring_at (buffer log') (size log) p =
    if (p - w_off log) mod size log <? len bs then zat bs ((p - w_off log) mod size log)
    else ring_at (buffer log) (size log) p.

Lemma do_write_log_ok log buf n : ring_ok log -> bytes buf -> 0 <= n <= len buf -> n <= size log ->
  exists log', do_write_log log buf n = Some log' /\ written log (take (Z.to_nat n) buf) log'.
Proof.
  intros Hr Hbuf Hn Hns. pose proof (ring_size log Hr) as Hs. unfold LOGGER_ENTRY_MAX_LEN in Hs.
  pose proof Hr as (Hk & Hbl & Hb & Hw).
  unfold do_write_log. destruct (Z.ltb_spec (len buf) n); [lia|].
  destruct (Z.ltb_spec (size log) n); [lia|].
  rewrite (u32_id (size log - w_off log)) by (unfold is_u32; lia).
  destruct (ring_put_spec (buffer log) (size log) (w_off log) buf n)
    as (m' & Hput & Hml & Hmt); try lia.
  assert (Hmb := ring_put_bytes _ _ _ _ _ _ Hput Hb Hbuf).
  unfold ring_put in Hput.
  destruct (mem_write (buffer log) (w_off log) _) as [b1|]; cbn [mbind option_bind] in *; [|done].
  rewrite (u32_id (n - _)) by (unfold is_u32; lia).
  assert (E : (if negb (n =? n `min` (size log - w_off log)) then
      mem_write b1 0 (take (Z.to_nat (n - n `min` (size log - w_off log)))
        (drop (Z.to_nat (n `min` (size log - w_off log))) buf)) else Some b1) = Some m').
  { destruct (Z.eqb_spec n (n `min` (size log - w_off log))) as [E|]; cbn [negb]; [|done].
    rewrite <- E, Z.sub_diag in Hput. cbn [Z.to_nat take] in Hput.
    unfold mem_write in Hput. destruct (_ && _); [|done]. cbn in Hput. by rewrite drop_0 in Hput. }
  rewrite E. cbn [mbind option_bind]. rewrite (u32_id (w_off log + n)) by (unfold is_u32; lia).
  destruct (logger_offset_mod log (w_off log + n) Hr) as [-> Hwr].
  eexists; split; [done|].
  assert (Hlt : len (take (Z.to_nat n) buf) = n) by (rewrite length_take; lia).
  repeat (split; [done|]). rewrite Hlt. split; [|split; [done|]].
  - split; [done|]. simpl. split; [lia|]. split; [done|]. done.
  - intros p. simpl. rewrite Hmt. destruct (Z.ltb_spec ((p - w_off log) mod size log) n); [|done].
    rewrite zat_take. destruct (Z.ltb_spec ((p - w_off log) mod size log) (Z.of_nat (Z.to_nat n)));
      [done|lia].
Qed.

(** Two writes in a row are one write of both byte strings. *)
Lemma written_app log a log1 b log2 : written log a log1 -> written log1 b log2 ->
  ring_ok log -> len a + len b <= size log -> written log (a ++ b) log2.
Proof.
  intros (S1 & H1 & R1 & T1 & E1 & P1 & O1 & K1 & W1 & B1)
         (S2 & H2 & R2 & T2 & E2 & P2 & O2 & K2 & W2 & B2) Hr Hl.
  pose proof (ring_size log Hr) as Hs. unfold LOGGER_ENTRY_MAX_LEN in Hs.
  rewrite S1 in *.
  do 7 (split; [congruence|]). rewrite length_app, Nat2Z.inj_add. split; [done|]. split.
  { rewrite W2, W1, Zplus_mod_idemp_l. f_equal. lia. }
  intros p. rewrite B2, B1, W1, zat_app.
  assert (E : (p - (w_off log + len a) mod size log) mod size log =
              ((p - w_off log) mod size log - len a) mod size log).
  { rewrite Zminus_mod_idemp_r, Zminus_mod_idemp_l. f_equal. lia. }
  rewrite E. pose proof (Z.mod_pos_bound (p - w_off log) (size log) ltac:(lia)).
  set (q := (p - w_off log) mod size log) in *.
  destruct (Z.ltb_spec q (len a)).
  - replace ((q - len a) mod size log) with (q - len a + size log)
      by (apply Z.mod_unique with (-1); lia).
    destruct (Z.ltb_spec (q - len a + size log) (len b)), (Z.ltb_spec q (len a + len b));
      try lia; done.
  - rewrite Z.mod_small by lia.
    destruct (Z.ltb_spec (q - len a) (len b)), (Z.ltb_spec q (len a + len b)); try lia; done.
Qed.

(** A written entry goes to the end of what is pending, if it fits. *)
Lemma pending_written log off es e log' : ring_ok log -> pending log off es -> entry_ok e ->
  len (concat es) + len e < size log -> written log e log' -> pending log' off (es ++ [e]).
Proof.
  intros Hr (Hf & Ho & Hl & Hsl & Hw) He Hfit (S1 & _ & _ & _ & _ & _ & _ & _ & W1 & B1).
  assert (Hcat : concat (es ++ [e]) = concat es ++ e) by (rewrite concat_app; simpl; by rewrite app_nil_r).
  set (T := len (concat es)) in *.
  unfold pending. rewrite S1, Hcat, length_app, Nat2Z.inj_add. fold T.
  assert (P : forall j, 0 <= j < size log ->
    (off + j - w_off log) mod size log = (j - T) mod size log).
  { intros j Hj. rewrite <- Hw, Zminus_mod_idemp_r. f_equal. lia. }
  split; [apply Forall_app; split; [done|by constructor]|].
  split; [done|]. split; [lia|]. split.
  - apply zlist_ext.
    { apply Nat2Z.inj. rewrite len_ring_slice, length_app by lia. lia. }
    intros j Hj. rewrite len_ring_slice in Hj by lia. rewrite zat_ring_slice by lia.
    rewrite B1, P, zat_app by lia. fold T. destruct (Z.ltb_spec j T).
    + replace ((j - T) mod size log) with (j - T + size log) by (apply Z.mod_unique with (-1); lia).
      destruct (Z.ltb_spec (j - T + size log) (len e)); [lia|].
      rewrite <- Hsl. rewrite zat_ring_slice by lia. done.
    + rewrite Z.mod_small by lia. destruct (Z.ltb_spec (j - T) (len e)); [done|lia].
  - rewrite W1, <- Hw, Zplus_mod_idemp_l. f_equal. lia.
Qed.

(** Dropping entries from the front, as [fix_up_readers] does, keeps the rest. *)
Definition survives (log : logger_log) (es es' : list (list Z)) (n : Z) : Prop :=
  exists k, es' = drop k es /\ len (concat es') + n < size log /\
    (len (concat es) + n < size log -> es' = es).

(** One reader (or the default start) after [fix_up_readers]. *)
Lemma fix_up_one log off es n : ring_ok log -> pending log off es ->
  0 < n <= LOGGER_ENTRY_MAX_LEN ->
  if clock_interval (w_off log) ((w_off log + n) mod size log) off
  then exists off' es', get_next_entry log off n = Some off' /\ pending log off' es' /\
         survives log es es' n
  else survives log es es n.
Proof.
  intros Hr Hp Hn. pose proof (ring_size log Hr) as Hs.
  rewrite (clock_interval_ok log off es) by (done || (unfold LOGGER_ENTRY_MAX_LEN in *; lia)).
  unfold LOGGER_ENTRY_MAX_LEN in *. assert (Hl : len (concat es) < size log) by apply Hp.
  destruct (Z.leb_spec (size log - len (concat es)) n).
  - destruct (get_next_entry_ok log n Hr (S (Z.to_nat n)) off es 0) as (k & off' & E & Hp' & Hk);
      try done; try lia.
    exists off', (drop k es). split; [done|]. split; [done|]. exists k. split; [done|].
    assert (Hc : len (concat es) = len (concat (take k es)) + len (concat (drop k es))).
    { rewrite <- (take_drop k es) at 1. rewrite concat_app, length_app. lia. }
    split; [lia|]. intros; lia.
  - exists 0%nat. split; [by rewrite drop_0|]. split; [lia|done].
Qed.

Lemma pending_ext log log' off es : buffer log' = buffer log -> size log' = size log ->
  w_off log' = w_off log -> pending log off es -> pending log' off es.
Proof. unfold pending. intros -> -> ->. done. Qed.

(** [moved log n off off']: an offset before and after [fix_up_readers]. *)
Definition moved (log : logger_log) (n off off' : Z) : Prop :=
  forall es, pending log off es -> exists es', pending log off' es' /\ survives log es es' n.

Lemma moved_intro log off n : ring_ok log -> 0 < n <= LOGGER_ENTRY_MAX_LEN ->
  (exists es, pending log off es) ->
  if clock_interval (w_off log) ((w_off log + n) mod size log) off
  then exists off', get_next_entry log off n = Some off' /\ moved log n off off'
  else moved log n off off.
Proof.
  intros Hr Hn [es0 H0].
  assert (H : forall es, pending log off es -> _) by
    (intros es Hes; exact (fix_up_one log off es n Hr Hes Hn)).
  destruct (clock_interval _ _ off).
  - destruct (H es0 H0) as (off' & es' & E & _). exists off'. split; [done|].
    intros es Hes. destruct (H es Hes) as (off2 & es2 & E2 & ? & ?).
    rewrite E in E2. injection E2 as <-. eauto.
  - intros es Hes. eauto.
Qed.

Lemma fix_readers_ok log n rs : ring_ok log -> 0 < n <= LOGGER_ENTRY_MAX_LEN ->
  Forall (fun r => exists es, pending log (r_off r) es) rs ->
  exists o out, fix_readers log (w_off log) ((w_off log + n) mod size log) n rs = Some (o, out) /\
    Forall2 (fun r r' => r_id r' = r_id r /\ moved log n (r_off r) (r_off r') /\
      (r' = r \/ fixed r' = 1)) rs out.
Proof.
  intros Hr Hn. induction 1 as [|r rs Hp _ (o & out & IH & IH2)]; cbn [fix_readers].
  { do 2 eexists; split; [done|]. constructor. }
  pose proof (moved_intro log (r_off r) n Hr Hn Hp) as Hm.
  destruct (clock_interval _ _ (r_off r)).
  - destruct Hm as (off' & -> & Hm). rewrite IH. cbn. do 2 eexists; split; [done|].
    constructor; [|done]. simpl. auto.
  - rewrite IH. cbn. do 2 eexists; split; [done|]. constructor; [|done]. auto.
Qed.

Definition reader_moved (log : logger_log) (n : Z) (r r' : logger_reader) : Prop :=
  r_id r' = r_id r /\ moved log n (r_off r) (r_off r') /\ (r' = r \/ fixed r' = 1).

Lemma fix_up_readers_ok log n : log_inv log -> 0 < n <= LOGGER_ENTRY_MAX_LEN ->
  exists log', fix_up_readers log n = Some log' /\
    buffer log' = buffer log /\ size log' = size log /\ w_off log' = w_off log /\
    tags log' = tags log /\ enabled log' = enabled log /\ priority log' = priority log /\
    moved log n (head log) (head log') /\
    Forall2 (reader_moved log n) (readers log) (readers log').
Proof.
  intros (Hr & Hh & Hrs) Hn. pose proof (ring_size log Hr) as Hs.
  unfold fix_up_readers. unfold LOGGER_ENTRY_MAX_LEN in *. destruct Hr as (Hk & Hbl & Hb & Hw) eqn:EH.
  rewrite (u32_id (w_off log + n)) by (unfold is_u32; lia).
  assert (Hr' : ring_ok log) by done.
  destruct (logger_offset_mod log (w_off log + n) Hr') as [-> _].
  pose proof (moved_intro log (head log) n Hr' Hn Hh) as Hm.
  destruct (clock_interval _ _ (head log)).
  - destruct Hm as (h & -> & Hm). cbn [mbind option_bind].
    set (log1 := set_head log h _).
    assert (Hr1 : ring_ok log1) by done.
    destruct (fix_readers_ok log1 n (readers log) Hr1 Hn) as (o & out & E & F).
    { eapply Forall_impl; [exact Hrs|]. intros r [es He]. exists es. by apply (pending_ext log). }
    change (w_off log1) with (w_off log) in E. change (size log1) with (size log) in E.
    change (readers log1) with (readers log). rewrite E. cbn. eexists; split; [done|]. simpl.
    repeat (split; [done|]). eapply Forall2_impl; [exact F|].
    intros r r' (? & Hm' & ?). split; [done|]. split; [|done]. intros es Hes.
    destruct (Hm' es) as (es' & ? & ?); [by apply (pending_ext log)|].
    exists es'. split; [by apply (pending_ext log1)|done].
  - cbn [mbind option_bind].
    destruct (fix_readers_ok log n (readers log) Hr' Hn Hrs) as (o & out & E & F).
    rewrite E. cbn. eexists; split; [done|]. simpl. repeat (split; [done|]). done.
Qed.

(** [appended log log' e]: the entry [e] is the newest for everyone; what else
    is pending is what was, less the oldest entries when [e] does not fit. *)
Definition appended (log log' : logger_log) (e : list Z) : Prop :=
  let grows off off' := forall es, pending log off es ->
    exists es', survives log es es' (len e) /\ pending log' off' (es' ++ [e]) in
  grows (head log) (head log') /\
  Forall2 (fun r r' => r_id r' = r_id r /\ grows (r_off r) (r_off r') /\
    (fixed r' = 1 \/ r' = r /\ forall es, pending log (r_off r) es ->
                               pending log' (r_off r) (es ++ [e])))
    (readers log) (readers log').

(** The number of bytes pending at an offset is determined by the write head. *)
Lemma pending_len_unique log off es es' : pending log off es -> pending log off es' ->
  len (concat es) = len (concat es').
Proof.
  intros (_ & Ho & Hl & _ & Hw) (_ & _ & Hl' & _ & Hw').
  rewrite <- Hw in Hw'. rewrite !mod_step in Hw' by lia.
  destruct (Z.ltb_spec (off + len (concat es)) (size log)),
    (Z.ltb_spec (off + len (concat es')) (size log)); lia.
Qed.

(** A reader that [fix_up_readers] left in place loses nothing. *)
Lemma moved_same log n off es : moved log n off off -> pending log off es ->
  len (concat es) + n < size log.
Proof.
  intros Hm Hp. destruct (Hm es Hp) as (es' & Hp' & k & _ & Hf & _).
  rewrite (pending_len_unique log off es es') by done. done.
Qed.

Lemma append_entry log log1 log2 e : log_inv log -> entry_ok e ->
  fix_up_readers log (len e) = Some log1 -> written log1 e log2 ->
  log_inv log2 /\ appended log log2 e.
Proof.
  intros Hi He Hfix Hwr. pose proof He as (_ & Hel & _). pose proof Hi as (Hr & Hh & Hrs).
  unfold sizeof_logger_entry in Hel.
  destruct (fix_up_readers_ok log (len e) Hi) as
    (log1' & E & Eb & Es & Ew & Et & Een & Epr & Hmh & Hmr); [lia|].
  rewrite Hfix in E. injection E as <-.
  assert (Hr1 : ring_ok log1) by (unfold ring_ok in *; rewrite Eb, Es, Ew; done).
  pose proof Hwr as (S2 & H2 & R2 & _ & _ & _ & _ & K2 & _ & _).
  assert (Hgrow : forall off off', moved log (len e) off off' -> forall es, pending log off es ->
    exists es', survives log es es' (len e) /\ pending log2 off' (es' ++ [e])).
  { intros off off' Hm es Hes. destruct (Hm es Hes) as (es' & Hp' & Hsv). exists es'.
    split; [done|]. destruct Hsv as (k & _ & Hfit & _).
    apply (pending_written log1); try done; [by apply (pending_ext log)|]. rewrite Es. done. }
  assert (Happ : appended log log2 e).
  { split; rewrite ?H2, ?R2; [by apply Hgrow|]. eapply Forall2_impl; [exact Hmr|].
    intros r r' (? & Hm & Hd). split; [done|]. split; [by apply Hgrow|].
    destruct Hd as [->|]; [|by left]. right. split; [done|]. intros es Hes.
    apply (pending_written log1); try done; [by apply (pending_ext log)|].
    rewrite Es. by apply (moved_same log _ (r_off r)). }
  split; [|done]. split; [done|]. destruct Happ as [Hah Har]. split.
  - destruct Hh as [es Hes]. destruct (Hah es Hes) as (es' & _ & ?). eauto.
  - clear - Hrs Har. induction Har as [|r r' rs rs' (_ & Hg & _) _ IH]; [constructor|].
    apply Forall_cons in Hrs as [[es Hes] Hrs]. constructor; [|by apply IH].
    destruct (Hg es Hes) as (es' & _ & ?). eauto.
Qed.

Lemma len_header n env : len (header_bytes n env) = 20.
Proof. done. Qed.

Lemma header_entry_ok hlen env payload : 0 <= hlen <= LOGGER_ENTRY_MAX_PAYLOAD ->
  len payload = hlen -> bytes payload -> entry_ok (header_bytes hlen env ++ payload).
Proof.
  unfold LOGGER_ENTRY_MAX_PAYLOAD, LOGGER_ENTRY_MAX_LEN, sizeof_logger_entry. intros Hh Hl Hb.
  split; [|split].
  - apply Forall_app; split; [|done].
    unfold header_bytes, le16, le32. repeat (constructor; [apply u8_range|]). constructor.
  - rewrite length_app, Nat2Z.inj_add, len_header.
    unfold sizeof_logger_entry, LOGGER_ENTRY_MAX_LEN. lia.
  - rewrite length_app, Nat2Z.inj_add, len_header, !zat_app, len_header.
    unfold sizeof_logger_entry. change (0 <? 20) with true. change (1 <? 20) with true.
    change (zat (header_bytes hlen env) 0) with (u8 hlen).
    change (zat (header_bytes hlen env) 1) with (u8 (hlen / 2 ^ 8)).
    unfold u8, wrap. change (2 ^ 8) with 256. Z.to_euclidean_division_equations. lia.
Qed.

(** The writes of one entry after [fix_up_readers]: header, then payload pieces. *)
Lemma write_pieces log pieces : ring_ok log ->
  Forall (fun '(b, n) => bytes b /\ 0 <= n <= len b) pieces ->
  len (concat ((fun '(b, n) => take (Z.to_nat n) b) <$> pieces)) <= size log ->
  exists log', foldl (fun o '(b, n) => l ← o; do_write_log l b n) (Some log) pieces = Some log' /\
    written log (concat ((fun '(b, n) => take (Z.to_nat n) b) <$> pieces)) log'.
Proof.
  revert log. induction pieces as [|[b n] ps IH]; intros log Hr Hp Hl; cbn [foldl].
  - exists log. split; [done|]. pose proof Hr as (_ & _ & _ & Hw).
    unfold written. do 7 (split; [reflexivity|]). split; [exact Hr|].
    cbn [fmap list_fmap concat length Z.of_nat]. split.
    + rewrite Z.add_0_r, Z.mod_small by lia. done.
    + intros p. pose proof (Z.mod_pos_bound (p - w_off log) (size log) ltac:(lia)).
      change (Z.of_nat 0) with 0. by rewrite (proj2 (Z.ltb_ge _ 0)) by lia.
  - apply Forall_cons in Hp as [[Hb Hn] Hp]. rewrite fmap_cons in *. cbn [concat] in *.
    rewrite length_app, Nat2Z.inj_add in Hl.
    assert (Hlt : len (take (Z.to_nat n) b) = n) by (rewrite length_take; lia).
    destruct (do_write_log_ok log b n) as (log1 & E1 & W1); try done; [lia|].
    cbn [mbind option_bind]. rewrite E1.
    pose proof W1 as (S1 & _ & _ & _ & _ & _ & _ & K1 & _).
    destruct (IH log1 K1 Hp) as (log2 & E2 & W2); [rewrite S1; lia|].
    exists log2. split; [done|]. apply (written_app log _ log1); try done; lia.
Qed.

Lemma write_events_ok log env buf n : log_inv log -> bytes buf -> 0 <= n ->
  let hlen := Z.min n LOGGER_ENTRY_MAX_PAYLOAD in hlen <= len buf ->
  exists log', write_log_entry_events log env buf n = Some (log', hlen) /\ log_inv log' /\
    appended log log' (header_bytes hlen env ++ take (Z.to_nat hlen) buf).
Proof.
  intros Hi Hb Hn hlen Hl. unfold write_log_entry_events.
  unfold LOGGER_ENTRY_MAX_PAYLOAD, LOGGER_ENTRY_MAX_LEN, sizeof_logger_entry in *.
  rewrite u16_id by (unfold is_u16; lia). fold hlen.
  assert (Hlt : len (take (Z.to_nat hlen) buf) = hlen) by (rewrite length_take; lia).
  set (e := header_bytes hlen env ++ take (Z.to_nat hlen) buf).
  assert (He : entry_ok e).
  { apply header_entry_ok; [|done|by apply Forall_take].
    unfold LOGGER_ENTRY_MAX_PAYLOAD, LOGGER_ENTRY_MAX_LEN, sizeof_logger_entry. lia. }
  assert (Hle : 20 + hlen = len e) by (unfold e; rewrite length_app, Nat2Z.inj_add, len_header; lia).
  rewrite Hle. pose proof He as (_ & Hel & _).
  destruct (fix_up_readers_ok log (len e) Hi) as (log1 & E1 & Eb & Es & Ew & _);
    [unfold sizeof_logger_entry in Hel; lia|].
  rewrite E1. cbn [mbind option_bind].
  assert (Hr1 : ring_ok log1) by (unfold ring_ok; rewrite Eb, Es, Ew; apply Hi).
  pose proof (ring_size log1 Hr1) as Hs1. unfold LOGGER_ENTRY_MAX_LEN in Hs1, Hel.
  destruct (write_pieces log1 [(header_bytes hlen env, 20); (buf, hlen)]) as (log2 & E2 & W2);
    [done| |cbn [fmap list_fmap concat]; rewrite app_nil_r;
      change (take (Z.to_nat 20) (header_bytes hlen env)) with (header_bytes hlen env);
      fold e; lia|].
  { repeat constructor; simpl; try apply u8_range; try done; lia. }
  cbn [foldl mbind option_bind] in E2. cbn [fmap list_fmap concat] in W2.
  rewrite app_nil_r in W2. change (take (Z.to_nat 20) (header_bytes hlen env))
    with (header_bytes hlen env) in W2. fold e in W2.
  destruct (do_write_log log1 (header_bytes hlen env) 20) as [l|]; [|done].
  cbn [mbind option_bind] in *. rewrite E2. cbn [mbind option_bind].
  eexists; split; [done|]. by apply (append_entry log log1).
Qed.

Lemma write_mainradio_ok log env prio tag tb msg mb : log_inv log ->
  is_u8 prio -> bytes tag -> bytes msg -> 0 <= tb <= len tag -> 0 <= mb <= len msg ->
  let hlen := tb + mb + 1 in hlen <= LOGGER_ENTRY_MAX_PAYLOAD ->
  exists log', write_log_entry_mainradio log env prio tag tb msg mb = Some (log', hlen) /\
    log_inv log' /\
    appended log log'
      (header_bytes hlen env ++ prio :: take (Z.to_nat tb) tag ++ take (Z.to_nat mb) msg).
Proof.
  intros Hi Hpr Htag Hmsg Htb Hmb hlen Hmax. unfold write_log_entry_mainradio.
  unfold LOGGER_ENTRY_MAX_PAYLOAD, LOGGER_ENTRY_MAX_LEN, sizeof_logger_entry in *. fold hlen.
  rewrite Z.min_l, u16_id by (unfold is_u16; lia).
  set (e := header_bytes hlen env ++ prio :: take (Z.to_nat tb) tag ++ take (Z.to_nat mb) msg).
  assert (Hpl : len (prio :: take (Z.to_nat tb) tag ++ take (Z.to_nat mb) msg) = hlen).
  { cbn [length]. rewrite length_app, !length_take. lia. }
  assert (He : entry_ok e).
  { apply header_entry_ok; [|done|].
    - unfold LOGGER_ENTRY_MAX_PAYLOAD, LOGGER_ENTRY_MAX_LEN, sizeof_logger_entry. lia.
    - constructor; [done|]. apply Forall_app; split; by apply Forall_take. }
  assert (Hle : 20 + hlen = len e) by (unfold e; rewrite length_app, Nat2Z.inj_add, len_header; lia).
  rewrite Hle. pose proof He as (_ & Hel & _).
  destruct (fix_up_readers_ok log (len e) Hi) as (log1 & E1 & Eb & Es & Ew & _);
    [unfold sizeof_logger_entry in Hel; lia|].
  rewrite E1. cbn [mbind option_bind].
  assert (Hr1 : ring_ok log1) by (unfold ring_ok; rewrite Eb, Es, Ew; apply Hi).
  pose proof (ring_size log1 Hr1) as Hs1. unfold LOGGER_ENTRY_MAX_LEN in Hs1, Hel.
  destruct (write_pieces log1 [(header_bytes hlen env, 20); ([prio], 1); (tag, tb); (msg, mb)])
    as (log2 & E2 & W2).
  - done.
  - repeat constructor; simpl; try apply u8_range; try done; try lia; apply Hpr.
  - cbn [fmap list_fmap concat]. rewrite app_nil_r. change (take (Z.to_nat 20) (header_bytes hlen env))
      with (header_bytes hlen env). change (take (Z.to_nat 1) [prio]) with [prio]. cbn [app].
    fold e. lia.
  - cbn [foldl mbind option_bind] in E2. cbn [fmap list_fmap concat] in W2.
    rewrite app_nil_r in W2. change (take (Z.to_nat 20) (header_bytes hlen env))
      with (header_bytes hlen env) in W2. fold e in W2.
    do 3 (destruct (do_write_log _ _ _) as [?|]; [|done]; cbn [mbind option_bind] in * ).
    rewrite E2. cbn [mbind option_bind]. eexists; split; [done|]. by apply (append_entry log log1).
Qed.

(** ** Reading entries *)

Lemma find_reader_elem log id r : find_reader log id = Some r -> r_id r = id /\ r ∈ readers log.
Proof.
  unfold find_reader. destruct (list_find _ _) as [[i x]|] eqn:E; [|done].
  intros [= <-]. apply list_find_Some in E as (H1 & H2 & _). split; [done|].
  by apply list_elem_of_lookup_2 with i.
Qed.

Lemma find_reader_NoDup log r : NoDup (r_id <$> readers log) -> r ∈ readers log ->
  find_reader log (r_id r) = Some r.
Proof.
  unfold find_reader. induction (readers log) as [|x xs IH]; [by rewrite elem_of_nil|].
  rewrite fmap_cons, NoDup_cons. intros [Hx Hnd] [->|Hin]%elem_of_cons; simpl.
  - by rewrite decide_True by done.
  - rewrite decide_False.
    2:{ intros E. apply Hx. rewrite E. by apply list_elem_of_fmap_2. }
    specialize (IH Hnd Hin). by destruct (list_find _ xs) as [[? ?]|].
Qed.

(** The reader of [id] moved past the entry of [n] bytes at [off]. *)
Definition advance (log : logger_log) (id : nat) (off n : Z) : logger_log :=
  upd_reader log id (fun r => mk_reader (r_id r) ((off + n) mod size log) 0).

(** The copy hands out exactly the first pending entry and steps over it, when
    the length it was given is the entry's or the reader was marked [fixed]. *)
Lemma do_read_ok log id r e es n copy_ok : ring_ok log -> find_reader log id = Some r ->
  pending log (r_off r) (e :: es) -> (fixed r = 0 -> n = len e) ->
  do_read_log_to_user log id n true copy_ok =
    Some (advance log id (r_off r) (len e),
          if copy_ok then mk_res n e else mk_res (- EFAULT) []).
Proof.
  intros Hr Hfr Hp Hn. pose proof (ring_size log Hr) as Hs. unfold LOGGER_ENTRY_MAX_LEN in Hs.
  destruct (pending_cons _ _ _ _ Hp) as ((_ & Hel & _) & Hsl & _).
  unfold LOGGER_ENTRY_MAX_LEN, sizeof_logger_entry in Hel.
  assert (Ho : 0 <= r_off r < size log) by apply Hp.
  unfold do_read_log_to_user. rewrite Hfr. cbn [negb mbind option_bind].
  assert (E : (if negb (fixed r =? 0) then get_entry_len log (r_off r) else Some n) = Some (len e)).
  { destruct (Z.eqb_spec (fixed r) 0) as [Hf|]; cbn [negb]; [by rewrite (Hn Hf)|].
    by apply (get_entry_len_ok log _ e es). }
  rewrite E. cbn [mbind option_bind]. rewrite (u32_id (size log - r_off r)) by (unfold is_u32; lia).
  pose proof (ring_get_spec (buffer log) (size log) (r_off r) (len e)) as Hg.
  rewrite Hsl in Hg. specialize (Hg (proj1 (proj2 Hr)) Ho ltac:(lia)). unfold ring_get in Hg.
  destruct (mem_read (buffer log) (r_off r) _) as [a|]; cbn [mbind option_bind] in *; [|done].
  rewrite (u32_id (len e - _)) by (unfold is_u32; lia).
  assert (E2 : exists b, (if negb (len e =? len e `min` (size log - r_off r))
      then mem_read (buffer log) 0 (len e - len e `min` (size log - r_off r)) else Some [])
      = Some b /\ a ++ b = e).
  { destruct (Z.eqb_spec (len e) (len e `min` (size log - r_off r))) as [El|]; cbn [negb].
    - exists []. split; [done|]. rewrite <- El, Z.sub_diag in Hg. cbn in Hg.
      destruct (mem_read (buffer log) 0 0) as [b|] eqn:Eb; [|done]. cbn in Hg.
      injection Hg as <-. unfold mem_read in Eb. destruct (_ && _); [|done].
      injection Eb as <-. done.
    - destruct (mem_read (buffer log) 0 _) as [b|]; [|done]. injection Hg as Hg. eauto. }
  destruct E2 as (b & -> & Hab). cbn [mbind option_bind]. unfold LOGGER_ENTRY_MAX_LEN.
  destruct (Z.ltb_spec (4 * 1024) (len e)); [lia|].
  rewrite (u32_id (r_off r + len e)) by (unfold is_u32; lia).
  destruct (logger_offset_mod log (r_off r + len e) Hr) as [-> _]. rewrite Hab. done.
Qed.

(** ** Frames: what leaves the ring alone *)

Definition same_ring (log log' : logger_log) : Prop :=
  buffer log' = buffer log /\ size log' = size log /\ w_off log' = w_off log /\
  head log' = head log /\ readers log' = readers log.

Lemma same_ring_inv log log' : same_ring log log' -> log_inv log -> log_inv log'.
Proof.
  intros (E1 & E2 & E3 & E4 & E5) ((Hk & Hr) & [es Hh] & Hrs). split; [|split].
  - unfold ring_ok. rewrite E1, E2, E3. done.
  - rewrite E4. exists es. by apply (pending_ext log).
  - rewrite E5. eapply Forall_impl; [exact Hrs|]. intros r [es' ?]. exists es'.
    by apply (pending_ext log).
Qed.

Lemma get_tag_frame log name n kz kr de log' r :
  get_tag log name n kz kr de = Some (log', r) -> same_ring log log'.
Proof.
  unfold get_tag. destruct (lookup_tag _ _ _) as [[t|]|]; cbn [mbind option_bind]; [| |done].
  { intros [= <- <-]. done. }
  destruct kz; cbn [negb]; [|by intros [= <- <-]].
  destruct (mem_read _ _ _); cbn [mbind option_bind]; [|done].
  destruct (kr =? 0); by intros [= <- <-].
Qed.

Lemma check_tag_frame log prio name n kz kr de log' r :
  check_tag_and_priorities log prio name n kz kr de = Some (log', r) -> same_ring log log'.
Proof.
  unfold check_tag_and_priorities. destruct (1 <? n); [|by intros [= <- <-]].
  destruct (get_tag _ _ _ _ _ _) as [[l x]|] eqn:E; cbn [mbind option_bind]; [|done].
  intros [= <- <-]. by apply get_tag_frame in E.
Qed.

Lemma copy_segments_bytes iov : forall segs tb at_ left tb',
  Forall (fun v => forall bs, iov_base v = Some bs -> bytes bs) iov -> bytes tb ->
  copy_segments iov segs tb at_ left = Some (Some tb') -> bytes tb'.
Proof.
  induction iov as [|v iov IH]; intros [|segs] tb at_ left tb' Hi Hb; cbn [copy_segments];
    [by intros [= <-]|done|by intros [= <-]|].
  apply Forall_cons in Hi as [Hv Hi].
  destruct (_ =? 0); [by intros [= <-]|]. destruct (iov_base v) as [bs|]; [|done].
  destruct (mem_read bs 0 _) as [src|] eqn:E1; cbn [mbind option_bind]; [|done].
  destruct (mem_write tb at_ src) as [tb1|] eqn:E2; cbn [mbind option_bind]; [|done].
  intros H. eapply IH in H; [done|done|].
  eapply mem_write_bytes; [exact E2|done|]. eapply mem_read_bytes; [exact E1|by apply Hv].
Qed.

(** ** Whole write methods *)

(** What a write call leaves: the same ring, or one more complete entry. *)
Definition write_effect (log log' : logger_log) : Prop :=
  same_ring log log' \/
  exists e log0, same_ring log log0 /\ log_inv log' /\ appended log0 log' e.

Lemma do_write_log_bounds log buf n log' : do_write_log log buf n = Some log' -> n <= len buf.
Proof. unfold do_write_log. destruct (Z.ltb_spec (len buf) n); [done|lia]. Qed.

Lemma events_effect log env buf n log' r : log_inv log -> bytes buf -> 0 <= n ->
  write_log_entry_events log env buf n = Some (log', r) -> write_effect log log'.
Proof.
  intros Hi Hb Hn H. right.
  destruct (write_events_ok log env buf n Hi Hb Hn) as (log2 & E & Hi2 & Ha).
  - unfold write_log_entry_events in H.
    rewrite u16_id in H by (unfold is_u16, LOGGER_ENTRY_MAX_PAYLOAD, LOGGER_ENTRY_MAX_LEN,
      sizeof_logger_entry; lia).
    destruct (fix_up_readers _ _); cbn [mbind option_bind] in H; [|done].
    destruct (do_write_log _ (header_bytes _ _) _); cbn [mbind option_bind] in H; [|done].
    destruct (do_write_log _ buf _) eqn:E; cbn [mbind option_bind] in H; [|done].
    by apply do_write_log_bounds in E.
  - rewrite E in H. injection H as <- <-. do 2 eexists. split; [|split; [done|exact Ha]]. done.
Qed.

Lemma mainradio_effect log0 log env prio tag tb msg mb log' r : same_ring log0 log ->
  log_inv log -> is_u8 prio -> bytes tag -> bytes msg -> 0 <= tb -> 0 <= mb ->
  tb + mb + 1 <= LOGGER_ENTRY_MAX_PAYLOAD ->
  write_log_entry_mainradio log env prio tag tb msg mb = Some (log', r) -> write_effect log0 log'.
Proof.
  intros Hsr Hi Hp Ht Hm Htb Hmb Hmax H. right.
  assert (tb <= len tag /\ mb <= len msg).
  { unfold write_log_entry_mainradio in H.
    destruct (fix_up_readers _ _); cbn [mbind option_bind] in H; [|done].
    do 2 (destruct (do_write_log _ _ _); cbn [mbind option_bind] in H; [|done]).
    destruct (do_write_log _ tag _) eqn:E1; cbn [mbind option_bind] in H; [|done].
    destruct (do_write_log _ msg _) eqn:E2; cbn [mbind option_bind] in H; [|done].
    apply do_write_log_bounds in E1, E2. done. }
  destruct (write_mainradio_ok log env prio tag tb msg mb) as (log2 & E & Hi2 & Ha); try done; try lia.
  rewrite E in H. injection H as <- <-. do 2 eexists. split; [exact Hsr|]. done.
Qed.

Definition iov_ok (iov : list iovec) : Prop :=
  Forall (fun v => 0 <= iov_len v /\ forall bs, iov_base v = Some bs -> bytes bs) iov.

Lemma aio_write_effect log ev env iov left tb kz kr de log' r : log_inv log -> iov_ok iov ->
  0 <= left -> (forall b, tb = Some b -> bytes b) ->
  logger_aio_write log ev env iov left tb kz kr de = Some (log', r) -> write_effect log log'.
Proof.
  intros Hi Hiov Hleft Htb. unfold logger_aio_write.
  assert (Hsame : write_effect log log) by (left; done).
  destruct (enabled log =? 0); [by intros [= <- <-]|].
  set (total := Z.min left LOGGER_ENTRY_MAX_PAYLOAD).
  destruct (total =? 0); [by intros [= <- <-]|].
  destruct tb as [b|]; [|by intros [= <- <-]].
  destruct (copy_segments _ _ _ _ _) as [[b'|]|] eqn:E; cbn [mbind option_bind];
    [|by intros [= <- <-]|done].
  assert (Hb' : bytes b').
  { apply (copy_segments_bytes _ _ _ _ _ _) in E; [done| |by apply Htb].
    eapply Forall_impl; [exact Hiov|]. intros v [_ ?]. done. }
  destruct ev.
  { apply events_effect; try done. subst total.
    unfold LOGGER_ENTRY_MAX_PAYLOAD, LOGGER_ENTRY_MAX_LEN, sizeof_logger_entry. lia. }
  destruct iov as [|v0 [|v1 [|v2 iov]]]; [by intros [= <- <-]..|].
  apply Forall_cons in Hiov as [_ Hiov]. apply Forall_cons in Hiov as [[Hl1 _] Hiov].
  apply Forall_cons in Hiov as [[Hl2 _] _].
  destruct (iov_len v0 =? 1); cbn [negb]; [|by intros [= <- <-]].
  destruct (zget b' 0) as [prio|] eqn:Ep; cbn [mbind option_bind]; [|done].
  destruct (check_tag_and_priorities _ _ _ _ _ _ _) as [[log1 r1]|] eqn:Ec; cbn [mbind option_bind];
    [|done].
  apply check_tag_frame in Ec. assert (Hi1 : log_inv log1) by by apply (same_ring_inv log).
  destruct (r1 <=? 0); [intros [= <- <-]; by left|].
  destruct (Z.ltb_spec LOGGER_ENTRY_MAX_PAYLOAD (iov_len v1 + 1)); [intros [= <- <-]; by left|].
  apply mainradio_effect; try done; try by apply Forall_drop.
  - unfold zget in Ep. eapply Forall_lookup_1; [exact Hb'|]. exact Ep.
  - destruct (Z.ltb_spec LOGGER_ENTRY_MAX_PAYLOAD (iov_len v2 + iov_len v1 + 1)); lia.
  - destruct (Z.ltb_spec LOGGER_ENTRY_MAX_PAYLOAD (iov_len v2 + iov_len v1 + 1)); lia.
Qed.

Lemma kernel_write_effect log env prio tag msg kz kr de log' r : log_inv log -> is_u8 prio ->
  bytes tag -> (forall m, msg = Some m -> bytes m) ->
  kernel_logger_write log env prio tag msg kz kr de = Some (log', r) -> write_effect log log'.
Proof.
  intros Hi Hp Ht Hm. unfold kernel_logger_write.
  destruct (strlen tag) as [tl|] eqn:El; cbn [mbind option_bind]; [|done].
  destruct (enabled log =? 0); [intros [= <- <-]; by left|].
  destruct (check_tag_and_priorities _ _ _ _ _ _ _) as [[log1 r1]|] eqn:Ec; cbn [mbind option_bind];
    [|done].
  apply check_tag_frame in Ec. assert (Hi1 : log_inv log1) by by apply (same_ring_inv log).
  destruct (r1 <=? 0); [intros [= <- <-]; by left|].
  destruct msg as [m|]; [|intros [= <- <-]; by left].
  destruct (strlen m) as [ml|] eqn:Em; cbn [mbind option_bind]; [|done].
  destruct (Z.leb_spec (ml + 1) 1); [intros [= <- <-]; by left|].
  destruct (Z.ltb_spec LOGGER_ENTRY_MAX_PAYLOAD (ml + 1 + (tl + 1) + 1)); [intros [= <- <-]; by left|].
  apply mainradio_effect; try done; try lia; [by apply Hm|].
  apply strlen_nonneg in El. lia.
Qed.

(** ** Concurrent readers and writers *)

(** The shared log, and for each reader inside [logger_read] the entry length it
    computed before it dropped the lock. *)
Record lsys := mk_sys { sys_log : logger_log; peeks : gmap nat Z }.

(** One locked section of one of the methods (or the whole of [logger_release], which takes no lock).
    [logger_open] hands out a reader the list does not hold, and a file is not released under a read of it.  Two
    restrictions are not enforced by the driver, and it goes wrong without them ([log_stale_read_desync]): a file has one
    [logger_read] at a time, and the log is not flushed between the two halves of a read. *)
Inductive lstep : lsys -> lsys -> Prop :=
  | st_open log pk seek_ret known for_read km id fx log' r :
      id ∉ r_id <$> readers log ->
      logger_open log seek_ret known for_read km id fx = (log', r) ->
      lstep (mk_sys log pk) (mk_sys log' pk)
  | st_release log pk for_read id :
      pk !! id = None ->
      lstep (mk_sys log pk) (mk_sys (logger_release log for_read id) pk)
  | st_peek log pk id nonblock signal n :
      pk !! id = None -> logger_read_start log id nonblock signal = Some (RLen n) ->
      lstep (mk_sys log pk) (mk_sys log (<[id := n]> pk))
  | st_read log pk id count n km cp log' res :
      pk !! id = Some n -> logger_read_finish log id count n km cp = Some (log', res) ->
      lstep (mk_sys log pk) (mk_sys log' (delete id pk))
  | st_aio_write log pk ev env iov left tb kz kr de log' r :
      iov_ok iov -> 0 <= left -> (forall b, tb = Some b -> bytes b) ->
      logger_aio_write log ev env iov left tb kz kr de = Some (log', r) ->
      lstep (mk_sys log pk) (mk_sys log' pk)
  | st_kernel_write log pk env prio tag msg kz kr de log' r :
      is_u8 prio -> bytes tag -> (forall m, msg = Some m -> bytes m) ->
      kernel_logger_write log env prio tag msg kz kr de = Some (log', r) ->
      lstep (mk_sys log pk) (mk_sys log' pk)
  | st_ioctl log pk cmd mr mw id log' r :
      (cmd = LOGGER_FLUSH_LOG -> pk = ∅) ->
      logger_ioctl log cmd mr mw id = Some (log', r) ->
      lstep (mk_sys log pk) (mk_sys log' pk)
  | st_flush log pk buf count log' r :
      pk = ∅ -> store_global_flush log buf count = Some (log', r) ->
      lstep (mk_sys log pk) (mk_sys log' pk)
  | st_enable log pk buf count parsed log' r :
      store_global_enable log buf count parsed = Some (log', r) ->
      lstep (mk_sys log pk) (mk_sys log' pk)
  | st_priority log pk buf count parsed log' r :
      store_global_priority log buf count parsed = Some (log', r) ->
      lstep (mk_sys log pk) (mk_sys log' pk)
  | st_tag_enable log pk i buf count parsed log' r :
      store_tag_enable log i buf count parsed = Some (log', r) ->
      lstep (mk_sys log pk) (mk_sys log' pk)
  | st_tag_priority log pk i buf count parsed log' r :
      store_tag_priority log i buf count parsed = Some (log', r) ->
      lstep (mk_sys log pk) (mk_sys log' pk)
  | st_overrun log pk :
      lstep (mk_sys log pk) (mk_sys (fst (show_global_was_overrun log)) pk).

(** A read in flight: its reader has an entry to read, and unless the writer
    moved it the length it holds is that entry's. *)
Definition peek_ok (log : logger_log) (id : nat) (n : Z) : Prop :=
  exists r e es, r ∈ readers log /\ r_id r = id /\ pending log (r_off r) (e :: es) /\
    (fixed r = 0 -> n = len e).

Definition sys_inv (s : lsys) : Prop :=
  log_inv (sys_log s) /\ NoDup (r_id <$> readers (sys_log s)) /\
  forall id n, peeks s !! id = Some n -> peek_ok (sys_log s) id n.

Lemma same_ring_sys log log' pk : same_ring log log' -> sys_inv (mk_sys log pk) ->
  sys_inv (mk_sys log' pk).
Proof.
  intros Hs (Hi & Hnd & Hpk). pose proof Hs as (E1 & E2 & E3 & _ & E5). split; [|split]; simpl in *.
  - by apply (same_ring_inv log).
  - by rewrite E5.
  - intros id n Hid. destruct (Hpk id n Hid) as (r & e & es & Hr & Hrid & Hp & Hf).
    exists r, e, es. rewrite E5. repeat split_and?; try done. by apply (pending_ext log).
Qed.

Lemma appended_ids log log' e : appended log log' e ->
  r_id <$> readers log' = r_id <$> readers log.
Proof.
  intros [_ H]. induction H as [|r r' rs rs' (E & _) _ IH]; [done|].
  by rewrite !fmap_cons, E, IH.
Qed.

Lemma appended_peek log log' e id n : appended log log' e -> peek_ok log id n -> peek_ok log' id n.
Proof.
  intros [_ H] (r & e0 & es & Hr & Hid & Hp & Hf).
  apply list_elem_of_lookup_1 in Hr as [i Hi].
  destruct (Forall2_lookup_l _ _ _ _ _ H Hi) as (r' & Hi' & E & Hg & Hd).
  assert (Hin : r' ∈ readers log') by by apply list_elem_of_lookup_2 with i.
  destruct Hd as [Hfx|[-> Hk]].
  - destruct (Hg _ Hp) as (es' & _ & Hp'). destruct (es' ++ [e]) as [|a l] eqn:El;
      [by destruct es'|].
    exists r', a, l. repeat split_and?; try done; [congruence|]. rewrite Hfx. done.
  - exists r, e0, (es ++ [e]). repeat split_and?; try done. apply (Hk _ Hp).
Qed.

Lemma write_effect_sys log log' pk : write_effect log log' -> sys_inv (mk_sys log pk) ->
  sys_inv (mk_sys log' pk).
Proof.
  intros [Hs|(e & log0 & Hs & Hi & Ha)] Hinv; [by apply (same_ring_sys log)|].
  apply (same_ring_sys log log0) in Hinv as (_ & Hnd & Hpk); [|done]. split; [done|].
  simpl in *. split; [by rewrite (appended_ids _ _ _ Ha)|].
  intros id n Hid. apply (appended_peek log0 _ e); [done|]. by apply Hpk.
Qed.

(** After a read the reader stands at the next entry; nobody else moves. *)
Lemma advance_sys log pk id r e es : sys_inv (mk_sys log pk) -> find_reader log id = Some r ->
  pending log (r_off r) (e :: es) ->
  sys_inv (mk_sys (advance log id (r_off r) (len e)) (delete id pk)).
Proof.
  intros ((Hr & Hh & Hrs) & Hnd & Hpk) Hfr Hp. apply find_reader_elem in Hfr as [Hid Hin].
  destruct (pending_cons _ _ _ _ Hp) as (_ & _ & Hp'). simpl in *. split; [split; [|split]|split]; simpl.
  - done.
  - destruct Hh as [es' ?]. exists es'. by apply (pending_ext log).
  - apply Forall_fmap. eapply Forall_impl; [exact Hrs|]. intros x [es' Hx]. simpl.
    destruct (Nat.eqb (r_id x) id); simpl; [exists es|exists es']; by apply (pending_ext log).
  - rewrite <- list_fmap_compose. erewrite list_fmap_ext; [exact Hnd|].
    intros i x _. simpl. by destruct (Nat.eqb (r_id x) id).
  - intros id' n. rewrite lookup_delete_Some. intros [Hne Hl].
    destruct (Hpk id' n Hl) as (x & e1 & es1 & Hx & Hxid & Hxp & Hxf).
    exists x, e1, es1. repeat split_and?; try done.
    apply list_elem_of_fmap. exists x. split; [|done].
    by rewrite (proj2 (Nat.eqb_neq (r_id x) id)) by congruence.
Qed.

Lemma release_sys log pk for_read id : sys_inv (mk_sys log pk) -> pk !! id = None ->
  sys_inv (mk_sys (logger_release log for_read id) pk).
Proof.
  intros (Hi & Hnd & Hpk) Hid. destruct for_read; [|done]. pose proof Hi as (Hr & Hh & Hrs).
  simpl in *. split; [split; [|split]|split]; simpl.
  - done.
  - destruct Hh as [es ?]. exists es. by apply (pending_ext log).
  - apply Forall_forall. intros x [_ Hx]%list_elem_of_filter.
    rewrite Forall_forall in Hrs. destruct (Hrs x Hx) as [es ?]. exists es. by apply (pending_ext log).
  - apply (sublist_NoDup _ (r_id <$> readers log)); [exact Hnd|]. apply fmap_sublist, sublist_filter.
  - intros id' n Hl. destruct (Hpk id' n Hl) as (x & e & es & Hx & Hxid & Hxp & Hxf).
    exists x, e, es. repeat split_and?; try done.
    apply list_elem_of_filter. split; [|done]. apply Nat.eqb_neq. congruence.
Qed.

Lemma open_sys log pk sr known fr km id fx : sys_inv (mk_sys log pk) ->
  id ∉ r_id <$> readers log -> sys_inv (mk_sys (fst (logger_open log sr known fr km id fx)) pk).
Proof.
  intros Hinv Hid. unfold logger_open. destruct (sr =? 0); [|done]. destruct known; [|done].
  destruct fr, km; try done. destruct Hinv as ((Hr & Hh & Hrs) & Hnd & Hpk). simpl in *.
  split; [split; [|split]|split]; simpl.
  - done.
  - destruct Hh as [es ?]. exists es. by apply (pending_ext log).
  - apply Forall_app. split.
    + eapply Forall_impl; [exact Hrs|]. intros x [es ?]. exists es. by apply (pending_ext log).
    + constructor; [|constructor]. destruct Hh as [es ?]. exists es. by apply (pending_ext log).
  - rewrite fmap_app. apply NoDup_app. split; [done|]. split; [|apply NoDup_singleton].
    intros x Hx ->%list_elem_of_singleton. done.
  - intros id' n Hl. destruct (Hpk id' n Hl) as (x & e & es & Hx & Hxid & Hxp & Hxf).
    exists x, e, es. repeat split_and?; try done.
    apply elem_of_app. by left.
Qed.

Lemma flush_sys log : sys_inv (mk_sys log ∅) -> sys_inv (mk_sys (flush_log log) ∅).
Proof.
  intros ((Hr & Hh & Hrs) & Hnd & Hpk). simpl in *. pose proof Hr as (_ & _ & _ & Hw).
  assert (Hnil : pending (flush_log log) (w_off log) []).
  { split; [constructor|]. simpl. repeat split_and?; try lia; [done|].
    rewrite Z.add_0_r. apply Z.mod_small; lia. }
  split; [split; [|split]|split]; simpl.
  - done.
  - by exists [].
  - apply Forall_fmap, Forall_forall. intros x _. by exists [].
  - by rewrite <- list_fmap_compose.
  - intros id n. by rewrite lookup_empty.
Qed.

Lemma peek_read_ok log pk id count n log' res cp :
  sys_inv (mk_sys log pk) -> pk !! id = Some n -> n <= count ->
  logger_read_finish log id count n true cp = Some (log', res) ->
  exists r e es, find_reader log id = Some r /\ pending log (r_off r) (e :: es) /\
    log' = advance log id (r_off r) (len e) /\
    res = (if cp then mk_res n e else mk_res (- EFAULT) []).
Proof.
  intros (Hi & Hnd & Hpk) Hid Hc. destruct (Hpk id n Hid) as (r & e & es & Hin & <- & Hp & Hf).
  assert (Hfr : find_reader log (r_id r) = Some r) by by apply find_reader_NoDup.
  unfold logger_read_finish. destruct (Z.ltb_spec count n); [lia|].
  rewrite (do_read_ok log (r_id r) r e es n cp) by (done || apply Hi).
  intros [= <- <-]. by exists r, e, es.
Qed.

Lemma start_pending log id nb sg n : log_inv log ->
  logger_read_start log id nb sg = Some (RLen n) ->
  exists r e es, find_reader log id = Some r /\ pending log (r_off r) (e :: es) /\ n = len e.
Proof.
  intros (Hr & _ & Hrs). unfold logger_read_start.
  destruct (find_reader log id) as [r|] eqn:Hfr; cbn [mbind option_bind]; [|done].
  destruct (Z.eqb_spec (w_off log) (r_off r)); [by destruct nb, sg|].
  apply find_reader_elem in Hfr as [_ Hin]. rewrite Forall_forall in Hrs.
  destruct (Hrs r Hin) as [[|e es] Hp].
  { destruct Hp as (_ & Ho & _ & _ & Hw). simpl in Hw. rewrite Z.add_0_r, Z.mod_small in Hw by lia.
    congruence. }
  rewrite (get_entry_len_ok log _ e es) by done. cbn. intros [= <-]. by exists r, e, es.
Qed.

Lemma lstep_inv s s' : lstep s s' -> sys_inv s -> sys_inv s'.
Proof.
  intros Hst Hinv. destruct Hst as
    [log pk sr known fr km id fx log' r Hf E | log pk fr id Hid | log pk id nb sg n Hid E
    | log pk id count n km cp log' res Hid E | log pk ev env iov left tb kz kr de log' r H1 H2 H3 E
    | log pk env prio tag msg kz kr de log' r H1 H2 H3 E | log pk cmd mr mw id log' r Hc E
    | log pk buf count log' r Hc E
    | log pk buf count parsed log' r E | log pk buf count parsed log' r E
    | log pk i buf count parsed log' r E | log pk i buf count parsed log' r E | log pk].
  - rewrite (surjective_pairing (logger_open _ _ _ _ _ _ _)) in E. injection E as <- _.
    by apply open_sys.
  - by apply release_sys.
  - pose proof Hinv as (Hi & Hnd & Hpk). split; [done|]. split; [done|].
    destruct (start_pending _ _ _ _ _ Hi E) as (r & e & es & Hfr & Hp & ->).
    apply find_reader_elem in Hfr as [Hrid Hin]. intros id' n'.
    simpl. rewrite lookup_insert_Some. intros [[<- <-]|[_ Hl]]; [by exists r, e, es|by apply Hpk].
  - assert (Hdel : sys_inv (mk_sys log (delete id pk))).
    { destruct Hinv as (? & ? & Hpk). split; [done|]. split; [done|]. intros id' n'.
      simpl. rewrite lookup_delete_Some. intros [_ ?]. by apply Hpk. }
    destruct (Z.ltb_spec count n) as [Hlt|Hge].
    { unfold logger_read_finish in E. rewrite (proj2 (Z.ltb_lt _ _) Hlt) in E. by simplify_eq. }
    destruct km.
    2:{ unfold logger_read_finish in E. rewrite (proj2 (Z.ltb_ge _ _) Hge) in E.
        unfold do_read_log_to_user in E. simpl in E. by simplify_eq. }
    destruct (peek_read_ok _ _ _ _ _ _ _ _ Hinv Hid Hge E) as (r & e & es & Hfr & Hp & -> & _).
    by apply (advance_sys log pk id r e es).
  - apply (write_effect_sys log); [|done]. by eapply aio_write_effect; [apply Hinv| | | |exact E].
  - apply (write_effect_sys log); [|done]. by eapply kernel_write_effect; [apply Hinv| | | |exact E].
  - destruct cmd; simpl in E.
    + by simplify_eq.
    + destruct mr; simpl in E; [|by simplify_eq]. destruct (find_reader log id); by simplify_eq/=.
    + destruct mr; simpl in E; [|by simplify_eq]. destruct (find_reader log id); simplify_eq/=.
      destruct (negb _); [|by simplify_eq]. destruct (get_entry_len _ _); by simplify_eq/=.
    + destruct mw; simpl in E; [|by simplify_eq]. rewrite Hc in * by done. simplify_eq.
      by apply flush_sys.
    + by simplify_eq.
  - subst pk. unfold store_global_flush in E. destruct (strnlen _ _); simplify_eq/=. by apply flush_sys.
  - apply (same_ring_sys log); [|done]. unfold store_global_enable in E.
    destruct parsed; [|by simplify_eq]. destruct (strnlen _ _); by simplify_eq/=.
  - apply (same_ring_sys log); [|done]. unfold store_global_priority in E.
    destruct parsed as [p|]; [|by simplify_eq]. destruct (_ <? p); [by simplify_eq|].
    destruct (strnlen _ _); simplify_eq/=. by destruct (negb _).
  - apply (same_ring_sys log); [|done]. unfold store_tag_enable in E.
    destruct parsed; [|by simplify_eq]. destruct (strnlen _ _); by simplify_eq/=.
  - apply (same_ring_sys log); [|done]. unfold store_tag_priority in E.
    destruct parsed as [p|]; [|by simplify_eq]. destruct (_ <? p); [by simplify_eq|].
    destruct (strnlen _ _); by simplify_eq/=.
  - apply (same_ring_sys log); done.
Qed.

Lemma new_log_inv k pr en : 13 <= k <= 30 -> sys_inv (mk_sys (new_log (2 ^ k) pr en) ∅).
Proof.
  intros Hk. assert (0 < 2 ^ k) by lia.
  split; [split; [|split]|split]; simpl.
  - split; [by exists k|]. simpl. split; [rewrite length_replicate; lia|].
    split; [|lia]. apply Forall_replicate. unfold is_u8. lia.
  - exists []. split; [constructor|]. simpl. repeat split_and?; try lia; [done|].
    by apply Z.mod_small.
  - constructor.
  - constructor.
  - intros id n. by rewrite lookup_empty.
Qed.

Lemma reachable_inv k pr en s : 13 <= k <= 30 ->
  rtc lstep (mk_sys (new_log (2 ^ k) pr en) ∅) s -> sys_inv s.
Proof.
  intros Hk. remember (mk_sys (new_log (2 ^ k) pr en) ∅) as s0 eqn:E0.
  intros H. assert (H0 : sys_inv s0) by (subst; by apply new_log_inv). clear E0.
  induction H as [|s0 s1 s2 Hst _ IH]; [done|]. apply IH. by apply (lstep_inv s0).
Qed.

(** ** Theorems *)

(** C1: a write to a well-formed log (an events entry, or a main/radio entry made
    of priority, tag and message) succeeds and keeps the log well formed: the
    header with its length field and the payload become the newest entry seen
    from the default start and from every reader, whole and in order; older
    entries stay byte for byte, and only when the new entry does not fit are
    whole entries dropped, from the oldest on; a reader so moved is marked. *)
Theorem log_write_appends log env :
  log_inv log ->
  (forall buf n, bytes buf -> 0 <= n -> Z.min n LOGGER_ENTRY_MAX_PAYLOAD <= len buf ->
    let hlen := Z.min n LOGGER_ENTRY_MAX_PAYLOAD in
    exists log', write_log_entry_events log env buf n = Some (log', hlen) /\ log_inv log' /\
      appended log log' (header_bytes hlen env ++ take (Z.to_nat hlen) buf)) /\
  (forall prio tag tb msg mb, is_u8 prio -> bytes tag -> bytes msg -> 0 <= tb <= len tag ->
    0 <= mb <= len msg -> tb + mb + 1 <= LOGGER_ENTRY_MAX_PAYLOAD ->
    let hlen := tb + mb + 1 in
    exists log', write_log_entry_mainradio log env prio tag tb msg mb = Some (log', hlen) /\
      log_inv log' /\
      appended log log'
        (header_bytes hlen env ++ prio :: take (Z.to_nat tb) tag ++ take (Z.to_nat mb) msg)).
Proof.
  intros Hi. split.
  - intros. by apply write_events_ok.
  - intros. by apply write_mainradio_ok.
Qed.

Lemma log_write_appends_witness :
  exists log', write_log_entry_mainradio (new_log (2 ^ 13) 4 1) (mk_env 0 7 8 9 10) 3 [97; 0] 2
    [104; 105; 0] 3 = Some (log', 6) /\ log_inv log'.
Proof.
  destruct (log_write_appends (new_log (2 ^ 13) 4 1) (mk_env 0 7 8 9 10)
    (proj1 (new_log_inv 13 4 1 ltac:(lia)))) as [_ H].
  destruct (H 3 [97; 0] 2 [104; 105; 0] 3) as (log' & E & Hi & _).
  - unfold is_u8; lia.
  - repeat constructor; lia.
  - repeat constructor; lia.
  - simpl; lia.
  - simpl; lia.
  - unfold LOGGER_ENTRY_MAX_PAYLOAD, LOGGER_ENTRY_MAX_LEN, sizeof_logger_entry; lia.
  - exists log'. split; [exact E|exact Hi].
Defined.


(** A run of the device: open reader 0, log two entries of 10 and 4076 payload
    bytes on an 8 KiB log, size the first one in [logger_read], then log 4076
    bytes more, which overruns the reader. *)
Definition event_write (log : logger_log) (payload : list Z) : option (logger_log * Z) :=
  logger_aio_write log true (mk_env 0 1 1 0 0) [mk_iov (len payload) (Some payload)]
    (len payload) (Some (replicate (length payload + 20) 0)) true 0 1.
Definition wrote (log : logger_log) (payload : list Z) : logger_log :=
  match event_write log payload with Some (l, _) => l | None => log end.

Definition run0 : logger_log := new_log (2 ^ 13) 0 1.
Definition run1 : logger_log := fst (logger_open run0 0 true true true 0 0).
Definition run2 : logger_log := wrote run1 (replicate 10 65).
Definition run3 : logger_log := wrote run2 (replicate 4076 66).
Definition run4 : logger_log := wrote run3 (replicate 4076 67).

Lemma event_write_step log pk x n log' r : is_u8 x -> event_write log (replicate n x) = Some (log', r) ->
  lstep (mk_sys log pk) (mk_sys log' pk).
Proof.
  intros Hx. apply st_aio_write.
  - constructor; [|constructor]. split; [simpl; lia|]. intros bs [= <-]. by apply Forall_replicate.
  - lia.
  - intros b [= <-]. apply Forall_replicate. unfold is_u8. lia.
Qed.

Lemma wrote_ok : event_write run1 (replicate 10 65) = Some (run2, 10) /\
  event_write run2 (replicate 4076 66) = Some (run3, 4076) /\
  event_write run3 (replicate 4076 67) = Some (run4, 4076) /\
  logger_read_start run3 0 false false = Some (RLen 30).
Proof. repeat split; vm_compute; reflexivity. Qed.

Lemma run3_reachable : rtc lstep (mk_sys run0 ∅) (mk_sys run3 {[0%nat := 30]}).
Proof.
  destruct wrote_ok as (E1 & E2 & _ & Ep).
  apply rtc_l with (mk_sys run1 ∅).
  { apply (st_open run0 ∅ 0 true true true 0 0 run1 0); [apply not_elem_of_nil|done]. }
  apply rtc_l with (mk_sys run2 ∅).
  { apply (event_write_step run1 ∅ 65 10 run2 10); [unfold is_u8; lia|exact E1]. }
  apply rtc_l with (mk_sys run3 ∅).
  { apply (event_write_step run2 ∅ 66 4076 run3 4076); [unfold is_u8; lia|exact E2]. }
  apply rtc_once. apply (st_peek run3 ∅ 0 false false 30); [done|exact Ep].
Qed.

Lemma run4_reachable : rtc lstep (mk_sys run0 ∅) (mk_sys run4 {[0%nat := 30]}).
Proof.
  eapply rtc_r; [exact run3_reachable|]. destruct wrote_ok as (_ & _ & E & _).
  apply (event_write_step run3 _ 67 4076 run4 4076); [unfold is_u8; lia|exact E].
Qed.

Definition run_sys : lsys := mk_sys run4 {[0%nat := 30]}.


(** The user buffer can be overrun.  [logger_read] compares the caller's
    [count] with the length it sized, but the copy uses the length of the entry
    a writer has since moved the reader to: in a reachable state a read of a
    30-byte buffer returns 30 and stores 4096 bytes. *)
Theorem log_read_overruns_user_buffer :
  exists s log' res, rtc lstep (mk_sys (new_log (2 ^ 13) 0 1) ∅) s /\
    peeks s !! 0%nat = Some 30 /\
    logger_read_finish (sys_log s) 0 30 30 true true = Some (log', res) /\
    ret res = 30 /\ len (user_bytes res) = 4096.
Proof.
  assert (H : ((fun p => (ret (snd p), len (user_bytes (snd p)))) <$>
    logger_read_finish run4 0 30 30 true true) = Some (30, 4096)) by (vm_compute; reflexivity).
  apply fmap_Some in H as ([log' res] & E & H).
  exists (mk_sys run4 {[0%nat := 30]}), log', res. split; [exact run4_reachable|].
  split; [apply lookup_singleton_eq|]. split; [exact E|]. 
  split; symmetry; [exact (f_equal fst H)|exact (f_equal snd H)].
Qed.

(** What a second read sees after a first one that used a stale length. *)
Definition after_read (log : logger_log) (n : Z) : option (Z * list Z * read_start) :=
  '(log', res) ← logger_read_finish log 0 4096 n true true;
  st ← logger_read_start log' 0 true false;
  Some (ret res, take 4 (user_bytes res), st).

(** A flush between the two locked halves of a read, or a second read of the
    same file that sized the same entry, desynchronises the reader: the read
    returns bytes that are not an entry, stands past the write head, and the
    next non-blocking read finds entries in an empty log instead of -EAGAIN. *)
Theorem log_stale_read_desync :
  rtc lstep (mk_sys (new_log (2 ^ 13) 0 1) ∅) (mk_sys run2 ∅) /\
  logger_read_start run2 0 true false = Some (RLen 30) /\
  after_read run2 30 = Some (30, [10; 0; 0; 0], RErr (- EAGAIN)) /\
  after_read (flush_log run2) 30 = Some (30, [0; 0; 0; 0], RLen 20) /\
  (p ← logger_read_finish run2 0 4096 30 true true; after_read (fst p) 30)
    = Some (30, [0; 0; 0; 0], RLen 20).
Proof.
  split.
  { destruct wrote_ok as (E1 & _). apply rtc_l with (mk_sys run1 ∅).
    - apply (st_open run0 ∅ 0 true true true 0 0 run1 0); [apply not_elem_of_nil|done].
    - apply rtc_once, (event_write_step run1 ∅ 65 10 run2 10); [unfold is_u8; lia|exact E1]. }
  repeat split; vm_compute; reflexivity.
Qed.

(** A vectored write of more than three segments to the events log copies
    three of them but logs the length of all: the rest of the payload is what
    the freshly allocated kernel block [k] held. *)
Theorem log_events_leaks_heap k : is_u8 k ->
  exists log' r, logger_aio_write run1 true (mk_env 0 1 1 0 0)
      ((fun x => mk_iov 1 (Some [x])) <$> [1; 2; 3; 4]) 4 (Some (replicate 24 k)) true 0 1
      = Some (log', 4) /\
    find_reader log' 0 = Some r /\
    pending log' (r_off r) [header_bytes 4 (mk_env 0 1 1 0 0) ++ [1; 2; 3; k]].
Proof.
  intros Hk. assert (Hi : log_inv run1).
  { destruct (open_sys run0 ∅ 0 true true true 0 0 (new_log_inv 13 0 1 ltac:(lia))
      ltac:(apply not_elem_of_nil)) as [H _]. exact H. }
  unfold logger_aio_write. change (enabled run1 =? 0) with false.
  change (Z.min 4 LOGGER_ENTRY_MAX_PAYLOAD) with 4. change (4 =? 0) with false. cbv iota.
  change (copy_segments _ _ _ _ _) with (Some (Some ([1; 2; 3] ++ replicate 21 k))).
  cbn [mbind option_bind].
  destruct (write_events_ok run1 (mk_env 0 1 1 0 0) ([1; 2; 3] ++ replicate 21 k) 4 Hi)
    as (log' & E & _ & _ & Ha).
  { apply Forall_app; split; [repeat constructor; lia|by apply Forall_replicate]. }
  { lia. }
  { simpl. lia. }
  rewrite E. apply Forall2_cons_inv_l in Ha as (r' & l & (Hid & Hg & _) & Hl & El).
  apply Forall2_nil_inv_l in Hl as ->.
  destruct (Hg []) as (es' & (j & Hes & _) & Hp).
  { split; [constructor|]. repeat split_and?; try done. }
  rewrite drop_nil in Hes. subst es'. exists log', r'. split; [done|]. split; [|exact Hp].
  unfold find_reader. rewrite El. simpl. by rewrite decide_True by done.
Qed.

Lemma log_events_leaks_heap_witness : exists log' r,
  find_reader log' 0 = Some r /\
  pending log' (r_off r) [header_bytes 4 (mk_env 0 1 1 0 0) ++ [1; 2; 3; 0xde]].
Proof.
  destruct (log_events_leaks_heap 0xde) as (log' & r & _ & H1 & H2); [unfold is_u8; lia|].
  exists log', r. split; [exact H1|exact H2].
Defined.
