(* ===== verification/Skbuff.v ===== *)
(** Socket buffers (include/linux/skbuff.h, net/core/skbuff.c): the linear area,
    the page fragments and the fragment list of a packet, and the accessors that
    read a packet across them. *)
From S2P Require Import Prelude.
Local Open Scope kernel_scope.

(** [head_mem] holds the bytes from [skb->head] to the end of the allocation;
    [data], [tail], [network_header] and [mac_header] are offsets into it.
    [frags] are the bytes of the page fragments, from [page_offset] on;
    [dev_ifindex] is [skb->dev->ifindex], [None] when [skb->dev] is NULL. *)
#[local] Unset Elimination Schemes.
Inductive sk_buff : Type := mk_skb {
  head_mem : list Z;
  data : Z;
  tail : Z;
  network_header : Z;
  mac_header : Z;
  skb_len : Z;
  data_len : Z;
  protocol : Z;
  pkt_type : Z;
  dev_ifindex : option Z;
  frags : list (list Z);
  frag_list : list sk_buff }.
#[local] Set Elimination Schemes.

Definition skb_headlen (skb : sk_buff) : Z := skb_len skb -u data_len skb.
Definition skb_is_nonlinear (skb : sk_buff) : bool := negb (data_len skb =? 0).

(** ** [skb_copy_bits] *)

(** The locals are C [int]s; the kernel is built with [-fwrapv], so each sum and
    difference wraps at 32 bits, and [(int)skb->len] is negative from 2^31 on. *)

(** The loop state: everything copied, or the locals [start], [offset], [len]
    and the bytes stored at [to] so far.  A copy yields [None] for an access
    outside the buffers and [Some None] for [-EFAULT]. *)
Inductive copy_state : Type :=
  | Done (out : list Z)
  | More (start offset len : Z) (out : list Z).

(** One round: the piece spans [start .. start + size), and [read] copies from it. *)
Definition copy_piece (size : Z) (read : Z -> Z -> option (option (list Z)))
    (start offset n : Z) (out : list Z) : option (option copy_state) :=
  let end_ := s32 (start + size) in
  if 0 <? s32 (end_ - offset) then
    let copy := Z.min n (s32 (end_ - offset)) in
    r ← read (s32 (offset - start)) copy;
    match r with
    | None => Some None
    | Some bs =>
        Some (Some (if s32 (n - copy) =? 0 then Done (out ++ bs)
                    else More end_ (s32 (offset + copy)) (s32 (n - copy)) (out ++ bs)))
    end
  else Some (Some (More end_ offset n out)).

Fixpoint copy_frags (fs : list (list Z)) (st : copy_state) : option (option copy_state) :=
  match fs, st with
  | f :: fs', More start offset n out =>
      r ← copy_piece (len f) (fun o c => Some <$> mem_read f o c) start offset n out;
      match r with None => Some None | Some st' => copy_frags fs' st' end
  | _, _ => Some (Some st)
  end.

Fixpoint skb_copy_bits (skb : sk_buff) (offset n : Z) {struct skb} : option (option (list Z)) :=
  let fix copy_list (l : list sk_buff) (st : copy_state) : option (option copy_state) :=
    match l, st with
    | s :: l', More start offset n out =>
        r ← copy_piece (skb_len s) (fun o c => skb_copy_bits s o c) start offset n out;
        match r with None => Some None | Some st' => copy_list l' st' end
    | _, _ => Some (Some st)
    end in
  let start := s32 (skb_headlen skb) in
  if s32 (s32 (skb_len skb) - n) <? offset then Some None else
  st ← (if 0 <? s32 (start - offset) then
          let copy := Z.min n (s32 (start - offset)) in
          bs ← mem_read (head_mem skb) (data skb + offset) copy;
          Some (if s32 (n - copy) =? 0 then Done bs
                else More start (s32 (offset + copy)) (s32 (n - copy)) bs)
        else Some (More start offset n []));
  r ← copy_frags (frags skb) st;
  match r with
  | None => Some None
  | Some st =>
      r ← copy_list (frag_list skb) st;
      match r with
      | None => Some None
      | Some (Done out) => Some (Some out)
      | Some (More _ _ n out) => if n =? 0 then Some (Some out) else Some None
      end
  end.

(** A pointer into the linear area, or to the caller's buffer. *)
Inductive skb_ptr : Type := InSkb (off : Z) | InBuffer (bs : list Z).

Definition skb_header_pointer (skb : sk_buff) (offset n : Z) : option (option skb_ptr) :=
  let hlen := s32 (skb_headlen skb) in
  if n <=? s32 (hlen - offset) then Some (Some (InSkb (data skb + offset))) else
  r ← skb_copy_bits skb offset n;
  Some (match r with None => None | Some bs => Some (InBuffer bs) end).

(** The [n] bytes behind a pointer. *)
Definition deref (skb : sk_buff) (p : skb_ptr) (n : Z) : option (list Z) :=
  match p with
  | InSkb off => mem_read (head_mem skb) off n
  | InBuffer bs => mem_read bs 0 n
  end.

(** ** The packet a buffer holds *)

Definition slice (l : list Z) (off n : Z) : list Z := take (Z.to_nat n) (drop (Z.to_nat off) l).

Fixpoint contents (skb : sk_buff) : list Z :=
  slice (head_mem skb) (data skb) (skb_headlen skb) ++ concat (frags skb) ++
  concat ((fix go l := match l with [] => [] | s :: l' => contents s :: go l' end) (frag_list skb)).

(** A well-formed buffer.  [tail + 3 <= len head_mem]: the allocation does not end
    at [skb->tail]; [alloc_skb] asks for the [struct skb_shared_info] behind
    [skb->end] in the same [kmalloc], and [head_mem] is that whole allocation. *)
Fixpoint skb_ok (skb : sk_buff) : Prop :=
  0 <= data skb /\ 0 <= data_len skb <= skb_len skb /\
  data skb + skb_headlen skb <= len (head_mem skb) /\
  tail skb + 3 <= len (head_mem skb) /\
  bytes (head_mem skb) /\ Forall bytes (frags skb) /\
  is_u32 (skb_len skb) /\ skb_len skb = len (contents skb) /\
  (fix go l := match l with [] => True | s :: l' => skb_ok s /\ go l' end) (frag_list skb).

Section Ind.
Variable P : sk_buff -> Prop.
Hypothesis step : forall skb, Forall P (frag_list skb) -> P skb.

(** Induction through the fragment list. *)
Fixpoint sk_buff_nested_ind (skb : sk_buff) : P skb :=
  step skb
    (match skb as s return Forall P (frag_list s) with
     | mk_skb _ _ _ _ _ _ _ _ _ _ _ l =>
         (fix go l : Forall P l :=
            match l with
            | [] => Forall_nil_2 _
            | s :: l' => Forall_cons_2 _ _ _ (sk_buff_nested_ind s) (go l')
            end) l
     end).
End Ind.

Lemma contents_unfold skb :
  contents skb = slice (head_mem skb) (data skb) (skb_headlen skb) ++ concat (frags skb) ++
    concat (contents <$> frag_list skb).
Proof. destruct skb. reflexivity. Qed.

Lemma skb_ok_unfold skb : skb_ok skb <->
  0 <= data skb /\ 0 <= data_len skb <= skb_len skb /\
  data skb + skb_headlen skb <= len (head_mem skb) /\
  tail skb + 3 <= len (head_mem skb) /\
  bytes (head_mem skb) /\ Forall bytes (frags skb) /\
  is_u32 (skb_len skb) /\ skb_len skb = len (contents skb) /\ Forall skb_ok (frag_list skb).
Proof.
  destruct skb as [? ? ? ? ? ? ? ? ? ? ? l]. cbn [skb_ok].
  assert (E : forall l, (fix go l := match l with [] => True | s :: l' => skb_ok s /\ go l' end) l
    <-> Forall skb_ok l).
  { clear. induction l as [|s l IH]; [split; [constructor|done]|].
    rewrite Forall_cons, <- IH. done. }
  cbn [frag_list] in *. rewrite E. done.
Qed.

Lemma skb_headlen_ok skb : skb_ok skb -> skb_headlen skb = skb_len skb - data_len skb.
Proof.
  intros (_ & ? & _ & _ & _ & _ & [? ?] & _)%skb_ok_unfold. unfold skb_headlen.
  apply u32_id. unfold is_u32. lia.
Qed.

(** ** Slices *)

Lemma len_slice l off n : 0 <= off -> 0 <= n -> off + n <= len l -> len (slice l off n) = n.
Proof. intros. unfold slice. rewrite length_take, length_drop. lia. Qed.

Lemma mem_read_slice m off n : 0 <= off -> 0 <= n -> off + n <= len m ->
  mem_read m off n = Some (slice m off n).
Proof.
  intros. unfold mem_read.
  destruct (Z.leb_spec 0 off), (Z.leb_spec 0 n), (Z.leb_spec (off + n) (len m)); try lia. done.
Qed.

Lemma slice_app_l a b off n : 0 <= off -> 0 <= n -> off + n <= len a -> slice (a ++ b) off n = slice a off n.
Proof.
  intros. unfold slice. rewrite drop_app_le by lia. rewrite take_app_le; [done|].
  rewrite length_drop. lia.
Qed.

Lemma slice_app_r a b off n : len a <= off -> slice (a ++ b) off n = slice b (off - len a) n.
Proof.
  intros. unfold slice. rewrite drop_app_ge by lia. do 2 f_equal. lia.
Qed.

Lemma slice_split l off n m : 0 <= off -> 0 <= n -> 0 <= m ->
  slice l off n ++ slice l (off + n) m = slice l off (n + m).
Proof.
  intros. unfold slice. rewrite !Z2Nat.inj_add by lia.
  rewrite <- drop_drop, <- (take_drop (Z.to_nat n) (take (Z.to_nat n + Z.to_nat m) _)).
  f_equal.
  - rewrite take_take. f_equal. lia.
  - rewrite skipn_firstn_comm. f_equal; lia.
Qed.

Lemma slice_slice l a n off m : 0 <= a -> 0 <= off -> 0 <= m -> off + m <= n ->
  slice (slice l a n) off m = slice l (a + off) m.
Proof.
  intros. unfold slice. rewrite skipn_firstn_comm, drop_drop, take_take.
  f_equal; [lia|]. f_equal. lia.
Qed.

Lemma slice_bytes l off n : bytes l -> bytes (slice l off n).
Proof. intros. unfold slice. by apply Forall_take, Forall_drop. Qed.

(** ** [skb_copy_bits] reads the packet *)

(** The loop state while [n0] bytes at [off0] of the packet [C] are copied and the
    pieces before the current one are [pre]. *)
Definition copy_inv (C pre : list Z) (off0 n0 : Z) (st : copy_state) : Prop :=
  match st with
  | Done out => out = slice C off0 n0
  | More start offset n out =>
      start = len pre /\ start <= offset /\ 0 < n /\ 0 <= off0 <= offset /\
      offset + n = off0 + n0 /\ off0 + n0 <= len C < 2 ^ 31 /\ out = slice C off0 (offset - off0)
  end.

Definition reads (b : list Z) (read : Z -> Z -> option (option (list Z))) : Prop :=
  forall o c, 0 <= o -> 0 < c -> o + c <= len b -> read o c = Some (Some (slice b o c)).

Lemma copy_piece_ok C pre b post off0 n0 read start offset n out :
  C = pre ++ b ++ post -> reads b read ->
  copy_inv C pre off0 n0 (More start offset n out) ->
  exists st, copy_piece (len b) read start offset n out = Some (Some st) /\
    copy_inv C (pre ++ b) off0 n0 st.
Proof.
  intros HC Hrd (-> & Hs & Hn & Ho & Hsum & HC31 & ->). unfold copy_piece.
  assert (len pre + len b <= len C) by (rewrite HC, !length_app; lia).
  rewrite (s32_id (len pre + len b)) by (unfold is_s32; lia).
  rewrite (s32_id (len pre + len b - offset)) by (unfold is_s32; lia).
  destruct (Z.ltb_spec 0 (len pre + len b - offset)).
  - set (copy := Z.min n (len pre + len b - offset)).
    rewrite !s32_id by (unfold is_s32; lia).
    rewrite Hrd by lia. cbn [mbind option_bind].
    assert (E : slice b (offset - len pre) copy = slice C offset copy).
    { rewrite HC, slice_app_r, slice_app_l by lia. done. }
    rewrite E. assert (E2 : slice C off0 (offset - off0) ++ slice C offset copy =
      slice C off0 (offset - off0 + copy)).
    { rewrite <- slice_split by lia. do 2 f_equal. lia. }
    rewrite E2. eexists; split; [done|]. destruct (Z.eqb_spec (n - copy) 0); simpl.
    + f_equal. lia.
    + rewrite length_app. repeat split_and?; try lia. f_equal. lia.
  - eexists; split; [done|]. simpl. rewrite length_app. repeat split_and?; try lia. done.
Qed.

Lemma copy_frags_ok C off0 n0 fs : forall pre post st,
  C = pre ++ concat fs ++ post -> copy_inv C pre off0 n0 st ->
  exists st', copy_frags fs st = Some (Some st') /\ copy_inv C (pre ++ concat fs) off0 n0 st'.
Proof.
  induction fs as [|f fs IH]; intros pre post st HC Hst.
  { exists st. simpl. by rewrite app_nil_r. }
  destruct st as [out|start offset n out]; [by eexists|]. cbn [copy_frags concat] in *.
  destruct (copy_piece_ok C pre f (concat fs ++ post) off0 n0
    (fun o c => Some <$> mem_read f o c) start offset n out) as (st & E & Hst').
  - by rewrite HC, <- app_assoc.
  - intros o c ???. by rewrite mem_read_slice by lia.
  - done.
  - rewrite E. cbn [mbind option_bind]. rewrite app_assoc. apply (IH _ post); [|done].
    by rewrite HC, <- !app_assoc.
Qed.

(** The fragment-list loop of [skb_copy_bits], named. *)
Fixpoint copy_list (l : list sk_buff) (st : copy_state) : option (option copy_state) :=
  match l, st with
  | s :: l', More start offset n out =>
      r ← copy_piece (skb_len s) (fun o c => skb_copy_bits s o c) start offset n out;
      match r with None => Some None | Some st' => copy_list l' st' end
  | _, _ => Some (Some st)
  end.

Lemma copy_list_ok C off0 n0 l : Forall (fun s => reads (contents s) (skb_copy_bits s)) l ->
  Forall skb_ok l -> forall pre st,
  C = pre ++ concat (contents <$> l) -> copy_inv C pre off0 n0 st ->
  exists st', copy_list l st = Some (Some st') /\ copy_inv C C off0 n0 st'.
Proof.
  induction 1 as [|s l Hs _ IH]; intros Hok pre st HC Hst.
  { exists st. simpl in HC. rewrite app_nil_r in HC. subst pre. done. }
  apply Forall_cons in Hok as [Hsok Hok].
  destruct st as [out|start offset n out]; [by eexists|]. cbn [copy_list]. rewrite fmap_cons in HC.
  cbn [concat] in HC. apply skb_ok_unfold in Hsok as (_ & _ & _ & _ & _ & _ & _ & El & _). rewrite El.
  destruct (copy_piece_ok C pre (contents s) (concat (contents <$> l)) off0 n0
    (fun o c => skb_copy_bits s o c) start offset n out) as (st & E & Hst'); try done.
  rewrite E. cbn [mbind option_bind]. apply (IH Hok (pre ++ contents s)); [|done].
  by rewrite HC, <- app_assoc.
Qed.

(** Its first step, the copy from the linear area, named. *)
Definition copy_header (skb : sk_buff) (start offset n : Z) : option copy_state :=
  if 0 <? s32 (start - offset) then
    let copy := Z.min n (s32 (start - offset)) in
    bs ← mem_read (head_mem skb) (data skb + offset) copy;
    Some (if s32 (n - copy) =? 0 then Done bs
          else More start (s32 (offset + copy)) (s32 (n - copy)) bs)
  else Some (More start offset n []).

Lemma skb_copy_bits_unfold skb offset n :
  skb_copy_bits skb offset n =
  let start := s32 (skb_headlen skb) in
  if s32 (s32 (skb_len skb) - n) <? offset then Some None else
  st ← copy_header skb start offset n;
  r ← copy_frags (frags skb) st;
  match r with
  | None => Some None
  | Some st =>
      r ← copy_list (frag_list skb) st;
      match r with
      | None => Some None
      | Some (Done out) => Some (Some out)
      | Some (More _ _ n out) => if n =? 0 then Some (Some out) else Some None
      end
  end.
Proof. destruct skb. reflexivity. Qed.

Lemma frag_list_len skb s : skb_ok skb -> s ∈ frag_list skb -> skb_len s <= skb_len skb.
Proof.
  intros (_ & _ & _ & _ & _ & _ & _ & El & Hl)%skb_ok_unfold Hs.
  pose proof (proj1 (Forall_forall _ _) Hl s Hs) as (_ & _ & _ & _ & _ & _ & _ & Es & _)%skb_ok_unfold.
  rewrite El, Es, (contents_unfold skb).
  apply list_elem_of_split in Hs as (l1 & l2 & ->).
  rewrite fmap_app, fmap_cons, concat_app. cbn [concat]. rewrite !length_app. lia.
Qed.

Lemma copy_header_ok skb off n : skb_ok skb -> skb_len skb < 2 ^ 31 -> 0 <= off -> 0 < n ->
  off + n <= skb_len skb ->
  exists st, copy_header skb (skb_headlen skb) off n = Some st /\
    copy_inv (contents skb) (slice (head_mem skb) (data skb) (skb_headlen skb)) off n st.
Proof.
  intros Hok H31 Ho Hn Hle. pose proof (skb_headlen_ok skb Hok) as Hh.
  apply skb_ok_unfold in Hok as (Hd & Hdl0 & Hdl & _ & _ & _ & _ & El & Hl).
  rewrite contents_unfold in *. set (hd := slice (head_mem skb) (data skb) (skb_headlen skb)) in *.
  assert (Hhd : len hd = skb_headlen skb) by (apply len_slice; lia).
  set (rest := concat (frags skb) ++ concat (contents <$> frag_list skb)) in *.
  unfold copy_header. rewrite (s32_id (skb_headlen skb - off)) by (unfold is_s32; lia).
  destruct (Z.ltb_spec 0 (skb_headlen skb - off)).
  - set (copy := Z.min n (skb_headlen skb - off)). rewrite mem_read_slice by lia.
    rewrite !s32_id by (unfold is_s32; lia).
    cbn [mbind option_bind]. rewrite <- (slice_slice _ _ (skb_headlen skb)) by lia. fold hd.
    rewrite <- (slice_app_l hd rest) by lia. eexists; split; [done|].
    destruct (Z.eqb_spec (n - copy) 0); simpl; [f_equal; lia|].
    repeat split_and?; try lia. f_equal. lia.
  - eexists; split; [done|]. simpl. rewrite Z.sub_diag. repeat split_and?; try lia. done.
Qed.

Lemma skb_copy_bits_in skb : skb_ok skb -> skb_len skb < 2 ^ 31 ->
  reads (contents skb) (skb_copy_bits skb).
Proof.
  induction skb as [skb IH] using sk_buff_nested_ind. intros Hok H31 off n Ho Hn Hle.
  pose proof (skb_headlen_ok skb Hok) as Hh.
  pose proof Hok as (Hd & Hdl0 & Hdl & _ & _ & _ & _ & El & Hl)%skb_ok_unfold.
  assert (IH' : Forall (fun s => reads (contents s) (skb_copy_bits s)) (frag_list skb)).
  { apply Forall_forall. intros s Hs. rewrite Forall_forall in IH, Hl.
    apply IH; [done|by apply Hl|]. pose proof (frag_list_len skb s Hok Hs). lia. }
  rewrite skb_copy_bits_unfold. cbv zeta. rewrite <- El in Hle.
  rewrite (s32_id (skb_headlen skb)), (s32_id (skb_len skb)), (s32_id (skb_len skb - n))
    by (unfold is_s32; lia).
  destruct (Z.ltb_spec (skb_len skb - n) off); [lia|].
  destruct (copy_header_ok skb off n Hok H31 Ho Hn Hle) as (st & -> & Hst). cbn [mbind option_bind].
  set (hd := slice (head_mem skb) (data skb) (skb_headlen skb)) in *.
  destruct (copy_frags_ok (contents skb) off n (frags skb) hd (concat (contents <$> frag_list skb)) st
    (contents_unfold skb) Hst) as (st1 & -> & Hst1). cbn [mbind option_bind].
  destruct (copy_list_ok (contents skb) off n (frag_list skb) IH' Hl (hd ++ concat (frags skb)) st1)
    as (st2 & -> & Hst2); [by rewrite contents_unfold, <- app_assoc|done|]. cbn [mbind option_bind].
  destruct st2 as [out|start offset m out]; [by rewrite Hst2|].
  destruct Hst2 as (-> & ? & ? & ? & ? & _). lia.
Qed.

(** A read past the end of the packet is [-EFAULT]. *)
Lemma skb_copy_bits_out skb offset n : 0 <= skb_len skb < 2 ^ 31 -> 0 < n < 2 ^ 31 ->
  skb_len skb < offset + n -> skb_copy_bits skb offset n = Some None.
Proof.
  intros. rewrite skb_copy_bits_unfold. cbv zeta. rewrite !(s32_id (skb_len skb)) by (unfold is_s32; lia).
  rewrite (s32_id (skb_len skb - n)) by (unfold is_s32; lia).
  destruct (Z.ltb_spec (skb_len skb - n) offset); [done|lia].
Qed.

(** From 2^31 on the length is negative as an [int]. *)
Lemma skb_copy_bits_huge skb offset n : 2 ^ 31 + n <= skb_len skb < 2 ^ 32 -> 0 < n -> 0 <= offset ->
  skb_copy_bits skb offset n = Some None.
Proof.
  intros. rewrite skb_copy_bits_unfold. cbv zeta.
  assert (E : s32 (skb_len skb) = skb_len skb - 2 ^ 32).
  { unfold s32, swrap. change (32 - 1) with 31.
    replace ((skb_len skb + 2 ^ 31) mod 2 ^ 32) with (skb_len skb - 2 ^ 31); [lia|].
    apply Z.mod_unique with 1; lia. }
  rewrite E, (s32_id (skb_len skb - 2 ^ 32 - n)) by (unfold is_s32; lia).
  destruct (Z.ltb_spec (skb_len skb - 2 ^ 32 - n) offset); [done|lia].
Qed.

(** A header pointer shows the [n] packet bytes at [offset], or is NULL. *)
Lemma skb_header_pointer_ok skb offset n : skb_ok skb -> skb_len skb < 2 ^ 31 ->
  0 <= offset < 2 ^ 31 -> 0 < n < 2 ^ 31 ->
  if offset + n <=? skb_len skb
  then exists p, skb_header_pointer skb offset n = Some (Some p) /\
         deref skb p n = Some (slice (contents skb) offset n)
  else skb_header_pointer skb offset n = Some None.
Proof.
  intros Hok H31 Ho Hn. pose proof (skb_headlen_ok skb Hok) as Hh.
  pose proof Hok as (Hd & Hdl0 & Hdl & _ & _ & _ & _ & El & _)%skb_ok_unfold.
  unfold skb_header_pointer. cbv zeta.
  rewrite (s32_id (skb_headlen skb)), (s32_id (skb_headlen skb - offset)) by (unfold is_s32; lia).
  destruct (Z.leb_spec n (skb_headlen skb - offset)).
  - destruct (Z.leb_spec (offset + n) (skb_len skb)); [|lia].
    eexists; split; [done|]. cbn [deref]. rewrite mem_read_slice by lia.
    rewrite contents_unfold, slice_app_l, slice_slice; try lia; [done|].
    rewrite len_slice; lia.
  - destruct (Z.leb_spec (offset + n) (skb_len skb)).
    + rewrite (skb_copy_bits_in skb Hok H31 offset n) by lia. cbn. eexists; split; [done|].
      cbn [deref]. rewrite mem_read_slice by (rewrite ?len_slice; lia).
      f_equal. rewrite slice_slice by lia. f_equal. lia.
    + rewrite skb_copy_bits_out by lia. done.
Qed.


(** A packet of 9 bytes: 3 linear, 2 in a page, 4 in a chained buffer. *)
Definition demo_skb : sk_buff :=
  mk_skb [90; 1; 2; 3; 91; 92; 93; 94] 1 4 1 0 9 6 2048 0 (Some 3) [[4; 5]]
    [mk_skb [6; 7; 8; 9; 0; 0; 0; 0] 0 4 0 0 4 0 2048 0 (Some 3) [] []].

Lemma demo_skb_ok : skb_ok demo_skb.
Proof.
  repeat split; try (simpl; lia); try (apply bytes_check; reflexivity); try done.
  apply Forall_singleton, bytes_check. reflexivity.
Qed.

