(* ===== verification/Filter.v ===== *)
(** Socket filters (net/core/filter.c, include/linux/filter.h): the BPF checker
    [sk_chk_filter], the interpreter [sk_run_filter] and the attachment of a
    filter to a socket, with the netlink attribute walk the interpreter calls
    (net/netlink/attr.c, include/net/netlink.h). *)
From S2P Require Import Prelude Skbuff.
Local Open Scope kernel_scope.

Record sock_filter := mk_insn { code : Z; jt : Z; jf : Z; k : Z }.

(** ** Instruction codes *)

Definition BPF_LD : Z := 0x00.
Definition BPF_LDX : Z := 0x01.
Definition BPF_ST : Z := 0x02.
Definition BPF_STX : Z := 0x03.
Definition BPF_ALU : Z := 0x04.
Definition BPF_JMP : Z := 0x05.
Definition BPF_RET : Z := 0x06.
Definition BPF_MISC : Z := 0x07.
Definition BPF_W : Z := 0x00.
Definition BPF_H : Z := 0x08.
Definition BPF_B : Z := 0x10.
Definition BPF_IMM : Z := 0x00.
Definition BPF_ABS : Z := 0x20.
Definition BPF_IND : Z := 0x40.
Definition BPF_MEM : Z := 0x60.
Definition BPF_LEN : Z := 0x80.
Definition BPF_MSH : Z := 0xa0.
Definition BPF_ADD : Z := 0x00.
Definition BPF_SUB : Z := 0x10.
Definition BPF_MUL : Z := 0x20.
Definition BPF_DIV : Z := 0x30.
Definition BPF_OR : Z := 0x40.
Definition BPF_AND : Z := 0x50.
Definition BPF_LSH : Z := 0x60.
Definition BPF_RSH : Z := 0x70.
Definition BPF_NEG : Z := 0x80.
Definition BPF_JA : Z := 0x00.
Definition BPF_JEQ : Z := 0x10.
Definition BPF_JGT : Z := 0x20.
Definition BPF_JGE : Z := 0x30.
Definition BPF_JSET : Z := 0x40.
Definition BPF_K : Z := 0x00.
Definition BPF_X : Z := 0x08.
Definition BPF_A : Z := 0x10.
Definition BPF_TAX : Z := 0x00.
Definition BPF_TXA : Z := 0x80.

Definition BPF_CLASS (c : Z) : Z := Z.land c 0x07.
Definition BPF_MAXINSNS : Z := 4096.
Definition BPF_MEMWORDS : Z := 16.
Definition SKF_AD_OFF : Z := - 0x1000.
Definition SKF_NET_OFF : Z := - 0x100000.
Definition SKF_LL_OFF : Z := - 0x200000.
Definition SKF_AD_PROTOCOL : Z := 0.
Definition SKF_AD_PKTTYPE : Z := 4.
Definition SKF_AD_IFINDEX : Z := 8.
Definition SKF_AD_NLATTR : Z := 12.
Definition SKF_AD_NLATTR_NEST : Z := 16.

(** The [case] labels of the two switches; [srcX] tells [BPF_X] from [BPF_K]. *)
Inductive alu_op : Type := ADD | SUB | MUL | DIV | AND | OR | LSH | RSH.
Inductive jmp_op : Type := JGT | JGE | JEQ | JSET.
Inductive width : Type := W | H | B.
Inductive opcode : Type :=
  | ALU (op : alu_op) (srcX : bool) | NEG | JA | JCC (op : jmp_op) (srcX : bool)
  | LD_ABS (w : width) | LD_IND (w : width) | LD_LEN | LDX_LEN | LDX_MSH | LD_IMM | LDX_IMM
  | LD_MEM | LDX_MEM | ST | STX | TAX | TXA | RET_K | RET_A.

Definition alu_code (op : alu_op) : Z :=
  match op with
  | ADD => BPF_ADD | SUB => BPF_SUB | MUL => BPF_MUL | DIV => BPF_DIV
  | AND => BPF_AND | OR => BPF_OR | LSH => BPF_LSH | RSH => BPF_RSH
  end.
Definition jmp_code (op : jmp_op) : Z :=
  match op with JGT => BPF_JGT | JGE => BPF_JGE | JEQ => BPF_JEQ | JSET => BPF_JSET end.
Definition width_code (w : width) : Z := match w with W => BPF_W | H => BPF_H | B => BPF_B end.
Definition src_code (srcX : bool) : Z := if srcX then BPF_X else BPF_K.

Definition code_of (o : opcode) : Z :=
  match o with
  | ALU op s => Z.lor BPF_ALU (Z.lor (alu_code op) (src_code s))
  | NEG => Z.lor BPF_ALU BPF_NEG
  | JA => Z.lor BPF_JMP BPF_JA
  | JCC op s => Z.lor BPF_JMP (Z.lor (jmp_code op) (src_code s))
  | LD_ABS w => Z.lor BPF_LD (Z.lor (width_code w) BPF_ABS)
  | LD_IND w => Z.lor BPF_LD (Z.lor (width_code w) BPF_IND)
  | LD_LEN => Z.lor BPF_LD (Z.lor BPF_W BPF_LEN)
  | LDX_LEN => Z.lor BPF_LDX (Z.lor BPF_W BPF_LEN)
  | LDX_MSH => Z.lor BPF_LDX (Z.lor BPF_B BPF_MSH)
  | LD_IMM => Z.lor BPF_LD BPF_IMM
  | LDX_IMM => Z.lor BPF_LDX BPF_IMM
  | LD_MEM => Z.lor BPF_LD BPF_MEM
  | LDX_MEM => Z.lor BPF_LDX BPF_MEM
  | ST => BPF_ST
  | STX => BPF_STX
  | TAX => Z.lor BPF_MISC BPF_TAX
  | TXA => Z.lor BPF_MISC BPF_TXA
  | RET_K => Z.lor BPF_RET BPF_K
  | RET_A => Z.lor BPF_RET BPF_A
  end.

Definition opcodes : list opcode :=
  (op ← [ADD; SUB; MUL; DIV; AND; OR; LSH; RSH]; [ALU op true; ALU op false]) ++
  [NEG; JA] ++ (op ← [JGT; JGE; JEQ; JSET]; [JCC op true; JCC op false]) ++
  [LD_ABS W; LD_ABS H; LD_ABS B; LD_IND W; LD_IND H; LD_IND B; LD_LEN; LDX_LEN; LDX_MSH;
   LD_IMM; LDX_IMM; LD_MEM; LDX_MEM; ST; STX; TAX; TXA; RET_K; RET_A].

(** The label a [switch (code)] jumps to; [None] is [default]. *)
Definition opcode_of (c : Z) : option opcode := find (fun o => code_of o =? c) opcodes.

(** ** The checker *)

Definition chk_insn (f : sock_filter) (pc flen : Z) : bool :=
  match opcode_of (code f) with
  | None => false
  | Some (ALU DIV false) => negb (k f =? 0)
  | Some (LD_MEM | LDX_MEM | ST | STX) => negb (BPF_MEMWORDS <=? k f)
  | Some JA => negb (u32 (flen - pc - 1) <=? k f)
  | Some (JCC _ _) => negb ((flen <=? pc + jt f + 1) || (flen <=? pc + jf f + 1))
  | Some _ => true
  end.

(** The loop over the program from [pc] on. *)
Fixpoint chk_loop (filter : list sock_filter) (pc flen : Z) (n : nat) : option bool :=
  match n with
  | O => Some true
  | S n' =>
      f ← zget filter pc;
      if chk_insn f pc flen then chk_loop filter (pc + 1) flen n' else Some false
  end.

Definition sk_chk_filter (filter : list sock_filter) (flen : Z) : option Z :=
  if (flen =? 0) || (BPF_MAXINSNS <? flen) then Some (- EINVAL) else
  ok ← chk_loop filter 0 flen (Z.to_nat flen);
  if negb ok then Some (- EINVAL) else
  last ← zget filter (flen - 1);
  Some (if BPF_CLASS (code last) =? BPF_RET then 0 else - EINVAL).

(** ** Loads *)

Definition __load_pointer (skb : sk_buff) (k : Z) : option skb_ptr :=
  let check ptr := if (0 <=? ptr) && (ptr <? tail skb) then Some (InSkb ptr) else None in
  if SKF_NET_OFF <=? k then check (network_header skb + k - SKF_NET_OFF)
  else if SKF_LL_OFF <=? k then check (mac_header skb + k - SKF_LL_OFF)
  else None.

Definition load_pointer (skb : sk_buff) (k size : Z) : option (option skb_ptr) :=
  if 0 <=? k then skb_header_pointer skb k size
  else if SKF_AD_OFF <=? k then Some None
  else Some (__load_pointer skb k).

Definition width_bytes (w : width) : Z := match w with W => 4 | H => 2 | B => 1 end.

(** [get_unaligned_be32], [get_unaligned_be16] and the byte load. *)
Definition be_value (bs : list Z) : Z := fold_left (fun a b => Z.lor (Z.shiftl a 8) b) bs 0.

(** ** Netlink attributes in the packet *)

(** Where a walk ends: at an attribute, at the end of the stream, or at an
    access outside the buffer. *)
Inductive nla_result : Type := NlaFound (off : Z) | NlaNone | NlaBad.

Definition sizeof_nlattr : Z := 4.
Definition NLA_ALIGN (n : Z) : Z := Z.land (n + 3) (Z.lnot 3).
Definition NLA_HDRLEN : Z := 4.

(** The little-endian 16-bit field at offset [off] of the linear area. *)
Definition get_u16 (skb : sk_buff) (off : Z) : option Z :=
  bs ← mem_read (head_mem skb) off 2; Some (zat bs 0 + 256 * zat bs 1).

Definition nla_type (skb : sk_buff) (nla : Z) : option Z :=
  t ← get_u16 skb (nla + 2); Some (Z.land t (Z.lnot 0xc000)).

Definition nla_ok (skb : sk_buff) (nla remaining : Z) : option bool :=
  if negb (sizeof_nlattr <=? remaining) then Some false else
  l ← get_u16 skb nla; Some ((sizeof_nlattr <=? l) && (l <=? remaining)).

Fixpoint nla_find_loop (fuel : nat) (skb : sk_buff) (nla rem attrtype : Z) : nla_result :=
  match fuel with
  | O => NlaBad
  | S fuel' =>
      match nla_ok skb nla rem with
      | None => NlaBad
      | Some false => NlaNone
      | Some true =>
          match nla_type skb nla, get_u16 skb nla with
          | Some t, Some l =>
              if t =? attrtype then NlaFound nla
              else nla_find_loop fuel' skb (nla + NLA_ALIGN l) (rem - NLA_ALIGN l) attrtype
          | _, _ => NlaBad
          end
      end
  end.

Definition nla_find (skb : sk_buff) (head n attrtype : Z) : nla_result :=
  nla_find_loop (S (Z.to_nat n)) skb head n attrtype.

Definition nla_find_nested (skb : sk_buff) (nla attrtype : Z) : nla_result :=
  match get_u16 skb nla with
  | None => NlaBad
  | Some l => nla_find skb (nla + NLA_HDRLEN) (l - NLA_HDRLEN) attrtype
  end.

(** ** The interpreter *)

(** The locals of [sk_run_filter]. *)
Record regs := mk_regs { pc : Z; rA : Z; rX : Z; mem : list Z }.

Inductive fault : Type :=
  | OutOfBounds        (** the program, the scratch memory or a packet load *)
  | DivByZero
  | NullDev            (** [skb->dev->ifindex] with [skb->dev == NULL] *)
  | NlattrOut          (** [SKF_AD_NLATTR] reads outside the buffer *)
  | NestOut.           (** [SKF_AD_NLATTR_NEST] reads outside the buffer *)

Inductive flow : Type := Continue (s : regs) | Return (v : Z) | Crash (f : fault).

Definition setA (s : regs) (a : Z) : regs := mk_regs (pc s) a (rX s) (mem s).
Definition setX (s : regs) (x : Z) : regs := mk_regs (pc s) (rA s) x (mem s).
Definition jump (s : regs) (d : Z) : regs := mk_regs (s32 (pc s + d)) (rA s) (rX s) (mem s).

(** A register-specified ARM shift uses the low byte of the amount. *)
Definition arm_lsl (a n : Z) : Z := if u8 n <? 32 then a <<u (u8 n) else 0.
Definition arm_lsr (a n : Z) : Z := if u8 n <? 32 then Z.shiftr a (u8 n) else 0.

Definition exec_alu (op : alu_op) (a v : Z) : option Z :=
  match op with
  | ADD => Some (a +u v)
  | SUB => Some (a -u v)
  | MUL => Some (a *u v)
  | DIV => if v =? 0 then None else Some (a / v)
  | AND => Some (Z.land a v)
  | OR => Some (Z.lor a v)
  | LSH => Some (arm_lsl a v)
  | RSH => Some (arm_lsr a v)
  end.

Definition exec_jcc (op : jmp_op) (a v : Z) : bool :=
  match op with
  | JGT => v <? a
  | JGE => v <=? a
  | JEQ => a =? v
  | JSET => negb (Z.land a v =? 0)
  end.

Definition ntohs (x : Z) : Z := Z.lor (u16 (Z.shiftl x 8)) (Z.shiftr x 8).

Definition nla_flow (skb : sk_buff) (s : regs) (bad : fault) (r : nla_result) : flow :=
  match r with
  | NlaBad => Crash bad
  | NlaNone => Continue (setA s 0)
  | NlaFound off => Continue (setA s (u32 (off - data skb)))
  end.

(** The second switch, on [k - SKF_AD_OFF]. *)
Definition ancillary (skb : sk_buff) (s : regs) (k : Z) : flow :=
  let sel := k - SKF_AD_OFF in
  let A := rA s in
  if sel =? SKF_AD_PROTOCOL then Continue (setA s (ntohs (protocol skb)))
  else if sel =? SKF_AD_PKTTYPE then Continue (setA s (pkt_type skb))
  else if sel =? SKF_AD_IFINDEX then
    match dev_ifindex skb with None => Crash NullDev | Some i => Continue (setA s (u32 i)) end
  else if sel =? SKF_AD_NLATTR then
    if skb_is_nonlinear skb then Return 0 else
    if (skb_len skb -u sizeof_nlattr) <? A then Return 0 else
    nla_flow skb s NlattrOut
      (nla_find skb (data skb + A) (s32 (skb_len skb - A)) (s32 (rX s)))
  else if sel =? SKF_AD_NLATTR_NEST then
    if skb_is_nonlinear skb then Return 0 else
    if (skb_len skb -u sizeof_nlattr) <? A then Return 0 else
    match get_u16 skb (data skb + A) with
    | None => Crash NestOut
    | Some l =>
        if (A -u skb_len skb) <? l then Return 0 else
        nla_flow skb s NestOut (nla_find_nested skb (data skb + A) (s32 (rX s)))
    end
  else Return 0.

(** [load_w], [load_h] and [load_b]. *)
Definition exec_load (skb : sk_buff) (s : regs) (w : width) (k : Z) : flow :=
  match load_pointer skb k (width_bytes w) with
  | None => Crash OutOfBounds
  | Some (Some p) =>
      match deref skb p (width_bytes w) with
      | None => Crash OutOfBounds
      | Some bs => Continue (setA s (be_value bs))
      end
  | Some None => ancillary skb s k
  end.

Definition exec_insn (skb : sk_buff) (f : sock_filter) (s : regs) : flow :=
  let src (x : bool) := if x then rX s else k f in
  match opcode_of (code f) with
  | None => Return 0
  | Some op =>
      match op with
      | ALU DIV true => if rX s =? 0 then Return 0 else Continue (setA s (rA s / rX s))
      | ALU op x =>
          match exec_alu op (rA s) (src x) with
          | Some a => Continue (setA s a)
          | None => Crash DivByZero
          end
      | NEG => Continue (setA s (u32 (- rA s)))
      | JA => Continue (jump s (k f))
      | JCC op x => Continue (jump s (if exec_jcc op (rA s) (src x) then jt f else jf f))
      | LD_ABS w => exec_load skb s w (s32 (k f))
      | LD_IND w => exec_load skb s w (s32 (rX s + k f))
      | LD_LEN => Continue (setA s (skb_len skb))
      | LDX_LEN => Continue (setX s (skb_len skb))
      | LDX_MSH =>
          match load_pointer skb (s32 (k f)) 1 with
          | None => Crash OutOfBounds
          | Some None => Return 0
          | Some (Some p) =>
              match deref skb p 1 with
              | None => Crash OutOfBounds
              | Some bs => Continue (setX s (Z.shiftl (Z.land (be_value bs) 0xf) 2))
              end
          end
      | LD_IMM => Continue (setA s (k f))
      | LDX_IMM => Continue (setX s (k f))
      | LD_MEM => match zget (mem s) (k f) with Some v => Continue (setA s v) | None => Crash OutOfBounds end
      | LDX_MEM => match zget (mem s) (k f) with Some v => Continue (setX s v) | None => Crash OutOfBounds end
      | ST =>
          match zset (mem s) (k f) (rA s) with
          | Some m => Continue (mk_regs (pc s) (rA s) (rX s) m)
          | None => Crash OutOfBounds
          end
      | STX =>
          match zset (mem s) (k f) (rX s) with
          | Some m => Continue (mk_regs (pc s) (rA s) (rX s) m)
          | None => Crash OutOfBounds
          end
      | TAX => Continue (setX s (rA s))
      | TXA => Continue (setA s (rX s))
      | RET_K => Return (k f)
      | RET_A => Return (rA s)
      end
  end.

Inductive outcome : Type := Ret (v : Z) | Crashed (f : fault) | OutOfFuel.

Fixpoint run_loop (fuel : nat) (skb : sk_buff) (filter : list sock_filter) (flen : Z) (s : regs)
    : outcome :=
  match fuel with
  | O => OutOfFuel
  | S fuel' =>
      if pc s <? flen then
        match zget filter (pc s) with
        | None => Crashed OutOfBounds
        | Some f =>
            match exec_insn skb f s with
            | Crash c => Crashed c
            | Return v => Ret v
            | Continue s' =>
                run_loop fuel' skb filter flen (mk_regs (s32 (pc s' + 1)) (rA s') (rX s') (mem s'))
            end
        end
      else Ret 0
  end.

(** [mem0]: what the stack held where [mem] lies; it is not initialised. *)
Definition sk_run_filter (fuel : nat) (skb : sk_buff) (filter : list sock_filter) (flen : Z)
    (mem0 : list Z) : outcome :=
  run_loop fuel skb filter flen (mk_regs 0 0 0 mem0).

(** ** The checked program *)

Definition insn_ok (f : sock_filter) : Prop :=
  is_u16 (code f) /\ is_u8 (jt f) /\ is_u8 (jf f) /\ is_u32 (k f).

(** A well-formed packet; its length is a non-negative [int]. *)
Definition pkt_ok (skb : sk_buff) : Prop :=
  skb_ok skb /\ skb_len skb < 2 ^ 31 /\ is_u16 (protocol skb) /\ is_u32 (pkt_type skb).

Definition regs_ok (s : regs) : Prop :=
  is_u32 (rA s) /\ is_u32 (rX s) /\ len (mem s) = BPF_MEMWORDS /\ Forall is_u32 (mem s).

Lemma opcode_of_code c o : opcode_of c = Some o -> code_of o = c.
Proof. intros H. apply find_some in H as [_ H]. by apply Z.eqb_eq. Qed.

(** The case labels are distinct. *)
Lemma opcode_of_code_of o : opcode_of (code_of o) = Some o.
Proof.
  destruct o as [[] []| | |[] []|[]|[]| | | | | | | | | | | | |]; reflexivity.
Qed.

Lemma chk_loop_ok filter flen n : forall pc, chk_loop filter pc flen n = Some true ->
  forall i, pc <= i < pc + Z.of_nat n ->
  exists f, zget filter i = Some f /\ chk_insn f i flen = true.
Proof.
  induction n as [|n IH]; intros pc; cbn [chk_loop]; [lia|].
  destruct (zget filter pc) as [f|] eqn:Ef; cbn [mbind option_bind]; [|done].
  destruct (chk_insn f pc flen) eqn:Ec; [|done]. intros H i Hi.
  destruct (decide (i = pc)) as [->|]; [eauto|]. apply (IH (pc + 1)); [done|lia].
Qed.

(** Only the two return instructions have class [BPF_RET]. *)
Lemma ret_class o : BPF_CLASS (code_of o) = BPF_RET -> o = RET_K \/ o = RET_A.
Proof.
  destruct o as [[] []| | |[] []|[]|[]| | | | | | | | | | | | |]; try done; auto.
Qed.

Lemma chk_filter_spec filter flen : sk_chk_filter filter flen = Some 0 ->
  0 <= flen ->
  0 < flen <= BPF_MAXINSNS /\
  (forall i, 0 <= i < flen -> exists f, zget filter i = Some f /\ chk_insn f i flen = true) /\
  exists f, zget filter (flen - 1) = Some f /\
    (opcode_of (code f) = Some RET_K \/ opcode_of (code f) = Some RET_A).
Proof.
  unfold sk_chk_filter. intros H H0.
  destruct (Z.eqb_spec flen 0); [done|]. destruct (Z.ltb_spec BPF_MAXINSNS flen); [done|].
  cbn [orb] in H. destruct (chk_loop _ _ _ _) as [[]|] eqn:E; cbn [mbind option_bind negb] in H; try done.
  destruct (zget filter (flen - 1)) as [f|] eqn:Ef; cbn [mbind option_bind] in H; [|done].
  destruct (Z.eqb_spec (BPF_CLASS (code f)) BPF_RET) as [Hc|]; [|done].
  assert (Hall := chk_loop_ok _ _ _ _ E). rewrite Z2Nat.id in Hall by lia.
  split; [lia|]. split; [intros i Hi; apply Hall; lia|]. exists f. split; [done|].
  destruct (Hall (flen - 1)) as (f' & Ef' & Hf); [lia|]. rewrite Ef in Ef'. injection Ef' as <-.
  unfold chk_insn in Hf. destruct (opcode_of (code f)) as [o|] eqn:Eo; [|done].
  apply opcode_of_code in Eo. rewrite <- Eo in Hc. apply ret_class in Hc as [->| ->]; auto.
Qed.

(** ** Loads stay inside the packet *)

Lemma be_value_range bs : forall m a, bytes bs -> 0 <= m -> 0 <= a < 2 ^ (8 * m) ->
  0 <= fold_left (fun a b => Z.lor (Z.shiftl a 8) b) bs a < 2 ^ (8 * (m + len bs)).
Proof.
  induction bs as [|b bs IH]; intros m a Hb Hm Ha; cbn [fold_left length].
  { by rewrite Nat2Z.inj_0, Z.add_0_r. }
  apply Forall_cons in Hb as [Hb Hbs].
  replace (m + Z.of_nat (S (length bs))) with (m + 1 + len bs) by lia. apply IH; [done|lia|].
  replace (8 * (m + 1)) with (8 * m + 8) by lia. apply lor_range; [lia| |].
  - rewrite Z.shiftl_mul_pow2, Z.pow_add_r by lia. nia.
  - unfold is_u8 in Hb. split; [lia|]. apply Z.lt_le_trans with (2 ^ 8); [lia|].
    apply Z.pow_le_mono_r; lia.
Qed.

Lemma be_value_u32 bs : bytes bs -> len bs <= 4 -> is_u32 (be_value bs).
Proof.
  intros Hb Hl. pose proof (be_value_range bs 0 0 Hb ltac:(lia) ltac:(simpl; lia)) as [H0 H1].
  split; [done|]. apply Z.lt_le_trans with (1 := H1). apply Z.pow_le_mono_r; lia.
Qed.

Lemma skb_contents_bytes skb : skb_ok skb -> bytes (contents skb).
Proof.
  induction skb as [skb IH] using sk_buff_nested_ind.
  intros (_ & _ & _ & _ & Hb & Hf & _ & _ & Hl)%skb_ok_unfold. rewrite contents_unfold.
  apply Forall_app; split; [by apply slice_bytes|]. apply Forall_app; split.
  - by apply Forall_concat.
  - apply Forall_concat, Forall_fmap. clear - IH Hl.
    induction IH as [|s l Hs _ IHl]; [constructor|]. apply Forall_cons in Hl as [? ?].
    constructor; [by apply Hs|by apply IHl].
Qed.

(** Where a load of [n] bytes at offset [k] may read: for [k >= 0] the packet's own
    bytes [k .. k + n), otherwise from a first byte between [skb->head] and
    [skb->tail] on. *)
Definition load_target (skb : sk_buff) (k n : Z) (p : skb_ptr) (bs : list Z) : Prop :=
  if 0 <=? k then k + n <= skb_len skb /\ bs = slice (contents skb) k n
  else exists off, p = InSkb off /\ 0 <= off < tail skb /\ bs = slice (head_mem skb) off n.

(** A load pointer is NULL or shows [n] bytes. *)
Lemma load_pointer_ok skb k n : pkt_ok skb -> is_s32 k -> 0 < n <= 4 ->
  exists r, load_pointer skb k n = Some r /\
    forall p, r = Some p -> exists bs, deref skb p n = Some bs /\ bytes bs /\ len bs = n /\
      load_target skb k n p bs.
Proof.
  intros (Hok & H31 & _) Hk Hn. unfold is_s32 in Hk. unfold load_pointer, load_target.
  destruct (Z.leb_spec 0 k).
  - pose proof (skb_header_pointer_ok skb k n Hok H31 ltac:(lia) ltac:(lia)) as Hp.
    destruct (Z.leb_spec (k + n) (skb_len skb)).
    + destruct Hp as (p & -> & Hd). eexists; split; [done|]. intros p' [= <-].
      pose proof Hok as (_ & _ & _ & _ & _ & _ & _ & El & _)%skb_ok_unfold.
      eexists; split; [done|]. split; [by apply slice_bytes, skb_contents_bytes|].
      split; [apply len_slice; lia|]. split; [lia|done].
    + rewrite Hp. by eexists.
  - destruct (SKF_AD_OFF <=? k); [by eexists|]. eexists; split; [done|]. intros p Hp.
    assert (exists off, p = InSkb off /\ 0 <= off < tail skb) as (off & -> & Ho).
    { unfold __load_pointer in Hp.
      destruct (SKF_NET_OFF <=? k), (SKF_LL_OFF <=? k); try done;
        match type of Hp with context [InSkb ?o] => exists o end;
        revert Hp; split_cmp; simpl; try done; intros [= <-]; split; [done|lia|done|lia|done|lia]. }
    pose proof Hok as (_ & _ & _ & Ht & Hb & _)%skb_ok_unfold. cbn [deref].
    rewrite mem_read_slice by lia. eexists; split; [done|]. split; [by apply slice_bytes|].
    split; [apply len_slice; lia|]. exists off. split_and!; done || lia.
Qed.

(** ** The attribute walk *)

Lemma get_u16_ok skb off : bytes (head_mem skb) -> 0 <= off -> off + 2 <= len (head_mem skb) ->
  exists v, get_u16 skb off = Some v /\ is_u16 v.
Proof.
  intros Hb Ho Hl. unfold get_u16. rewrite mem_read_slice by lia. cbn. eexists; split; [done|].
  assert (Hs : bytes (slice (head_mem skb) off 2)) by by apply slice_bytes.
  assert (Hl2 : len (slice (head_mem skb) off 2) = 2) by (apply len_slice; lia).
  destruct (slice _ _ _) as [|a [|b [|]]]; simpl in Hl2; try lia.
  apply Forall_cons in Hs as [Ha Hs]. apply Forall_cons in Hs as [Hb' _].
  unfold zat, zget, is_u16, is_u8 in *. simpl. lia.
Qed.

Lemma NLA_ALIGN_le n : 0 <= n -> n <= NLA_ALIGN n.
Proof.
  intros. unfold NLA_ALIGN. rewrite <- Z.ldiff_land. change 3 with (Z.ones 2) at 2.
  rewrite Z.ldiff_ones_r by lia. rewrite Z.shiftl_mul_pow2, Z.shiftr_div_pow2 by lia.
  change (2 ^ 2) with 4. Z.to_euclidean_division_equations. lia.
Qed.

(** A walk over [rem] bytes that lie inside the linear area stays inside it. *)
Lemma nla_find_ok skb ty fuel : forall off rem, bytes (head_mem skb) -> 0 <= off ->
  off + rem <= len (head_mem skb) -> rem < Z.of_nat fuel -> (0 < fuel)%nat ->
  nla_find_loop fuel skb off rem ty <> NlaBad.
Proof.
  induction fuel as [|fuel IH]; intros off rem Hb Ho Hl Hf Hf0; [lia|]. cbn [nla_find_loop].
  unfold nla_ok, sizeof_nlattr. destruct (Z.leb_spec 4 rem); cbn [negb]; [|done].
  destruct (get_u16_ok skb off Hb) as (l & -> & Hlr); [lia..|]. cbn [mbind option_bind].
  destruct (Z.leb_spec 4 l); [|done]. destruct (Z.leb_spec l rem); [|done]. cbn [andb].
  unfold nla_type. destruct (get_u16_ok skb (off + 2) Hb) as (t & -> & Htr); [lia..|].
  cbn [mbind option_bind]. destruct (_ =? ty); [done|].
  pose proof (NLA_ALIGN_le l ltac:(lia)). apply IH; try done; lia.
Qed.

Lemma s32_le x : is_u32 x -> s32 x <= x.
Proof.
  intros [H1 H2]. unfold s32, swrap. destruct (Z.ltb_spec x (2 ^ 31)).
  - rewrite Z.mod_small by lia. lia.
  - change (32 - 1) with 31 in *. replace ((x + 2 ^ 31) mod 2 ^ 32) with (x - 2 ^ 31); [lia|].
    apply Z.mod_unique with 1; lia.
Qed.

(** ** Running a checked instruction *)

(** What can crash a checked program: no device, an attribute search in a packet
    shorter than an attribute header, a nested search. *)
Definition excused (skb : sk_buff) (c : fault) : Prop :=
  match c with
  | OutOfBounds | DivByZero => False
  | NullDev => dev_ifindex skb = None
  | NlattrOut => skb_is_nonlinear skb = false /\ skb_len skb < sizeof_nlattr
  | NestOut => skb_is_nonlinear skb = false
  end.

Definition flow_ok (skb : sk_buff) (s : regs) (r : flow) : Prop :=
  match r with
  | Continue s' => regs_ok s' /\ pc s' = pc s
  | Return v => is_u32 v
  | Crash c => excused skb c
  end.

Lemma setA_ok skb s a : regs_ok s -> is_u32 a -> flow_ok skb s (Continue (setA s a)).
Proof. intros (_ & ? & ? & ?) ?. split; [|done]. split_and!; done. Qed.
Lemma setX_ok skb s x : regs_ok s -> is_u32 x -> flow_ok skb s (Continue (setX s x)).
Proof. intros (? & _ & ? & ?) ?. split; [|done]. split_and!; done. Qed.

Lemma u32_zero : is_u32 0.
Proof. unfold is_u32. lia. Qed.

Lemma nla_flow_ok skb s bad r : regs_ok s -> (r = NlaBad -> excused skb bad) ->
  flow_ok skb s (nla_flow skb s bad r).
Proof.
  intros Hs Hbad. destruct r; cbn [nla_flow].
  - apply setA_ok; [done|]. apply u32_range.
  - apply setA_ok; [done|]. apply u32_zero.
  - by apply Hbad.
Qed.

Lemma ancillary_ok skb s k : pkt_ok skb -> regs_ok s -> flow_ok skb s (ancillary skb s k).
Proof.
  intros (Hok & H31 & Hp & Ht) Hs. unfold ancillary.
  destruct (_ =? SKF_AD_PROTOCOL).
  { apply setA_ok; [done|]. unfold ntohs. destruct Hp as [Hp0 Hp1].
    assert (0 <= Z.lor (u16 (Z.shiftl (protocol skb) 8)) (Z.shiftr (protocol skb) 8) < 2 ^ 16).
    { apply lor_range; [lia|apply u16_range|]. apply shiftr_range; lia. }
    unfold is_u32. lia. }
  destruct (_ =? SKF_AD_PKTTYPE); [by apply setA_ok|].
  destruct (_ =? SKF_AD_IFINDEX).
  { destruct (dev_ifindex skb) eqn:E; [|done]. apply setA_ok; [done|]. apply u32_range. }
  destruct (_ =? SKF_AD_NLATTR).
  { destruct (skb_is_nonlinear skb) eqn:En; [apply u32_zero|].
    destruct (Z.ltb_spec (u32 (skb_len skb - sizeof_nlattr)) (rA s)) as [|Hle]; [apply u32_zero|].
    apply nla_flow_ok; [done|]. intros Hbad. split; [done|].
    destruct (Z.ltb_spec (skb_len skb) sizeof_nlattr) as [|Hlen]; [done|]. exfalso. revert Hbad.
    pose proof (skb_headlen_ok skb Hok) as Hh.
    pose proof Hok as (Hd & _ & Hdl & _ & Hb & _ & Hl32 & _)%skb_ok_unfold.
    assert (Hhl : skb_headlen skb = skb_len skb).
    { unfold skb_is_nonlinear in En. rewrite Hh. destruct (Z.eqb_spec (data_len skb) 0); [lia|done]. }
    pose proof Hs as ((HA0 & HA1) & _). unfold sizeof_nlattr, is_u32 in *.
    rewrite u32_id in Hle by (unfold is_u32; lia).
    pose proof (s32_le (skb_len skb - rA s) ltac:(unfold is_u32; lia)).
    apply nla_find_ok; try done; lia. }
  destruct (_ =? SKF_AD_NLATTR_NEST); [|apply u32_zero].
  destruct (skb_is_nonlinear skb) eqn:En; [apply u32_zero|].
  destruct (_ <? rA s); [apply u32_zero|].
  destruct (get_u16 _ _); [|done]. destruct (_ <? _); [apply u32_zero|].
  by apply nla_flow_ok.
Qed.

Lemma exec_load_ok skb s w k : pkt_ok skb -> is_s32 k -> regs_ok s -> flow_ok skb s (exec_load skb s w k).
Proof.
  intros Hp Hk Hs. unfold exec_load.
  assert (Hw : 0 < width_bytes w <= 4) by (destruct w; simpl; lia).
  destruct (load_pointer_ok skb k (width_bytes w) Hp Hk Hw) as (r & -> & Hr).
  destruct r as [p|]; [|by apply ancillary_ok].
  destruct (Hr p eq_refl) as (bs & -> & Hb & Hl & _). apply setA_ok; [done|].
  apply be_value_u32; [done|lia].
Qed.

Lemma exec_alu_ok op a v r : is_u32 a -> is_u32 v -> exec_alu op a v = Some r -> is_u32 r.
Proof.
  intros Ha Hv. destruct op; cbn [exec_alu]; try (intros [= <-]).
  1,2,3: apply u32_range.
  - destruct (Z.eqb_spec v 0); [done|]. intros [= <-]. unfold is_u32 in *.
    split; [apply Z.div_pos; lia|]. apply Z.div_lt_upper_bound; nia.
  - apply land_range; [lia|done].
  - apply lor_range; [lia|done|done].
  - unfold arm_lsl. case_match; [apply u32_range|apply u32_zero].
  - unfold arm_lsr. case_match; [|apply u32_zero]. apply shiftr_range; [lia| |done].
    pose proof (u8_range v). lia.
Qed.

(** A step that goes on does so at the next instruction or further ahead, and a
    jump lands inside the program. *)
Definition step_ok (skb : sk_buff) (flen : Z) (s : regs) (r : flow) : Prop :=
  match r with
  | Continue s' => regs_ok s' /\ (pc s' = pc s \/ pc s <= pc s' /\ pc s' + 1 < flen)
  | Return v => is_u32 v
  | Crash c => excused skb c
  end.

Lemma flow_step skb flen s r : flow_ok skb s r -> step_ok skb flen s r.
Proof. destruct r; simpl; [|done..]. intros [? ?]. auto. Qed.

Lemma jump_ok skb flen s d : regs_ok s -> 0 <= pc s -> flen <= BPF_MAXINSNS ->
  0 <= d -> pc s + d + 1 < flen -> step_ok skb flen s (Continue (jump s d)).
Proof.
  unfold BPF_MAXINSNS. intros (? & ? & ? & ?) Hpc Hfl Hd Hlt.
  assert (E : pc (jump s d) = pc s + d) by (simpl; apply s32_id; unfold is_s32; lia).
  split; [split_and!; done|]. right. rewrite E. lia.
Qed.

Lemma mem_insert_ok s i v : regs_ok s -> is_u32 v ->
  regs_ok (mk_regs (pc s) (rA s) (rX s) (<[i := v]> (mem s))).
Proof.
  intros (? & ? & Hl & Hm) Hv. split_and!; try done; simpl.
  - by rewrite length_insert.
  - by apply Forall_insert.
Qed.

Lemma exec_insn_ok skb flen f s : pkt_ok skb -> regs_ok s -> insn_ok f ->
  0 <= pc s < flen -> flen <= BPF_MAXINSNS -> chk_insn f (pc s) flen = true ->
  step_ok skb flen s (exec_insn skb f s).
Proof.
  intros Hp Hs (_ & Hjt & Hjf & Hk) Hpc Hfl Hc. pose proof Hs as (HA & HX & Hml & Hm).
  assert (Hlen : is_u32 (skb_len skb)) by (destruct Hp as [H _]; apply skb_ok_unfold in H; tauto).
  assert (Hsrc : forall x : bool, is_u32 (if x then rX s else k f)) by (intros []; done).
  unfold exec_insn, chk_insn in *. destruct (opcode_of (code f)) as [o|]; [|done].
  unfold is_u8, BPF_MEMWORDS, BPF_MAXINSNS in *.
  destruct o as [op x| | |op x|w|w| | | | | | | | | | | | |];
    try (apply flow_step; first [apply setA_ok|apply setX_ok]; [done|]; (done || apply u32_range));
    try (apply flow_step, exec_load_ok; [done|apply s32_range|done]); try done.
  - (* ALU *)
    assert (Hcase : forall op x, (op = DIV -> x = false /\ k f <> 0) ->
      step_ok skb flen s (match exec_alu op (rA s) (if x then rX s else k f) with
        | Some a => Continue (setA s a) | None => Crash DivByZero end)).
    { intros op' x' Hd. destruct (exec_alu op' _ _) as [a|] eqn:E.
      - apply flow_step, setA_ok; [done|]. by eapply exec_alu_ok; [..|exact E].
      - destruct op'; try done. destruct (Hd eq_refl) as [-> Hk0]. simpl in E.
        destruct (Z.eqb_spec (k f) 0); done. }
    destruct op; [by apply (Hcase ADD x)|by apply (Hcase SUB x)|by apply (Hcase MUL x)| |
      by apply (Hcase AND x)|by apply (Hcase OR x)|by apply (Hcase LSH x)|by apply (Hcase RSH x)].
    destruct x.
    + destruct (Z.eqb_spec (rX s) 0); [apply u32_zero|]. apply flow_step, setA_ok; [done|].
      eapply (exec_alu_ok DIV (rA s) (rX s)); [done..|]. simpl.
      destruct (Z.eqb_spec (rX s) 0); done.
    + apply (Hcase DIV false). destruct (Z.eqb_spec (k f) 0); done.
  - (* JA *)
    unfold is_u32 in *. rewrite u32_id in Hc by (unfold is_u32; lia).
    destruct (Z.leb_spec (flen - pc s - 1) (k f)); [done|]. apply jump_ok; done || lia.
  - (* conditional jumps *)
    destruct (Z.leb_spec flen (pc s + jt f + 1)); [done|].
    destruct (Z.leb_spec flen (pc s + jf f + 1)); [done|].
    apply jump_ok; try done; try lia; destruct (exec_jcc _ _ _); lia.
  - (* LDX MSH *)
    destruct (load_pointer_ok skb (s32 (k f)) 1 Hp (s32_range _) ltac:(lia)) as (r & -> & Hr).
    destruct r as [p|]; [|apply u32_zero]. destruct (Hr p eq_refl) as (bs & -> & Hb & Hl & _).
    apply flow_step, setX_ok; [done|]. change 0xf with (2 ^ 4 - 1).
    rewrite land_mask, Z.shiftl_mul_pow2 by lia.
    pose proof (Z.mod_pos_bound (be_value bs) (2 ^ 4) ltac:(lia)). unfold is_u32. lia.
  - (* LD MEM *)
    destruct (Z.leb_spec 16 (k f)); [done|]. unfold is_u32 in *.
    rewrite zget_zat by lia. apply flow_step, setA_ok; [done|].
    eapply (Forall_lookup_1 _ _ (Z.to_nat (k f))); [exact Hm|]. rewrite lookup_zat by lia.
    do 2 f_equal. lia.
  - (* LDX MEM *)
    destruct (Z.leb_spec 16 (k f)); [done|]. unfold is_u32 in *.
    rewrite zget_zat by lia. apply flow_step, setX_ok; [done|].
    eapply (Forall_lookup_1 _ _ (Z.to_nat (k f))); [exact Hm|]. rewrite lookup_zat by lia.
    do 2 f_equal. lia.
  - destruct (Z.leb_spec 16 (k f)); [done|]. unfold is_u32 in Hk.
    rewrite zset_spec by lia. split; [by apply mem_insert_ok|by left].
  - destruct (Z.leb_spec 16 (k f)); [done|]. unfold is_u32 in Hk.
    rewrite zset_spec by lia. split; [by apply mem_insert_ok|by left].
Qed.

(** A checked program from an instruction inside it. *)
Lemma run_loop_ok skb filter flen : pkt_ok skb -> Forall insn_ok filter ->
  sk_chk_filter filter flen = Some 0 -> 0 <= flen -> forall fuel s,
  regs_ok s -> 0 <= pc s < flen -> flen - pc s <= Z.of_nat fuel ->
  match run_loop fuel skb filter flen s with
  | Ret v => is_u32 v
  | Crashed c => excused skb c
  | OutOfFuel => False
  end.
Proof.
  intros Hp Hf Hchk H0. destruct (chk_filter_spec _ _ Hchk H0) as (Hfl & Hall & last & Hlast & Hret).
  induction fuel as [|fuel IH]; intros s Hs Hpc Hfuel; [lia|]. cbn [run_loop].
  destruct (Z.ltb_spec (pc s) flen); [|lia].
  destruct (Hall (pc s) Hpc) as (f & Ef & Hc). rewrite Ef.
  assert (Hi : insn_ok f).
  { rewrite zget_lookup in Ef by lia. by apply (Forall_lookup_1 _ _ _ _ Hf Ef). }
  pose proof (exec_insn_ok skb flen f s Hp Hs Hi ltac:(lia) ltac:(lia) Hc) as Hst.
  destruct (exec_insn skb f s) as [s'|v|c] eqn:Ex; try done.
  assert (Hne : pc s <> flen - 1).
  { intros E. rewrite E, Hlast in Ef. injection Ef as <-. unfold exec_insn in Ex.
    destruct Hret as [Hr|Hr]; rewrite Hr in Ex; done. }
  destruct Hst as [(? & ? & ? & ?) Hpc']. unfold BPF_MAXINSNS in Hfl.
  assert (E : s32 (pc s' + 1) = pc s' + 1) by (apply s32_id; unfold is_s32; lia).
  apply IH; cbn [pc]; rewrite ?E; [split_and!; done|lia|lia].
Qed.

(** ** Attaching a filter to a socket *)

Definition sizeof_sock_filter : Z := 8.
Definition sizeof_sk_filter : Z := 16.

(** An attached filter ([struct sk_filter]) and the part of the socket that holds
    it: the pointer and the option memory charged to the socket. *)
Record sk_filter_t := mk_fp { fp_len : Z; insns : list sock_filter }.
Record sock := mk_sock { sk_filter_ptr : option sk_filter_t; sk_omem_alloc : Z }.

Definition sk_filter_len (fp : sk_filter_t) : Z :=
  u32 (fp_len fp * sizeof_sock_filter + sizeof_sk_filter).

Definition charge (sk : sock) (n : Z) : sock := mk_sock (sk_filter_ptr sk) (sk_omem_alloc sk + n).

(** [optmem_max]: [sysctl_optmem_max]; [kmalloc_ok]: the allocator's answer. *)
Definition sock_kmalloc (sk : sock) (size optmem_max : Z) (kmalloc_ok : bool) : sock * bool :=
  if (u32 size <=? optmem_max) && (sk_omem_alloc sk + size <? optmem_max) && kmalloc_ok
  then (charge sk size, true) else (sk, false).

Definition sock_kfree_s (sk : sock) (size : Z) : sock := charge sk (- size).
Definition sk_filter_uncharge (sk : sock) (fp : sk_filter_t) : sock := charge sk (- sk_filter_len fp).
Definition sk_filter_delayed_uncharge (sk : sock) (fp : sk_filter_t) : sock :=
  charge sk (- sk_filter_len fp).

(** [fprog]: the length and, unless the pointer is NULL, the user's program;
    [None] inside: reading it faults. *)
Definition sk_attach_filter (sk : sock) (flen : Z) (filter : option (option (list sock_filter)))
    (optmem_max : Z) (kmalloc_ok : bool) : option (sock * Z) :=
  let fsize := u32 (sizeof_sock_filter * flen) in
  match filter with
  | None => Some (sk, - EINVAL)
  | Some user =>
      let '(sk, ok) := sock_kmalloc sk (fsize + sizeof_sk_filter) optmem_max kmalloc_ok in
      if negb ok then Some (sk, - ENOMEM) else
      match user with
      | None => Some (sock_kfree_s sk (fsize + sizeof_sk_filter), - EFAULT)
      | Some insns =>
          let fp := mk_fp flen insns in
          err ← sk_chk_filter insns flen;
          if negb (err =? 0) then Some (sk_filter_uncharge sk fp, err) else
          let old_fp := sk_filter_ptr sk in
          let sk := mk_sock (Some fp) (sk_omem_alloc sk) in
          Some (match old_fp with Some o => sk_filter_delayed_uncharge sk o | None => sk end, 0)
      end
  end.

Definition sk_detach_filter (sk : sock) : sock * Z :=
  match sk_filter_ptr sk with
  | Some fp => (sk_filter_delayed_uncharge (mk_sock None (sk_omem_alloc sk)) fp, 0)
  | None => (sk, - ENOENT)
  end.

(** [security]: the result of [security_sock_rcv_skb]; [pskb_trim]: the result of
    trimming the packet to the length given. *)
Definition sk_filter (sk : sock) (skb : sk_buff) (security : Z) (mem0 : list Z)
    (pskb_trim : Z -> Z) : option (Z + fault) :=
  if negb (security =? 0) then Some (inl security) else
  match sk_filter_ptr sk with
  | None => Some (inl security)
  | Some fp =>
      match sk_run_filter (Z.to_nat (fp_len fp)) skb (insns fp) (fp_len fp) mem0 with
      | Ret pkt_len => Some (inl (if negb (pkt_len =? 0) then pskb_trim pkt_len else - EPERM))
      | Crashed c => Some (inr c)
      | OutOfFuel => None
      end
  end.

(** The socket calls, in any order, from a socket without a filter that has
    [base] bytes charged for other reasons. *)
Inductive sock_reach (base : Z) : sock -> Prop :=
  | sr_new : sock_reach base (mk_sock None base)
  | sr_attach sk flen filter optmem_max km sk' r :
      sock_reach base sk -> is_u16 flen ->
      (forall l, filter = Some (Some l) -> len l = flen /\ Forall insn_ok l) ->
      sk_attach_filter sk flen filter optmem_max km = Some (sk', r) -> sock_reach base sk'
  | sr_detach sk : sock_reach base sk -> sock_reach base (fst (sk_detach_filter sk)).

Definition sock_inv (base : Z) (sk : sock) : Prop :=
  match sk_filter_ptr sk with
  | None => sk_omem_alloc sk = base
  | Some fp => sk_omem_alloc sk = base + sk_filter_len fp /\ 0 <= fp_len fp /\
      sk_chk_filter (insns fp) (fp_len fp) = Some 0 /\ Forall insn_ok (insns fp)
  end.

Lemma filter_sizes flen : is_u16 flen ->
  u32 (sizeof_sock_filter * flen) + sizeof_sk_filter = sk_filter_len (mk_fp flen []).
Proof.
  unfold is_u16, sk_filter_len, sizeof_sock_filter, sizeof_sk_filter. intros H. cbn [fp_len].
  rewrite !u32_id by (unfold is_u32; lia). lia.
Qed.

Lemma attach_inv base sk flen filter om km sk' r : sock_inv base sk -> is_u16 flen ->
  (forall l, filter = Some (Some l) -> len l = flen /\ Forall insn_ok l) ->
  sk_attach_filter sk flen filter om km = Some (sk', r) -> sock_inv base sk'.
Proof.
  intros Hinv Hfl Hl. unfold sk_attach_filter. rewrite filter_sizes by done.
  destruct filter as [user|]; [|by intros [= <- <-]]. unfold sock_kmalloc.
  destruct (_ && km); cbn [negb]; [|by intros [= <- <-]].
  set (n := sk_filter_len (mk_fp flen [])).
  assert (Hback : sock_inv base (charge (charge sk n) (- n))).
  { unfold charge. simpl. rewrite <- Z.add_assoc, Z.add_opp_diag_r, Z.add_0_r. by destruct sk. }
  destruct user as [l|]; [|by intros [= <- <-]].
  destruct (Hl l eq_refl) as [Hlen Hok].
  destruct (sk_chk_filter l flen) as [err|] eqn:Ec; cbn [mbind option_bind]; [|done].
  destruct (Z.eqb_spec err 0) as [->|]; cbn [negb]; [|by intros [= <- <-]].
  intros [= <- <-]. unfold is_u16 in Hfl.
  assert (Hn : sk_filter_len (mk_fp flen l) = n) by done.
  unfold sock_inv in Hinv. destruct (sk_filter_ptr sk) as [o|] eqn:Eo; simpl; rewrite ?Eo;
    unfold sock_inv; simpl; rewrite Hn; split_and!; try done; try lia.
Qed.

(** An attach call replaces the filter or changes nothing. *)
Lemma attach_effect sk flen filter om km sk' r : is_u16 flen ->
  sk_attach_filter sk flen filter om km = Some (sk', r) ->
  if r =? 0 then exists l, filter = Some (Some l) /\ sk_filter_ptr sk' = Some (mk_fp flen l)
  else sk' = sk.
Proof.
  intros Hfl. unfold sk_attach_filter. rewrite filter_sizes by done.
  destruct filter as [user|]; [|by intros [= <- <-]]. unfold sock_kmalloc.
  destruct (_ && km); cbn [negb]; [|by intros [= <- <-]].
  set (n := sk_filter_len (mk_fp flen [])).
  assert (Hback : charge (charge sk n) (- n) = sk).
  { unfold charge. simpl. rewrite <- Z.add_assoc, Z.add_opp_diag_r, Z.add_0_r. by destruct sk. }
  destruct user as [l|]; [|by intros [= <- <-]].
  destruct (sk_chk_filter l flen) as [err|]; cbn [mbind option_bind]; [|done].
  destruct (Z.eqb_spec err 0) as [->|]; cbn [negb].
  - intros [= <- <-]. exists l. split; [done|]. simpl. by destruct (sk_filter_ptr sk).
  - intros [= <- <-]. destruct (Z.eqb_spec err 0); [done|exact Hback].
Qed.

Lemma sock_reach_inv base sk : sock_reach base sk -> sock_inv base sk.
Proof.
  induction 1 as [|sk flen filter om km sk' r _ IH Hfl Hl E|sk _ IH].
  - reflexivity.
  - by apply (attach_inv base sk flen filter om km sk' r).
  - unfold sk_detach_filter. destruct (sk_filter_ptr sk) as [fp|] eqn:Ef; [|done].
    unfold sock_inv in *. rewrite Ef in IH. simpl. lia.
Qed.

(** ** Theorems *)

(** C2: a filter that [sk_chk_filter] accepts is safe to run.  On every
    well-formed packet (below 2^31 bytes) and whatever the scratch memory holds at
    the start, [sk_run_filter] ends within [flen] steps with a 32-bit value: no
    access outside the program, the scratch memory or the packet's allocation, no
    division by zero.  A load at a non-negative offset reads exactly the packet's
    bytes at that offset.  A load relative to the network or link-layer header has
    its first byte between [skb->head] and [skb->tail]; the code checks no more
    than that, so a load of 2 or 4 bytes may run up to 3 bytes past the tail, and
    [skb_ok] asks for that much allocation behind it (it is there: the shared info
    of the buffer), for nothing more.  The exceptions are the ancillary loads: the
    interface index of a packet without device, a netlink attribute search in a
    packet of under 4 bytes, and a nested search. *)
Theorem sk_chk_filter_sound filter flen skb mem0 :
  sk_chk_filter filter flen = Some 0 -> 0 <= flen -> Forall insn_ok filter -> pkt_ok skb ->
  len mem0 = BPF_MEMWORDS -> Forall is_u32 mem0 ->
  match sk_run_filter (Z.to_nat flen) skb filter flen mem0 with
  | Ret v => is_u32 v
  | Crashed c => excused skb c
  | OutOfFuel => False
  end /\
  forall k w, is_s32 k -> exists r, load_pointer skb k (width_bytes w) = Some r /\
    forall p, r = Some p -> exists bs, deref skb p (width_bytes w) = Some bs /\
      load_target skb k (width_bytes w) p bs.
Proof.
  intros Hchk H0 Hf Hp Hl Hm. destruct (chk_filter_spec _ _ Hchk H0) as (Hfl & _). split.
  - apply run_loop_ok; try done; simpl; lia.
  - intros k w Hk.
    destruct (load_pointer_ok skb k (width_bytes w) Hp Hk) as (r & Er & Hr); [destruct w; simpl; lia|].
    exists r. split; [done|]. intros p Ep. destruct (Hr p Ep) as (bs & Ed & _ & _ & Ht). by exists bs.
Qed.

(** A filter on the first packet byte: accept 5 and up, with a division. *)
Definition demo_filter : list sock_filter :=
  [mk_insn (code_of (LD_ABS B)) 0 0 0; mk_insn (code_of (JCC JGE false)) 0 1 5;
   mk_insn (code_of RET_K) 0 0 0xffff; mk_insn (code_of (ALU DIV false)) 0 0 2;
   mk_insn (code_of ST) 0 0 3; mk_insn (code_of LD_MEM) 0 0 3; mk_insn (code_of RET_A) 0 0 0].

Lemma insns_check l :
  forallb (fun f => (0 <=? code f) && (code f <? 2 ^ 16) && (0 <=? jt f) && (jt f <? 2 ^ 8) &&
    (0 <=? jf f) && (jf f <? 2 ^ 8) && (0 <=? k f) && (k f <? 2 ^ 32)) l = true ->
  Forall insn_ok l.
Proof.
  rewrite forallb_forall. intros H. apply Forall_forall. intros f Hf%list_elem_of_In.
  specialize (H f Hf). unfold insn_ok, is_u8, is_u16, is_u32.
  rewrite !andb_true_iff, !Z.leb_le, !Z.ltb_lt in H. tauto.
Qed.

Lemma demo_filter_ok : Forall insn_ok demo_filter.
Proof.
  apply insns_check. reflexivity.
Qed.

Lemma demo_pkt_ok : pkt_ok demo_skb.
Proof. split; [exact demo_skb_ok|]. unfold is_u16, is_u32. simpl. lia. Qed.

Lemma sk_chk_filter_sound_witness :
  match sk_run_filter 7 demo_skb demo_filter 7 (replicate 16 0) with
  | Ret v => is_u32 v
  | Crashed c => excused demo_skb c
  | OutOfFuel => False
  end /\ sk_run_filter 7 demo_skb demo_filter 7 (replicate 16 0) = Ret 0.
Proof.
  split; [|reflexivity].
  refine (proj1 (sk_chk_filter_sound demo_filter 7 demo_skb (replicate 16 0) _ _ _ _ _ _));
    [reflexivity|lia|exact demo_filter_ok|exact demo_pkt_ok|reflexivity|].
  apply Forall_replicate. unfold is_u32. lia.
Defined.

(** The first byte of a load relative to a header is checked, the last is not: a
    32-bit load at the last byte before the tail reads three bytes behind it. *)
Theorem bpf_reads_past_tail :
  exists filter skb, Forall insn_ok filter /\ pkt_ok skb /\ sk_chk_filter filter 2 = Some 0 /\
    contents skb = [1; 2] /\ sk_run_filter 2 skb filter 2 (replicate 16 0) = Ret 0x02aabbcc.
Proof.
  exists [mk_insn (code_of (LD_ABS W)) 0 0 0xfff00001; mk_insn (code_of RET_A) 0 0 0],
    (mk_skb [1; 2; 0xaa; 0xbb; 0xcc] 0 2 0 0 2 0 0 0 None [] []).
  split_and!; try reflexivity.
  - apply insns_check. reflexivity.
  - split; [|unfold is_u16, is_u32; simpl; lia].
    repeat split; try (simpl; lia); try (apply bytes_check; reflexivity); try done.
Qed.

(** C39: over every sequence of attach and detach calls, failing ones included, a
    socket only ever holds a filter [sk_chk_filter] accepts, and its option memory
    is charged for exactly that filter; an attach call either succeeds and makes
    the program given the socket's filter, or fails and leaves the socket as it
    was.  Receiving a packet ([sk_filter]) returns the security module's error if
    there is one, 0 on a socket without filter, and otherwise runs the socket's
    filter on the packet: its value 0 gives [-EPERM], any other value the result
    of trimming the packet to that length; a crash is one of the excused cases. *)
Theorem sk_filter_attached_safe base sk :
  sock_reach base sk ->
  (forall fp, sk_filter_ptr sk = Some fp -> 0 <= fp_len fp /\
     sk_chk_filter (insns fp) (fp_len fp) = Some 0) /\
  sk_omem_alloc sk = base + match sk_filter_ptr sk with Some fp => sk_filter_len fp | None => 0 end /\
  (forall flen filter om km sk' r, is_u16 flen -> sk_attach_filter sk flen filter om km = Some (sk', r) ->
     if r =? 0 then exists l, filter = Some (Some l) /\ sk_filter_ptr sk' = Some (mk_fp flen l)
     else sk' = sk) /\
  forall skb security mem0 trim, pkt_ok skb -> len mem0 = BPF_MEMWORDS -> Forall is_u32 mem0 ->
    sk_filter sk skb security mem0 trim =
      (if negb (security =? 0) then Some (inl security) else
       match sk_filter_ptr sk with
       | None => Some (inl 0)
       | Some fp =>
           match sk_run_filter (Z.to_nat (fp_len fp)) skb (insns fp) (fp_len fp) mem0 with
           | Ret v => Some (inl (if v =? 0 then - EPERM else trim v))
           | Crashed c => Some (inr c)
           | OutOfFuel => None
           end
       end) /\
    match sk_filter sk skb security mem0 trim with
    | Some (inl _) => True
    | Some (inr c) => excused skb c
    | None => False
    end.
Proof.
  intros Hr%sock_reach_inv. split_and!.
  - intros fp Ef. unfold sock_inv in Hr. rewrite Ef in Hr. tauto.
  - unfold sock_inv in Hr. destruct (sk_filter_ptr sk); [tauto|lia].
  - intros flen filter om km sk' r Hfl E. by apply (attach_effect sk flen filter om km sk' r).
  - intros skb sec mem0 trim Hp Hl Hm. unfold sk_filter.
    destruct (Z.eqb_spec sec 0) as [->|]; cbn [negb]; [|done].
    unfold sock_inv in Hr. destruct (sk_filter_ptr sk) as [fp|]; [|done].
    destruct Hr as (_ & H0 & Hchk & Hf). destruct (chk_filter_spec _ _ Hchk H0) as (Hfl & _).
    pose proof (run_loop_ok skb (insns fp) (fp_len fp) Hp Hf Hchk H0 (Z.to_nat (fp_len fp))
      (mk_regs 0 0 0 mem0)) as Hrun. unfold sk_run_filter.
    assert (Hs0 : regs_ok (mk_regs 0 0 0 mem0)) by (split_and!; try done; apply u32_zero).
    specialize (Hrun Hs0 ltac:(simpl; lia) ltac:(simpl; lia)).
    destruct (run_loop _ _ _ _ _) as [v|c|]; [|done..]. by destruct (v =? 0).
Qed.

Lemma sk_filter_attached_safe_witness : exists sk,
  sk_attach_filter (mk_sock None 100) 7 (Some (Some demo_filter)) 10240 true = Some (sk, 0) /\
  sk_omem_alloc sk = 172 /\
  sk_filter sk demo_skb 0 (replicate 16 0) (fun n => n) = Some (inl (- EPERM)).
Proof.
  eexists. split; [reflexivity|].
  refine ((fun H => conj (proj1 (proj2 H)) _) (sk_filter_attached_safe 100 _ _)).
  - destruct H as (_ & _ & _ & H).
    refine (eq_trans (proj1 (H demo_skb 0 (replicate 16 0) (fun n => n) demo_pkt_ok eq_refl _)) _);
      [apply Forall_replicate; unfold is_u32; lia|reflexivity].
  - eapply (sr_attach 100 (mk_sock None 100) 7 (Some (Some demo_filter)) 10240 true);
      [apply sr_new|unfold is_u16; lia| |reflexivity].
    intros l [= <-]. split; [reflexivity|exact demo_filter_ok].
Defined.

(** A nested attribute search trusts the length field of the attribute it
    starts at: the guard compares it with [A - skb->len], which wraps to a huge
    number, so an accepted filter walks outside the buffer of an 8-byte packet. *)
Theorem bpf_nlattr_nest_overread :
  exists filter skb, Forall insn_ok filter /\ pkt_ok skb /\
    sk_chk_filter filter 3 = Some 0 /\ skb_len skb = 8 /\
    sk_run_filter 3 skb filter 3 (replicate 16 0) = Crashed NestOut.
Proof.
  exists [mk_insn (code_of LDX_IMM) 0 0 7; mk_insn (code_of (LD_ABS W)) 0 0 0xfffff010;
          mk_insn (code_of RET_A) 0 0 0],
    (mk_skb [255; 255; 0; 0; 8; 0; 1; 0; 8; 0; 1; 0] 0 8 0 0 8 0 0 0 None [] []).
  split_and!; try reflexivity.
  - apply insns_check. reflexivity.
  - split; [|unfold is_u16, is_u32; simpl; lia].
    repeat split; try (simpl; lia); try (apply bytes_check; reflexivity); try done.
Qed.

(** An attribute search in a packet shorter than an attribute header is not
    refused: [skb->len - sizeof(struct nlattr)] wraps, the index [A] is taken as
    it is, and the walk starts outside the buffer. *)
Theorem bpf_nlattr_short_packet :
  exists filter skb, Forall insn_ok filter /\ pkt_ok skb /\
    sk_chk_filter filter 3 = Some 0 /\ skb_len skb = 2 /\
    sk_run_filter 3 skb filter 3 (replicate 16 0) = Crashed NlattrOut.
Proof.
  exists [mk_insn (code_of LD_IMM) 0 0 0xffffff00; mk_insn (code_of (LD_ABS W)) 0 0 0xfffff00c;
          mk_insn (code_of RET_A) 0 0 0],
    (mk_skb [1; 2; 0; 0; 0; 0; 0; 0] 0 2 0 0 2 0 0 0 None [] []).
  split_and!; try reflexivity.
  - apply insns_check. reflexivity.
  - split; [|unfold is_u16, is_u32; simpl; lia].
    repeat split; try (simpl; lia); try (apply bytes_check; reflexivity); try done.
Qed.

(** The scratch memory is not initialised and the checker does not ask that a
    word be stored before it is loaded: an accepted two-instruction filter
    returns what the kernel stack held. *)
Theorem bpf_stack_leak v rest skb : is_u32 v -> len rest = 15 ->
  let filter := [mk_insn (code_of LD_MEM) 0 0 0; mk_insn (code_of RET_A) 0 0 0] in
  sk_chk_filter filter 2 = Some 0 /\ sk_run_filter 2 skb filter 2 (v :: rest) = Ret v.
Proof. intros. split; reflexivity. Qed.

Lemma bpf_stack_leak_witness :
  sk_run_filter 2 demo_skb
    [mk_insn (code_of LD_MEM) 0 0 0; mk_insn (code_of RET_A) 0 0 0] 2 (0xc0de :: replicate 15 0)
  = Ret 0xc0de.
Proof.
  apply (bpf_stack_leak 0xc0de (replicate 15 0) demo_skb); [unfold is_u32; lia|reflexivity].
Defined.
