(* ===== verification/Ashmem.v ===== *)
(** Android shared memory (mm/ashmem.c, include/linux/ashmem.h): the areas, the
    ranges of unpinned pages each of them keeps in descending order, and the LRU
    list through which the shrinker purges ranges of any area.  The ranges live
    in one store, shared by the area lists and the LRU list. *)
From S2P Require Import Prelude KString.
Local Open Scope kernel_scope.

(** ** Data *)

Record ashmem_range := mk_range { asma : nat; pgstart : Z; pgend : Z; purged : Z }.

(** [file]: whether the backing file exists; [unpinned_list] holds range names. *)
Record ashmem_area := mk_area {
  name : list Z; unpinned_list : list nat; file : bool; size : Z; prot_mask : Z }.

Record ashmem := mk_ashmem {
  areas : gmap nat ashmem_area;
  ranges : gmap nat ashmem_range;
  ashmem_lru_list : list nat;
  lru_count : Z }.

Definition ASHMEM_NAME_LEN : nat := 256.
(** "dev/ashmem" *)
Definition ASHMEM_NAME_DEF : list Z := [100; 101; 118; 47; 97; 115; 104; 109; 101; 109; 0].
Definition ASHMEM_NOT_PURGED : Z := 0.
Definition ASHMEM_WAS_PURGED : Z := 1.
Definition ASHMEM_IS_UNPINNED : Z := 0.
Definition ASHMEM_IS_PINNED : Z := 1.
Definition PROT_READ : Z := 1.
Definition PROT_WRITE : Z := 2.
Definition PROT_EXEC : Z := 4.
Definition PROT_MASK : Z := 7.
Definition VM_SHARED : Z := 8.
Definition VM_CAN_NONLINEAR : Z := 0x08000000.
Definition PAGE_SIZE : Z := 4096.

Definition range_size (r : ashmem_range) : Z := (pgend r -u pgstart r) +u 1.
Definition range_on_lru (r : ashmem_range) : bool := purged r =? ASHMEM_NOT_PURGED.
Definition page_range_subsumes_range (r : ashmem_range) (start end_ : Z) : bool :=
  (start <=? pgstart r) && (pgend r <=? end_).
Definition page_range_subsumed_by_range (r : ashmem_range) (start end_ : Z) : bool :=
  (pgstart r <=? start) && (end_ <=? pgend r).
Definition page_in_range (r : ashmem_range) (page : Z) : bool :=
  (pgstart r <=? page) && (page <=? pgend r).
Definition page_range_in_range (r : ashmem_range) (start end_ : Z) : bool :=
  page_in_range r start || page_in_range r end_ || page_range_subsumes_range r start end_.
Definition range_before_page (r : ashmem_range) (page : Z) : bool := pgend r <? page.

(** ** Ranges *)

Definition set_area (st : ashmem) (a : nat) (A : ashmem_area) : ashmem :=
  mk_ashmem (<[a := A]> (areas st)) (ranges st) (ashmem_lru_list st) (lru_count st).
Definition set_list (A : ashmem_area) (l : list nat) : ashmem_area :=
  mk_area (name A) l (file A) (size A) (prot_mask A).
Definition remove_id (id : nat) (l : list nat) : list nat := filter (fun x => x <> id) l.

Definition lru_add (st : ashmem) (id : nat) (r : ashmem_range) : ashmem :=
  mk_ashmem (areas st) (ranges st) (ashmem_lru_list st ++ [id]) (lru_count st +u range_size r).
Definition lru_del (st : ashmem) (id : nat) (r : ashmem_range) : ashmem :=
  mk_ashmem (areas st) (ranges st) (remove_id id (ashmem_lru_list st))
    (lru_count st -u range_size r).

(** [list_add_tail(new, pos)]: before [pos], or at the end when [pos] is the head. *)
Fixpoint list_add_before (new : nat) (pos : option nat) (l : list nat) : list nat :=
  match l with
  | [] => [new]
  | x :: l' => if decide (pos = Some x) then new :: l else x :: list_add_before new pos l'
  end.

(** [new]: the name of the range [kmem_cache_zalloc] returns, if any; [prev]: the
    range to insert before, [None] for the list head.  [None]: no such area. *)
Definition range_alloc (st : ashmem) (a : nat) (prev : option nat) (purged start end_ : Z)
    (new : option nat) : option (ashmem * Z) :=
  match new with
  | None => Some (st, - ENOMEM)
  | Some id =>
      A ← areas st !! a;
      let r := mk_range a start end_ purged in
      let st := mk_ashmem (<[a := set_list A (list_add_before id prev (unpinned_list A))]> (areas st))
                  (<[id := r]> (ranges st)) (ashmem_lru_list st) (lru_count st) in
      Some (if range_on_lru r then lru_add st id r else st, 0)
  end.

Definition range_del (st : ashmem) (id : nat) : option ashmem :=
  r ← ranges st !! id;
  A ← areas st !! asma r;
  let st := set_area st (asma r) (set_list A (remove_id id (unpinned_list A))) in
  let st := if range_on_lru r then lru_del st id r else st in
  Some (mk_ashmem (areas st) (delete id (ranges st)) (ashmem_lru_list st) (lru_count st)).

Definition range_shrink (st : ashmem) (id : nat) (start end_ : Z) : option ashmem :=
  r ← ranges st !! id;
  let pre := range_size r in
  let r' := mk_range (asma r) start end_ (purged r) in
  Some (mk_ashmem (areas st) (<[id := r']> (ranges st)) (ashmem_lru_list st)
    (if range_on_lru r' then lru_count st -u (pre -u range_size r') else lru_count st)).

(** ** Pin, unpin and status *)

(** The loop over the ranges [ids] still to visit; [new] as in [range_alloc]. *)
Fixpoint pin_loop (st : ashmem) (a : nat) (ids : list nat) (s e ret : Z) (new : option nat)
    : option (ashmem * Z) :=
  match ids with
  | [] => Some (st, ret)
  | id :: ids' =>
      r ← ranges st !! id;
      if range_before_page r s then Some (st, ret) else
      if page_range_in_range r s e then
        let ret := Z.lor ret (purged r) in
        if page_range_subsumes_range r s e then
          st ← range_del st id; pin_loop st a ids' s e ret new
        else if s <=? pgstart r then
          st ← range_shrink st id (e +u 1) (pgend r); pin_loop st a ids' s e ret new
        else if pgend r <=? e then
          st ← range_shrink st id (pgstart r) (s -u 1); pin_loop st a ids' s e ret new
        else
          '(st, _) ← range_alloc st a (Some id) (purged r) (e +u 1) (pgend r) new;
          st ← range_shrink st id (pgstart r) (s -u 1);
          Some (st, ret)
      else pin_loop st a ids' s e ret new
  end.

Definition ashmem_pin (st : ashmem) (a : nat) (s e : Z) (new : option nat)
    : option (ashmem * Z) :=
  A ← areas st !! a;
  pin_loop st a (unpinned_list A) s e ASHMEM_NOT_PURGED new.

(** One pass of [ashmem_unpin] over the list: where it ends. *)
Inductive unpin_scan : Type :=
  | Covered                  (** already unpinned: return 0 *)
  | Merge (id : nat)         (** overlaps [id]: absorb it and restart *)
  | InsertAt (pos : option nat).

Fixpoint scan_unpin (st : ashmem) (ids : list nat) (s e : Z) : option unpin_scan :=
  match ids with
  | [] => Some (InsertAt None)
  | id :: ids' =>
      r ← ranges st !! id;
      if range_before_page r s then Some (InsertAt (Some id))
      else if page_range_subsumed_by_range r s e then Some Covered
      else if page_range_in_range r s e then Some (Merge id)
      else scan_unpin st ids' s e
  end.

(** [fuel] bounds the restarts: each removes a range. *)
Fixpoint unpin_loop (fuel : nat) (st : ashmem) (a : nat) (s e purged_ : Z) (new : option nat)
    : option (ashmem * Z) :=
  match fuel with
  | O => None
  | S fuel' =>
      A ← areas st !! a;
      sc ← scan_unpin st (unpinned_list A) s e;
      match sc with
      | Covered => Some (st, 0)
      | InsertAt pos => range_alloc st a pos purged_ s e new
      | Merge id =>
          r ← ranges st !! id;
          let s' := Z.min (pgstart r) s in
          let e' := Z.max (pgend r) e in
          let p' := Z.lor purged_ (purged r) in
          st ← range_del st id;
          unpin_loop fuel' st a s' e' p' new
      end
  end.

Definition ashmem_unpin (st : ashmem) (a : nat) (s e : Z) (new : option nat)
    : option (ashmem * Z) :=
  A ← areas st !! a;
  unpin_loop (S (length (unpinned_list A))) st a s e ASHMEM_NOT_PURGED new.

Fixpoint status_loop (st : ashmem) (ids : list nat) (s e : Z) : option Z :=
  match ids with
  | [] => Some ASHMEM_IS_PINNED
  | id :: ids' =>
      r ← ranges st !! id;
      if range_before_page r s then Some ASHMEM_IS_PINNED
      else if page_range_in_range r s e then Some ASHMEM_IS_UNPINNED
      else status_loop st ids' s e
  end.

Definition ashmem_get_pin_status (st : ashmem) (a : nat) (s e : Z) : option Z :=
  A ← areas st !! a; status_loop st (unpinned_list A) s e.

(** ** The shrinker *)

(** The truncated byte ranges go to [vmtruncate_range] of the area's file. *)
Fixpoint shrink_loop (st : ashmem) (ids : list nat) (nr_to_scan : Z) (out : list (nat * Z * Z))
    : option (ashmem * list (nat * Z * Z)) :=
  match ids with
  | [] => Some (st, out)
  | id :: ids' =>
      r ← ranges st !! id;
      A ← areas st !! asma r;
      if negb (file A) then None else
      let start := pgstart r *u PAGE_SIZE in
      let end_ := ((pgend r +u 1) *u PAGE_SIZE) -u 1 in
      let r' := mk_range (asma r) (pgstart r) (pgend r) ASHMEM_WAS_PURGED in
      let st := lru_del (mk_ashmem (areas st) (<[id := r']> (ranges st)) (ashmem_lru_list st)
                  (lru_count st)) id r' in
      let nr := s32 (nr_to_scan - range_size r') in
      let out := out ++ [(asma r, start, end_)] in
      if nr <=? 0 then Some (st, out) else shrink_loop st ids' nr out
  end.

(** [gfp_fs]: the allocation context allows file system calls. *)
Definition ashmem_shrink (st : ashmem) (nr_to_scan : Z) (gfp_fs : bool)
    : option (ashmem * list (nat * Z * Z) * Z) :=
  if negb (nr_to_scan =? 0) && negb gfp_fs then Some (st, [], -1) else
  if nr_to_scan =? 0 then Some (st, [], s32 (lru_count st)) else
  '(st, out) ← shrink_loop st (ashmem_lru_list st) nr_to_scan [];
  Some (st, out, s32 (lru_count st)).

(** ** The file operations *)

Definition ashmem_open (st : ashmem) (a : nat) (seek_ret : Z) (kmalloc_ok : bool) : ashmem * Z :=
  if negb (seek_ret =? 0) then (st, seek_ret) else
  if negb kmalloc_ok then (st, - ENOMEM) else
  (set_area st a (mk_area (replicate ASHMEM_NAME_LEN 0) [] false 0 PROT_MASK), 0).

Fixpoint release_loop (st : ashmem) (ids : list nat) : option ashmem :=
  match ids with
  | [] => Some st
  | id :: ids' => st ← range_del st id; release_loop st ids'
  end.

Definition ashmem_release (st : ashmem) (a : nat) : option ashmem :=
  A ← areas st !! a;
  st ← release_loop st (unpinned_list A);
  Some (mk_ashmem (delete a (areas st)) (ranges st) (ashmem_lru_list st) (lru_count st)).

Definition _calc_vm_trans (x bit1 bit2 : Z) : Z :=
  if bit1 <=? bit2 then Z.land x bit1 * (bit2 / bit1) else Z.land x bit1 / (bit1 / bit2).
Definition calc_vm_prot_bits (prot : Z) : Z :=
  Z.lor (_calc_vm_trans prot PROT_READ 0x1)
    (Z.lor (_calc_vm_trans prot PROT_WRITE 0x2) (_calc_vm_trans prot PROT_EXEC 0x4)).
Definition calc_vm_may_flags (prot : Z) : Z :=
  Z.lor (_calc_vm_trans prot PROT_READ 0x10)
    (Z.lor (_calc_vm_trans prot PROT_WRITE 0x20) (_calc_vm_trans prot PROT_EXEC 0x40)).

(** [setup_ret]: 0, or the error of [shmem_file_setup].  The result: the state,
    the return value and the flags of the mapping. *)
Definition ashmem_mmap (st : ashmem) (a : nat) (vm_flags setup_ret : Z) : option (ashmem * Z * Z) :=
  A ← areas st !! a;
  if size A =? 0 then Some (st, - EINVAL, vm_flags) else
  if negb (Z.land (Z.land vm_flags (~u (calc_vm_prot_bits (prot_mask A))))
             (calc_vm_prot_bits PROT_MASK) =? 0) then Some (st, - EPERM, vm_flags) else
  let vm_flags := Z.land vm_flags (~u (calc_vm_may_flags (~u (prot_mask A)))) in
  if negb (file A) && negb (setup_ret =? 0) then Some (st, setup_ret, vm_flags) else
  let st := set_area st a (mk_area (name A) (unpinned_list A) true (size A) (prot_mask A)) in
  Some (st, 0, Z.lor vm_flags VM_CAN_NONLINEAR).

(** [read_implies_exec]: the personality bit of the caller. *)
Definition set_prot_mask (st : ashmem) (a : nat) (prot : Z) (read_implies_exec : bool)
    : option (ashmem * Z) :=
  A ← areas st !! a;
  if negb (Z.land (prot_mask A) prot =? prot) then Some (st, - EINVAL) else
  let prot := if negb (Z.land prot PROT_READ =? 0) && read_implies_exec
              then Z.lor prot PROT_EXEC else prot in
  Some (set_area st a (mk_area (name A) (unpinned_list A) (file A) (size A) prot), 0).

(** [user]: the bytes [copy_from_user] stored (the rest of the buffer stays), and
    whether it copied all of them. *)
Definition set_name (st : ashmem) (a : nat) (user : list Z) (copy_ok : bool)
    : option (ashmem * Z) :=
  A ← areas st !! a;
  if file A then Some (st, - EINVAL) else
  nm ← mem_write (name A) 0 user;
  nm ← zset nm (Z.of_nat ASHMEM_NAME_LEN - 1) 0;
  Some (set_area st a (mk_area nm (unpinned_list A) (file A) (size A) (prot_mask A)),
        if copy_ok then 0 else - EFAULT).

(** The bytes given to [copy_to_user]. *)
Definition get_name (st : ashmem) (a : nat) (copy_ok : bool) : option (list Z * Z) :=
  A ← areas st !! a;
  c ← zget (name A) 0;
  bs ← (if negb (c =? 0) then n ← strlen (name A); mem_read (name A) 0 (n + 1)
        else Some ASHMEM_NAME_DEF);
  Some (bs, if copy_ok then 0 else - EFAULT).

Inductive pin_cmd : Type := ASHMEM_PIN | ASHMEM_UNPIN | ASHMEM_GET_PIN_STATUS.

Definition PAGE_ALIGN (x : Z) : Z := Z.land (x +u (PAGE_SIZE - 1)) (~u (PAGE_SIZE - 1)).

(** [pin]: the offset and length read from the user, if they could be. *)
Definition ashmem_pin_unpin (st : ashmem) (a : nat) (cmd : pin_cmd) (pin : option (Z * Z))
    (new : option nat) : option (ashmem * Z) :=
  A ← areas st !! a;
  if negb (file A) then Some (st, - EINVAL) else
  match pin with
  | None => Some (st, - EFAULT)
  | Some (offset, plen) =>
      let plen := if plen =? 0 then PAGE_ALIGN (size A) -u offset else plen in
      if negb (Z.land (Z.lor offset plen) (PAGE_SIZE - 1) =? 0) then Some (st, - EINVAL) else
      if (u32 (-1) -u offset) <? plen then Some (st, - EINVAL) else
      if PAGE_ALIGN (size A) <? (offset +u plen) then Some (st, - EINVAL) else
      let s := offset / PAGE_SIZE in
      let e := (s +u (plen / PAGE_SIZE)) -u 1 in
      match cmd with
      | ASHMEM_PIN => ashmem_pin st a s e new
      | ASHMEM_UNPIN => ashmem_unpin st a s e new
      | ASHMEM_GET_PIN_STATUS => r ← ashmem_get_pin_status st a s e; Some (st, r)
      end
  end.

Inductive ashmem_cmd : Type :=
  | ASHMEM_SET_NAME (user : list Z) (copy_ok : bool)
  | ASHMEM_GET_NAME (copy_ok : bool)
  | ASHMEM_SET_SIZE (arg : Z)
  | ASHMEM_GET_SIZE
  | ASHMEM_SET_PROT_MASK (arg : Z) (read_implies_exec : bool)
  | ASHMEM_GET_PROT_MASK
  | ASHMEM_RANGE (cmd : pin_cmd) (pin : option (Z * Z)) (new : option nat)
  | ASHMEM_PURGE_ALL_CACHES (capable : bool)
  | ASHMEM_OTHER.

Definition ashmem_ioctl (st : ashmem) (a : nat) (cmd : ashmem_cmd) : option (ashmem * Z) :=
  A ← areas st !! a;
  match cmd with
  | ASHMEM_SET_NAME user ok => set_name st a user ok
  | ASHMEM_GET_NAME ok => r ← get_name st a ok; Some (st, snd r)
  | ASHMEM_SET_SIZE arg =>
      if file A then Some (st, - EINVAL) else
      Some (set_area st a (mk_area (name A) (unpinned_list A) (file A) arg (prot_mask A)), 0)
  | ASHMEM_GET_SIZE => Some (st, size A)
  | ASHMEM_SET_PROT_MASK arg rie => set_prot_mask st a arg rie
  | ASHMEM_GET_PROT_MASK => Some (st, prot_mask A)
  | ASHMEM_RANGE c pin new => ashmem_pin_unpin st a c pin new
  | ASHMEM_PURGE_ALL_CACHES capable =>
      if negb capable then Some (st, - EPERM) else
      '(st, _, ret) ← ashmem_shrink st 0 true;
      '(st, _, _) ← ashmem_shrink st ret true;
      Some (st, ret)
  | ASHMEM_OTHER => Some (st, - ENOTTY)
  end.

(** ** What the lists mean: the state of each page of an area *)

(** [None]: pinned; [Some p]: unpinned, with purge state [p]. *)
Fixpoint page_in (m : gmap nat ashmem_range) (l : list nat) (p : Z) : option Z :=
  match l with
  | [] => None
  | id :: l' =>
      match m !! id with
      | Some r => if page_in_range r p then Some (purged r) else page_in m l' p
      | None => page_in m l' p
      end
  end.

Definition page (st : ashmem) (a : nat) (p : Z) : option Z :=
  match areas st !! a with Some A => page_in (ranges st) (unpinned_list A) p | None => None end.

(** The list descends: each range lies above all that follow it. *)
Fixpoint descending (m : gmap nat ashmem_range) (l : list nat) : Prop :=
  match l with
  | [] => True
  | id :: l' =>
      (exists r, m !! id = Some r /\
        forall id' r', id' ∈ l' -> m !! id' = Some r' -> pgend r' < pgstart r) /\
      descending m l'
  end.

Definition range_ok (r : ashmem_range) : Prop :=
  0 <= pgstart r <= pgend r /\ pgend r < 2 ^ 20 /\ (purged r = 0 \/ purged r = 1).

Definition lru_sum (m : gmap nat ashmem_range) (l : list nat) : Z :=
  foldr (fun id acc => match m !! id with Some r => pgend r - pgstart r + 1 | None => 0 end + acc) 0 l.

Definition inv (st : ashmem) : Prop :=
  (forall id r, ranges st !! id = Some r -> range_ok r /\
    exists A, areas st !! asma r = Some A /\ id ∈ unpinned_list A /\ file A = true) /\
  (forall a A, areas st !! a = Some A ->
    NoDup (unpinned_list A) /\ descending (ranges st) (unpinned_list A) /\
    forall id, id ∈ unpinned_list A -> exists r, ranges st !! id = Some r /\ asma r = a) /\
  NoDup (ashmem_lru_list st) /\
  (forall id, id ∈ ashmem_lru_list st <->
    exists r, ranges st !! id = Some r /\ purged r = ASHMEM_NOT_PURGED) /\
  lru_count st = u32 (lru_sum (ranges st) (ashmem_lru_list st)).

(** ** Lists and sums *)

Lemma elem_of_remove_id id x l : x ∈ remove_id id l <-> x ∈ l /\ x <> id.
Proof. unfold remove_id. rewrite list_elem_of_filter. tauto. Qed.

Lemma remove_id_notin id l : id ∉ l -> remove_id id l = l.
Proof.
  induction l as [|x l IH]; [done|]. rewrite not_elem_of_cons. intros [Hx Hl].
  unfold remove_id in *. rewrite filter_cons_True by done. by rewrite IH.
Qed.

Lemma NoDup_remove_id id l : NoDup l -> NoDup (remove_id id l).
Proof. intros. by apply NoDup_filter. Qed.

Definition rlen (r : ashmem_range) : Z := pgend r - pgstart r + 1.

Lemma lru_sum_cons m id l :
  lru_sum m (id :: l) = match m !! id with Some r => rlen r | None => 0 end + lru_sum m l.
Proof. reflexivity. Qed.

Lemma lru_sum_insert_notin m id r l : id ∉ l -> lru_sum (<[id := r]> m) l = lru_sum m l.
Proof.
  induction l as [|x l IH]; [done|]. rewrite not_elem_of_cons. intros [Hx Hl].
  rewrite !lru_sum_cons, IH, lookup_insert_ne by done. done.
Qed.

Lemma lru_sum_delete_notin m id l : id ∉ l -> lru_sum (delete id m) l = lru_sum m l.
Proof.
  induction l as [|x l IH]; [done|]. rewrite not_elem_of_cons. intros [Hx Hl].
  rewrite !lru_sum_cons, IH, lookup_delete_ne by done. done.
Qed.

Lemma lru_sum_insert_in m id r r' l : NoDup l -> id ∈ l -> m !! id = Some r ->
  lru_sum (<[id := r']> m) l = lru_sum m l - rlen r + rlen r'.
Proof.
  induction 1 as [|x l Hx Hnd IH]; [by rewrite elem_of_nil|]. intros Hin Hm.
  rewrite !lru_sum_cons. destruct (decide (x = id)) as [->|Hne].
  - rewrite lookup_insert_eq, Hm, lru_sum_insert_notin by done. lia.
  - rewrite lookup_insert_ne by done. apply elem_of_cons in Hin as [|Hin]; [done|].
    rewrite IH by done. lia.
Qed.

Lemma lru_sum_remove m id r l : NoDup l -> id ∈ l -> m !! id = Some r ->
  lru_sum m (remove_id id l) = lru_sum m l - rlen r.
Proof.
  induction 1 as [|x l Hx Hnd IH]; [by rewrite elem_of_nil|]. intros Hin Hm.
  rewrite lru_sum_cons. unfold remove_id. destruct (decide (x = id)) as [->|Hne].
  - rewrite filter_cons_False by tauto. fold (remove_id id l). rewrite remove_id_notin by done.
    rewrite Hm. lia.
  - rewrite filter_cons_True by done. fold (remove_id id l). rewrite lru_sum_cons.
    apply elem_of_cons in Hin as [|Hin]; [done|]. rewrite IH by done. lia.
Qed.

Lemma lru_sum_snoc m l id : lru_sum m (l ++ [id]) =
  lru_sum m l + match m !! id with Some r => rlen r | None => 0 end.
Proof.
  induction l as [|x l IH]; [cbn [app]; rewrite lru_sum_cons; cbn [lru_sum foldr]; lia|].
  rewrite <- app_comm_cons, !lru_sum_cons, IH. lia.
Qed.

Lemma range_size_ok r : range_ok r -> range_size r = rlen r.
Proof.
  intros (H1 & H2 & _). unfold range_size, rlen. rewrite u32_add_l, u32_id; [lia|].
  unfold is_u32. lia.
Qed.

(** ** Descending lists *)

Lemma descending_remove m id l : descending m l -> descending m (remove_id id l).
Proof.
  induction l as [|x l IH]; [done|]. intros [(r & Hr & Hlt) Hd]. unfold remove_id.
  destruct (decide (x = id)) as [->|Hne].
  - rewrite filter_cons_False by tauto. by apply IH.
  - rewrite filter_cons_True by done. split; [|by apply IH]. exists r. split; [done|].
    intros id' r' [_ ?]%list_elem_of_filter ?. by eapply Hlt.
Qed.

Lemma descending_ext m m' l : (forall id, id ∈ l -> m' !! id = m !! id) ->
  descending m l -> descending m' l.
Proof.
  induction l as [|x l IH]; [done|]. intros Hm [(r & Hr & Hlt) Hd]. split.
  - exists r. split; [by rewrite Hm by apply list_elem_of_here|].
    intros id' r' Hin Hl. rewrite Hm in Hl by by apply list_elem_of_further. by eapply Hlt.
  - apply IH; [|done]. intros id Hin. apply Hm. by apply list_elem_of_further.
Qed.

Lemma descending_shrink m id r r' l : m !! id = Some r -> pgstart r <= pgstart r' ->
  pgend r' <= pgend r -> descending m l -> descending (<[id := r']> m) l.
Proof.
  intros Hm Hs He. induction l as [|x l IH]; [done|]. intros [(rx & Hx & Hlt) Hd].
  split; [|by apply IH].
  assert (Hl : forall id' q, id' ∈ l -> <[id := r']> m !! id' = Some q -> pgend q < pgstart rx).
  { intros id' q Hin. destruct (decide (id' = id)) as [->|]; [|rewrite lookup_insert_ne by done; by apply Hlt].
    rewrite lookup_insert_eq. intros [= <-]. specialize (Hlt id r Hin Hm). lia. }
  destruct (decide (x = id)) as [->|].
  - exists r'. rewrite lookup_insert_eq. split; [done|]. rewrite Hx in Hm. injection Hm as ->.
    intros id' q Hin Hq. specialize (Hl id' q Hin Hq). lia.
  - exists rx. rewrite lookup_insert_ne by done. split; [done|]. done.
Qed.

(** The insertion point: everything before it lies above the new range, everything
    from it on below. *)
Fixpoint insertion_point (m : gmap nat ashmem_range) (pos : option nat) (l : list nat) (s e : Z)
    : Prop :=
  match l with
  | [] => True
  | x :: l' =>
      if decide (pos = Some x) then forall y ry, y ∈ l -> m !! y = Some ry -> pgend ry < s
      else (forall rx, m !! x = Some rx -> e < pgstart rx) /\ insertion_point m pos l' s e
  end.

Lemma elem_of_add_before new pos l x : x ∈ list_add_before new pos l <-> x = new \/ x ∈ l.
Proof.
  induction l as [|y l IH]; cbn [list_add_before].
  - rewrite list_elem_of_singleton, elem_of_nil. tauto.
  - case_decide; rewrite !elem_of_cons, ?IH; tauto.
Qed.

Lemma NoDup_add_before new pos l : new ∉ l -> NoDup l -> NoDup (list_add_before new pos l).
Proof.
  intros Hnew. induction 1 as [|y l Hy Hnd IH]; cbn [list_add_before]; [apply NoDup_singleton|].
  apply not_elem_of_cons in Hnew as [Hne Hnew]. case_decide.
  - constructor; [|by constructor]. by rewrite not_elem_of_cons.
  - constructor; [|by apply IH]. rewrite elem_of_add_before. by intros [->|?].
Qed.

Lemma descending_add m new r pos l : new ∉ l -> descending m l ->
  insertion_point m pos l (pgstart r) (pgend r) ->
  descending (<[new := r]> m) (list_add_before new pos l).
Proof.
  intros Hnew. induction l as [|x l IH]; cbn [list_add_before insertion_point].
  { intros _ _. split; [|done]. exists r. rewrite lookup_insert_eq. split; [done|].
    intros id' r' Hin. by apply elem_of_nil in Hin. }
  apply not_elem_of_cons in Hnew as [Hne Hnew]. intros Hd. case_decide as Hpos.
  - intros Hlt. split.
    + exists r. rewrite lookup_insert_eq. split; [done|]. intros y ry Hin.
      rewrite lookup_insert_ne; [by apply Hlt|].
      intros <-. apply elem_of_cons in Hin as [|]; congruence.
    + eapply descending_ext; [|exact Hd]. intros y Hy. rewrite lookup_insert_ne; [done|].
      intros <-. apply elem_of_cons in Hy as [|]; congruence.
  - intros [Hx Hip]. destruct Hd as [(rx & Hrx & Hlt) Hd]. split; [|by apply IH].
    exists rx. rewrite lookup_insert_ne by done. split; [done|]. intros y ry Hy.
    apply elem_of_add_before in Hy as [->|Hy].
    + rewrite lookup_insert_eq. intros [= <-]. by apply Hx.
    + rewrite lookup_insert_ne; [by apply Hlt|]. by intros <-.
Qed.

(** ** Pages and ranges *)

(** Some range of area [a] contains page [p] and has purge state [v]. *)
Definition covers (st : ashmem) (a : nat) (p v : Z) : Prop :=
  exists id r, ranges st !! id = Some r /\ asma r = a /\ page_in_range r p = true /\ purged r = v.

Lemma in_range_iff r p : page_in_range r p = true <-> pgstart r <= p <= pgend r.
Proof. unfold page_in_range. rewrite andb_true_iff, !Z.leb_le. tauto. Qed.

Lemma page_in_iff m l p v : descending m l ->
  page_in m l p = Some v <->
  exists id r, id ∈ l /\ m !! id = Some r /\ page_in_range r p = true /\ purged r = v.
Proof.
  induction l as [|x l IH]; intros Hd; cbn [page_in].
  { split; [done|]. intros (id & r & Hin & _). by apply elem_of_nil in Hin. }
  destruct Hd as [(rx & Hx & Hlt) Hd]. rewrite Hx. destruct (page_in_range rx p) eqn:Ep.
  - split.
    + intros [= <-]. exists x, rx. split; [apply list_elem_of_here|]. done.
    + intros (id & r & Hin & Hr & Hp & <-). apply elem_of_cons in Hin as [->|Hin]; [congruence|].
      specialize (Hlt id r Hin Hr). rewrite in_range_iff in Ep, Hp. lia.
  - rewrite (IH Hd). split; intros (id & r & Hin & Hr & Hp & Hv); exists id, r.
    + split; [by apply list_elem_of_further|done].
    + split; [|done]. apply elem_of_cons in Hin as [->|Hin]; [congruence|done].
Qed.

Lemma page_iff st a p v : inv st -> page st a p = Some v <-> covers st a p v.
Proof.
  intros (H1 & H2 & _). unfold page, covers. destruct (areas st !! a) as [A|] eqn:EA.
  - destruct (H2 a A EA) as (Hnd & Hd & Hin). rewrite page_in_iff by done.
    split; intros (id & r & ? & ? & ? & ?); exists id, r; [|].
    + destruct (Hin id) as (r' & Hr' & Ha); [done|]. split; [done|]. split; [congruence|done].
    + split; [|done]. destruct (H1 id r) as (_ & A' & HA' & Hid & _); [done|]. congruence.
  - split; [done|]. intros (id & r & Hr & Ha & _). destruct (H1 id r Hr) as (_ & A & HA & _).
    congruence.
Qed.

(** A page is in one range of its area. *)
Lemma page_unique st a p v w : inv st -> covers st a p v -> covers st a p w -> v = w.
Proof. intros Hi Hv%page_iff Hw%page_iff; [congruence|done|done]. Qed.

(** Two states with the same cover have the same pages. *)
Lemma page_ext st st' a a' p : inv st -> inv st' ->
  (forall v, covers st a p v <-> covers st' a' p v) -> page st a p = page st' a' p.
Proof.
  intros Hi Hi' H. destruct (page st a p) as [v|] eqn:E.
  - apply page_iff, H, page_iff in E; done.
  - destruct (page st' a' p) as [v|] eqn:E'; [|done]. apply page_iff, H, page_iff in E'; congruence.
Qed.

Lemma page_None st a p : inv st -> (forall v, ~ covers st a p v) <-> page st a p = None.
Proof.
  intros Hi. destruct (page st a p) as [v|] eqn:E.
  - split; [|done]. intros H. exfalso. apply (H v). by apply page_iff.
  - split; [done|]. intros _ v Hv%page_iff; congruence.
Qed.

(** ** The range primitives keep the invariant *)

Lemma lru_count_move c x y : u32 (u32 c - (x - y)) = u32 (c - x + y).
Proof. rewrite u32_sub_l. f_equal. lia. Qed.

Lemma range_del_ok st id r A : inv st -> ranges st !! id = Some r -> areas st !! asma r = Some A ->
  exists st', range_del st id = Some st' /\ inv st' /\
    ranges st' = delete id (ranges st) /\
    areas st' = <[asma r := set_list A (remove_id id (unpinned_list A))]> (areas st).
Proof.
  intros (H1 & H2 & H3 & H4 & H5) Hr HA. unfold range_del. rewrite Hr. cbn [mbind option_bind].
  rewrite HA. cbn [mbind option_bind]. destruct (H1 id r Hr) as (Hok & A' & HA' & Hid & Hfile).
  assert (A' = A) as -> by congruence.
  set (A1 := set_list A (remove_id id (unpinned_list A))).
  set (st1 := set_area st (asma r) A1).
  set (st2 := if range_on_lru r then lru_del st1 id r else st1).
  assert (Ea : areas st2 = <[asma r := A1]> (areas st)) by (subst st2; by destruct (range_on_lru r)).
  assert (Er : ranges st2 = ranges st) by (subst st2; by destruct (range_on_lru r)).
  assert (Hmem : forall x, x ∈ ashmem_lru_list st /\ x <> id <->
    exists q, delete id (ranges st) !! x = Some q /\ purged q = ASHMEM_NOT_PURGED).
  { intros x. rewrite (H4 x). split.
    - intros [(q & Hq & Hp) Hne]. exists q. by rewrite lookup_delete_ne by done.
    - intros (q & [Hne Hq]%lookup_delete_Some & Hp). split; [by exists q|done]. }
  eexists. split; [reflexivity|]. cbn [areas ranges]. rewrite Ea, Er. split; [|done].
  split; [|split]; cbn [areas ranges ashmem_lru_list lru_count]; rewrite ?Ea, ?Er.
  - intros x q [Hne Hq]%lookup_delete_Some.
    destruct (H1 x q Hq) as (Hqo & B & HB & Hin & Hf). split; [done|].
    destruct (decide (asma q = asma r)) as [E|].
    + exists A1. rewrite E, lookup_insert_eq. split; [done|]. assert (B = A) as -> by congruence.
      split; [by apply elem_of_remove_id|done].
    + exists B. by rewrite lookup_insert_ne by done.
  - intros a B HB. destruct (decide (a = asma r)) as [->|Hne].
    + rewrite lookup_insert_eq in HB. injection HB as <-. destruct (H2 _ _ HA) as (Hnd & Hd & Hin).
      split; [by apply NoDup_remove_id|]. split.
      * apply (descending_ext (ranges st)); [|by apply descending_remove].
        intros x [_ Hx]%elem_of_remove_id. by rewrite lookup_delete_ne.
      * intros x [Hx Hne]%elem_of_remove_id. rewrite lookup_delete_ne by done. by apply Hin.
    + rewrite lookup_insert_ne in HB by done. destruct (H2 _ _ HB) as (Hnd & Hd & Hin).
      assert (Hni : id ∉ unpinned_list B).
      { intros Hx. destruct (Hin id Hx) as (q & Hq & Ha). congruence. }
      split; [done|]. split.
      * apply (descending_ext (ranges st)); [|done].
        intros x Hx. rewrite lookup_delete_ne; [done|congruence].
      * intros x Hx. rewrite lookup_delete_ne by congruence. by apply Hin.
  - subst st2. destruct (range_on_lru r) eqn:Elru; simpl.
    + split; [by apply NoDup_remove_id|]. split.
      * intros x. by rewrite elem_of_remove_id, Hmem.
      * rewrite H5, range_size_ok, u32_sub_l by done. f_equal.
        assert (id ∈ ashmem_lru_list st).
        { apply H4. exists r. split; [done|]. by apply Z.eqb_eq. }
        rewrite lru_sum_delete_notin by (rewrite elem_of_remove_id; tauto).
        by rewrite (lru_sum_remove _ _ r) by done.
    + assert (Hni : id ∉ ashmem_lru_list st).
      { intros (q & Hq & Hp)%H4. unfold range_on_lru in Elru. rewrite Hr in Hq. injection Hq as <-.
        rewrite Hp in Elru. done. }
      split; [done|]. split.
      * intros x. rewrite <- Hmem. split; [|tauto]. intros ?. split; [done|congruence].
      * by rewrite lru_sum_delete_notin by done.
Qed.

Lemma range_shrink_ok st id r s e : inv st -> ranges st !! id = Some r ->
  pgstart r <= s -> s <= e -> e <= pgend r ->
  exists st', range_shrink st id s e = Some st' /\ inv st' /\
    ranges st' = <[id := mk_range (asma r) s e (purged r)]> (ranges st) /\ areas st' = areas st.
Proof.
  intros (H1 & H2 & H3 & H4 & H5) Hr Hs Hse He. unfold range_shrink. rewrite Hr.
  cbn [mbind option_bind]. set (r' := mk_range (asma r) s e (purged r)).
  destruct (H1 id r Hr) as (Hok & HA). pose proof Hok as (Hb1 & Hb2 & Hpg).
  assert (Hok' : range_ok r') by (split_and!; simpl; try done; lia).
  eexists. split; [reflexivity|]. split; [|done].
  split; [|split; [|split; [done|split]]]; cbn [areas ranges ashmem_lru_list lru_count].
  - intros x q. destruct (decide (x = id)) as [->|].
    + rewrite lookup_insert_eq. intros [= <-]. done.
    + rewrite lookup_insert_ne by done. apply H1.
  - intros a B HB. destruct (H2 a B HB) as (Hnd & Hd & Hin). split; [done|]. split.
    + by apply (descending_shrink _ _ r).
    + intros x Hx. destruct (Hin x Hx) as (q & Hq & Ha). destruct (decide (x = id)) as [->|].
      * exists r'. rewrite lookup_insert_eq. split; [done|]. simpl. congruence.
      * exists q. by rewrite lookup_insert_ne by done.
  - intros x. rewrite H4. destruct (decide (x = id)) as [->|].
    + rewrite lookup_insert_eq, Hr. split; intros (q & [= <-] & ?); eexists; split; done.
    + by rewrite lookup_insert_ne by done.
  - unfold range_on_lru. cbn [purged].
    destruct (Z.eqb_spec (purged r') ASHMEM_NOT_PURGED) as [E|E].
    + rewrite !range_size_ok by done. rewrite H5, u32_sub_r, lru_count_move. f_equal.
      rewrite (lru_sum_insert_in _ _ r); [done|done| |done]. apply H4. by exists r.
    + rewrite lru_sum_insert_notin; [done|]. intros (q & Hq & Hp)%H4.
      rewrite Hr in Hq. injection Hq as <-. done.
Qed.

Lemma range_alloc_ok st a A id pos p s e : inv st -> areas st !! a = Some A -> file A = true ->
  ranges st !! id = None -> range_ok (mk_range a s e p) ->
  insertion_point (ranges st) pos (unpinned_list A) s e ->
  exists st', range_alloc st a pos p s e (Some id) = Some (st', 0) /\ inv st' /\
    ranges st' = <[id := mk_range a s e p]> (ranges st) /\
    areas st' = <[a := set_list A (list_add_before id pos (unpinned_list A))]> (areas st).
Proof.
  intros (H1 & H2 & H3 & H4 & H5) HA Hf Hid Hok Hip. unfold range_alloc. rewrite HA.
  cbn [mbind option_bind]. set (r := mk_range a s e p).
  set (A1 := set_list A (list_add_before id pos (unpinned_list A))).
  set (st1 := mk_ashmem (<[a := A1]> (areas st)) (<[id := r]> (ranges st)) (ashmem_lru_list st)
    (lru_count st)).
  destruct (H2 a A HA) as (Hnd & Hd & Hin).
  assert (Hnl : id ∉ unpinned_list A).
  { intros Hx. destruct (Hin id Hx) as (q & Hq & _). congruence. }
  assert (Hnlru : id ∉ ashmem_lru_list st) by (intros (q & Hq & _)%H4; congruence).
  assert (Ea : areas (if range_on_lru r then lru_add st1 id r else st1) = <[a := A1]> (areas st))
    by by destruct (range_on_lru r).
  assert (Er : ranges (if range_on_lru r then lru_add st1 id r else st1) = <[id := r]> (ranges st))
    by by destruct (range_on_lru r).
  eexists. split; [reflexivity|]. rewrite Ea, Er. split; [|done].
  split; [|split]; rewrite ?Ea, ?Er.
  - intros x q. destruct (decide (x = id)) as [->|Hne].
    + rewrite lookup_insert_eq. intros [= <-]. split; [done|]. exists A1.
      rewrite lookup_insert_eq. split; [done|]. split; [|done]. apply elem_of_add_before. by left.
    + rewrite lookup_insert_ne by done. intros Hq. destruct (H1 x q Hq) as (Hqo & B & HB & Hx & HBf).
      split; [done|]. destruct (decide (asma q = a)) as [E|].
      * exists A1. rewrite E, lookup_insert_eq. split; [done|]. assert (B = A) as -> by congruence.
        split; [apply elem_of_add_before; by right|done].
      * exists B. by rewrite lookup_insert_ne by done.
  - intros b B. destruct (decide (b = a)) as [->|Hne].
    + rewrite lookup_insert_eq. intros [= <-]. split; [by apply NoDup_add_before|]. split.
      * by apply descending_add.
      * intros x [->|Hx]%elem_of_add_before; [exists r; by rewrite lookup_insert_eq|].
        rewrite lookup_insert_ne by congruence. by apply Hin.
    + rewrite lookup_insert_ne by done. intros HB. destruct (H2 b B HB) as (Hnd' & Hd' & Hin').
      assert (Hni : id ∉ unpinned_list B).
      { intros Hx. destruct (Hin' id Hx) as (q & Hq & _). congruence. }
      split; [done|]. split.
      * apply (descending_ext (ranges st)); [|done]. intros x Hx.
        rewrite lookup_insert_ne; [done|congruence].
      * intros x Hx. rewrite lookup_insert_ne by congruence. by apply Hin'.
  - unfold range_on_lru. destruct (Z.eqb_spec (purged r) ASHMEM_NOT_PURGED) as [E|E]; simpl.
    + split; [|split].
      * apply NoDup_app. split; [done|]. split; [|apply NoDup_singleton].
        intros x Hx ->%list_elem_of_singleton. done.
      * intros x. rewrite elem_of_app, list_elem_of_singleton, H4.
        destruct (decide (x = id)) as [->|]; [|rewrite lookup_insert_ne by done; tauto].
        rewrite lookup_insert_eq. split; [|by right]. intros _. by exists r.
      * rewrite lru_sum_snoc, lookup_insert_eq, lru_sum_insert_notin by done.
        rewrite H5, range_size_ok, u32_add_l by done. done.
    + split; [done|]. split.
      * intros x. rewrite H4. destruct (decide (x = id)) as [->|]; [|by rewrite lookup_insert_ne by done].
        rewrite lookup_insert_eq, Hid. split; [by intros (? & ? & _)|].
        intros (q & [= <-] & ?). done.
      * by rewrite lru_sum_insert_notin by done.
Qed.

(** ** Pinning *)

Lemma overlap_iff r s e : range_ok r -> s <= e ->
  page_range_in_range r s e = true <-> s <= pgend r /\ pgstart r <= e.
Proof.
  intros (H & _) Hse. unfold page_range_in_range, page_in_range, page_range_subsumes_range.
  split_cmp; simpl; split; intros; try done; lia.
Qed.

(** [upper_part st a s e p]: page [p] lies above [e] in a range of area [a] that
    also has pages below [s], so that a pin of [s..e] splits this range. *)
Definition upper_part (st : ashmem) (a : nat) (s e p : Z) : Prop :=
  e < p /\ exists id r, ranges st !! id = Some r /\ asma r = a /\ pgstart r < s /\ p <= pgend r.

(** [trims st st' a s e lossy]: only pages [s..e] of area [a] leave the ranges
    (and those of [lossy] may), and nothing else changes. *)
Definition trims (st st' : ashmem) (a : nat) (s e : Z) (lossy : Z -> Prop) : Prop :=
  (forall p v, covers st' a p v -> covers st a p v) /\
  (forall p v, covers st a p v -> ~ s <= p <= e -> covers st' a p v \/ lossy p) /\
  (forall b p v, b <> a -> covers st' b p v <-> covers st b p v).

Lemma trims_refl st a s e lossy : trims st st a s e lossy.
Proof. split_and!; auto; done. Qed.

Lemma trims_trans st1 st2 st3 a s e lossy :
  trims st1 st2 a s e lossy -> trims st2 st3 a s e lossy -> trims st1 st3 a s e lossy.
Proof.
  intros (A1 & A2 & A3) (B1 & B2 & B3). split_and!.
  - auto.
  - intros p v Hc Hn. destruct (A2 p v Hc Hn) as [Hc2|]; [|by right]. by apply B2.
  - intros b p v Hb. rewrite B3, A3 by done. done.
Qed.

(** Shrinking one range of the area. *)
Lemma trims_shrink st st' a id r r' s e lossy : ranges st !! id = Some r -> asma r = a ->
  asma r' = a -> purged r' = purged r -> pgstart r <= pgstart r' -> pgend r' <= pgend r ->
  ranges st' = <[id := r']> (ranges st) ->
  (forall p, pgstart r <= p <= pgend r -> ~ s <= p <= e -> pgstart r' <= p <= pgend r' \/ lossy p) ->
  trims st st' a s e lossy.
Proof.
  intros Hr Ha Ha' Hp Hs He Er Hout. unfold trims, covers. rewrite Er. split_and!.
  - intros p v (x & q & Hx & Hqa & Hqp & Hqv). destruct (decide (x = id)) as [->|].
    + rewrite lookup_insert_eq in Hx. injection Hx as <-. exists id, r. rewrite in_range_iff in *.
      split_and!; first [done|lia|congruence].
    + rewrite lookup_insert_ne in Hx by done. by exists x, q.
  - intros p v (x & q & Hx & Hqa & Hqp & Hqv) Hn. destruct (decide (x = id)) as [->|].
    + assert (q = r) as -> by congruence. rewrite in_range_iff in Hqp.
      destruct (Hout p Hqp Hn) as [Hin|]; [left|by right]. exists id, r'.
      rewrite lookup_insert_eq, in_range_iff. split_and!; first [done|lia|congruence].
    + left. exists x, q. by rewrite lookup_insert_ne by done.
  - intros b p v Hb. split; intros (x & q & Hx & Hqa & Hq); exists x, q.
    + destruct (decide (x = id)) as [->|]; [|by rewrite lookup_insert_ne in Hx by done].
      rewrite lookup_insert_eq in Hx. injection Hx as <-. congruence.
    + rewrite lookup_insert_ne; [done|]. congruence.
Qed.

Lemma trims_delete st st' a id r s e lossy : ranges st !! id = Some r -> asma r = a ->
  ranges st' = delete id (ranges st) -> s <= pgstart r -> pgend r <= e ->
  trims st st' a s e lossy.
Proof.
  intros Hr Ha Er Hs He. unfold trims, covers. rewrite Er. split_and!.
  - intros p v (x & q & [_ Hx]%lookup_delete_Some & Hq). by exists x, q.
  - intros p v (x & q & Hx & Hqa & Hqp & Hqv) Hn. left. exists x, q.
    rewrite lookup_delete_ne; [done|]. intros <-. assert (q = r) as -> by congruence.
    rewrite in_range_iff in Hqp. lia.
  - intros b p v Hb. split; intros (x & q & Hx & Hqa & Hq); exists x, q.
    + by apply lookup_delete_Some in Hx as [_ ?].
    + rewrite lookup_delete_ne; [done|]. congruence.
Qed.

(** In case 4 the code allocates before it shrinks; the order does not matter. *)
Lemma alloc_shrink_comm st a pos id new r s e s1 e1 st1 st2 : ranges st !! id = Some r -> id <> new ->
  range_shrink st id s1 e1 = Some st1 ->
  range_alloc st1 a pos (purged r) s e (Some new) = Some (st2, 0) ->
  exists st', range_alloc st a pos (purged r) s e (Some new) = Some (st', 0) /\
    range_shrink st' id s1 e1 = Some st2.
Proof.
  unfold range_shrink, range_alloc. intros Hr Hne. rewrite Hr. cbn [mbind option_bind].
  intros [= <-]. cbn [areas ranges ashmem_lru_list lru_count].
  destruct (areas st !! a) as [A|]; cbn [mbind option_bind]; [|done]. intros [= <-].
  eexists. split; [reflexivity|]. unfold range_on_lru. cbn [purged].
  destruct (purged r =? ASHMEM_NOT_PURGED) eqn:El; cbn [ranges lru_add mbind option_bind];
    rewrite lookup_insert_ne by done; rewrite Hr; cbn [mbind option_bind purged asma];
    rewrite El; unfold lru_add; cbn [areas ranges ashmem_lru_list lru_count]; f_equal; f_equal;
    try (by rewrite insert_insert_ne by done).
  rewrite u32_sub_l, u32_add_l. f_equal. lia.
Qed.

(** Everything after a range that ends before [s] ends before [s]. *)
Lemma descending_before m id l s r : descending m (id :: l) -> m !! id = Some r -> range_ok r ->
  pgend r < s -> forall x q, x ∈ id :: l -> m !! x = Some q -> pgend q < s.
Proof.
  intros [(r' & Hr' & Hlt) _] Hr (Hok & _) Hs x q [->|Hx]%elem_of_cons Hq; [congruence|].
  specialize (Hlt x q Hx Hq). assert (r' = r) as -> by congruence. lia.
Qed.

Lemma descending_app_r m l1 l2 : descending m (l1 ++ l2) -> descending m l2.
Proof. induction l1 as [|x l1 IH]; [done|]. intros [_ H]. by apply IH. Qed.

Lemma descending_app m l1 x l2 : descending m (l1 ++ x :: l2) -> forall y ry rx, y ∈ l1 ->
  m !! y = Some ry -> m !! x = Some rx -> pgend rx < pgstart ry.
Proof.
  induction l1 as [|z l1 IH]; intros Hd y ry rx Hy; [by apply elem_of_nil in Hy|].
  destruct Hd as [(rz & Hz & Hlt) Hd]. apply elem_of_cons in Hy as [->|Hy]; [|by apply IH].
  intros Hry Hrx. assert (ry = rz) as -> by congruence. eapply Hlt; [|exact Hrx].
  apply elem_of_app. right. apply list_elem_of_here.
Qed.

(** The insertion point in front of [id], for a new range between it and [pre]. *)
Lemma insertion_before m pre id l s e : NoDup (pre ++ id :: l) ->
  (forall y ry, y ∈ pre -> m !! y = Some ry -> e < pgstart ry) ->
  (forall y ry, y ∈ id :: l -> m !! y = Some ry -> pgend ry < s) ->
  insertion_point m (Some id) (pre ++ id :: l) s e.
Proof.
  induction pre as [|x pre IH]; cbn [app insertion_point].
  - intros _ _ H. by rewrite decide_True.
  - rewrite NoDup_cons. intros [Hx Hnd] H1 H2. rewrite decide_False.
    2:{ intros [= ->]. apply Hx, elem_of_app. right. apply list_elem_of_here. }
    split; [intros rx; apply H1, list_elem_of_here|]. apply IH; try done.
    intros y ry Hy. apply H1. by apply list_elem_of_further.
Qed.

(** [purged_in st a s e]: a page of [s..e] lies in a purged range. *)
Definition purged_in (st : ashmem) (a : nat) (s e : Z) : Prop :=
  exists p, s <= p <= e /\ covers st a p ASHMEM_WAS_PURGED.

(** What a pin of [s..e] from [st] establishes, given the flag [ret] so far. *)
Definition pinned (st st' : ashmem) (a : nat) (s e ret ret' : Z) (lossy : Z -> Prop) : Prop :=
  inv st' /\ trims st st' a s e lossy /\ (forall p v, s <= p <= e -> ~ covers st' a p v) /\
  (ret' = 0 \/ ret' = 1) /\ (ret' = 1 <-> ret = 1 \/ purged_in st a s e).

(** One more range treated: [st1] differs from [st] in the range [id] only, and
    [pinned] from [st1] gives [pinned] from [st]. *)
Lemma pinned_step st st1 st' a id r s e ret ret' lossy : inv st -> ranges st !! id = Some r ->
  asma r = a -> s <= pgend r -> pgstart r <= e -> s <= e ->
  (forall x q, x <> id -> ranges st !! x = Some q -> ranges st1 !! x = Some q) ->
  (ret = 0 \/ ret = 1) -> trims st st1 a s e lossy ->
  pinned st1 st' a s e (Z.lor ret (purged r)) ret' lossy -> pinned st st' a s e ret ret' lossy.
Proof.
  intros Hi Hr Ha H1 H2 Hse Heq Hret Htr (Hi' & Htr' & Hno & Hb & Hiff).
  split; [done|]. split; [by apply (trims_trans st st1)|]. split; [done|]. split; [done|].
  destruct Hi as (Hi1 & _). destruct (Hi1 id r Hr) as ((Hok & _ & Hp) & _).
  assert (Hlor : Z.lor ret (purged r) = 1 <-> ret = 1 \/ purged r = 1).
  { destruct Hret as [-> | ->], Hp as [E|E]; rewrite E; vm_compute; intuition discriminate. }
  rewrite Hiff, Hlor. split.
  - intros [[?|Hp1]|(p & Hpr & Hc)]; [by left|right|right].
    + exists (Z.max s (pgstart r)). split; [lia|]. exists id, r. rewrite in_range_iff.
      split_and!; try done; lia.
    + exists p. split; [done|]. apply (proj1 Htr), Hc.
  - intros [?|(p & Hpr & x & q & Hx & Hqa & Hqp & Hqv)]; [by left; left|].
    destruct (decide (x = id)) as [->|Hne]; [left; right; rewrite Hr in Hx; injection Hx as <-; exact Hqv|].
    right. exists p. split; [done|]. exists x, q. by rewrite (Heq x q).
Qed.

Lemma no_overlap_done st a A s e pre ids : inv st -> areas st !! a = Some A ->
  unpinned_list A = pre ++ ids ->
  (forall x q, x ∈ pre -> ranges st !! x = Some q -> ~ (s <= pgend q /\ pgstart q <= e)) ->
  (forall x q, x ∈ ids -> ranges st !! x = Some q -> ~ (s <= pgend q /\ pgstart q <= e)) ->
  forall p v, s <= p <= e -> ~ covers st a p v.
Proof.
  intros (H1 & _) HA El Hpre Hids p v Hp (x & q & Hx & Hqa & Hqp & _).
  destruct (H1 x q Hx) as (_ & B & HB & Hin & _). assert (B = A) as -> by congruence.
  rewrite El in Hin. rewrite in_range_iff in Hqp. apply elem_of_app in Hin as [Hin|Hin].
  - apply (Hpre x q Hin Hx). lia.
  - apply (Hids x q Hin Hx). lia.
Qed.

Lemma pinned_stop st a s e ret lossy : inv st -> (ret = 0 \/ ret = 1) ->
  (forall p v, s <= p <= e -> ~ covers st a p v) -> pinned st st a s e ret ret lossy.
Proof.
  intros Hi Hret Hno. split; [done|]. split; [apply trims_refl|]. split; [done|]. split; [done|].
  split; [by left|]. intros [?|(p & Hp & Hc)]; [done|]. exfalso. by apply (Hno p _ Hp Hc).
Qed.

(** Case 4, the hole: the upper part becomes a new range. *)
Lemma pin_hole st a A pre id l r s e ret new lossy : inv st -> areas st !! a = Some A -> file A = true ->
  unpinned_list A = pre ++ id :: l -> ranges st !! id = Some r -> asma r = a ->
  (forall x, new = Some x -> ranges st !! x = None) -> (ret = 0 \/ ret = 1) ->
  (forall x q, x ∈ pre -> ranges st !! x = Some q -> ~ (s <= pgend q /\ pgstart q <= e)) ->
  pgstart r < s -> s <= e -> e < pgend r -> (forall p, e < p <= pgend r -> new = None -> lossy p) ->
  exists st1 rc st', range_alloc st a (Some id) (purged r) (e + 1) (pgend r) new = Some (st1, rc) /\
    range_shrink st1 id (pgstart r) (s - 1) = Some st' /\
    pinned st st' a s e ret (Z.lor ret (purged r)) lossy.
Proof.
  intros Hi HA Hf El Hr Ha Hnew Hret Hpre H1 H2 H3 Hlossy.
  pose proof Hi as (Hi1 & Hi2 & _). destruct (Hi1 id r Hr) as (Hok & _).
  destruct (Hi2 a A HA) as (Hnd & Hd & _). rewrite El in Hnd, Hd.
  destruct (range_shrink_ok st id r (pgstart r) (s - 1)) as (st1 & E1 & Hinv1 & Er1 & Ea1);
    try done; try lia.
  set (r1 := mk_range (asma r) (pgstart r) (s - 1) (purged r)) in *.
  assert (Hno : forall x q, x ∈ id :: l -> ranges st1 !! x = Some q -> pgend q < s).
  { apply (descending_before _ _ _ _ r1); [|by rewrite Er1, lookup_insert_eq| |simpl; lia].
    - rewrite Er1. apply (descending_shrink _ _ r);
        [done|done|subst r1; cbn [pgend]; lia|by apply (descending_app_r _ pre)].
    - destruct Hok as (? & ? & ?). split_and!; simpl; try done; lia. }
  assert (Hoff : forall x, x <> id -> ranges st1 !! x = ranges st !! x).
  { intros x Hx. rewrite Er1. by rewrite lookup_insert_ne. }
  assert (Hpre1 : forall x q, x ∈ pre -> ranges st1 !! x = Some q -> pgend r < pgstart q).
  { intros x q Hx Hq. rewrite Hoff in Hq.
    - by apply (descending_app _ pre id l Hd x q r).
    - intros ->. apply NoDup_app in Hnd as (_ & Hdis & _). apply (Hdis id Hx), list_elem_of_here. }
  destruct new as [x|].
  - assert (x <> id) by (intros ->; rewrite (Hnew id eq_refl) in Hr; done).
    destruct (range_alloc_ok st1 a A x (Some id) (purged r) (e + 1) (pgend r))
      as (st2 & E2 & Hinv2 & Er2 & Ea2); try done.
    + by rewrite Ea1.
    + rewrite Hoff by done. by apply Hnew.
    + destruct Hok as (? & ? & ?). split_and!; simpl; try done; lia.
    + rewrite El. apply insertion_before; [done| |].
      * intros y ry Hy Hry. by apply (Hpre1 y).
      * intros y ry Hy Hry. specialize (Hno y ry Hy Hry). lia.
    + destruct (alloc_shrink_comm st a (Some id) id x r (e + 1) (pgend r) (pgstart r) (s - 1) st1 st2)
        as (st' & Ealloc & Eshr); try done.
      exists st', 0, st2. split; [done|]. split; [done|].
      assert (Hcov : forall b p v, covers st2 b p v <->
        covers st1 b p v \/ (b = a /\ v = purged r /\ e + 1 <= p <= pgend r)).
      { intros b p v. unfold covers. rewrite Er2. split.
        - intros (y & q & Hy & Hq). destruct (decide (y = x)) as [->|].
          + rewrite lookup_insert_eq in Hy. injection Hy as <-. rewrite in_range_iff in Hq.
            simpl in Hq. destruct Hq as (<- & ? & <-). by right.
          + rewrite lookup_insert_ne in Hy by done. left. by exists y, q.
        - intros [(y & q & Hy & Hq)|(-> & -> & Hp)].
          + exists y, q. rewrite lookup_insert_ne; [done|]. intros <-. rewrite Hoff in Hy by done.
            rewrite (Hnew x eq_refl) in Hy. done.
          + exists x. eexists. rewrite lookup_insert_eq, in_range_iff. done. }
      apply (pinned_step st st2 st2 a id r); try done; try lia.
      * intros y q Hy Hq. rewrite Er2. rewrite lookup_insert_ne, Hoff; try done.
        intros <-. rewrite (Hnew x eq_refl) in Hq. done.
      * assert (Htr := trims_shrink st st1 a id r r1 s (pgend r) (fun _ => False) Hr Ha Ha eq_refl).
        destruct Htr as (T1 & T2 & T3);
          [done|subst r1; cbn [pgend]; lia|done|subst r1; cbn [pgstart pgend]; intros; left; lia|].
        split_and!.
        -- intros p v [Hc|(_ & -> & Hp)]%Hcov; [by apply T1|]. exists id, r. rewrite in_range_iff.
           split_and!; try done; lia.
        -- intros p v Hc Hn. left. apply Hcov. destruct (decide (s <= p <= pgend r)) as [Hp|Hp].
           ++ right. split_and!; try done; try lia. apply (page_unique st a p); [done..|].
              exists id, r. rewrite in_range_iff. split_and!; try done; lia.
           ++ destruct (T2 p v Hc Hp) as [|[]]. by left.
        -- intros b p v Hb. rewrite Hcov, <- T3 by done. split; [|by left]. intros [?|[? _]]; done.
      * apply pinned_stop; [done| |].
        -- destruct Hret as [-> | ->], Hok as (_ & _ & [E|E]); rewrite E; vm_compute; auto.
        -- intros p v Hp [Hc|(_ & _ & ?)]%Hcov; [|lia]. revert Hc.
           apply (no_overlap_done st1 a A s e pre (id :: l)); try done; [by rewrite Ea1| |].
           ++ intros y q Hy Hq. specialize (Hpre1 y q Hy Hq). lia.
           ++ intros y q Hy Hq. specialize (Hno y q Hy Hq). lia.
  - exists st. do 2 eexists. split; [reflexivity|]. split; [exact E1|].
    apply (pinned_step st st1 st1 a id r); try done; try lia.
    + intros y q Hy Hq. by rewrite Hoff.
    + apply (trims_shrink st st1 a id r r1); try done; simpl; try lia.
      intros p Hp Hn. destruct (decide (p < s)); [left; lia|right; apply Hlossy; [lia|done]].
    + apply pinned_stop; [done| |].
      * destruct Hret as [-> | ->], Hok as (_ & _ & [E|E]); rewrite E; vm_compute; auto.
      * apply (no_overlap_done st1 a A s e pre (id :: l)); try done; [by rewrite Ea1| |].
        -- intros y q Hy Hq. specialize (Hpre1 y q Hy Hq). lia.
        -- intros y q Hy Hq. specialize (Hno y q Hy Hq). lia.
Qed.

Lemma remove_mid id pre l : NoDup (pre ++ id :: l) -> remove_id id (pre ++ id :: l) = pre ++ l.
Proof.
  intros Hnd. apply NoDup_app in Hnd as (_ & Hdis & Hnd). apply NoDup_cons in Hnd as [Hid _].
  unfold remove_id. rewrite filter_app, filter_cons_False by tauto.
  fold (remove_id id pre) (remove_id id l). rewrite !remove_id_notin; try done.
  intros Hx. apply (Hdis id Hx), list_elem_of_here.
Qed.

Lemma lor_01 a b : (a = 0 \/ a = 1) -> (b = 0 \/ b = 1) -> Z.lor a b = 0 \/ Z.lor a b = 1.
Proof. intros [-> | ->] [-> | ->]; vm_compute; auto. Qed.

Lemma upper_part_mono st st1 a s e p :
  (forall x q1, ranges st1 !! x = Some q1 -> exists q, ranges st !! x = Some q /\ asma q = asma q1 /\
     pgstart q <= pgstart q1 /\ pgend q1 <= pgend q) ->
  upper_part st1 a s e p -> upper_part st a s e p.
Proof.
  intros H (Hp & x & q1 & Hx & Ha & H1 & H2). split; [done|].
  destruct (H x q1 Hx) as (q & Hq & Haq & ? & ?). exists x, q. split_and!; try done; [congruence|lia|lia].
Qed.

Lemma pin_loop_ok a s e new lossy ids : 0 <= s <= e -> e < 2 ^ 20 -> forall st ret pre A,
  inv st -> areas st !! a = Some A -> file A = true -> unpinned_list A = pre ++ ids ->
  (forall x q, x ∈ pre -> ranges st !! x = Some q -> ~ (s <= pgend q /\ pgstart q <= e)) ->
  (forall x, new = Some x -> ranges st !! x = None) -> (ret = 0 \/ ret = 1) ->
  (forall p, new = None -> upper_part st a s e p -> lossy p) ->
  exists st' ret', pin_loop st a ids s e ret new = Some (st', ret') /\
    pinned st st' a s e ret ret' lossy.
Proof.
  intros Hse He. induction ids as [|id ids IH]; intros st ret pre A Hi HA Hf El Hpre Hnew Hret Hlo;
    cbn [pin_loop].
  { exists st, ret. split; [done|]. apply pinned_stop; [done..|].
    apply (no_overlap_done st a A s e pre []); try done. intros x q Hx. by apply elem_of_nil in Hx. }
  pose proof Hi as (Hi1 & Hi2 & _). destruct (Hi2 a A HA) as (Hnd & Hd & Hin).
  destruct (Hin id) as (r & Hr & Ha); [rewrite El; apply elem_of_app; right; apply list_elem_of_here|].
  destruct (Hi1 id r Hr) as (Hok & _). pose proof Hok as (Hb1 & Hb2 & Hp01).
  rewrite Hr. cbn [mbind option_bind]. rewrite El in Hnd, Hd. unfold range_before_page.
  destruct (Z.ltb_spec (pgend r) s) as [Hlt|Hge].
  { exists st, ret. split; [done|]. apply pinned_stop; [done..|].
    apply (no_overlap_done st a A s e pre (id :: ids)); try done. intros x q Hx Hq.
    pose proof (descending_before _ _ _ s r (descending_app_r _ _ _ Hd) Hr Hok Hlt x q Hx Hq). lia. }
  assert (Hnewid : forall x, new = Some x -> x <> id) by (intros x Hx ->; rewrite (Hnew id Hx) in Hr; done).
  assert (Hnip : id ∉ pre).
  { intros Hx. apply NoDup_app in Hnd as (_ & Hdis & _). apply (Hdis id Hx), list_elem_of_here. }
  destruct (page_range_in_range r s e) eqn:Eov.
  2:{ apply (IH st ret (pre ++ [id]) A); try done; [by rewrite <- app_assoc|].
      intros x q [Hx| ->%list_elem_of_singleton]%elem_of_app Hq; [by apply (Hpre x)|].
      assert (q = r) as -> by congruence. rewrite <- overlap_iff by (done || lia). by rewrite Eov. }
  apply overlap_iff in Eov as [_ Hov]; [|done|lia].
  assert (Hor := lor_01 _ _ Hret Hp01).
  unfold page_range_subsumes_range.
  destruct ((s <=? pgstart r) && (pgend r <=? e)) eqn:Esub.
  { (* case 1 *)
    apply andb_true_iff in Esub as [E1%Z.leb_le E2%Z.leb_le].
    destruct (range_del_ok st id r A) as (st1 & -> & Hi1' & Er1 & Ea1); try done; [by rewrite Ha|].
    cbn [mbind option_bind]. rewrite Ha in Ea1.
    assert (Hoff : forall x, x <> id -> ranges st1 !! x = ranges st !! x)
      by (intros x Hx; rewrite Er1; by rewrite lookup_delete_ne).
    destruct (IH st1 (Z.lor ret (purged r)) pre (set_list A (pre ++ ids))) as (st' & ret' & E & Hp);
      try done.
    - rewrite Ea1, El, remove_mid, lookup_insert_eq by done. done.
    - intros x q Hx Hq. rewrite Hoff in Hq by congruence. by apply (Hpre x).
    - intros x Hx. rewrite Hoff by by apply Hnewid. by apply Hnew.
    - intros p Hn Hup. apply Hlo; [done|]. apply (upper_part_mono st st1); [|done].
      intros x q1. rewrite Er1. intros [_ Hq1]%lookup_delete_Some. exists q1. split_and!; done.
    - exists st', ret'. split; [done|]. apply (pinned_step st st1 st' a id r); try done; try lia.
      + intros x q Hx Hq. by rewrite Hoff.
      + by apply (trims_delete st st1 a id r). }
  (* the range is shrunk, or split *)
  assert (Hshrink : forall s1 e1, pgstart r <= s1 -> s1 <= e1 -> e1 <= pgend r ->
    ~ (s <= e1 /\ s1 <= e) -> (forall p, pgstart r <= p <= pgend r -> ~ s <= p <= e -> s1 <= p <= e1) ->
    exists st' ret', (st ← range_shrink st id s1 e1; pin_loop st a ids s e (Z.lor ret (purged r)) new)
      = Some (st', ret') /\ pinned st st' a s e ret ret' lossy).
  { intros s1 e1 Hs1 Hse1 He1 Hno Hout.
    destruct (range_shrink_ok st id r s1 e1) as (st1 & -> & Hi1' & Er1 & Ea1); try done.
    cbn [mbind option_bind].
    assert (Hoff : forall x, x <> id -> ranges st1 !! x = ranges st !! x)
      by (intros x Hx; rewrite Er1; by rewrite lookup_insert_ne).
    destruct (IH st1 (Z.lor ret (purged r)) (pre ++ [id]) A) as (st' & ret' & E & Hp); try done.
    - by rewrite Ea1.
    - by rewrite <- app_assoc.
    - intros x q [Hx| ->%list_elem_of_singleton]%elem_of_app Hq.
      + rewrite Hoff in Hq by congruence. by apply (Hpre x).
      + rewrite Er1, lookup_insert_eq in Hq. injection Hq as <-. done.
    - intros x Hx. rewrite Hoff by by apply Hnewid. by apply Hnew.
    - intros p Hn Hup. apply Hlo; [done|]. apply (upper_part_mono st st1); [|done].
      intros x q1. destruct (decide (x = id)) as [->|Hx]; [|rewrite Hoff by done; intros Hq1; by exists q1].
      rewrite Er1, lookup_insert_eq. intros [= <-]. exists r. split_and!; done.
    - exists st', ret'. split; [done|]. apply (pinned_step st st1 st' a id r); try done; try lia.
      + intros x q Hx Hq. by rewrite Hoff.
      + apply (trims_shrink st st1 a id r (mk_range (asma r) s1 e1 (purged r))); try done.
        intros p Hp1 Hp2. left. by apply Hout. }
  apply andb_false_iff in Esub. rewrite !Z.leb_gt in Esub.
  destruct (Z.leb_spec s (pgstart r)).
  { rewrite u32_id by (unfold is_u32; lia). apply Hshrink; lia. }
  destruct (Z.leb_spec (pgend r) e).
  { rewrite u32_id by (unfold is_u32; lia). apply Hshrink; lia. }
  rewrite !u32_id by (unfold is_u32; lia).
  destruct (pin_hole st a A pre id ids r s e ret new lossy) as (st1 & rc & st' & -> & E2 & Hp); try done; try lia.
  { intros p Hp Hn. apply Hlo; [done|]. split; [lia|]. exists id, r. split_and!; try done; lia. }
  cbn [mbind option_bind]. rewrite E2. cbn [mbind option_bind]. by do 2 eexists.
Qed.

(** ** Unpinning *)

Lemma descending_unique m l p x y qx qy : descending m l -> x ∈ l -> y ∈ l ->
  m !! x = Some qx -> m !! y = Some qy -> page_in_range qx p = true -> page_in_range qy p = true -> x = y.
Proof.
  induction l as [|z l IH]; [intros _ Hx; by apply elem_of_nil in Hx|].
  intros [(rz & Hz & Hlt) Hd] Hx Hy Hqx Hqy Hpx Hpy. rewrite in_range_iff in *.
  apply elem_of_cons in Hx as [->|Hx], Hy as [->|Hy]; [done| | |].
  - specialize (Hlt y qy Hy Hqy). assert (qx = rz) as -> by congruence. lia.
  - specialize (Hlt x qx Hx Hqx). assert (qy = rz) as -> by congruence. lia.
  - apply IH; try done; by rewrite in_range_iff.
Qed.

Lemma range_unique st a p x y qx qy : inv st -> ranges st !! x = Some qx -> ranges st !! y = Some qy ->
  asma qx = a -> asma qy = a -> page_in_range qx p = true -> page_in_range qy p = true -> x = y.
Proof.
  intros (H1 & H2 & _) Hx Hy Ha Hb Hp Hq.
  destruct (H1 x qx Hx) as (_ & A & HA & HxA & _). destruct (H1 y qy Hy) as (_ & B & HB & HyB & _).
  assert (B = A) as -> by congruence. destruct (H2 _ _ HA) as (_ & Hd & _).
  by apply (descending_unique (ranges st) (unpinned_list A) p x y qx qy).
Qed.

(** What one pass over the list finds. *)
Definition scan_ok (st : ashmem) (ids : list nat) (s e : Z) (sc : unpin_scan) : Prop :=
  match sc with
  | Covered => exists id r, id ∈ ids /\ ranges st !! id = Some r /\ pgstart r <= s /\ e <= pgend r
  | Merge id => exists r, id ∈ ids /\ ranges st !! id = Some r /\ s <= pgend r /\ pgstart r <= e
  | InsertAt pos => insertion_point (ranges st) pos ids s e /\
      (forall x, pos = Some x -> x ∈ ids)
  end.

Lemma scan_unpin_ok st s e ids : s <= e -> NoDup ids -> descending (ranges st) ids ->
  (forall id r, id ∈ ids -> ranges st !! id = Some r -> range_ok r) ->
  exists sc, scan_unpin st ids s e = Some sc /\ scan_ok st ids s e sc.
Proof.
  intros Hse. induction ids as [|id ids IH]; intros Hnd Hd Hok; cbn [scan_unpin].
  { eexists; split; [done|]. split; [done|]. done. }
  pose proof Hd as [(r & Hr & Hlt) Hd']. rewrite Hr. cbn [mbind option_bind].
  assert (Hrok : range_ok r) by (apply (Hok id); [apply list_elem_of_here|done]).
  unfold range_before_page. destruct (Z.ltb_spec (pgend r) s) as [Hb|Hb].
  { eexists; split; [done|]. split; [|intros x [= <-]; apply list_elem_of_here].
    cbn [insertion_point]. rewrite decide_True by done.
    by apply (descending_before _ _ _ s r). }
  unfold page_range_subsumed_by_range.
  destruct ((pgstart r <=? s) && (e <=? pgend r)) eqn:Ec.
  { apply andb_true_iff in Ec as [?%Z.leb_le ?%Z.leb_le]. eexists; split; [done|].
    exists id, r. split; [apply list_elem_of_here|done]. }
  destruct (page_range_in_range r s e) eqn:Eo.
  { apply overlap_iff in Eo; [|done|done]. eexists; split; [done|].
    exists r. split; [apply list_elem_of_here|done]. }
  assert (Hgt : e < pgstart r).
  { apply not_true_iff_false in Eo. rewrite overlap_iff in Eo by done. lia. }
  apply NoDup_cons in Hnd as [Hni Hnd].
  destruct IH as (sc & Esc & Hsc); try done.
  { intros x q Hx. apply Hok. by apply list_elem_of_further. }
  exists sc. split; [done|]. destruct sc as [|x|pos]; cbn [scan_ok] in *.
  - destruct Hsc as (x & q & Hx & Hq). exists x, q. split; [by apply list_elem_of_further|done].
  - destruct Hsc as (q & Hx & Hq). exists q. split; [by apply list_elem_of_further|done].
  - destruct Hsc as [Hip Hpos]. split; [|intros x Hx; apply list_elem_of_further; by apply Hpos].
    cbn [insertion_point]. rewrite decide_False by (intros ->; by apply Hni, Hpos).
    split; [|done]. intros rx Hrx. congruence.
Qed.

(** The effect of unpinning [s..e] with the purge flag [pu] collected so far:
    [s..e] becomes unpinned, what was unpinned stays so, a purged page stays
    purged, and a page is newly reported purged only if [pu] is set or [s..e]
    touches a purged range.  [ok]: the allocation succeeded. *)
Definition unpinned (st st' : ashmem) (a : nat) (s e pu : Z) (ok : Prop) : Prop :=
  inv st' /\
  (forall b p v, b <> a -> covers st' b p v <-> covers st b p v) /\
  (forall p w, covers st' a p w -> s <= p <= e \/ exists v, covers st a p v) /\
  (forall p, covers st' a p 1 -> covers st a p 1 \/ pu = 1 \/ purged_in st a s e) /\
  (ok ->
    (forall p, s <= p <= e -> exists v, covers st' a p v) /\
    (forall p v, covers st a p v -> exists w, covers st' a p w /\ (v = 1 -> w = 1)) /\
    (pu = 1 -> forall p, s <= p <= e -> covers st' a p 1)).

Lemma unpinned_insert st st' a x s e pu ok : inv st' -> ranges st !! x = None ->
  ranges st' = <[x := mk_range a s e pu]> (ranges st) -> unpinned st st' a s e pu ok.
Proof.
  intros Hi Hx Er.
  assert (Hcov : forall b p v, covers st' b p v <->
    covers st b p v \/ (b = a /\ v = pu /\ s <= p <= e)).
  { intros b p v. unfold covers. rewrite Er. split.
    - intros (y & q & Hy & Hq). destruct (decide (y = x)) as [->|].
      + rewrite lookup_insert_eq in Hy. injection Hy as <-. rewrite in_range_iff in Hq. simpl in Hq.
        destruct Hq as (<- & ? & <-). by right.
      + rewrite lookup_insert_ne in Hy by done. left. by exists y, q.
    - intros [(y & q & Hy & Hq)|(-> & -> & Hp)].
      + exists y, q. rewrite lookup_insert_ne; [done|]. congruence.
      + exists x. eexists. rewrite lookup_insert_eq, in_range_iff. done. }
  split; [done|]. split_and!.
  - intros b p v Hb. rewrite Hcov. split; [|by left]. intros [?|[? _]]; done.
  - intros p w [?|(_ & _ & ?)]%Hcov; [right; by eexists|by left].
  - intros p [?|(_ & <- & _)]%Hcov; auto.
  - intros _. split_and!.
    + intros p Hp. exists pu. apply Hcov. by right.
    + intros p v Hc. exists v. split; [|done]. apply Hcov. by left.
    + intros -> p Hp. apply Hcov. by right.
Qed.

(** Absorbing the range [id] that overlaps [s..e]. *)
Lemma unpinned_merge st st1 st' a id r s e pu ok : inv st -> ranges st !! id = Some r -> asma r = a ->
  s <= e -> s <= pgend r -> pgstart r <= e -> (pu = 0 \/ pu = 1) ->
  ranges st1 = delete id (ranges st) ->
  unpinned st1 st' a (Z.min (pgstart r) s) (Z.max (pgend r) e) (Z.lor pu (purged r)) ok ->
  unpinned st st' a s e pu ok.
Proof.
  intros Hi Hr Ha Hse H1 H2 Hpu Er (Hi' & HF & HC & HE & Hok). pose proof Hi as (Hi1 & _).
  destruct (Hi1 id r Hr) as ((Hb & _ & Hp01) & _).
  assert (Hlor : Z.lor pu (purged r) = 1 <-> pu = 1 \/ purged r = 1).
  { destruct Hpu as [-> | ->], Hp01 as [E|E]; rewrite E; vm_compute; intuition discriminate. }
  assert (Hsub : forall b p v, covers st1 b p v -> covers st b p v).
  { intros b p v (x & q & Hx & Hq). rewrite Er in Hx. apply lookup_delete_Some in Hx as [_ Hx].
    by exists x, q. }
  assert (Hout : forall b p v, covers st b p v ->
    covers st1 b p v \/ (b = a /\ v = purged r /\ pgstart r <= p <= pgend r)).
  { intros b p v (x & q & Hx & Hqa & Hqp & Hqv). destruct (decide (x = id)) as [->|].
    - right. assert (q = r) as -> by congruence. rewrite in_range_iff in Hqp. by subst.
    - left. exists x, q. rewrite Er, lookup_delete_ne by done. done. }
  split; [done|]. split_and!.
  - intros b p v Hne. rewrite HF by done. split; [by apply Hsub|].
    intros Hc. destruct (Hout b p v Hc) as [|(-> & _)]; done.
  - intros p w Hc. destruct (HC p w Hc) as [Hp|[v Hv]].
    + destruct (decide (s <= p <= e)); [by left|]. right. exists (purged r), id, r.
      rewrite in_range_iff. split_and!; try done; lia.
    + right. exists v. by apply Hsub.
  - intros p Hc. destruct (HE p Hc) as [?|[Hp|(q & Hq & Hqc)]].
    + left. by apply Hsub.
    + apply Hlor in Hp as [?|Hp]; [by right; left|]. right; right.
      exists (Z.max s (pgstart r)). split; [lia|]. exists id, r. rewrite in_range_iff.
      split_and!; try done; lia.
    + right; right. destruct (decide (s <= q <= e)); [exists q; split; [done|by apply Hsub]|].
      exfalso. destruct Hqc as (x & qr & Hx & Hxa & Hxp & _). rewrite Er in Hx.
      apply lookup_delete_Some in Hx as [Hne Hx]. apply Hne.
      apply (range_unique st a q id x r qr); try done. rewrite in_range_iff. lia.
  - intros Hk. destruct (Hok Hk) as (HA & HB & HD). split_and!.
    + intros p Hp. apply HA. lia.
    + intros p v Hc. destruct (Hout a p v Hc) as [Hc1|(_ & -> & Hp)]; [by apply HB|].
      destruct Hp01 as [E|E].
      * destruct (HA p) as [w Hw]; [lia|]. exists w. split; [done|]. rewrite E. done.
      * exists 1. split; [|done]. apply HD; [|lia]. apply Hlor. by right.
    + intros -> p Hp. apply HD; [|lia]. apply Hlor. by left.
Qed.

Lemma length_remove_id id l : id ∈ l -> (length (remove_id id l) < length l)%nat.
Proof.
  induction l as [|x l IH]; [by rewrite elem_of_nil|]. intros Hin. unfold remove_id.
  destruct (decide (x = id)) as [->|Hne].
  - rewrite filter_cons_False by tauto. cbn [length]. fold (remove_id id l).
    pose proof (length_filter (fun y => y <> id) l). unfold remove_id. lia.
  - rewrite filter_cons_True by done. cbn [length]. fold (remove_id id l).
    apply elem_of_cons in Hin as [|Hin]; [done|]. specialize (IH Hin). lia.
Qed.

Lemma unpin_loop_ok a new fuel : forall st A s e pu, inv st -> areas st !! a = Some A ->
  file A = true -> (length (unpinned_list A) < fuel)%nat -> 0 <= s <= e -> e < 2 ^ 20 ->
  (pu = 0 \/ pu = 1) -> (pu = 0 \/ exists p, s <= p <= e /\ forall v, ~ covers st a p v) ->
  (forall x, new = Some x -> ranges st !! x = None) ->
  exists st' ret, unpin_loop fuel st a s e pu new = Some (st', ret) /\
    unpinned st st' a s e pu (new <> None) /\ (new <> None -> ret = 0).
Proof.
  induction fuel as [|fuel IH]; intros st A s e pu Hi HA Hf Hfuel Hse He Hpu Hun Hnew; [lia|].
  pose proof Hi as (Hi1 & Hi2 & _). destruct (Hi2 a A HA) as (Hnd & Hd & Hin).
  cbn [unpin_loop]. rewrite HA. cbn [mbind option_bind].
  destruct (scan_unpin_ok st s e (unpinned_list A)) as (sc & -> & Hsc); try done; [lia| |].
  { intros id r Hid Hr. by apply (Hi1 id). }
  cbn [mbind option_bind]. destruct sc as [|id|pos]; cbn [scan_ok] in Hsc.
  - destruct Hsc as (id & r & Hid & Hr & H1 & H2).
    destruct (Hin id Hid) as (r' & Hr' & Ha). assert (r' = r) as -> by congruence.
    assert (Hall : forall p, s <= p <= e -> covers st a p (purged r)).
    { intros p Hp. exists id, r. rewrite in_range_iff. split_and!; try done; lia. }
    exists st, 0. split; [done|]. split; [|done]. split; [done|]. split_and!; try done.
    + intros p w Hc. right. by eexists.
    + intros p Hc. by left.
    + intros _. split_and!.
      * intros p Hp. eexists. by apply Hall.
      * intros p v Hc. by exists v.
      * intros -> p Hp. destruct Hun as [|(q & Hq & Hno)]; [done|].
        exfalso. by apply (Hno (purged r)), Hall.
  - destruct Hsc as (r & Hid & Hr & H1 & H2).
    destruct (Hin id Hid) as (r' & Hr' & Ha). assert (r' = r) as -> by congruence.
    destruct (Hi1 id r Hr) as (Hok & _). pose proof Hok as (Hb1 & Hb2 & Hp01).
    rewrite Hr. cbn [mbind option_bind].
    destruct (range_del_ok st id r A) as (st1 & -> & Hi' & Er & Ea); try done; [by rewrite Ha|].
    cbn [mbind option_bind]. rewrite Ha in Ea.
    destruct (IH st1 (set_list A (remove_id id (unpinned_list A))) (Z.min (pgstart r) s)
      (Z.max (pgend r) e) (Z.lor pu (purged r))) as (st' & ret & E & Hu & Hret); try done.
    + by rewrite Ea, lookup_insert_eq.
    + cbn [set_list unpinned_list]. pose proof (length_remove_id id _ Hid). lia.
    + lia.
    + lia.
    + by apply lor_01.
    + right. exists (pgstart r). split; [lia|]. intros v (x & q & Hx & Hxa & Hxp & _).
      rewrite Er in Hx. apply lookup_delete_Some in Hx as [Hne Hx]. apply Hne.
      apply (range_unique st a (pgstart r) id x r q); try done. rewrite in_range_iff. lia.
    + intros x Hx. rewrite Er. apply lookup_delete_None. right. by apply Hnew.
    + exists st', ret. split; [done|]. split; [|done].
      apply (unpinned_merge st st1 st' a id r); try done; lia.
  - destruct Hsc as [Hip _]. destruct new as [x|].
    + destruct (range_alloc_ok st a A x pos pu s e) as (st' & E & Hi' & Er & _); try done.
      * by apply Hnew.
      * exists st', 0. split; [done|]. split; [|done].
        apply (unpinned_insert st st' a x); try done. by apply Hnew.
    + exists st, (- ENOMEM). split; [done|]. split; [|done]. split; [done|]. split_and!; try done.
      * intros p w Hc. right. by eexists.
      * intros p Hc. by left.
Qed.

(** ** Pin status *)

Lemma status_ok st a A s e : inv st -> areas st !! a = Some A -> 0 <= s <= e ->
  exists r, ashmem_get_pin_status st a s e = Some r /\
    (r = ASHMEM_IS_UNPINNED /\ (exists p v, s <= p <= e /\ covers st a p v) \/
     r = ASHMEM_IS_PINNED /\ (forall p v, s <= p <= e -> ~ covers st a p v)).
Proof.
  intros Hi HA Hse. unfold ashmem_get_pin_status. rewrite HA. cbn [mbind option_bind].
  pose proof Hi as (Hi1 & Hi2 & _). destruct (Hi2 a A HA) as (Hnd & Hd & Hin).
  assert (H : forall ids pre, unpinned_list A = pre ++ ids ->
    (forall x q, x ∈ pre -> ranges st !! x = Some q -> ~ (s <= pgend q /\ pgstart q <= e)) ->
    exists r, status_loop st ids s e = Some r /\
    (r = ASHMEM_IS_UNPINNED /\ (exists p v, s <= p <= e /\ covers st a p v) \/
     r = ASHMEM_IS_PINNED /\ (forall p v, s <= p <= e -> ~ covers st a p v))).
  { induction ids as [|id ids IH]; intros pre El Hpre; cbn [status_loop].
    { eexists; split; [done|]. right. split; [done|].
      apply (no_overlap_done st a A s e pre []); try done. intros x q Hx. by apply elem_of_nil in Hx. }
    destruct (Hin id) as (r & Hr & Ha); [rewrite El; apply elem_of_app; right; apply list_elem_of_here|].
    destruct (Hi1 id r Hr) as (Hok & _). rewrite Hr. cbn [mbind option_bind]. unfold range_before_page.
    destruct (Z.ltb_spec (pgend r) s) as [Hlt|Hge].
    { eexists; split; [done|]. right. split; [done|].
      apply (no_overlap_done st a A s e pre (id :: ids)); try done. intros x q Hx Hq.
      rewrite El in Hd.
      pose proof (descending_before _ _ _ s r (descending_app_r _ _ _ Hd) Hr Hok Hlt x q Hx Hq). lia. }
    destruct (page_range_in_range r s e) eqn:Eov.
    - apply overlap_iff in Eov; [|done|lia]. eexists; split; [done|]. left. split; [done|].
      exists (Z.max s (pgstart r)), (purged r). split; [lia|]. exists id, r. rewrite in_range_iff.
      destruct Hok as (? & _). split_and!; try done; lia.
    - apply (IH (pre ++ [id])); [by rewrite <- app_assoc|].
      intros x q [Hx| ->%list_elem_of_singleton]%elem_of_app Hq; [by apply (Hpre x)|].
      assert (q = r) as -> by congruence. rewrite <- overlap_iff by (done || lia). by rewrite Eov. }
  apply (H (unpinned_list A) []); [done|]. intros x q Hx. by apply elem_of_nil in Hx.
Qed.

(** ** The shrinker *)

(** Marking a range purged takes it off the LRU list and out of the count. *)
Lemma purge_ok st id r : inv st -> id ∈ ashmem_lru_list st -> ranges st !! id = Some r ->
  let r' := mk_range (asma r) (pgstart r) (pgend r) ASHMEM_WAS_PURGED in
  inv (lru_del (mk_ashmem (areas st) (<[id := r']> (ranges st)) (ashmem_lru_list st)
         (lru_count st)) id r').
Proof.
  intros (H1 & H2 & H3 & H4 & H5) Hid Hr r'. destruct (H1 id r Hr) as (Hok & HA).
  assert (Hok' : range_ok r') by (destruct Hok as (? & ? & _); split; [done|split; [done|by right]]).
  split; [|split; [|split; [|split]]]; simpl.
  - intros x q. destruct (decide (x = id)) as [->|].
    + rewrite lookup_insert_eq. intros [= <-]. done.
    + rewrite lookup_insert_ne by done. apply H1.
  - intros a B HB. destruct (H2 a B HB) as (Hnd & Hd & Hin). split; [done|]. split.
    + by apply (descending_shrink _ _ r).
    + intros x Hx. destruct (Hin x Hx) as (q & Hq & Ha). destruct (decide (x = id)) as [->|].
      * exists r'. rewrite lookup_insert_eq. split; [done|]. simpl. congruence.
      * exists q. by rewrite lookup_insert_ne by done.
  - by apply NoDup_remove_id.
  - intros x. rewrite elem_of_remove_id, H4. destruct (decide (x = id)) as [->|].
    + rewrite lookup_insert_eq. split; [tauto|]. intros (q & [= <-] & ?). done.
    + rewrite lookup_insert_ne by done. tauto.
  - rewrite H5, range_size_ok, u32_sub_l by done. f_equal.
    rewrite lru_sum_insert_notin by (rewrite elem_of_remove_id; tauto).
    by rewrite (lru_sum_remove _ _ r) by done.
Qed.

(** The byte range of the backing file that a range stands for. *)
Definition truncated (r : ashmem_range) : nat * Z * Z :=
  (asma r, pgstart r * PAGE_SIZE, (pgend r + 1) * PAGE_SIZE - 1).

Definition purge (r : ashmem_range) : ashmem_range :=
  mk_range (asma r) (pgstart r) (pgend r) ASHMEM_WAS_PURGED.

(** [purges st st' ids]: the ranges [ids] are now purged, the others untouched. *)
Definition purges (st st' : ashmem) (ids : list nat) : Prop :=
  areas st' = areas st /\
  forall x, ranges st' !! x = (if decide (x ∈ ids) then purge <$> ranges st !! x else ranges st !! x).

Lemma truncated_ok r : range_ok r ->
  (asma r, pgstart r *u PAGE_SIZE, u32 (u32 (u32 (pgend r + 1) * PAGE_SIZE) - 1)) = truncated r.
Proof.
  intros (H1 & H2 & _). unfold truncated, PAGE_SIZE. f_equal; [f_equal|].
  - apply u32_id. unfold is_u32. lia.
  - rewrite u32_sub_l. rewrite (u32_id (pgend r + 1)) by (unfold is_u32; lia).
    apply u32_id. unfold is_u32. lia.
Qed.

Lemma shrink_loop_ok ids : forall st nr out, inv st -> ashmem_lru_list st = ids -> 0 < nr < 2 ^ 31 ->
  exists k st', shrink_loop st ids nr out =
      Some (st', out ++ omap (fun id => truncated <$> ranges st !! id) (take k ids)) /\
    inv st' /\ purges st st' (take k ids) /\ ashmem_lru_list st' = drop k ids /\
    (drop k ids <> [] -> nr <= lru_sum (ranges st) (take k ids)) /\
    lru_sum (ranges st) (take (k - 1) ids) < nr.
Proof.
  induction ids as [|id ids IH]; intros st nr out Hi El Hnr; cbn [shrink_loop].
  { exists 0%nat, st. rewrite app_nil_r. split; [done|]. split; [done|]. split; [|simpl; split_and!; try done; lia].
    split; [done|]. intros x. by rewrite decide_False by apply not_elem_of_nil. }
  pose proof Hi as (H1 & H2 & H3 & H4 & H5).
  assert (Hin : id ∈ ashmem_lru_list st) by (rewrite El; apply list_elem_of_here).
  destruct (proj1 (H4 id) Hin) as (r & Hr & Hp). destruct (H1 id r Hr) as (Hok & A & HA & _ & Hf).
  rewrite Hr. cbn [mbind option_bind]. rewrite HA. cbn [mbind option_bind]. rewrite Hf. cbn [negb].
  pose proof (purge_ok st id r Hi Hin Hr) as Hi1. fold (purge r) in *.
  set (st1 := lru_del _ id (purge r)) in *. rewrite truncated_ok by done.
  rewrite El in H3. apply NoDup_cons in H3 as [Hni Hnd].
  assert (Hok' : range_ok (purge r)) by (destruct Hok as (? & ? & _); split; [done|split; [done|by right]]).
  rewrite range_size_ok by done.
  assert (Hlen : rlen (purge r) = rlen r) by done. rewrite Hlen.
  destruct Hok as (Hb1 & Hb2 & _).
  rewrite s32_id by (unfold is_s32, rlen; lia).
  assert (El1 : ashmem_lru_list st1 = ids).
  { simpl. rewrite El. unfold remove_id. rewrite filter_cons_False by tauto.
    fold (remove_id id ids). by apply remove_id_notin. }
  assert (Hone : purges st st1 [id]).
  { split; [done|]. intros x. simpl. destruct (decide (x ∈ [id])) as [->%list_elem_of_singleton|Hx].
    - by rewrite lookup_insert_eq, Hr.
    - rewrite lookup_insert_ne; [done|]. intros <-. apply Hx. apply list_elem_of_here. }
  assert (Homap : omap (fun id => truncated <$> ranges st !! id) [id] = [truncated r]).
  { simpl. by rewrite Hr. }
  destruct (Z.leb_spec (nr - rlen r) 0) as [Hdone|Hmore].
  { exists 1%nat, st1. cbn [take drop]. rewrite take_0, drop_0, Homap. split; [done|]. split; [done|].
    split; [done|]. split; [done|]. rewrite lru_sum_cons, Hr. cbn [lru_sum foldr Nat.sub take].
    split; [intros _; lia|lia]. }
  destruct (IH st1 (nr - rlen r) (out ++ [truncated r]) Hi1 El1) as
    (k & st' & E & Hi' & [Hpa Hpr] & Hdrop & Hsum1 & Hsum2); [unfold rlen in *; lia|].
  assert (Hoff : forall x, x ∈ ids -> ranges st1 !! x = ranges st !! x).
  { intros x Hx. simpl. rewrite lookup_insert_ne; [done|]. congruence. }
  assert (Hsum : forall j, lru_sum (ranges st1) (take j ids) = lru_sum (ranges st) (take j ids)).
  { intros j. simpl. apply lru_sum_insert_notin. intros Hx. apply Hni. by apply elem_of_take in Hx as (? & ?%list_elem_of_lookup_2 & _). }
  exists (S k), st'. cbn [take drop]. rewrite E. split.
  { do 2 f_equal. rewrite <- app_assoc. f_equal. change (id :: take k ids) with ([id] ++ take k ids).
    rewrite omap_app, Homap. cbn [app]. f_equal. apply list_omap_ext. apply Forall2_same_length_lookup_2; [done|].
    intros i x y Hx Hy. assert (x = y) as -> by congruence. rewrite Hoff; [done|].
    apply lookup_take_Some in Hy as [Hy _]. by apply list_elem_of_lookup_2 in Hy. }
  split; [done|]. split; [|split; [done|]].
  { split; [done|]. intros x. rewrite Hpr. destruct Hone as [_ Hone]. rewrite Hone.
    destruct (decide (x = id)) as [->|Hne].
    - rewrite decide_False, !decide_True; try done; try apply list_elem_of_here.
      intros Hx. apply Hni. by apply elem_of_take in Hx as (? & ?%list_elem_of_lookup_2 & _).
    - rewrite (decide_False (P := x ∈ [id])) by by rewrite list_elem_of_singleton.
      destruct (decide (x ∈ take k ids)).
      + by rewrite decide_True by by apply list_elem_of_further.
      + rewrite decide_False; [done|]. by intros [|]%elem_of_cons. }
  rewrite lru_sum_cons, Hr. rewrite Hsum in Hsum1. split; [intros Hne; specialize (Hsum1 Hne); lia|].
  cbn [Nat.sub]. rewrite Nat.sub_0_r. destruct k as [|k]; [simpl; lia|]. cbn [take].
  rewrite Hsum in Hsum2. cbn [Nat.sub] in Hsum2. rewrite Nat.sub_0_r in Hsum2.
  rewrite lru_sum_cons, Hr. lia.
Qed.

(** ** The other operations keep the invariant *)

(** An area may change everything but its list, and may gain its file. *)
Lemma set_area_inv st a A A' : inv st -> areas st !! a = Some A ->
  unpinned_list A' = unpinned_list A -> (file A = true -> file A' = true) ->
  inv (set_area st a A') /\ forall b p v, covers (set_area st a A') b p v <-> covers st b p v.
Proof.
  intros (H1 & H2 & H3 & H4 & H5) HA El Hf. split; [|done].
  split; [|split; [|split; [|split]]]; simpl; try done.
  - intros id r Hr. destruct (H1 id r Hr) as (Hok & B & HB & Hin & HBf). split; [done|].
    destruct (decide (asma r = a)) as [E|].
    + exists A'. rewrite E, lookup_insert_eq, El. assert (B = A) as -> by congruence. auto.
    + exists B. by rewrite lookup_insert_ne by done.
  - intros b B. destruct (decide (b = a)) as [->|].
    + rewrite lookup_insert_eq. intros [= <-]. rewrite El. by apply H2.
    + rewrite lookup_insert_ne by done. apply H2.
Qed.

Lemma open_inv st a sr km : inv st -> areas st !! a = None -> inv (fst (ashmem_open st a sr km)).
Proof.
  intros (H1 & H2 & H3 & H4 & H5) HA. unfold ashmem_open.
  destruct (negb (sr =? 0)); [done|]. destruct km; [|done]. simpl.
  split; [|split; [|split; [|split]]]; simpl; try done.
  - intros id r Hr. destruct (H1 id r Hr) as (Hok & B & HB & ?). split; [done|]. exists B.
    rewrite lookup_insert_ne by congruence. done.
  - intros b B. destruct (decide (b = a)) as [->|].
    + rewrite lookup_insert_eq. intros [= <-]. simpl. split; [constructor|]. split; [done|].
      intros id Hid. by apply elem_of_nil in Hid.
    + rewrite lookup_insert_ne by done. apply H2.
Qed.

Lemma release_loop_ok a ids : forall st A, inv st -> areas st !! a = Some A ->
  unpinned_list A = ids ->
  exists st' A', release_loop st ids = Some st' /\ inv st' /\ areas st' !! a = Some A' /\
    unpinned_list A' = [] /\ forall b p v, b <> a -> covers st' b p v <-> covers st b p v.
Proof.
  induction ids as [|id ids IH]; intros st A Hi HA El; cbn [release_loop].
  { exists st, A. by split_and!. }
  pose proof Hi as (_ & H2 & _). destruct (H2 a A HA) as (Hnd & _ & Hin).
  destruct (Hin id) as (r & Hr & Ha); [rewrite El; apply list_elem_of_here|].
  destruct (range_del_ok st id r A) as (st1 & -> & Hi1 & Er & Ea); [done|done|by rewrite Ha|].
  cbn [mbind option_bind]. rewrite Ha in Ea. rewrite El in Hnd.
  destruct (IH st1 (set_list A ids)) as (st' & A' & E & Hi' & HA' & El' & Hc); [done| |done|].
  - rewrite Ea, El, lookup_insert_eq. change (id :: ids) with ([] ++ id :: ids).
    by rewrite remove_mid by done.
  - exists st', A'. split_and!; try done. intros b p v Hb. rewrite Hc by done. unfold covers.
    rewrite Er. split; intros (x & q & Hx & Hq).
    + apply lookup_delete_Some in Hx as [_ Hx]. by exists x, q.
    + exists x, q. rewrite lookup_delete_ne; [done|]. destruct Hq as [Hq _]. congruence.
Qed.

Lemma release_inv st a A : inv st -> areas st !! a = Some A ->
  exists st', ashmem_release st a = Some st' /\ inv st' /\
    forall b p v, b <> a -> covers st' b p v <-> covers st b p v.
Proof.
  intros Hi HA. unfold ashmem_release. rewrite HA. cbn [mbind option_bind].
  destruct (release_loop_ok a (unpinned_list A) st A) as (st1 & A1 & -> & Hi1 & HA1 & El & Hc); try done.
  cbn [mbind option_bind]. eexists; split; [done|]. split; [|done].
  destruct Hi1 as (H1 & H2 & H3 & H4 & H5). split; [|split; [|split; [|split]]]; simpl; try done.
  - intros id r Hr. destruct (H1 id r Hr) as (Hok & B & HB & Hin & Hf). split; [done|]. exists B.
    rewrite lookup_delete_ne; [done|]. intros E. rewrite <- E in HB.
    assert (B = A1) as -> by congruence. rewrite El in Hin. by apply elem_of_nil in Hin.
  - intros b B [_ HB]%lookup_delete_Some. by apply H2.
Qed.

Lemma shrink_inv st nr fs : inv st -> - 2 ^ 31 <= nr < 2 ^ 31 -> 0 <= nr \/ nr < 0 /\ fs = false ->
  exists st' out ret, ashmem_shrink st nr fs = Some (st', out, ret) /\ inv st' /\
    (0 < nr -> fs = true -> exists k,
      out = omap (fun id => truncated <$> ranges st !! id) (take k (ashmem_lru_list st)) /\
      purges st st' (take k (ashmem_lru_list st)) /\
      ashmem_lru_list st' = drop k (ashmem_lru_list st) /\
      (drop k (ashmem_lru_list st) <> [] ->
         nr <= lru_sum (ranges st) (take k (ashmem_lru_list st))) /\
      lru_sum (ranges st) (take (k - 1) (ashmem_lru_list st)) < nr).
Proof.
  intros Hi Hnr Hcase. unfold ashmem_shrink.
  destruct (Z.eqb_spec nr 0) as [->|Hne].
  { simpl. do 3 eexists. split; [done|]. split; [done|]. lia. }
  destruct fs; cbn [negb andb].
  2:{ do 3 eexists. split; [done|]. split; done. }
  destruct (shrink_loop_ok (ashmem_lru_list st) st nr []) as (k & st' & -> & Hi' & Hp & El & H1 & H2);
    try done; [lia|].
  cbn [mbind option_bind app]. do 3 eexists. split; [done|]. split; [done|]. intros _ _. by exists k.
Qed.

(** ** The pin arguments *)

Lemma lor_aligned x y k : 0 <= k -> 0 <= x -> 0 <= y -> Z.land (Z.lor x y) (2 ^ k - 1) = 0 ->
  x mod 2 ^ k = 0 /\ y mod 2 ^ k = 0.
Proof.
  intros Hk Hx Hy H. rewrite <- !land_mask by lia.
  assert (E : forall i, Z.testbit (Z.land (Z.lor x y) (2 ^ k - 1)) i = false)
    by (intros; rewrite H; apply Z.testbit_0_l).
  split; apply Z.bits_inj'; intros i Hi; specialize (E i); rewrite Z.testbit_0_l;
    rewrite !Z.land_spec, ?Z.lor_spec in *; destruct (Z.testbit (2 ^ k - 1) i);
    rewrite ?andb_true_r, ?andb_false_r in *; try done; apply orb_false_iff in E as [? ?]; done.
Qed.

Lemma PAGE_ALIGN_ok x : is_u32 (PAGE_ALIGN x) /\ PAGE_ALIGN x mod PAGE_SIZE = 0.
Proof.
  unfold PAGE_ALIGN, PAGE_SIZE. change (u32 (Z.lnot (4096 - 1))) with (2 ^ 32 - 2 ^ 12).
  pose proof (u32_range (x + (4096 - 1))) as Hr. set (y := u32 (x + (4096 - 1))) in *.
  rewrite land_high_mask by lia. change (2 ^ 12) with 4096. unfold is_u32.
  Z.to_euclidean_division_equations. lia.
Qed.

(** The request a pin ioctl passes on: pages [s..e], inside 32 bits of bytes. *)
Lemma pin_args st a A cmd offset plen new st' ret : areas st !! a = Some A -> file A = true ->
  is_u32 offset -> is_u32 plen -> ~ (plen = 0 /\ offset = PAGE_ALIGN (size A)) ->
  ashmem_pin_unpin st a cmd (Some (offset, plen)) new = Some (st', ret) ->
  (st' = st /\ ret = - EINVAL) \/
  exists s e, 0 <= s <= e /\ e < 2 ^ 20 /\
    match cmd with
    | ASHMEM_PIN => ashmem_pin st a s e new
    | ASHMEM_UNPIN => ashmem_unpin st a s e new
    | ASHMEM_GET_PIN_STATUS => r ← ashmem_get_pin_status st a s e; Some (st, r)
    end = Some (st', ret).
Proof.
  intros HA Hf Ho Hl Hne. unfold ashmem_pin_unpin. rewrite HA. cbn [mbind option_bind].
  rewrite Hf. cbn [negb]. destruct (PAGE_ALIGN_ok (size A)) as [Hpa Hpm].
  set (P := PAGE_ALIGN (size A)) in *.
  set (pl := if plen =? 0 then u32 (P - offset) else plen).
  assert (Hpl : is_u32 pl) by (subst pl; destruct (plen =? 0); [apply u32_range|done]).
  unfold is_u32 in *.
  destruct (Z.eqb_spec (Z.land (Z.lor offset pl) (PAGE_SIZE - 1)) 0) as [Hal|]; cbn [negb];
    [|intros [= <- <-]; by left].
  apply (lor_aligned offset pl 12) in Hal as [Ho0 Hp0]; try lia. change (2 ^ 12) with 4096 in *.
  rewrite (u32_id (u32 (-1) - offset)) by (change (u32 (-1)) with (2 ^ 32 - 1); unfold is_u32; lia).
  change (u32 (-1)) with (2 ^ 32 - 1).
  destruct (Z.ltb_spec (2 ^ 32 - 1 - offset) pl) as [|Hsum]; [intros [= <- <-]; by left|].
  rewrite (u32_id (offset + pl)) by (unfold is_u32; lia).
  destruct (Z.ltb_spec P (offset + pl)) as [|Hle]; [intros [= <- <-]; by left|].
  assert (Hpos : 0 < pl).
  { subst pl. destruct (Z.eqb_spec plen 0) as [->|]; [|lia].
    destruct (Z.ltb_spec 0 (u32 (P - offset))) as [|Hz]; [done|]. exfalso. apply Hne. split; [done|].
    unfold u32, wrap in Hz, Hle. pose proof (Z.mod_pos_bound (P - offset) (2 ^ 32) ltac:(lia)).
    Z.to_euclidean_division_equations. lia. }
  unfold PAGE_SIZE in *. rewrite u32_sub_l, u32_id.
  2:{ unfold is_u32. Z.to_euclidean_division_equations. lia. }
  intros H. right. exists (offset / 4096), (offset / 4096 + pl / 4096 - 1).
  split; [Z.to_euclidean_division_equations; lia|].
  split; [Z.to_euclidean_division_equations; lia|]. done.
Qed.

(** For any scan count the shrinker keeps the invariant. *)
Lemma shrink_loop_inv ids : forall st nr out, inv st -> ashmem_lru_list st = ids ->
  exists st' out', shrink_loop st ids nr out = Some (st', out') /\ inv st'.
Proof.
  induction ids as [|id ids IH]; intros st nr out Hi El; cbn [shrink_loop]; [by do 2 eexists|].
  pose proof Hi as (H1 & _ & H3 & H4 & _).
  assert (Hin : id ∈ ashmem_lru_list st) by (rewrite El; apply list_elem_of_here).
  destruct (proj1 (H4 id) Hin) as (r & Hr & Hp). destruct (H1 id r Hr) as (Hok & A & HA & _ & Hf).
  rewrite Hr. cbn [mbind option_bind]. rewrite HA. cbn [mbind option_bind]. rewrite Hf. cbn [negb].
  pose proof (purge_ok st id r Hi Hin Hr) as Hi1. cbv zeta in Hi1.
  destruct (_ <=? 0); [by do 2 eexists|]. apply IH; [done|]. simpl. rewrite El in *.
  apply NoDup_cons in H3 as [Hni _]. unfold remove_id. rewrite filter_cons_False by tauto.
  fold (remove_id id ids). by apply remove_id_notin.
Qed.

Lemma shrink_any_inv st nr fs : inv st ->
  exists st' out ret, ashmem_shrink st nr fs = Some (st', out, ret) /\ inv st'.
Proof.
  intros Hi. unfold ashmem_shrink.
  destruct (negb (nr =? 0) && negb fs); [by do 3 eexists|].
  destruct (nr =? 0); [by do 3 eexists|].
  destruct (shrink_loop_inv (ashmem_lru_list st) st nr [] Hi eq_refl) as (st' & out & -> & ?).
  by do 3 eexists.
Qed.

Lemma pin_ok st a A s e new : inv st -> areas st !! a = Some A -> file A = true ->
  0 <= s <= e -> e < 2 ^ 20 -> (forall x, new = Some x -> ranges st !! x = None) ->
  exists st' ret, ashmem_pin st a s e new = Some (st', ret) /\ 
    pinned st st' a s e 0 ret (fun p => new = None /\ upper_part st a s e p).
Proof.
  intros Hi HA Hf Hse He Hnew. unfold ashmem_pin. rewrite HA. cbn [mbind option_bind].
  apply (pin_loop_ok a s e new _ (unpinned_list A) Hse He st 0 [] A); try done; [|by left].
  intros x q Hx. by apply elem_of_nil in Hx.
Qed.

Lemma unpin_ok st a A s e new : inv st -> areas st !! a = Some A -> file A = true ->
  0 <= s <= e -> e < 2 ^ 20 -> (forall x, new = Some x -> ranges st !! x = None) ->
  exists st' ret, ashmem_unpin st a s e new = Some (st', ret) /\
    unpinned st st' a s e 0 (new <> None) /\ (new <> None -> ret = 0).
Proof.
  intros Hi HA Hf Hse He Hnew. unfold ashmem_unpin. rewrite HA. cbn [mbind option_bind].
  apply (unpin_loop_ok a new _ st A); try done; try lia; by left.
Qed.

(** ** All operations, in any order *)

Definition fresh_range (st : ashmem) (cmd : ashmem_cmd) : Prop :=
  match cmd with
  | ASHMEM_RANGE _ _ (Some x) => ranges st !! x = None
  | _ => True
  end.

(** The arguments of a pin ioctl are 32-bit words; a request for "everything
    onward" that starts exactly at the end of the area is left out. *)
Definition pin_request (A : ashmem_area) (cmd : ashmem_cmd) : Prop :=
  match cmd with
  | ASHMEM_RANGE _ (Some (offset, plen)) _ =>
      is_u32 offset /\ is_u32 plen /\ ~ (plen = 0 /\ offset = PAGE_ALIGN (size A))
  | _ => True
  end.

Inductive astep : ashmem -> ashmem -> Prop :=
  | a_open st a sr km : areas st !! a = None -> astep st (fst (ashmem_open st a sr km))
  | a_release st a st' : ashmem_release st a = Some st' -> astep st st'
  | a_mmap st a flags sr st' ret flags' :
      ashmem_mmap st a flags sr = Some (st', ret, flags') -> astep st st'
  | a_ioctl st a A cmd st' ret : areas st !! a = Some A -> fresh_range st cmd -> pin_request A cmd ->
      ashmem_ioctl st a cmd = Some (st', ret) -> astep st st'
  | a_shrink st nr fs st' out ret : ashmem_shrink st nr fs = Some (st', out, ret) -> astep st st'.

Lemma ioctl_inv st a A cmd st' ret : inv st -> areas st !! a = Some A -> fresh_range st cmd ->
  pin_request A cmd -> ashmem_ioctl st a cmd = Some (st', ret) -> inv st'.
Proof.
  intros Hi HA Hfr Hpr. unfold ashmem_ioctl. rewrite HA. cbn [mbind option_bind].
  destruct cmd as [user ok|ok|arg| |arg rie| |c pin new|cap|].
  - unfold set_name. rewrite HA. cbn [mbind option_bind]. destruct (file A) eqn:Ef; [by intros [= <- <-]|].
    destruct (mem_write _ _ _); cbn [mbind option_bind]; [|done].
    destruct (zset _ _ _); cbn [mbind option_bind]; [|done]. intros [= <- <-].
    apply (set_area_inv st a A); try done; simpl; congruence.
  - destruct (get_name st a ok); cbn [mbind option_bind]; [|done]. by intros [= <- <-].
  - destruct (file A) eqn:Ef; intros [= <- <-]; [done|]. apply (set_area_inv st a A); try done; simpl; congruence.
  - by intros [= <- <-].
  - unfold set_prot_mask. rewrite HA. cbn [mbind option_bind].
    destruct (negb _); intros [= <- <-]; [done|]. apply (set_area_inv st a A); try done; simpl; congruence.
  - by intros [= <- <-].
  - destruct (file A) eqn:Ef.
    2:{ unfold ashmem_pin_unpin. rewrite HA. cbn [mbind option_bind]. rewrite Ef. by intros [= <- <-]. }
    destruct pin as [[offset plen]|].
    2:{ unfold ashmem_pin_unpin. rewrite HA. cbn [mbind option_bind]. rewrite Ef. by intros [= <- <-]. }
    destruct Hpr as (Ho & Hl & Hne). intros H.
    assert (Hnew : forall x, new = Some x -> ranges st !! x = None) by (intros x ->; done).
    destruct (pin_args st a A c offset plen new st' ret HA Ef Ho Hl Hne H)
      as [[-> _]|(s & e & Hse & He & E)]; [done|]. destruct c.
    + destruct (pin_ok st a A s e new) as (st1 & r1 & E1 & (? & _)); try done. congruence.
    + destruct (unpin_ok st a A s e new) as (st1 & r1 & E1 & (? & _) & _); try done. congruence.
    + destruct (ashmem_get_pin_status _ _ _ _); [|done]. by injection E as <- <-.
  - destruct cap; cbn [negb]; [|by intros [= <- <-]].
    destruct (shrink_any_inv st 0 true Hi) as (st1 & o1 & r1 & -> & Hi1). cbn [mbind option_bind].
    destruct (shrink_any_inv st1 r1 true Hi1) as (st2 & o2 & r2 & -> & Hi2). cbn [mbind option_bind].
    by intros [= <- <-].
  - by intros [= <- <-].
Qed.

Lemma astep_inv st st' : astep st st' -> inv st -> inv st'.
Proof.
  intros Hst Hi. destruct Hst as [st a sr km HA|st a st' E|st a flags sr st' ret flags' E
    |st a A cmd st' ret HA Hf Hp E|st nr fs st' out ret E].
  - by apply open_inv.
  - unfold ashmem_release in E. destruct (areas st !! a) as [A|] eqn:HA; [|done].
    destruct (release_inv st a A Hi HA) as (st1 & E1 & ? & _). unfold ashmem_release in E1.
    rewrite HA in E1. congruence.
  - unfold ashmem_mmap in E. destruct (areas st !! a) as [A|] eqn:HA; [|done].
    cbn [mbind option_bind] in E. destruct (size A =? 0); [by simplify_eq|].
    destruct (negb _); [by simplify_eq|]. destruct (_ && _); [by simplify_eq|].
    injection E as <- _ _. apply (set_area_inv st a A); try done.
  - by apply (ioctl_inv st a A cmd st' ret).
  - destruct (shrink_any_inv st nr fs Hi) as (st1 & o1 & r1 & E1 & ?). congruence.
Qed.

Definition ashmem_empty : ashmem := mk_ashmem ∅ ∅ [] 0.

Lemma empty_inv : inv ashmem_empty.
Proof.
  split; [|split; [|split; [|split]]]; simpl.
  - intros id r. by rewrite lookup_empty.
  - intros a A. by rewrite lookup_empty.
  - constructor.
  - intros id. rewrite elem_of_nil. split; [done|]. intros (r & Hr & _). by rewrite lookup_empty in Hr.
  - done.
Qed.

Lemma areach_inv st : rtc astep ashmem_empty st -> inv st.
Proof.
  intros H. assert (H0 := empty_inv). induction H as [|s0 s1 s2 Hst _ IH]; [done|].
  apply IH. by apply (astep_inv s0).
Qed.

(** ** Protection bits *)

Lemma trans_bit m b1 b2 i j : 0 <= i -> 0 <= j -> i <= j -> b1 = 2 ^ i -> b2 = 2 ^ j -> forall n,
  Z.testbit (_calc_vm_trans m b1 b2) n = (n =? j) && Z.testbit m i.
Proof.
  intros Hi Hj Hij -> -> n. unfold _calc_vm_trans.
  rewrite (proj2 (Z.leb_le _ _)) by (apply Z.pow_le_mono_r; lia).
  rewrite <- Z.pow_sub_r by lia. rewrite <- Z.shiftl_mul_pow2 by lia.
  rewrite testbit_shiftl, Z.land_spec, testbit_pow2 by lia.
  destruct (Z.leb_spec (j - i) n), (Z.eqb_spec n j), (Z.eqb_spec (n - (j - i)) i); try lia; simpl;
    rewrite ?andb_false_r, ?andb_true_r; try done. f_equal. lia.
Qed.

Lemma prot_bits_bit m n : 0 <= n < 3 -> Z.testbit (calc_vm_prot_bits m) n = Z.testbit m n.
Proof.
  intros Hn. unfold calc_vm_prot_bits, PROT_READ, PROT_WRITE, PROT_EXEC.
  rewrite !Z.lor_spec, (trans_bit m 1 1 0 0), (trans_bit m 2 2 1 1), (trans_bit m 4 4 2 2) by lia.
  assert (n = 0 \/ n = 1 \/ n = 2) as [-> |[-> | ->]] by lia; simpl; rewrite ?orb_false_r; done.
Qed.

Lemma may_flags_bit m n : 0 <= n < 3 -> Z.testbit (calc_vm_may_flags m) (n + 4) = Z.testbit m n.
Proof.
  intros Hn. unfold calc_vm_may_flags, PROT_READ, PROT_WRITE, PROT_EXEC.
  rewrite !Z.lor_spec, (trans_bit m 1 16 0 4), (trans_bit m 2 32 1 5), (trans_bit m 4 64 2 6) by lia.
  assert (n = 0 \/ n = 1 \/ n = 2) as [-> |[-> | ->]] by lia; simpl; rewrite ?orb_false_r; done.
Qed.

(** ** Theorems *)

(** C3: [ashmem_pin] of pages [s..e] never fails, takes exactly these pages out
    of the evictable set of the area, leaves other areas alone, keeps the
    invariant, and answers [ASHMEM_WAS_PURGED] exactly when one of the pages had
    been purged. Every other page keeps its state, whatever ranges are deleted,
    trimmed or split, with one exception that comes from the code: when a range with pages on both sides of [s..e] has to be split and
    the allocation of its second half fails ([new = None]; the result of
    [range_alloc] is not looked at), pages above [e] of that one range may be
    dropped from the set. If the allocation succeeds, nothing is lost. *)
Theorem ashmem_pin_correct st a A s e new :
  inv st -> areas st !! a = Some A -> file A = true -> 0 <= s <= e -> e < 2 ^ 20 ->
  (forall x, new = Some x -> ranges st !! x = None) ->
  exists st' ret, ashmem_pin st a s e new = Some (st', ret) /\ inv st' /\
    (forall p, s <= p <= e -> page st' a p = None) /\
    (forall p, p < s \/ e < p -> page st' a p = page st a p \/
       (new = None /\ page st' a p = None /\ upper_part st a s e p)) /\
    (forall b p, b <> a -> page st' b p = page st b p) /\
    (ret = ASHMEM_NOT_PURGED \/ ret = ASHMEM_WAS_PURGED) /\
    (ret = ASHMEM_WAS_PURGED <->
       exists p, s <= p <= e /\ page st a p = Some ASHMEM_WAS_PURGED).
Proof.
  intros Hi HA Hf Hse He Hnew.
  destruct (pin_ok st a A s e new) as (st' & ret & E & Hi' & (T1 & T2 & T3) & Hno & Hr & Hiff);
    try done.
  exists st', ret. split; [done|]. split; [done|]. split; [|split; [|split; [|split; [done|]]]].
  - intros p Hp. apply page_None; [done|]. intros v. by apply Hno.
  - intros p Hp. destruct (page st' a p) as [v|] eqn:E'.
    + left. symmetry. apply page_iff; [done|]. by apply T1, page_iff.
    + destruct (page st a p) as [v|] eqn:Ep; [|by left]. right.
      apply page_iff in Ep; [|done]. destruct (T2 p v Ep) as [Hc|[? ?]]; [lia| |done].
      apply page_iff in Hc; [congruence|done].
  - intros b p Hb. apply page_ext; [done..|]. intros v. by apply T3.
  - unfold ASHMEM_WAS_PURGED in *. rewrite Hiff. split.
    + intros [|(p & Hp & Hc)]; [done|]. exists p. split; [done|]. by apply page_iff.
    + intros (p & Hp & Hc). right. exists p. split; [done|]. by apply page_iff.
Qed.

(** [ashmem_unpin] of pages [s..e] makes exactly these pages evictable in
    addition: what was unpinned stays unpinned, a page once purged stays marked
    purged, pages are newly marked purged only when the request touches a
    purged range it is merged with; other areas are untouched. *)
Theorem ashmem_unpin_correct st a A s e x :
  inv st -> areas st !! a = Some A -> file A = true -> 0 <= s <= e -> e < 2 ^ 20 ->
  ranges st !! x = None ->
  exists st', ashmem_unpin st a s e (Some x) = Some (st', 0) /\ inv st' /\
    (forall p, page st' a p <> None <-> s <= p <= e \/ page st a p <> None) /\
    (forall p, page st a p = Some ASHMEM_WAS_PURGED -> page st' a p = Some ASHMEM_WAS_PURGED) /\
    (forall p, page st' a p = Some ASHMEM_WAS_PURGED -> page st a p = Some ASHMEM_WAS_PURGED \/
       exists q, s <= q <= e /\ page st a q = Some ASHMEM_WAS_PURGED) /\
    (forall b p, b <> a -> page st' b p = page st b p).
Proof.
  intros Hi HA Hf Hse He Hx.
  destruct (unpin_ok st a A s e (Some x)) as (st' & ret & E & (Hi' & HF & HC & HE & Hok) & Hret);
    try done; [by intros y [= <-]|].
  destruct (Hok ltac:(done)) as (HA1 & HB & _). rewrite Hret in E by done.
  exists st'. split; [done|]. split; [done|]. unfold ASHMEM_WAS_PURGED. split_and!.
  - intros p. destruct (page st' a p) as [w|] eqn:Ep'.
    + split; [intros _|done]. apply page_iff in Ep'; [|done].
      destruct (HC p w Ep') as [?|[v Hv]]; [by left|]. right. apply page_iff in Hv; [|done]. congruence.
    + split; [done|]. intros Hc. pose proof (proj2 (page_None st' a p Hi') Ep') as Hn.
      assert (exists w, covers st' a p w) as [w Hw].
      { destruct Hc as [Hp|Hp]; [by apply HA1|]. destruct (page st a p) as [v|] eqn:Ev; [|done].
        apply page_iff in Ev; [|done]. destruct (HB p v Ev) as (w & Hw & _). by exists w. }
      intros _. by apply (Hn w).
  - intros p Hp%page_iff; [|done]. apply page_iff; [done|].
    destruct (HB p 1 Hp) as (w & Hw & Hw1). by rewrite Hw1 in Hw by done.
  - intros p Hp%page_iff; [|done]. destruct (HE p Hp) as [Hc|[|(q & Hq & Hc)]]; [|done|].
    + left. by apply page_iff.
    + right. exists q. split; [done|]. by apply page_iff.
  - intros b p Hb. apply page_ext; [done..|]. intros v. by apply HF.
Qed.

(** The pin status of pages [s..e] is [ASHMEM_IS_UNPINNED] exactly when one of
    them is unpinned. *)
Theorem ashmem_pin_status_correct st a A s e :
  inv st -> areas st !! a = Some A -> 0 <= s <= e ->
  exists r, ashmem_get_pin_status st a s e = Some r /\
    (r = ASHMEM_IS_UNPINNED <-> exists p, s <= p <= e /\ page st a p <> None) /\
    (r = ASHMEM_IS_PINNED <-> forall p, s <= p <= e -> page st a p = None).
Proof.
  intros Hi HA Hse. destruct (status_ok st a A s e Hi HA Hse) as (r & E & H).
  exists r. split; [done|]. destruct H as [[-> (p & v & Hp & Hc)]|[-> Hno]].
  - apply page_iff in Hc; [|done]. split; split; intros H; try done.
    + exists p. split; [done|]. congruence.
    + specialize (H p Hp). congruence.
  - split; split; intros H; try done.
    + destruct H as (p & Hp & Hc). exfalso. apply Hc, page_None; [done|]. intros v. by apply Hno.
    + intros p Hp. apply page_None; [done|]. intros v. by apply Hno.
Qed.

(** The shrinker, asked for [nr > 0] pages, purges a prefix of the LRU list,
    the least recently unpinned ranges first: their byte ranges go to
    [vmtruncate_range], they are marked purged and leave the list, all others
    stay as they are, and it stops as soon as [nr] pages are freed or the list
    is empty.  It never dereferences an area without a backing file. *)
Theorem ashmem_shrink_correct st nr :
  inv st -> 0 < nr < 2 ^ 31 ->
  exists st' out k, ashmem_shrink st nr true = Some (st', out, s32 (lru_count st')) /\ inv st' /\
    out = omap (fun id => truncated <$> ranges st !! id) (take k (ashmem_lru_list st)) /\
    purges st st' (take k (ashmem_lru_list st)) /\
    ashmem_lru_list st' = drop k (ashmem_lru_list st) /\
    (drop k (ashmem_lru_list st) <> [] -> nr <= lru_sum (ranges st) (take k (ashmem_lru_list st))) /\
    lru_sum (ranges st) (take (k - 1) (ashmem_lru_list st)) < nr.
Proof.
  intros Hi Hnr. destruct (shrink_loop_ok (ashmem_lru_list st) st nr [] Hi eq_refl Hnr)
    as (k & st' & E & H). unfold ashmem_shrink.
  destruct (Z.eqb_spec nr 0); [lia|]. cbn [negb andb]. rewrite E. cbn [mbind option_bind app].
  exists st'. do 2 eexists. split; [reflexivity|]. destruct H as (H1 & H2 & H3 & H4 & H5).
  split; [done|]. split; [reflexivity|]. done.
Qed.

(** C38: from the empty driver state, over every sequence of opens, mappings,
    ioctls, shrinker calls and releases in which no pin request is empty, each
    area's list is strictly descending and disjoint, every range belongs to
    exactly one live area with a backing file, the LRU list holds exactly the
    ranges not purged, once each, and [lru_count] is their number of pages. The
    one kind of request excluded is a pin, unpin or pin-status ioctl of length 0
    ("everything onward") whose offset is exactly the end of the area
    ([pin_request]): the code accepts it, and on unpin puts a range without
    pages on the list, as [ashmem_unpin_empty_range] shows. *)
Theorem ashmem_reachable_inv st :
  rtc astep ashmem_empty st ->
  (forall a A, areas st !! a = Some A ->
     NoDup (unpinned_list A) /\ descending (ranges st) (unpinned_list A)) /\
  (forall id r, ranges st !! id = Some r -> range_ok r /\
     exists A, areas st !! asma r = Some A /\ id ∈ unpinned_list A /\ file A = true) /\
  NoDup (ashmem_lru_list st) /\
  (forall id, id ∈ ashmem_lru_list st <->
     exists r, ranges st !! id = Some r /\ purged r = ASHMEM_NOT_PURGED) /\
  lru_count st = u32 (lru_sum (ranges st) (ashmem_lru_list st)).
Proof.
  intros (H1 & H2 & H3 & H4 & H5)%areach_inv. split_and!; try done.
  intros a A HA. destruct (H2 a A HA) as (? & ? & _). done.
Qed.

(** A successful [mmap] gives no access the area's protection mask forbids:
    neither now, nor through a later [mprotect]. *)
Theorem ashmem_mmap_respects_mask st a A flags sr st' flags' bit :
  areas st !! a = Some A -> 0 <= bit < 3 -> Z.testbit (prot_mask A) bit = false ->
  ashmem_mmap st a flags sr = Some (st', 0, flags') ->
  Z.testbit flags' bit = false /\ Z.testbit flags' (bit + 4) = false.
Proof.
  intros HA Hb Hm. unfold ashmem_mmap. rewrite HA. cbn [mbind option_bind].
  destruct (size A =? 0); [done|].
  destruct (Z.eqb_spec (Z.land (Z.land flags (u32 (Z.lnot (calc_vm_prot_bits (prot_mask A)))))
    (calc_vm_prot_bits PROT_MASK)) 0) as [Hz|]; cbn [negb]; [|done].
  destruct (negb (file A) && negb (sr =? 0)) eqn:E.
  { intros [= _ -> _]. by destruct (file A). }
  intros [= _ <-].
  assert (Hf : Z.testbit flags bit = false).
  { assert (H : Z.testbit (Z.land (Z.land flags (u32 (Z.lnot (calc_vm_prot_bits (prot_mask A)))))
      (calc_vm_prot_bits PROT_MASK)) bit = false) by (rewrite Hz; apply Z.testbit_0_l).
    rewrite !Z.land_spec, testbit_u32, testbit_lnot, !prot_bits_bit, Hm in H by lia.
    destruct (Z.ltb_spec bit 32), (Z.leb_spec 0 bit); try lia. cbn [negb andb] in H.
    rewrite andb_true_r in H. revert H. unfold PROT_MASK. change 7 with (2 ^ 3 - 1).
    rewrite testbit_mask by lia. destruct (Z.leb_spec 0 bit), (Z.ltb_spec bit 3); try lia.
    by rewrite andb_true_r. }
  assert (Hn : forall n, 0 <= n < 7 -> Z.testbit VM_CAN_NONLINEAR n = false).
  { intros n Hn. change VM_CAN_NONLINEAR with (2 ^ 27). rewrite testbit_pow2 by lia.
    destruct (Z.eqb_spec n 27); [lia|done]. }
  rewrite !Z.lor_spec, !Z.land_spec, !Hn, !orb_false_r by lia. split; [by rewrite Hf|].
  rewrite testbit_u32, testbit_lnot, may_flags_bit, testbit_u32, testbit_lnot, Hm by lia.
  split_cmp; lia.
Qed.

(** [set_prot_mask] is documented to only remove protection bits; for a caller
    whose personality has READ_IMPLIES_EXEC it adds PROT_EXEC to a mask that had
    dropped it.  For every other caller the new mask is a subset of the old. *)
Theorem ashmem_prot_mask_grows st a A prot st' :
  areas st !! a = Some A -> prot_mask A = PROT_READ ->
  set_prot_mask st a prot false = Some (st', 0) ->
  (exists A', areas st' !! a = Some A' /\ Z.land PROT_READ (prot_mask A') = prot_mask A') /\
  (exists st2 A2, set_prot_mask st a PROT_READ true = Some (st2, 0) /\
     areas st2 !! a = Some A2 /\ prot_mask A2 = Z.lor PROT_READ PROT_EXEC).
Proof.
  intros HA Hm. unfold set_prot_mask. rewrite HA. cbn [mbind option_bind]. rewrite Hm.
  destruct (Z.eqb_spec (Z.land PROT_READ prot) prot) as [E|]; cbn [negb]; [|done].
  rewrite andb_false_r. intros [= <-]. split.
  - eexists. simpl. rewrite lookup_insert_eq. split; [done|]. exact E.
  - do 2 eexists. split; [reflexivity|]. simpl. by rewrite lookup_insert_eq.
Qed.

(** ** A run of the driver *)

(** One area of four pages, mapped, with a range over all of them. *)
Definition demo0 : ashmem :=
  set_area ashmem_empty 0 (mk_area (replicate ASHMEM_NAME_LEN 0) [] true 16384 PROT_MASK).
Definition demo1 : ashmem :=
  match ashmem_unpin demo0 0 0 3 (Some 0%nat) with Some (s, _) => s | None => demo0 end.
(** The shrinker has purged it. *)
Definition demo2 : ashmem :=
  match ashmem_shrink demo1 4 true with Some (s, _, _) => s | None => demo1 end.

Lemma demo0_reachable : rtc astep ashmem_empty demo0.
Proof.
  apply rtc_l with (fst (ashmem_open ashmem_empty 0 0 true)); [by constructor|].
  apply rtc_l with (set_area ashmem_empty 0
    (mk_area (replicate ASHMEM_NAME_LEN 0) [] false 16384 PROT_MASK)).
  { eapply (a_ioctl _ 0 _ (ASHMEM_SET_SIZE 16384)); [reflexivity|done|done|]. simpl.
    vm_compute. reflexivity. }
  apply rtc_once. eapply (a_mmap _ 0 3 0). vm_compute. reflexivity.
Qed.

Lemma demo1_reachable : rtc astep ashmem_empty demo1.
Proof.
  eapply rtc_r; [exact demo0_reachable|].
  eapply (a_ioctl demo0 0 _ (ASHMEM_RANGE ASHMEM_UNPIN (Some (0, 16384)) (Some 0%nat)));
    [reflexivity|reflexivity| |vm_compute; reflexivity].
  split; [unfold is_u32; lia|]. split; [unfold is_u32; lia|lia].
Qed.

Lemma demo2_reachable : rtc astep ashmem_empty demo2.
Proof.
  eapply rtc_r; [exact demo1_reachable|]. eapply (a_shrink demo1 4 true). vm_compute. reflexivity.
Qed.

Lemma demo2_area : exists A, areas demo2 !! 0%nat = Some A /\ file A = true.
Proof. eexists. split; [vm_compute; reflexivity|reflexivity]. Qed.

Lemma ashmem_pin_correct_witness : exists st',
  ashmem_pin demo2 0 1 2 (Some 1%nat) = Some (st', ASHMEM_WAS_PURGED) /\
  page st' 0 1 = None /\ page st' 0 3 = Some ASHMEM_WAS_PURGED.
Proof.
  destruct demo2_area as (A & HA & Hf).
  destruct (ashmem_pin_correct demo2 0 A 1 2 (Some 1%nat) (areach_inv _ demo2_reachable) HA Hf)
    as (st' & ret & E & _ & Hin & Hout & _ & _ & Hr); [lia|lia|by intros x [= <-]|].
  exists st'. split; [|split].
  - rewrite E. do 2 f_equal. apply Hr. exists 1. split; [lia|reflexivity].
  - apply Hin. lia.
  - destruct (Hout 3) as [->|[? _]]; [lia|reflexivity|discriminate].
Defined.

Lemma ashmem_unpin_correct_witness : exists st',
  ashmem_unpin demo2 0 2 9 (Some 1%nat) = Some (st', 0) /\
  page st' 0 9 <> None /\ page st' 0 0 = Some ASHMEM_WAS_PURGED.
Proof.
  destruct demo2_area as (A & HA & Hf).
  destruct (ashmem_unpin_correct demo2 0 A 2 9 1 (areach_inv _ demo2_reachable) HA Hf)
    as (st' & E & _ & Hp & Hk & _); [lia|lia|reflexivity|].
  exists st'. split; [exact E|]. split; [apply Hp; left; lia|]. apply Hk. reflexivity.
Defined.

Lemma ashmem_pin_status_correct_witness :
  ashmem_get_pin_status demo2 0 2 9 = Some ASHMEM_IS_UNPINNED.
Proof.
  destruct demo2_area as (A & HA & Hf).
  destruct (ashmem_pin_status_correct demo2 0 A 2 9 (areach_inv _ demo2_reachable) HA)
    as (r & E & Hu & _); [lia|].
  rewrite E. f_equal. apply Hu. exists 3. split; [lia|]. vm_compute. discriminate.
Defined.

Lemma ashmem_shrink_correct_witness : exists st' out k,
  ashmem_shrink demo1 2 true = Some (st', out, s32 (lru_count st')) /\
  out = omap (fun id => truncated <$> ranges demo1 !! id) (take k [0%nat]).
Proof.
  destruct (ashmem_shrink_correct demo1 2 (areach_inv _ demo1_reachable))
    as (st' & out & k & E & _ & Ho & _); [lia|].
  exists st', out, k. split; [exact E|exact Ho].
Defined.

Lemma ashmem_reachable_inv_witness : NoDup (ashmem_lru_list demo1) /\ lru_count demo1 = 4.
Proof.
  destruct (ashmem_reachable_inv demo1 demo1_reachable) as (_ & _ & H1 & _ & H2).
  split; [exact H1|]. rewrite H2. vm_compute. reflexivity.
Defined.

(** A read-only area of one page. *)
Definition ro_area : ashmem_area := mk_area (replicate ASHMEM_NAME_LEN 0) [] false 4096 PROT_READ.
Definition demo_ro : ashmem := set_area ashmem_empty 0 ro_area.

Lemma ashmem_mmap_respects_mask_witness : exists st' flags',
  ashmem_mmap demo_ro 0 0x71 0 = Some (st', 0, flags') /\ Z.testbit flags' 5 = false.
Proof.
  do 2 eexists. split; [vm_compute; reflexivity|].
  refine (proj2 (ashmem_mmap_respects_mask demo_ro 0 ro_area 0x71 0 _ _ 1 _ _ _ _));
    [reflexivity|lia|reflexivity|vm_compute; reflexivity].
Defined.

Lemma ashmem_prot_mask_grows_witness : exists st2 A2,
  set_prot_mask demo_ro 0 PROT_READ true = Some (st2, 0) /\
  areas st2 !! 0%nat = Some A2 /\ prot_mask A2 = 5.
Proof.
  eapply (ashmem_prot_mask_grows demo_ro 0 ro_area PROT_READ _); reflexivity.
Defined.

(** When the allocation of the second half fails, [ashmem_pin] drops the upper
    part of the range it splits, and its purge state with it, and reports no
    error: in a reachable state pages 2 and 3 are purged, yet after pinning page
    1 a pin of them answers [ASHMEM_NOT_PURGED]. *)
Theorem ashmem_pin_loses_purge_state :
  rtc astep ashmem_empty demo2 /\ page demo2 0 2 = Some ASHMEM_WAS_PURGED /\
  exists st' st'', ashmem_pin demo2 0 1 1 None = Some (st', ASHMEM_WAS_PURGED) /\
    ashmem_pin st' 0 2 3 (Some 1%nat) = Some (st'', ASHMEM_NOT_PURGED).
Proof.
  split; [exact demo2_reachable|]. split; [vm_compute; reflexivity|].
  do 2 eexists. split; [vm_compute; reflexivity|vm_compute; reflexivity].
Qed.

(** A request for "everything onward" that starts at the end of the area
    passes the checks with length 0 and [pgend] one below [pgstart]: unpinning
    it puts a range of no pages on the list. *)
Theorem ashmem_unpin_empty_range :
  rtc astep ashmem_empty demo0 /\
  exists st' r, ashmem_ioctl demo0 0
      (ASHMEM_RANGE ASHMEM_UNPIN (Some (16384, 0)) (Some 0%nat)) = Some (st', 0) /\
    ranges st' !! 0%nat = Some r /\ pgstart r = 4 /\ pgend r = 3 /\ ashmem_lru_list st' = [0%nat].
Proof.
  split; [exact demo0_reachable|]. do 2 eexists. split; [vm_compute; reflexivity|].
  split; [vm_compute; reflexivity|]. done.
Qed.
