(* ===== verification/Bitmap.v ===== *)
(** Bitmaps (lib/bitmap.c, include/linux/bitmap.h): arrays of 32-bit words with
    the set operations, the shifts, the maps between positions and ordinals and
    the allocation of aligned regions.  [Bitops] gives the single-bit operations
    and searches these are built from. *)
From S2P Require Import Prelude Bitops.
Local Open Scope kernel_scope.

Definition BITMAP_LAST_WORD_MASK (nbits : Z) : Z :=
  if negb (nbits mod BITS_PER_LONG =? 0) then (1 <<u (nbits mod BITS_PER_LONG)) -u 1 else ~u 0.

(** ** Tests over all words *)

(** [for (k = 0; k < lim; ++k) if (bad(k)) return ...;] *)
Fixpoint no_word (bad : Z -> option bool) (k : Z) (n : nat) : option bool :=
  match n with
  | O => Some true
  | S n' => b ← bad k; if (b : bool) then Some false else no_word bad (k + 1) n'
  end.

(** The loop over the full words, then the masked last one. *)
Definition test_words (bad : Z -> option bool) (last : Z -> option Z) (bits : Z) : option bool :=
  let lim := bits / BITS_PER_LONG in
  ok ← no_word bad 0 (Z.to_nat lim);
  if negb ok then Some false else
  if negb (bits mod BITS_PER_LONG =? 0) then
    w ← last lim; Some (Z.land w (BITMAP_LAST_WORD_MASK bits) =? 0)
  else Some true.

Definition __bitmap_empty (bitmap : list Z) (bits : Z) : option bool :=
  test_words (fun k => w ← zget bitmap k; Some (nonzero w)) (fun k => zget bitmap k) bits.

Definition __bitmap_full (bitmap : list Z) (bits : Z) : option bool :=
  test_words (fun k => w ← zget bitmap k; Some (nonzero (~u w)))
    (fun k => w ← zget bitmap k; Some (~u w)) bits.

Definition __bitmap_equal (bitmap1 bitmap2 : list Z) (bits : Z) : option bool :=
  test_words (fun k => a ← zget bitmap1 k; b ← zget bitmap2 k; Some (negb (a =? b)))
    (fun k => a ← zget bitmap1 k; b ← zget bitmap2 k; Some (Z.lxor a b)) bits.

Definition __bitmap_intersects (bitmap1 bitmap2 : list Z) (bits : Z) : option bool :=
  r ← test_words (fun k => a ← zget bitmap1 k; b ← zget bitmap2 k; Some (nonzero (Z.land a b)))
        (fun k => a ← zget bitmap1 k; b ← zget bitmap2 k; Some (Z.land a b)) bits;
  Some (negb r).

Definition __bitmap_subset (bitmap1 bitmap2 : list Z) (bits : Z) : option bool :=
  test_words (fun k => a ← zget bitmap1 k; b ← zget bitmap2 k; Some (nonzero (Z.land a (~u b))))
    (fun k => a ← zget bitmap1 k; b ← zget bitmap2 k; Some (Z.land a (~u b))) bits.

(** ** Operations word by word *)

(** [for (k = ...; n times; k++) dst[k] = f(k);] *)
Fixpoint map_words (f : Z -> option Z) (k : Z) (n : nat) (dst : list Z) : option (list Z) :=
  match n with
  | O => Some dst
  | S n' => w ← f k; dst ← zset dst k w; map_words f (k + 1) n' dst
  end.

Definition __bitmap_complement (dst src : list Z) (bits : Z) : option (list Z) :=
  let lim := bits / BITS_PER_LONG in
  dst ← map_words (fun k => w ← zget src k; Some (~u w)) 0 (Z.to_nat lim) dst;
  if negb (bits mod BITS_PER_LONG =? 0) then
    w ← zget src lim; zset dst lim (Z.land (~u w) (BITMAP_LAST_WORD_MASK bits))
  else Some dst.

Definition binop_words (f : Z -> Z -> Z) (dst a b : list Z) (bits : Z) : option (list Z) :=
  map_words (fun k => x ← zget a k; y ← zget b k; Some (f x y)) 0
    (Z.to_nat (BITS_TO_LONGS bits)) dst.

Definition __bitmap_and (dst a b : list Z) (bits : Z) := binop_words Z.land dst a b bits.
Definition __bitmap_or (dst a b : list Z) (bits : Z) := binop_words Z.lor dst a b bits.
Definition __bitmap_xor (dst a b : list Z) (bits : Z) := binop_words Z.lxor dst a b bits.
Definition __bitmap_andnot (dst a b : list Z) (bits : Z) :=
  binop_words (fun x y => Z.land x (~u y)) dst a b bits.

Definition bitmap_zero (dst : list Z) (bits : Z) : option (list Z) :=
  map_words (fun _ => Some 0) 0 (Z.to_nat (BITS_TO_LONGS bits)) dst.

(** ** Shifts *)

(** The word the right shift stores at [k]. *)
Definition shift_right_word (src : list Z) (shift bits k : Z) : option Z :=
  let lim := BITS_TO_LONGS bits in
  let left := bits mod BITS_PER_LONG in
  let off := shift / BITS_PER_LONG in
  let rem := shift mod BITS_PER_LONG in
  let mask := (1 <<u left) -u 1 in
  upper ← (if (rem =? 0) || (lim <=? off + k + 1) then Some 0 else
             u ← zget src (off + k + 1);
             Some (if (off + k + 1 =? lim - 1) && negb (left =? 0) then Z.land u mask else u));
  lower ← zget src (off + k);
  let lower := if negb (left =? 0) && (off + k =? lim - 1) then Z.land lower mask else lower in
  let w := Z.lor (upper <<u (BITS_PER_LONG - rem)) (Z.shiftr lower rem) in
  Some (if negb (left =? 0) && (k =? lim - 1) then Z.land w mask else w).

Definition __bitmap_shift_right (dst src : list Z) (shift bits : Z) : option (list Z) :=
  let lim := BITS_TO_LONGS bits in
  let off := shift / BITS_PER_LONG in
  dst ← map_words (shift_right_word src shift bits) 0 (Z.to_nat (lim - off)) dst;
  if negb (off =? 0) then map_words (fun _ => Some 0) (lim - off) (Z.to_nat off) dst else Some dst.

(** The word the left shift stores at [k + off]. *)
Definition shift_left_word (src : list Z) (shift bits k : Z) : option Z :=
  let lim := BITS_TO_LONGS bits in
  let left := bits mod BITS_PER_LONG in
  let off := shift / BITS_PER_LONG in
  let rem := shift mod BITS_PER_LONG in
  let mask := (1 <<u left) -u 1 in
  lower ← (if negb (rem =? 0) && (0 <? k) then zget src (k - 1) else Some 0);
  upper ← zget src k;
  let upper := if negb (left =? 0) && (k =? lim - 1) then Z.land upper mask else upper in
  let w := Z.lor (Z.shiftr lower (BITS_PER_LONG - rem)) (upper <<u rem) in
  Some (if negb (left =? 0) && (k + off =? lim - 1) then Z.land w mask else w).

(** [for (k = n - 1; k >= 0; --k) dst[k + off] = f(k);] *)
Fixpoint map_words_down (f : Z -> option Z) (off : Z) (n : nat) (dst : list Z) : option (list Z) :=
  match n with
  | O => Some dst
  | S n' =>
      w ← f (Z.of_nat n'); dst ← zset dst (Z.of_nat n' + off) w; map_words_down f off n' dst
  end.

Definition __bitmap_shift_left (dst src : list Z) (shift bits : Z) : option (list Z) :=
  let lim := BITS_TO_LONGS bits in
  let off := shift / BITS_PER_LONG in
  dst ← map_words_down (shift_left_word src shift bits) off (Z.to_nat (lim - off)) dst;
  if negb (off =? 0) then map_words (fun _ => Some 0) 0 (Z.to_nat off) dst else Some dst.

(** ** Weight, ordinals and maps *)

Fixpoint weight_loop (bitmap : list Z) (k : Z) (n : nat) (w : Z) : option Z :=
  match n with
  | O => Some w
  | S n' => x ← zget bitmap k; weight_loop bitmap (k + 1) n' (w + hweight_long x)
  end.

Definition __bitmap_weight (bitmap : list Z) (bits : Z) : option Z :=
  let lim := bits / BITS_PER_LONG in
  w ← weight_loop bitmap 0 (Z.to_nat lim) 0;
  if negb (bits mod BITS_PER_LONG =? 0) then
    x ← zget bitmap lim; Some (w + hweight_long (Z.land x (BITMAP_LAST_WORD_MASK bits)))
  else Some w.

(** [for (i = ...; i < bits; i = find_next_bit(buf, bits, i + 1)) body] *)
Fixpoint for_set_bits {A} (fuel : nat) (buf : list Z) (bits i : Z) (body : Z -> A -> option A)
    (acc : A) : option A :=
  match fuel with
  | O => None
  | S fuel' =>
      if i <? bits then
        acc ← body i acc;
        i ← find_next_bit buf bits (i + 1);
        for_set_bits fuel' buf bits i body acc
      else Some acc
  end.

Definition each_set_bit {A} (buf : list Z) (bits : Z) (body : Z -> A -> option A) (acc : A)
    : option A :=
  i ← find_first_bit buf bits;
  for_set_bits (S (Z.to_nat bits)) buf bits i body acc.

(** The [while (i < pos)] loop; [BUG_ON(i != pos)] is [None]. *)
Fixpoint pos_to_ord_loop (fuel : nat) (buf : list Z) (bits pos i ord : Z) : option Z :=
  match fuel with
  | O => None
  | S fuel' =>
      if i <? pos then
        i ← find_next_bit buf bits (i + 1);
        pos_to_ord_loop fuel' buf bits pos i (ord + 1)
      else if negb (i =? pos) then None else Some ord
  end.

Definition bitmap_pos_to_ord (buf : list Z) (pos bits : Z) : option Z :=
  if (pos <? 0) || (bits <=? pos) then Some (-1) else
  b ← test_bit pos buf;
  if negb b then Some (-1) else
  i ← find_first_bit buf bits;
  pos_to_ord_loop (S (Z.to_nat bits)) buf bits pos i 0.

Fixpoint ord_to_pos_loop (fuel : nat) (buf : list Z) (bits i ord : Z) : option Z :=
  match fuel with
  | O => None
  | S fuel' =>
      if (i <? bits) && (0 <? ord) then
        i ← find_next_bit buf bits (i + 1);
        ord_to_pos_loop fuel' buf bits i (ord - 1)
      else Some (if (i <? bits) && (ord =? 0) then i else 0)
  end.

Definition bitmap_ord_to_pos (buf : list Z) (ord bits : Z) : option Z :=
  if (0 <=? ord) && (ord <? bits) then
    i ← find_first_bit buf bits;
    ord_to_pos_loop (S (Z.to_nat bits)) buf bits i ord
  else Some 0.

Definition bitmap_bitremap (oldbit : Z) (old new : list Z) (bits : Z) : option Z :=
  w ← __bitmap_weight new bits;
  n ← bitmap_pos_to_ord old oldbit bits;
  if (n <? 0) || (w =? 0) then Some oldbit else bitmap_ord_to_pos new (Z.rem n w) bits.

(** [same]: [dst == src], and in the next two [dst == orig]. *)
Definition bitmap_remap (same : bool) (dst src old new : list Z) (bits : Z) : option (list Z) :=
  if same then Some dst else
  dst ← bitmap_zero dst bits;
  w ← __bitmap_weight new bits;
  each_set_bit src bits (fun oldbit dst =>
    n ← bitmap_pos_to_ord old oldbit bits;
    if (n <? 0) || (w =? 0) then __set_bit oldbit dst
    else p ← bitmap_ord_to_pos new (Z.rem n w) bits; __set_bit p dst) dst.

Definition bitmap_onto (same : bool) (dst orig relmap : list Z) (bits : Z) : option (list Z) :=
  if same then Some dst else
  dst ← bitmap_zero dst bits;
  '(dst, _) ← each_set_bit relmap bits (fun n '(dst, m) =>
    b ← test_bit m orig;
    dst ← (if b : bool then __set_bit n dst else Some dst);
    Some (dst, m + 1)) (dst, 0);
  Some dst.

Definition bitmap_fold (same : bool) (dst orig : list Z) (sz bits : Z) : option (list Z) :=
  if same then Some dst else
  dst ← bitmap_zero dst bits;
  each_set_bit orig bits (fun oldbit dst => __set_bit (Z.rem oldbit sz) dst) dst.

(** ** Regions *)

Inductive reg_op : Type := REG_OP_ISFREE | REG_OP_ALLOC | REG_OP_RELEASE.

Definition __reg_op (bitmap : list Z) (pos order : Z) (op : reg_op) : option (list Z * bool) :=
  let nbits_reg := Z.shiftl 1 order in
  let index := pos / BITS_PER_LONG in
  let offset := pos - index * BITS_PER_LONG in
  let nlongs_reg := BITS_TO_LONGS nbits_reg in
  let nbitsinlong := Z.min nbits_reg BITS_PER_LONG in
  let mask := 1 <<u (nbitsinlong - 1) in
  let mask := mask +u (mask -u 1) in
  let mask := mask <<u offset in
  match op with
  | REG_OP_ISFREE =>
      r ← no_word (fun i => w ← zget bitmap i; Some (nonzero (Z.land w mask))) index
            (Z.to_nat nlongs_reg);
      Some (bitmap, r)
  | REG_OP_ALLOC =>
      b ← map_words (fun i => w ← zget bitmap i; Some (Z.lor w mask)) index
            (Z.to_nat nlongs_reg) bitmap;
      Some (b, false)
  | REG_OP_RELEASE =>
      b ← map_words (fun i => w ← zget bitmap i; Some (Z.land w (~u mask))) index
            (Z.to_nat nlongs_reg) bitmap;
      Some (b, false)
  end.

Fixpoint find_free_loop (fuel : nat) (bitmap : list Z) (bits order pos : Z)
    : option (list Z * Z) :=
  match fuel with
  | O => None
  | S fuel' =>
      let end_ := pos + Z.shiftl 1 order in
      if end_ <=? bits then
        '(_, free) ← __reg_op bitmap pos order REG_OP_ISFREE;
        if negb free then find_free_loop fuel' bitmap bits order end_
        else '(b, _) ← __reg_op bitmap pos order REG_OP_ALLOC; Some (b, pos)
      else Some (bitmap, - ENOMEM)
  end.

Definition bitmap_find_free_region (bitmap : list Z) (bits order : Z) : option (list Z * Z) :=
  find_free_loop (S (Z.to_nat bits)) bitmap bits order 0.

Definition bitmap_release_region (bitmap : list Z) (pos order : Z) : option (list Z) :=
  '(b, _) ← __reg_op bitmap pos order REG_OP_RELEASE; Some b.

Definition bitmap_allocate_region (bitmap : list Z) (pos order : Z) : option (list Z * Z) :=
  '(_, free) ← __reg_op bitmap pos order REG_OP_ISFREE;
  if negb free then Some (bitmap, - EBUSY) else
  '(b, _) ← __reg_op bitmap pos order REG_OP_ALLOC; Some (b, 0).

(** ** Loops over words *)

Lemma map_words_ok f g n : forall k dst, 0 <= k -> k + Z.of_nat n <= len dst ->
  (forall j, k <= j < k + Z.of_nat n -> f j = Some (g j)) ->
  exists dst', map_words f k n dst = Some dst' /\ length dst' = length dst /\
    forall p, zat dst' p = if (k <=? p) && (p <? k + Z.of_nat n) then g p else zat dst p.
Proof.
  induction n as [|n IH]; intros k dst Hk Hl Hf; cbn [map_words].
  { exists dst. split_and!; try done. intros p.
    destruct (Z.leb_spec k p), (Z.ltb_spec p (k + Z.of_nat 0)); try lia; done. }
  rewrite Hf by lia. cbn [mbind option_bind]. rewrite zset_spec by lia. cbn [mbind option_bind].
  destruct (IH (k + 1) (<[Z.to_nat k := g k]> dst)) as (dst' & -> & Hlen & Hz).
  - lia.
  - rewrite length_insert. lia.
  - intros j Hj. apply Hf. lia.
  - exists dst'. split; [done|]. rewrite length_insert in Hlen. split; [done|]. intros p.
    rewrite Hz, zat_insert.
    destruct (Z.leb_spec (k + 1) p), (Z.ltb_spec p (k + 1 + Z.of_nat n)), (Z.leb_spec k p),
      (Z.ltb_spec p (k + Z.of_nat (S n))); cbn [andb]; try lia; try done;
      case_decide; try lia; try done. f_equal. lia.
Qed.

Lemma map_words_down_ok f g n : forall off dst, 0 <= off -> Z.of_nat n + off <= len dst ->
  (forall j, 0 <= j < Z.of_nat n -> f j = Some (g j)) ->
  exists dst', map_words_down f off n dst = Some dst' /\ length dst' = length dst /\
    forall p, zat dst' p = if (off <=? p) && (p <? off + Z.of_nat n) then g (p - off) else zat dst p.
Proof.
  induction n as [|n IH]; intros off dst Ho Hl Hf; cbn [map_words_down].
  { exists dst. split_and!; try done. intros p.
    destruct (Z.leb_spec off p), (Z.ltb_spec p (off + Z.of_nat 0)); try lia; done. }
  rewrite Hf by lia. cbn [mbind option_bind]. rewrite zset_spec by lia. cbn [mbind option_bind].
  destruct (IH off (<[Z.to_nat (Z.of_nat n + off) := g (Z.of_nat n)]> dst)) as (dst' & -> & Hlen & Hz).
  - lia.
  - rewrite length_insert. lia.
  - intros j Hj. apply Hf. lia.
  - exists dst'. split; [done|]. rewrite length_insert in Hlen. split; [done|]. intros p.
    rewrite Hz, zat_insert.
    destruct (Z.leb_spec off p), (Z.ltb_spec p (off + Z.of_nat n)),
      (Z.ltb_spec p (off + Z.of_nat (S n))); cbn [andb]; try lia; try done;
      case_decide; try lia; try done. f_equal. lia.
Qed.

(** The words a loop stores are words again. *)
Lemma words_of_zat l : (forall p, 0 <= p < len l -> is_u32 (zat l p)) -> words l.
Proof.
  intros H. apply Forall_lookup_2. intros i x Hx. specialize (H (Z.of_nat i)).
  pose proof (lookup_lt_Some _ _ _ Hx). rewrite lookup_zat in Hx by done. injection Hx as <-.
  apply H. lia.
Qed.

Lemma bit_of_words dst dst' g lo n i :
  (forall p, zat dst' p = if (lo <=? p) && (p <? lo + n) then g p else zat dst p) ->
  bit dst' i = if (32 * lo <=? i) && (i <? 32 * (lo + n)) then Z.testbit (g (i / 32)) (i mod 32)
               else bit dst i.
Proof.
  intros H. unfold bit. rewrite H. pose proof (Z.div_mod i 32). pose proof (Z.mod_pos_bound i 32).
  destruct (Z.leb_spec lo (i / 32)), (Z.ltb_spec (i / 32) (lo + n)),
    (Z.leb_spec (32 * lo) i), (Z.ltb_spec i (32 * (lo + n))); cbn [andb]; try lia; done.
Qed.

Lemma longs_bound bits : 0 <= bits ->
  bits <= 32 * BITS_TO_LONGS bits < bits + 32 /\ 0 <= BITS_TO_LONGS bits.
Proof. unfold BITS_TO_LONGS, BITS_PER_LONG. intros. Z.to_euclidean_division_equations. lia. Qed.

Lemma last_mask_bit bits j : 0 < bits mod 32 -> 0 <= j < 32 ->
  Z.testbit (BITMAP_LAST_WORD_MASK bits) j = (j <? bits mod 32).
Proof.
  intros Hm Hj. unfold BITMAP_LAST_WORD_MASK, BITS_PER_LONG.
  destruct (Z.eqb_spec (bits mod 32) 0); [lia|]. cbn [negb].
  pose proof (Z.mod_pos_bound bits 32 ltac:(lia)).
  rewrite Z.shiftl_1_l, u32_sub_l, testbit_u32, testbit_mask by lia.
  destruct (Z.ltb_spec j 32), (Z.leb_spec 0 j); lia.
Qed.

Lemma word_zero_iff w : is_u32 w -> w = 0 <-> forall j, 0 <= j < 32 -> Z.testbit w j = false.
Proof.
  intros Hw. split; [intros ->; intros; apply Z.testbit_0_l|]. intros H.
  apply Z.bits_inj'. intros j Hj. rewrite Z.testbit_0_l. destruct (Z.ltb_spec j 32); [by apply H|].
  apply (testbit_high 32); [done|lia].
Qed.

Lemma no_word_ok bad g n : forall k, (forall j, k <= j < k + Z.of_nat n -> bad j = Some (g j)) ->
  exists r, no_word bad k n = Some r /\
    (r = true <-> forall j, k <= j < k + Z.of_nat n -> g j = false).
Proof.
  induction n as [|n IH]; intros k Hf; cbn [no_word].
  { exists true. split; [done|]. split; [intros _ j Hj; lia|done]. }
  rewrite Hf by lia. cbn [mbind option_bind]. destruct (g k) eqn:Eg.
  - exists false. split; [done|]. split; [done|]. intros H. rewrite H in Eg by lia. done.
  - destruct (IH (k + 1)) as (r & -> & Hr); [intros j Hj; apply Hf; lia|].
    exists r. split; [done|]. rewrite Hr. split; intros H j Hj.
    + destruct (decide (j = k)) as [->|]; [done|]. apply H. lia.
    + apply H. lia.
Qed.

(** A test over the words [w] holds iff all bits below [bits] are clear. *)
Lemma test_words_ok bad last w bits : 0 <= bits ->
  (forall k, 0 <= k < BITS_TO_LONGS bits -> is_u32 (w k) /\ bad k = Some (nonzero (w k)) /\
     last k = Some (w k)) ->
  exists r, test_words bad last bits = Some r /\
    (r = true <-> forall i, 0 <= i < bits -> Z.testbit (w (i / 32)) (i mod 32) = false).
Proof.
  intros Hb Hw. unfold test_words, BITS_PER_LONG. pose proof (longs_bound bits Hb) as [Hl _].
  pose proof (Z.div_mod bits 32 ltac:(lia)) as Hdm. pose proof (Z.mod_pos_bound bits 32 ltac:(lia)) as Hm.
  set (lim := bits / 32) in *. assert (Hlim : 0 <= lim) by lia.
  destruct (no_word_ok bad (fun k => nonzero (w k)) (Z.to_nat lim) 0) as (r & -> & Hr).
  { intros j Hj. apply Hw. lia. }
  cbn [mbind option_bind].
  assert (Hfull : r = true <-> forall i, 0 <= i < 32 * lim -> Z.testbit (w (i / 32)) (i mod 32) = false).
  { rewrite Hr. split.
    - intros H i Hi. pose proof (Z.div_mod i 32 ltac:(lia)). pose proof (Z.mod_pos_bound i 32 ltac:(lia)).
      specialize (H (i / 32) ltac:(lia)). apply nonzero_none; [apply Hw; lia|done|lia].
    - intros H j Hj. unfold nonzero. destruct (Z.eqb_spec (w j) 0) as [|Hne]; [done|]. exfalso.
      apply Hne, word_zero_iff; [apply Hw; lia|]. intros t Ht. specialize (H (32 * j + t) ltac:(lia)).
      replace ((32 * j + t) / 32) with j in H by (Z.to_euclidean_division_equations; lia).
      by replace ((32 * j + t) mod 32) with t in H by (Z.to_euclidean_division_equations; lia). }
  destruct r; cbn [negb].
  2:{ exists false. split; [done|]. split; [done|]. intros H. apply Hfull. intros i Hi. apply H. lia. }
  assert (Hall := proj1 Hfull eq_refl).
  destruct (Z.eqb_spec (bits mod 32) 0) as [E|E]; cbn [negb].
  { exists true. split; [done|]. split; [|done]. intros _ i Hi. apply Hall. lia. }
  destruct (Hw lim) as (Hu & _ & ->); [lia|]. cbn [mbind option_bind]. eexists; split; [done|].
  rewrite Z.eqb_eq, word_zero_iff by (apply (land_range 32); [lia|done]).
  split.
  - intros H i Hi. destruct (decide (i < 32 * lim)); [apply Hall; lia|].
    replace (i / 32) with lim by (Z.to_euclidean_division_equations; lia).
    replace (i mod 32) with (i - 32 * lim) by (Z.to_euclidean_division_equations; lia).
    specialize (H (i - 32 * lim) ltac:(lia)). rewrite Z.land_spec, last_mask_bit in H by lia.
    destruct (Z.ltb_spec (i - 32 * lim) (bits mod 32)); [|lia]. by rewrite andb_true_r in H.
  - intros H j Hj. rewrite Z.land_spec, last_mask_bit by lia.
    destruct (Z.ltb_spec j (bits mod 32)); [|apply andb_false_r]. rewrite andb_true_r.
    specialize (H (32 * lim + j) ltac:(lia)).
    replace ((32 * lim + j) / 32) with lim in H by (Z.to_euclidean_division_equations; lia).
    by replace ((32 * lim + j) mod 32) with j in H by (Z.to_euclidean_division_equations; lia).
Qed.

(** ** The set view of the operations *)

Definition holds_bits (bitmap : list Z) (bits : Z) : Prop :=
  words bitmap /\ 0 <= bits <= 32 * len bitmap.

Lemma holds_word bitmap bits k : holds_bits bitmap bits -> 0 <= k < BITS_TO_LONGS bits ->
  zget bitmap k = Some (zat bitmap k) /\ is_u32 (zat bitmap k) /\ k < len bitmap.
Proof.
  intros [Hw Hb] Hk. pose proof (longs_bound bits ltac:(lia)).
  split; [apply zget_zat; lia|]. split; [by apply words_zat|lia].
Qed.

Lemma u32_lnot w : is_u32 (~u w).
Proof. apply u32_range. Qed.

Lemma testbit_lnot_word w j : 0 <= j < 32 -> Z.testbit (~u w) j = negb (Z.testbit w j).
Proof.
  intros. rewrite testbit_u32, testbit_lnot.
  destruct (Z.ltb_spec j 32), (Z.leb_spec 0 j); try lia; done.
Qed.

Lemma mod32 i : 0 <= i mod 32 < 32.
Proof. apply Z.mod_pos_bound. lia. Qed.

Lemma lxor_neq a b : negb (a =? b) = nonzero (Z.lxor a b).
Proof.
  unfold nonzero. f_equal. destruct (Z.eqb_spec a b) as [->|Hne]; [by rewrite Z.lxor_nilpotent|].
  destruct (Z.eqb_spec (Z.lxor a b) 0) as [E|]; [|done]. apply Z.lxor_eq in E. done.
Qed.

Lemma binop_words_ok f g dst a b bits : holds_bits dst bits -> holds_bits a bits ->
  holds_bits b bits -> (forall x y, is_u32 x -> is_u32 y -> is_u32 (f x y)) ->
  (forall x y j, 0 <= j < 32 -> Z.testbit (f x y) j = g (Z.testbit x j) (Z.testbit y j)) ->
  exists dst', binop_words f dst a b bits = Some dst' /\ words dst' /\ length dst' = length dst /\
    forall i, bit dst' i = if (0 <=? i) && (i <? 32 * BITS_TO_LONGS bits)
                           then g (bit a i) (bit b i) else bit dst i.
Proof.
  intros Hd Ha Hb Hf Hg. pose proof Hd as [Hdw Hdl]. pose proof (longs_bound bits ltac:(lia)).
  destruct (map_words_ok (fun k => x ← zget a k; y ← zget b k; Some (f x y))
    (fun k => f (zat a k) (zat b k)) (Z.to_nat (BITS_TO_LONGS bits)) 0 dst) as (dst' & E & Hl & Hz);
    [lia|lia| |].
  { intros j Hj. destruct (holds_word a bits j Ha) as (-> & _); [lia|].
    destruct (holds_word b bits j Hb) as (-> & _); [lia|]. done. }
  rewrite Z2Nat.id in Hz by lia.
  exists dst'. split; [done|]. split; [|split; [done|]].
  - apply words_of_zat. intros p Hp. rewrite Hz. destruct (_ && _); [|by apply words_zat].
    apply Hf; apply words_zat; [apply Ha|apply Hb].
  - intros i. rewrite (bit_of_words dst dst' (fun k => f (zat a k) (zat b k)) 0 (BITS_TO_LONGS bits)) by done.
    rewrite Z.mul_0_r, Z.add_0_l. destruct (_ && _); [|done]. rewrite Hg by apply mod32. done.
Qed.

Lemma bitmap_zero_ok dst bits : holds_bits dst bits ->
  exists dst', bitmap_zero dst bits = Some dst' /\ words dst' /\ length dst' = length dst /\
    forall i, 0 <= i < bits -> bit dst' i = false.
Proof.
  intros [Hw Hl]. pose proof (longs_bound bits ltac:(lia)).
  destruct (map_words_ok (fun _ => Some 0) (fun _ => 0) (Z.to_nat (BITS_TO_LONGS bits)) 0 dst)
    as (dst' & E & Hlen & Hz); [lia|lia|done|]. rewrite Z2Nat.id in Hz by lia.
  exists dst'. split; [done|]. split; [|split; [done|]].
  - apply words_of_zat. intros p Hp. rewrite Hz. destruct (_ && _); [unfold is_u32; lia|by apply words_zat].
  - intros i Hi. rewrite (bit_of_words dst dst' (fun _ => 0) 0 (BITS_TO_LONGS bits)) by done.
    destruct (Z.leb_spec (32 * 0) i), (Z.ltb_spec i (32 * (0 + BITS_TO_LONGS bits))); try lia.
    apply Z.testbit_0_l.
Qed.

Lemma complement_ok dst src bits : holds_bits dst bits -> holds_bits src bits ->
  exists dst', __bitmap_complement dst src bits = Some dst' /\ words dst' /\
    length dst' = length dst /\ forall i, 0 <= i < bits -> bit dst' i = negb (bit src i).
Proof.
  intros Hd Hs. pose proof Hd as [Hdw Hdl]. pose proof (longs_bound bits ltac:(lia)) as [Hlb _].
  unfold __bitmap_complement, BITS_PER_LONG. pose proof (Z.div_mod bits 32 ltac:(lia)) as Hdm.
  pose proof (mod32 bits). set (lim := bits / 32) in *. assert (Hlim : 0 <= lim) by lia.
  destruct (map_words_ok (fun k => w ← zget src k; Some (~u w)) (fun k => ~u (zat src k))
    (Z.to_nat lim) 0 dst) as (d1 & -> & Hl1 & Hz1); [lia|lia| |].
  { intros j Hj. destruct (holds_word src bits j Hs) as (-> & _); [lia|]. done. }
  rewrite Z2Nat.id in Hz1 by lia. cbn [mbind option_bind].
  assert (Hw1 : words d1).
  { apply words_of_zat. intros p Hp. rewrite Hz1. destruct (_ && _); [apply u32_lnot|by apply words_zat]. }
  assert (Hb1 : forall i, 0 <= i < 32 * lim -> bit d1 i = negb (bit src i)).
  { intros i Hi. rewrite (bit_of_words dst d1 (fun k => ~u (zat src k)) 0 lim) by done.
    destruct (Z.leb_spec (32 * 0) i), (Z.ltb_spec i (32 * (0 + lim))); try lia. cbn [andb].
    by rewrite testbit_lnot_word by apply mod32. }
  destruct (Z.eqb_spec (bits mod 32) 0) as [E|E]; cbn [negb].
  { exists d1. split_and!; try done. intros i Hi. apply Hb1. lia. }
  destruct (holds_word src bits lim Hs) as (-> & Hu & _); [lia|]. cbn [mbind option_bind].
  rewrite zset_spec by lia. eexists; split; [done|]. split; [|split].
  - apply Forall_insert; [done|]. apply (land_range 32); [lia|apply u32_lnot].
  - by rewrite length_insert.
  - intros i Hi. rewrite bit_insert by lia. pose proof (mod32 i). pose proof (Z.div_mod i 32 ltac:(lia)).
    destruct (Z.eqb_spec (i / 32) lim) as [Ei|]; [|apply Hb1; lia].
    rewrite Z.land_spec, last_mask_bit, testbit_lnot_word by lia.
    destruct (Z.ltb_spec (i mod 32) (bits mod 32)); [|lia]. rewrite andb_true_r. unfold bit.
    by rewrite Ei.
Qed.

(** ** Shifts *)

(** Bit [i] of the bitmap proper: bits from [bits] on do not count. *)
Definition cbit (src : list Z) (bits i : Z) : bool := (i <? bits) && bit src i.

Lemma left_mask left j : 0 < left < 32 -> Z.testbit (u32 (u32 (Z.shiftl 1 left) - 1)) j =
  (0 <=? j) && (j <? left).
Proof.
  intros. rewrite Z.shiftl_1_l, u32_sub_l, testbit_u32, testbit_mask by lia.
  split_cmp; try lia; done.
Qed.

(** A source word with the bits past the end masked off, as both shifts do. *)
Lemma masked_word src bits k j : holds_bits src bits -> 0 <= k < BITS_TO_LONGS bits -> 0 <= j < 32 ->
  let left := bits mod BITS_PER_LONG in
  Z.testbit (if negb (left =? 0) && (k =? BITS_TO_LONGS bits - 1)
             then Z.land (zat src k) (u32 (u32 (Z.shiftl 1 left) - 1)) else zat src k) j
  = cbit src bits (32 * k + j).
Proof.
  intros [Hw Hb] Hk Hj left. pose proof (longs_bound bits ltac:(lia)) as [Hl _].
  unfold left, BITS_PER_LONG in *. clear left. pose proof (mod32 bits). unfold cbit.
  rewrite bit_word by done. unfold BITS_TO_LONGS, BITS_PER_LONG in *.
  destruct (Z.eqb_spec (bits mod 32) 0); cbn [negb andb].
  - destruct (Z.ltb_spec (32 * k + j) bits); [done|]. exfalso. Z.to_euclidean_division_equations. lia.
  - destruct (Z.eqb_spec k ((bits + 32 - 1) / 32 - 1)).
    + rewrite Z.land_spec, left_mask by lia.
      destruct (Z.leb_spec 0 j), (Z.ltb_spec j (bits mod 32)), (Z.ltb_spec (32 * k + j) bits);
        cbn [andb]; try lia; rewrite ?andb_true_r, ?andb_false_r; try done;
        exfalso; Z.to_euclidean_division_equations; lia.
    + destruct (Z.ltb_spec (32 * k + j) bits); [done|]. exfalso. Z.to_euclidean_division_equations. lia.
Qed.

Lemma cbit_out src bits i : bits <= i -> cbit src bits i = false.
Proof. intros. unfold cbit. destruct (Z.ltb_spec i bits); [lia|done]. Qed.

Lemma andb_comm_if (a b : bool) (x y : Z) : (if a && b then x else y) = (if b && a then x else y).
Proof. by rewrite andb_comm. Qed.

Lemma mask_u32 (c : bool) x m : is_u32 x -> is_u32 (if c then Z.land x m else x).
Proof. intros. destruct c; [apply (land_range 32); [lia|done]|done]. Qed.

(** The final mask of a result word changes nothing when the bits past the end
    are clear already. *)
Lemma final_mask bits k w (P : Z -> bool) (c : bool) : 0 <= bits -> is_u32 w ->
  (forall j, 0 <= j < 32 -> Z.testbit w j = P (32 * k + j)) ->
  (forall i, bits <= i -> P i = false) ->
  (c = true -> 0 < bits mod 32 /\ k = BITS_TO_LONGS bits - 1) ->
  forall j, 0 <= j < 32 ->
  Z.testbit (if c then Z.land w (u32 (u32 (Z.shiftl 1 (bits mod 32)) - 1)) else w) j = P (32 * k + j).
Proof.
  intros Hb Hw HP Hout Hc j Hj. destruct c; [|by apply HP]. destruct (Hc eq_refl) as [Hm ->].
  pose proof (mod32 bits). rewrite Z.land_spec, left_mask, HP by lia.
  destruct (Z.leb_spec 0 j), (Z.ltb_spec j (bits mod 32)); cbn [andb]; try lia;
    rewrite ?andb_true_r, ?andb_false_r; try done.
  symmetry. apply Hout. unfold BITS_TO_LONGS, BITS_PER_LONG. Z.to_euclidean_division_equations. lia.
Qed.

Lemma shift_right_word_ok src shift bits k : holds_bits src bits -> 0 <= shift -> 0 <= k ->
  shift / 32 + k < BITS_TO_LONGS bits ->
  exists w, shift_right_word src shift bits k = Some w /\ is_u32 w /\
    forall j, 0 <= j < 32 -> Z.testbit w j = cbit src bits (32 * k + j + shift).
Proof.
  intros Hs Hsh Hk Hlt. pose proof Hs as [Hw Hb]. pose proof (longs_bound bits ltac:(lia)) as [Hl _].
  pose proof (Z.div_mod shift 32 ltac:(lia)) as Hdm. pose proof (mod32 shift) as Hr.
  unfold shift_right_word, BITS_PER_LONG. cbv zeta.
  set (off := shift / 32) in *. set (rem := shift mod 32) in *. set (lim := BITS_TO_LONGS bits) in *.
  assert (Hoff : 0 <= off) by lia.
  set (mask := u32 (u32 (Z.shiftl 1 (bits mod 32)) - 1)).
  assert (Hup : exists up, (if (rem =? 0) || (lim <=? off + k + 1) then Some 0 else
      u ← zget src (off + k + 1);
      Some (if (off + k + 1 =? lim - 1) && negb (bits mod 32 =? 0) then Z.land u mask else u)) = Some up /\
    is_u32 up /\ (rem <> 0 -> forall j, 0 <= j < 32 ->
      Z.testbit up j = cbit src bits (32 * (off + k + 1) + j))).
  { destruct (Z.eqb_spec rem 0) as [E|E]; cbn [orb].
    { eexists; split; [done|]. split; [unfold is_u32; lia|done]. }
    destruct (Z.leb_spec lim (off + k + 1)).
    { eexists; split; [done|]. split; [unfold is_u32; lia|]. intros _ j Hj.
      rewrite Z.testbit_0_l, cbit_out; [done|]. lia. }
    destruct (holds_word src bits (off + k + 1) Hs) as (-> & Hu & _); [lia|]. cbn [mbind option_bind].
    eexists; split; [done|]. rewrite andb_comm_if. split; [by apply mask_u32|].
    intros _ j Hj. apply (masked_word src bits (off + k + 1) j Hs); [lia|done]. }
  destruct Hup as (up & -> & Hupu & Hupb). cbn [mbind option_bind].
  destruct (holds_word src bits (off + k) Hs) as (-> & Hu & _); [lia|]. cbn [mbind option_bind].
  set (low := if negb (bits mod 32 =? 0) && (off + k =? lim - 1) then Z.land (zat src (off + k)) mask
              else zat src (off + k)).
  assert (Hlowu : is_u32 low) by by apply mask_u32.
  assert (Hlow : forall j, 0 <= j < 32 -> Z.testbit low j = cbit src bits (32 * (off + k) + j)).
  { intros j Hj. apply (masked_word src bits (off + k) j Hs); [lia|done]. }
  set (w := Z.lor (u32 (Z.shiftl up (32 - rem))) (Z.shiftr low rem)).
  assert (Hwu : is_u32 w).
  { apply lor_range; [lia|apply u32_range|apply shiftr_range; [lia|lia|done]]. }
  eexists; split; [done|]. split; [by apply mask_u32|]. intros j Hj.
  apply (final_mask bits k w (fun i => cbit src bits (i + shift))); try done; [lia| | |].
  - intros t Ht. unfold w.
    rewrite Z.lor_spec, testbit_u32, testbit_shiftl, testbit_shiftr by lia.
    destruct (Z.ltb_spec t 32), (Z.leb_spec 0 t); try lia. cbn [andb].
    destruct (Z.leb_spec (32 - rem) t); cbn [andb orb].
    + rewrite (testbit_high 32 low), orb_false_r by (done || lia).
      rewrite Hupb by lia. f_equal. lia.
    + rewrite Hlow by lia. f_equal. lia.
  - intros i Hi. apply cbit_out. lia.
  - intros [Hc1 Hc2]%andb_true_iff. apply Z.eqb_eq in Hc2. apply negb_true_iff, Z.eqb_neq in Hc1.
    pose proof (mod32 bits). split; [lia|done].
Qed.

Lemma shift_left_word_ok src shift bits k : holds_bits src bits -> 0 <= shift -> 0 <= k ->
  shift / 32 + k < BITS_TO_LONGS bits ->
  exists w, shift_left_word src shift bits k = Some w /\ is_u32 w /\
    forall j, 0 <= j < 32 -> let i := 32 * (k + shift / 32) + j in
      Z.testbit w j = (i <? bits) && (shift <=? i) && bit src (i - shift).
Proof.
  intros Hs Hsh Hk Hlt. pose proof Hs as [Hw Hb]. pose proof (longs_bound bits ltac:(lia)) as [Hl _].
  pose proof (Z.div_mod shift 32 ltac:(lia)) as Hdm. pose proof (mod32 shift) as Hr.
  unfold shift_left_word, BITS_PER_LONG. cbv zeta.
  set (off := shift / 32) in *. set (rem := shift mod 32) in *. set (lim := BITS_TO_LONGS bits) in *.
  assert (Hoff : 0 <= off) by lia.
  set (mask := u32 (u32 (Z.shiftl 1 (bits mod 32)) - 1)).
  assert (Hlo : exists lo, (if negb (rem =? 0) && (0 <? k) then zget src (k - 1) else Some 0) = Some lo /\
    is_u32 lo /\ (rem <> 0 -> forall j, 0 <= j < 32 ->
      Z.testbit lo j = (0 <? k) && bit src (32 * (k - 1) + j))).
  { destruct (Z.eqb_spec rem 0); cbn [negb andb].
    { eexists; split; [done|]. split; [unfold is_u32; lia|done]. }
    destruct (Z.ltb_spec 0 k); cbn [andb].
    - destruct (holds_word src bits (k - 1) Hs) as (-> & Hu & _); [lia|]. eexists; split; [done|].
      split; [done|]. intros _ j Hj. by rewrite bit_word.
    - eexists; split; [done|]. split; [unfold is_u32; lia|]. intros. apply Z.testbit_0_l. }
  destruct Hlo as (lo & -> & Hlou & Hlob). cbn [mbind option_bind].
  destruct (holds_word src bits k Hs) as (-> & Hu & _); [lia|]. cbn [mbind option_bind].
  set (up := if negb (bits mod 32 =? 0) && (k =? lim - 1) then Z.land (zat src k) mask else zat src k).
  assert (Hupu : is_u32 up) by by apply mask_u32.
  assert (Hup : forall j, 0 <= j < 32 -> Z.testbit up j = cbit src bits (32 * k + j)).
  { intros j Hj. apply (masked_word src bits k j Hs); [lia|done]. }
  set (w := Z.lor (Z.shiftr lo (32 - rem)) (u32 (Z.shiftl up rem))).
  assert (Hwu : is_u32 w).
  { apply lor_range; [lia|apply shiftr_range; [lia|lia|done]|apply u32_range]. }
  eexists; split; [done|]. split; [by apply mask_u32|]. intros j Hj.
  set (i := 32 * (k + off) + j).
  assert (Hraw : Z.testbit w j = (shift <=? i) && (if j <? rem then bit src (i - shift)
                                                    else cbit src bits (i - shift))).
  { unfold w. rewrite Z.lor_spec, testbit_u32, testbit_shiftl, testbit_shiftr by lia.
    destruct (Z.ltb_spec j 32), (Z.leb_spec 0 j); try lia. cbn [andb]. unfold i.
    destruct (Z.ltb_spec j rem).
    - destruct (Z.leb_spec rem j); [lia|]. cbn [andb]. rewrite orb_false_r, Hlob by lia.
      replace (32 * (k - 1) + (j + (32 - rem))) with (32 * (k + off) + j - shift) by lia.
      destruct (Z.ltb_spec 0 k), (Z.leb_spec shift (32 * (k + off) + j)); try lia; done.
    - destruct (Z.leb_spec rem j), (Z.leb_spec shift (32 * (k + off) + j)); try lia. cbn [andb].
      rewrite (testbit_high 32 lo), orb_false_l, Hup by (done || lia). f_equal. lia. }
  assert (Hlong : bits mod 32 = 0 -> bits = 32 * lim).
  { unfold lim, BITS_TO_LONGS, BITS_PER_LONG. Z.to_euclidean_division_equations. lia. }
  assert (Hlast : bits mod 32 <> 0 -> bits = 32 * (lim - 1) + bits mod 32).
  { unfold lim, BITS_TO_LONGS, BITS_PER_LONG. Z.to_euclidean_division_equations. lia. }
  pose proof (mod32 bits). unfold cbit in Hraw.
  destruct (Z.eqb_spec (bits mod 32) 0) as [E|E]; cbn [negb andb].
  - rewrite Hraw. unfold i in *. specialize (Hlong E).
    destruct (Z.ltb_spec (32 * (k + off) + j) bits); [|lia].
    destruct (Z.ltb_spec (32 * (k + off) + j - shift) bits); [|lia]. by destruct (j <? rem).
  - specialize (Hlast E). destruct (Z.eqb_spec (k + off) (lim - 1)).
    + rewrite Z.land_spec. unfold mask. rewrite left_mask, Hraw by lia. unfold i in *.
      destruct (Z.leb_spec 0 j), (Z.ltb_spec j (bits mod 32)), (Z.ltb_spec (32 * (k + off) + j) bits);
        try lia; cbn [andb]; rewrite ?andb_false_r, ?andb_true_r; try done.
      destruct (Z.ltb_spec (32 * (k + off) + j - shift) bits); [|lia]. by destruct (j <? rem).
    + rewrite Hraw. unfold i in *. destruct (Z.ltb_spec (32 * (k + off) + j) bits); [|lia].
      destruct (Z.ltb_spec (32 * (k + off) + j - shift) bits); [|lia]. by destruct (j <? rem).
Qed.

(** The word function a loop computes, from a total specification of each word. *)
Lemma words_function (f : Z -> option Z) (P : Z -> Z -> Prop) lo n : 
  (forall k, lo <= k < lo + n -> exists w, f k = Some w /\ P k w) ->
  exists g, forall k, lo <= k < lo + n -> f k = Some (g k) /\ P k (g k).
Proof.
  intros H. exists (fun k => default 0 (f k)). intros k Hk.
  destruct (H k Hk) as (w & -> & Hw). done.
Qed.

Lemma shift_right_ok dst src shift bits : holds_bits dst bits -> holds_bits src bits ->
  0 <= shift <= bits ->
  exists dst', __bitmap_shift_right dst src shift bits = Some dst' /\ words dst' /\
    length dst' = length dst /\
    forall i, 0 <= i < bits -> bit dst' i = (i + shift <? bits) && bit src (i + shift).
Proof.
  intros Hd Hs Hsh. pose proof Hd as [Hdw Hdl]. pose proof (longs_bound bits ltac:(lia)) as [Hl _].
  unfold __bitmap_shift_right, BITS_PER_LONG. cbv zeta. set (lim := BITS_TO_LONGS bits) in *.
  pose proof (Z.div_mod shift 32 ltac:(lia)). pose proof (mod32 shift). set (off := shift / 32) in *.
  assert (Hoff : 0 <= off <= lim) by lia.
  destruct (words_function (shift_right_word src shift bits)
    (fun k w => is_u32 w /\ forall j, 0 <= j < 32 -> Z.testbit w j = cbit src bits (32 * k + j + shift))
    0 (lim - off)) as (g & Hg).
  { intros k Hk. apply shift_right_word_ok; try done; fold off lim; lia. }
  destruct (map_words_ok (shift_right_word src shift bits) g (Z.to_nat (lim - off)) 0 dst)
    as (d1 & -> & Hl1 & Hz1); [lia|lia|intros k Hk; apply Hg; lia|]. cbn [mbind option_bind].
  rewrite Z2Nat.id in Hz1 by lia.
  assert (Hw1 : words d1).
  { apply words_of_zat. intros p Hp. rewrite Hz1. destruct (Z.leb_spec 0 p), (Z.ltb_spec p (0 + (lim - off)));
      cbn [andb]; [apply Hg; lia|by apply words_zat..]. }
  assert (Hd2 : exists d2, (if negb (off =? 0) then map_words (fun _ => Some 0) (lim - off) (Z.to_nat off) d1
      else Some d1) = Some d2 /\ length d2 = length d1 /\
      forall p, zat d2 p = if (lim - off <=? p) && (p <? lim - off + off) then 0 else zat d1 p).
  { destruct (Z.eqb_spec off 0) as [E|E]; cbn [negb].
    - exists d1. split_and!; try done. intros p. rewrite E.
      destruct (Z.leb_spec (lim - 0) p), (Z.ltb_spec p (lim - 0 + 0)); try lia; done.
    - destruct (map_words_ok (fun _ => Some 0) (fun _ => 0) (Z.to_nat off) (lim - off) d1)
        as (d2 & -> & ? & Hz2); [lia|lia|done|]. rewrite Z2Nat.id in Hz2 by lia. by exists d2. }
  destruct Hd2 as (d2 & -> & Hl2 & Hz2). exists d2. split; [done|]. split; [|split; [congruence|]].
  - apply words_of_zat. intros p Hp. rewrite Hz2. destruct (_ && _); [unfold is_u32; lia|by apply words_zat].
  - intros i Hi. rewrite (bit_of_words d1 d2 (fun _ => 0) (lim - off) off) by done.
    rewrite (bit_of_words dst d1 g 0 (lim - off)) by done.
    pose proof (Z.div_mod i 32 ltac:(lia)). pose proof (mod32 i).
    destruct (Z.leb_spec (32 * (lim - off)) i), (Z.ltb_spec i (32 * (lim - off + off))); cbn [andb]; try lia.
    + rewrite Z.testbit_0_l. destruct (Z.ltb_spec (i + shift) bits); [lia|done].
    + destruct (Z.leb_spec (32 * 0) i), (Z.ltb_spec i (32 * (0 + (lim - off)))); cbn [andb]; try lia.
      destruct (Hg (i / 32)) as (_ & _ & Hgb); [lia|]. rewrite Hgb by done. unfold cbit.
      replace (32 * (i / 32) + i mod 32) with i by lia. done.
Qed.

Lemma shift_left_ok dst src shift bits : holds_bits dst bits -> holds_bits src bits ->
  0 <= shift <= bits ->
  exists dst', __bitmap_shift_left dst src shift bits = Some dst' /\ words dst' /\
    length dst' = length dst /\
    forall i, 0 <= i < bits -> bit dst' i = (shift <=? i) && bit src (i - shift).
Proof.
  intros Hd Hs Hsh. pose proof Hd as [Hdw Hdl]. pose proof (longs_bound bits ltac:(lia)) as [Hl _].
  unfold __bitmap_shift_left, BITS_PER_LONG. cbv zeta. set (lim := BITS_TO_LONGS bits) in *.
  pose proof (Z.div_mod shift 32 ltac:(lia)). pose proof (mod32 shift). set (off := shift / 32) in *.
  assert (Hoff : 0 <= off <= lim) by lia.
  destruct (words_function (shift_left_word src shift bits)
    (fun k w => is_u32 w /\ forall j, 0 <= j < 32 -> let i := 32 * (k + shift / 32) + j in
      Z.testbit w j = (i <? bits) && (shift <=? i) && bit src (i - shift)) 0 (lim - off)) as (g & Hg).
  { intros k Hk. apply shift_left_word_ok; try done; fold off lim; lia. }
  destruct (map_words_down_ok (shift_left_word src shift bits) g (Z.to_nat (lim - off)) off dst)
    as (d1 & -> & Hl1 & Hz1); [lia|lia|intros k Hk; apply Hg; lia|]. cbn [mbind option_bind].
  rewrite Z2Nat.id in Hz1 by lia.
  assert (Hw1 : words d1).
  { apply words_of_zat. intros p Hp. rewrite Hz1. destruct (Z.leb_spec off p), (Z.ltb_spec p (off + (lim - off)));
      cbn [andb]; [apply Hg; lia|by apply words_zat..]. }
  assert (Hd2 : exists d2, (if negb (off =? 0) then map_words (fun _ => Some 0) 0 (Z.to_nat off) d1
      else Some d1) = Some d2 /\ length d2 = length d1 /\
      forall p, zat d2 p = if (0 <=? p) && (p <? 0 + off) then 0 else zat d1 p).
  { destruct (Z.eqb_spec off 0) as [E|E]; cbn [negb].
    - exists d1. split_and!; try done. intros p. rewrite E.
      destruct (Z.leb_spec 0 p), (Z.ltb_spec p (0 + 0)); try lia; done.
    - destruct (map_words_ok (fun _ => Some 0) (fun _ => 0) (Z.to_nat off) 0 d1)
        as (d2 & -> & ? & Hz2); [lia|lia|done|]. rewrite Z2Nat.id in Hz2 by lia. by exists d2. }
  destruct Hd2 as (d2 & -> & Hl2 & Hz2). exists d2. split; [done|]. split; [|split; [congruence|]].
  - apply words_of_zat. intros p Hp. rewrite Hz2. destruct (_ && _); [unfold is_u32; lia|by apply words_zat].
  - intros i Hi. rewrite (bit_of_words d1 d2 (fun _ => 0) 0 off) by done.
    rewrite (bit_of_words dst d1 (fun p => g (p - off)) off (lim - off)) by done.
    pose proof (Z.div_mod i 32 ltac:(lia)). pose proof (mod32 i).
    destruct (Z.leb_spec (32 * 0) i), (Z.ltb_spec i (32 * (0 + off))); cbn [andb]; try lia.
    + rewrite Z.testbit_0_l. destruct (Z.leb_spec shift i); [lia|done].
    + destruct (Z.leb_spec (32 * off) i), (Z.ltb_spec i (32 * (off + (lim - off)))); cbn [andb]; try lia.
      destruct (Hg (i / 32 - off)) as (_ & _ & Hgb); [lia|]. rewrite Hgb by done. fold off.
      replace (32 * (i / 32 - off + off) + i mod 32) with i by lia.
      destruct (Z.ltb_spec i bits); [|lia]. done.
Qed.

(** ** Positions of the set bits, in order *)

Definition positions (P : Z -> bool) (lo hi : Z) : list Z :=
  filter (fun i => P i = true) (seqZ lo (hi - lo)).

Lemma elem_of_positions P lo hi x : x ∈ positions P lo hi <-> lo <= x < hi /\ P x = true.
Proof. unfold positions. rewrite list_elem_of_filter, elem_of_seqZ. intuition lia. Qed.

Lemma positions_nil P lo hi : hi <= lo -> positions P lo hi = [].
Proof. intros. unfold positions. by rewrite seqZ_nil by lia. Qed.

Lemma positions_split P lo mid hi : lo <= mid <= hi ->
  positions P lo hi = positions P lo mid ++ positions P mid hi.
Proof.
  intros. unfold positions. replace (hi - lo) with ((mid - lo) + (hi - mid)) by lia.
  rewrite seqZ_app, filter_app by lia. do 3 f_equal. lia.
Qed.

Lemma positions_none P lo hi : (forall j, lo <= j < hi -> P j = false) -> positions P lo hi = [].
Proof.
  intros H. destruct (positions P lo hi) as [|x l] eqn:E; [done|].
  assert (Hx : x ∈ positions P lo hi) by (rewrite E; apply list_elem_of_here).
  apply elem_of_positions in Hx as [Hx Hp]. rewrite H in Hp by done. done.
Qed.

Lemma positions_one P i : positions P i (i + 1) = if P i then [i] else [].
Proof.
  unfold positions. replace (i + 1 - i) with 1 by lia.
  rewrite seqZ_cons, seqZ_nil by lia. destruct (P i) eqn:E.
  - by rewrite filter_cons_True.
  - rewrite filter_cons_False by congruence. done.
Qed.

Lemma positions_first P lo hi r : is_first P lo hi r ->
  positions P lo hi = if r <? hi then r :: positions P (r + 1) hi else [].
Proof.
  intros (Hr & Hno & Hyes). rewrite (positions_split P lo r hi) by lia.
  rewrite positions_none by done. destruct (Z.ltb_spec r hi).
  - rewrite (positions_split P r (r + 1) hi), positions_one, Hyes by lia. done.
  - by rewrite positions_nil by lia.
Qed.

Lemma positions_length P lo hi : len (positions P lo hi) <= Z.max 0 (hi - lo).
Proof.
  unfold positions. pose proof (length_filter (fun i => P i = true) (seqZ lo (hi - lo))).
  rewrite length_seqZ in *. lia.
Qed.

(** The body run over a list of positions. *)
Fixpoint foldm {A} (body : Z -> A -> option A) (l : list Z) (acc : A) : option A :=
  match l with
  | [] => Some acc
  | x :: l' => acc ← body x acc; foldm body l' acc
  end.

(** A bitmap whose size fits the searches' 32-bit arithmetic. *)
Definition searchable (buf : list Z) (bits : Z) : Prop :=
  holds_bits buf bits /\ 32 * len buf + 32 < 2 ^ 32.

Lemma next_first buf bits i : searchable buf bits -> 0 <= i <= bits ->
  exists r, find_next_bit buf bits i = Some r /\ is_first (bit buf) i bits r.
Proof.
  intros [[Hw Hb] Hl] Hi. destruct (decide (i < bits)).
  - apply find_next_bit_ok; try done; lia.
  - exists bits. rewrite find_next_bit_past by lia. split; [done|].
    split; [lia|]. split; [intros j Hj; lia|lia].
Qed.

Lemma first_first buf bits : searchable buf bits ->
  exists r, find_first_bit buf bits = Some r /\ is_first (bit buf) 0 bits r.
Proof. intros [[Hw Hb] Hl]. by apply find_first_bit_ok. Qed.

Lemma for_set_bits_ok {A} (body : Z -> A -> option A) buf bits : searchable buf bits ->
  forall fuel lo i acc, 0 <= lo -> is_first (bit buf) lo bits i -> bits - i < Z.of_nat fuel ->
  for_set_bits fuel buf bits i body acc = foldm body (positions (bit buf) lo bits) acc.
Proof.
  intros Hs. induction fuel as [|fuel IH]; intros lo i acc Hlo Hf Hfuel.
  { destruct Hf as [? _]. lia. }
  rewrite (positions_first _ _ _ _ Hf). cbn [for_set_bits]. destruct (Z.ltb_spec i bits); [|done].
  cbn [foldm]. destruct (body i acc) as [acc'|]; cbn [mbind option_bind]; [|done].
  destruct Hf as [Hi _]. destruct (next_first buf bits (i + 1) Hs) as (r & -> & Hr); [lia|].
  cbn [mbind option_bind]. apply IH; [lia|done|]. destruct Hr as [? _]. lia.
Qed.

Lemma each_set_bit_ok {A} (body : Z -> A -> option A) buf bits acc : searchable buf bits ->
  each_set_bit buf bits body acc = foldm body (positions (bit buf) 0 bits) acc.
Proof.
  intros Hs. unfold each_set_bit. destruct (first_first buf bits Hs) as (r & -> & Hr).
  cbn [mbind option_bind]. apply for_set_bits_ok; try done. destruct Hr as [? _]. lia.
Qed.

(** ** Rank and select *)

Lemma pos_to_ord_loop_ok buf bits pos : searchable buf bits -> pos < bits -> bit buf pos = true ->
  forall fuel lo i ord, 0 <= lo <= pos -> is_first (bit buf) lo bits i -> bits - i < Z.of_nat fuel ->
  pos_to_ord_loop fuel buf bits pos i ord = Some (ord + len (positions (bit buf) lo pos)).
Proof.
  intros Hs Hpos Hbit. induction fuel as [|fuel IH]; intros lo i ord Hlo Hf Hfuel.
  { destruct Hf as [? _]. lia. }
  cbn [pos_to_ord_loop]. destruct Hf as (Hi & Hno & Hyes).
  assert (Hip : i <= pos).
  { destruct (Z.ltb_spec pos i); [|lia]. rewrite Hno in Hbit by lia. done. }
  destruct (Z.ltb_spec i pos).
  - destruct (next_first buf bits (i + 1) Hs) as (r & -> & Hr); [lia|]. cbn [mbind option_bind].
    rewrite (IH (i + 1)); [|lia|done|destruct Hr; lia]. f_equal.
    rewrite (positions_split _ lo (i + 1) pos), length_app by lia.
    rewrite (positions_split _ lo i (i + 1)), (positions_none (bit buf) lo i) by (done || lia).
    rewrite positions_one, Hyes by lia.
    cbn [app length]. lia.
  - assert (i = pos) as -> by lia. rewrite Z.eqb_refl. cbn [negb].
    rewrite positions_none by done. cbn [length]. f_equal. lia.
Qed.

(** The ordinal of a set bit is the number of set bits below it. *)
Lemma pos_to_ord_ok buf bits pos : searchable buf bits ->
  bitmap_pos_to_ord buf pos bits =
    Some (if (0 <=? pos) && (pos <? bits) && bit buf pos then len (positions (bit buf) 0 pos) else -1).
Proof.
  intros Hs. unfold bitmap_pos_to_ord. destruct (Z.ltb_spec pos 0), (Z.leb_spec bits pos),
    (Z.leb_spec 0 pos), (Z.ltb_spec pos bits); cbn [orb andb]; try lia; try done.
  pose proof Hs as [[Hw Hb] Hl]. rewrite test_bit_spec by lia. cbn [mbind option_bind].
  destruct (bit buf pos) eqn:E; cbn [negb]; [|done].
  destruct (first_first buf bits Hs) as (r & -> & Hr). cbn [mbind option_bind].
  rewrite (pos_to_ord_loop_ok buf bits pos Hs ltac:(done) E _ 0 r 0); [done|lia|done|].
  destruct Hr. lia.
Qed.

Lemma ord_to_pos_loop_ok buf bits : searchable buf bits -> forall fuel lo i ord,
  0 <= lo -> is_first (bit buf) lo bits i -> bits - i < Z.of_nat fuel -> 0 <= ord ->
  ord_to_pos_loop fuel buf bits i ord = Some (zat (positions (bit buf) lo bits) ord).
Proof.
  intros Hs. induction fuel as [|fuel IH]; intros lo i ord Hlo Hf Hfuel Hord.
  { destruct Hf as [? _]. lia. }
  cbn [ord_to_pos_loop]. rewrite (positions_first _ _ _ _ Hf). destruct Hf as (Hi & _).
  destruct (Z.ltb_spec i bits); cbn [andb].
  - destruct (Z.ltb_spec 0 ord).
    + destruct (next_first buf bits (i + 1) Hs) as (r & -> & Hr); [lia|]. cbn [mbind option_bind].
      rewrite (IH (i + 1)); [|lia|done|destruct Hr; lia|lia]. f_equal.
      change (i :: positions (bit buf) (i + 1) bits) with ([i] ++ positions (bit buf) (i + 1) bits).
      rewrite zat_app. cbn [length]. destruct (Z.ltb_spec ord (Z.of_nat 1)); [lia|]. f_equal.
    + assert (ord = 0) as -> by lia. done.
  - by rewrite zat_out by (cbn [length]; lia).
Qed.

Lemma ord_to_pos_ok buf bits ord : searchable buf bits ->
  bitmap_ord_to_pos buf ord bits = Some (zat (positions (bit buf) 0 bits) ord).
Proof.
  intros Hs. unfold bitmap_ord_to_pos. pose proof Hs as [[Hw Hb] Hl].
  destruct (Z.leb_spec 0 ord), (Z.ltb_spec ord bits); cbn [andb].
  - destruct (first_first buf bits Hs) as (r & -> & Hr). cbn [mbind option_bind].
    apply ord_to_pos_loop_ok; try done. destruct Hr. lia.
  - pose proof (positions_length (bit buf) 0 bits). by rewrite zat_out by lia.
  - by rewrite zat_out by lia.
  - by rewrite zat_out by lia.
Qed.

(** Select after rank gives the position back. *)
Lemma rank_select P bits pos : 0 <= pos < bits -> P pos = true ->
  zat (positions P 0 bits) (len (positions P 0 pos)) = pos /\
  len (positions P 0 pos) < len (positions P 0 bits).
Proof.
  intros Hp HP. rewrite (positions_split P 0 pos bits) by lia.
  rewrite (positions_split P pos (pos + 1) bits), positions_one, HP by lia.
  rewrite zat_app, !length_app. destruct (Z.ltb_spec (len (positions P 0 pos)) (len (positions P 0 pos))); [lia|].
  rewrite Z.sub_diag. cbn [app length]. split; [done|lia].
Qed.

(** ** Weight *)

Lemma popcount_positions n x : popcount n x = len (positions (Z.testbit x) 0 (Z.of_nat n)).
Proof.
  induction n as [|n IH]; [done|]. cbn [popcount]. rewrite IH.
  rewrite (positions_split _ 0 (Z.of_nat n) (Z.of_nat (S n))) by lia.
  replace (Z.of_nat (S n)) with (Z.of_nat n + 1) by lia. rewrite positions_one, length_app.
  destruct (Z.testbit x (Z.of_nat n)); cbn [length Z.b2z]; lia.
Qed.

Lemma positions_shift P Q lo hi d : (forall j, lo <= j < hi -> P j = Q (j + d)) ->
  len (positions P lo hi) = len (positions Q (lo + d) (hi + d)).
Proof.
  intros H. destruct (Z.leb_spec hi lo); [by rewrite !positions_nil by lia|].
  unfold positions. replace (hi + d - (lo + d)) with (hi - lo) by lia.
  assert (E : forall n lo, (forall j, lo <= j < lo + Z.of_nat n -> P j = Q (j + d)) ->
    length (filter (fun i => P i = true) (seqZ lo (Z.of_nat n))) =
    length (filter (fun i => Q i = true) (seqZ (lo + d) (Z.of_nat n)))).
  { clear. induction n as [|n IH]; intros lo H; [done|].
    rewrite !(seqZ_cons _ (Z.of_nat (S n))) by lia.
    replace (Z.pred (Z.of_nat (S n))) with (Z.of_nat n) by lia.
    replace (Z.succ (lo + d)) with (Z.succ lo + d) by lia.
    assert (E : P lo = Q (lo + d)) by (apply H; lia).
    destruct (P lo) eqn:EP.
    - rewrite !filter_cons_True by congruence. cbn [length]. f_equal. apply IH. intros; apply H; lia.
    - rewrite !filter_cons_False by congruence. apply IH. intros; apply H; lia. }
  replace (hi - lo) with (Z.of_nat (Z.to_nat (hi - lo))) by lia. f_equal. apply E.
  intros j Hj. apply H. lia.
Qed.

Lemma hweight_word buf k w n : 0 <= n <= 32 -> is_u32 w -> 
  (forall j, 0 <= j < 32 -> Z.testbit w j = (j <? n) && bit buf (32 * k + j)) ->
  hweight_long w = len (positions (bit buf) (32 * k) (32 * k + n)).
Proof.
  intros Hn Hw Hb. unfold hweight_long. rewrite hweight32_popcount, popcount_positions by done.
  change (Z.of_nat 32) with 32. rewrite (positions_split _ 0 n 32), length_app by lia.
  rewrite (positions_none _ n 32).
  2:{ intros j Hj. rewrite Hb by lia. destruct (Z.ltb_spec j n); [lia|done]. }
  cbn [length]. rewrite Nat.add_0_r, (positions_shift _ (bit buf) 0 n (32 * k)).
  - do 2 f_equal; f_equal; lia.
  - intros j Hj. rewrite Hb by lia. destruct (Z.ltb_spec j n); [|lia]. cbn [andb]. f_equal. lia.
Qed.

Lemma weight_loop_ok buf n : words buf -> forall k w, 0 <= k -> k + Z.of_nat n <= len buf ->
  weight_loop buf k n w = Some (w + len (positions (bit buf) (32 * k) (32 * (k + Z.of_nat n)))).
Proof.
  intros Hw. induction n as [|n IH]; intros k w Hk Hl; cbn [weight_loop].
  { rewrite positions_nil by lia. f_equal. cbn [length]. lia. }
  rewrite zget_zat by lia. cbn [mbind option_bind]. rewrite IH by lia. f_equal.
  rewrite (hweight_word buf k (zat buf k) 32); [|lia|by apply words_zat|].
  2:{ intros j Hj. rewrite bit_word by done. destruct (Z.ltb_spec j 32); [done|lia]. }
  rewrite (positions_split _ (32 * k) (32 * (k + 1)) (32 * (k + Z.of_nat (S n)))), length_app by lia.
  replace (k + 1 + Z.of_nat n) with (k + Z.of_nat (S n)) by lia.
  replace (32 * k + 32) with (32 * (k + 1)) by lia. lia.
Qed.

Lemma weight_ok buf bits : holds_bits buf bits ->
  __bitmap_weight buf bits = Some (len (positions (bit buf) 0 bits)).
Proof.
  intros [Hw Hb]. unfold __bitmap_weight, BITS_PER_LONG.
  pose proof (Z.div_mod bits 32 ltac:(lia)). pose proof (mod32 bits). set (lim := bits / 32) in *.
  rewrite weight_loop_ok by (done || lia). cbn [mbind option_bind].
  replace (0 + Z.of_nat (Z.to_nat lim)) with lim by lia. rewrite Z.mul_0_r, Z.add_0_l.
  destruct (Z.eqb_spec (bits mod 32) 0) as [E|E]; cbn [negb].
  { do 4 f_equal. lia. }
  rewrite zget_zat by lia. cbn [mbind option_bind]. f_equal.
  rewrite (hweight_word buf lim _ (bits mod 32)); [|lia| |].
  - rewrite (positions_split _ 0 (32 * lim) bits), length_app by lia.
    replace (32 * lim + bits mod 32) with bits by lia. lia.
  - apply (land_range 32); [lia|by apply words_zat].
  - intros j Hj. rewrite Z.land_spec, last_mask_bit, bit_word by lia. apply andb_comm.
Qed.

(** ** Maps of bit positions *)

(** Setting the bits [m x] for all [x] of a list. *)
Lemma set_bits_ok (body : Z -> list Z -> option (list Z)) (m : Z -> Z) l : forall dst,
  words dst -> (forall x, x ∈ l -> 0 <= m x < 32 * len dst) ->
  (forall x d, x ∈ l -> body x d = __set_bit (m x) d) ->
  exists dst', foldm body l dst = Some dst' /\ words dst' /\ length dst' = length dst /\
    forall i, bit dst' i = true <-> bit dst i = true \/ exists x, x ∈ l /\ m x = i.
Proof.
  induction l as [|x l IH]; intros dst Hw Hm Hbody; cbn [foldm].
  { exists dst. split_and!; try done. intros i. split; [by left|]. intros [|(y & Hy & _)]; [done|].
    by apply elem_of_nil in Hy. }
  rewrite Hbody by apply list_elem_of_here.
  destruct (set_bit_spec dst (m x) Hw) as (d1 & -> & Hw1 & Hl1 & Hb1); [apply Hm, list_elem_of_here|].
  cbn [mbind option_bind].
  destruct (IH d1) as (d2 & -> & Hw2 & Hl2 & Hb2); [done| | |].
  - intros y Hy. rewrite Hl1. by apply Hm, list_elem_of_further.
  - intros y d Hy. by apply Hbody, list_elem_of_further.
  - exists d2. split; [done|]. split; [done|]. split; [congruence|]. intros i. rewrite Hb2, Hb1.
    destruct (Z.eqb_spec i (m x)) as [->|Hne].
    + split; [|by left]. intros _. right. exists x. split; [apply list_elem_of_here|done].
    + split; intros [?|(y & Hy & Hmy)]; auto.
      * right. exists y. split; [by apply list_elem_of_further|done].
      * apply elem_of_cons in Hy as [->|Hy]; [congruence|]. right. by exists y.
Qed.

(** The map of a single position, as [bitmap_bitremap] documents it. *)
Definition remap_pos (old new : list Z) (bits x : Z) : Z :=
  let w := len (positions (bit new) 0 bits) in
  if (0 <=? x) && (x <? bits) && bit old x && negb (w =? 0)
  then zat (positions (bit new) 0 bits) (len (positions (bit old) 0 x) mod w) else x.

Lemma bitremap_ok old new bits x : searchable old bits -> searchable new bits ->
  bitmap_bitremap x old new bits = Some (remap_pos old new bits x).
Proof.
  intros Ho Hn. unfold bitmap_bitremap, remap_pos. rewrite weight_ok by apply Hn.
  cbn [mbind option_bind]. rewrite pos_to_ord_ok by done. cbn [mbind option_bind].
  destruct ((0 <=? x) && (x <? bits) && bit old x); cbn [andb].
  - destruct (Z.ltb_spec (len (positions (bit old) 0 x)) 0); [lia|]. cbn [orb].
    destruct (Z.eqb_spec (len (positions (bit new) 0 bits)) 0); cbn [negb]; [done|].
    rewrite ord_to_pos_ok, Z.rem_mod_nonneg by (done || lia). done.
  - done.
Qed.

Lemma remap_pos_range old new bits x : 0 <= x < bits -> 0 <= remap_pos old new bits x < bits.
Proof.
  intros Hx. unfold remap_pos. set (l := positions (bit new) 0 bits).
  destruct (_ && _) eqn:E; [|done]. apply andb_true_iff in E as [_ E].
  apply negb_true_iff, Z.eqb_neq in E.
  set (n := len (positions (bit old) 0 x) mod len l).
  assert (Hn : 0 <= n < len l) by (apply Z.mod_pos_bound; lia).
  assert (Hin : zat l n ∈ l).
  { apply list_elem_of_lookup. exists (Z.to_nat n). rewrite lookup_zat by lia. do 2 f_equal. lia. }
  by apply elem_of_positions in Hin as [? _].
Qed.

(** Turning on [n] for the [m]-th position [n] when bit [m] of [orig] is set. *)
Lemma onto_fold_ok orig l : words orig -> forall dst m, words dst ->
  (forall x, x ∈ l -> 0 <= x < 32 * len dst) -> 0 <= m -> m + len l <= 32 * len orig ->
  exists dst', foldm (fun n '(dst, m) => b ← test_bit m orig;
      dst ← (if b : bool then __set_bit n dst else Some dst); Some (dst, m + 1)) l (dst, m)
      = Some (dst', m + len l) /\ words dst' /\ length dst' = length dst /\
    forall i, bit dst' i = true <->
      bit dst i = true \/ exists j, l !! j = Some i /\ bit orig (m + Z.of_nat j) = true.
Proof.
  intros Ho. induction l as [|x l IH]; intros dst m Hw Hx Hm Hl; cbn [foldm].
  { exists dst. cbn [length]. rewrite Z.add_0_r. split_and!; try done. intros i.
    split; [by left|]. by intros [|(j & Hj & _)]. }
  cbn [length] in Hl. rewrite test_bit_spec by lia. cbn [mbind option_bind].
  assert (Hd : exists d1, (if bit orig m then __set_bit x dst else Some dst) = Some d1 /\ words d1 /\
    length d1 = length dst /\ forall i, bit d1 i = true <-> bit dst i = true \/ (i = x /\ bit orig m = true)).
  { destruct (bit orig m).
    - destruct (set_bit_spec dst x Hw) as (d1 & -> & ? & ? & Hb); [apply Hx, list_elem_of_here|].
      exists d1. split_and!; try done. intros i. rewrite Hb. destruct (Z.eqb_spec i x); intuition done.
    - exists dst. split_and!; try done. intros i. intuition done. }
  destruct Hd as (d1 & -> & Hw1 & Hl1 & Hb1). cbn [mbind option_bind].
  destruct (IH d1 (m + 1)) as (d2 & -> & Hw2 & Hl2 & Hb2); [done| |lia|lia|].
  { intros y Hy. rewrite Hl1. by apply Hx, list_elem_of_further. }
  exists d2. split; [do 2 f_equal; cbn [length]; lia|]. split; [done|]. split; [congruence|]. intros i. rewrite Hb2, Hb1. split.
  - intros [[?|[-> ?]]|(j & Hj & Hjb)]; [by left|right|right].
    + exists 0%nat. by rewrite Z.add_0_r.
    + exists (S j). split; [done|]. rewrite <- Hjb. f_equal. lia.
  - intros [?|([|j] & Hj & Hjb)]; [by left; left| |].
    + left; right. injection Hj as <-. by rewrite Z.add_0_r in Hjb.
    + right. exists j. split; [done|]. rewrite <- Hjb. f_equal. lia.
Qed.

(** ** Regions *)

(** Bit [i] lies in the region of [2 ^ order] bits at [pos]. *)
Definition in_region (pos order i : Z) : bool := (pos <=? i) && (i <? pos + 2 ^ order).

(** The mask of one long of the region. *)
Definition reg_mask (pos order : Z) : Z :=
  let nb := Z.min (2 ^ order) 32 in
  u32 (Z.shiftl (u32 (u32 (Z.shiftl 1 (nb - 1)) + u32 (u32 (Z.shiftl 1 (nb - 1)) - 1)))
         (pos - pos / 32 * 32)).

Lemma reg_mask_eq pos order : 0 <= order -> 0 <= pos ->
  reg_mask pos order = u32 (Z.shiftl (2 ^ Z.min (2 ^ order) 32 - 1) (pos mod 32)).
Proof.
  intros Ho Hp. unfold reg_mask. set (nb := Z.min (2 ^ order) 32).
  assert (Hnb : 1 <= nb <= 32) by (pose proof (Z.pow_pos_nonneg 2 order); lia).
  rewrite Z.shiftl_1_l. assert (Hlt : 2 ^ (nb - 1) <= 2 ^ 31) by (apply Z.pow_le_mono_r; lia).
  assert (0 < 2 ^ (nb - 1)) by (apply Z.pow_pos_nonneg; lia).
  rewrite (u32_id (2 ^ (nb - 1))) by (unfold is_u32; lia).
  rewrite (u32_id (2 ^ (nb - 1) - 1)) by (unfold is_u32; lia).
  rewrite (u32_id (2 ^ (nb - 1) + (2 ^ (nb - 1) - 1))) by (unfold is_u32; lia).
  replace (2 ^ (nb - 1) + (2 ^ (nb - 1) - 1)) with (2 ^ nb - 1).
  2:{ replace (2 ^ nb) with (2 * 2 ^ (nb - 1)); [lia|]. rewrite <- Z.pow_succ_r by lia. f_equal. lia. }
  do 2 f_equal. pose proof (Z.div_mod pos 32). lia.
Qed.

(** Either the region is inside one long, or it is a run of whole longs. *)
Lemma region_shape pos order : 0 <= order -> 0 <= pos -> pos mod 2 ^ order = 0 ->
  (2 ^ order <= 32 /\ pos mod 32 + 2 ^ order <= 32 /\ BITS_TO_LONGS (2 ^ order) = 1) \/
  (32 <= 2 ^ order /\ pos mod 32 = 0 /\ 32 * BITS_TO_LONGS (2 ^ order) = 2 ^ order).
Proof.
  intros Ho Hp Ha. unfold BITS_TO_LONGS, BITS_PER_LONG. destruct (Z.leb_spec order 5).
  - left. assert (E : 2 ^ order * 2 ^ (5 - order) = 32)
      by (rewrite <- Z.pow_add_r by lia; replace (order + (5 - order)) with 5 by lia; done).
    assert (0 < 2 ^ order) by (apply Z.pow_pos_nonneg; lia).
    assert (0 < 2 ^ (5 - order)) by (apply Z.pow_pos_nonneg; lia).
    split; [nia|]. split.
    + assert (Hd : (pos mod 32) mod 2 ^ order = 0).
      { rewrite <- E. rewrite Z.mul_comm, (Z.mul_comm (2 ^ (5 - order))).
        rewrite Z.rem_mul_r by lia. rewrite Ha, Z.add_0_l, Z.mul_comm, Z.mod_mul; lia. }
      pose proof (Z.mod_pos_bound pos 32 ltac:(lia)).
      apply Z.div_exact in Hd; [|lia]. rewrite <- E at 2.
      assert (pos mod 32 / 2 ^ order < 2 ^ (5 - order)); [|nia].
      apply Z.div_lt_upper_bound; lia.
    + symmetry. apply Z.div_unique with (2 ^ order - 1); nia.
  - right. assert (E : 2 ^ order = 32 * 2 ^ (order - 5)).
    { change 32 with (2 ^ 5). rewrite <- Z.pow_add_r by lia. f_equal. lia. }
    assert (0 < 2 ^ (order - 5)) by (apply Z.pow_pos_nonneg; lia).
    split; [lia|]. split.
    + rewrite E in Ha. rewrite Z.rem_mul_r in Ha by lia.
      pose proof (Z.mod_pos_bound pos 32). pose proof (Z.mod_pos_bound (pos / 32) (2 ^ (order - 5))). lia.
    + rewrite E. replace (32 * 2 ^ (order - 5) + 32 - 1) with (31 + 2 ^ (order - 5) * 32) by lia.
      rewrite Z.div_add by lia. change (31 / 32) with 0. lia.
Qed.

Section Region.
Variables (bitmap : list Z) (pos order : Z).
Hypothesis Hw : words bitmap.
Hypothesis Ho : 0 <= order.
Hypothesis Hpos : 0 <= pos.
Hypothesis Halign : pos mod 2 ^ order = 0.
Hypothesis Hfit : pos + 2 ^ order <= 32 * len bitmap.

Let index := pos / 32.
Let n := BITS_TO_LONGS (2 ^ order).

(** The longs of the region and their mask are the region's bits. *)
Lemma region_bits i : 0 <= i ->
  in_region pos order i =
    (index <=? i / 32) && (i / 32 <? index + n) && Z.testbit (reg_mask pos order) (i mod 32).
Proof.
  intros Hi. rewrite reg_mask_eq by done. pose proof (mod32 i). pose proof (mod32 pos).
  rewrite testbit_u32, testbit_shiftl, testbit_mask by lia.
  pose proof (Z.div_mod i 32 ltac:(lia)). pose proof (Z.div_mod pos 32 ltac:(lia)).
  unfold in_region, n, index.
  destruct (region_shape pos order Ho Hpos Halign) as [(Hs1 & Hs2 & ->)|(Hs1 & Hs2 & Hs3)].
  - rewrite Z.min_l by lia. split_cmp; try lia; done.
  - rewrite Z.min_r by lia. rewrite Hs2. split_cmp; try lia; done.
Qed.

Lemma region_words : 0 <= index /\ index + n <= len bitmap /\ 0 <= n.
Proof.
  pose proof (Z.div_mod pos 32 ltac:(lia)). pose proof (mod32 pos).
  assert (0 < 2 ^ order) by (apply Z.pow_pos_nonneg; lia). unfold n, index.
  destruct (region_shape pos order Ho Hpos Halign) as [(Hs1 & Hs2 & ->)|(Hs1 & Hs2 & Hs3)]; lia.
Qed.

Lemma reg_op_isfree : exists r, __reg_op bitmap pos order REG_OP_ISFREE = Some (bitmap, r) /\
  (r = true <-> forall i, in_region pos order i = true -> bit bitmap i = false).
Proof.
  pose proof region_words as (H1 & H2 & H3). unfold __reg_op, BITS_PER_LONG. cbv zeta.
  rewrite !(Z.shiftl_1_l order). fold index n. change (u32 (Z.shiftl _ (pos - index * 32))) with (reg_mask pos order).
  destruct (no_word_ok (fun i => w ← zget bitmap i; Some (nonzero (Z.land w (reg_mask pos order))))
    (fun i => nonzero (Z.land (zat bitmap i) (reg_mask pos order))) (Z.to_nat n) index) as (r & -> & Hr).
  { intros j Hj. by rewrite zget_zat by lia. }
  cbn [mbind option_bind]. exists r. split; [done|]. rewrite Hr. rewrite Z2Nat.id by lia.
  assert (Hu : forall k, is_u32 (Z.land (zat bitmap k) (reg_mask pos order)))
    by (intros k; apply (land_range 32); [lia|by apply words_zat]).
  split.
  - intros H i Hi. assert (0 <= i) by (unfold in_region in Hi; lia).
    rewrite region_bits in Hi by done. rewrite !andb_true_iff, Z.leb_le, Z.ltb_lt in Hi.
    destruct Hi as [Hi1 Hi2]. specialize (H (i / 32) Hi1).
    pose proof (nonzero_none _ (Hu (i / 32)) H (i mod 32) (mod32 i)) as Hn.
    rewrite Z.land_spec, Hi2, andb_true_r in Hn. done.
  - intros H k Hk. unfold nonzero. destruct (Z.eqb_spec (Z.land (zat bitmap k) (reg_mask pos order)) 0)
      as [|Hne]; [done|]. exfalso. apply Hne, word_zero_iff; [done|]. intros j Hj.
    rewrite Z.land_spec. destruct (Z.testbit (reg_mask pos order) j) eqn:Em; [|apply andb_false_r].
    rewrite andb_true_r. rewrite <- bit_word by done. apply H. rewrite region_bits by lia.
    replace ((32 * k + j) / 32) with k by (Z.to_euclidean_division_equations; lia).
    replace ((32 * k + j) mod 32) with j by (Z.to_euclidean_division_equations; lia).
    rewrite Em. destruct (Z.leb_spec index k), (Z.ltb_spec k (index + n)); try lia; done.
Qed.

Lemma reg_op_update (f : Z -> Z) (g : bool -> bool -> bool) :
  (forall w, is_u32 w -> is_u32 (f w)) -> (forall b, g b false = b) ->
  (forall w j, 0 <= j < 32 ->
    Z.testbit (f w) j = g (Z.testbit w j) (Z.testbit (reg_mask pos order) j)) ->
  exists b', map_words (fun i => w ← zget bitmap i; Some (f w)) index (Z.to_nat n) bitmap = Some b' /\
    words b' /\ length b' = length bitmap /\
    forall i, 0 <= i -> bit b' i = g (bit bitmap i) (in_region pos order i).
Proof.
  intros Hf Hg Hb. pose proof region_words as (H1 & H2 & H3).
  destruct (map_words_ok (fun i => w ← zget bitmap i; Some (f w)) (fun i => f (zat bitmap i))
    (Z.to_nat n) index bitmap) as (b' & E & Hl & Hz); [lia|lia| |].
  { intros j Hj. by rewrite zget_zat by lia. }
  rewrite Z2Nat.id in Hz by lia. exists b'. split; [done|]. split; [|split; [done|]].
  - apply words_of_zat. intros p Hp. rewrite Hz. destruct (_ && _); [by apply Hf, words_zat|by apply words_zat].
  - intros i Hi. rewrite region_bits by done. unfold bit. rewrite Hz.
    destruct ((index <=? i / 32) && (i / 32 <? index + n)); cbn [andb]; [|by rewrite Hg].
    apply Hb, mod32.
Qed.

Lemma reg_op_alloc : exists b' r, __reg_op bitmap pos order REG_OP_ALLOC = Some (b', r) /\
  words b' /\ length b' = length bitmap /\
  forall i, 0 <= i -> bit b' i = bit bitmap i || in_region pos order i.
Proof.
  unfold __reg_op, BITS_PER_LONG. cbv zeta. rewrite !(Z.shiftl_1_l order). fold index n.
  change (u32 (Z.shiftl _ (pos - index * 32))) with (reg_mask pos order).
  destruct (reg_op_update (fun w => Z.lor w (reg_mask pos order)) orb) as (b' & -> & H).
  - intros w Hww. apply lor_range; [lia|done|apply u32_range].
  - apply orb_false_r.
  - intros. apply Z.lor_spec.
  - cbn. by exists b', false.
Qed.

Lemma reg_op_release : exists b' r, __reg_op bitmap pos order REG_OP_RELEASE = Some (b', r) /\
  words b' /\ length b' = length bitmap /\
  forall i, 0 <= i -> bit b' i = bit bitmap i && negb (in_region pos order i).
Proof.
  unfold __reg_op, BITS_PER_LONG. cbv zeta. rewrite !(Z.shiftl_1_l order). fold index n.
  change (u32 (Z.shiftl _ (pos - index * 32))) with (reg_mask pos order).
  destruct (reg_op_update (fun w => Z.land w (u32 (Z.lnot (reg_mask pos order))))
    (fun a b => a && negb b)) as (b' & -> & H).
  - intros w Hww. apply (land_range 32); [lia|done].
  - intros b. apply andb_true_r.
  - intros w j Hj. by rewrite Z.land_spec, testbit_lnot_word.
  - cbn. by exists b', false.
Qed.
End Region.

Definition region_free (bitmap : list Z) (pos order : Z) : Prop :=
  forall i, in_region pos order i = true -> bit bitmap i = false.

Lemma find_free_loop_ok bitmap bits order : holds_bits bitmap bits -> 0 <= order ->
  forall fuel pos, 0 <= pos -> pos mod 2 ^ order = 0 -> Z.max 0 (bits - pos) < Z.of_nat fuel ->
  (exists q b', pos <= q /\ q mod 2 ^ order = 0 /\ q + 2 ^ order <= bits /\
     find_free_loop fuel bitmap bits order pos = Some (b', q) /\
     region_free bitmap q order /\
     (forall p, pos <= p < q -> p mod 2 ^ order = 0 -> ~ region_free bitmap p order) /\
     words b' /\ length b' = length bitmap /\
     forall i, 0 <= i -> bit b' i = bit bitmap i || in_region q order i) \/
  (find_free_loop fuel bitmap bits order pos = Some (bitmap, - ENOMEM) /\
   forall p, pos <= p -> p mod 2 ^ order = 0 -> p + 2 ^ order <= bits -> ~ region_free bitmap p order).
Proof.
  intros [Hw Hb] Ho. assert (H2 : 0 < 2 ^ order) by (apply Z.pow_pos_nonneg; lia).
  induction fuel as [|fuel IH]; intros pos Hpos Ha Hfuel.
  { lia. }
  cbn [find_free_loop]. rewrite Z.shiftl_1_l. destruct (Z.leb_spec (pos + 2 ^ order) bits) as [Hfit|].
  2:{ right. split; [done|]. intros; lia. }
  destruct (reg_op_isfree bitmap pos order) as (r & -> & Hr); try done; [lia|]. cbn [mbind option_bind].
  destruct r; cbn [negb].
  - left. destruct (reg_op_alloc bitmap pos order) as (b' & r & -> & Hb'); try done; [lia|].
    cbn [mbind option_bind]. exists pos, b'.
    split; [lia|]. do 3 (split; [done|]). split; [exact (proj1 Hr eq_refl)|]. split; [intros; lia|done].
  - assert (Hnf : ~ region_free bitmap pos order).
    { intros H. discriminate (proj2 Hr H). }
    assert (Hnext : forall p, pos <= p -> p mod 2 ^ order = 0 -> p = pos \/ pos + 2 ^ order <= p).
    { intros p Hp Hpa. apply Z.div_exact in Ha, Hpa; [|lia..]. rewrite Ha, Hpa in *.
      destruct (Z.eq_dec (p / 2 ^ order) (pos / 2 ^ order)) as [E|]; [left; by rewrite E|right].
      assert (pos / 2 ^ order + 1 <= p / 2 ^ order); [|nia].
      assert (pos / 2 ^ order <= p / 2 ^ order) by (apply Z.div_le_mono; lia). lia. }
    destruct (IH (pos + 2 ^ order)) as [(q & b' & Hq & Hqa & Hqf & E & Hfree & Hleast & Hb')|[E Hnone]].
    + lia.
    + rewrite Zplus_mod, Ha, Z_mod_same_full. done.
    + lia.
    + left. exists q, b'. split; [lia|]. do 4 (split; [done|]). split; [|done].
      intros p Hp Hpa. destruct (Hnext p) as [->|]; [lia|done|done|]. apply Hleast; [lia|done].
    + right. split; [done|]. intros p Hp Hpa Hpf. destruct (Hnext p Hp Hpa) as [->|]; [done|].
      by apply Hnone.
Qed.

(** ** Theorems *)

(** The predicates decide the set-theoretic relation on bits [0 .. bits)
    exactly, whatever the unused bits of the last word hold: emptiness, fullness,
    equality, disjointness and inclusion. *)
Theorem bitmap_predicates_correct a b bits :
  holds_bits a bits -> holds_bits b bits ->
  exists e f q x s,
    __bitmap_empty a bits = Some e /\ __bitmap_full a bits = Some f /\
    __bitmap_equal a b bits = Some q /\ __bitmap_intersects a b bits = Some x /\
    __bitmap_subset a b bits = Some s /\
    (e = true <-> forall i, 0 <= i < bits -> bit a i = false) /\
    (f = true <-> forall i, 0 <= i < bits -> bit a i = true) /\
    (q = true <-> forall i, 0 <= i < bits -> bit a i = bit b i) /\
    (x = true <-> exists i, 0 <= i < bits /\ bit a i = true /\ bit b i = true) /\
    (s = true <-> forall i, 0 <= i < bits -> bit a i = true -> bit b i = true).
Proof.
  intros Ha Hb. pose proof Ha as [_ Hbits].
  assert (Wa := fun k => holds_word a bits k Ha). assert (Wb := fun k => holds_word b bits k Hb).
  destruct (test_words_ok (fun k => w ← zget a k; Some (nonzero w)) (fun k => zget a k)
    (fun k => zat a k) bits) as (e & Ee & He); [lia| |].
  { intros k Hk. destruct (Wa k Hk) as (-> & Hu & _). done. }
  destruct (test_words_ok (fun k => w ← zget a k; Some (nonzero (~u w)))
    (fun k => w ← zget a k; Some (~u w)) (fun k => ~u (zat a k)) bits) as (f & Ef & Hf); [lia| |].
  { intros k Hk. destruct (Wa k Hk) as (-> & Hu & _). split; [apply u32_lnot|done]. }
  destruct (test_words_ok (fun k => x ← zget a k; y ← zget b k; Some (negb (x =? y)))
    (fun k => x ← zget a k; y ← zget b k; Some (Z.lxor x y)) (fun k => Z.lxor (zat a k) (zat b k)) bits)
    as (q & Eq & Hq); [lia| |].
  { intros k Hk. destruct (Wa k Hk) as (-> & Hu & _). destruct (Wb k Hk) as (-> & Hv & _).
    cbn [mbind option_bind]. rewrite lxor_neq. split; [by apply lxor_range|done]. }
  destruct (test_words_ok (fun k => x ← zget a k; y ← zget b k; Some (nonzero (Z.land x y)))
    (fun k => x ← zget a k; y ← zget b k; Some (Z.land x y)) (fun k => Z.land (zat a k) (zat b k)) bits)
    as (x & Ex & Hx); [lia| |].
  { intros k Hk. destruct (Wa k Hk) as (-> & Hu & _). destruct (Wb k Hk) as (-> & Hv & _).
    split; [by apply (land_range 32)|done]. }
  destruct (test_words_ok (fun k => x ← zget a k; y ← zget b k; Some (nonzero (Z.land x (~u y))))
    (fun k => x ← zget a k; y ← zget b k; Some (Z.land x (~u y)))
    (fun k => Z.land (zat a k) (~u (zat b k))) bits) as (s & Es & Hs); [lia| |].
  { intros k Hk. destruct (Wa k Hk) as (-> & Hu & _). destruct (Wb k Hk) as (-> & Hv & _).
    split; [by apply (land_range 32)|done]. }
  exists e, f, q, (negb x), s. unfold __bitmap_intersects. rewrite Ex. split_and!; try done.
  - rewrite Hf. split; intros H i Hi; specialize (H i Hi).
    + rewrite testbit_lnot_word in H by apply mod32. by apply negb_false_iff in H.
    + rewrite testbit_lnot_word by apply mod32. by apply negb_false_iff.
  - rewrite Hq. split; intros H i Hi; specialize (H i Hi).
    + rewrite Z.lxor_spec in H. unfold bit. by apply xorb_eq.
    + rewrite Z.lxor_spec. unfold bit in H. rewrite H. apply xorb_nilpotent.
  - rewrite negb_true_iff, <- not_true_iff_false, Hx. split.
    + intros Hn. destruct (positions (fun i => bit a i && bit b i) 0 bits) as [|i l] eqn:E.
      * exfalso. apply Hn. intros i Hi. rewrite Z.land_spec.
        destruct (Z.testbit (zat a (i / 32)) (i mod 32) && Z.testbit (zat b (i / 32)) (i mod 32)) eqn:Eb; [|done].
        assert (Hin : i ∈ positions (fun i => bit a i && bit b i) 0 bits) by (by apply elem_of_positions).
        rewrite E in Hin. by apply elem_of_nil in Hin.
      * assert (Hin : i ∈ positions (fun i => bit a i && bit b i) 0 bits) by (rewrite E; apply list_elem_of_here).
        apply elem_of_positions in Hin as [Hi [H1 H2]%andb_true_iff]. by exists i.
    + intros (i & Hi & H1 & H2) H. specialize (H i Hi). rewrite Z.land_spec in H. unfold bit in *.
      rewrite H1, H2 in H. done.
  - rewrite Hs. split; intros H i Hi.
    + specialize (H i Hi). rewrite Z.land_spec, testbit_lnot_word in H by apply mod32. unfold bit.
      intros H1. rewrite H1 in H. by apply negb_false_iff in H.
    + rewrite Z.land_spec, testbit_lnot_word by apply mod32. specialize (H i Hi). unfold bit in H.
      destruct (Z.testbit (zat a (i / 32)) (i mod 32)); [|done]. rewrite H by done. done.
Qed.

Lemma words_check l : forallb (fun x => (0 <=? x) && (x <? 2 ^ 32)) l = true -> words l.
Proof.
  rewrite forallb_forall. intros H. apply Forall_forall. intros x Hx.
  apply list_elem_of_In, H, andb_prop in Hx as [?%Z.leb_le ?%Z.ltb_lt]. unfold is_u32. lia.
Qed.

Lemma bitmap_predicates_correct_witness : exists q,
  __bitmap_equal [0xf0; 0xabcd0003] [0xf0; 0x12340003] 36 = Some q /\
  (q = true <-> forall i, 0 <= i < 36 -> bit [0xf0; 0xabcd0003] i = bit [0xf0; 0x12340003] i).
Proof.
  destruct (bitmap_predicates_correct [0xf0; 0xabcd0003] [0xf0; 0x12340003] 36)
    as (e & f & q & x & s & _ & _ & Eq & _ & _ & _ & _ & Hq & _).
  - split; [apply words_check; reflexivity|simpl; lia].
  - split; [apply words_check; reflexivity|simpl; lia].
  - exists q. split; [exact Eq|exact Hq].
Defined.

(** The word-wise operations compute intersection, union, symmetric
    difference, difference and complement of the bits [0 .. bits), and the two
    shifts move every bit by [shift] places with zeros fed in, also when the
    shift is not a multiple of the word size and the last word is partial. *)
Theorem bitmap_operations_correct dst a b shift bits :
  holds_bits dst bits -> holds_bits a bits -> holds_bits b bits -> 0 <= shift <= bits ->
  exists d_and d_or d_xor d_andnot d_compl d_right d_left,
    __bitmap_and dst a b bits = Some d_and /\ __bitmap_or dst a b bits = Some d_or /\
    __bitmap_xor dst a b bits = Some d_xor /\ __bitmap_andnot dst a b bits = Some d_andnot /\
    __bitmap_complement dst a bits = Some d_compl /\
    __bitmap_shift_right dst a shift bits = Some d_right /\
    __bitmap_shift_left dst a shift bits = Some d_left /\
    forall i, 0 <= i < bits ->
      bit d_and i = bit a i && bit b i /\ bit d_or i = bit a i || bit b i /\
      bit d_xor i = xorb (bit a i) (bit b i) /\ bit d_andnot i = bit a i && negb (bit b i) /\
      bit d_compl i = negb (bit a i) /\
      bit d_right i = (i + shift <? bits) && bit a (i + shift) /\
      bit d_left i = (shift <=? i) && bit a (i - shift).
Proof.
  intros Hd Ha Hb Hs. pose proof Hd as [_ Hbits]. pose proof (longs_bound bits ltac:(lia)).
  destruct (binop_words_ok Z.land andb dst a b bits) as (d1 & E1 & _ & _ & B1); try done.
  { intros. by apply (land_range 32). } { intros. apply Z.land_spec. }
  destruct (binop_words_ok Z.lor orb dst a b bits) as (d2 & E2 & _ & _ & B2); try done.
  { intros. by apply (lor_range 32). } { intros. apply Z.lor_spec. }
  destruct (binop_words_ok Z.lxor xorb dst a b bits) as (d3 & E3 & _ & _ & B3); try done.
  { intros. by apply (lxor_range 32). } { intros. apply Z.lxor_spec. }
  destruct (binop_words_ok (fun x y => Z.land x (~u y)) (fun x y => x && negb y) dst a b bits)
    as (d4 & E4 & _ & _ & B4); try done.
  { intros. by apply (land_range 32). } { intros. by rewrite Z.land_spec, testbit_lnot_word. }
  destruct (complement_ok dst a bits) as (d5 & E5 & _ & _ & B5); try done.
  destruct (shift_right_ok dst a shift bits) as (d6 & E6 & _ & _ & B6); try done.
  destruct (shift_left_ok dst a shift bits) as (d7 & E7 & _ & _ & B7); try done.
  exists d1, d2, d3, d4, d5, d6, d7. do 7 (split; [done|]). intros i Hi.
  assert (Hin : (0 <=? i) && (i <? 32 * BITS_TO_LONGS bits) = true).
  { destruct (Z.leb_spec 0 i), (Z.ltb_spec i (32 * BITS_TO_LONGS bits)); try lia; done. }
  rewrite B1, B2, B3, B4, Hin, B5, B6, B7 by done. done.
Qed.

Lemma bitmap_operations_correct_witness : exists d,
  __bitmap_shift_left [0; 0] [0x80000001; 0xff] 33 36 = Some d /\ bit d 33 = true /\ bit d 34 = false.
Proof.
  destruct (bitmap_operations_correct [0; 0] [0x80000001; 0xff] [1; 1] 33 36)
    as (d1 & d2 & d3 & d4 & d5 & d6 & d7 & _ & _ & _ & _ & _ & _ & E & H);
    [split; [apply words_check; reflexivity|simpl; lia]..|lia|].
  exists d7. split; [exact E|]. split.
  - destruct (H 33) as (_ & _ & _ & _ & _ & _ & ->); [lia|reflexivity].
  - destruct (H 34) as (_ & _ & _ & _ & _ & _ & ->); [lia|reflexivity].
Defined.

(** [bitmap_pos_to_ord] is the rank of a set bit (-1 for a clear one),
    [bitmap_ord_to_pos] selects the n-th set bit, selecting the rank of a bit
    gives it back, and the weight is the number of set bits. *)
Theorem bitmap_rank_select_correct buf bits :
  searchable buf bits ->
  __bitmap_weight buf bits = Some (len (positions (bit buf) 0 bits)) /\
  (forall ord, bitmap_ord_to_pos buf ord bits = Some (zat (positions (bit buf) 0 bits) ord)) /\
  (forall pos, 0 <= pos < bits -> bit buf pos = false -> bitmap_pos_to_ord buf pos bits = Some (-1)) /\
  (forall pos, 0 <= pos < bits -> bit buf pos = true ->
     exists ord, bitmap_pos_to_ord buf pos bits = Some ord /\ 0 <= ord /\
       ord = len (positions (bit buf) 0 pos) /\ bitmap_ord_to_pos buf ord bits = Some pos).
Proof.
  intros Hs. split; [apply weight_ok, Hs|]. split; [intros; by apply ord_to_pos_ok|]. split.
  - intros pos Hp Hb. rewrite pos_to_ord_ok by done. rewrite Hb, andb_false_r. done.
  - intros pos Hp Hb. exists (len (positions (bit buf) 0 pos)).
    rewrite pos_to_ord_ok, ord_to_pos_ok by done. rewrite Hb.
    destruct (Z.leb_spec 0 pos), (Z.ltb_spec pos bits); try lia. cbn [andb].
    split; [done|]. split; [lia|]. split; [done|]. by rewrite (proj1 (rank_select (bit buf) bits pos Hp Hb)).
Qed.

Lemma bitmap_rank_select_correct_witness :
  exists ord, bitmap_pos_to_ord [0xf0; 1] 32 40 = Some ord /\ bitmap_ord_to_pos [0xf0; 1] ord 40 = Some 32.
Proof.
  destruct (bitmap_rank_select_correct [0xf0; 1] 40) as (_ & _ & _ & H).
  - split; [split; [apply words_check; reflexivity|simpl; lia]|simpl; lia].
  - destruct (H 32) as (ord & E1 & _ & _ & E2); [lia|reflexivity|].
    exists ord. split; [exact E1|exact E2].
Defined.

(** [bitmap_remap] sends each set bit of [src] to the bit [bitmap_bitremap]
    gives for it (n-th bit of [old] to bit [n mod w] of [new], others to
    themselves), [bitmap_onto] sets bit [n] iff [n] is the m-th set bit of
    [relmap] and bit [m] of [orig] is set, and [bitmap_fold] sets bit [i mod sz]
    for each set bit [i]; all other bits of the result are clear. *)
Theorem bitmap_maps_correct dst src old new sz bits :
  holds_bits dst bits -> searchable src bits -> searchable old bits -> searchable new bits ->
  0 < sz ->
  exists d_remap d_onto d_fold,
    bitmap_remap false dst src old new bits = Some d_remap /\
    bitmap_onto false dst src old bits = Some d_onto /\
    bitmap_fold false dst src sz bits = Some d_fold /\
    (forall x, bitmap_bitremap x old new bits = Some (remap_pos old new bits x)) /\
    forall i, 0 <= i < bits ->
      (bit d_remap i = true <->
         exists x, 0 <= x < bits /\ bit src x = true /\ remap_pos old new bits x = i) /\
      (bit d_onto i = true <-> bit old i = true /\ bit src (len (positions (bit old) 0 i)) = true) /\
      (bit d_fold i = true <-> exists x, 0 <= x < bits /\ bit src x = true /\ x mod sz = i).
Proof.
  intros Hd Hs Ho Hn Hsz. pose proof Hd as [Hdw Hdl].
  destruct (bitmap_zero_ok dst bits Hd) as (z & Ez & Hzw & Hzl & Hz).
  set (ps := positions (bit src) 0 bits).
  assert (Hps : forall x, x ∈ ps -> 0 <= x < bits) by (intros x [? _]%elem_of_positions; done).
  destruct (set_bits_ok (fun oldbit dst =>
      n ← bitmap_pos_to_ord old oldbit bits;
      if (n <? 0) || (len (positions (bit new) 0 bits) =? 0) then __set_bit oldbit dst
      else p ← bitmap_ord_to_pos new (Z.rem n (len (positions (bit new) 0 bits))) bits; __set_bit p dst)
    (remap_pos old new bits) ps z Hzw) as (d1 & E1 & _ & _ & B1).
  { intros x Hx%Hps. pose proof (remap_pos_range old new bits x Hx). lia. }
  { intros x d Hx. pose proof (bitremap_ok old new bits x Ho Hn) as E. unfold bitmap_bitremap in E.
    rewrite weight_ok in E by apply Hn. cbn [mbind option_bind] in E.
    destruct (bitmap_pos_to_ord old x bits) as [n|]; cbn [mbind option_bind] in *; [|done].
    destruct (_ || _); [by injection E as <-|]. rewrite E. done. }
  destruct (onto_fold_ok src (positions (bit old) 0 bits) (proj1 (proj1 Hs)) z 0 Hzw)
    as (d2 & E2 & _ & _ & B2).
  { intros x [? _]%elem_of_positions. lia. } { lia. }
  { pose proof (positions_length (bit old) 0 bits). destruct Hs as [[_ ?] _]. lia. }
  destruct (set_bits_ok (fun oldbit dst => __set_bit (Z.rem oldbit sz) dst) (fun x => x mod sz) ps z Hzw)
    as (d3 & E3 & _ & _ & B3).
  { intros x Hx%Hps. pose proof (Z.mod_pos_bound x sz ltac:(lia)).
    pose proof (Z.mod_le x sz ltac:(lia) ltac:(lia)). lia. }
  { intros x d Hx%Hps. by rewrite Z.rem_mod_nonneg by lia. }
  exists d1, d2, d3. unfold bitmap_remap, bitmap_onto, bitmap_fold. rewrite Ez.
  rewrite weight_ok by apply Hn. cbn [mbind option_bind]. rewrite !each_set_bit_ok by done.
  split; [exact E1|]. split; [rewrite E2; done|]. split; [exact E3|].
  split; [intros x; by apply bitremap_ok|]. intros i Hi. rewrite B1, B2, B3, Hz by done. split_and!.
  - split; [intros [|(x & [Hx Hb]%elem_of_positions & Hm)]; [done|by exists x]|].
    intros (x & Hx & Hb & Hm). right. exists x. split; [by apply elem_of_positions|done].
  - split.
    + intros [|(j & Hj & Hb)]; [done|].
      assert (Hin : i ∈ positions (bit old) 0 bits) by by apply list_elem_of_lookup_2 with j.
      apply elem_of_positions in Hin as [_ Hbi]. split; [done|]. rewrite <- Hb. f_equal.
      destruct (rank_select (bit old) bits i Hi Hbi) as [Hr Hrl].
      assert (NoDup (positions (bit old) 0 bits)) as Hnd by (apply NoDup_filter, NoDup_seqZ).
      rewrite Z.add_0_l. apply Nat2Z.inj_iff. eapply (NoDup_lookup _ _ _ i); [exact Hnd| |exact Hj].
      rewrite lookup_zat by lia. by rewrite Hr.
    + intros [Hbi Hb]. right. destruct (rank_select (bit old) bits i Hi Hbi) as [Hr Hrl].
      exists (length (positions (bit old) 0 i)). rewrite lookup_zat by lia. rewrite Hr.
      by rewrite Z.add_0_l.
  - split; [intros [|(x & [Hx Hb]%elem_of_positions & Hm)]; [done|by exists x]|].
    intros (x & Hx & Hb & Hm). right. exists x. split; [by apply elem_of_positions|done].
Qed.

Lemma bitmap_maps_correct_witness : exists d,
  bitmap_remap false [0; 0] [0xa2; 0] [0xf0; 0] [0xf000; 0] 40 = Some d /\ bit d 13 = true.
Proof.
  destruct (bitmap_maps_correct [0; 0] [0xa2; 0] [0xf0; 0] [0xf000; 0] 3 40)
    as (d & d' & d'' & E & _ & _ & _ & H);
    [split; [apply words_check; reflexivity|simpl; lia]
    |split; [split; [apply words_check; reflexivity|simpl; lia]|simpl; lia]..|lia|].
  exists d. split; [exact E|]. destruct (H 13) as (Hr & _); [lia|]. apply Hr.
  exists 5. split; [lia|]. split; reflexivity.
Defined.

(** [bitmap_find_free_region] returns the lowest aligned region of [2 ^ order]
    clear bits and sets exactly its bits, or [-ENOMEM] with the bitmap unchanged
    when there is none; releasing the region restores the bitmap's bits, and
    allocating a region that is in use is refused with [-EBUSY]. *)
Theorem bitmap_region_correct bitmap bits order :
  holds_bits bitmap bits -> 0 <= order ->
  (exists pos b' b'', bitmap_find_free_region bitmap bits order = Some (b', pos) /\
     0 <= pos /\ pos mod 2 ^ order = 0 /\ pos + 2 ^ order <= bits /\
     region_free bitmap pos order /\
     (forall p, 0 <= p < pos -> p mod 2 ^ order = 0 -> ~ region_free bitmap p order) /\
     (forall i, 0 <= i -> bit b' i = bit bitmap i || in_region pos order i) /\
     bitmap_allocate_region b' pos order = Some (b', - EBUSY) /\
     bitmap_release_region b' pos order = Some b'' /\
     (forall i, 0 <= i -> bit b'' i = bit bitmap i)) \/
  (bitmap_find_free_region bitmap bits order = Some (bitmap, - ENOMEM) /\
   forall p, 0 <= p -> p mod 2 ^ order = 0 -> p + 2 ^ order <= bits -> ~ region_free bitmap p order).
Proof.
  intros Hh Ho. pose proof Hh as [Hw Hb]. assert (H2 : 0 < 2 ^ order) by (apply Z.pow_pos_nonneg; lia).
  destruct (find_free_loop_ok bitmap bits order Hh Ho (S (Z.to_nat bits)) 0)
    as [(q & b' & Hq & Hqa & Hqf & E & Hfree & Hleast & Hw' & Hl' & Hb')|[E Hnone]];
    [lia|apply Zmod_0_l|lia| |by right].
  left. exists q, b'.
  destruct (reg_op_release b' q order) as (b'' & r & Er & _ & _ & Hb''); try done; [lia|].
  destruct (reg_op_isfree b' q order) as (r' & Ef & Hr'); try done; [lia|].
  exists b''. unfold bitmap_find_free_region, bitmap_allocate_region, bitmap_release_region.
  rewrite Ef, Er. cbn [mbind option_bind]. assert (r' = false) as ->.
  { destruct r'; [|done]. exfalso. assert (Hin : in_region q order q = true).
    { unfold in_region. destruct (Z.leb_spec q q), (Z.ltb_spec q (q + 2 ^ order)); try lia; done. }
    pose proof (proj1 Hr' eq_refl q Hin) as H. rewrite Hb', Hin, orb_true_r in H by lia. done. }
  do 8 (split; [done|]). split; [done|]. intros i Hi. rewrite Hb'', Hb' by done.
  destruct (in_region q order i) eqn:Ei; cbn [negb].
  - rewrite andb_false_r. symmetry. by apply Hfree.
  - by rewrite orb_false_r, andb_true_r.
Qed.

Lemma bitmap_region_correct_witness :
  bitmap_find_free_region [0x00ff00ff; 0] 64 4 = Some ([0x00ff00ff; 0xffff], 32) /\
  region_free [0x00ff00ff; 0] 32 4.
Proof.
  split; [reflexivity|].
  destruct (bitmap_region_correct [0x00ff00ff; 0] 64 4) as [(pos & b' & b'' & E & _ & _ & _ & Hf & _)|[E _]].
  - split; [apply words_check; reflexivity|simpl; lia].
  - lia.
  - vm_compute in E. injection E as <- <-. exact Hf.
  - vm_compute in E. discriminate.
Defined.
