(* ===== verification/Time.v ===== *)
(** * Calendar and time arithmetic: drivers/rtc/rtc-lib.c, [mktime] and the
    timespec routines of kernel/time.c and include/linux/time.h.  [int], [long]
    and [time_t] are 32 bits wide. *)
From S2P Require Import Prelude.
Open Scope kernel_scope.

(** ** The tables and macros of rtc-lib.c *)

Definition rtc_days_in_month : list Z := [31; 28; 31; 30; 31; 30; 31; 31; 30; 31; 30; 31].

Definition rtc_ydays : list (list Z) :=
  [[0; 31; 59; 90; 120; 151; 181; 212; 243; 273; 304; 334; 365];
   [0; 31; 60; 91; 121; 152; 182; 213; 244; 274; 305; 335; 366]].

(** Both macros are applied to [unsigned int] years. *)
Definition LEAPS_THRU_END_OF (y : Z) : Z := (y / 4 -u y / 100) +u y / 400.
Definition LEAP_YEAR (year : Z) : bool :=
  ((year mod 4 =? 0) && negb (year mod 100 =? 0)) || (year mod 400 =? 0).

(** [struct rtc_time]; every field is an [int]. *)
Record rtc_time := mk_tm {
  tm_sec : Z; tm_min : Z; tm_hour : Z; tm_mday : Z; tm_mon : Z; tm_year : Z;
  tm_wday : Z; tm_yday : Z; tm_isdst : Z }.

Definition rtc_month_days (month year : Z) : option Z :=
  d ← zget rtc_days_in_month month; Some (d + Z.b2z (LEAP_YEAR year && (month =? 1))).

Definition rtc_year_days (day month year : Z) : option Z :=
  row ← zget rtc_ydays (Z.b2z (LEAP_YEAR year)); d ← zget row month; Some (s32 (u32 (d + day) - 1)).

(** The [for] loop over the months; the fuel is the number of months left. *)
Fixpoint month_loop (fuel : nat) (month days year : Z) : option (Z * Z) :=
  match fuel with
  | O => Some (month, days)
  | S fuel' =>
      n ← rtc_month_days month year;
      let newdays := s32 (days - n) in
      if newdays <? 0 then Some (month, days) else month_loop fuel' (month +u 1) newdays year
  end.

(** [rtc_time_to_tm] does not write [tm_isdst]. *)
Definition rtc_time_to_tm (time : Z) (tm : rtc_time) : option rtc_time :=
  let days := s32 (time / 86400) in
  let time := time -u (u32 days *u 86400) in
  let wday := Z.rem (s32 (days + 4)) 7 in
  let year := 1970 +u Z.quot days 365 in
  let days := s32 (days - (((year -u 1970) *u 365 +u LEAPS_THRU_END_OF (year -u 1))
                            -u LEAPS_THRU_END_OF (1970 - 1))) in
  let '(year, days) :=
    if days <? 0 then (year -u 1, s32 (days + (365 + Z.b2z (LEAP_YEAR (year -u 1)))))
    else (year, days) in
  let yday := s32 (days + 1) in
  '(month, days) ← month_loop 11 0 days year;
  let hour := s32 (time / 3600) in
  let time := time -u (hour *u 3600) in
  let min := s32 (time / 60) in
  let sec := s32 (time -u (min *u 60)) in
  Some (mk_tm sec min hour (s32 (days + 1)) (s32 month) (s32 (year -u 1900)) wday yday (tm_isdst tm)).

Definition rtc_valid_tm (tm : rtc_time) : option Z :=
  if (tm_year tm <? 70) || (12 <=? u32 (tm_mon tm)) || (tm_mday tm <? 1) then Some (- EINVAL) else
  n ← rtc_month_days (u32 (tm_mon tm)) (u32 (tm_year tm + 1900));
  if (n <? tm_mday tm) || (24 <=? u32 (tm_hour tm)) || (60 <=? u32 (tm_min tm))
     || (60 <=? u32 (tm_sec tm))
  then Some (- EINVAL) else Some 0.

(** ** kernel/time.c: [mktime] *)

Definition mktime (year0 mon0 day hour min sec : Z) : Z :=
  let mon := mon0 -u 2 in
  let '(mon, year) := if s32 mon <=? 0 then (mon +u 12, year0 -u 1) else (mon, year0) in
  let days := (((year / 4 -u year / 100) +u year / 400) +u (367 *u mon) / 12) +u day in
  ((((days +u (year *u 365) -u 719499) *u 24 +u hour) *u 60 +u min) *u 60) +u sec.

Definition rtc_tm_to_time (tm : rtc_time) : Z :=
  mktime (u32 (tm_year tm + 1900)) (u32 (tm_mon tm + 1)) (u32 (tm_mday tm))
         (u32 (tm_hour tm)) (u32 (tm_min tm)) (u32 (tm_sec tm)).

(** ** Timespecs *)

Definition NSEC_PER_SEC : Z := 1000000000.
Definition NSEC_PER_USEC : Z := 1000.
Definition TIME_T_MAX : Z := 2 ^ 31 - 1.

Record timespec := mk_ts { tv_sec : Z; tv_nsec : Z }.

(** The two loops of [set_normalized_timespec]. *)
Fixpoint norm_down (fuel : nat) (sec nsec : Z) : option (Z * Z) :=
  if nsec <? NSEC_PER_SEC then Some (sec, nsec)
  else match fuel with
       | O => None
       | S fuel' => norm_down fuel' (s32 (sec + 1)) (s32 (nsec - NSEC_PER_SEC))
       end.

Fixpoint norm_up (fuel : nat) (sec nsec : Z) : option (Z * Z) :=
  if 0 <=? nsec then Some (sec, nsec)
  else match fuel with
       | O => None
       | S fuel' => norm_up fuel' (s32 (sec - 1)) (s32 (nsec + NSEC_PER_SEC))
       end.

(** A [long] holds fewer than three seconds of nanoseconds in either direction. *)
Definition set_normalized_timespec (sec nsec : Z) : option timespec :=
  '(sec, nsec) ← norm_down 2 sec nsec;
  '(sec, nsec) ← norm_up 3 sec nsec;
  Some (mk_ts sec nsec).

(** [div_s64_rem] truncates towards zero. *)
Definition ns_to_timespec (nsec : Z) : timespec :=
  if nsec =? 0 then mk_ts 0 0 else
  let q := s32 (Z.quot nsec NSEC_PER_SEC) in
  let rem := Z.rem nsec NSEC_PER_SEC in
  if rem <? 0 then mk_ts (s32 (q - 1)) (s32 (rem + NSEC_PER_SEC)) else mk_ts q rem.

Definition ns_to_timeval (nsec : Z) : Z * Z :=
  let ts := ns_to_timespec nsec in (tv_sec ts, Z.quot (tv_nsec ts) 1000).

Definition timespec_to_ns (ts : timespec) : Z :=
  s64 (s64 (tv_sec ts * NSEC_PER_SEC) + tv_nsec ts).

Definition timespec_equal (a b : timespec) : bool :=
  (tv_sec a =? tv_sec b) && (tv_nsec a =? tv_nsec b).

Definition timespec_compare (lhs rhs : timespec) : Z :=
  if tv_sec lhs <? tv_sec rhs then -1 else
  if tv_sec rhs <? tv_sec lhs then 1 else s32 (tv_nsec lhs - tv_nsec rhs).

Definition timespec_sub (lhs rhs : timespec) : option timespec :=
  set_normalized_timespec (s32 (tv_sec lhs - tv_sec rhs)) (s32 (tv_nsec lhs - tv_nsec rhs)).

Definition timespec_add_safe (lhs rhs : timespec) : option timespec :=
  res ← set_normalized_timespec (s32 (tv_sec lhs + tv_sec rhs)) (s32 (tv_nsec lhs + tv_nsec rhs));
  Some (if (tv_sec res <? tv_sec lhs) || (tv_sec res <? tv_sec rhs)
        then mk_ts TIME_T_MAX (tv_nsec res) else res).

Definition timespec_valid (ts : timespec) : bool :=
  (0 <=? tv_sec ts) && (u32 (tv_nsec ts) <? NSEC_PER_SEC).

(** One tick: with HZ = 100 and CLOCK_TICK_RATE = 1000000, LATCH and ACTHZ are exact. *)
Definition TICK_NSEC : Z := 10000000.

Definition jiffies_to_timespec (jiffies : Z) : timespec :=
  let ns := u64 (jiffies * TICK_NSEC) in mk_ts (s32 (ns / NSEC_PER_SEC)) (s32 (ns mod NSEC_PER_SEC)).

(** [ktime_t] without CONFIG_KTIME_SCALAR: [tv64] is the number, with [tv.nsec] in its
    lower and [tv.sec] in its upper half. *)
Definition tv_nsec_of (kt : Z) : Z := s32 kt.
Definition tv_sec_of (kt : Z) : Z := s32 (Z.shiftr kt 32).

Definition ktime_set (secs nsecs : Z) : Z := s64 (Z.shiftl secs 32 + u32 nsecs).

Definition ktime_sub (lhs rhs : Z) : Z :=
  let res := s64 (lhs - rhs) in
  if tv_nsec_of res <? 0 then ktime_set (tv_sec_of res) (tv_nsec_of res + NSEC_PER_SEC) else res.

Definition ktime_add (add1 add2 : Z) : Z :=
  let res := s64 (add1 + add2) in
  if NSEC_PER_SEC <=? tv_nsec_of res then s64 (res + u32 (- NSEC_PER_SEC)) else res.

Definition timespec_to_ktime (ts : timespec) : Z := ktime_set (tv_sec ts) (tv_nsec ts).

Definition ktime_to_ns (kt : Z) : Z := s64 (s64 (tv_sec_of kt * NSEC_PER_SEC) + tv_nsec_of kt).

(** ** The calendar, by summation of month and year lengths *)

Definition month_len (year : Z) (m : nat) : Z :=
  match m with
  | 1%nat => if LEAP_YEAR year then 29 else 28
  | 3%nat | 5%nat | 8%nat | 10%nat => 30
  | _ => 31
  end.

(** Days from 1970-01-01 to January 1 of year [1970 + n]. *)
Fixpoint days_to_year (n : nat) : Z :=
  match n with
  | O => 0
  | S n' => days_to_year n' + (if LEAP_YEAR (1970 + Z.of_nat n') then 366 else 365)
  end.

Fixpoint days_to_month (year : Z) (m : nat) : Z :=
  match m with O => 0 | S m' => days_to_month year m' + month_len year m' end.

Definition epoch_days (tm : rtc_time) : Z :=
  days_to_year (Z.to_nat (tm_year tm - 70)) +
  days_to_month (tm_year tm + 1900) (Z.to_nat (tm_mon tm)) + (tm_mday tm - 1).

(** Seconds since the epoch of a date, without any bound. *)
Definition seconds (tm : rtc_time) : Z :=
  ((epoch_days tm * 24 + tm_hour tm) * 60 + tm_min tm) * 60 + tm_sec tm.

Definition valid_date (tm : rtc_time) : Prop :=
  70 <= tm_year tm < 2 ^ 31 /\ 0 <= tm_mon tm < 12 /\
  1 <= tm_mday tm <= month_len (tm_year tm + 1900) (Z.to_nat (tm_mon tm)) /\
  0 <= tm_hour tm < 24 /\ 0 <= tm_min tm < 60 /\ 0 <= tm_sec tm < 60.

(** ** Lemmas on the calendar *)

Ltac euclid := first [lia | Z.to_euclidean_division_equations; lia].

(** [kid] drops a wrap-around whose argument is in range. *)
Ltac kid :=
  repeat match goal with
    | |- context [u32 ?x] =>
        lazymatch x with context [u32 _] => fail | context [s32 _] => fail | _ => idtac end;
        rewrite (u32_id x) by (unfold is_u32; euclid)
    | |- context [s32 ?x] =>
        lazymatch x with context [u32 _] => fail | context [s32 _] => fail | _ => idtac end;
        rewrite (s32_id x) by (unfold is_s32; euclid)
    end.

Definition leaps (y : Z) : Z := y / 4 - y / 100 + y / 400.

Lemma LEAPS_ok y : is_u32 y -> LEAPS_THRU_END_OF y = leaps y.
Proof. unfold is_u32, LEAPS_THRU_END_OF, leaps. intros. kid. done. Qed.

Lemma leaps_step y : leaps y = leaps (y - 1) + Z.b2z (LEAP_YEAR y).
Proof.
  unfold leaps, LEAP_YEAR. destruct (Z.eqb_spec (y mod 4) 0), (Z.eqb_spec (y mod 100) 0),
    (Z.eqb_spec (y mod 400) 0); cbn [negb andb orb Z.b2z]; euclid.
Qed.

Lemma days_to_year_closed n : days_to_year n = 365 * Z.of_nat n + leaps (1969 + Z.of_nat n) - 477.
Proof.
  induction n as [|n IH]; [reflexivity|]. cbn [days_to_year]. rewrite IH.
  pose proof (leaps_step (1970 + Z.of_nat n)) as H.
  replace (1970 + Z.of_nat n - 1) with (1969 + Z.of_nat n) in H by lia.
  replace (1969 + Z.of_nat (S n)) with (1970 + Z.of_nat n) by lia.
  destruct (LEAP_YEAR _); cbn [Z.b2z] in H; lia.
Qed.

Lemma month_cases (P : Z -> Prop) : P 0 -> P 1 -> P 2 -> P 3 -> P 4 -> P 5 -> P 6 -> P 7 -> P 8 -> P 9 ->
  P 10 -> P 11 -> forall m, 0 <= m < 12 -> P m.
Proof.
  intros. assert (m = 0 \/ m = 1 \/ m = 2 \/ m = 3 \/ m = 4 \/ m = 5 \/ m = 6 \/ m = 7 \/ m = 8 \/
    m = 9 \/ m = 10 \/ m = 11) as Hm by lia.
  by repeat (destruct Hm as [->|Hm]); [..|subst].
Qed.

Lemma rtc_month_days_ok m y : 0 <= m < 12 ->
  rtc_month_days m y = Some (month_len y (Z.to_nat m)).
Proof.
  revert m. apply month_cases; unfold rtc_month_days, zget, month_len;
    destruct (LEAP_YEAR y); reflexivity.
Qed.

Lemma rtc_year_days_ok d m y : 0 <= m < 12 -> 1 <= d <= 31 ->
  rtc_year_days d m y = Some (days_to_month y (Z.to_nat m) + d - 1).
Proof.
  intros Hm Hd. revert m Hm.
  apply month_cases; unfold rtc_year_days; simpl Z.to_nat; cbn [days_to_month];
    unfold month_len; destruct (LEAP_YEAR y) eqn:El; simpl; kid; rewrite ?El; f_equal; lia.
Qed.

Lemma days_to_month_S y m :
  days_to_month y (S m) = days_to_month y m + month_len y m /\ 28 <= month_len y m <= 31.
Proof. split; [done|]. unfold month_len. destruct (LEAP_YEAR y); repeat (destruct m as [|m]; try lia). Qed.

Lemma days_to_month_mono y m m' : (m <= m')%nat -> days_to_month y m <= days_to_month y m'.
Proof.
  induction 1 as [|m' _ IH]; [lia|]. pose proof (days_to_month_S y m'). lia.
Qed.

Lemma days_to_month_12 y : days_to_month y 12 = 365 + Z.b2z (LEAP_YEAR y).
Proof. cbn. destruct (LEAP_YEAR y); reflexivity. Qed.

Lemma days_to_month_0 y : days_to_month y 0 = 0.
Proof. done. Qed.

Lemma month_loop_ok year : forall fuel month days,
  0 <= month -> month + Z.of_nat fuel = 11 ->
  0 <= days < days_to_month year 12 - days_to_month year (Z.to_nat month) ->
  exists m d, month_loop fuel month days year = Some (m, d) /\ month <= m < 12 /\
    days + days_to_month year (Z.to_nat month) = days_to_month year (Z.to_nat m) + d /\
    0 <= d < month_len year (Z.to_nat m).
Proof.
  induction fuel as [|fuel IH]; intros month days Hm Hf Hd; cbn [month_loop].
  - exists month, days. split_and!; try lia; [done|]. assert (month = 11) as -> by lia.
    change (Z.to_nat 11) with 11%nat in *. pose proof (days_to_month_S year 11). lia.
  - rewrite rtc_month_days_ok by lia. cbn [mbind option_bind].
    pose proof (days_to_month_S year (Z.to_nat month)) as [E Hr].
    pose proof (days_to_month_12 year). pose proof (days_to_month_mono year 0 (Z.to_nat month) ltac:(lia)).
    pose proof (days_to_month_0 year).
    assert (Z.b2z (LEAP_YEAR year) <= 1) by (destruct (LEAP_YEAR year); cbn; lia).
    rewrite s32_id by (unfold is_s32; lia). destruct (Z.ltb_spec (days - month_len year (Z.to_nat month)) 0).
    + exists month, days. split_and!; try lia. done.
    + rewrite u32_id by (unfold is_u32; lia).
      replace (S (Z.to_nat month)) with (Z.to_nat (month + 1)) in E by lia.
      destruct (IH (month + 1) (days - month_len year (Z.to_nat month))) as (m & d & E' & ? & ? & ?);
        [lia..|]. exists m, d. split_and!; try lia; done.
Qed.

Lemma epoch_days_closed tm : 70 <= tm_year tm ->
  epoch_days tm = 365 * (tm_year tm - 70) + leaps (tm_year tm + 1899) - 477 +
    days_to_month (tm_year tm + 1900) (Z.to_nat (tm_mon tm)) + tm_mday tm - 1.
Proof.
  intros. unfold epoch_days. rewrite days_to_year_closed, Z2Nat.id by lia.
  replace (1969 + (tm_year tm - 70)) with (tm_year tm + 1899) by lia. lia.
Qed.

(** Gauss's formula counts the days of the calendar. *)
Lemma mktime_days y m d : 1970 <= y < 2 ^ 31 + 1900 -> 0 <= m < 12 -> 0 <= d < 2 ^ 31 ->
  let mon := (m + 1) -u 2 in
  let '(mon, year) := if s32 mon <=? 0 then (mon +u 12, y -u 1) else (mon, y) in
  (((year / 4 -u year / 100) +u year / 400) +u (367 *u mon) / 12) +u d +u (year *u 365) -u 719499 =
  u32 (365 * (y - 1970) + leaps (y - 1) - 477 + days_to_month y (Z.to_nat m) + d - 1).
Proof.
  intros Hy Hm Hd. pose proof (leaps_step y) as Hl. revert m Hm.
  apply month_cases;
    match goal with |- context [Z.to_nat ?x] => let v := eval vm_compute in (Z.to_nat x) in change (Z.to_nat x) with v end;
    cbn [days_to_month]; unfold month_len;
    match goal with |- context [s32 ?x] => let v := eval vm_compute in (s32 x) in change (s32 x) with v end;
    cbn [Z.leb Z.compare Pos.compare];
    match goal with |- context [(367 *u ?x) / 12] =>
      let v := eval vm_compute in ((367 *u x) / 12) in change ((367 *u x) / 12) with v end;
    rewrite ?(u32_id (y - 1)) by (unfold is_u32; lia);
    eqm32; unfold leaps in *; destruct (LEAP_YEAR y); cbn [Z.b2z] in Hl; lia.
Qed.

Lemma rtc_tm_to_time_ok tm : valid_date tm -> rtc_tm_to_time tm = u32 (seconds tm).
Proof.
  intros (Hy & Hm & Hd & Hh & Hmi & Hs).
  pose proof (days_to_month_S (tm_year tm + 1900) (Z.to_nat (tm_mon tm))) as [_ Hlen].
  pose proof (mktime_days (tm_year tm + 1900) (tm_mon tm) (tm_mday tm)) as H.
  specialize (H ltac:(lia) ltac:(lia) ltac:(lia)). unfold rtc_tm_to_time, mktime.
  rewrite (u32_id (tm_year tm + 1900)), (u32_id (tm_mon tm + 1)), (u32_id (tm_mday tm)) by (unfold is_u32; lia).
  cbv zeta in H. destruct (s32 (tm_mon tm + 1 -u 2) <=? 0);
    rewrite H; eqm32; unfold seconds; rewrite epoch_days_closed by lia;
    replace (tm_year tm + 1900 - 1) with (tm_year tm + 1899) by lia; lia.
Qed.

Lemma u32_cmp x n : is_s32 x -> 0 <= n <= 2 ^ 31 -> (n <=? u32 x) = false <-> 0 <= x < n.
Proof.
  unfold is_s32, u32, wrap. intros. rewrite Z.leb_gt. euclid.
Qed.

Lemma rtc_valid_tm_ok tm :
  is_s32 (tm_year tm) -> is_s32 (tm_mon tm) -> is_s32 (tm_hour tm) -> is_s32 (tm_min tm) ->
  is_s32 (tm_sec tm) ->
  (rtc_valid_tm tm = Some 0 <-> valid_date tm) /\
  (rtc_valid_tm tm <> Some 0 -> rtc_valid_tm tm = Some (- EINVAL)).
Proof.
  intros Hy Hm Hh Hmi Hs. unfold rtc_valid_tm, valid_date.
  pose proof (u32_cmp (tm_mon tm) 12 Hm ltac:(lia)) as Cm.
  pose proof (u32_cmp (tm_hour tm) 24 Hh ltac:(lia)) as Ch.
  pose proof (u32_cmp (tm_min tm) 60 Hmi ltac:(lia)) as Cmi.
  pose proof (u32_cmp (tm_sec tm) 60 Hs ltac:(lia)) as Cs.
  unfold is_s32 in *. destruct (Z.ltb_spec (tm_year tm) 70) as [Hy'|Hy']; cbn [orb];
    [split; [split; [done|lia]|done]|].
  destruct (12 <=? u32 (tm_mon tm)); cbn [orb].
  { split; [split; [done|intros (_ & ? & _)]|done]. by apply Cm in H. }
  destruct (Z.ltb_spec (tm_mday tm) 1) as [Hd|Hd]; [split; [split; [done|lia]|done]|].
  assert (Hmr : 0 <= tm_mon tm < 12) by by apply Cm.
  rewrite (u32_id (tm_mon tm)), (u32_id (tm_year tm + 1900)) by (unfold is_u32; lia).
  rewrite rtc_month_days_ok by done. cbn [mbind option_bind].
  destruct (Z.ltb_spec (month_len (tm_year tm + 1900) (Z.to_nat (tm_mon tm))) (tm_mday tm)); cbn [orb];
    [split; [split; [done|lia]|done]|].
  destruct (24 <=? _); cbn [orb]; [split; [split; [done|intros (_ & _ & _ & ?%Ch & _); done]|done]|].
  destruct (60 <=? u32 (tm_min tm)); cbn [orb]; [split; [split; [done|intros (_ & _ & _ & _ & ?%Cmi & _); done]|done]|].
  destruct (60 <=? u32 (tm_sec tm)); cbn [orb]; [split; [split; [done|intros (_ & _ & _ & _ & _ & ?%Cs); done]|done]|].
  split; [|done]. split; [intros _|done]. apply proj1 in Ch, Cmi, Cs. 
  split_and!; try lia; try (by apply Ch); try (by apply Cmi); by apply Cs.
Qed.

(** The year the division by 365 guesses is right or one too large. *)
Lemma year_split d : 0 <= d <= 49710 ->
  let n := d / 365 in
  let r := d - (n * 365 + leaps (1969 + n) - 477) in
  exists y days, (y, days) = (if r <? 0 then (n - 1, r + (365 + Z.b2z (LEAP_YEAR (1969 + n)))) else (n, r)) /\
    0 <= y <= 136 /\ d = days_to_year (Z.to_nat y) + days /\
    0 <= days < 365 + Z.b2z (LEAP_YEAR (1970 + y)) /\ r < 366 /\ - 366 <= r.
Proof.
  intros Hd n r. assert (Hn : 0 <= n <= 136) by (unfold n; euclid).
  assert (Hdn : n * 365 <= d < n * 365 + 365) by (unfold n; euclid).
  assert (Hl : 0 <= leaps (1969 + n) - 477 <= 35) by (unfold leaps; euclid).
  pose proof (leaps_step (1969 + n)) as Hs. replace (1969 + n - 1) with (1968 + n) in Hs by lia.
  assert (Hb : forall y, 0 <= Z.b2z (LEAP_YEAR y) <= 1) by (intros y; destruct (LEAP_YEAR y); cbn; lia).
  pose proof (Hb (1969 + n)). pose proof (Hb (1970 + n)).
  unfold r. destruct (Z.ltb_spec (d - (n * 365 + leaps (1969 + n) - 477)) 0) as [Hr|Hr].
  - assert (1 <= n) by (destruct (Z.eq_dec n 0) as [E|]; [rewrite E in Hr; change (leaps (1969 + 0)) with 477 in Hr; lia|lia]).
    do 2 eexists. split; [reflexivity|]. rewrite days_to_year_closed, Z2Nat.id by lia.
    replace (1969 + (n - 1)) with (1968 + n) by lia. replace (1970 + (n - 1)) with (1969 + n) by lia. lia.
  - do 2 eexists. split; [reflexivity|]. rewrite days_to_year_closed, Z2Nat.id by lia. lia.
Qed.

Lemma rtc_time_to_tm_ok time old : is_u32 time -> exists tm,
  rtc_time_to_tm time old = Some tm /\ valid_date tm /\ tm_year tm <= 206 /\ seconds tm = time /\
  tm_wday tm = (time / 86400 + 4) mod 7 /\
  tm_yday tm = days_to_month (tm_year tm + 1900) (Z.to_nat (tm_mon tm)) + tm_mday tm /\
  tm_isdst tm = tm_isdst old.
Proof.
  intros Ht. unfold is_u32 in Ht. set (d := time / 86400).
  assert (Hd : 0 <= d <= 49710) by (unfold d; euclid).
  set (t := time - d * 86400). assert (Htr : 0 <= t < 86400) by (unfold t, d; euclid).
  destruct (year_split d Hd) as (y & days & E & Hy & Hsum & Hdays & Hr).
  assert (Hq : 0 <= d / 365 <= 136) by euclid.
  unfold rtc_time_to_tm. cbv zeta. fold d.
  rewrite (s32_id d), (s32_id (d + 4)), (u32_id d), (u32_id (d * 86400)), (u32_id (time - d * 86400))
    by (unfold is_s32, is_u32; unfold t in Htr; lia). fold t.
  rewrite Z.quot_div_nonneg, Z.rem_mod_nonneg by lia. set (n := d / 365) in *.
  rewrite (u32_id (1970 + n)), (u32_id (1970 + n - 1970)) by (unfold is_u32; lia).
  rewrite (u32_id (1970 + n - 1)) by (unfold is_u32; lia).
  replace (1970 + n - 1970) with n by lia. replace (1970 + n - 1) with (1969 + n) by lia.
  assert (Hl : 0 <= leaps (1969 + n) - 477 <= 35) by (unfold leaps; euclid).
  rewrite LEAPS_ok by (unfold is_u32; lia). change (LEAPS_THRU_END_OF (1970 - 1)) with 477.
  rewrite (u32_id (n * 365)), (u32_id (n * 365 + leaps (1969 + n))),
    (u32_id (n * 365 + leaps (1969 + n) - 477)) by (unfold is_u32; lia).
  set (r := d - (n * 365 + leaps (1969 + n) - 477)) in *.
  rewrite (s32_id r) by (unfold is_s32; lia).
  assert (Hb : 0 <= Z.b2z (LEAP_YEAR (1969 + n)) <= 1) by (destruct (LEAP_YEAR (1969 + n)); cbn; lia).
  rewrite (s32_id (r + _)) by (unfold is_s32; lia).
  assert (E' : (if r <? 0 then (1969 + n, r + (365 + Z.b2z (LEAP_YEAR (1969 + n)))) else (1970 + n, r))
               = (1970 + y, days)).
  { destruct (r <? 0); injection E as -> ->; f_equal; lia. }
  rewrite E'. pose proof (days_to_month_12 (1970 + y)) as H12.
  destruct (month_loop_ok (1970 + y) 11 0 days) as (m & md & Em & Hm & Hsm & Hmd);
    [lia|lia|change (Z.to_nat 0) with 0%nat; rewrite days_to_month_0; lia|].
  rewrite Em. cbn [mbind option_bind]. change (Z.to_nat 0) with 0%nat in Hsm. rewrite days_to_month_0 in Hsm.
  pose proof (days_to_month_S (1970 + y) (Z.to_nat m)) as [_ Hml].
  assert (Hbl : 0 <= Z.b2z (LEAP_YEAR (1970 + y)) <= 1) by (destruct (LEAP_YEAR (1970 + y)); cbn; lia).
  kid. eexists. split; [reflexivity|]. unfold valid_date, seconds, epoch_days. cbn [tm_year tm_mon tm_mday tm_hour tm_min tm_sec tm_wday tm_yday tm_isdst].
  replace (1970 + y - 1900 + 1900) with (1970 + y) by lia. replace (1970 + y - 1900 - 70) with y by lia.
  assert (Ht2 : time = d * 86400 + t) by (unfold t; lia). clearbody d t n r.
  split_and!; try done; try lia; euclid.
Qed.

Lemma days_to_year_mono n n' : (n <= n')%nat -> days_to_year n <= days_to_year n'.
Proof. induction 1 as [|n' _ IH]; [lia|]. cbn [days_to_year]. destruct (LEAP_YEAR _); lia. Qed.

Lemma day_of_year_lt y m d : 0 <= m < 12 -> d <= month_len y (Z.to_nat m) ->
  days_to_month y (Z.to_nat m) + d <= days_to_month y 12.
Proof.
  intros. pose proof (days_to_month_mono y (S (Z.to_nat m)) 12 ltac:(lia)).
  pose proof (days_to_month_S y (Z.to_nat m)). lia.
Qed.

Lemma epoch_days_year tm tm' : valid_date tm -> valid_date tm' -> tm_year tm < tm_year tm' ->
  epoch_days tm < epoch_days tm'.
Proof.
  intros (Hy & Hm & Hd & _) (Hy' & Hm' & Hd' & _) Hlt. unfold epoch_days.
  pose proof (day_of_year_lt _ _ _ Hm (proj2 Hd)).
  pose proof (days_to_month_mono (tm_year tm' + 1900) 0 (Z.to_nat (tm_mon tm')) ltac:(lia)) as H0.
  rewrite days_to_month_0 in H0.
  pose proof (days_to_year_mono (S (Z.to_nat (tm_year tm - 70))) (Z.to_nat (tm_year tm' - 70)) ltac:(lia)) as H1.
  cbn [days_to_year] in H1. rewrite days_to_month_12 in H.
  replace (1970 + Z.of_nat (Z.to_nat (tm_year tm - 70))) with (tm_year tm + 1900) in H1 by lia.
  destruct (LEAP_YEAR _); cbn [Z.b2z] in H; lia.
Qed.

Lemma epoch_days_mon tm tm' : valid_date tm -> valid_date tm' -> tm_year tm = tm_year tm' ->
  tm_mon tm < tm_mon tm' -> epoch_days tm < epoch_days tm'.
Proof.
  intros (Hy & Hm & Hd & _) (Hy' & Hm' & Hd' & _) Ey Hlt. unfold epoch_days. rewrite <- Ey.
  pose proof (days_to_month_mono (tm_year tm + 1900) (S (Z.to_nat (tm_mon tm))) (Z.to_nat (tm_mon tm'))
    ltac:(lia)). pose proof (days_to_month_S (tm_year tm + 1900) (Z.to_nat (tm_mon tm))). lia.
Qed.

(** The calendar fields of a time, without [tm_wday], [tm_yday] and [tm_isdst]. *)
Definition same_date (tm tm' : rtc_time) : Prop :=
  tm_year tm = tm_year tm' /\ tm_mon tm = tm_mon tm' /\ tm_mday tm = tm_mday tm' /\
  tm_hour tm = tm_hour tm' /\ tm_min tm = tm_min tm' /\ tm_sec tm = tm_sec tm'.

Lemma seconds_inj tm tm' : valid_date tm -> valid_date tm' -> seconds tm = seconds tm' -> same_date tm tm'.
Proof.
  intros Hv Hv' E. pose proof Hv as (_ & _ & _ & Hh & Hm & Hs). pose proof Hv' as (_ & _ & _ & Hh' & Hm' & Hs').
  unfold seconds in E. assert (Ed : epoch_days tm = epoch_days tm') by lia.
  assert (Ey : tm_year tm = tm_year tm').
  { destruct (Z.lt_trichotomy (tm_year tm) (tm_year tm')) as [H|[H|H]]; [|done|];
      apply epoch_days_year in H; (done || lia). }
  assert (Em : tm_mon tm = tm_mon tm').
  { destruct (Z.lt_trichotomy (tm_mon tm) (tm_mon tm')) as [H|[H|H]]; [|done|];
      apply epoch_days_mon in H; (done || lia). }
  unfold same_date. split; [done|]. split; [done|]. unfold epoch_days in Ed. rewrite Ey, Em in Ed. lia.
Qed.

(** ** Timespecs *)

(** A normalised timespec of 32-bit seconds. *)
Definition ts_ok (ts : timespec) : Prop := is_s32 (tv_sec ts) /\ 0 <= tv_nsec ts < NSEC_PER_SEC.
Definition ns (ts : timespec) : Z := tv_sec ts * NSEC_PER_SEC + tv_nsec ts.

Lemma norm_down_ok : forall fuel sec nsec, nsec < NSEC_PER_SEC * (Z.of_nat fuel + 1) -> is_s32 nsec ->
  exists c, norm_down fuel (s32 sec) nsec = Some (s32 (sec + c), nsec - c * NSEC_PER_SEC) /\ 0 <= c /\
    is_s32 (nsec - c * NSEC_PER_SEC) /\ nsec - c * NSEC_PER_SEC < NSEC_PER_SEC /\
    (nsec < NSEC_PER_SEC -> c = 0) /\ (0 <= nsec -> 0 <= nsec - c * NSEC_PER_SEC).
Proof.
  unfold NSEC_PER_SEC, is_s32. induction fuel as [|fuel IH]; intros sec nsec Hn Hr; cbn [norm_down];
    unfold NSEC_PER_SEC; destruct (Z.ltb_spec nsec 1000000000).
  - exists 0. replace (sec + 0) with sec by lia. replace (nsec - 0 * 1000000000) with nsec by lia.
    split; [done|]. lia.
  - lia.
  - exists 0. replace (sec + 0) with sec by lia. replace (nsec - 0 * 1000000000) with nsec by lia.
    split; [done|]. lia.
  - rewrite s32_add_l, (s32_id (nsec - _)) by (unfold is_s32; lia).
    destruct (IH (sec + 1) (nsec - 1000000000)) as (c & -> & H'); [lia|lia|]. exists (c + 1).
    replace (sec + (c + 1)) with (sec + 1 + c) by lia.
    replace (nsec - (c + 1) * 1000000000) with (nsec - 1000000000 - c * 1000000000) by lia.
    split; [done|]. lia.
Qed.

Lemma norm_up_ok : forall fuel sec nsec, - (NSEC_PER_SEC * Z.of_nat fuel) <= nsec < NSEC_PER_SEC -> is_s32 nsec ->
  exists c, norm_up fuel (s32 sec) nsec = Some (s32 (sec - c), nsec + c * NSEC_PER_SEC) /\
    0 <= nsec + c * NSEC_PER_SEC < NSEC_PER_SEC.
Proof.
  unfold NSEC_PER_SEC, is_s32. induction fuel as [|fuel IH]; intros sec nsec Hn Hr; cbn [norm_up];
    unfold NSEC_PER_SEC; destruct (Z.leb_spec 0 nsec).
  - exists 0. replace (sec - 0) with sec by lia. replace (nsec + 0 * 1000000000) with nsec by lia.
    split; [done|]. lia.
  - lia.
  - exists 0. replace (sec - 0) with sec by lia. replace (nsec + 0 * 1000000000) with nsec by lia.
    split; [done|]. lia.
  - unfold Z.sub at 1. rewrite s32_add_l, (s32_id (nsec + _)) by (unfold is_s32; lia).
    destruct (IH (sec + - (1)) (nsec + 1000000000)) as (c & -> & H'); [lia|lia|]. exists (c + 1).
    replace (sec - (c + 1)) with (sec + - (1) - c) by lia.
    replace (nsec + (c + 1) * 1000000000) with (nsec + 1000000000 + c * 1000000000) by lia.
    split; [done|]. lia.
Qed.

Lemma set_normalized_ok sec nsec : is_s32 nsec ->
  set_normalized_timespec (s32 sec) nsec =
    Some (mk_ts (s32 (sec + nsec / NSEC_PER_SEC)) (nsec mod NSEC_PER_SEC)).
Proof.
  intros Hn. unfold set_normalized_timespec.
  destruct (norm_down_ok 2 sec nsec) as (c & -> & Hc & Hr & Hlt & H0 & H1);
    [unfold is_s32, NSEC_PER_SEC in *; lia|done|]. cbn [mbind option_bind].
  destruct (norm_up_ok 3 (sec + c) (nsec - c * NSEC_PER_SEC)) as (c' & -> & H');
    [unfold is_s32, NSEC_PER_SEC in *; lia|done|]. cbn [mbind option_bind].
  assert (E : nsec / NSEC_PER_SEC = c - c') by (unfold NSEC_PER_SEC in *; euclid).
  assert (E' : nsec mod NSEC_PER_SEC = nsec - c * NSEC_PER_SEC + c' * NSEC_PER_SEC)
    by (unfold NSEC_PER_SEC in *; euclid).
  rewrite E, E'. do 3 f_equal. lia.
Qed.

Lemma timespec_to_ns_ok ts : ts_ok ts -> timespec_to_ns ts = ns ts.
Proof.
  intros [Hs Hn]. unfold timespec_to_ns, ns, s64, swrap, is_s32, NSEC_PER_SEC in *. euclid.
Qed.

Lemma ns_to_timespec_ok x : - 2 ^ 31 * NSEC_PER_SEC <= x < 2 ^ 31 * NSEC_PER_SEC ->
  ns_to_timespec x = mk_ts (x / NSEC_PER_SEC) (x mod NSEC_PER_SEC).
Proof.
  intros Hx. unfold ns_to_timespec. destruct (Z.eqb_spec x 0) as [->|Hx0]; [done|].
  unfold NSEC_PER_SEC in *. destruct (Z.ltb_spec (Z.rem x 1000000000) 0); kid; f_equal; euclid.
Qed.

(** ** Correctness *)

(** C35: converting any 32-bit time to a date never leaves the tables and gives a
    date [rtc_valid_tm] accepts, the date the calendar (by summation of month
    and year lengths) puts that many seconds after 1970-01-01, with its weekday;
    converting back gives the same time.  (The day of the year that is stored is
    one too large: [rtc_yday_off_by_one].) *)
Theorem rtc_time_roundtrip time old : is_u32 time -> exists tm,
  rtc_time_to_tm time old = Some tm /\ rtc_valid_tm tm = Some 0 /\ seconds tm = time /\
  rtc_tm_to_time tm = time /\ tm_wday tm = (time / 86400 + 4) mod 7.
Proof.
  intros Ht. destruct (rtc_time_to_tm_ok time old Ht) as (tm & E & Hv & Hy & Hs & Hw & _).
  exists tm. pose proof Hv as (? & ? & ? & ? & ? & ?). split_and!; try done.
  - apply rtc_valid_tm_ok; try done; unfold is_s32; lia.
  - rewrite rtc_tm_to_time_ok, Hs by done. by apply u32_id.
Qed.

Lemma rtc_time_roundtrip_witness : exists tm,
  rtc_time_to_tm 1078056000 (mk_tm 0 0 0 0 0 0 0 0 0) = Some tm /\ rtc_tm_to_time tm = 1078056000.
Proof.
  destruct (rtc_time_roundtrip 1078056000 (mk_tm 0 0 0 0 0 0 0 0 0)) as (tm & E & _ & _ & E' & _).
  - unfold is_u32. lia.
  - exists tm. split; [exact E|exact E'].
Defined.

(** The [tm_yday] that rtc_time_to_tm stores counts January 1 as day 1: for every time it is one more than what
    rtc_year_days, which counts from 0 as struct tm does, answers for the same date. *)
Theorem rtc_yday_off_by_one time old : is_u32 time -> exists tm,
  rtc_time_to_tm time old = Some tm /\
  rtc_year_days (tm_mday tm) (tm_mon tm) (u32 (tm_year tm + 1900)) = Some (tm_yday tm - 1).
Proof.
  intros Ht. destruct (rtc_time_to_tm_ok time old Ht) as (tm & E & Hv & Hy & Hs & Hw & Hyd & _).
  exists tm. split; [done|]. pose proof Hv as (? & ? & Hd & ? & ? & ?).
  pose proof (days_to_month_S (tm_year tm + 1900) (Z.to_nat (tm_mon tm))) as [_ ?].
  rewrite u32_id by (unfold is_u32; lia). rewrite rtc_year_days_ok by lia. f_equal. lia.
Qed.

Lemma rtc_yday_off_by_one_witness : exists tm,
  rtc_time_to_tm 0 (mk_tm 0 0 0 0 0 0 0 0 0) = Some tm /\ tm_yday tm = 1 /\
  rtc_year_days (tm_mday tm) (tm_mon tm) (u32 (tm_year tm + 1900)) = Some (tm_yday tm - 1).
Proof.
  destruct (rtc_yday_off_by_one 0 (mk_tm 0 0 0 0 0 0 0 0 0)) as (tm & E & H); [unfold is_u32; lia|].
  exists tm. split; [exact E|]. split; [|exact H]. vm_compute in E. injection E as <-. reflexivity.
Defined.

(** [rtc_valid_tm] accepts exactly the dates of the calendar from 1970 on and
    answers [-EINVAL] to everything else; for a date it accepts Gauss's formula
    in [mktime] gives the seconds since the epoch modulo [2 ^ 32]; and up to
    2106-02-07 06:28:15 converting the result back gives the date. *)
Theorem rtc_date_roundtrip tm old :
  is_s32 (tm_year tm) -> is_s32 (tm_mon tm) -> is_s32 (tm_hour tm) -> is_s32 (tm_min tm) ->
  is_s32 (tm_sec tm) ->
  (rtc_valid_tm tm = Some 0 /\ valid_date tm \/ rtc_valid_tm tm = Some (- EINVAL) /\ ~ valid_date tm) /\
  (rtc_valid_tm tm = Some 0 ->
     rtc_tm_to_time tm = u32 (seconds tm) /\
     (seconds tm < 2 ^ 32 -> exists tm', rtc_time_to_tm (rtc_tm_to_time tm) old = Some tm' /\
        same_date tm' tm)).
Proof.
  intros Hy Hm Hh Hmi Hs. destruct (rtc_valid_tm_ok tm Hy Hm Hh Hmi Hs) as [Hv Hnv]. split.
  - destruct (decide (rtc_valid_tm tm = Some 0)) as [E|E]; [left; by rewrite <- Hv|right].
    rewrite <- Hv. auto.
  - intros Hd%Hv. rewrite rtc_tm_to_time_ok by done. split; [done|]. intros Hlt.
    assert (Hp : 0 <= seconds tm).
    { pose proof Hd as (? & ? & ? & ? & ? & ?). unfold seconds. rewrite epoch_days_closed by lia.
      pose proof (days_to_month_mono (tm_year tm + 1900) 0 (Z.to_nat (tm_mon tm)) ltac:(lia)) as Hz.
      rewrite days_to_month_0 in Hz. assert (477 <= leaps (tm_year tm + 1899)) by (unfold leaps; euclid). lia. }
    rewrite u32_id by done. destruct (rtc_time_to_tm_ok (seconds tm) old) as (tm' & E & Hv' & _ & Hs' & _); [done|].
    exists tm'. split; [done|]. by apply seconds_inj.
Qed.

Lemma rtc_date_roundtrip_witness :
  let tm := mk_tm 7 30 12 29 1 100 0 0 0 in
  exists tm', rtc_time_to_tm (rtc_tm_to_time tm) tm = Some tm' /\ same_date tm' tm.
Proof.
  intros tm. destruct (rtc_date_roundtrip tm tm) as [_ H]; [unfold is_s32; simpl; lia..|].
  apply H; reflexivity.
Defined.

(** on normalised timespecs of 32-bit seconds, [timespec_sub] and
    [timespec_add_safe] terminate with normalised results: the exact difference
    and sum in nanoseconds when it fits, and for non-negative operands whose sum
    does not fit the seconds saturate at [TIME_T_MAX]; [timespec_compare] has the
    sign of the difference; and nanosecond conversion loses nothing. *)
Theorem timespec_arith_correct a b : ts_ok a -> ts_ok b ->
  (exists d, timespec_sub a b = Some d /\ ts_ok d /\
     (is_s32 (tv_sec a - tv_sec b - 1) -> is_s32 (tv_sec a - tv_sec b) -> ns d = ns a - ns b)) /\
  (0 <= tv_sec a -> 0 <= tv_sec b -> exists s, timespec_add_safe a b = Some s /\ ts_ok s /\
     (if ns a + ns b <? 2 ^ 31 * NSEC_PER_SEC then ns s = ns a + ns b else tv_sec s = TIME_T_MAX)) /\
  Z.sgn (timespec_compare a b) = Z.sgn (ns a - ns b) /\
  (timespec_equal a b = true <-> ns a = ns b) /\
  ns_to_timespec (timespec_to_ns a) = a.
Proof.
  intros [Ha Hna] [Hb Hnb]. unfold is_s32, NSEC_PER_SEC in *. split_and!.
  - unfold timespec_sub. rewrite (s32_id (tv_nsec a - tv_nsec b)) by (unfold is_s32; lia).
    rewrite set_normalized_ok by (unfold is_s32; lia). eexists. split; [done|].
    split; [split; [apply s32_range|cbn; apply Z.mod_pos_bound; done]|]. intros Hr Hr'.
    unfold ns, NSEC_PER_SEC in *. cbn [tv_sec tv_nsec]. kid. euclid.
  - intros Hpa Hpb. unfold timespec_add_safe. rewrite (s32_id (tv_nsec a + tv_nsec b)) by (unfold is_s32; lia).
    rewrite set_normalized_ok by (unfold is_s32; lia). cbn [mbind option_bind tv_sec tv_nsec].
    unfold ns, TIME_T_MAX, ts_ok, NSEC_PER_SEC in *.
    set (c := (tv_nsec a + tv_nsec b) / 1000000000). assert (Hc : 0 <= c <= 1) by (unfold c; euclid).
    set (r := (tv_nsec a + tv_nsec b) mod 1000000000).
    assert (Hr : 0 <= r < 1000000000 /\ tv_nsec a + tv_nsec b = c * 1000000000 + r) by (unfold c, r; euclid).
    eexists. split; [reflexivity|]. clearbody c r. destruct (Z_lt_ge_dec (tv_sec a + tv_sec b + c) (2 ^ 31)) as [Hf|Hf].
    + rewrite s32_id by (unfold is_s32; lia).
      destruct (Z.ltb_spec (tv_sec a + tv_sec b + c) (tv_sec a)), (Z.ltb_spec (tv_sec a + tv_sec b + c) (tv_sec b));
        cbn [orb]; try lia. cbn [tv_sec tv_nsec]. unfold is_s32. destruct (Z.ltb_spec (tv_sec a * 1000000000 + tv_nsec a + (tv_sec b * 1000000000 + tv_nsec b)) (2 ^ 31 * 1000000000)); lia.
    + assert (E : s32 (tv_sec a + tv_sec b + c) = tv_sec a + tv_sec b + c - 2 ^ 32) by (unfold s32, swrap; euclid).
      rewrite E. destruct (Z.ltb_spec (tv_sec a + tv_sec b + c - 2 ^ 32) (tv_sec a)); cbn [orb]; [|lia].
      cbn [tv_sec tv_nsec]. unfold is_s32. destruct (Z.ltb_spec (tv_sec a * 1000000000 + tv_nsec a + (tv_sec b * 1000000000 + tv_nsec b)) (2 ^ 31 * 1000000000)); lia.
  - unfold timespec_compare, ns, NSEC_PER_SEC.
    destruct (Z.ltb_spec (tv_sec a) (tv_sec b)); [rewrite Z.sgn_neg; lia|].
    destruct (Z.ltb_spec (tv_sec b) (tv_sec a)); [rewrite Z.sgn_pos; lia|].
    rewrite s32_id by (unfold is_s32; lia). f_equal. lia.
  - unfold timespec_equal, ns, NSEC_PER_SEC. rewrite andb_true_iff, !Z.eqb_eq. lia.
  - rewrite timespec_to_ns_ok by done. destruct a as [s n]. unfold ns in *. cbn [tv_sec tv_nsec] in *.
    rewrite ns_to_timespec_ok by (unfold NSEC_PER_SEC; lia). unfold NSEC_PER_SEC. f_equal; euclid.
Qed.

Lemma timespec_arith_correct_witness :
  (exists s, timespec_add_safe (mk_ts 2147483647 999999999) (mk_ts 0 2) = Some s /\ tv_sec s = TIME_T_MAX) /\
  ns_to_timespec (timespec_to_ns (mk_ts (-2) 5)) = mk_ts (-2) 5.
Proof.
  split.
  - destruct (timespec_arith_correct (mk_ts 2147483647 999999999) (mk_ts 0 2)) as (_ & H & _);
      [split; [unfold is_s32|unfold NSEC_PER_SEC]; simpl; lia..|].
    destruct H as (s & E & _ & Hs); [simpl; lia..|]. exists s. split; [exact E|exact Hs].
  - apply (timespec_arith_correct (mk_ts (-2) 5) (mk_ts 0 2));
      (split; [unfold is_s32|unfold NSEC_PER_SEC]; simpl; lia).
Defined.

(** A normalised [ktime_t] for a number of nanoseconds. *)
Definition ktime_of (ns : Z) : Z := (ns / NSEC_PER_SEC) * 2 ^ 32 + ns mod NSEC_PER_SEC.

Definition ktime_range (ns : Z) : Prop := - 2 ^ 31 * NSEC_PER_SEC <= ns < 2 ^ 31 * NSEC_PER_SEC.

Lemma ktime_of_halves sec nsec : is_s32 sec -> is_s32 nsec ->
  tv_nsec_of (sec * 2 ^ 32 + nsec) = nsec /\ (0 <= nsec -> tv_sec_of (sec * 2 ^ 32 + nsec) = sec) /\
  (nsec < 0 -> - 2 ^ 31 < sec -> tv_sec_of (sec * 2 ^ 32 + nsec) = sec - 1).
Proof.
  intros Hs Hn. unfold tv_nsec_of, tv_sec_of, is_s32 in *. rewrite Z.shiftr_div_pow2 by lia.
  split; [unfold s32, swrap; euclid|]. split; intros; (rewrite s32_id by (unfold is_s32; euclid)); euclid.
Qed.

Lemma ktime_set_ok sec nsec : is_s32 sec -> is_u32 nsec -> ktime_set sec nsec = sec * 2 ^ 32 + nsec.
Proof.
  intros Hs Hn. unfold ktime_set. rewrite u32_id by done. rewrite Z.shiftl_mul_pow2 by lia.
  unfold is_s32, is_u32, s64, swrap in *. euclid.
Qed.

Lemma s64_eqm x : exists k, s64 x = x + 2 ^ 64 * k.
Proof. exists (- ((x + 2 ^ 63) / 2 ^ 64)). unfold s64, swrap. euclid. Qed.

Lemma s32_s64 x : s32 (s64 x) = s32 x.
Proof. destruct (s64_eqm x) as [k ->]. unfold s32, swrap. euclid. Qed.

Lemma s64_add_l x y : s64 (s64 x + y) = s64 (x + y).
Proof. destruct (s64_eqm x) as [k ->]. unfold s64, swrap. euclid. Qed.

(** A number of nanoseconds as seconds and the rest. *)
Lemma ktime_split x : ktime_range x ->
  (is_s32 (x / 1000000000) /\ 0 <= x mod 1000000000 < 1000000000) /\ x = 1000000000 * (x / 1000000000) + x mod 1000000000.
Proof. unfold ktime_range, is_s32, NSEC_PER_SEC. intros. split; euclid. Qed.

Lemma ktime_add_ok a b : ktime_range a -> ktime_range b -> ktime_range (a + b) ->
  ktime_add (ktime_of a) (ktime_of b) = ktime_of (a + b).
Proof.
  intros Ha Hb Hab. destruct (ktime_split a Ha) as [Ra Ea]. destruct (ktime_split b Hb) as [Rb Eb].
  unfold ktime_range, ktime_of, NSEC_PER_SEC in *.
  revert Ra Rb Ea Eb. set (sa := a / 1000000000). set (na := a mod 1000000000). set (sb := b / 1000000000). set (nb := b mod 1000000000).
  intros Ra Rb Ea Eb. set (c := if 1000000000 <=? na + nb then 1 else 0).
  assert (Es : (a + b) / 1000000000 = sa + sb + c) by (unfold c; destruct (Z.leb_spec 1000000000 (na + nb)); euclid).
  assert (En : (a + b) mod 1000000000 = na + nb - c * 1000000000) by (unfold c; destruct (Z.leb_spec 1000000000 (na + nb)); euclid).
  assert (Rs : is_s32 (sa + sb + c)) by (rewrite <- Es; unfold is_s32; euclid).
  rewrite Es, En. unfold ktime_add. replace (sa * 2 ^ 32 + na + (sb * 2 ^ 32 + nb)) with ((sa + sb) * 2 ^ 32 + (na + nb)) by lia.
  clearbody sa na sb nb. clear -Ra Rb Rs c. unfold is_s32 in *.
  assert (Hc : 0 <= c <= 1) by (unfold c; destruct (_ <=? _); lia).
  assert (El : tv_nsec_of (s64 ((sa + sb) * 2 ^ 32 + (na + nb))) = na + nb).
  { unfold tv_nsec_of. rewrite s32_s64. unfold s32, swrap. euclid. }
  rewrite El. unfold NSEC_PER_SEC, c in *. clear El c Hc. revert Rs. destruct (Z.leb_spec 1000000000 (na + nb)); intros Rs.
  + change (u32 (- (1000000000))) with 3294967296. rewrite s64_add_l. unfold s64, swrap. euclid.
  + unfold s64, swrap. euclid.
Qed.

Lemma ktime_sub_ok a b : ktime_range a -> ktime_range b -> ktime_range (a - b) ->
  ktime_sub (ktime_of a) (ktime_of b) = ktime_of (a - b).
Proof.
  intros Ha Hb Hab. destruct (ktime_split a Ha) as [Ra Ea]. destruct (ktime_split b Hb) as [Rb Eb].
  unfold ktime_range, ktime_of, NSEC_PER_SEC in *.
  revert Ra Rb Ea Eb. set (sa := a / 1000000000). set (na := a mod 1000000000). set (sb := b / 1000000000). set (nb := b mod 1000000000).
  intros Ra Rb Ea Eb. set (c := if na - nb <? 0 then 1 else 0).
  assert (Es : (a - b) / 1000000000 = sa - sb - c) by (unfold c; destruct (Z.ltb_spec (na - nb) 0); euclid).
  assert (En : (a - b) mod 1000000000 = na - nb + c * 1000000000) by (unfold c; destruct (Z.ltb_spec (na - nb) 0); euclid).
  assert (Rs : is_s32 (sa - sb - c)) by (rewrite <- Es; unfold is_s32; euclid).
  rewrite Es, En. unfold ktime_sub. replace (sa * 2 ^ 32 + na - (sb * 2 ^ 32 + nb)) with ((sa - sb) * 2 ^ 32 + (na - nb)) by lia.
  clearbody sa na sb nb. clear -Ra Rb Rs c. unfold is_s32 in *.
  assert (E64 : s64 ((sa - sb) * 2 ^ 32 + (na - nb)) = (sa - sb) * 2 ^ 32 + (na - nb))
    by (revert Rs; unfold c, s64, swrap; destruct (Z.ltb_spec (na - nb) 0); intros Rs; euclid).
  rewrite E64. assert (El : tv_nsec_of ((sa - sb) * 2 ^ 32 + (na - nb)) = na - nb) by (unfold tv_nsec_of, s32, swrap; euclid).
  rewrite El. revert Rs. unfold c. destruct (Z.ltb_spec (na - nb) 0); intros Rs; [|lia].
  assert (Eh : tv_sec_of ((sa - sb) * 2 ^ 32 + (na - nb)) = sa - sb - 1)
    by (unfold tv_sec_of; rewrite Z.shiftr_div_pow2 by lia; unfold s32, swrap; euclid).
  rewrite Eh, ktime_set_ok by (unfold is_s32, is_u32, NSEC_PER_SEC; lia). unfold NSEC_PER_SEC. lia.
Qed.

(** Time values on the 32-bit machine, kept as seconds and nanoseconds in the
    two halves of a 64-bit number: addition and subtraction of whole numbers with
    one correction are addition and subtraction of nanoseconds, in normal form. *)
Theorem ktime_arith_correct a b : ktime_range a -> ktime_range b ->
  ktime_to_ns (ktime_of a) = a /\ timespec_to_ktime (ns_to_timespec a) = ktime_of a /\
  (ktime_range (a + b) -> ktime_add (ktime_of a) (ktime_of b) = ktime_of (a + b)) /\
  (ktime_range (a - b) -> ktime_sub (ktime_of a) (ktime_of b) = ktime_of (a - b)).
Proof.
  intros Ha Hb. destruct (ktime_split a Ha) as [Ra Ea]. split_and!.
  - unfold ktime_of, NSEC_PER_SEC. destruct (ktime_of_halves (a / 1000000000) (a mod 1000000000)) as (E1 & E2 & _); [apply Ra|unfold is_s32; lia|].
    unfold ktime_to_ns, NSEC_PER_SEC. rewrite E1, E2 by lia. unfold is_s32, s64, swrap in *. rewrite Ea at 3. clear -Ra.
    set (x := a / 1000000000) in *. set (y := a mod 1000000000) in *. clearbody x y. Z.to_euclidean_division_equations; lia.
  - unfold ktime_range in Ha. rewrite ns_to_timespec_ok by lia. unfold timespec_to_ktime. cbn [tv_sec tv_nsec].
    apply ktime_set_ok; [apply Ra|unfold is_u32, NSEC_PER_SEC; lia].
  - by apply ktime_add_ok.
  - by apply ktime_sub_ok.
Qed.

(** 1.5 s and 0.7 s. *)
Lemma ktime_arith_correct_witness :
  ktime_sub (ktime_of 1500000000) (ktime_of 700000000) = ktime_of 800000000.
Proof.
  apply (ktime_arith_correct 1500000000 700000000); unfold ktime_range, NSEC_PER_SEC; lia.
Defined.
