(* ===== verification/Rwsem.v ===== *)
(** * Read/write semaphores: lib/rwsem-spinlock.c, include/linux/rwsem-spinlock.h.

    Every operation is one section under [wait_lock]; a function returns the new
    semaphore and the waiters whose [task] field it cleared (and which it woke).
    The sleeping loop of a waiter is a transition of the system below. *)
From S2P Require Import Prelude.
Open Scope kernel_scope.

(** [RWSEM_WAITING_FOR_READ] and [RWSEM_WAITING_FOR_WRITE]. *)
Inductive rwflag : Type := READ | WRITE.

#[export] Instance rwflag_eq_dec : EqDecision rwflag.
Proof. solve_decision. Defined.

(** [struct rwsem_waiter]: the sleeping task and what it waits for. *)
Abbreviation rwsem_waiter := (nat * rwflag)%type.

Record rw_semaphore := mk_sem { activity : Z; wait_list : list rwsem_waiter }.

Definition __init_rwsem : rw_semaphore := mk_sem 0 [].

Definition list_empty {A} (l : list A) : bool := match l with [] => true | _ => false end.

(** The [while] loop that takes the readers at the front off the list. *)
Fixpoint wake_readers (l : list rwsem_waiter) : list rwsem_waiter * list rwsem_waiter :=
  match l with
  | (t, READ) :: l' => let '(woken, rest) := wake_readers l' in ((t, READ) :: woken, rest)
  | _ => ([], l)
  end.

(** [None]: the list is empty and its head is taken for a waiter. *)
Definition __rwsem_do_wake (sem : rw_semaphore) (wakewrite : bool)
    : option (rw_semaphore * list rwsem_waiter) :=
  match wait_list sem with
  | [] => None
  | (t, WRITE) :: rest =>
      if wakewrite then Some (mk_sem (-1) rest, [(t, WRITE)]) else Some (sem, [])
  | (t, READ) :: _ =>
      let '(woken, rest) := wake_readers (wait_list sem) in
      Some (mk_sem (s32 (activity sem + len woken)) rest, woken)
  end.

(** It does not look at the flags of the waiter it wakes. *)
Definition __rwsem_wake_one_writer (sem : rw_semaphore) : option (rw_semaphore * list rwsem_waiter) :=
  match wait_list sem with
  | [] => None
  | w :: rest => Some (mk_sem (-1) rest, [w])
  end.

(** [true]: granted at once; [false]: queued, the caller sleeps. *)
Definition __down_read (sem : rw_semaphore) (current : nat) : rw_semaphore * bool :=
  if (0 <=? activity sem) && list_empty (wait_list sem)
  then (mk_sem (s32 (activity sem + 1)) (wait_list sem), true)
  else (mk_sem (activity sem) (wait_list sem ++ [(current, READ)]), false).

Definition __down_read_trylock (sem : rw_semaphore) : rw_semaphore * Z :=
  if (0 <=? activity sem) && list_empty (wait_list sem)
  then (mk_sem (s32 (activity sem + 1)) (wait_list sem), 1) else (sem, 0).

Definition __down_write_nested (sem : rw_semaphore) (current : nat) : rw_semaphore * bool :=
  if (activity sem =? 0) && list_empty (wait_list sem)
  then (mk_sem (-1) (wait_list sem), true)
  else (mk_sem (activity sem) (wait_list sem ++ [(current, WRITE)]), false).

Definition __down_write (sem : rw_semaphore) (current : nat) := __down_write_nested sem current.

Definition __down_write_trylock (sem : rw_semaphore) : rw_semaphore * Z :=
  if (activity sem =? 0) && list_empty (wait_list sem)
  then (mk_sem (-1) (wait_list sem), 1) else (sem, 0).

Definition __up_read (sem : rw_semaphore) : option (rw_semaphore * list rwsem_waiter) :=
  let sem := mk_sem (s32 (activity sem - 1)) (wait_list sem) in
  if (activity sem =? 0) && negb (list_empty (wait_list sem)) then __rwsem_wake_one_writer sem
  else Some (sem, []).

Definition __up_write (sem : rw_semaphore) : option (rw_semaphore * list rwsem_waiter) :=
  let sem := mk_sem 0 (wait_list sem) in
  if negb (list_empty (wait_list sem)) then __rwsem_do_wake sem true else Some (sem, []).

Definition __downgrade_write (sem : rw_semaphore) : option (rw_semaphore * list rwsem_waiter) :=
  let sem := mk_sem 1 (wait_list sem) in
  if negb (list_empty (wait_list sem)) then __rwsem_do_wake sem false else Some (sem, []).

Definition rwsem_is_locked (sem : rw_semaphore) : bool := negb (activity sem =? 0).

(** ** The system: one semaphore and the tasks that use it *)

(** A task that called a down routine: it sleeps with its waiter queued, its
    waiter's [task] has been cleared but it has not run yet, or it has returned. *)
Inductive tstate : Type := Waiting (k : rwflag) | Woken (k : rwflag) | Holds (k : rwflag).

Record rwsys := mk_sys { rw_sem : rw_semaphore; tasks : gmap nat tstate }.

Definition wake (m : gmap nat tstate) (woken : list rwsem_waiter) : gmap nat tstate :=
  foldl (fun m w => <[w.1 := Woken w.2]> m) m woken.

(** [PID_MAX_LIMIT] is [PID_MAX_DEFAULT] on a 32-bit machine. *)
Definition PID_MAX_LIMIT : Z := 0x8000.

Definition enter (k : rwflag) (granted : bool) : tstate := if granted then Holds k else Waiting k.

(** Any task may call a down routine it is not already in; only a holder releases. *)
Inductive rwstep : rwsys -> rwsys -> Prop :=
  | rs_down_read s m t s' g :
      m !! t = None -> Z.of_nat t < PID_MAX_LIMIT -> __down_read s t = (s', g) ->
      rwstep (mk_sys s m) (mk_sys s' (<[t := enter READ g]> m))
  | rs_read_trylock s m t s' r :
      m !! t = None -> Z.of_nat t < PID_MAX_LIMIT -> __down_read_trylock s = (s', r) ->
      rwstep (mk_sys s m) (mk_sys s' (if r =? 0 then m else <[t := Holds READ]> m))
  | rs_down_write s m t s' g :
      m !! t = None -> Z.of_nat t < PID_MAX_LIMIT -> __down_write s t = (s', g) ->
      rwstep (mk_sys s m) (mk_sys s' (<[t := enter WRITE g]> m))
  | rs_write_trylock s m t s' r :
      m !! t = None -> Z.of_nat t < PID_MAX_LIMIT -> __down_write_trylock s = (s', r) ->
      rwstep (mk_sys s m) (mk_sys s' (if r =? 0 then m else <[t := Holds WRITE]> m))
  | rs_return s m t k :
      m !! t = Some (Woken k) -> rwstep (mk_sys s m) (mk_sys s (<[t := Holds k]> m))
  | rs_up_read s m t s' w :
      m !! t = Some (Holds READ) -> __up_read s = Some (s', w) ->
      rwstep (mk_sys s m) (mk_sys s' (wake (delete t m) w))
  | rs_up_write s m t s' w :
      m !! t = Some (Holds WRITE) -> __up_write s = Some (s', w) ->
      rwstep (mk_sys s m) (mk_sys s' (wake (delete t m) w))
  | rs_downgrade s m t s' w :
      m !! t = Some (Holds WRITE) -> __downgrade_write s = Some (s', w) ->
      rwstep (mk_sys s m) (mk_sys s' (wake (<[t := Holds READ]> m) w)).

Definition rw_init : rwsys := mk_sys __init_rwsem ∅.

(** ** The invariant *)

Definition reads (s : tstate) : bool :=
  match s with Woken READ | Holds READ => true | _ => false end.
Definition writes (s : tstate) : bool :=
  match s with Woken WRITE | Holds WRITE => true | _ => false end.

(** The wait list holds exactly the sleeping tasks, once each. *)
Definition queue_ok (l : list rwsem_waiter) (m : gmap nat tstate) : Prop :=
  NoDup l.*1 /\ forall t k, (t, k) ∈ l <-> m !! t = Some (Waiting k).

(** [activity] counts the readers, or is -1 for a writer; nobody waits on a free
    semaphore; while readers hold it a writer is first in line. *)
Definition lock_ok (s : rw_semaphore) (r w : Z) : Prop :=
  (activity s = -1 /\ r = 0 /\ w = 1 \/ activity s = r /\ 0 <= r /\ w = 0) /\
  (activity s = 0 -> wait_list s = []) /\
  (0 < activity s -> forall x rest, wait_list s = x :: rest -> x.2 = WRITE).

Definition rw_inv (x : rwsys) : Prop :=
  lock_ok (rw_sem x) (cnt reads (tasks x)) (cnt writes (tasks x)) /\
  queue_ok (wait_list (rw_sem x)) (tasks x) /\
  forall t, is_Some (tasks x !! t) -> Z.of_nat t < PID_MAX_LIMIT.

Lemma queue_notin l m t : queue_ok l m -> (forall k, m !! t <> Some (Waiting k)) -> t ∉ l.*1.
Proof.
  intros [_ Hq] Hn Hin. apply list_elem_of_fmap in Hin as ([t' k] & -> & Hin). cbn in Hn.
  apply Hq in Hin. by apply (Hn k).
Qed.

(** A task that is not asleep, now or after, does not concern the queue. *)
Lemma queue_frame l m m' : queue_ok l m ->
  (forall t, m' !! t = m !! t \/ (forall k, m !! t <> Some (Waiting k)) /\ (forall k, m' !! t <> Some (Waiting k))) ->
  queue_ok l m'.
Proof.
  intros [Hnd Hq] Hm. split; [done|]. intros t k. destruct (Hm t) as [->|[H1 H2]]; [done|].
  split; intros H; [apply Hq in H; by destruct (H1 k)|by destruct (H2 k)].
Qed.

Lemma queue_add l m t k : queue_ok l m -> m !! t = None ->
  queue_ok (l ++ [(t, k)]) (<[t := Waiting k]> m).
Proof.
  intros Hq Hn. assert (Ht : t ∉ l.*1) by (apply (queue_notin l m); [done|congruence]).
  destruct Hq as [Hnd Hq]. split.
  - rewrite fmap_app. apply NoDup_app. split; [done|]. split; [|apply NoDup_singleton].
    intros x Hx Hx'. cbn in Hx'. apply list_elem_of_singleton in Hx' as ->. done.
  - intros t' k'. rewrite elem_of_app, list_elem_of_singleton, Hq.
    destruct (decide (t' = t)) as [->|Hne].
    + rewrite lookup_insert_eq, Hn. split; [by intros [|[= <-]]|intros [= <-]; by right].
    + rewrite lookup_insert_ne by done. split; [intros [|[= ? ?]]; done|by left].
Qed.

Lemma queue_pop l m t k : queue_ok ((t, k) :: l) m -> queue_ok l (<[t := Woken k]> m).
Proof.
  intros [[Ht Hnd]%NoDup_cons Hq]. split; [done|]. intros t' k'. destruct (decide (t' = t)) as [->|Hne].
  - rewrite lookup_insert_eq. split; [|done]. intros Hin. destruct Ht. by apply (list_elem_of_fmap_2 fst) in Hin.
  - rewrite lookup_insert_ne by done. rewrite <- Hq, elem_of_cons.
    split; [by right|intros [[= ? ?]|]; done].
Qed.

Fixpoint waiters_for (k : rwflag) (l : list rwsem_waiter) : Z :=
  match l with [] => 0 | w :: l' => (if decide (w.2 = k) then 1 else 0) + waiters_for k l' end.

Lemma queue_wake rest : forall woken m, queue_ok (woken ++ rest) m ->
  queue_ok rest (wake m woken) /\
  cnt reads (wake m woken) = cnt reads m + waiters_for READ woken /\
  cnt writes (wake m woken) = cnt writes m + waiters_for WRITE woken /\
  (forall t, is_Some (wake m woken !! t) <-> is_Some (m !! t)).
Proof.
  induction woken as [|[t k] woken IH]; intros m Hq; cbn [wake foldl].
  { split; [done|]. cbn [waiters_for]. split_and!; [lia|lia|done]. }
  assert (Ht : m !! t = Some (Waiting k)) by (apply Hq; left).
  apply queue_pop in Hq. destruct (IH _ Hq) as (H1 & H2 & H3 & H4). unfold wake in *. cbn [fst snd] in *.
  split; [done|]. rewrite H2, H3, !(cnt_over _ _ _ _ _ Ht). split_and!.
  - destruct k; cbn [waiters_for fst snd reads writes Z.b2z];
      [rewrite decide_True by done|rewrite decide_False by done]; lia.
  - destruct k; cbn [waiters_for fst snd reads writes Z.b2z];
      [rewrite decide_False by done|rewrite decide_True by done]; lia.
  - intros t'. rewrite H4. destruct (decide (t' = t)) as [->|]; [|by rewrite lookup_insert_ne].
    rewrite lookup_insert_eq, Ht. split; eauto.
Qed.

Lemma wake_readers_spec l : let '(woken, rest) := wake_readers l in
  l = woken ++ rest /\ Forall (fun w => w.2 = READ) woken /\
  (forall x rest', rest = x :: rest' -> x.2 = WRITE).
Proof.
  induction l as [|[t []] l IH]; cbn [wake_readers]; [split_and!; [done|done|congruence]| |].
  - destruct (wake_readers l) as [woken rest]. destruct IH as (-> & ? & ?). split_and!; [done|by constructor|done].
  - split_and!; [done|done|]. by intros x rest' [= <- <-].
Qed.

Lemma waiters_for_all k l : Forall (fun w => w.2 = k) l ->
  waiters_for k l = len l /\ forall k', k' <> k -> waiters_for k' l = 0.
Proof.
  induction 1 as [|w l Hw _ [IH1 IH2]]; [done|]. cbn [waiters_for length]. split.
  - rewrite decide_True by done. lia.
  - intros k' Hk. rewrite decide_False by congruence. by rewrite IH2.
Qed.

Definition pids (m : gmap nat tstate) : Prop := forall t, is_Some (m !! t) -> Z.of_nat t < PID_MAX_LIMIT.

Lemma s32_count P m : pids m -> s32 (cnt P m) = cnt P m.
Proof.
  intros Hb. pose proof (cnt_bound P m PID_MAX_LIMIT Hb ltac:(done)). pose proof (cnt_nonneg P m).
  apply s32_id. unfold is_s32, PID_MAX_LIMIT in *. lia.
Qed.

(** What a routine that wakes waiters leaves behind. *)
Definition woke (m : gmap nat tstate) (r : option (rw_semaphore * list rwsem_waiter)) : Prop :=
  exists s' w, r = Some (s', w) /\
    lock_ok s' (cnt reads (wake m w)) (cnt writes (wake m w)) /\
    queue_ok (wait_list s') (wake m w) /\ pids (wake m w).

Lemma wake_none_ok s m : lock_ok s (cnt reads m) (cnt writes m) -> queue_ok (wait_list s) m -> pids m ->
  woke m (Some (s, [])).
Proof. intros. exists s, []. done. Qed.

Lemma wake_one_writer_ok s m : queue_ok (wait_list s) m -> pids m -> cnt reads m = 0 -> cnt writes m = 0 ->
  wait_list s <> [] -> (forall x rest, wait_list s = x :: rest -> x.2 = WRITE) ->
  woke m (__rwsem_wake_one_writer s).
Proof.
  intros Hq Hp Hr Hw Hne Hhd. unfold __rwsem_wake_one_writer.
  destruct (wait_list s) as [|[t k] rest]; [done|]. pose proof (Hhd _ _ eq_refl) as Hk. cbn in Hk. subst k.
  change ((t, WRITE) :: rest) with ([(t, WRITE)] ++ rest) in Hq.
  destruct (queue_wake rest [(t, WRITE)] m Hq) as (H1 & H2 & H3 & H4). exists (mk_sem (-1) rest), [(t, WRITE)].
  cbn [waiters_for snd] in H2, H3. rewrite decide_False in H2 by done. rewrite decide_True in H3 by done.
  split; [done|]. split; [|split; [done|intros t' Ht'; apply Hp, H4, Ht']].
  split; [left; cbn [activity]; lia|]. split; cbn [activity]; lia.
Qed.

Lemma do_wake_ok s m ww : queue_ok (wait_list s) m -> pids m -> cnt writes m = 0 ->
  activity s = cnt reads m -> (if ww : bool then activity s = 0 else 0 < activity s) -> wait_list s <> [] ->
  woke m (__rwsem_do_wake s ww).
Proof.
  intros Hq Hp Hw Ha Hww Hne. destruct (wait_list s) as [|[t k] rest] eqn:El; [done|].
  destruct k.
  - unfold __rwsem_do_wake. rewrite El. pose proof (wake_readers_spec ((t, READ) :: rest)) as Hs.
    destruct (wake_readers ((t, READ) :: rest)) as [woken l'] eqn:Ew. destruct Hs as (E & Hall & Hhd).
    assert (Hq' : queue_ok (woken ++ l') m) by (rewrite <- E; exact Hq).
    destruct (queue_wake l' woken m Hq') as (H1 & H2 & H3 & H4).
    apply waiters_for_all in Hall as [Hl Hz]. rewrite Hl in H2. rewrite Hz in H3 by done.
    assert (Hp' : pids (wake m woken)) by (intros t' Ht'; apply Hp, H4, Ht').
    exists (mk_sem (s32 (activity s + len woken)) l'), woken. split; [done|]. rewrite Ha, <- H2, s32_count by done.
    split; [|done]. assert (1 <= len woken).
    { cbn [wake_readers] in Ew. destruct (wake_readers rest). injection Ew as <- <-. cbn [length]. lia. }
    pose proof (cnt_nonneg reads m). split; [right; cbn [activity]; lia|]. split; cbn [activity wait_list]; [lia|done].
  - unfold __rwsem_do_wake. rewrite El. destruct ww.
    + pose proof (wake_one_writer_ok (mk_sem (activity s) ((t, WRITE) :: rest)) m) as H. 
      apply H; cbn [wait_list]; try done; [lia|].
      by intros x r [= <- <-].
    + apply wake_none_ok; [|by rewrite El|done]. split; [right; lia|]. rewrite El. split; [lia|].
      intros _ x r [= <- <-]. done.
Qed.

Lemma pids_insert m t s : pids m -> Z.of_nat t < PID_MAX_LIMIT -> pids (<[t := s]> m).
Proof.
  intros Hp Ht t' Ht'. destruct (decide (t' = t)) as [->|]; [done|]. apply Hp. by rewrite lookup_insert_ne in Ht'.
Qed.

Lemma pids_delete m t : pids m -> pids (delete t m).
Proof. intros Hp t' [s Hs]. apply lookup_delete_Some in Hs as [_ Hs]. apply Hp. eauto. Qed.

(** A task that does not sleep, before or after, keeps the queue. *)
Lemma queue_insert l m t s : queue_ok l m -> (forall k, m !! t <> Some (Waiting k)) ->
  (forall k, s <> Waiting k) -> queue_ok l (<[t := s]> m).
Proof.
  intros Hq Hm Hs. apply (queue_frame l m); [done|]. intros t'. destruct (decide (t' = t)) as [->|].
  - right. split; [done|]. intros k. rewrite lookup_insert_eq. congruence.
  - left. by rewrite lookup_insert_ne.
Qed.

Lemma queue_delete l m t : queue_ok l m -> (forall k, m !! t <> Some (Waiting k)) -> queue_ok l (delete t m).
Proof.
  intros Hq Hm. apply (queue_frame l m); [done|]. intros t'. destruct (decide (t' = t)) as [->|].
  - right. split; [done|]. intros k. by rewrite lookup_delete_eq.
  - left. by rewrite lookup_delete_ne.
Qed.

(** A task enters: granted at once (only on an empty queue), or queued. *)
Lemma enter_read_ok s m t s' g : rw_inv (mk_sys s m) -> m !! t = None -> Z.of_nat t < PID_MAX_LIMIT ->
  __down_read s t = (s', g) -> rw_inv (mk_sys s' (<[t := enter READ g]> m)).
Proof.
  intros ((Hl & Hz & Hh) & Hq & Hp) Hn Ht. cbn [rw_sem tasks] in *. unfold __down_read.
  pose proof (cnt_nonneg reads m). assert (Hpi := pids_insert m t (Holds READ) Hp Ht).
  destruct (Z.leb_spec 0 (activity s)); cbn [andb]; [destruct (wait_list s) as [|x l] eqn:El; cbn [list_empty]|].
  - intros [= <- <-]. unfold rw_inv, lock_ok. cbn [rw_sem tasks activity wait_list enter].
    assert (E : activity s + 1 = cnt reads (<[t := Holds READ]> m)) by (rewrite cnt_new by done; cbn [reads Z.b2z]; lia).
    rewrite E, s32_count by done. rewrite !cnt_new in * by done. cbn [reads writes Z.b2z] in *.
    split; [split; [right; lia|split; [lia|done]]|]. split; [|done].
    apply queue_insert; [done|congruence|done].
  - intros [= <- <-]. unfold rw_inv, lock_ok. cbn [rw_sem tasks activity wait_list enter].
    rewrite !cnt_new by done. cbn [reads writes Z.b2z]. rewrite !Z.add_0_r.
    split; [split; [done|split; [by intros ?%Hz|]]|]. 
    { intros ? x' r [= <- <-]. by apply (Hh ltac:(done) x l). }
    split; [by apply (queue_add (x :: l))|by apply pids_insert].
  - intros [= <- <-]. unfold rw_inv, lock_ok. cbn [rw_sem tasks activity wait_list enter].
    rewrite !cnt_new by done. cbn [reads writes Z.b2z]. rewrite !Z.add_0_r.
    split; [split; [done|split; lia]|]. split; [by apply queue_add|by apply pids_insert].
Qed.

Lemma enter_write_ok s m t s' g : rw_inv (mk_sys s m) -> m !! t = None -> Z.of_nat t < PID_MAX_LIMIT ->
  __down_write s t = (s', g) -> rw_inv (mk_sys s' (<[t := enter WRITE g]> m)).
Proof.
  intros ((Hl & Hz & Hh) & Hq & Hp) Hn Ht. cbn [rw_sem tasks] in *. unfold __down_write, __down_write_nested.
  pose proof (cnt_nonneg reads m).
  destruct (Z.eqb_spec (activity s) 0) as [Ea|Ea]; cbn [andb].
  - pose proof (Hz Ea) as El. rewrite El. cbn [list_empty]. intros [= <- <-]. unfold rw_inv, lock_ok.
    cbn [rw_sem tasks activity wait_list enter]. rewrite !cnt_new by done. cbn [reads writes Z.b2z].
    split; [split; [left; lia|split; lia]|]. rewrite El in Hq.
    split; [apply queue_insert; [done|congruence|done]|by apply pids_insert].
  - intros [= <- <-]. unfold rw_inv, lock_ok. cbn [rw_sem tasks activity wait_list enter].
    rewrite !cnt_new by done. cbn [reads writes Z.b2z]. rewrite !Z.add_0_r.
    split; [split; [done|split; [lia|]]|split; [by apply queue_add|by apply pids_insert]].
    intros Hpos x r. destruct (wait_list s) as [|x' l]; [by intros [= <- <-]|].
    intros [= <- _]. by apply (Hh Hpos x' l).
Qed.

(** The trylocks grant in the same cases and queue nobody. *)
Lemma trylock_read s t : __down_read_trylock s =
  if snd (__down_read s t) then (fst (__down_read s t), 1) else (s, 0).
Proof. unfold __down_read_trylock, __down_read. by destruct (_ && _). Qed.

Lemma trylock_write s t : __down_write_trylock s =
  if snd (__down_write s t) then (fst (__down_write s t), 1) else (s, 0).
Proof. unfold __down_write_trylock, __down_write, __down_write_nested. by destruct (_ && _). Qed.

Lemma holds_activity s m t k : rw_inv (mk_sys s m) -> m !! t = Some (Holds k) ->
  match k with
  | READ => activity s = cnt reads m /\ 1 <= cnt reads m /\ cnt writes m = 0
  | WRITE => activity s = -1 /\ cnt reads m = 0 /\ cnt writes m = 1
  end.
Proof.
  intros ((Hl & _) & _ & _) Ht. cbn [rw_sem tasks] in Hl. destruct k.
  - pose proof (cnt_delete reads m t _ Ht) as E. pose proof (cnt_nonneg reads (delete t m)).
    cbn [reads Z.b2z] in E. lia.
  - pose proof (cnt_delete writes m t _ Ht) as E. pose proof (cnt_nonneg writes (delete t m)).
    cbn [writes Z.b2z] in E. lia.
Qed.

Lemma up_read_ok s m t : rw_inv (mk_sys s m) -> m !! t = Some (Holds READ) ->
  woke (delete t m) (__up_read s).
Proof.
  intros Hi Ht. destruct (holds_activity s m t READ Hi Ht) as (Ha & H1 & Hw).
  destruct Hi as ((Hl & Hz & Hh) & Hq & Hp). cbn [rw_sem tasks] in *.
  pose proof (cnt_delete reads m t _ Ht) as Er. pose proof (cnt_delete writes m t _ Ht) as Ew.
  cbn [reads writes Z.b2z] in Er, Ew. unfold __up_read.
  assert (Hq' : queue_ok (wait_list s) (delete t m)) by (apply queue_delete; [done|congruence]).
  assert (Hp' : pids (delete t m)) by by apply pids_delete.
  rewrite Ha, <- Er, s32_count by done. cbn [activity wait_list].
  destruct (Z.eqb_spec (cnt reads (delete t m)) 0) as [E|E]; cbn [andb].
  - destruct (wait_list s) as [|x l] eqn:El; cbn [list_empty negb].
    + apply wake_none_ok; [|done|done]. split; [right; cbn [activity]; lia|]. split; [done|]. cbn [activity]. lia.
    + apply wake_one_writer_ok; try done; [lia|]. cbn [wait_list]. apply Hh. lia.
  - apply wake_none_ok; [|done|done]. pose proof (cnt_nonneg reads (delete t m)).
    split; [right; cbn [activity]; lia|]. cbn [activity wait_list]. split; [lia|]. intros _. apply Hh. lia.
Qed.

Lemma up_write_ok s m t : rw_inv (mk_sys s m) -> m !! t = Some (Holds WRITE) ->
  woke (delete t m) (__up_write s).
Proof.
  intros Hi Ht. destruct (holds_activity s m t WRITE Hi Ht) as (Ha & Hr & Hw).
  destruct Hi as ((Hl & Hz & Hh) & Hq & Hp). cbn [rw_sem tasks] in *.
  pose proof (cnt_delete reads m t _ Ht) as Er. pose proof (cnt_delete writes m t _ Ht) as Ew.
  cbn [reads writes Z.b2z] in Er, Ew. unfold __up_write. cbn [wait_list].
  assert (Hq' : queue_ok (wait_list s) (delete t m)) by (apply queue_delete; [done|congruence]).
  assert (Hp' : pids (delete t m)) by by apply pids_delete.
  destruct (wait_list s) as [|x l] eqn:El; cbn [list_empty negb].
  - apply wake_none_ok; [|done|done]. split; [right; cbn [activity]; lia|]. cbn [activity]. split; [done|lia].
  - apply do_wake_ok; cbn [activity wait_list]; try done; lia.
Qed.

Lemma downgrade_ok s m t : rw_inv (mk_sys s m) -> m !! t = Some (Holds WRITE) ->
  woke (<[t := Holds READ]> m) (__downgrade_write s).
Proof.
  intros Hi Ht. destruct (holds_activity s m t WRITE Hi Ht) as (Ha & Hr & Hw).
  destruct Hi as ((Hl & Hz & Hh) & Hq & Hp). cbn [rw_sem tasks] in *.
  pose proof (cnt_over reads m t _ (Holds READ) Ht) as Er. pose proof (cnt_over writes m t _ (Holds READ) Ht) as Ew.
  cbn [reads writes Z.b2z] in Er, Ew. unfold __downgrade_write. cbn [wait_list].
  assert (Hq' : queue_ok (wait_list s) (<[t := Holds READ]> m)) by (apply queue_insert; [done|congruence|done]).
  assert (Hp' : pids (<[t := Holds READ]> m)) by (apply pids_insert; [done|apply Hp; eauto]).
  destruct (wait_list s) as [|x l] eqn:El; cbn [list_empty negb].
  - apply wake_none_ok; [|done|done]. split; [right; cbn [activity]; lia|]. cbn [activity wait_list]. split; [done|by intros _ ? ?].
  - apply do_wake_ok; cbn [activity wait_list]; try done; lia.
Qed.

Lemma woke_inv m s' w : woke m (Some (s', w)) -> rw_inv (mk_sys s' (wake m w)).
Proof. intros (s0 & w0 & [= <- <-] & H1 & H2 & H3). by split. Qed.

Lemma rwstep_inv x x' : rwstep x x' -> rw_inv x -> rw_inv x'.
Proof.
  intros Hst Hi. destruct Hst as [s m t s' g Hn Ht E|s m t s' r Hn Ht E|s m t s' g Hn Ht E
    |s m t s' r Hn Ht E|s m t k Ht|s m t s' w Ht E|s m t s' w Ht E|s m t s' w Ht E].
  - by apply (enter_read_ok s).
  - rewrite (trylock_read s t) in E. destruct (__down_read s t) as [s1 []] eqn:Ed; cbn [fst snd] in E;
      injection E as <- <-; cbn [Z.eqb]; [|done]. by apply (enter_read_ok s m t s1 true).
  - by apply (enter_write_ok s).
  - rewrite (trylock_write s t) in E. destruct (__down_write s t) as [s1 []] eqn:Ed; cbn [fst snd] in E;
      injection E as <- <-; cbn [Z.eqb]; [|done]. by apply (enter_write_ok s m t s1 true).
  - destruct Hi as (Hl & Hq & Hp). unfold rw_inv in *. cbn [rw_sem tasks] in *. rewrite !(cnt_over _ _ _ _ _ Ht).
    replace (reads (Holds k)) with (reads (Woken k)) by by destruct k.
    replace (writes (Holds k)) with (writes (Woken k)) by by destruct k. rewrite !Z.sub_add.
    split; [done|]. split; [apply queue_insert; [done|congruence|done]|]. apply pids_insert; [done|apply Hp; eauto].
  - apply woke_inv. rewrite <- E. by apply up_read_ok.
  - apply woke_inv. rewrite <- E. by apply up_write_ok.
  - apply woke_inv. rewrite <- E. by apply downgrade_ok.
Qed.

Lemma rw_reach_inv x : rtc rwstep rw_init x -> rw_inv x.
Proof.
  intros H. assert (Hi : rw_inv rw_init).
  { split; [|split; [split; [constructor|]|]].
    - split; [right; done|]. split; [done|]. cbn. lia.
    - intros t k. cbn. rewrite lookup_empty. split; [by intros ?%not_elem_of_nil|done].
    - intros t [s Hs]. cbn in Hs. by rewrite lookup_empty in Hs. }
  induction H as [|x y z Hst _ IH]; [done|]. apply IH. by apply (rwstep_inv x).
Qed.

(** ** Fairness: waiters leave the list in the order they came *)

(** One step appends one newcomer at the tail, or takes waiters off the front, all of which are woken, and
    never both. *)
Definition fifo (x x' : rwsys) : Prop :=
  let l := wait_list (rw_sem x) in let l' := wait_list (rw_sem x') in
  (exists t k, l' = l ++ [(t, k)] /\ tasks x !! t = None /\ tasks x' !! t = Some (Waiting k)) \/
  (exists woken, l = woken ++ l' /\ forall t k, (t, k) ∈ woken -> tasks x' !! t = Some (Woken k)).

Lemma wake_ne woken : forall m t, t ∉ woken.*1 -> wake m woken !! t = m !! t.
Proof.
  induction woken as [|w woken IH]; intros m t Ht; [done|]. change (wake m (w :: woken)) with (wake (<[w.1 := Woken w.2]> m) woken).
  cbn in Ht. rewrite not_elem_of_cons in Ht. destruct Ht as [Hne Ht]. rewrite IH by done. by rewrite lookup_insert_ne.
Qed.

Lemma wake_all woken : forall m t k, NoDup woken.*1 -> (t, k) ∈ woken -> wake m woken !! t = Some (Woken k).
Proof.
  induction woken as [|w woken IH]; intros m t k Hnd Hin; [by apply not_elem_of_nil in Hin|].
  change (wake m (w :: woken)) with (wake (<[w.1 := Woken w.2]> m) woken). cbn in Hnd. apply NoDup_cons in Hnd as [Hw Hnd].
  apply elem_of_cons in Hin as [<-|Hin]; [|by apply IH]. rewrite wake_ne by done. by rewrite lookup_insert_eq.
Qed.

Lemma do_wake_fifo s ww s' w : __rwsem_do_wake s ww = Some (s', w) -> wait_list s = w ++ wait_list s'.
Proof.
  unfold __rwsem_do_wake. destruct (wait_list s) as [|[t []] l] eqn:El; [done| |].
  - pose proof (wake_readers_spec ((t, READ) :: l)) as Hs. destruct (wake_readers _) as [woken rest].
    destruct Hs as (E & _). by intros [= <- <-].
  - destruct ww; intros [= <- <-]; [done|]. by rewrite El.
Qed.

Lemma up_read_pop s s' w : __up_read s = Some (s', w) -> wait_list s = w ++ wait_list s'.
Proof.
  unfold __up_read, __rwsem_wake_one_writer. cbn [wait_list activity]. destruct (_ && _); [|by intros [= <- <-]].
  destruct (wait_list s); [done|]. by intros [= <- <-].
Qed.

Lemma up_write_pop s s' w : __up_write s = Some (s', w) -> wait_list s = w ++ wait_list s'.
Proof.
  unfold __up_write. cbn [wait_list]. destruct (negb _); [|by intros [= <- <-]].
  by intros E%do_wake_fifo.
Qed.

Lemma downgrade_pop s s' w : __downgrade_write s = Some (s', w) -> wait_list s = w ++ wait_list s'.
Proof.
  unfold __downgrade_write. cbn [wait_list]. destruct (negb _); [|by intros [= <- <-]].
  by intros E%do_wake_fifo.
Qed.

(** Waking takes the waiters off the front. *)
Lemma pop_fifo s m m' s' w : NoDup (wait_list s).*1 -> wait_list s = w ++ wait_list s' ->
  fifo (mk_sys s m) (mk_sys s' (wake m' w)).
Proof.
  intros Hnd E. right. exists w. split; [done|]. intros t k Hin. cbn [tasks]. apply wake_all; [|done].
  rewrite E, fmap_app in Hnd. by apply NoDup_app in Hnd as [? _].
Qed.

Lemma rwstep_fifo x x' : rw_inv x -> rwstep x x' -> fifo x x'.
Proof.
  intros (_ & [Hnd _] & _) Hst.
  assert (Hid : forall s s' m m', wait_list s' = wait_list s -> fifo (mk_sys s m) (mk_sys s' m')).
  { intros s s' m m' E. right. exists []. cbn. split; [done|]. by intros ? ? ?%not_elem_of_nil. }
  destruct Hst as [s m t s' g Hn Ht E|s m t s' r Hn Ht E|s m t s' g Hn Ht E
    |s m t s' r Hn Ht E|s m t k Ht|s m t s' w Ht E|s m t s' w Ht E|s m t s' w Ht E]; cbn [rw_sem] in Hnd.
  - unfold __down_read in E. destruct (_ && _); injection E as <- <-; [by apply Hid|].
    left. exists t, READ. cbn. by rewrite lookup_insert_eq.
  - unfold __down_read_trylock in E. destruct (_ && _); injection E as <- <-; by apply Hid.
  - unfold __down_write, __down_write_nested in E. destruct (_ && _); injection E as <- <-; [by apply Hid|].
    left. exists t, WRITE. cbn. by rewrite lookup_insert_eq.
  - unfold __down_write_trylock in E. destruct (_ && _); injection E as <- <-; by apply Hid.
  - by apply Hid.
  - apply pop_fifo; [done|by apply up_read_pop].
  - apply pop_fifo; [done|by apply up_write_pop].
  - apply pop_fifo; [done|by apply downgrade_pop].
Qed.

(** ** Liveness: with no new arrivals the queue drains *)

Inductive drain : rwsys -> rwsys -> Prop :=
  | dr_return s m t k :
      m !! t = Some (Woken k) -> drain (mk_sys s m) (mk_sys s (<[t := Holds k]> m))
  | dr_up_read s m t s' w :
      m !! t = Some (Holds READ) -> __up_read s = Some (s', w) ->
      drain (mk_sys s m) (mk_sys s' (wake (delete t m) w))
  | dr_up_write s m t s' w :
      m !! t = Some (Holds WRITE) -> __up_write s = Some (s', w) ->
      drain (mk_sys s m) (mk_sys s' (wake (delete t m) w)).

Lemma drain_rwstep x x' : drain x x' -> rwstep x x'.
Proof. destruct 1; [by apply rs_return|by eapply rs_up_read|by eapply rs_up_write]. Qed.

Definition any (s : tstate) : bool := true.
Definition not_holding (s : tstate) : bool := match s with Holds _ => false | _ => true end.

(** Twice for a task that has to return and release, once for one that has to release. *)
Definition work (m : gmap nat tstate) : Z := cnt any m + cnt not_holding m.

Lemma wake_work woken : forall m, (forall w, w ∈ woken -> exists s, m !! w.1 = Some s /\ not_holding s = true) ->
  work (wake m woken) = work m.
Proof.
  induction woken as [|w woken IH]; intros m Hw; [done|].
  change (wake m (w :: woken)) with (wake (<[w.1 := Woken w.2]> m) woken).
  destruct (Hw w) as (s & Hs & Hh); [left|]. rewrite IH.
  - unfold work. rewrite !(cnt_over _ _ _ _ _ Hs), Hh. cbn. lia.
  - intros w' Hw'. destruct (decide (w'.1 = w.1)) as [->|Hne].
    + rewrite lookup_insert_eq. by eexists.
    + rewrite lookup_insert_ne by done. apply Hw. by right.
Qed.

(** Whatever is woken was asleep in the queue. *)
Lemma woken_sleeps m t w rest : queue_ok (w ++ rest) m -> m !! t = Some (Holds READ) \/ m !! t = Some (Holds WRITE) ->
  forall x, x ∈ w -> exists s, delete t m !! x.1 = Some s /\ not_holding s = true.
Proof.
  intros [_ Hq] Ht [t' k] Hin. assert (E : m !! t' = Some (Waiting k)) by (apply Hq, elem_of_app; by left).
  exists (Waiting k). split; [|done]. rewrite lookup_delete_ne; [done|]. intros Et. cbn in Et. subst t'. destruct Ht; congruence.
Qed.

Lemma drain_work x x' : rw_inv x -> drain x x' -> work (tasks x') = work (tasks x) - 1.
Proof.
  intros (_ & Hq & _) Hd. destruct Hd as [s m t k Ht|s m t s' w Ht E|s m t s' w Ht E]; cbn [tasks rw_sem] in *.
  - unfold work. rewrite !(cnt_over _ _ _ _ _ Ht). cbn [any not_holding Z.b2z]. lia.
  - rewrite (up_read_pop _ _ _ E) in Hq. rewrite wake_work by (eapply woken_sleeps; eauto).
    unfold work. rewrite !(cnt_delete _ _ _ _ Ht). cbn [any not_holding Z.b2z]. lia.
  - rewrite (up_write_pop _ _ _ E) in Hq. rewrite wake_work by (eapply woken_sleeps; eauto).
    unfold work. rewrite !(cnt_delete _ _ _ _ Ht). cbn [any not_holding Z.b2z]. lia.
Qed.

Lemma work_nonneg m : 0 <= work m.
Proof. pose proof (cnt_nonneg any m). pose proof (cnt_nonneg not_holding m). unfold work. lia. Qed.

Lemma drain_sn n : forall x, rw_inv x -> work (tasks x) < Z.of_nat n -> sn drain x.
Proof.
  induction n as [|n IH]; intros x Hi Hn; [pose proof (work_nonneg (tasks x)); lia|].
  constructor. intros x' Hd. apply IH; [by apply (rwstep_inv x); [apply drain_rwstep|]|].
  rewrite (drain_work x x') by done. lia.
Qed.

(** A waiter implies a holder. *)
Lemma waiting_held x t k : rw_inv x -> tasks x !! t = Some (Waiting k) ->
  exists t' s, tasks x !! t' = Some s /\ reads s || writes s = true.
Proof.
  intros ((Hl & Hz & _) & [_ Hq] & _) Ht. apply Hq in Ht.
  assert (Hne : activity (rw_sem x) <> 0) by (intros E; rewrite (Hz E) in Ht; by apply not_elem_of_nil in Ht).
  pose proof (cnt_pos reads (tasks x)) as Hr. pose proof (cnt_pos writes (tasks x)) as Hw.
  destruct Hl as [(_ & _ & E)|(E & ? & _)].
  - destruct Hw as (t' & s & ? & Hs); [lia|]. exists t', s. by rewrite Hs, orb_true_r.
  - destruct Hr as (t' & s & ? & Hs); [lia|]. exists t', s. by rewrite Hs.
Qed.

Lemma drain_nf x : rw_inv x -> nf drain x -> x = rw_init.
Proof.
  intros Hi Hnf. assert (Hg : forall t s, tasks x !! t = Some s -> reads s || writes s = true -> False).
  { intros t s Ht Hs. destruct x as [s0 m]. cbn [tasks] in Ht. apply Hnf. destruct s as [k|k|[]]; [by destruct k| | |].
    - eexists. exact (dr_return s0 m t k Ht).
    - destruct (up_read_ok s0 m t Hi Ht) as (s' & w & E & _). eexists. exact (dr_up_read s0 m t s' w Ht E).
    - destruct (up_write_ok s0 m t Hi Ht) as (s' & w & E & _). eexists. exact (dr_up_write s0 m t s' w Ht E). }
  assert (Em : tasks x = ∅).
  { apply map_empty. intros t. destruct (tasks x !! t) as [s|] eqn:Ht; [|done]. exfalso.
    destruct s as [k|k|k]; [|apply (Hg t _ Ht); by destruct k..].
    destruct (waiting_held x t k Hi Ht) as (t' & s & ? & ?). by apply (Hg t' s). }
  destruct Hi as ((Hl & Hz & _) & _ & _). destruct x as [[a l] m]. cbn [tasks rw_sem activity wait_list] in *.
  subst m. assert (Ea : a = 0) by (change (cnt reads ∅) with 0 in Hl; change (cnt writes ∅) with 0 in Hl; lia).
  subst a. by rewrite (Hz eq_refl).
Qed.

(** ** Correctness *)

(** C25: in every state reachable by any interleaving of acquisitions, try-locks,
    releases, downgrades and wake-ups: a task that has the semaphore for writing
    has it alone, [activity] is the number of readers or -1 for a writer, the wait
    list holds exactly the sleeping tasks, no release or downgrade by a holder
    touches an empty list (in particular [__rwsem_wake_one_writer] only ever wakes
    a writer), and the list is first in, first out: a step either appends one newcomer at its
    tail, or takes waiters off its front, every one of which is woken. *)
Theorem rwsem_exclusion x : rtc rwstep rw_init x ->
  (forall t t' s s', tasks x !! t = Some s -> tasks x !! t' = Some s' ->
     writes s = true -> reads s' || writes s' = true -> t' = t) /\
  (activity (rw_sem x) = -1 /\ (exists t s, tasks x !! t = Some s /\ writes s = true) \/
   activity (rw_sem x) = cnt reads (tasks x)) /\
  (forall t k, (t, k) ∈ wait_list (rw_sem x) <-> tasks x !! t = Some (Waiting k)) /\
  (forall t k, tasks x !! t = Some (Holds k) ->
     match k with
     | READ => exists s' w, __up_read (rw_sem x) = Some (s', w) /\ Forall (fun w => w.2 = WRITE) w
     | WRITE => is_Some (__up_write (rw_sem x)) /\ is_Some (__downgrade_write (rw_sem x))
     end) /\
  (forall x', rwstep x x' -> fifo x x').
Proof.
  intros Hi%rw_reach_inv. pose proof Hi as ((Hl & Hz & Hh) & [Hnd Hq] & Hp).
  pose proof (cnt_nonneg reads (tasks x)) as Hr. pose proof (cnt_nonneg writes (tasks x)) as Hw. split_and!.
  - intros t t' s s' Ht Ht' Hs Hs'. apply orb_true_iff in Hs' as [Hs'|Hs'].
    + destruct Hl as [(_ & E & _)|(_ & _ & E)];
        [by rewrite (cnt_zero _ _ E t' s') in Hs'|by rewrite (cnt_zero _ _ E t s) in Hs].
    + apply (cnt_one writes (tasks x) t' t s' s); try done. lia.
  - destruct Hl as [(Ha & _ & E)|(E & _)]; [left|by right]. split; [done|]. apply cnt_pos. lia.
  - done.
  - intros t k Ht. destruct x as [s m]. cbn [rw_sem tasks] in *. destruct k.
    + destruct (holds_activity s m t READ Hi Ht) as (Ha & H1 & _).
      destruct (up_read_ok s m t Hi Ht) as (s' & w & E & _). exists s', w. split; [done|].
      unfold __up_read, __rwsem_wake_one_writer in E. cbn [wait_list activity] in E.
      destruct (_ && _); [|by injection E as <- <-]. destruct (wait_list s) as [|y l]; [done|].
      injection E as <- <-. apply Forall_singleton. apply (Hh ltac:(lia) y l eq_refl).
    + destruct (up_write_ok s m t Hi Ht) as (? & ? & -> & _). destruct (downgrade_ok s m t Hi Ht) as (? & ? & -> & _). eauto.
  - intros x'. by apply rwstep_fifo.
Qed.

(** A reader holds the semaphore, a writer and a reader wait behind it. *)
Definition rw_demo : rwsys :=
  mk_sys (mk_sem 1 [(1%nat, WRITE); (2%nat, READ)])
         (<[2%nat := Waiting READ]> (<[1%nat := Waiting WRITE]> (<[0%nat := Holds READ]> ∅))).

Lemma rw_demo_reachable : rtc rwstep rw_init rw_demo.
Proof.
  eapply rtc_l; [apply (rs_down_read __init_rwsem ∅ 0 (mk_sem 1 []) true); [done|done|reflexivity]|].
  eapply rtc_l; [apply (rs_down_write _ _ 1 (mk_sem 1 [(1%nat, WRITE)]) false); [done|done|reflexivity]|].
  eapply rtc_l; [apply (rs_down_read _ _ 2 (mk_sem 1 [(1%nat, WRITE); (2%nat, READ)]) false); [done|done|reflexivity]|].
  apply rtc_refl.
Qed.

Lemma rwsem_exclusion_witness :
  exists s' w, __up_read (rw_sem rw_demo) = Some (s', w) /\ Forall (fun w => w.2 = WRITE) w.
Proof.
  destruct (rwsem_exclusion rw_demo rw_demo_reachable) as (_ & _ & _ & H & _). exact (H 0%nat READ eq_refl).
Defined.

(** C26: no waiter is forgotten. From every reachable state, when holders release
    and woken tasks run but nobody new arrives, there is no infinite run, and every
    run that can go no further ends with the semaphore free and nobody waiting:
    every waiter was granted the semaphore and released it. *)
Theorem rwsem_drains x : rtc rwstep rw_init x ->
  sn drain x /\ forall x', rtc drain x x' -> nf drain x' -> x' = rw_init.
Proof.
  intros Hi%rw_reach_inv. split.
  - apply (drain_sn (S (Z.to_nat (work (tasks x))))); [done|]. pose proof (work_nonneg (tasks x)). lia.
  - intros x' Hd. induction Hd as [x|x y z Hst _ IH]; [by apply drain_nf|].
    apply IH. by apply (rwstep_inv x); [apply drain_rwstep|].
Qed.

Lemma rwsem_drains_witness : sn drain rw_demo.
Proof. destruct (rwsem_drains rw_demo rw_demo_reachable) as [H _]. exact H. Defined.
