(* ===== verification/Semaphore.v ===== *)
(** * Counting semaphores: kernel/semaphore.c, include/linux/semaphore.h, with
    [signal_pending_state] of include/linux/sched.h and [schedule_timeout] of
    kernel/timer.c.

    A definition is what a routine does between taking and dropping [lock];
    the loop of [__down_common] drops it to sleep, so one iteration is one
    definition and the sleep is a transition of the system below. *)
From S2P Require Import Prelude.
Open Scope kernel_scope.

Definition TASK_INTERRUPTIBLE : Z := 1.
Definition TASK_UNINTERRUPTIBLE : Z := 2.
Definition TASK_WAKEKILL : Z := 128.
Definition TASK_KILLABLE : Z := Z.lor TASK_WAKEKILL TASK_UNINTERRUPTIBLE.
Definition MAX_SCHEDULE_TIMEOUT : Z := 2 ^ 31 - 1.
Definition ETIME : Z := 62.

(** [wait_list] names the sleeping tasks; a waiter's [up] field is kept with
    its task, on whose stack it lives. *)
Record semaphore := mk_semaphore { count : Z; wait_list : list nat }.

Definition sema_init (val : Z) : semaphore := mk_semaphore (u32 val) [].

(** [pending]: a signal is pending; [fatal]: it is fatal. *)
Definition signal_pending_state (state : Z) (pending fatal : bool) : bool :=
  if Z.land state (Z.lor TASK_INTERRUPTIBLE TASK_WAKEKILL) =? 0 then false
  else if negb pending then false
  else negb (Z.land state TASK_INTERRUPTIBLE =? 0) || fatal.

(** [j0] and [j1] are the values of [jiffies] before and after the sleep. *)
Definition schedule_timeout (timeout j0 j1 : Z) : Z :=
  if timeout =? MAX_SCHEDULE_TIMEOUT then timeout
  else if timeout <? 0 then 0
  else let expire := u32 (timeout + j0) in
       let timeout := s32 (expire - j1) in
       if timeout <? 0 then 0 else timeout.

Inductive down_result : Type :=
  | Acquired                (** the function returns 0 *)
  | Failed (e : Z)          (** it returns the error *)
  | Asleep (timeout : Z).   (** it called [schedule_timeout] *)

Definition list_del (sem : semaphore) (task : nat) : semaphore :=
  mk_semaphore (count sem) (filter (fun t => t <> task) (wait_list sem)).

(** The loop of [__down_common] from its start to the sleep; after the sleep. *)
Definition down_iter (sem : semaphore) (task : nat) (sig : bool) (timeout : Z) : semaphore * down_result :=
  if sig then (list_del sem task, Failed (- EINTR))
  else if timeout <=? 0 then (list_del sem task, Failed (- ETIME))
  else (sem, Asleep timeout).

Definition __down_common (sem : semaphore) (task : nat) (sig : bool) (timeout : Z)
    : semaphore * down_result :=
  down_iter (mk_semaphore (count sem) (wait_list sem ++ [task])) task sig timeout.

Definition down_resume (sem : semaphore) (task : nat) (up sig : bool) (timeout : Z)
    : semaphore * down_result :=
  if up then (sem, Acquired) else down_iter sem task sig timeout.

(** The fast path all four routines share. *)
Definition down_or (sem : semaphore) (slow : semaphore * down_result) : semaphore * down_result :=
  if 0 <? count sem then (mk_semaphore (count sem -u 1) (wait_list sem), Acquired) else slow.

Definition down (sem : semaphore) (task : nat) (pending fatal : bool) : semaphore * down_result :=
  down_or sem (__down_common sem task (signal_pending_state TASK_UNINTERRUPTIBLE pending fatal)
                 MAX_SCHEDULE_TIMEOUT).
Definition down_interruptible (sem : semaphore) (task : nat) (pending fatal : bool)
    : semaphore * down_result :=
  down_or sem (__down_common sem task (signal_pending_state TASK_INTERRUPTIBLE pending fatal)
                 MAX_SCHEDULE_TIMEOUT).
Definition down_killable (sem : semaphore) (task : nat) (pending fatal : bool)
    : semaphore * down_result :=
  down_or sem (__down_common sem task (signal_pending_state TASK_KILLABLE pending fatal)
                 MAX_SCHEDULE_TIMEOUT).
Definition down_timeout (sem : semaphore) (task : nat) (jiffies : Z) (pending fatal : bool)
    : semaphore * down_result :=
  down_or sem (__down_common sem task (signal_pending_state TASK_UNINTERRUPTIBLE pending fatal) jiffies).

(** 0: acquired, 1: not. *)
Definition down_trylock (sem : semaphore) : semaphore * Z :=
  let c := s32 (count sem -u 1) in
  (if 0 <=? c then mk_semaphore c (wait_list sem) else sem, if c <? 0 then 1 else 0).

(** The waiter whose [up] field is set, if there is one. *)
Definition __up (sem : semaphore) : option (semaphore * nat) :=
  match wait_list sem with
  | [] => None
  | t :: rest => Some (mk_semaphore (count sem) rest, t)
  end.

Definition up (sem : semaphore) : semaphore * option nat :=
  match __up sem with
  | None => (mk_semaphore (count sem +u 1) (wait_list sem), None)
  | Some (sem', t) => (sem', Some t)
  end.

(** ** The system *)

(** What a task called, with the state it sleeps in and its first timeout. *)
Inductive variant : Type := Down | DownInterruptible | DownKillable | DownTimeout (jiffies : Z).

Definition state_of (v : variant) : Z :=
  match v with
  | Down | DownTimeout _ => TASK_UNINTERRUPTIBLE
  | DownInterruptible => TASK_INTERRUPTIBLE
  | DownKillable => TASK_KILLABLE
  end.

Definition call (v : variant) (sem : semaphore) (task : nat) (pending fatal : bool)
    : semaphore * down_result :=
  match v with
  | Down => down sem task pending fatal
  | DownInterruptible => down_interruptible sem task pending fatal
  | DownKillable => down_killable sem task pending fatal
  | DownTimeout j => down_timeout sem task j pending fatal
  end.

(** A sleeping task: its call, its waiter's [up] field, the timeout left. *)
Record sleeper := mk_sleeper { sl_call : variant; sl_up : bool; sl_timeout : Z }.

(** [acquired] and [ups] count the successful downs and the calls of [up]. *)
Record semsys := mk_sys { s_sem : semaphore; sleepers : gmap nat sleeper; acquired : Z; ups : Z }.

Definition settle (v : variant) (m : gmap nat sleeper) (t : nat) (acq : Z) (r : down_result)
    : gmap nat sleeper * Z :=
  match r with
  | Acquired => (delete t m, acq + 1)
  | Failed _ => (delete t m, acq)
  | Asleep timeout => (<[t := mk_sleeper v false timeout]> m, acq)
  end.

Definition grant (m : gmap nat sleeper) (w : option nat) : gmap nat sleeper :=
  match w with
  | None => m
  | Some t => alter (fun sl => mk_sleeper (sl_call sl) true (sl_timeout sl)) t m
  end.

(** [up] is not called [2 ^ 32] times more often than the semaphore is taken. *)
Inductive semstep : semsys -> semsys -> Prop :=
  | ss_down v s m a u t pending fatal s' r :
      m !! t = None -> call v s t pending fatal = (s', r) ->
      semstep (mk_sys s m a u) (mk_sys s' (settle v m t a r).1 (settle v m t a r).2 u)
  | ss_wake s m a u t sl pending fatal j0 j1 s' r :
      m !! t = Some sl ->
      down_resume s t (sl_up sl) (signal_pending_state (state_of (sl_call sl)) pending fatal)
        (schedule_timeout (sl_timeout sl) j0 j1) = (s', r) ->
      semstep (mk_sys s m a u) (mk_sys s' (settle (sl_call sl) m t a r).1 (settle (sl_call sl) m t a r).2 u)
  | ss_trylock s m a u s' r :
      down_trylock s = (s', r) ->
      semstep (mk_sys s m a u) (mk_sys s' m (if r =? 0 then a + 1 else a) u)
  | ss_up s m a u s' w :
      count s < 2 ^ 32 - 1 -> up s = (s', w) ->
      semstep (mk_sys s m a u) (mk_sys s' (grant m w) a (u + 1)).

Definition sem_start (val : Z) : semsys := mk_sys (sema_init val) ∅ 0 0.

(** ** The invariant *)

Definition queue_ok (l : list nat) (m : gmap nat sleeper) : Prop :=
  NoDup l /\ forall t, t ∈ l <-> exists sl, m !! t = Some sl /\ sl_up sl = false.

(** Only [down_timeout] sleeps with a limit. *)
Definition sleeper_ok (sl : sleeper) : Prop :=
  match sl_call sl with DownTimeout _ => True | _ => sl_timeout sl = MAX_SCHEDULE_TIMEOUT end.

Definition sem_inv (val : Z) (x : semsys) : Prop :=
  is_u32 (count (s_sem x)) /\
  count (s_sem x) + acquired x + cnt sl_up (sleepers x) = val + ups x /\
  queue_ok (wait_list (s_sem x)) (sleepers x) /\
  (wait_list (s_sem x) <> [] -> count (s_sem x) = 0) /\
  forall t sl, sleepers x !! t = Some sl -> sleeper_ok sl.

(** What a call may answer. *)
Definition answer_ok (v : variant) (r : down_result) : Prop :=
  match v, r with
  | Down, Failed _ => False
  | DownTimeout _, Failed e => e = - ETIME
  | _, Failed e => e = - EINTR
  | DownTimeout _, _ => True
  | _, Asleep timeout => timeout = MAX_SCHEDULE_TIMEOUT
  | _, Acquired => True
  end.

Lemma uninterruptible pending fatal : signal_pending_state TASK_UNINTERRUPTIBLE pending fatal = false.
Proof. done. Qed.

Lemma iter_answer v s t pending fatal timeout :
  (forall j, v <> DownTimeout j) -> timeout = MAX_SCHEDULE_TIMEOUT ->
  answer_ok v (down_iter s t (signal_pending_state (state_of v) pending fatal) timeout).2.
Proof.
  intros Hv ->. unfold down_iter. change (MAX_SCHEDULE_TIMEOUT <=? 0) with false.
  destruct v as [| | |j]; [done|destruct (signal_pending_state _ _ _); done..|by destruct (Hv j)].
Qed.

Lemma iter_answer_timeout j s t pending fatal timeout :
  answer_ok (DownTimeout j) (down_iter s t (signal_pending_state TASK_UNINTERRUPTIBLE pending fatal) timeout).2.
Proof. unfold down_iter. rewrite uninterruptible. by destruct (_ <=? 0). Qed.

Lemma call_answer v s t pending fatal : answer_ok v (call v s t pending fatal).2.
Proof.
  destruct v; unfold call, down, down_interruptible, down_killable, down_timeout, down_or;
    (destruct (0 <? count s); [done|]); unfold __down_common;
    first [by apply iter_answer_timeout | by apply iter_answer].
Qed.

Lemma resume_answer sl s t pending fatal j0 j1 : sleeper_ok sl ->
  answer_ok (sl_call sl) (down_resume s t (sl_up sl)
    (signal_pending_state (state_of (sl_call sl)) pending fatal) (schedule_timeout (sl_timeout sl) j0 j1)).2.
Proof.
  intros Hs. unfold down_resume. destruct (sl_up sl); [by destruct (sl_call sl)|].
  unfold sleeper_ok in Hs. destruct (sl_call sl) eqn:Ev; [..|apply iter_answer_timeout];
    (apply iter_answer; [done|]; by rewrite Hs).
Qed.

Lemma answer_sleeper v timeout : answer_ok v (Asleep timeout) -> sleeper_ok (mk_sleeper v false timeout).
Proof. by destruct v. Qed.

Lemma queue_del l m t : queue_ok l m -> queue_ok (filter (fun t' => t' <> t) l) (delete t m).
Proof.
  intros [Hnd Hq]. split; [by apply NoDup_filter|]. intros t'. rewrite list_elem_of_filter, Hq.
  destruct (decide (t' = t)) as [->|Hne]; [rewrite lookup_delete_eq|rewrite lookup_delete_ne by done].
  - split; [by intros [? _]|by intros (? & ? & _)].
  - split; [by intros [_ ?]|done].
Qed.

Lemma queue_keep l m t : queue_ok l m -> t ∉ l -> queue_ok l (delete t m).
Proof.
  intros Hq Ht. apply (queue_del l m t) in Hq. replace (filter (fun t' => t' <> t) l) with l in Hq; [done|].
  clear Hq. induction l as [|x l IH]; [done|]. apply not_elem_of_cons in Ht as [? ?].
  rewrite filter_cons_True by done. by rewrite <- IH.
Qed.

Lemma queue_snoc l m t sl : queue_ok l m -> m !! t = None -> sl_up sl = false ->
  queue_ok (l ++ [t]) (<[t := sl]> m).
Proof.
  intros [Hnd Hq] Hn Hu. assert (Ht : t ∉ l) by (intros (? & ? & ?)%Hq; congruence). split.
  - apply NoDup_app. split; [done|]. split; [|apply NoDup_singleton]. by intros x Hx ->%list_elem_of_singleton.
  - intros t'. rewrite elem_of_app, list_elem_of_singleton, Hq. destruct (decide (t' = t)) as [->|Hne].
    + rewrite lookup_insert_eq. split; [by exists sl|by right].
    + rewrite lookup_insert_ne by done. split; [by intros [|]|by left].
Qed.

Lemma queue_again l m t sl sl' : queue_ok l m -> m !! t = Some sl -> sl_up sl = false -> sl_up sl' = false ->
  queue_ok l (<[t := sl']> m).
Proof.
  intros [Hnd Hq] Ht Hu Hu'. split; [done|]. intros t'. rewrite Hq. destruct (decide (t' = t)) as [->|Hne].
  - rewrite lookup_insert_eq. split; [by exists sl'|by exists sl].
  - by rewrite lookup_insert_ne.
Qed.

Lemma filter_snoc (l : list nat) t : t ∉ l -> filter (fun t' => t' <> t) (l ++ [t]) = l.
Proof.
  intros Ht. rewrite filter_app, (filter_cons_False _ t) by tauto. rewrite filter_nil, app_nil_r.
  induction l as [|x l IH]; [done|]. apply not_elem_of_cons in Ht as [? ?].
  rewrite filter_cons_True by done. by rewrite IH.
Qed.

Lemma iter_cases s t sig timeout s' r : down_iter s t sig timeout = (s', r) ->
  (exists e, r = Failed e /\ s' = list_del s t) \/ (exists timeout', r = Asleep timeout' /\ s' = s).
Proof. unfold down_iter. destruct sig, (timeout <=? 0); intros [= <- <-]; eauto. Qed.

Lemma call_cases v s t pending fatal s' r : call v s t pending fatal = (s', r) ->
  0 < count s /\ r = Acquired /\ s' = mk_semaphore (count s -u 1) (wait_list s) \/
  count s <= 0 /\
    let s1 := mk_semaphore (count s) (wait_list s ++ [t]) in
    ((exists e, r = Failed e /\ s' = list_del s1 t) \/ (exists timeout', r = Asleep timeout' /\ s' = s1)).
Proof.
  intros E. assert (exists sig timeout, down_or s (__down_common s t sig timeout) = (s', r)) as (sig & timeout & E').
  { destruct v; eauto. }
  unfold down_or in E'. destruct (Z.ltb_spec 0 (count s)).
  - injection E' as <- <-. by left.
  - right. split; [done|]. by apply iter_cases in E'.
Qed.

Lemma sleepers_delete (m : gmap nat sleeper) t : (forall t sl, m !! t = Some sl -> sleeper_ok sl) ->
  forall t' sl, delete t m !! t' = Some sl -> sleeper_ok sl.
Proof. intros H t' sl [_ Hs]%lookup_delete_Some. by apply (H t'). Qed.

Lemma sleepers_insert (m : gmap nat sleeper) t sl0 : (forall t sl, m !! t = Some sl -> sleeper_ok sl) ->
  sleeper_ok sl0 -> forall t' sl, <[t := sl0]> m !! t' = Some sl -> sleeper_ok sl.
Proof. intros H H0 t' sl [[<- <-]|[_ Hs]]%lookup_insert_Some; [done|by apply (H t')]. Qed.

Lemma down_step_inv val v s m a u t pending fatal s' r : sem_inv val (mk_sys s m a u) -> m !! t = None ->
  call v s t pending fatal = (s', r) ->
  sem_inv val (mk_sys s' (settle v m t a r).1 (settle v m t a r).2 u).
Proof.
  intros (Hc & Hs & Hq & Hz & Hok) Hn E. cbn [s_sem sleepers acquired ups] in *.
  pose proof (call_answer v s t pending fatal) as Ha. rewrite E in Ha. cbn [snd] in Ha.
  assert (Ht : t ∉ wait_list s) by (intros (? & ? & ?)%Hq; congruence). unfold sem_inv.
  apply call_cases in E as [(Hp & -> & ->)|(Hp & [(e & -> & ->)|(tm & -> & ->)])];
    cbn [settle fst snd s_sem sleepers acquired ups list_del count wait_list].
  - rewrite delete_id by done. unfold is_u32 in *. rewrite u32_id by (unfold is_u32; lia).
    split_and!; try done; try lia. by intros Hne%Hz; lia.
  - rewrite delete_id by done. rewrite filter_snoc by done. done.
  - assert (Ec : count s = 0) by (unfold is_u32 in Hc; lia).
    rewrite cnt_new by done. cbn [sl_up Z.b2z]. rewrite Z.add_0_r. split_and!; try done.
    + by apply queue_snoc.
    + apply sleepers_insert; [done|]. by apply answer_sleeper.
Qed.

Lemma wake_step_inv val s m a u t sl pending fatal j0 j1 s' r : sem_inv val (mk_sys s m a u) ->
  m !! t = Some sl ->
  down_resume s t (sl_up sl) (signal_pending_state (state_of (sl_call sl)) pending fatal)
    (schedule_timeout (sl_timeout sl) j0 j1) = (s', r) ->
  sem_inv val (mk_sys s' (settle (sl_call sl) m t a r).1 (settle (sl_call sl) m t a r).2 u).
Proof.
  intros (Hc & Hs & Hq & Hz & Hok) Ht E. cbn [s_sem sleepers acquired ups] in *.
  pose proof (resume_answer sl s t pending fatal j0 j1 (Hok _ _ Ht)) as Ha. rewrite E in Ha. cbn [snd] in Ha.
  unfold down_resume in E. unfold sem_inv. pose proof (cnt_delete sl_up m t sl Ht) as Ed.
  destruct (sl_up sl) eqn:Eu; [injection E as <- <-|apply iter_cases in E as [(e & -> & ->)|(tm & -> & ->)]];
    cbn [settle fst snd s_sem sleepers acquired ups list_del count wait_list Z.b2z] in *.
  - split_and!; try done; [lia| |by apply sleepers_delete].
    apply queue_keep; [done|]. intros (? & ? & ?)%Hq. congruence.
  - split_and!; try done; [lia|by apply queue_del| |by apply sleepers_delete].
    intros Hne. apply Hz. intros E. by rewrite E in Hne.
  - rewrite (cnt_over _ _ _ _ _ Ht), Eu. cbn [sl_up Z.b2z]. split_and!; try done; [lia| |].
    + by apply (queue_again _ _ _ sl).
    + apply sleepers_insert; [done|]. by apply answer_sleeper.
Qed.

Lemma up_step_inv val s m a u s' w : sem_inv val (mk_sys s m a u) -> count s < 2 ^ 32 - 1 ->
  up s = (s', w) -> sem_inv val (mk_sys s' (grant m w) a (u + 1)).
Proof.
  intros (Hc & Hs & Hq & Hz & Hok) Hlt E. cbn [s_sem sleepers acquired ups] in *.
  unfold up, __up in E. unfold sem_inv. destruct (wait_list s) as [|t rest] eqn:El.
  - injection E as <- <-. cbn [s_sem sleepers acquired ups count wait_list grant].
    unfold is_u32 in *. rewrite u32_id by (unfold is_u32; lia). split_and!; try done; lia.
  - injection E as <- <-. cbn [s_sem sleepers acquired ups count wait_list grant].
    destruct Hq as [[Ht Hnd]%NoDup_cons Hq]. destruct (proj1 (Hq t)) as (sl & Em & Eu); [left|].
    set (sl' := mk_sleeper (sl_call sl) true (sl_timeout sl)).
    assert (Ea : alter (fun sl => mk_sleeper (sl_call sl) true (sl_timeout sl)) t m = <[t := sl']> m).
    { apply map_eq. intros t'. destruct (decide (t' = t)) as [->|].
      - by rewrite lookup_alter_eq, lookup_insert_eq, Em.
      - by rewrite lookup_alter_ne, lookup_insert_ne. }
    rewrite Ea, (cnt_over _ _ _ _ _ Em), Eu. cbn [sl' sl_up Z.b2z]. split_and!; try done; [lia| | |].
    + split; [done|]. intros t'. destruct (decide (t' = t)) as [->|Hne].
      * rewrite lookup_insert_eq. split; [done|]. intros (? & [= <-] & ?). done.
      * rewrite lookup_insert_ne by done. rewrite <- Hq, elem_of_cons. split; [by right|by intros [|]].
    + intros _. by apply Hz.
    + apply sleepers_insert; [done|]. exact (Hok t sl Em).
Qed.

Lemma trylock_step_inv val s m a u s' r : sem_inv val (mk_sys s m a u) -> down_trylock s = (s', r) ->
  sem_inv val (mk_sys s' m (if r =? 0 then a + 1 else a) u).
Proof.
  intros (Hc & Hs & Hq & Hz & Hok) E. cbn [s_sem sleepers acquired ups] in *.
  unfold down_trylock in E. destruct (Z.leb_spec 0 (s32 (count s -u 1))) as [Hp|Hp].
  - destruct (Z.ltb_spec (s32 (count s -u 1)) 0); [lia|]. injection E as <- <-. unfold sem_inv.
    cbn [s_sem sleepers acquired ups count wait_list Z.eqb]. unfold is_u32 in *.
    assert (Ec : 0 < count s) by (destruct (Z.eq_dec (count s) 0) as [E0|]; [rewrite E0 in Hp; by vm_compute in Hp|lia]).
    rewrite u32_id in * by (unfold is_u32; lia).
    assert (Es : s32 (count s - 1) = count s - 1) by (unfold s32, swrap in *; Z.to_euclidean_division_equations; lia).
    rewrite Es. split_and!; try done; try lia. by intros Hne%Hz; lia.
  - destruct (Z.ltb_spec (s32 (count s -u 1)) 0); [|lia]. injection E as <- <-. done.
Qed.

Lemma semstep_inv val x x' : semstep x x' -> sem_inv val x -> sem_inv val x'.
Proof.
  intros Hst Hi. destruct Hst as [v s m a u t pending fatal s' r Hn E|s m a u t sl pending fatal j0 j1 s' r Ht E
    |s m a u s' r E|s m a u s' w Hlt E].
  - by apply (down_step_inv val v s m a u t pending fatal).
  - by apply (wake_step_inv val s m a u t sl pending fatal j0 j1).
  - by apply (trylock_step_inv val s).
  - by apply (up_step_inv val s).
Qed.

Lemma sem_reach_inv val x : is_u32 val -> rtc semstep (sem_start val) x -> sem_inv val x.
Proof.
  intros Hv H. assert (Hi : sem_inv val (sem_start val)).
  { unfold sem_inv, sem_start, sema_init. cbn [s_sem sleepers acquired ups count wait_list]. rewrite u32_id by done.
    change (cnt sl_up ∅) with 0. split; [done|]. split; [lia|]. split; [|split; [done|]].
    - split; [constructor|]. intros t. rewrite lookup_empty. split; [by intros ?%not_elem_of_nil|by intros (? & ? & _)].
    - intros t sl. by rewrite lookup_empty. }
  induction H as [|x y z Hst _ IH]; [done|]. apply IH. by apply (semstep_inv val x).
Qed.

(** ** Correctness *)

(** C30: permits are conserved under every interleaving of the four acquiring
    routines, try-locks, releases, time-outs and signals: the count, the successful
    acquisitions and the wake-ups still to be noticed add up to the initial value
    plus the releases, so a failed or interrupted caller neither keeps nor loses a
    permit; nobody sleeps unserved while a permit is free; [down] never fails,
    [down_interruptible] and [down_killable] fail with [-EINTR] only and
    [down_timeout] with [-ETIME] only; a caller that was given a permit returns 0
    even if a signal or the time-out came too; and [up] serves the first waiter. *)
Theorem sem_permits_conserved val x : is_u32 val -> rtc semstep (sem_start val) x ->
  count (s_sem x) + acquired x + cnt sl_up (sleepers x) = val + ups x /\
  acquired x <= val + ups x /\
  (forall t sl, sleepers x !! t = Some sl -> sl_up sl = false -> count (s_sem x) = 0) /\
  (forall v t pending fatal, answer_ok v (call v (s_sem x) t pending fatal).2) /\
  (forall t sl pending fatal j0 j1, sleepers x !! t = Some sl ->
     let r := (down_resume (s_sem x) t (sl_up sl) (signal_pending_state (state_of (sl_call sl)) pending fatal)
                 (schedule_timeout (sl_timeout sl) j0 j1)).2 in
     answer_ok (sl_call sl) r /\ (sl_up sl = true -> r = Acquired)) /\
  (forall t rest, wait_list (s_sem x) = t :: rest ->
     up (s_sem x) = (mk_semaphore 0 rest, Some t) /\ is_Some (sleepers x !! t)).
Proof.
  intros Hv Hr. destruct (sem_reach_inv val x Hv Hr) as (Hc & Hs & [Hnd Hq] & Hz & Hok). unfold is_u32 in Hc.
  pose proof (cnt_nonneg sl_up (sleepers x)). split_and!.
  - done.
  - lia.
  - intros t sl Ht Hu. apply Hz. intros E. assert (Hin : t ∈ wait_list (s_sem x)) by (apply Hq; by exists sl).
    rewrite E in Hin. by apply not_elem_of_nil in Hin.
  - intros. apply call_answer.
  - intros t sl pending fatal j0 j1 Ht r. split; [by apply resume_answer, (Hok t)|].
    unfold r. by intros ->.
  - intros t rest E. unfold up, __up. rewrite E, Hz by by rewrite E. split; [done|].
    destruct (proj1 (Hq t)) as (sl & -> & _); [rewrite E; left|eauto].
Qed.

(** Task 0 has a binary semaphore, task 1 sleeps in [down_timeout]. *)
Definition sem_demo : semsys :=
  mk_sys (mk_semaphore 0 [1%nat]) {[1%nat := mk_sleeper (DownTimeout 50) false 50]} 1 0.

Lemma sem_demo_reachable : rtc semstep (sem_start 1) sem_demo.
Proof.
  eapply rtc_l; [exact (ss_down Down (sema_init 1) ∅ 0 0 0 false false (mk_semaphore 0 []) Acquired eq_refl eq_refl)|].
  eapply rtc_l; [exact (ss_down (DownTimeout 50) (mk_semaphore 0 []) ∅ 1 0 1 true true
                          (mk_semaphore 0 [1%nat]) (Asleep 50) eq_refl eq_refl)|].
  apply rtc_refl.
Qed.

Lemma sem_permits_conserved_witness : up (s_sem sem_demo) = (mk_semaphore 0 [], Some 1%nat).
Proof.
  destruct (sem_permits_conserved 1 sem_demo) as (_ & _ & _ & _ & _ & H); [unfold is_u32; lia|exact sem_demo_reachable|].
  exact (proj1 (H 1%nat [] eq_refl)).
Defined.
