(* ===== verification/Sort.v ===== *)
(** * Heap sort: lib/sort.c.

    The array is a list of bytes; counters are byte offsets, as in the source.
    [cmp_func] is called with two elements and sees their bytes; an access outside
    the array is [None]. *)
From S2P Require Import Prelude.
From Stdlib Require Import Permutation.
Open Scope kernel_scope.

(** ** The code *)

Section Code.
Context (cmp_func : list Z -> list Z -> Z).

(** A [swap_func] gets the memory, the two offsets and the element size. *)
Definition swap_t : Type := list Z -> Z -> Z -> Z -> option (list Z).

Definition u32_swap : swap_t := fun m a b _ =>
  t ← mem_read m a 4; y ← mem_read m b 4; m ← mem_write m a y; mem_write m b t.

(** The [do]/[while] loop; the fuel is the number of bytes. *)
Fixpoint swap_bytes (n : nat) (m : list Z) (a b : Z) : option (list Z) :=
  match n with
  | O => Some m
  | S n' =>
      t ← zget m a; y ← zget m b; m ← zset m a y; m ← zset m b t;
      swap_bytes n' m (a + 1) (b + 1)
  end.

Definition generic_swap : swap_t := fun m a b size => swap_bytes (Z.to_nat (Z.max 1 size)) m a b.

Section Sift.
Context (swap : swap_t) (size : Z).

Definition elem (m : list Z) (off : Z) : option (list Z) := mem_read m off size.

(** The inner loop of both phases: [n] is the end of the heap. *)
Fixpoint sift (fuel : nat) (m : list Z) (r n : Z) : option (list Z) :=
  match fuel with
  | O => None
  | S fuel' =>
      if u32 (r * 2 + size) <? u32 n then
        let c := s32 (r * 2 + size) in
        c ← (if u32 c <? u32 (n - size) then
               x ← elem m c; y ← elem m (c + size);
               Some (if cmp_func x y <? 0 then s32 (c + size) else c)
             else Some c);
        x ← elem m r; y ← elem m c;
        if 0 <=? cmp_func x y then Some m
        else m ← swap m r c size; sift fuel' m c n
      else Some m
  end.

Fixpoint heapify (fuel : nat) (m : list Z) (i n : Z) : option (list Z) :=
  if 0 <=? i then
    match fuel with
    | O => None
    | S fuel' => m ← sift (length m) m i n; heapify fuel' m (s32 (i - size)) n
    end
  else Some m.

Fixpoint extract (fuel : nat) (m : list Z) (i : Z) : option (list Z) :=
  if 0 <? i then
    match fuel with
    | O => None
    | S fuel' => m ← swap m 0 i size; m ← sift (length m) m 0 i; extract fuel' m (s32 (i - size))
    end
  else Some m.

End Sift.

(** The fuel is the number of elements: each loop takes one element per turn. *)
Definition sort (m : list Z) (num size : Z) (swap_func : option swap_t) : option (list Z) :=
  let i := s32 ((num / 2 - 1) * size) in
  let n := s32 (num * size) in
  let swap := match swap_func with
              | Some f => f
              | None => if size =? 4 then u32_swap else generic_swap
              end in
  m ← heapify swap size (Z.to_nat num) m i n;
  extract swap size (Z.to_nat num) m (s32 (n - size)).

End Code.

(** ** Heap sort on a list of elements *)

Section Heap.
Context {A : Type} `{Inhabited A} (ge : A -> A -> bool).

Definition exchange (E : list A) (i j : nat) : list A := <[i := E !!! j]> (<[j := E !!! i]> E).

Definition larger_child (E : list A) (r n : nat) : nat :=
  if decide (2 * r + 2 < n)%nat then
    if ge (E !!! (2 * r + 1)%nat) (E !!! (2 * r + 2)%nat) then 2 * r + 1 else 2 * r + 2
  else 2 * r + 1.

Fixpoint sift_l (fuel : nat) (E : list A) (r n : nat) : list A :=
  match fuel with
  | O => E
  | S fuel' =>
      if decide (2 * r + 1 < n)%nat then
        let c := larger_child E r n in
        if ge (E !!! r) (E !!! c) then E else sift_l fuel' (exchange E r c) c n
      else E
  end.

(** The lengths are the fuel of the byte-level loops, [w] bytes an element. *)
Fixpoint heapify_l (w k : nat) (E : list A) (n : nat) : list A :=
  match k with O => E | S k' => heapify_l w k' (sift_l (w * length E) E k' n) n end.

Fixpoint extract_l (w k : nat) (E : list A) : list A :=
  match k with O => E | S k' => extract_l w k' (sift_l (w * length E) (exchange E 0 k) 0 k) end.

Lemma exchange_length E i j : length (exchange E i j) = length E.
Proof. unfold exchange. by rewrite !length_insert. Qed.

Lemma exchange_lookup E i j k : (i < length E)%nat -> (j < length E)%nat ->
  exchange E i j !!! k = if decide (k = i) then E !!! j else if decide (k = j) then E !!! i else E !!! k.
Proof.
  intros Hi Hj. unfold exchange. destruct (decide (k = i)) as [->|Hk].
  - rewrite list_lookup_total_insert_eq; [done|]. by rewrite length_insert.
  - rewrite list_lookup_total_insert_ne by done. destruct (decide (k = j)) as [->|Hk'].
    + by rewrite list_lookup_total_insert_eq.
    + by rewrite list_lookup_total_insert_ne.
Qed.

Lemma exchange_perm E i j : (i < length E)%nat -> (j < length E)%nat -> exchange E i j ≡ₚ E.
Proof.
  intros Hi Hj. destruct (lookup_lt_is_Some_2 E i Hi) as [x Hx], (lookup_lt_is_Some_2 E j Hj) as [y Hy].
  unfold exchange. rewrite (list_lookup_total_correct E i x), (list_lookup_total_correct E j y) by done.
  by apply Permutation_insert_swap.
Qed.

Lemma larger_child_cases E r n : (2 * r + 1 < n)%nat ->
  let c := larger_child E r n in
  (c = 2 * r + 1 \/ c = 2 * r + 2)%nat /\ (r < c < n)%nat.
Proof.
  intros Hn. unfold larger_child. destruct (decide _); [destruct (ge _ _)|]; cbn; lia.
Qed.

Lemma sift_l_perm n : forall fuel E r, (n <= length E)%nat -> (r < n)%nat ->
  sift_l fuel E r n ≡ₚ E /\ forall k, (n <= k)%nat -> sift_l fuel E r n !!! k = E !!! k.
Proof.
  induction fuel as [|fuel IH]; intros E r Hn Hr; cbn [sift_l]; [done|].
  destruct (decide _) as [Hc|]; [|done]. destruct (larger_child_cases E r n Hc) as (_ & Hcn).
  cbv zeta. destruct (ge _ _); [done|].
  destruct (IH (exchange E r (larger_child E r n)) (larger_child E r n)) as [H1 H2];
    [by rewrite exchange_length|lia|]. split.
  - rewrite H1. apply exchange_perm; lia.
  - intros k Hk. rewrite H2, exchange_lookup by lia. rewrite !decide_False by lia. done.
Qed.

(** ** The heap property *)

Definition child (p c : nat) : Prop := (c = 2 * p + 1 \/ c = 2 * p + 2)%nat.

(** Every parent from [lo] on is at least its children below [n]. *)
Definition heap (E : list A) (lo n : nat) : Prop :=
  forall p c, (lo <= p)%nat -> child p c -> (c < n)%nat -> ge (E !!! p) (E !!! c) = true.

(** The same, except at [r], whose parent is at least [r]'s children. *)
Definition heap_but (E : list A) (lo r n : nat) : Prop :=
  (forall p c, (lo <= p)%nat -> p <> r -> child p c -> (c < n)%nat -> ge (E !!! p) (E !!! c) = true) /\
  (forall p c, (lo <= p)%nat -> child p r -> child r c -> (c < n)%nat -> ge (E !!! p) (E !!! c) = true).

Hypothesis ge_total : forall x y, ge x y = false -> ge y x = true.
Hypothesis ge_trans : forall x y z, ge x y = true -> ge y z = true -> ge x z = true.

Lemma ge_refl x : ge x x = true.
Proof. destruct (ge x x) eqn:E; [done|]. by rewrite <- (ge_total x x E). Qed.

Lemma larger_child_ge E r n c : (2 * r + 1 < n)%nat -> child r c -> (c < n)%nat ->
  ge (E !!! larger_child E r n) (E !!! c) = true.
Proof.
  intros Hn Hc Hlt. unfold larger_child.
  destruct (decide _) as [H2|H2]; [destruct (ge (E !!! (2 * r + 1)%nat) (E !!! (2 * r + 2)%nat)) eqn:Eg|];
    destruct Hc as [-> | ->]; try lia; auto using ge_refl.
Qed.

Lemma sift_l_heap lo n : forall fuel E r, (n <= length E)%nat -> (lo <= r < n)%nat -> (n <= fuel + r)%nat ->
  heap_but E lo r n -> heap (sift_l fuel E r n) lo n.
Proof.
  induction fuel as [|fuel IH]; intros E r Hn Hr Hf [Hb Hp]; [lia|]. cbn [sift_l].
  destruct (decide _) as [Hc|Hc].
  - pose proof (larger_child_cases E r n Hc) as [Hcc Hcn]. pose proof (larger_child_ge E r n) as Hlc.
    cbv zeta in *. set (c := larger_child E r n) in *. destruct (ge (E !!! r) (E !!! c)) eqn:Eg.
    + intros p c' Hlo Hpc Hlt. destruct (decide (p = r)) as [->|]; [|by apply Hb].
      apply (ge_trans _ (E !!! c)); [done|]. by apply Hlc.
    + apply IH; [by rewrite exchange_length|lia|lia|]. split.
      * intros p c' Hlo Hpc Hch Hlt. rewrite !exchange_lookup by lia. unfold child in Hch.
        destruct (decide (p = r)) as [->|Hpr].
        -- rewrite (decide_False (P := c' = r)) by lia. destruct (decide (c' = c)) as [->|]; [by apply ge_total|].
           by apply Hlc.
        -- rewrite (decide_False (P := p = c)) by done. destruct (decide (c' = r)) as [->|].
           ++ apply Hp; [done|done|exact Hcc|lia].
           ++ rewrite (decide_False (P := c' = c)) by lia. by apply Hb.
      * intros p c' Hlo Hpc Hch Hlt. unfold child in Hpc, Hch. assert (p = r) as -> by lia.
        rewrite !exchange_lookup by lia. rewrite decide_True by done.
        rewrite (decide_False (P := c' = r)), (decide_False (P := c' = c)) by lia.
        apply Hb; [lia|lia|exact Hch|done].
  - intros p c' Hlo Hpc Hlt. destruct (decide (p = r)) as [->|]; [unfold child in Hpc; lia|by apply Hb].
Qed.

Lemma heap_root E n : heap E 0 n -> forall k, (k < n)%nat -> ge (E !!! 0%nat) (E !!! k) = true.
Proof.
  intros Hh k. induction k as [k IH] using (well_founded_induction lt_wf). intros Hk.
  destruct k as [|k]; [apply ge_refl|]. apply (ge_trans _ (E !!! (k / 2)%nat)).
  - pose proof (Nat.Div0.div_le_upper_bound k 2 k). apply IH; lia.
  - apply Hh; [lia| |done]. unfold child. pose proof (Nat.div_mod k 2). pose proof (Nat.mod_upper_bound k 2). lia.
Qed.

Lemma heapify_l_ok w n : (1 <= w)%nat -> forall k E, (n <= length E)%nat -> (k <= n)%nat -> heap E k n ->
  heap (heapify_l w k E n) 0 n /\ heapify_l w k E n ≡ₚ E.
Proof.
  intros Hw. induction k as [|k IH]; intros E Hn Hk Hh; cbn [heapify_l]; [done|].
  destruct (sift_l_perm n (w * length E) E k) as [Hp _]; [done|lia|].
  destruct (IH (sift_l (w * length E) E k n)) as [H1 H2]; [by rewrite Hp|lia| |].
  - apply sift_l_heap; [done|lia|nia|]. split.
    + intros p c Hlo Hne Hc Hlt. apply Hh; [lia|done|done].
    + intros p c Hlo Hpk _. unfold child in Hpk. lia.
  - split; [done|]. by rewrite H2.
Qed.

(** [E] is sorted from [k] on, and everything below is at most that. *)
Definition sorted_from (E : list A) (k : nat) : Prop :=
  forall i j, (i <= j)%nat -> (k <= j)%nat -> (j < length E)%nat -> ge (E !!! j) (E !!! i) = true.

Lemma perm_prefix E E' n x : E' ≡ₚ E -> (forall k, (n <= k)%nat -> E' !!! k = E !!! k) -> (n <= length E)%nat ->
  (forall i, (i < n)%nat -> ge x (E !!! i) = true) -> forall i, (i < n)%nat -> ge x (E' !!! i) = true.
Proof.
  intros Hp Hk Hn Hx i Hi. pose proof (Permutation_length Hp) as Hlen.
  assert (Hd : drop n E' = drop n E).
  { apply list_eq. intros j. rewrite !lookup_drop. specialize (Hk (n + j)%nat ltac:(lia)).
    rewrite !list_lookup_total_alt in Hk. destruct (E' !! (n + j)%nat) as [a|] eqn:E1, (E !! (n + j)%nat) as [b|] eqn:E2;
      cbn in Hk; [by subst| | |done].
    - apply lookup_lt_Some in E1. apply lookup_ge_None in E2. lia.
    - apply lookup_lt_Some in E2. apply lookup_ge_None in E1. lia. }
  assert (Ht : take n E' ≡ₚ take n E).
  { apply (Permutation_app_inv_r (drop n E)). rewrite <- Hd at 1. by rewrite !take_drop. }
  assert (Hin : E' !!! i ∈ take n E).
  { rewrite <- Ht. apply list_elem_of_lookup_2 with i. rewrite lookup_take_lt by done.
    apply list_lookup_lookup_total_lt. lia. }
  apply list_elem_of_lookup in Hin as [j Hj]. apply lookup_take_Some in Hj as [Hj Hjn].
  rewrite <- (list_lookup_total_correct E j _ Hj). by apply Hx.
Qed.

Lemma extract_l_ok w : (1 <= w)%nat -> forall k E, (k < length E)%nat -> heap E 0 (S k) -> sorted_from E (S k) ->
  sorted_from (extract_l w k E) 0 /\ extract_l w k E ≡ₚ E.
Proof.
  intros Hw. induction k as [|k IH]; intros E Hk Hh Hs.
  - cbn [extract_l]. split; [|done]. intros i j Hij _ Hj. destruct j as [|j]; [|apply Hs; lia].
    replace i with 0%nat by lia. apply ge_refl.
  - change (extract_l w (S k) E) with (extract_l w k (sift_l (w * length E) (exchange E 0 (S k)) 0 (S k))).
    set (E1 := exchange E 0 (S k)). assert (HE1 : length E1 = length E) by apply exchange_length.
    assert (Hx : forall i, E1 !!! i = if decide (i = 0%nat) then E !!! S k else if decide (i = S k) then E !!! 0%nat else E !!! i)
      by (intros i; apply exchange_lookup; lia).
    destruct (sift_l_perm (S k) (w * length E) E1 0) as [Hp Hfix]; [lia|lia|]. set (E2 := sift_l _ E1 0 (S k)) in *.
    pose proof (Permutation_length Hp) as HE2.
    assert (Hmax : forall i, (i < S k)%nat -> ge (E !!! 0%nat) (E2 !!! i) = true).
    { apply (perm_prefix E1 E2 (S k)); [done|done|lia|]. intros i Hi. rewrite Hx.
      destruct (decide (i = 0%nat)); [apply (heap_root E (S (S k))); [done|lia]|].
      rewrite decide_False by lia. apply (heap_root E (S (S k))); [done|lia]. }
    destruct (IH E2) as [H1 H2]; [lia| | |].
    + apply sift_l_heap; [lia|lia|nia|]. split.
      * intros p c _ Hp0 Hc Hlt. unfold child in Hc. rewrite !Hx. rewrite !decide_False by lia.
        apply Hh; [lia|exact Hc|lia].
      * intros p c _ Hp0. unfold child in Hp0. lia.
    + intros i j Hij Hkj Hj. rewrite (Hfix j) by lia. destruct (Nat.lt_ge_cases i (S k)) as [Hi|Hi].
      * apply (ge_trans _ (E !!! 0%nat)); [|by apply Hmax]. rewrite Hx, decide_False by lia.
        destruct (decide (j = S k)); [apply ge_refl|]. apply Hs; lia.
      * rewrite (Hfix i), !Hx by lia. rewrite !(decide_False (P := _ = 0%nat)) by lia.
        destruct (decide (j = S k)), (decide (i = S k)); try lia; [apply ge_refl|apply Hs; lia|apply Hs; lia].
    + split; [done|]. rewrite H2, Hp. apply exchange_perm; lia.
Qed.

End Heap.

(** ** The byte array as a list of elements *)

Section Bytes.
Context (w : nat).

Definition uniform (E : list (list Z)) : Prop := Forall (fun e => length e = w) E.

Lemma concat_length E : uniform E -> length (concat E) = (w * length E)%nat.
Proof. induction 1 as [|e E He _ IH]; cbn; [lia|]. rewrite length_app, IH, He. lia. Qed.

Lemma uniform_take E k : uniform E -> uniform (take k E).
Proof. apply Forall_take. Qed.

Lemma uniform_lookup E k : uniform E -> (k < length E)%nat -> length (E !!! k) = w.
Proof.
  intros HE Hk. destruct (lookup_lt_is_Some_2 E k Hk) as [e He].
  rewrite (list_lookup_total_correct _ _ _ He). by apply (proj1 (Forall_lookup _ _) HE k).
Qed.

Lemma concat_split (E : list (list Z)) k : (k < length E)%nat ->
  concat E = concat (take k E) ++ E !!! k ++ concat (drop (S k) E).
Proof.
  intros Hk. destruct (lookup_lt_is_Some_2 E k Hk) as [e He].
  rewrite (list_lookup_total_correct _ _ _ He). rewrite <- (take_drop_middle E k e He) at 1.
  by rewrite concat_app.
Qed.

Lemma concat_read E k : uniform E -> (k < length E)%nat ->
  mem_read (concat E) (Z.of_nat k * Z.of_nat w) (Z.of_nat w) = Some (E !!! k).
Proof.
  intros HE Hk. unfold mem_read. rewrite concat_length by done.
  assert (Hw : (w * k + w <= w * length E)%nat) by nia.
  rewrite (proj2 (Z.leb_le _ _)), (proj2 (Z.leb_le 0 (Z.of_nat w))), (proj2 (Z.leb_le _ (Z.of_nat (w * length E)))) by lia.
  cbn [andb]. f_equal. rewrite (concat_split E k) by done.
  assert (El : length (concat (take k E)) = (w * k)%nat).
  { rewrite concat_length by by apply uniform_take. by rewrite length_take_le by lia. }
  replace (Z.to_nat (Z.of_nat k * Z.of_nat w)) with (length (concat (take k E))) by lia.
  rewrite drop_app_length, Nat2Z.id. rewrite take_app_length'; [done|]. symmetry. by apply uniform_lookup.
Qed.

Lemma concat_write E k e : uniform E -> (k < length E)%nat -> length e = w ->
  mem_write (concat E) (Z.of_nat k * Z.of_nat w) e = Some (concat (<[k := e]> E)).
Proof.
  intros HE Hk He. unfold mem_write. rewrite concat_length, He by done.
  assert (Hw : (w * k + w <= w * length E)%nat) by nia.
  rewrite (proj2 (Z.leb_le _ _)), (proj2 (Z.leb_le _ (Z.of_nat (w * length E)))) by lia. cbn [andb]. f_equal.
  rewrite insert_take_drop by done. rewrite concat_app. cbn [concat].
  assert (El : length (concat (take k E)) = (w * k)%nat).
  { rewrite concat_length by by apply uniform_take. by rewrite length_take_le by lia. }
  replace (Z.to_nat (Z.of_nat k * Z.of_nat w)) with (length (concat (take k E))) by lia.
  rewrite (concat_split E k) at 1 2 by done. rewrite take_app_length. do 2 f_equal.
  rewrite <- drop_drop, drop_app_length, drop_app_length'; [done|]. symmetry. by apply uniform_lookup.
Qed.

(** What [sort] relies on in a swap function: it exchanges two elements. *)
Class SwapFunc (swap : swap_t) : Prop :=
  swap_exchanges : forall E i j, uniform E -> (i < length E)%nat -> (j < length E)%nat ->
    i <> j -> swap (concat E) (Z.of_nat i * Z.of_nat w) (Z.of_nat j * Z.of_nat w) (Z.of_nat w) =
      Some (concat (exchange E i j)).

Lemma uniform_insert E k e : uniform E -> length e = w -> uniform (<[k := e]> E).
Proof. intros. by apply Forall_insert. Qed.

Lemma uniform_exchange E i j : uniform E -> (i < length E)%nat -> (j < length E)%nat -> uniform (exchange E i j).
Proof. intros. unfold exchange. apply uniform_insert; [apply uniform_insert; [done|]|]; by apply uniform_lookup. Qed.

(** The two blocks read first and then written are exchanged. *)
Lemma block_swap E i j : uniform E -> (i < length E)%nat -> (j < length E)%nat -> i <> j ->
  (m ← mem_write (concat E) (Z.of_nat i * Z.of_nat w) (E !!! j);
   mem_write m (Z.of_nat j * Z.of_nat w) (E !!! i)) = Some (concat (exchange E i j)).
Proof.
  intros HE Hi Hj Hij. rewrite concat_write by (done || by apply uniform_lookup). cbn [mbind option_bind].
  rewrite concat_write; [|apply uniform_insert; [done|by apply uniform_lookup]|by rewrite length_insert|by apply uniform_lookup].
  unfold exchange. by rewrite list_insert_insert_ne.
Qed.


(** The bytes after exchanging [n] bytes at [a] and [b]. *)
Definition swapped (m : list Z) (a b n i : Z) : Z :=
  if (a <=? i) && (i <? a + n) then zat m (i - a + b)
  else if (b <=? i) && (i <? b + n) then zat m (i - b + a) else zat m i.

Lemma swap_bytes_ok : forall n m a b, 0 <= a -> 0 <= b -> a + Z.of_nat n <= len m -> b + Z.of_nat n <= len m ->
  a + Z.of_nat n <= b \/ b + Z.of_nat n <= a ->
  exists m', swap_bytes n m a b = Some m' /\ length m' = length m /\
    forall i, zat m' i = swapped m a b (Z.of_nat n) i.
Proof.
  induction n as [|n IH]; intros m a b Ha Hb Ham Hbm Hd; cbn [swap_bytes].
  - exists m. split; [done|]. split; [done|]. intros i. unfold swapped. split_cmp; (lia || done).
  - rewrite !zget_zat by lia. cbn [mbind option_bind]. rewrite zset_spec by lia. cbn [mbind option_bind].
    rewrite zset_spec by (rewrite length_insert; lia). cbn [mbind option_bind].
    set (m1 := <[Z.to_nat b := zat m a]> (<[Z.to_nat a := zat m b]> m)).
    assert (Hl : length m1 = length m) by (unfold m1; by rewrite !length_insert).
    assert (H1 : forall i, zat m1 i = if i =? b then zat m a else if i =? a then zat m b else zat m i).
    { intros i. unfold m1. rewrite !zat_insert, length_insert. rewrite !Z2Nat.id by lia.
      split_cmp; repeat case_decide; try lia; done. }
    destruct (IH m1 (a + 1) (b + 1)) as (m' & E & Hl' & H'); [lia..|].
    exists m'. split; [done|]. split; [congruence|]. intros i. rewrite H'. unfold swapped. rewrite !H1.
    split_cmp; try lia; try done; f_equal; lia.
Qed.

Lemma generic_swap_ok : (1 <= w)%nat -> SwapFunc generic_swap.
Proof.
  intros Hw E i j HE Hi Hj Hij. unfold generic_swap.
  pose proof (block_swap E i j HE Hi Hj Hij) as HB. pose proof (concat_length E HE) as Hlen.
  assert (Hai : (w * i + w <= w * length E)%nat) by nia. assert (Haj : (w * j + w <= w * length E)%nat) by nia.
  assert (Hd : (w * i + w <= w * j \/ w * j + w <= w * i)%nat) by nia.
  set (a := Z.of_nat i * Z.of_nat w) in *. set (b := Z.of_nat j * Z.of_nat w) in *.
  assert (Ha : a = Z.of_nat (w * i)) by lia. assert (Hb : b = Z.of_nat (w * j)) by lia.
  pose proof (concat_read E i HE Hi) as Ri. pose proof (concat_read E j HE Hj) as Rj. fold a in Ri. fold b in Rj.
  destruct (mem_read_spec (concat E) a (Z.of_nat w)) as (xi & Ri' & Lxi & Xi); [lia..|]. rewrite Ri in Ri'. injection Ri' as <-.
  destruct (mem_read_spec (concat E) b (Z.of_nat w)) as (xj & Rj' & Lxj & Xj); [lia..|]. rewrite Rj in Rj'. injection Rj' as <-.
  destruct (mem_write_spec (concat E) a (E !!! j)) as (m1 & E1 & L1 & H1); [lia..|].
  destruct (mem_write_spec m1 b (E !!! i)) as (m2 & E2 & L2 & H2); [lia..|].
  rewrite E1 in HB. cbn [mbind option_bind] in HB. rewrite E2 in HB. injection HB as <-.
  replace (Z.max 1 (Z.of_nat w)) with (Z.of_nat w) by lia. rewrite Nat2Z.id.
  destruct (swap_bytes_ok w (concat E) a b) as (m' & -> & Hl' & H'); [lia..|]. f_equal.
  apply zlist_ext; [congruence|]. intros k Hk. rewrite H', H2, H1, Lxi, Lxj. unfold swapped.
  split_cmp; try lia; cbn [andb]; try done; first [rewrite Xi by lia | rewrite Xj by lia | idtac]; try done; f_equal; lia.
Qed.

End Bytes.

#[export] Instance u32_swap_func : SwapFunc 4 u32_swap.
Proof.
  intros E i j HE Hi Hj Hij. unfold u32_swap. change 4 with (Z.of_nat 4).
  rewrite !(concat_read 4) by done. cbn [mbind option_bind]. by apply block_swap.
Qed.

#[export] Instance generic_swap_func w : SwapFunc (S w) generic_swap.
Proof. apply generic_swap_ok. lia. Qed.

(** What [sort] relies on in a comparison. *)
Class CmpFunc (cmp_func : list Z -> list Z -> Z) : Prop := {
  cmp_total x y : cmp_func x y < 0 -> 0 <= cmp_func y x;
  cmp_trans x y z : 0 <= cmp_func x y -> 0 <= cmp_func y z -> 0 <= cmp_func x z }.

(** ** The byte-level loops run the element-level ones *)

Section Refine.
Context (cmp_func : list Z -> list Z -> Z) (swap : swap_t) (w N : nat).
Context `{Hswap : !SwapFunc w swap}.
Hypothesis Hw : (1 <= w)%nat.
Hypothesis HN : Z.of_nat N * Z.of_nat w < 2 ^ 31.

Definition cmp_ge (x y : list Z) : bool := 0 <=? cmp_func x y.

Lemma cmp_ltb x y : (cmp_func x y <? 0) = negb (cmp_ge x y).
Proof. unfold cmp_ge. by rewrite Z.leb_antisym, negb_involutive. Qed.

(** Byte offsets of elements compare as their indices do. *)
Lemma off_lt (a b : nat) : (a <= 2 * N)%nat -> (b <= 2 * N)%nat ->
  (u32 (Z.of_nat a * Z.of_nat w) <? u32 (Z.of_nat b * Z.of_nat w)) = bool_decide (a < b)%nat.
Proof.
  intros Ha Hb. rewrite !u32_id by (unfold is_u32; nia).
  case_bool_decide; [apply Z.ltb_lt|apply Z.ltb_ge]; nia.
Qed.

Lemma off_s32 (a : nat) : (a <= N)%nat -> s32 (Z.of_nat a * Z.of_nat w) = Z.of_nat a * Z.of_nat w.
Proof. intros. apply s32_id. unfold is_s32. nia. Qed.

Lemma sift_l_uniform E : forall fuel r n, uniform w E -> (n <= length E)%nat -> (r < n)%nat ->
  uniform w (sift_l cmp_ge fuel E r n).
Proof.
  intros fuel r n HE Hn Hr. destruct (sift_l_perm cmp_ge n fuel E r Hn Hr) as [Hp _].
  unfold uniform. by rewrite Hp.
Qed.

Lemma sift_ref : forall fuel E r n, uniform w E -> length E = N -> (r < n <= N)%nat -> (n <= fuel + r)%nat ->
  sift cmp_func swap (Z.of_nat w) fuel (concat E) (Z.of_nat r * Z.of_nat w) (Z.of_nat n * Z.of_nat w) =
    Some (concat (sift_l cmp_ge fuel E r n)).
Proof.
  induction fuel as [|fuel IH]; intros E r n HE HlE Hr Hf; [lia|]. cbn [sift sift_l].
  replace (Z.of_nat r * Z.of_nat w * 2 + Z.of_nat w) with (Z.of_nat (2 * r + 1) * Z.of_nat w) by lia.
  rewrite off_lt by lia. case_bool_decide as Hc; [rewrite decide_True by done|by rewrite decide_False].
  rewrite off_s32 by lia. replace (Z.of_nat n * Z.of_nat w - Z.of_nat w) with (Z.of_nat (n - 1) * Z.of_nat w) by lia.
  rewrite off_lt by lia. replace (Z.of_nat (2 * r + 1) * Z.of_nat w + Z.of_nat w) with (Z.of_nat (2 * r + 2) * Z.of_nat w) by lia.
  assert (Ec : (if bool_decide (2 * r + 1 < n - 1)%nat
      then x ← elem (Z.of_nat w) (concat E) (Z.of_nat (2 * r + 1) * Z.of_nat w);
           y ← elem (Z.of_nat w) (concat E) (Z.of_nat (2 * r + 2) * Z.of_nat w);
           Some (if cmp_func x y <? 0 then s32 (Z.of_nat (2 * r + 2) * Z.of_nat w) else Z.of_nat (2 * r + 1) * Z.of_nat w)
      else Some (Z.of_nat (2 * r + 1) * Z.of_nat w)) = Some (Z.of_nat (larger_child cmp_ge E r n) * Z.of_nat w)).
  { unfold larger_child, elem. case_bool_decide; [rewrite decide_True by lia|by rewrite decide_False by lia].
    rewrite !concat_read by (done || lia). cbn [mbind option_bind]. rewrite cmp_ltb, off_s32 by lia.
    by destruct (cmp_ge _ _). }
  rewrite Ec. cbn [mbind option_bind]. destruct (larger_child_cases cmp_ge E r n Hc) as (_ & Hcn).
  cbv zeta. set (c := larger_child cmp_ge E r n) in *. unfold elem. rewrite !concat_read by (done || lia).
  cbn [mbind option_bind]. fold (cmp_ge (E !!! r) (E !!! c)). destruct (cmp_ge _ _); [done|].
  rewrite Hswap by (done || lia). cbn [mbind option_bind].
  apply IH; [apply uniform_exchange; (done || lia)|by rewrite exchange_length|lia|lia].
Qed.

Lemma heapify_ref n : (1 <= n <= N)%nat -> forall k E, uniform w E -> length E = N -> (k <= n)%nat ->
  forall fuel, (k <= fuel)%nat ->
  heapify cmp_func swap (Z.of_nat w) fuel (concat E) ((Z.of_nat k - 1) * Z.of_nat w) (Z.of_nat n * Z.of_nat w) =
    Some (concat (heapify_l cmp_ge w k E n)).
Proof.
  intros Hn. induction k as [|k IH]; intros E HE HlE Hk fuel Hf.
  - destruct fuel; cbn [heapify heapify_l]; rewrite (proj2 (Z.leb_gt _ _)); (done || lia).
  - destruct fuel as [|fuel]; [lia|]. cbn [heapify heapify_l].
    replace ((Z.of_nat (S k) - 1) * Z.of_nat w) with (Z.of_nat k * Z.of_nat w) by lia.
    rewrite (proj2 (Z.leb_le _ _)) by lia. rewrite (concat_length w) by done. rewrite sift_ref; [|done|done|lia|nia].
    cbn [mbind option_bind]. rewrite s32_id by (unfold is_s32; nia).
    replace (Z.of_nat k * Z.of_nat w - Z.of_nat w) with ((Z.of_nat k - 1) * Z.of_nat w) by lia.
    destruct (sift_l_perm cmp_ge n (w * length E) E k) as [Hp _]; [lia|lia|].
    apply IH; [apply sift_l_uniform; (done || lia)|by rewrite Hp|lia|lia].
Qed.

Lemma extract_ref : forall k E, uniform w E -> length E = N -> (k < N)%nat ->
  forall fuel, (k <= fuel)%nat ->
  extract cmp_func swap (Z.of_nat w) fuel (concat E) (Z.of_nat k * Z.of_nat w) =
    Some (concat (extract_l cmp_ge w k E)).
Proof.
  induction k as [|k IH]; intros E HE HlE Hk fuel Hf; [by destruct fuel|].
  destruct fuel as [|fuel]; [lia|]. cbn [extract]. rewrite (proj2 (Z.ltb_lt _ _)) by lia.
  pose proof (Hswap E 0%nat (S k) HE ltac:(lia) ltac:(lia) ltac:(lia)) as Hs. change (Z.of_nat 0 * Z.of_nat w) with 0 in Hs.
  rewrite Hs. cbn [mbind option_bind].
  assert (HE1 : uniform w (exchange E 0 (S k))) by (apply uniform_exchange; (done || lia)).
  rewrite (concat_length w), exchange_length by done.
  pose proof (sift_ref (w * length E) (exchange E 0 (S k)) 0 (S k) HE1) as Hr. change (Z.of_nat 0 * Z.of_nat w) with 0 in Hr.
  rewrite Hr; [|by rewrite exchange_length|lia|nia]. cbn [mbind option_bind].
  rewrite s32_id by (unfold is_s32; nia).
  replace (Z.of_nat (S k) * Z.of_nat w - Z.of_nat w) with (Z.of_nat k * Z.of_nat w) by lia.
  destruct (sift_l_perm cmp_ge (S k) (w * length E) (exchange E 0 (S k)) 0) as [Hp _]; [rewrite exchange_length; lia|lia|].
  rewrite IH; [done| |rewrite Hp; by rewrite exchange_length|lia|lia].
  apply sift_l_uniform; [done|rewrite exchange_length; lia|lia].
Qed.

End Refine.

(** ** Correctness *)

(** C31: [sort] on an array of [num] elements of [size] bytes, for any comparison
    that is total and transitive and with the built-in swaps or any swap function
    that exchanges two elements, never leaves the array, ends, and leaves the same
    elements (a permutation) in ascending order. *)
Theorem sort_correct cmp_func swap_func (E : list (list Z)) (w : nat) :
  (1 <= w)%nat -> Z.of_nat w < 2 ^ 31 -> uniform w E -> len E * Z.of_nat w < 2 ^ 31 ->
  CmpFunc cmp_func -> (forall f, swap_func = Some f -> SwapFunc w f) ->
  exists E', sort cmp_func (concat E) (len E) (Z.of_nat w) swap_func = Some (concat E') /\ E' ≡ₚ E /\
    forall i j, (i <= j)%nat -> (j < length E')%nat -> 0 <= cmp_func (E' !!! j) (E' !!! i).
Proof.
  intros Hw Hw' HE HN [Htot Htr] Hsf.
  set (sw := match swap_func with Some f => f | None => if Z.of_nat w =? 4 then u32_swap else generic_swap end).
  assert (Hswap : SwapFunc w sw).
  { unfold sw. destruct swap_func as [f|]; [by apply Hsf|].
    destruct (Z.eqb_spec (Z.of_nat w) 4); [assert (w = 4%nat) as -> by lia; apply _|by apply generic_swap_ok]. }
  assert (Gtot : forall x y, cmp_ge cmp_func x y = false -> cmp_ge cmp_func y x = true).
  { intros x y Hx%Z.leb_gt. by apply Z.leb_le, Htot. }
  assert (Gtr : forall x y z, cmp_ge cmp_func x y = true -> cmp_ge cmp_func y z = true -> cmp_ge cmp_func x z = true).
  { intros x y z ?%Z.leb_le ?%Z.leb_le. apply Z.leb_le. by apply (Htr x y z). }
  unfold sort. fold sw. rewrite Nat2Z.id. destruct (decide (length E = 0%nat)) as [H0|H0].
  - destruct E; [|done]. exists []. split; [|split; [done|cbn; lia]].
    change (len (@nil (list Z))) with 0 in *. change (0 / 2 - 1) with (-1).
    rewrite (s32_id (-1 * _)), (s32_id (0 * _)), (s32_id (0 * _ - _)) by (unfold is_s32; lia).
    unfold heapify, extract. cbn [length].
    rewrite (proj2 (Z.leb_gt 0 _)) by lia. cbn [mbind option_bind]. by rewrite (proj2 (Z.ltb_ge 0 _)) by lia.
  - assert (Hdiv : len E / 2 = Z.of_nat (length E / 2)) by (rewrite Nat2Z.inj_div; done).
    pose proof (Nat.div_mod_eq (length E) 2) as Hdm. pose proof (Nat.mod_upper_bound (length E) 2 ltac:(lia)) as Hmb.
    rewrite Hdiv, (s32_id ((_ - 1) * _)), (s32_id (len E * _)) by (unfold is_s32; nia).
    rewrite (heapify_ref cmp_func sw w (length E) Hw HN); [|lia|done|done|lia|lia]. cbn [mbind option_bind].
    destruct (heapify_l_ok (cmp_ge cmp_func) Gtot Gtr w (length E) Hw (length E / 2) E) as [Hh Hp];
      [done|lia|intros p c Hlo Hc Hlt; unfold child in Hc; lia|].
    set (E1 := heapify_l _ _ _ _ _) in *. pose proof (Permutation_length Hp) as Hl1.
    assert (HU : uniform w E1) by (unfold uniform; by rewrite Hp).
    rewrite s32_id by (unfold is_s32; nia).
    replace (len E * Z.of_nat w - Z.of_nat w) with (Z.of_nat (length E - 1) * Z.of_nat w) by (rewrite Nat2Z.inj_sub; lia).
    rewrite (extract_ref cmp_func sw w (length E) Hw HN); [|done|done|lia|lia].
    destruct (extract_l_ok (cmp_ge cmp_func) Gtot Gtr w Hw (length E - 1) E1) as [Hs Hp2];
      [lia|by replace (S (length E - 1)) with (length E) by lia|intros i j _ ? ?; lia|].
    eexists. split; [reflexivity|]. split; [by rewrite Hp2|].
    intros i j Hij Hj. apply Z.leb_le. apply (Hs i j); [done|lia|done].
Qed.

(** Four 2-byte elements compared by their first byte, with the built-in swap. *)
Lemma sort_correct_witness : exists E',
  sort (fun x y => zat x 0 - zat y 0) (concat [[5; 1]; [1; 2]; [9; 3]; [1; 4]]) 4 2 None = Some (concat E') /\
  E' ≡ₚ [[5; 1]; [1; 2]; [9; 3]; [1; 4]].
Proof.
  destruct (sort_correct (fun x y => zat x 0 - zat y 0) None [[5; 1]; [1; 2]; [9; 3]; [1; 4]] 2) as (E' & H1 & H2 & _).
  - lia.
  - lia.
  - repeat constructor.
  - cbn. lia.
  - split; intros; lia.
  - discriminate.
  - exists E'. split; [exact H1|exact H2].
Defined.
