(* ===== verification/Vsprintf.v ===== *)
(** * Formatted output and number parsing: lib/vsprintf.c.

    Strings are memories read up to their terminator; an access outside is
    [None].  The output buffer is the memory from address [buf] on. *)
From S2P Require Import Prelude KString.
From Stdlib Require Import Ascii.
Open Scope kernel_scope.

Definition ch (a : ascii) : Z := Z.of_N (N_of_ascii a).

(** ** Parsing *)

Definition TOLOWER (x : Z) : Z := Z.lor x 0x20.

Definition simple_guess_base (cp : list Z) : option Z :=
  c0 ← zget cp 0;
  if c0 =? ch "0" then
    c1 ← zget cp 1;
    if TOLOWER c1 =? ch "x" then c2 ← zget cp 2; Some (if isxdigit c2 then 16 else 8)
    else Some 8
  else Some 10.

Definition digit_value (c : Z) : Z := if isdigit c then c -u ch "0" else (TOLOWER c - ch "a") +u 10.

(** The loop over the digits, in a [w]-bit type; the result and the characters read. *)
Fixpoint parse_digits (w base : Z) (cp : list Z) (result n : Z) : option (Z * Z) :=
  match cp with
  | [] => None
  | c :: cp' =>
      if isxdigit c then
        if base <=? digit_value c then Some (result, n)
        else parse_digits w base cp' (wrap w (result * base + digit_value c)) (n + 1)
      else Some (result, n)
  end.

(** The common body; the second result is [*endp - cp]. *)
Definition simple_strto (w : Z) (cp : list Z) (base : Z) : option (Z * Z) :=
  base ← (if base =? 0 then simple_guess_base cp else Some base);
  skip ← (if base =? 16 then
            c0 ← zget cp 0;
            if c0 =? ch "0" then c1 ← zget cp 1; Some (if TOLOWER c1 =? ch "x" then 2 else 0)
            else Some 0
          else Some 0);
  parse_digits w base (drop (Z.to_nat skip) cp) 0 skip.

Definition simple_strtoul (cp : list Z) (base : Z) : option (Z * Z) := simple_strto 32 cp base.
Definition simple_strtoull (cp : list Z) (base : Z) : option (Z * Z) := simple_strto 64 cp base.

Definition simple_strtol (cp : list Z) (base : Z) : option (Z * Z) :=
  c ← zget cp 0;
  if c =? ch "-" then '(v, n) ← simple_strtoul (drop 1 cp) base; Some (s32 (- v), n + 1)
  else '(v, n) ← simple_strtoul cp base; Some (s32 v, n).

Definition simple_strtoll (cp : list Z) (base : Z) : option (Z * Z) :=
  c ← zget cp 0;
  if c =? ch "-" then '(v, n) ← simple_strtoull (drop 1 cp) base; Some (s64 (- v), n + 1)
  else '(v, n) ← simple_strtoull cp base; Some (s64 v, n).

(** The return value and [*res]. *)
Definition strict_strto (w : Z) (cp : list Z) (base : Z) : option (Z * Z) :=
  n ← strlen cp;
  if n =? 0 then Some (- EINVAL, 0) else
  '(val, tail) ← simple_strto w cp base;
  if tail =? 0 then Some (- EINVAL, 0) else
  c ← zget cp tail;
  Some (if (c =? 0) || ((n =? tail + 1) && (c =? ch "010")) then (0, val) else (- EINVAL, 0)).

Definition strict_strtoul (cp : list Z) (base : Z) : option (Z * Z) := strict_strto 32 cp base.
Definition strict_strtoull (cp : list Z) (base : Z) : option (Z * Z) := strict_strto 64 cp base.

Definition strict_strtol (cp : list Z) (base : Z) : option (Z * Z) :=
  c ← zget cp 0;
  if c =? ch "-" then
    '(ret, res) ← strict_strtoul (drop 1 cp) base;
    Some (ret, if ret =? 0 then s32 (- s32 res) else s32 res)
  else '(ret, res) ← strict_strtoul cp base; Some (ret, s32 res).

Definition strict_strtoll (cp : list Z) (base : Z) : option (Z * Z) :=
  c ← zget cp 0;
  if c =? ch "-" then
    '(ret, res) ← strict_strtoull (drop 1 cp) base;
    Some (ret, if ret =? 0 then s64 (- s64 res) else s64 res)
  else '(ret, res) ← strict_strtoull cp base; Some (ret, s64 res).

Fixpoint skip_atoi (s : list Z) (i : Z) : option (Z * list Z) :=
  match s with
  | [] => None
  | c :: s' => if isdigit c then skip_atoi s' (s32 (i * 10 + c - ch "0")) else Some (i, s)
  end.

(** ** Decimal digits, least significant first *)

Definition put_dec_trunc (q : Z) : list Z :=
  let d1 := Z.land (Z.shiftr q 4) 0xf in
  let d2 := Z.land (Z.shiftr q 8) 0xf in
  let d3 := Z.shiftr q 12 in
  let d0 := 6 * (d3 + d2 + d1) +u Z.land q 0xf in
  let q := Z.shiftr (d0 *u 0xcd) 11 in
  let d0 := d0 -u 10 * q in
  u8 (d0 + ch "0") ::
  let d1 := q + 9 * d3 + 5 * d2 +u d1 in
  if negb (d1 =? 0) then
    let q := Z.shiftr (d1 *u 0xcd) 11 in
    let d1 := d1 -u 10 * q in
    u8 (d1 + ch "0") ::
    let d2 := q +u 2 * d2 in
    if negb (d2 =? 0) || negb (d3 =? 0) then
      let q := Z.shiftr (d2 *u 0xd) 7 in
      let d2 := d2 -u 10 * q in
      u8 (d2 + ch "0") ::
      let d3 := q +u 4 * d3 in
      if negb (d3 =? 0) then
        let q := Z.shiftr (d3 *u 0xcd) 11 in
        let d3 := d3 -u 10 * q in
        u8 (d3 + ch "0") :: (if negb (q =? 0) then [u8 (q + ch "0")] else [])
      else []
    else []
  else [].

Definition put_dec_full (q : Z) : list Z :=
  let d1 := Z.land (Z.shiftr q 4) 0xf in
  let d2 := Z.land (Z.shiftr q 8) 0xf in
  let d3 := Z.shiftr q 12 in
  let d0 := 6 * (d3 + d2 + d1) +u Z.land q 0xf in
  let q := Z.shiftr (d0 *u 0xcd) 11 in
  let d0 := d0 -u 10 * q in
  let d1 := q + 9 * d3 + 5 * d2 +u d1 in
  let q := Z.shiftr (d1 *u 0xcd) 11 in
  let d1 := d1 -u 10 * q in
  let d2 := q +u 2 * d2 in
  let q := Z.shiftr (d2 *u 0xd) 7 in
  let d2 := d2 -u 10 * q in
  let d3 := q +u 4 * d3 in
  let q := Z.shiftr (d3 *u 0xcd) 11 in
  let d3 := d3 -u 10 * q in
  [u8 (d0 + ch "0"); u8 (d1 + ch "0"); u8 (d2 + ch "0"); u8 (d3 + ch "0"); u8 (q + ch "0")].

(** A 64-bit number takes four rounds at most. *)
Fixpoint put_dec_loop (fuel : nat) (num : Z) : option (list Z) :=
  if num <? 100000 then Some (put_dec_trunc num)
  else match fuel with
       | O => None
       | S fuel' => rest ← put_dec_loop fuel' (num / 100000); Some (put_dec_full (num mod 100000) ++ rest)
       end.

Definition put_dec (num : Z) : option (list Z) := put_dec_loop 4 num.

(** ** Printing *)

Definition ZEROPAD : Z := 1.
Definition SIGN : Z := 2.
Definition PLUS : Z := 4.
Definition SPACE : Z := 8.
Definition LEFT : Z := 16.
Definition SMALL : Z := 32.
Definition SPECIAL : Z := 64.

Definition has (type f : Z) : bool := negb (Z.land type f =? 0).

Section Output.
(** The buffer's address, and the end of what may be written. *)
Context (buf end_ : Z).

(** The buffer's memory and the output pointer. *)
Definition out_t : Type := list Z * Z.

(** [if (buf < end) *buf = c; ++buf;]  The pointer is a 32-bit word and goes on counting behind [end]; past the
    top of the address space it is 0 again, below [end], and the store is outside of the buffer ([None]). *)
Definition putc (c : Z) (st : out_t) : option out_t :=
  let '(m, p) := st in
  if p <? end_ then m' ← zset m (p - buf) c; Some (m', p +u 1) else Some (m, p +u 1).

(** [while (--size >= 0)] with a character put in each turn. *)
Fixpoint pad_loop (fuel : nat) (c size : Z) (st : out_t) : option (out_t * Z) :=
  let size := s32 (size - 1) in
  if 0 <=? size then
    match fuel with
    | O => None
    | S fuel' => st ← putc c st; pad_loop fuel' c size st
    end
  else Some (st, size).

(** The fuel is the number of turns, also when [size - 1] wraps. *)
Definition pad (c size : Z) (st : out_t) : option (out_t * Z) :=
  pad_loop (Z.to_nat (s32 (size - 1) + 1)) c size st.

(** [while (i <= --precision)] *)
Fixpoint zero_loop (fuel : nat) (i precision : Z) (st : out_t) : option out_t :=
  let precision := s32 (precision - 1) in
  if i <=? precision then
    match fuel with
    | O => None
    | S fuel' => st ← putc (ch "0") st; zero_loop fuel' i precision st
    end
  else Some st.

(** Characters one after the other. *)
Fixpoint put_all (l : list Z) (st : out_t) : option out_t :=
  match l with [] => Some st | c :: l' => st ← putc c st; put_all l' st end.

Definition digits : list Z :=
  [ch "0"; ch "1"; ch "2"; ch "3"; ch "4"; ch "5"; ch "6"; ch "7"; ch "8"; ch "9";
   ch "A"; ch "B"; ch "C"; ch "D"; ch "E"; ch "F"].

(** The [do]/[while] loop for bases 8 and 16: at most 22 octal digits. *)
Fixpoint pow2_digits (fuel : nat) (num mask shift locase : Z) : option (list Z) :=
  match fuel with
  | O => None
  | S fuel' =>
      d ← zget digits (Z.land (u8 num) mask);
      let num := Z.shiftr num shift in
      if num =? 0 then Some [Z.lor d locase]
      else rest ← pow2_digits fuel' num mask shift locase; Some (Z.lor d locase :: rest)
  end.

Definition number (st : out_t) (num base size precision type : Z) : option out_t :=
  let need_pfx := has type SPECIAL && negb (base =? 10) in
  let locase := Z.land type SMALL in
  let type := if has type LEFT then Z.land type (Z.lnot ZEROPAD) else type in
  let '(sign, num, size) :=
    if has type SIGN then
      if s64 num <? 0 then (ch "-", u64 (- s64 num), s32 (size - 1))
      else if has type PLUS then (ch "+", num, s32 (size - 1))
      else if has type SPACE then (ch " ", num, s32 (size - 1))
      else (0, num, size)
    else (0, num, size) in
  let size := if need_pfx then
                let size := s32 (size - 1) in if base =? 16 then s32 (size - 1) else size
              else size in
  tmp ← (if num =? 0 then Some [ch "0"]
         else if negb (base =? 10) then
           pow2_digits 22 num (base - 1) (if base =? 16 then 4 else 3) locase
         else put_dec num);
  let i := len tmp in
  let precision := if precision <? i then i else precision in
  let size := s32 (size - precision) in
  '(st, size) ← (if negb (has type (ZEROPAD + LEFT)) then pad (ch " ") size st else Some (st, size));
  st ← (if negb (sign =? 0) then putc sign st else Some st);
  st ← (if need_pfx then
          st ← putc (ch "0") st;
          if base =? 16 then putc (Z.lor (ch "X") locase) st else Some st
        else Some st);
  '(st, size) ← (if negb (has type LEFT)
                 then pad (if has type ZEROPAD then ch "0" else ch " ") size st
                 else Some (st, size));
  st ← zero_loop (Z.to_nat precision) i precision st;
  st ← put_all (rev tmp) st;
  '(st, size) ← pad (ch " ") size st;
  Some st.

(** [strnlen (s, precision)]: a negative [int] is a huge [size_t]. *)
Definition strnlen_int (s : list Z) (precision : Z) : option Z :=
  if precision <? 0 then strlen s else strnlen s (Z.to_nat precision).

(** [while (len < field_width--)] *)
Fixpoint width_loop (fuel : nat) (n field_width : Z) (st : out_t) : option (out_t * Z) :=
  if n <? field_width then
    match fuel with
    | O => None
    | S fuel' => st ← putc (ch " ") st; width_loop fuel' n (s32 (field_width - 1)) st
    end
  else Some (st, s32 (field_width - 1)).

Definition null_string : list Z := [ch "<"; ch "N"; ch "U"; ch "L"; ch "L"; ch ">"; 0].

(** [None] for [s]: a pointer below [PAGE_SIZE]. *)
Definition string (st : out_t) (s : option (list Z)) (field_width precision flags : Z) : option out_t :=
  let s := default null_string s in
  n ← strnlen_int s precision;
  '(st, field_width) ← (if negb (has flags LEFT)
     then width_loop (Z.to_nat field_width) n field_width st else Some (st, field_width));
  cs ← mem_read s 0 n;
  st ← put_all cs st;
  '(st, _) ← width_loop (Z.to_nat field_width) n field_width st;
  Some st.

End Output.

(** ** Pointers *)

(** What a pointer argument points to, where the format looks at it. *)
Inductive target : Type :=
  | TBytes (bs : list Z)
  | TResource (start end_ flags : Z).

(** Variadic arguments: a 32-bit word ([int], [long], [size_t]), a [long long], a
    string pointer, any other pointer, a pointer for [%n]. *)
Inductive arg : Type :=
  | AWord (w : Z)
  | ALongLong (v : Z)
  | AStr (s : option (list Z))
  | APtr (v : Z) (t : target)
  | ACount.

Definition hex_asc : list Z :=
  [ch "0"; ch "1"; ch "2"; ch "3"; ch "4"; ch "5"; ch "6"; ch "7"; ch "8"; ch "9";
   ch "a"; ch "b"; ch "c"; ch "d"; ch "e"; ch "f"].

Definition pack_hex_byte (byte : Z) : list Z :=
  [zat hex_asc (Z.shiftr (Z.land byte 0xf0) 4); zat hex_asc (Z.land byte 0x0f)].

Fixpoint mac_loop (sep : bool) (addr : list Z) : list Z :=
  match addr with
  | [] => []
  | b :: addr' =>
      pack_hex_byte b ++ (if sep && negb (len addr' =? 0) then [ch ":"] else []) ++ mac_loop sep addr'
  end.

Fixpoint ip6_loop (sep : bool) (addr : list Z) : list Z :=
  match addr with
  | b :: b' :: addr' =>
      pack_hex_byte b ++ pack_hex_byte b' ++
      (if sep && negb (len addr' =? 0) then [ch ":"] else []) ++ ip6_loop sep addr'
  | _ => []
  end.

Fixpoint ip4_loop (addr : list Z) : list Z :=
  match addr with
  | [] => []
  | b :: addr' => rev (put_dec_trunc b) ++ (if negb (len addr' =? 0) then [ch "."] else []) ++ ip4_loop addr'
  end.

Definition IORESOURCE_IO : Z := 0x100.
Definition IORESOURCE_MEM : Z := 0x200.

Section Format.
Context (buf end_ : Z).
(** [sprint_symbol] of kernel/kallsyms.c: the text for an address. *)
Context (sprint_symbol : Z -> list Z).

Definition mac_address_string (st : out_t) (addr : list Z) (field_width precision flags : Z) : option out_t :=
  a ← mem_read addr 0 6;
  string buf end_ st (Some (mac_loop (negb (has flags SPECIAL)) a ++ [0])) field_width precision
    (Z.land flags (Z.lnot SPECIAL)).

Definition ip6_addr_string (st : out_t) (addr : list Z) (field_width precision flags : Z) : option out_t :=
  a ← mem_read addr 0 16;
  string buf end_ st (Some (ip6_loop (negb (has flags SPECIAL)) a ++ [0])) field_width precision
    (Z.land flags (Z.lnot SPECIAL)).

Definition ip4_addr_string (st : out_t) (addr : list Z) (field_width precision flags : Z) : option out_t :=
  a ← mem_read addr 0 4;
  string buf end_ st (Some (ip4_loop a ++ [0])) field_width precision (Z.land flags (Z.lnot SPECIAL)).

(** The text is built in the 24 bytes of [sym], at address 0 here. *)
Definition resource_string (st : out_t) (start rend rflags field_width precision flags : Z) : option out_t :=
  let size := if has rflags IORESOURCE_IO then 4 else if has rflags IORESOURCE_MEM then 8 else -1 in
  let type := Z.lor SPECIAL (Z.lor SMALL ZEROPAD) in
  m ← zset (replicate 24 0) 0 (ch "[");
  '(m, p) ← number 0 24 (m, 1) start 16 size (-1) type;
  m ← zset m p (ch "-");
  '(m, p) ← number 0 24 (m, p + 1) rend 16 size (-1) type;
  m ← zset m p (ch "]");
  m ← zset m (p + 1) 0;
  string buf end_ st (Some m) field_width precision flags.

(** With [CONFIG_KALLSYMS]. *)
Definition symbol_string (st : out_t) (ptr field_width precision flags : Z) : option out_t :=
  string buf end_ st (Some (sprint_symbol ptr)) field_width precision flags.

Definition null_ptr : list Z := [ch "("; ch "n"; ch "u"; ch "l"; ch "l"; ch ")"; 0].

Definition pointer (fmt : list Z) (st : out_t) (ptr : Z) (t : target) (field_width precision flags : Z)
    : option out_t :=
  if ptr =? 0 then string buf end_ st (Some null_ptr) field_width precision flags else
  let plain flags :=
    let flags := Z.lor flags SMALL in
    let '(field_width, flags) :=
      if field_width =? -1 then (8, Z.lor flags ZEROPAD) else (field_width, flags) in
    number buf end_ st (u32 ptr) 16 field_width precision flags in
  c ← zget fmt 0;
  if (c =? ch "F") || (c =? ch "S") then symbol_string st ptr field_width precision flags else
  if c =? ch "R" then
    match t with
    | TResource s e f => resource_string st s e f field_width precision flags
    | TBytes _ => None
    end
  else if (c =? ch "m") || (c =? ch "M") then
    match t with
    | TBytes bs => mac_address_string st bs field_width precision (if c =? ch "m" then Z.lor flags SPECIAL else flags)
    | TResource _ _ _ => None
    end
  else if (c =? ch "i") || (c =? ch "I") then
    let flags := if c =? ch "i" then Z.lor flags SPECIAL else flags in
    c1 ← zget fmt 1;
    match t with
    | TBytes bs =>
        if c1 =? ch "6" then ip6_addr_string st bs field_width precision flags else
        if c1 =? ch "4" then ip4_addr_string st bs field_width precision flags else
        plain (Z.land flags (Z.lnot SPECIAL))
    | TResource _ _ _ => if (c1 =? ch "6") || (c1 =? ch "4") then None else plain (Z.land flags (Z.lnot SPECIAL))
    end
  else plain flags.

(** ** Format strings *)

(** After the [%]: the [repeat] loop over the flags. *)
Fixpoint parse_flags (fmt : list Z) (flags : Z) : option (Z * list Z) :=
  match fmt with
  | [] => None
  | c :: fmt' =>
      if c =? ch "-" then parse_flags fmt' (Z.lor flags LEFT)
      else if c =? ch "+" then parse_flags fmt' (Z.lor flags PLUS)
      else if c =? ch " " then parse_flags fmt' (Z.lor flags SPACE)
      else if c =? ch "#" then parse_flags fmt' (Z.lor flags SPECIAL)
      else if c =? ch "0" then parse_flags fmt' (Z.lor flags ZEROPAD)
      else Some (flags, fmt)
  end.

(** [va_arg (args, int)] *)
Definition next_int (args : list arg) : option (Z * list arg) :=
  match args with AWord w :: args' => Some (s32 w, args') | _ => None end.

Definition parse_width (fmt : list Z) (flags : Z) (args : list arg) : option (Z * Z * list Z * list arg) :=
  c ← zget fmt 0;
  if isdigit c then '(w, fmt) ← skip_atoi fmt 0; Some (w, flags, fmt, args)
  else if c =? ch "*" then
    '(w, args) ← next_int args;
    Some (if w <? 0 then (s32 (- w), Z.lor flags LEFT, drop 1 fmt, args) else (w, flags, drop 1 fmt, args))
  else Some (-1, flags, fmt, args).

Definition parse_precision (fmt : list Z) (args : list arg) : option (Z * list Z * list arg) :=
  c ← zget fmt 0;
  if c =? ch "." then
    let fmt := drop 1 fmt in
    c ← zget fmt 0;
    '(p, fmt, args) ← (if isdigit c then '(p, fmt) ← skip_atoi fmt 0; Some (p, fmt, args)
                       else if c =? ch "*" then '(p, args) ← next_int args; Some (p, drop 1 fmt, args)
                       else Some (-1, fmt, args));
    Some (if p <? 0 then 0 else p, fmt, args)
  else Some (-1, fmt, args).

Definition parse_qualifier (fmt : list Z) : option (Z * list Z) :=
  c ← zget fmt 0;
  if (c =? ch "h") || (c =? ch "l") || (c =? ch "L") || (c =? ch "Z") || (c =? ch "z") || (c =? ch "t") then
    let fmt := drop 1 fmt in
    c' ← zget fmt 0;
    Some (if (c =? ch "l") && (c' =? ch "l") then (ch "L", drop 1 fmt) else (c, fmt))
  else Some (-1, fmt).

(** The integer argument of a conversion, as an [unsigned long long]. *)
Definition next_num (qualifier flags : Z) (args : list arg) : option (Z * list arg) :=
  match args with
  | ALongLong v :: args' => if qualifier =? ch "L" then Some (u64 v, args') else None
  | AWord w :: args' =>
      if qualifier =? ch "L" then None
      else if (qualifier =? ch "Z") || (qualifier =? ch "z") then Some (u32 w, args')
      else if qualifier =? ch "t" then Some (u64 (s32 w), args')
      else if qualifier =? ch "h" then
        Some (if has flags SIGN then u64 (swrap 16 w) else u16 w, args')
      else Some (if has flags SIGN then u64 (s32 w) else u32 w, args')
  | _ => None
  end.

(** [while (--field_width > 0)] of [%c]. *)
Fixpoint char_pad (fuel : nat) (field_width : Z) (st : out_t) : option (out_t * Z) :=
  let field_width := s32 (field_width - 1) in
  if 0 <? field_width then
    match fuel with
    | O => None
    | S fuel' => st ← putc buf end_ (ch " ") st; char_pad fuel' field_width st
    end
  else Some (st, field_width).

(** [while (isalnum (fmt[1])) fmt++] *)
Fixpoint skip_alnum (fmt : list Z) : option (list Z) :=
  match fmt with [] => None | c :: fmt' => if isalnum c then skip_alnum fmt' else Some fmt end.

(** One conversion: [c] is its letter and [fmt] what follows it.  The results
    are the output, the rest of the arguments, of the format, and what [%n] stored. *)
Definition conversion (c : Z) (fmt : list Z) (field_width precision qualifier flags : Z)
    (args : list arg) (st : out_t) : option (out_t * list arg * list Z * list Z) :=
  let num base flags :=
    '(n, args) ← next_num qualifier flags args;
    st ← number buf end_ st n base field_width precision flags;
    Some (st, args, fmt, []) in
  if c =? ch "c" then
    '(st, fw) ← (if negb (has flags LEFT) then char_pad (Z.to_nat (s32 (field_width - 1))) field_width st
                 else Some (st, field_width));
    '(v, args) ← next_int args;
    st ← putc buf end_ (u8 v) st;
    '(st, _) ← char_pad (Z.to_nat (s32 (fw - 1))) fw st;
    Some (st, args, fmt, [])
  else if c =? ch "s" then
    match args with
    | AStr s :: args => st ← string buf end_ st s field_width precision flags; Some (st, args, fmt, [])
    | _ => None
    end
  else if c =? ch "p" then
    match args with
    | APtr v t :: args =>
        st ← pointer fmt st v t field_width precision flags;
        fmt ← skip_alnum fmt;
        Some (st, args, fmt, [])
    | _ => None
    end
  else if c =? ch "n" then
    match args with ACount :: args => Some (st, args, fmt, [snd st - buf]) | _ => None end
  else if c =? ch "%" then st ← putc buf end_ (ch "%") st; Some (st, args, fmt, [])
  else if c =? ch "o" then num 8 flags
  else if c =? ch "x" then num 16 (Z.lor flags SMALL)
  else if c =? ch "X" then num 16 flags
  else if (c =? ch "d") || (c =? ch "i") then num 10 (Z.lor flags SIGN)
  else if c =? ch "u" then num 10 flags
  else
    st ← putc buf end_ (ch "%") st;
    if negb (c =? 0) then st ← putc buf end_ c st; Some (st, args, fmt, [])
    else Some (st, args, 0 :: fmt, []).

(** The main loop; every turn uses at least one character of the format. *)
Fixpoint fmt_loop (fuel : nat) (fmt : list Z) (args : list arg) (st : out_t) : option (out_t * list Z) :=
  match fuel with
  | O => None
  | S fuel' =>
      c ← zget fmt 0;
      if c =? 0 then Some (st, [])
      else if negb (c =? ch "%") then st ← putc buf end_ c st; fmt_loop fuel' (drop 1 fmt) args st
      else
        '(flags, fmt) ← parse_flags (drop 1 fmt) 0;
        '(field_width, flags, fmt, args) ← parse_width fmt flags args;
        '(precision, fmt, args) ← parse_precision fmt args;
        '(qualifier, fmt) ← parse_qualifier fmt;
        c ← zget fmt 0;
        '(st, args, fmt, n) ← conversion c (drop 1 fmt) field_width precision qualifier flags args st;
        '(st, ns) ← fmt_loop fuel' fmt args st;
        Some (st, n ++ ns)
  end.

End Format.

Definition INT_MAX : Z := 2 ^ 31 - 1.

(** The memory from [buf] on, the return value, and what [%n] stored. *)
Definition vsnprintf (sprint_symbol : Z -> list Z) (m : list Z) (buf size : Z) (fmt : list Z) (args : list arg)
    : option (list Z * Z * list Z) :=
  if s32 size <? 0 then Some (m, 0, []) else
  let '(end_, size) :=
    if u32 (buf + size) <? buf then (2 ^ 32 - 1, 2 ^ 32 - 1 - buf) else (u32 (buf + size), size) in
  '((m, p), ns) ← fmt_loop buf end_ sprint_symbol (S (length fmt)) fmt args (m, buf);
  m ← (if 0 <? size then if p <? end_ then zset m (p - buf) 0 else zset m (end_ - 1 - buf) 0 else Some m);
  Some (m, s32 (p - buf), ns).

Definition vscnprintf (sprint_symbol : Z -> list Z) (m : list Z) (buf size : Z) (fmt : list Z) (args : list arg)
    : option (list Z * Z * list Z) :=
  '(m, i, ns) ← vsnprintf sprint_symbol m buf size fmt args;
  Some (m, if size <=? u32 i then s32 (size - 1) else i, ns).

Definition vsprintf (sprint_symbol : Z -> list Z) (m : list Z) (buf : Z) (fmt : list Z) (args : list arg)
    : option (list Z * Z * list Z) :=
  vsnprintf sprint_symbol m buf INT_MAX fmt args.

(** ** Digits of a number *)

(** Least significant first, by division. *)
Fixpoint to_digits (fuel : nat) (base n : Z) : list Z :=
  match fuel with
  | O => []
  | S fuel' => if n <? base then [n] else n mod base :: to_digits fuel' base (n / base)
  end.

Fixpoint of_digits (base : Z) (ds : list Z) : Z :=
  match ds with [] => 0 | d :: ds' => d + base * of_digits base ds' end.

Lemma of_to_digits base : 2 <= base -> forall fuel n, 0 <= n < 2 ^ Z.of_nat fuel ->
  of_digits base (to_digits fuel base n) = n.
Proof.
  intros Hb. induction fuel as [|fuel IH]; intros n Hn; cbn [to_digits].
  - cbn in *. lia.
  - destruct (Z.ltb_spec n base); cbn [of_digits]; [lia|].
    rewrite Nat2Z.inj_succ, Z.pow_succ_r in Hn by lia. rewrite IH.
    + pose proof (Z.div_mod n base ltac:(lia)). lia.
    + split; [apply Z.div_pos; lia|]. apply Z.div_lt_upper_bound; [lia|].
      pose proof (Z.pow_pos_nonneg 2 (Z.of_nat fuel)). nia.
Qed.

Lemma to_digits_range base : 2 <= base -> forall fuel n, 0 <= n ->
  Forall (fun d => 0 <= d < base) (to_digits fuel base n).
Proof.
  intros Hb. induction fuel as [|fuel IH]; intros n Hn; cbn [to_digits]; [done|].
  destruct (Z.ltb_spec n base); [repeat constructor; lia|]. constructor; [apply Z.mod_pos_bound; lia|].
  apply IH. apply Z.div_pos; lia.
Qed.

Lemma to_digits_ne fuel base n : (0 < fuel)%nat -> to_digits fuel base n <> [].
Proof. destruct fuel; cbn [to_digits]; [lia|]. by destruct (_ <? _). Qed.

(** Enough fuel is enough. *)
Lemma to_digits_more base : 2 <= base -> forall fuel n k, 0 <= n < 2 ^ Z.of_nat fuel -> (0 < fuel)%nat ->
  to_digits (fuel + k) base n = to_digits fuel base n.
Proof.
  intros Hb. induction fuel as [|fuel IH]; intros n k Hn Hf; [lia|]. cbn [to_digits Nat.add].
  destruct (Z.ltb_spec n base); [done|]. f_equal.
  rewrite Nat2Z.inj_succ, Z.pow_succ_r in Hn by lia.
  assert (Hd : 0 <= n / base < 2 ^ Z.of_nat fuel).
  { split; [apply Z.div_pos; lia|]. apply Z.div_lt_upper_bound; [lia|].
    pose proof (Z.pow_pos_nonneg 2 (Z.of_nat fuel)). nia. }
  destruct fuel; [|apply IH; [done|lia]]. cbn in Hn. lia.
Qed.

(** Multiplication by [0xcd / 2 ^ 11] divides by ten, for small numbers. *)
Lemma div10_cd x : 0 <= x < 1029 -> Z.shiftr (u32 (x * 0xcd)) 11 = x / 10.
Proof.
  intros. rewrite u32_id by (unfold is_u32; lia). rewrite Z.shiftr_div_pow2 by lia.
  change (2 ^ 11) with 2048. Z.to_euclidean_division_equations; lia.
Qed.

Lemma div10_d x : 0 <= x < 69 -> Z.shiftr (u32 (x * 0xd)) 7 = x / 10.
Proof.
  intros. rewrite u32_id by (unfold is_u32; lia). rewrite Z.shiftr_div_pow2 by lia.
  change (2 ^ 7) with 128. Z.to_euclidean_division_equations; lia.
Qed.

(** The four hexadecimal digits of a number below 100000. *)
Lemma hex_split q : 0 <= q < 100000 ->
  q = 4096 * Z.shiftr q 12 + 256 * Z.land (Z.shiftr q 8) 0xf + 16 * Z.land (Z.shiftr q 4) 0xf + Z.land q 0xf /\
  0 <= Z.shiftr q 12 <= 24 /\ 0 <= Z.land (Z.shiftr q 8) 0xf <= 15 /\
  0 <= Z.land (Z.shiftr q 4) 0xf <= 15 /\ 0 <= Z.land q 0xf <= 15.
Proof.
  intros. change 0xf with (2 ^ 4 - 1). rewrite !land_mask, !Z.shiftr_div_pow2 by lia.
  change (2 ^ 12) with 4096. change (2 ^ 8) with 256. change (2 ^ 4) with 16.
  Z.to_euclidean_division_equations; lia.
Qed.

(** Jones's remainders are the decimal digits. *)
Lemma jones q d3 d2 d1 r : q = 4096 * d3 + 256 * d2 + 16 * d1 + r ->
  0 <= d3 <= 24 -> 0 <= d2 <= 15 -> 0 <= d1 <= 15 -> 0 <= r <= 15 ->
  let e0 := 6 * (d3 + d2 + d1) + r in
  let e1 := e0 / 10 + 9 * d3 + 5 * d2 + d1 in
  let e2 := e1 / 10 + 2 * d2 in
  let e3 := e2 / 10 + 4 * d3 in
  (0 <= e0 < 340 /\ 0 <= e1 < 341 /\ 0 <= e2 < 65 /\ 0 <= e3 < 103) /\
  (q mod 10 = e0 mod 10 /\ (q / 10) mod 10 = e1 mod 10 /\ (q / 100) mod 10 = e2 mod 10 /\
   q / 1000 = e3) /\
  (e1 = 0 <-> q < 10) /\ (e2 = 0 /\ d3 = 0 <-> q < 100).
Proof.
  intros -> H3 H2 H1 Hr e0 e1 e2 e3.
  assert (B0 : 0 <= e0 < 340) by (unfold e0; lia).
  assert (B1 : 0 <= e1 < 341) by (unfold e1; Z.to_euclidean_division_equations; lia).
  assert (B2 : 0 <= e2 < 65) by (unfold e2; Z.to_euclidean_division_equations; lia).
  assert (B3 : 0 <= e3 < 103) by (unfold e3; Z.to_euclidean_division_equations; lia).
  set (q := 4096 * d3 + 256 * d2 + 16 * d1 + r).
  assert (Q0 : q = 10 * (409 * d3 + 25 * d2 + d1) + e0) by (unfold q, e0; lia).
  assert (Q1 : q / 10 = e1 + 10 * (40 * d3 + 2 * d2)) by (unfold e1; Z.to_euclidean_division_equations; lia).
  assert (Q2 : q / 100 = e2 + 40 * d3).
  { change 100 with (10 * 10). rewrite <- Z.div_div by lia. rewrite Q1. unfold e2.
    Z.to_euclidean_division_equations; lia. }
  assert (Q3 : q / 1000 = e3).
  { change 1000 with (100 * 10). rewrite <- Z.div_div by lia. rewrite Q2. unfold e3.
    Z.to_euclidean_division_equations; lia. }
  clearbody e0 e1 e2 e3 q. split; [done|]. split.
  - rewrite Q0 at 1. rewrite Q1, Q2. split_and!; try done; Z.to_euclidean_division_equations; lia.
  - split; Z.to_euclidean_division_equations; lia.
Qed.

Definition dec_chars (ds : list Z) : list Z := (fun d => d + 48) <$> ds.

Lemma ltb_iff a b c d : (a < b <-> c < d) -> (a <? b) = (c <? d).
Proof. intros. destruct (Z.ltb_spec a b), (Z.ltb_spec c d); (done || lia). Qed.

Lemma to_digits_dec q : 0 <= q < 100000 -> to_digits 64 10 q =
  if q <? 10 then [q] else q mod 10 ::
  (if q <? 100 then [q / 10] else (q / 10) mod 10 ::
  (if q <? 1000 then [q / 100] else (q / 100) mod 10 ::
  (if q <? 10000 then [q / 1000] else [(q / 1000) mod 10; q / 10000]))).
Proof.
  intros Hq. change 64%nat with (5 + 59)%nat. cbn [to_digits Nat.add].
  replace (q / 10 / 10) with (q / 100) by (rewrite Z.div_div; (done || lia)).
  replace (q / 100 / 10) with (q / 1000) by (rewrite Z.div_div; (done || lia)).
  replace (q / 1000 / 10) with (q / 10000) by (rewrite Z.div_div; (done || lia)).
  rewrite (ltb_iff (q / 10) 10 q 100), (ltb_iff (q / 100) 10 q 1000), (ltb_iff (q / 1000) 10 q 10000)
    by (Z.to_euclidean_division_equations; lia).
  rewrite (proj2 (Z.ltb_lt (q / 10000) 10)) by (Z.to_euclidean_division_equations; lia). done.
Qed.

Lemma put_dec_trunc_ok q : 0 <= q < 100000 -> put_dec_trunc q = dec_chars (to_digits 64 10 q).
Proof.
  intros Hq. rewrite to_digits_dec by done. destruct (hex_split q Hq) as (E & H3 & H2 & H1 & H0).
  unfold put_dec_trunc. change (ch "0") with 48.
  set (d3 := Z.shiftr q 12) in *. set (d2 := Z.land (Z.shiftr q 8) 0xf) in *.
  set (d1 := Z.land (Z.shiftr q 4) 0xf) in *. set (r := Z.land q 0xf) in *.
  destruct (jones q d3 d2 d1 r E H3 H2 H1 H0) as ((B0 & B1 & B2 & B3) & (Q0 & Q1 & Q2 & Q3) & Z1 & Z2).
  set (e0 := 6 * (d3 + d2 + d1) + r) in *. rewrite (u32_id e0), div10_cd by (unfold is_u32; lia).
  set (e1 := e0 / 10 + 9 * d3 + 5 * d2 + d1) in *. rewrite (u32_id e1), div10_cd by (unfold is_u32; lia).
  set (e2 := e1 / 10 + 2 * d2) in *. rewrite (u32_id e2), div10_d by (unfold is_u32; lia).
  set (e3 := e2 / 10 + 4 * d3) in *. rewrite (u32_id e3), div10_cd by (unfold is_u32; lia).
  clearbody d3 d2 d1 r e0 e1 e2 e3.
  assert (M0 : e0 - 10 * (e0 / 10) = q mod 10) by (rewrite Q0; Z.to_euclidean_division_equations; lia).
  assert (M1 : e1 - 10 * (e1 / 10) = (q / 10) mod 10) by (rewrite Q1; Z.to_euclidean_division_equations; lia).
  assert (M2 : e2 - 10 * (e2 / 10) = (q / 100) mod 10) by (rewrite Q2; Z.to_euclidean_division_equations; lia).
  assert (M3 : e3 - 10 * (e3 / 10) = (q / 1000) mod 10) by (rewrite Q3; Z.to_euclidean_division_equations; lia).
  rewrite M0, M1, M2, M3. assert (Hd : forall x, 0 <= x < 10 -> u8 (u32 x + 48) = x + 48).
  { intros x Hx. rewrite u32_id by (unfold is_u32; lia). apply u8_id. unfold is_u8. lia. }
  assert (Hm : forall x, 0 <= x mod 10 < 10) by (intros; apply Z.mod_pos_bound; lia).
  rewrite !Hd by apply Hm. assert (E4 : e3 / 10 = q / 10000).
  { rewrite <- Q3, Z.div_div by lia. done. }
  rewrite E4. assert (D4 : u8 (q / 10000 + 48) = q / 10000 + 48).
  { apply u8_id. unfold is_u8. Z.to_euclidean_division_equations; lia. }
  rewrite D4. unfold dec_chars. clear M0 M1 M2 M3 Q0 Q1 Q2 E4 D4 Hd Hm E H3 H2 H1 H0 B0 B1 B2 B3.
  assert (Z3 : e3 = 0 <-> q < 1000) by (rewrite <- Q3; Z.to_euclidean_division_equations; lia).
  assert (Z4 : q / 10000 = 0 <-> q < 10000) by (Z.to_euclidean_division_equations; lia).
  assert (S1 : q < 100 -> (q / 10) mod 10 = q / 10) by (intros; apply Z.mod_small; Z.to_euclidean_division_equations; lia).
  assert (S2 : q < 1000 -> (q / 100) mod 10 = q / 100) by (intros; apply Z.mod_small; Z.to_euclidean_division_equations; lia).
  assert (S3 : q < 10000 -> (q / 1000) mod 10 = q / 1000) by (intros; apply Z.mod_small; Z.to_euclidean_division_equations; lia).
  assert (S0 : q < 10 -> q mod 10 = q) by (intros; apply Z.mod_small; lia).
  set (a1 := q / 10) in *. set (a2 := q / 100) in *. set (a3 := q / 1000) in *. set (a4 := q / 10000) in *.
  set (b0 := q mod 10) in *. set (b1 := a1 mod 10) in *. set (b2 := a2 mod 10) in *. set (b3 := a3 mod 10) in *.
  clearbody a1 a2 a3 a4 b0 b1 b2 b3.
  destruct (Z.ltb_spec q 10); [rewrite (proj2 Z1), S0 by done; done|].
  rewrite (proj2 (Z.eqb_neq e1 0)) by lia. cbn [negb fmap list_fmap]. f_equal.
  destruct (Z.ltb_spec q 100).
  { destruct (proj2 Z2) as [-> ->]; [done|]. rewrite S1 by done. done. }
  replace (negb (e2 =? 0) || negb (d3 =? 0)) with true
    by (destruct (Z.eqb_spec e2 0), (Z.eqb_spec d3 0); cbn; (done || lia)).
  cbn [fmap list_fmap]. do 2 f_equal. destruct (Z.ltb_spec q 1000); [rewrite (proj2 Z3), S2 by done; done|].
  rewrite (proj2 (Z.eqb_neq e3 0)) by lia. cbn [negb fmap list_fmap]. f_equal.
  destruct (Z.ltb_spec q 10000); [rewrite (proj2 Z4), S3 by done; done|].
  rewrite (proj2 (Z.eqb_neq a4 0)) by lia. done.
Qed.

Lemma put_dec_full_ok q : 0 <= q < 100000 ->
  put_dec_full q = dec_chars [q mod 10; (q / 10) mod 10; (q / 100) mod 10; (q / 1000) mod 10; q / 10000].
Proof.
  intros Hq. destruct (hex_split q Hq) as (E & H3 & H2 & H1 & H0).
  unfold put_dec_full. change (ch "0") with 48.
  set (d3 := Z.shiftr q 12) in *. set (d2 := Z.land (Z.shiftr q 8) 0xf) in *.
  set (d1 := Z.land (Z.shiftr q 4) 0xf) in *. set (r := Z.land q 0xf) in *.
  destruct (jones q d3 d2 d1 r E H3 H2 H1 H0) as ((B0 & B1 & B2 & B3) & (Q0 & Q1 & Q2 & Q3) & _).
  set (e0 := 6 * (d3 + d2 + d1) + r) in *. rewrite (u32_id e0), div10_cd by (unfold is_u32; lia).
  set (e1 := e0 / 10 + 9 * d3 + 5 * d2 + d1) in *. rewrite (u32_id e1), div10_cd by (unfold is_u32; lia).
  set (e2 := e1 / 10 + 2 * d2) in *. rewrite (u32_id e2), div10_d by (unfold is_u32; lia).
  set (e3 := e2 / 10 + 4 * d3) in *. rewrite (u32_id e3), div10_cd by (unfold is_u32; lia).
  clearbody d3 d2 d1 r e0 e1 e2 e3. rewrite Q0, Q1, Q2.
  replace (q / 10000) with (e3 / 10) by (rewrite <- Q3, Z.div_div by lia; done). rewrite Q3.
  assert (Hd : forall x, 0 <= x < 1000 -> u8 (x -u 10 * (x / 10) + 48) = x mod 10 + 48).
  { intros x Hx. rewrite u32_id by (unfold is_u32; Z.to_euclidean_division_equations; lia).
    rewrite u8_id by (unfold is_u8; Z.to_euclidean_division_equations; lia).
    Z.to_euclidean_division_equations; lia. }
  rewrite !Hd by lia. cbn [dec_chars fmap list_fmap].
  rewrite u8_id by (unfold is_u8; Z.to_euclidean_division_equations; lia). done.
Qed.

Lemma to_digits_dec5 num : 100000 <= num < 2 ^ 64 ->
  to_digits 64 10 num =
    [num mod 10; (num / 10) mod 10; (num / 100) mod 10; (num / 1000) mod 10; (num / 10000) mod 10] ++
    to_digits 64 10 (num / 100000).
Proof.
  intros Hn. assert (E : to_digits (59 + 5) 10 (num / 100000) = to_digits 59 10 (num / 100000)).
  { apply (to_digits_more 10 ltac:(lia) 59 (num / 100000) 5); [|lia].
    change (2 ^ Z.of_nat 59) with 576460752303423488. Z.to_euclidean_division_equations; lia. }
  change (to_digits 64 10 (num / 100000)) with (to_digits (59 + 5) 10 (num / 100000)). rewrite E. clear E.
  change (to_digits 64 10 num) with (to_digits (5 + 59) 10 num). cbn [to_digits Nat.add app].
  replace (num / 10 / 10) with (num / 100) by (rewrite Z.div_div; (done || lia)).
  replace (num / 100 / 10) with (num / 1000) by (rewrite Z.div_div; (done || lia)).
  replace (num / 1000 / 10) with (num / 10000) by (rewrite Z.div_div; (done || lia)).
  replace (num / 10000 / 10) with (num / 100000) by (rewrite Z.div_div; (done || lia)).
  rewrite (proj2 (Z.ltb_ge num 10)), (proj2 (Z.ltb_ge (num / 10) 10)), (proj2 (Z.ltb_ge (num / 100) 10)),
    (proj2 (Z.ltb_ge (num / 1000) 10)), (proj2 (Z.ltb_ge (num / 10000) 10))
    by (Z.to_euclidean_division_equations; lia).
  done.
Qed.

Lemma put_dec_loop_ok : forall fuel num, 0 <= num < 100000 ^ (Z.of_nat fuel + 1) -> num < 2 ^ 64 ->
  put_dec_loop fuel num = Some (dec_chars (to_digits 64 10 num)).
Proof.
  induction fuel as [|fuel IH]; intros num Hn H64; cbn [put_dec_loop]; destruct (Z.ltb_spec num 100000).
  - rewrite put_dec_trunc_ok by lia. done.
  - change (100000 ^ (Z.of_nat 0 + 1)) with 100000 in Hn. lia.
  - rewrite put_dec_trunc_ok by lia. done.
  - rewrite Nat2Z.inj_succ, Z.add_succ_l, Z.pow_succ_r in Hn by lia. rewrite IH.
    + cbn [mbind option_bind]. f_equal. rewrite (to_digits_dec5 num) by done.
      rewrite put_dec_full_ok by (apply Z.mod_pos_bound; lia). unfold dec_chars. rewrite fmap_app. f_equal. f_equal.
      f_equal; [|f_equal; [|f_equal; [|f_equal; [|f_equal]]]]; Z.to_euclidean_division_equations; lia.
    + split; [apply Z.div_pos; lia|]. apply Z.div_lt_upper_bound; lia.
    + apply Z.div_lt_upper_bound; lia.
Qed.

Lemma put_dec_ok num : is_u64 num -> put_dec num = Some (dec_chars (to_digits 64 10 num)).
Proof.
  intros Hn. apply put_dec_loop_ok; [|apply Hn]. unfold is_u64 in Hn.
  change (100000 ^ (Z.of_nat 4 + 1)) with 10000000000000000000000000. lia.
Qed.

Definition digit_char (locase d : Z) : Z := Z.lor (zat digits d) locase.

Lemma u64_div num b : 0 <= num < 2 ^ 64 -> 8 <= b -> 0 <= num / b < 2 ^ 61.
Proof.
  intros. split; [apply Z.div_pos; lia|]. apply Z.div_lt_upper_bound; [lia|].
  change (2 ^ 64) with (8 * 2 ^ 61) in *. nia.
Qed.

Lemma to_digits_step base num : 8 <= base -> 0 <= num < 2 ^ 64 -> base <= num ->
  to_digits 64 base num = num mod base :: to_digits 64 base (num / base).
Proof.
  intros Hb Hn Hge. pose proof (u64_div num base Hn Hb).
  assert (E : to_digits (63 + 1) base (num / base) = to_digits 63 base (num / base)).
  { apply (to_digits_more base ltac:(lia) 63 (num / base) 1); [|lia].
    change (2 ^ Z.of_nat 63) with (4 * 2 ^ 61). lia. }
  change (to_digits 64 base (num / base)) with (to_digits (63 + 1) base (num / base)). rewrite E.
  change (to_digits 64 base num) with
    (if num <? base then [num] else num mod base :: to_digits 63 base (num / base)).
  by rewrite (proj2 (Z.ltb_ge _ _)).
Qed.

Lemma pow2_digits_ok s locase : 3 <= s <= 4 -> forall fuel num, 0 <= num < 2 ^ (s * Z.of_nat fuel) ->
  num < 2 ^ 64 -> (0 < fuel)%nat ->
  pow2_digits fuel num (2 ^ s - 1) s locase = Some (digit_char locase <$> to_digits 64 (2 ^ s) num).
Proof.
  intros Hs. assert (Hb : 8 <= 2 ^ s <= 16) by (assert (s = 3 \/ s = 4) as [-> | ->] by lia; cbn; lia).
  induction fuel as [|fuel IH]; intros num Hn H64 Hf; [lia|]. cbn [pow2_digits].
  assert (Hm : Z.land (u8 num) (2 ^ s - 1) = num mod 2 ^ s).
  { rewrite land_mask by lia. unfold u8, wrap. assert (s = 3 \/ s = 4) as [-> | ->] by lia; cbn [Z.pow Z.pow_pos Pos.iter Z.mul Pos.mul];
      Z.to_euclidean_division_equations; lia. }
  rewrite Hm. pose proof (Z.mod_pos_bound num (2 ^ s) ltac:(lia)) as Hr.
  rewrite zget_zat by (change (len digits) with 16; lia). cbn [mbind option_bind].
  fold (digit_char locase (num mod 2 ^ s)). rewrite Z.shiftr_div_pow2 by lia.
  destruct (Z.eqb_spec (num / 2 ^ s) 0) as [E|E].
  - apply Z.div_small_iff in E; [|lia]. rewrite Z.mod_small by lia.
    change (to_digits 64 (2 ^ s) num) with (if num <? 2 ^ s then [num] else num mod 2 ^ s :: to_digits 63 (2 ^ s) (num / 2 ^ s)).
    rewrite (proj2 (Z.ltb_lt _ _)) by lia. done.
  - assert (Hge : 2 ^ s <= num) by (destruct (Z_lt_le_dec num (2 ^ s)); [rewrite Z.div_small in E by lia; done|done]).
    pose proof (u64_div num (2 ^ s) ltac:(lia) ltac:(lia)) as Hd. rewrite IH.
    + cbn [mbind option_bind]. rewrite (to_digits_step (2 ^ s) num (proj1 Hb)); [done|lia|done].
    + split; [lia|]. apply Z.div_lt_upper_bound; [lia|]. rewrite <- Z.pow_add_r by lia.
      replace (s + s * Z.of_nat fuel) with (s * Z.of_nat (S fuel)) by lia. lia.
    + lia.
    + destruct fuel; [|lia]. replace (s * Z.of_nat 1) with s in Hn by lia. lia.
Qed.

Lemma dec_digit_char locase d : locase = 0 \/ locase = 32 -> 0 <= d < 10 -> digit_char locase d = d + 48.
Proof.
  intros Hl Hd. assert (d = 0 \/ d = 1 \/ d = 2 \/ d = 3 \/ d = 4 \/ d = 5 \/ d = 6 \/ d = 7 \/ d = 8 \/ d = 9) as H by lia.
  destruct Hl as [-> | ->]; repeat (destruct H as [-> | H]; [reflexivity|]); subst; reflexivity.
Qed.

Definition base_ok (base : Z) : Prop := base = 8 \/ base = 10 \/ base = 16.

(** The digits the code generates, whatever the base. *)
Lemma gen_digits num base locase : base_ok base -> is_u64 num -> locase = 0 \/ locase = 32 ->
  (if num =? 0 then Some [ch "0"]
   else if negb (base =? 10) then pow2_digits 22 num (base - 1) (if base =? 16 then 4 else 3) locase
   else put_dec num) = Some (digit_char locase <$> to_digits 64 base num).
Proof.
  intros Hb Hn Hl. unfold is_u64 in Hn. destruct (Z.eqb_spec num 0) as [->|H0].
  { destruct Hb as [-> |[-> | ->]], Hl as [-> | ->]; reflexivity. }
  destruct Hb as [-> |[-> | ->]]; cbn [Z.eqb Pos.eqb negb].
  - apply (pow2_digits_ok 3 locase ltac:(lia) 22); [cbn; lia|lia|lia].
  - rewrite put_dec_ok by done. f_equal. unfold dec_chars. apply list_fmap_ext. intros i d Hd.
    symmetry. apply dec_digit_char; [done|].
    by apply (proj1 (Forall_lookup _ _) (to_digits_range 10 ltac:(lia) 64 num ltac:(lia)) i).
  - apply (pow2_digits_ok 4 locase ltac:(lia) 22); [cbn; lia|lia|lia].
Qed.

(** ** The text of a conversion *)

(** Field widths and precisions far from the limits of [int]. *)
Definition sane (n : Z) : bool := (- 2 ^ 29 <=? n) && (n <=? 2 ^ 29).

(** Sign, prefix, zeros up to the precision, digits; padded to the field width
    with spaces on the right ([LEFT]), zeros after the prefix ([ZEROPAD]) or spaces
    on the left. *)
Definition sign_text (num type : Z) : list Z :=
  if has type SIGN then
    if s64 num <? 0 then [ch "-"] else if has type PLUS then [ch "+"]
    else if has type SPACE then [ch " "] else []
  else [].

Definition magnitude (num type : Z) : Z :=
  if has type SIGN && (s64 num <? 0) then - s64 num else num.

Definition prefix_text (base type : Z) : list Z :=
  if has type SPECIAL && negb (base =? 10) then
    ch "0" :: (if base =? 16 then [Z.lor (ch "X") (Z.land type SMALL)] else [])
  else [].

Definition digits_text (num base type : Z) : list Z :=
  rev (digit_char (Z.land type SMALL) <$> to_digits 64 base num).

Definition number_text (num base size precision type : Z) : list Z :=
  let sign := sign_text num type in
  let pfx := prefix_text base type in
  let ds := digits_text (magnitude num type) base type in
  let body := replicate (Z.to_nat (precision - len ds)) (ch "0") ++ ds in
  let n := Z.to_nat (size - len sign - len pfx - len body) in
  if has type LEFT then sign ++ pfx ++ body ++ replicate n (ch " ")
  else if has type ZEROPAD then sign ++ pfx ++ replicate n (ch "0") ++ body
  else replicate n (ch " ") ++ sign ++ pfx ++ body.

Definition string_text (s : option (list Z)) (field_width precision flags : Z) : option (list Z) :=
  let s := default null_string s in
  n ← strnlen_int s precision;
  cs ← mem_read s 0 n;
  let blanks := replicate (Z.to_nat (field_width - n)) (ch " ") in
  Some (if has flags LEFT then cs ++ blanks else blanks ++ cs).

(** ** Emission: what a routine writes does not depend on the buffer *)

Section Emit.
Context (buf end_ : Z).

Definition put1 (st : out_t) (c : Z) : out_t :=
  (if snd st <? end_ then <[Z.to_nat (snd st - buf) := c]> (fst st) else fst st, snd st + 1).

Definition puts (l : list Z) (st : out_t) : out_t := foldl put1 st l.

(** The pointer is in or past the buffer, and the memory reaches to [end_]. *)
Definition good (st : out_t) : Prop := 0 <= buf <= snd st /\ end_ - buf <= len (fst st).

(** [n] more characters do not take the pointer past the top of the address space. *)
Definition room_for (n : Z) (st : out_t) : Prop := good st /\ snd st + n < 2 ^ 32.

(** [f] appends the text [l], cut off at [end_]. *)
Definition emits (f : out_t -> option out_t) (l : list Z) : Prop :=
  forall st, room_for (len l) st -> f st = Some (puts l st).

Definition emits_val {A} (f : out_t -> option (out_t * A)) (l : list Z) (a : A) : Prop :=
  forall st, room_for (len l) st -> f st = Some (puts l st, a).

Lemma puts_app l l' st : puts (l ++ l') st = puts l' (puts l st).
Proof. apply foldl_app. Qed.

Lemma good_puts l : forall st, good st -> good (puts l st).
Proof.
  induction l as [|c l IH]; intros st Hg; [done|]. apply IH. destruct Hg as [H1 H2]. unfold put1. split; cbn [fst snd]; [lia|].
  destruct (snd st <? end_); [rewrite length_insert|]; done.
Qed.

Lemma snd_puts l : forall st, snd (puts l st) = snd st + len l.
Proof.
  induction l as [|c l IH]; intros st; [cbn; lia|].
  change (puts (c :: l) st) with (puts l (put1 st c)). rewrite IH. cbn [put1 snd length]. lia.
Qed.

Lemma room_puts n l st : room_for (len l + n) st -> room_for n (puts l st).
Proof. intros [Hg Hr]. split; [by apply good_puts|]. rewrite snd_puts. lia. Qed.

Lemma room_le n n' st : n' <= n -> room_for n st -> room_for n' st.
Proof. intros Hn [Hg Hr]. split; [done|lia]. Qed.

(** There is room for the next piece of a text that fits as a whole. *)
Ltac fits :=
  repeat apply room_puts; (eapply room_le; [|eassumption]);
  rewrite ?length_app, ?length_replicate, ?length_rev; cbn [length]; rewrite ?length_replicate, ?length_app, ?length_rev; lia.

Lemma putc_emits c : emits (putc buf end_ c) [c].
Proof.
  intros [m p] [[H1 H2] H3]. cbn [fst snd length] in *. unfold putc. cbn [puts foldl]. unfold put1. cbn [fst snd].
  destruct (Z.ltb_spec p end_); [rewrite zset_spec by lia; cbn [mbind option_bind]|]; f_equal; f_equal; apply u32_id; unfold is_u32; lia.
Qed.

Lemma emits_eq f l l' : emits f l -> l = l' -> emits f l'.
Proof. by intros H <-. Qed.

Lemma emits_nil : emits Some [].
Proof. by intros st _. Qed.

Lemma emits_bind f g l l' : emits f l -> emits g l' -> emits (fun st => st ← f st; g st) (l ++ l').
Proof.
  intros Hf Hg st Hst. rewrite length_app in Hst. rewrite Hf by fits. cbn [mbind option_bind]. rewrite Hg by fits. by rewrite puts_app.
Qed.

Lemma put_all_emits l : emits (put_all buf end_ l) l.
Proof.
  induction l as [|c l IH]; [apply emits_nil|]. change (c :: l) with ([c] ++ l). cbn [put_all].
  apply (emits_bind (putc buf end_ c)); [apply putc_emits|apply IH].
Qed.

(** How often the padding loops turn. *)
Definition pad_n (size : Z) : nat := Z.to_nat (s32 (size - 1) + 1).

Lemma pad_emits c size : emits_val (pad buf end_ c size) (replicate (pad_n size) c) (Z.min (s32 (size - 1)) (-1)).
Proof.
  unfold pad, pad_n. remember (Z.to_nat (s32 (size - 1) + 1)) as n eqn:En.
  revert size En. induction n as [|n IH]; intros size En st Hst; cbn [pad_loop];
    pose proof (s32_range (size - 1)) as Hr; unfold is_s32 in Hr.
  - destruct (Z.leb_spec 0 (s32 (size - 1))); [lia|]. cbn [replicate puts foldl]. do 2 f_equal. lia.
  - destruct (Z.leb_spec 0 (s32 (size - 1))); [|lia]. rewrite putc_emits by fits. cbn [mbind option_bind].
    assert (E : s32 (s32 (size - 1) - 1) = s32 (size - 1) - 1) by (apply s32_id; unfold is_s32; lia).
    rewrite IH; [|rewrite E; lia|fits]. rewrite E. change (replicate (S n) c) with ([c] ++ replicate n c).
    rewrite puts_app. do 2 f_equal. lia.
Qed.

Lemma zero_loop_emits i : 0 < i -> forall n precision, precision = i + Z.of_nat n -> is_s32 precision ->
  forall fuel, (n <= fuel)%nat -> emits (zero_loop buf end_ fuel i precision) (replicate n (ch "0")).
Proof.
  intros Hi. induction n as [|n IH]; intros precision Hp Hs fuel Hf st Hst; unfold is_s32 in Hs.
  - destruct fuel; cbn [zero_loop]; rewrite (s32_id (precision - 1)) by (unfold is_s32; lia);
      destruct (Z.leb_spec i (precision - 1)); (lia || done).
  - destruct fuel as [|fuel]; [lia|]. cbn [zero_loop]. rewrite (s32_id (precision - 1)) by (unfold is_s32; lia).
    destruct (Z.leb_spec i (precision - 1)); [|lia]. rewrite putc_emits by fits. cbn [mbind option_bind].
    rewrite IH; [|lia|unfold is_s32; lia|lia|fits].
    change (replicate (S n) (ch "0")) with ([ch "0"] ++ replicate n (ch "0")). by rewrite puts_app.
Qed.

Lemma width_emits n : forall fuel fw, fuel = Z.to_nat (fw - n) -> is_s32 fw -> 0 <= n -> forall fuel', (fuel <= fuel')%nat ->
  emits_val (width_loop buf end_ fuel' n fw) (replicate fuel (ch " ")) (s32 (Z.min fw n - 1)).
Proof.
  induction fuel as [|fuel IH]; intros fw Hf Hs Hn fuel' Hf' st Hst; unfold is_s32 in Hs.
  - replace (Z.min fw n) with fw by lia. destruct fuel'; cbn [width_loop]; destruct (Z.ltb_spec n fw); try lia; done.
  - destruct fuel' as [|fuel']; [lia|]. cbn [width_loop]. destruct (Z.ltb_spec n fw); [|lia].
    rewrite putc_emits by fits. cbn [mbind option_bind]. rewrite (s32_id (fw - 1)) by (unfold is_s32; lia).
    rewrite IH; [|lia|unfold is_s32; lia|done|lia|fits].
    change (replicate (S fuel) (ch " ")) with ([ch " "] ++ replicate fuel (ch " ")). rewrite puts_app.
    do 2 f_equal. replace (Z.min (fw - 1) n) with (Z.min fw n) by lia. done.
Qed.

Lemma char_pad_emits : forall n fw, n = Z.to_nat (s32 (fw - 1)) ->
  emits_val (char_pad buf end_ n fw) (replicate n (ch " ")) (Z.min (s32 (fw - 1)) 0).
Proof.
  induction n as [|n IH]; intros fw En st Hst; cbn [char_pad]; pose proof (s32_range (fw - 1)) as Hr; unfold is_s32 in Hr.
  - destruct (Z.ltb_spec 0 (s32 (fw - 1))); [lia|]. do 2 f_equal. lia.
  - destruct (Z.ltb_spec 0 (s32 (fw - 1))); [|lia]. rewrite putc_emits by fits. cbn [mbind option_bind].
    assert (E : s32 (s32 (fw - 1) - 1) = s32 (fw - 1) - 1) by (apply s32_id; unfold is_s32; lia).
    rewrite IH; [|rewrite E; lia|fits]. rewrite E.
    change (replicate (S n) (ch " ")) with ([ch " "] ++ replicate n (ch " ")). rewrite puts_app. do 2 f_equal. lia.
Qed.

Lemma emits_pad c size : is_s32 size -> - 2 ^ 31 < size ->
  emits_val (pad buf end_ c size) (replicate (Z.to_nat size) c) (if 0 <=? size then -1 else size - 1).
Proof.
  intros Hs Hm st Hst. unfold is_s32 in *.
  assert (E : pad_n size = Z.to_nat size) by (unfold pad_n; rewrite s32_id by (unfold is_s32; lia); f_equal; lia).
  rewrite pad_emits by (rewrite E; done). rewrite E, s32_id by (unfold is_s32; lia). do 2 f_equal. destruct (Z.leb_spec 0 size); lia.
Qed.

Lemma pad_skip c size : is_s32 size -> - 2 ^ 31 < size <= 0 ->
  forall st, room_for 0 st -> pad buf end_ c size st = Some (st, size - 1).
Proof.
  intros Hs Hm st Hst. rewrite emits_pad by (done || lia || (rewrite length_replicate; replace (Z.to_nat size) with 0%nat by lia; done)). replace (Z.to_nat size) with 0%nat by lia.
  cbn [replicate puts foldl]. do 2 f_equal. destruct (Z.leb_spec 0 size); lia.
Qed.

Lemma has_lor a b type : has type (Z.lor a b) = has type a || has type b.
Proof.
  unfold has. rewrite Z.land_lor_distr_r.
  destruct (Z.eqb_spec (Z.land type a) 0) as [Ea|Ea], (Z.eqb_spec (Z.land type b) 0) as [Eb|Eb]; cbn [negb orb];
    try rewrite Ea; try rewrite Eb; [done| | |];
    apply negb_true_iff, Z.eqb_neq; rewrite Z.lor_eq_0_iff; tauto.
Qed.

Lemma has_clear type f : Z.land (Z.lnot ZEROPAD) f = f -> has (Z.land type (Z.lnot ZEROPAD)) f = has type f.
Proof. intros E. unfold has. by rewrite <- Z.land_assoc, E. Qed.

Lemma has_cleared type : has (Z.land type (Z.lnot ZEROPAD)) ZEROPAD = false.
Proof. unfold has. rewrite <- Z.land_assoc. change (Z.land (Z.lnot ZEROPAD) ZEROPAD) with 0. by rewrite Z.land_0_r. Qed.

Lemma small_case type : Z.land type SMALL = 0 \/ Z.land type SMALL = 32.
Proof.
  destruct (Z.testbit type 5) eqn:E; [right|left]; apply Z.bits_inj'; intros i Hi; rewrite Z.land_spec.
  - change SMALL with (2 ^ 5). change 32 with (2 ^ 5). rewrite testbit_pow2 by lia.
    destruct (Z.eqb_spec i 5) as [->|]; [by rewrite E|by rewrite andb_false_r].
  - change SMALL with (2 ^ 5). rewrite testbit_pow2, Z.bits_0 by lia. destruct (Z.eqb_spec i 5) as [->|]; [by rewrite E|by rewrite andb_false_r].
Qed.

Lemma sign_ok num size type : is_u64 num -> - 2 ^ 30 <= size <= 2 ^ 30 ->
  (if has type SIGN then
     if s64 num <? 0 then (ch "-", u64 (- s64 num), s32 (size - 1))
     else if has type PLUS then (ch "+", num, s32 (size - 1))
     else if has type SPACE then (ch " ", num, s32 (size - 1))
     else (0, num, size)
   else (0, num, size)) =
  (default 0 (head (sign_text num type)), magnitude num type, size - len (sign_text num type)) /\
  is_u64 (magnitude num type) /\ len (sign_text num type) <= 1.
Proof.
  intros Hn Hs. unfold is_u64 in *. rewrite (s32_id (size - 1)) by (unfold is_s32; lia). unfold sign_text, magnitude.
  destruct (has type SIGN); cbn [andb]; [|cbn; rewrite Z.sub_0_r; done || lia].
  destruct (Z.ltb_spec (s64 num) 0) as [H|H].
  - assert (Hr : 0 < - s64 num < 2 ^ 64) by (unfold s64, swrap in *; Z.to_euclidean_division_equations; lia).
    rewrite u64_id by (unfold is_u64; lia). cbn. split; [done|lia].
  - destruct (has type PLUS); [cbn; split; [done|lia]|]. destruct (has type SPACE); [cbn; split; [done|lia]|].
    cbn. rewrite Z.sub_0_r. split; [done|lia].
Qed.

Lemma sign_nonzero num type : Forall (fun c => c <> 0) (sign_text num type).
Proof.
  unfold sign_text. destruct (has type SIGN); [|done]. destruct (s64 num <? 0); [by repeat constructor|].
  destruct (has type PLUS); [by repeat constructor|]. destruct (has type SPACE); by repeat constructor.
Qed.

Lemma emits_sign l : (length l <= 1)%nat -> Forall (fun c => c <> 0) l ->
  emits (fun st => if negb (default 0 (head l) =? 0) then putc buf end_ (default 0 (head l)) st else Some st) l.
Proof.
  intros Hl Hz. destruct l as [|c [|? ?]]; [apply emits_nil| |cbn in Hl; lia].
  apply Forall_cons in Hz as [Hz _]. cbn [head from_option id].
  rewrite (proj2 (Z.eqb_neq c 0)) by done. apply putc_emits.
Qed.

Lemma emits_prefix base type :
  emits (fun st => if has type SPECIAL && negb (base =? 10) then
           st ← putc buf end_ (ch "0") st;
           if base =? 16 then putc buf end_ (Z.lor (ch "X") (Z.land type SMALL)) st else Some st
         else Some st) (prefix_text base type).
Proof.
  unfold prefix_text. destruct (_ && _); [|apply emits_nil].
  change (ch "0" :: ?l) with ([ch "0"] ++ l). apply (emits_bind (putc buf end_ (ch "0"))); [apply putc_emits|].
  destruct (base =? 16); [apply putc_emits|apply emits_nil].
Qed.

Lemma digits_text_len num base type : base_ok base -> 0 <= num < 2 ^ 64 -> 0 < len (digits_text num base type) <= 64.
Proof.
  intros Hb Hn. unfold digits_text. rewrite length_rev, length_fmap. split.
  - pose proof (to_digits_ne 64 base num ltac:(lia)). destruct (to_digits 64 base num); [done|]. cbn [length]. lia.
  - assert (H : forall fuel n, (length (to_digits fuel base n) <= fuel)%nat).
    { induction fuel as [|fuel IH]; intros n; cbn [to_digits]; [done|]. destruct (_ <? _); cbn [length]; [lia|].
      specialize (IH (n / base)). lia. }
    specialize (H 64%nat num). lia.
Qed.

(** The steps of [number] after the digits are generated. *)
Lemma number_tail sg base type size precision tmp T :
  T = (if has type LEFT then Z.land type (Z.lnot ZEROPAD) else type) ->
  (length sg <= 1)%nat -> Forall (fun c => c <> 0) sg -> 0 < len tmp <= precision -> precision <= 2 ^ 30 ->
  - 2 ^ 30 - 3 <= size <= 2 ^ 30 ->
  emits (fun st =>
    '(st, size) ← (if negb (has T (ZEROPAD + LEFT)) then pad buf end_ (ch " ") size st else Some (st, size));
    st ← (if negb (default 0 (head sg) =? 0) then putc buf end_ (default 0 (head sg)) st else Some st);
    st ← (if has type SPECIAL && negb (base =? 10) then
            st ← putc buf end_ (ch "0") st;
            if base =? 16 then putc buf end_ (Z.lor (ch "X") (Z.land type SMALL)) st else Some st
          else Some st);
    '(st, size) ← (if negb (has T LEFT)
                   then pad buf end_ (if has T ZEROPAD then ch "0" else ch " ") size st
                   else Some (st, size));
    st ← zero_loop buf end_ (Z.to_nat precision) (len tmp) precision st;
    st ← put_all buf end_ (rev tmp) st;
    '(st, size) ← pad buf end_ (ch " ") size st;
    Some st)
  (let body := replicate (Z.to_nat (precision - len tmp)) (ch "0") ++ rev tmp in
   let n := Z.to_nat size in
   if has type LEFT then sg ++ prefix_text base type ++ body ++ replicate n (ch " ")
   else if has type ZEROPAD then sg ++ prefix_text base type ++ replicate n (ch "0") ++ body
   else replicate n (ch " ") ++ sg ++ prefix_text base type ++ body).
Proof.
  intros HT Hsl Hsz Hi Hp Hs st Hst. cbv zeta in Hst |- *.
  pose proof (emits_sign sg Hsl Hsz) as Es. pose proof (emits_prefix base type) as Ep. unfold emits in Es, Ep. cbv beta in Es, Ep.
  pose proof (zero_loop_emits (len tmp) ltac:(lia) (Z.to_nat (precision - len tmp)) precision ltac:(lia)
    ltac:(unfold is_s32; lia) (Z.to_nat precision) ltac:(lia)) as Ez.
  pose proof (put_all_emits (rev tmp)) as Ed. assert (Hs32 : is_s32 size) by (unfold is_s32; lia).
  assert (HL : has T LEFT = has type LEFT) by (rewrite HT; destruct (has type LEFT) eqn:E; [by rewrite has_clear|done]).
  change (ZEROPAD + LEFT) with (Z.lor ZEROPAD LEFT). rewrite has_lor, HL.
  destruct (has type LEFT) eqn:EL; rewrite ?EL in Hst.
  - rewrite orb_true_r. cbn [negb mbind option_bind].
    rewrite Es by fits. cbn [mbind option_bind]. rewrite Ep by fits. cbn [mbind option_bind].
    rewrite Ez by fits. cbn [mbind option_bind].
    rewrite Ed by fits. cbn [mbind option_bind].
    rewrite emits_pad by (done || lia || fits). cbn [mbind option_bind].
    by rewrite <- !puts_app, !app_assoc.
  - subst T. rewrite orb_false_r. destruct (has type ZEROPAD) eqn:EZ; rewrite ?EZ in Hst; cbn [negb mbind option_bind].
    + rewrite Es by fits. cbn [mbind option_bind]. rewrite Ep by fits. cbn [mbind option_bind].
      rewrite emits_pad by (done || lia || fits). cbn [mbind option_bind].
      rewrite Ez by fits. cbn [mbind option_bind].
      rewrite Ed by fits. cbn [mbind option_bind].
      rewrite pad_skip; [|unfold is_s32; destruct (0 <=? size); lia|destruct (Z.leb_spec 0 size); lia|fits].
      cbn [mbind option_bind]. by rewrite <- !puts_app, !app_assoc.
    + rewrite emits_pad by (done || lia || fits). cbn [mbind option_bind].
      rewrite Es by fits. cbn [mbind option_bind].
      rewrite Ep by fits. cbn [mbind option_bind].
      rewrite pad_skip; [|unfold is_s32; destruct (0 <=? size); lia|destruct (Z.leb_spec 0 size); lia|fits].
      cbn [mbind option_bind]. rewrite Ez by fits. cbn [mbind option_bind].
      rewrite Ed by fits. cbn [mbind option_bind].
      rewrite pad_skip; [|unfold is_s32; destruct (0 <=? size); lia|destruct (Z.leb_spec 0 size); lia|fits].
      cbn [mbind option_bind]. by rewrite <- !puts_app, !app_assoc.
Qed.

Lemma sane_spec n : sane n = true -> - 2 ^ 29 <= n <= 2 ^ 29.
Proof. unfold sane. rewrite andb_true_iff, !Z.leb_le. done. Qed.

Lemma number_emits num base size precision type : base_ok base -> is_u64 num ->
  sane size = true -> sane precision = true ->
  emits (fun st => number buf end_ st num base size precision type) (number_text num base size precision type).
Proof.
  intros Hb Hn Hs%sane_spec Hp%sane_spec. set (T := if has type LEFT then Z.land type (Z.lnot ZEROPAD) else type).
  assert (Hsg : forall f, Z.land (Z.lnot ZEROPAD) f = f -> has T f = has type f)
    by (intros f Hf; unfold T; destruct (has type LEFT); [by apply has_clear|done]).
  assert (ES : sign_text num T = sign_text num type) by (unfold sign_text; by rewrite !Hsg).
  assert (EM : magnitude num T = magnitude num type) by (unfold magnitude; by rewrite !Hsg).
  destruct (sign_ok num size T Hn ltac:(lia)) as (Etr & Hmag & Hsl). rewrite ES, EM in *.
  unfold number, number_text. cbv zeta. fold T. rewrite Etr. cbv iota beta.
  rewrite (gen_digits (magnitude num type) base _ Hb Hmag (small_case type)). cbn [mbind option_bind].
  set (tmp := digit_char (Z.land type SMALL) <$> to_digits 64 base (magnitude num type)).
  assert (Ed : digits_text (magnitude num type) base type = rev tmp) by done. rewrite !Ed.
  pose proof (digits_text_len (magnitude num type) base type Hb Hmag) as Hlt. rewrite Ed, length_rev in Hlt.
  set (prec := if precision <? len tmp then len tmp else precision).
  assert (Hprec : prec = Z.max precision (len tmp)) by (unfold prec; destruct (Z.ltb_spec precision (len tmp)); lia).
  set (sg := sign_text num type) in *.
  assert (Hpl : 0 <= len (prefix_text base type) <= 2) by (unfold prefix_text; destruct (_ && _), (base =? 16); cbn; lia).
  set (size1 := if has type SPECIAL && negb (base =? 10) then
      if base =? 16 then s32 (s32 (size - len sg - 1) - 1) else s32 (size - len sg - 1) else size - len sg).
  assert (Es1 : size1 = size - len sg - len (prefix_text base type)).
  { unfold size1, prefix_text. destruct (_ && _), (base =? 16); cbn [length]; rewrite ?s32_id; unfold is_s32; rewrite ?s32_id; unfold is_s32; lia. }
  rewrite (s32_id (size1 - prec)) by (unfold is_s32; lia).
  eapply emits_eq;
    [apply (number_tail sg base type (size1 - prec) prec tmp T eq_refl ltac:(lia)); [apply sign_nonzero|lia|lia|lia]|].
  cbv zeta. rewrite Es1, Hprec. rewrite !length_app, !length_replicate, length_rev.
  replace (Z.to_nat (precision - len tmp)) with (Z.to_nat (Z.max precision (len tmp) - len tmp)) by lia.
  replace (size - len sg - len (prefix_text base type) - Z.max precision (len tmp)) with
    (size - len sg - len (prefix_text base type) -
     Z.of_nat (Z.to_nat (Z.max precision (len tmp) - len tmp) + length tmp)) by lia. done.
Qed.

Lemma string_emits s fw precision flags l : string_text s fw precision flags = Some l -> sane fw = true ->
  emits (fun st => string buf end_ st s fw precision flags) l.
Proof.
  unfold string_text, string. intros E Hs%sane_spec. destruct (strnlen_int _ _) as [n|]; [|done]. cbn [mbind option_bind] in *.
  destruct (mem_read _ 0 n) as [cs|] eqn:Er; [|done]. cbn [mbind option_bind] in E. injection E as <-.
  assert (Hn : 0 <= n) by (unfold mem_read in Er; destruct (Z.leb_spec 0 n); [done|by rewrite andb_false_r in Er]).
  intros st Hst. destruct (has flags LEFT); cbn [negb mbind option_bind].
  - rewrite put_all_emits by fits. cbn [mbind option_bind].
    rewrite (width_emits n (Z.to_nat (fw - n)) fw eq_refl) by (unfold is_s32; lia || fits).
    cbn [mbind option_bind]. by rewrite puts_app.
  - rewrite (width_emits n (Z.to_nat (fw - n)) fw eq_refl) by (unfold is_s32; lia || fits). cbn [mbind option_bind].
    rewrite put_all_emits by fits. cbn [mbind option_bind].
    rewrite (s32_id (Z.min fw n - 1)) by (unfold is_s32; lia).
    rewrite (width_emits n 0 (Z.min fw n - 1)) by (unfold is_s32; lia || fits).
    cbn [mbind option_bind replicate puts foldl]. by rewrite <- !puts_app.
Qed.

End Emit.

Ltac fits :=
  repeat apply room_puts; (eapply room_le; [|eassumption]);
  rewrite ?length_app, ?length_replicate, ?length_rev; cbn [length]; rewrite ?length_replicate, ?length_app, ?length_rev; lia.

(** ** The text of a whole format *)

Definition RES_TYPE : Z := Z.lor SPECIAL (Z.lor SMALL ZEROPAD).

Definition resource_text (start rend rflags : Z) : list Z :=
  let size := if has rflags IORESOURCE_IO then 4 else if has rflags IORESOURCE_MEM then 8 else -1 in
  [ch "["] ++ number_text start 16 size (-1) RES_TYPE ++ [ch "-"] ++
  number_text rend 16 size (-1) RES_TYPE ++ [ch "]"].

Definition u32b (x : Z) : bool := (0 <=? x) && (x <? 2 ^ 32).

Definition plain_text (ptr field_width precision flags : Z) : list Z :=
  if field_width =? -1 then number_text (u32 ptr) 16 8 precision (Z.lor (Z.lor flags SMALL) ZEROPAD)
  else number_text (u32 ptr) 16 field_width precision (Z.lor flags SMALL).

Section FormatText.
Context (sprint_symbol : Z -> list Z).

Definition pointer_text (fmt : list Z) (ptr : Z) (t : target) (field_width precision flags : Z)
    : option (list Z) :=
  let str s flags := string_text (Some s) field_width precision flags in
  if ptr =? 0 then str null_ptr flags else
  c ← zget fmt 0;
  if (c =? ch "F") || (c =? ch "S") then str (sprint_symbol ptr) flags
  else if c =? ch "R" then
    match t with
    | TResource s e f => if u32b s && u32b e then str (resource_text s e f ++ [0]) flags else None
    | TBytes _ => None
    end
  else if (c =? ch "m") || (c =? ch "M") then
    match t with
    | TBytes bs => a ← mem_read bs 0 6;
        let flags := if c =? ch "m" then Z.lor flags SPECIAL else flags in
        str (mac_loop (negb (has flags SPECIAL)) a ++ [0]) (Z.land flags (Z.lnot SPECIAL))
    | TResource _ _ _ => None
    end
  else if (c =? ch "i") || (c =? ch "I") then
    let flags := if c =? ch "i" then Z.lor flags SPECIAL else flags in
    c1 ← zget fmt 1;
    let flags' := Z.land flags (Z.lnot SPECIAL) in
    match t with
    | TBytes bs =>
        if c1 =? ch "6" then a ← mem_read bs 0 16; str (ip6_loop (negb (has flags SPECIAL)) a ++ [0]) flags'
        else if c1 =? ch "4" then a ← mem_read bs 0 4; str (ip4_loop a ++ [0]) flags'
        else Some (plain_text ptr field_width precision flags')
    | TResource _ _ _ =>
        if (c1 =? ch "6") || (c1 =? ch "4") then None else Some (plain_text ptr field_width precision flags')
    end
  else Some (plain_text ptr field_width precision flags).

(** [pos] is the number of characters before the conversion, for [%n]. *)
Definition conversion_text (c : Z) (fmt : list Z) (field_width precision qualifier flags : Z)
    (args : list arg) (pos : Z) : option (list Z * list arg * list Z * list Z) :=
  let num base flags :=
    '(n, args) ← next_num qualifier flags args;
    Some (number_text n base field_width precision flags, args, fmt, []) in
  if negb (sane field_width && sane precision) then None
  else if c =? ch "c" then
    '(v, args) ← next_int args;
    let blanks := replicate (Z.to_nat (field_width - 1)) (ch " ") in
    Some (if has flags LEFT then u8 v :: blanks else blanks ++ [u8 v], args, fmt, [])
  else if c =? ch "s" then
    match args with
    | AStr s :: args => l ← string_text s field_width precision flags; Some (l, args, fmt, [])
    | _ => None
    end
  else if c =? ch "p" then
    match args with
    | APtr v t :: args =>
        l ← pointer_text fmt v t field_width precision flags; fmt ← skip_alnum fmt; Some (l, args, fmt, [])
    | _ => None
    end
  else if c =? ch "n" then match args with ACount :: args => Some ([], args, fmt, [pos]) | _ => None end
  else if c =? ch "%" then Some ([ch "%"], args, fmt, [])
  else if c =? ch "o" then num 8 flags
  else if c =? ch "x" then num 16 (Z.lor flags SMALL)
  else if c =? ch "X" then num 16 flags
  else if (c =? ch "d") || (c =? ch "i") then num 10 (Z.lor flags SIGN)
  else if c =? ch "u" then num 10 flags
  else if negb (c =? 0) then Some ([ch "%"; c], args, fmt, []) else Some ([ch "%"], args, 0 :: fmt, []).

Fixpoint fmt_text (fuel : nat) (fmt : list Z) (args : list arg) (pos : Z) : option (list Z * list Z) :=
  match fuel with
  | O => None
  | S fuel' =>
      c ← zget fmt 0;
      if c =? 0 then Some ([], [])
      else if negb (c =? ch "%") then
        '(l, ns) ← fmt_text fuel' (drop 1 fmt) args (pos + 1); Some (c :: l, ns)
      else
        '(flags, fmt) ← parse_flags (drop 1 fmt) 0;
        '(field_width, flags, fmt, args) ← parse_width fmt flags args;
        '(precision, fmt, args) ← parse_precision fmt args;
        '(qualifier, fmt) ← parse_qualifier fmt;
        c ← zget fmt 0;
        '(l, args, fmt, n) ← conversion_text c (drop 1 fmt) field_width precision qualifier flags args pos;
        '(l', ns) ← fmt_text fuel' fmt args (pos + len l);
        Some (l ++ l', n ++ ns)
  end.

(** Everything the format says, without a buffer. *)
Definition format_text (fmt : list Z) (args : list arg) : option (list Z * list Z) :=
  fmt_text (S (length fmt)) fmt args 0.

End FormatText.

(** ** Emission of a whole format *)

Lemma to_digits_len base : 2 <= base -> forall k fuel n, 0 <= n < base ^ Z.of_nat (S k) ->
  (length (to_digits fuel base n) <= S k)%nat.
Proof.
  intros Hb. induction k as [|k IH]; intros [|fuel] n Hn; cbn [to_digits length]; try lia.
  - rewrite Z.pow_1_r in Hn. rewrite (proj2 (Z.ltb_lt _ _)) by lia. done.
  - destruct (Z.ltb_spec n base); cbn [length]; [lia|]. apply le_n_S, IH. split; [apply Z.div_pos; lia|].
    apply Z.div_lt_upper_bound; [lia|]. rewrite <- Z.pow_succ_r by lia. replace (Z.succ _) with (Z.of_nat (S (S k))) by lia. lia.
Qed.

Lemma resource_number_len num size : is_u32 num -> size <= 10 -> len (number_text num 16 size (-1) RES_TYPE) <= 10.
Proof.
  intros Hn Hs. unfold number_text. change (sign_text num RES_TYPE) with (@nil Z).
  change (magnitude num RES_TYPE) with num. change (len (prefix_text 16 RES_TYPE)) with 2.
  change (has RES_TYPE LEFT) with false. change (has RES_TYPE ZEROPAD) with true. cbv iota.
  rewrite app_nil_l, !length_app, !length_replicate. change (length (prefix_text 16 RES_TYPE)) with 2%nat.
  assert (H : (length (digits_text num 16 RES_TYPE) <= 8)%nat).
  { unfold digits_text. rewrite length_rev, length_fmap. apply to_digits_len; [lia|]. exact Hn. }
  set (n := length (digits_text num 16 RES_TYPE)) in *. cbn [length]. lia.
Qed.

(** What follows a terminator is not looked at. *)
Lemma string_text_tail l r fw precision flags :
  string_text (Some (l ++ 0 :: r)) fw precision flags = string_text (Some (l ++ [0])) fw precision flags.
Proof.
  assert (Hl : strlen (l ++ 0 :: r) = strlen (l ++ [0]) /\ forall n, strlen (l ++ [0]) = Some n -> n <= len l).
  { induction l as [|c l [IH1 IH2]]; cbn [strlen app]; [by split; [|intros n [= <-]]|].
    destruct (c =? 0); [split; [done|]; intros n [= <-]; lia|]. rewrite IH1. split; [done|].
    destruct (strlen (l ++ [0])); cbn [mbind option_bind]; [|done]. specialize (IH2 z eq_refl). intros n [= <-].
    cbn [length]. lia. }
  assert (Hn : forall k, strnlen (l ++ 0 :: r) k = strnlen (l ++ [0]) k /\
    forall n, strnlen (l ++ [0]) k = Some n -> n <= len l).
  { clear. induction l as [|c l IH]; intros [|k]; cbn [strnlen app]; try (split; [done|intros n [= <-]; lia]).
    destruct (c =? 0); [split; [done|]; intros n [= <-]; lia|]. destruct (IH k) as [IH1 IH2]. rewrite IH1. split; [done|].
    destruct (strnlen (l ++ [0]) k); cbn [mbind option_bind]; [|done]. specialize (IH2 z eq_refl). intros n [= <-].
    cbn [length]. lia. }
  unfold string_text, strnlen_int. cbn [default from_option id].
  assert (Hr : forall n, n <= len l -> mem_read (l ++ 0 :: r) 0 n = mem_read (l ++ [0]) 0 n).
  { intros n Hle. unfold mem_read. rewrite !length_app. cbn [length].
    destruct (Z.leb_spec 0 n); cbn [andb]; [|by rewrite ?andb_false_r].
    rewrite !(proj2 (Z.leb_le _ _)) by lia. cbn [andb]. change (Z.to_nat 0) with 0%nat. rewrite !drop_0.
    rewrite !take_app_le by lia. done. }
  destruct (precision <? 0).
  - destruct Hl as [-> Hl]. destruct (strlen (l ++ [0])) as [n|]; [|done]. cbn [mbind option_bind]. by rewrite Hr by by apply Hl.
  - destruct (Hn (Z.to_nat precision)) as [-> Hk]. destruct (strnlen (l ++ [0]) _) as [n|]; [|done]. cbn [mbind option_bind].
    by rewrite Hr by by apply Hk.
Qed.

(** The memory after a text is put: its first characters, as many as fit. *)
Lemma puts_mem buf end_ l : forall m p, buf <= p -> end_ - buf <= len m ->
  let k := Z.to_nat (p - buf) in let l' := take (Z.to_nat (end_ - p)) l in
  puts buf end_ l (m, p) = (take k m ++ l' ++ drop (k + length l') m, p + len l).
Proof.
  induction l as [|c l IH]; intros m p Hp Hm; cbv zeta.
  - rewrite take_nil. cbn [length app puts foldl]. rewrite Nat.add_0_r, take_drop, Z.add_0_r. done.
  - change (puts buf end_ (c :: l) (m, p)) with (puts buf end_ l (put1 buf end_ (m, p) c)). unfold put1. cbn [fst snd].
    replace (p + len (c :: l)) with (p + 1 + len l) by (cbn [length]; lia).
    destruct (Z.ltb_spec p end_).
    + rewrite IH by (rewrite ?length_insert; lia). f_equal.
      replace (Z.to_nat (p + 1 - buf)) with (S (Z.to_nat (p - buf))) by lia.
      replace (Z.to_nat (end_ - p)) with (S (Z.to_nat (end_ - (p + 1)))) by lia. cbn [take length app].
      set (k := Z.to_nat (p - buf)). assert (k < length m)%nat by lia.
      rewrite (take_S_r _ k c) by (by apply list_lookup_insert_eq). rewrite take_insert_ge by done.
      rewrite drop_insert_lt by lia. rewrite <- app_assoc. cbn [app]. do 3 f_equal. f_equal. lia.
    + rewrite IH by lia. replace (Z.to_nat (end_ - (p + 1))) with 0%nat by lia. replace (Z.to_nat (end_ - p)) with 0%nat by lia.
      rewrite !take_0. cbn [length app]. rewrite !Nat.add_0_r, !take_drop. done.
Qed.

(** A buffer of [n] bytes at address 0 that holds [txt] and then zeros. *)
Definition fill (n : nat) (txt : list Z) : out_t := (txt ++ replicate (n - length txt) 0, len txt).

Lemma fill_good n txt : (length txt <= n)%nat -> good 0 (Z.of_nat n) (fill n txt).
Proof. intros. unfold good, fill. cbn [fst snd]. rewrite length_app, length_replicate. lia. Qed.

Lemma puts_fill n l txt : (length (txt ++ l) <= n)%nat -> puts 0 (Z.of_nat n) l (fill n txt) = fill n (txt ++ l).
Proof.
  intros H. unfold fill. rewrite length_app in *. rewrite puts_mem by (rewrite ?length_app, ?length_replicate; lia).
  cbv zeta. rewrite Z.sub_0_r, Nat2Z.id. rewrite (take_ge l) by lia. rewrite take_app_length, drop_app_ge by lia.
  rewrite drop_replicate, <- app_assoc. f_equal; [|lia]. do 3 f_equal. lia.
Qed.

Lemma zset_fill n txt c : (length txt < n)%nat -> zset (fst (fill n txt)) (snd (fill n txt)) c = Some (fst (fill n (txt ++ [c]))).
Proof.
  intros H. unfold fill. cbn [fst snd]. rewrite zset_spec by (rewrite length_app, length_replicate; lia).
  rewrite Nat2Z.id, insert_app_r_alt, Nat.sub_diag by lia. rewrite length_app, <- app_assoc. cbn [length app].
  replace (n - length txt)%nat with (S (n - (length txt + 1)))%nat by lia. done.
Qed.

Lemma resource_fills start rend rflags : is_u32 start -> is_u32 rend ->
  let size := if has rflags IORESOURCE_IO then 4 else if has rflags IORESOURCE_MEM then 8 else -1 in
  exists r, (m ← zset (replicate 24 0) 0 (ch "[");
   '(m, p) ← number 0 24 (m, 1) start 16 size (-1) RES_TYPE;
   m ← zset m p (ch "-");
   '(m, p) ← number 0 24 (m, p + 1) rend 16 size (-1) RES_TYPE;
   m ← zset m p (ch "]");
   zset m (p + 1) 0) = Some (resource_text start rend rflags ++ 0 :: r).
Proof.
  intros Hs He size. set (t1 := number_text start 16 size (-1) RES_TYPE). set (t2 := number_text rend 16 size (-1) RES_TYPE).
  assert (Hsz : sane size = true /\ size <= 10) by (unfold size; destruct (has _ _); [|destruct (has _ _)]; split; (done || lia)).
  destruct Hsz as [Hsz Hsz'].
  assert (H1 : len t1 <= 10) by by apply resource_number_len. assert (H2 : len t2 <= 10) by by apply resource_number_len.
  assert (E64 : forall x, is_u32 x -> is_u64 x) by (unfold is_u32, is_u64; lia).
  assert (Hn : forall txt x, is_u32 x -> let t := number_text x 16 size (-1) RES_TYPE in (length (txt ++ t) <= 24)%nat ->
    number 0 24 (fill 24 txt) x 16 size (-1) RES_TYPE = Some (fill 24 (txt ++ t))).
  { intros txt x Hx t Ht. rewrite <- puts_fill by done.
    apply (number_emits 0 24 x 16 size (-1) RES_TYPE); [by right; right|by apply E64|done|done|].
    rewrite length_app in Ht. split; [apply (fill_good 24); lia|]. fold t. unfold fill. cbn [snd]. lia. }
  assert (Ez : forall txt c, (length txt < 24)%nat -> zset (txt ++ replicate (24 - length txt) 0) (len txt) c = Some (fst (fill 24 (txt ++ [c]))))
    by (intros; by apply zset_fill).
  change (zset (replicate 24 0) 0 (ch "[")) with (Some (fst (fill 24 [ch "["]))). cbn [mbind option_bind].
  change (fst (fill 24 [ch "["]), 1) with (fill 24 [ch "["]).
  rewrite Hn by (done || (rewrite length_app; cbn [length]; fold t1; lia)). fold t1. cbn [mbind option_bind].
  unfold fill at 1. cbn iota beta. set (x1 := [ch "["] ++ t1). assert (L1 : len x1 <= 11) by (unfold x1; rewrite length_app; cbn [length]; lia).
  rewrite Ez by lia. cbn [mbind option_bind].
  replace (fst (fill 24 (x1 ++ [ch "-"])), len x1 + 1) with (fill 24 (x1 ++ [ch "-"]))
    by (unfold fill; cbn [fst]; f_equal; rewrite !length_app; cbn [length]; lia).
  rewrite Hn by (done || (rewrite !length_app; cbn [length]; fold t2; lia)). fold t2. cbn [mbind option_bind].
  unfold fill at 1. cbn iota beta. set (x2 := (x1 ++ [ch "-"]) ++ t2).
  assert (L2 : len x2 <= 22) by (unfold x2; rewrite !length_app; cbn [length]; lia).
  rewrite Ez by lia. cbn [mbind option_bind].
  replace (len x2 + 1) with (len (x2 ++ [ch "]"])) by (rewrite length_app; cbn [length]; lia).
  unfold fill. cbn [fst]. rewrite Ez by (rewrite length_app; cbn [length]; lia). unfold fill. cbn [fst].
  eexists. rewrite <- app_assoc. unfold resource_text. fold size t1 t2. unfold x2, x1. rewrite <- !app_assoc. cbn [app]. done.
Qed.

Lemma u32b_spec x : u32b x = true -> is_u32 x.
Proof. unfold u32b, is_u32. rewrite andb_true_iff, Z.leb_le, Z.ltb_lt. done. Qed.

Lemma next_num_u64 q flags args n args' : next_num q flags args = Some (n, args') -> is_u64 n.
Proof.
  unfold next_num. assert (H : forall x, is_u64 (u64 x)) by apply u64_range.
  assert (H' : forall x, is_u64 (u32 x)) by (intros x; pose proof (u32_range x); unfold is_u64; lia).
  assert (H'' : forall x, is_u64 (u16 x)) by (intros x; pose proof (u16_range x); unfold is_u64; lia).
  repeat case_match; intros [= <- <-]; done.
Qed.

(** Follow a successful chain of binds. *)
Ltac bind_steps H :=
  repeat match type of H with
  | mbind _ ?x = Some _ => let E := fresh "E" in destruct x eqn:E; [|discriminate H]; cbn [mbind option_bind] in H
  | (let '(_, _) := ?x in _) = Some _ => destruct x; cbn iota beta in H
  end.

Ltac bind_goal :=
  cbn [mbind option_bind];
  repeat match goal with E : ?x = Some _ |- context [mbind _ ?x] => rewrite E; cbn [mbind option_bind] end.

Section EmitFormat.
Context (buf end_ : Z) (sprint_symbol : Z -> list Z).
Local Abbreviation emits := (emits buf end_).

Lemma emits_ext f g l : (forall st, f st = g st) -> emits g l -> emits f l.
Proof. intros E H st Hst. rewrite E. by apply H. Qed.

Lemma resource_emits start rend rflags fw precision flags l :
  string_text (Some (resource_text start rend rflags ++ [0])) fw precision flags = Some l ->
  is_u32 start -> is_u32 rend -> sane fw = true ->
  emits (fun st => resource_string buf end_ st start rend rflags fw precision flags) l.
Proof.
  intros E Hs He Hf. destruct (resource_fills start rend rflags Hs He) as [r Hr]. cbv zeta in Hr.
  rewrite <- (string_text_tail _ r) in E. pose proof (string_emits buf end_ _ _ _ _ _ E Hf) as Hst.
  eapply emits_ext; [|exact Hst]. intros st. cbv beta. unfold resource_string. cbv zeta. fold RES_TYPE.
  bind_steps Hr. bind_goal. done.
Qed.

Lemma plain_emits ptr fw precision flags : sane fw = true -> sane precision = true ->
  emits (fun st => let flags := Z.lor flags SMALL in
    let '(field_width, flags) := if fw =? -1 then (8, Z.lor flags ZEROPAD) else (fw, flags) in
    number buf end_ st (u32 ptr) 16 field_width precision flags) (plain_text ptr fw precision flags).
Proof.
  intros Hf Hp. cbv zeta. unfold plain_text. assert (Hu : is_u64 (u32 ptr)) by (pose proof (u32_range ptr); unfold is_u64; lia).
  destruct (fw =? -1); apply number_emits; try done; by right; right.
Qed.

Lemma pointer_emits fmt ptr t fw precision flags l : sane fw = true -> sane precision = true ->
  pointer_text sprint_symbol fmt ptr t fw precision flags = Some l ->
  emits (fun st => pointer buf end_ sprint_symbol fmt st ptr t fw precision flags) l.
Proof.
  intros Hf Hp. pose proof (fun flags => plain_emits ptr fw precision flags Hf Hp) as Hpl. cbv zeta in Hpl.
  unfold pointer_text, pointer, mac_address_string, ip6_addr_string, ip4_addr_string, symbol_string. cbv zeta.
  destruct (ptr =? 0); [intros E; by apply string_emits|]. intros E. bind_steps E. cbn [mbind option_bind].
  destruct (_ || _); [by apply string_emits|]. destruct (z =? ch "R").
  { destruct t as [|s e f]; [done|]. destruct (u32b s && u32b e) eqn:Eu; [|done].
    apply andb_true_iff in Eu as [Es%u32b_spec Ee%u32b_spec]. by apply resource_emits. }
  destruct (_ || _). { destruct t; [|done]. bind_steps E. cbn [mbind option_bind]. by apply string_emits. }
  destruct (_ || _); [|injection E as <-; apply Hpl].
  bind_steps E. cbn [mbind option_bind]. destruct t.
  - destruct (z0 =? ch "6"); [bind_steps E; cbn [mbind option_bind]; by apply string_emits|].
    destruct (z0 =? ch "4"); [bind_steps E; cbn [mbind option_bind]; by apply string_emits|]. injection E as <-. apply Hpl.
  - destruct (_ || _); [done|]. injection E as <-. apply Hpl.
Qed.

Lemma char_emits fw v flags : sane fw = true ->
  emits (fun st => '(st, fw) ← (if negb (has flags LEFT) then char_pad buf end_ (Z.to_nat (s32 (fw - 1))) fw st else Some (st, fw));
           st ← putc buf end_ v st;
           '(st, _) ← char_pad buf end_ (Z.to_nat (s32 (fw - 1))) fw st;
           Some st)
    (let blanks := replicate (Z.to_nat (fw - 1)) (ch " ") in if has flags LEFT then v :: blanks else blanks ++ [v]).
Proof.
  intros Hs%sane_spec st Hst. cbv zeta in Hst |- *. assert (E : s32 (fw - 1) = fw - 1) by (apply s32_id; unfold is_s32; lia).
  destruct (has flags LEFT) eqn:EL; rewrite ?EL in Hst; cbn [negb].
  - cbn [mbind option_bind]. rewrite putc_emits by fits. cbn [mbind option_bind].
    rewrite (char_pad_emits buf end_ _ _ eq_refl) by (rewrite E; fits). cbn [mbind option_bind]. by rewrite E.
  - rewrite (char_pad_emits buf end_ _ _ eq_refl) by (rewrite E; fits). cbn [mbind option_bind]. rewrite E.
    rewrite putc_emits by fits. cbn [mbind option_bind].
    assert (E' : Z.to_nat (s32 (Z.min (fw - 1) 0 - 1)) = 0%nat) by (rewrite s32_id by (unfold is_s32; lia); lia).
    rewrite (char_pad_emits buf end_ _ _ eq_refl) by (rewrite E'; fits). cbn [mbind option_bind].
    rewrite E'. by rewrite puts_app.
Qed.

Lemma conversion_emits c fmt fw precision q flags args pos l args' fmt' n st :
  conversion_text sprint_symbol c fmt fw precision q flags args pos = Some (l, args', fmt', n) ->
  room_for buf end_ (len l) st -> snd st - buf = pos ->
  conversion buf end_ sprint_symbol c fmt fw precision q flags args st = Some (puts buf end_ l st, args', fmt', n).
Proof.
  intros E Hst Hpos. unfold conversion_text in E. cbv zeta in E.
  destruct (sane fw && sane precision) eqn:Hs; [|done]. apply andb_true_iff in Hs as [Hf Hp]. cbn [negb] in E.
  assert (Hnum : forall base flags, base_ok base ->
    ('(n0, args) ← next_num q flags args; Some (number_text n0 base fw precision flags, args, fmt, [])) = Some (l, args', fmt', n) ->
    ('(n0, args) ← next_num q flags args; st ← number buf end_ st n0 base fw precision flags; Some (st, args, fmt, [])) =
      Some (puts buf end_ l st, args', fmt', n)).
  { intros base fl Hb E'. destruct (next_num q fl args) as [[v a]|] eqn:Ev; [|done]. cbn [mbind option_bind] in *.
    injection E' as <- <- <- <-. apply next_num_u64 in Ev. by rewrite number_emits. }
  unfold conversion. cbv zeta.
  destruct (c =? ch "c").
  { destruct (next_int args) as [[v a]|]; [|done]. cbn [mbind option_bind] in *. injection E as <- <- <- <-.
    pose proof (char_emits fw (u8 v) flags Hf st Hst) as H. cbv zeta beta in H. bind_steps H.
    bind_goal. by injection H as ->. }
  destruct (c =? ch "s").
  { destruct args as [|[| |s| |] a]; try done. bind_steps E. injection E as <- <- <- <-. by rewrite (string_emits _ _ _ _ _ _ _ E0). }
  destruct (c =? ch "p").
  { destruct args as [|[| | |v t|] a]; try done. bind_steps E. injection E as <- <- <- <-.
    rewrite (pointer_emits _ _ _ _ _ _ _ Hf Hp E0) by done. bind_goal. done. }
  destruct (c =? ch "n"). { destruct args as [|[| | | |] a]; try done. injection E as <- <- <- <-. by rewrite Hpos. }
  destruct (c =? ch "%"). { injection E as <- <- <- <-. by rewrite putc_emits. }
  destruct (c =? ch "o"); [apply Hnum; [by left|done]|].
  destruct (c =? ch "x"); [apply Hnum; [by right; right|done]|].
  destruct (c =? ch "X"); [apply Hnum; [by right; right|done]|].
  destruct (_ || _); [apply Hnum; [by right; left|done]|].
  destruct (c =? ch "u"); [apply Hnum; [by right; left|done]|].
  destruct (c =? 0); cbn [negb] in *; injection E as <- <- <- <-; rewrite putc_emits by fits; cbn [mbind option_bind]; [done|].
  rewrite putc_emits by fits. done.
Qed.

Lemma fmt_loop_emits : forall fuel fmt args pos l ns st,
  fmt_text sprint_symbol fuel fmt args pos = Some (l, ns) -> room_for buf end_ (len l) st -> snd st - buf = pos ->
  fmt_loop buf end_ sprint_symbol fuel fmt args st = Some (puts buf end_ l st, ns).
Proof.
  induction fuel as [|fuel IH]; intros fmt args pos l ns st E Hst Hpos; [done|]. cbn [fmt_text fmt_loop] in *.
  destruct (zget fmt 0) as [c|]; [|done]. cbn [mbind option_bind] in *.
  destruct (c =? 0); [by injection E as <- <-|]. destruct (c =? ch "%"); cbn [negb] in *.
  - destruct (parse_flags _ _) as [[fl f1]|]; [|done]. cbn [mbind option_bind] in *.
    destruct (parse_width _ _ _) as [[[[w fl2] f2] a]|]; [|done]. cbn [mbind option_bind] in *.
    destruct (parse_precision _ _) as [[[p f3] a2]|]; [|done]. cbn [mbind option_bind] in *.
    destruct (parse_qualifier _) as [[q f4]|]; [|done]. cbn [mbind option_bind] in *.
    destruct (zget f4 0) as [c'|]; [|done]. cbn [mbind option_bind] in *.
    destruct (conversion_text _ _ _ _ _ _ _ _ _) as [[[[t a3] f5] n]|] eqn:Ec; [|done]. cbn [mbind option_bind] in *.
    destruct (fmt_text _ _ _ _ _) as [[t' ns']|] eqn:Et; [|done]. cbn [mbind option_bind] in *. injection E as <- <-.
    rewrite (conversion_emits _ _ _ _ _ _ _ _ _ _ _ _ _ Ec) by (done || fits). cbn [mbind option_bind].
    rewrite (IH _ _ _ _ _ _ Et); [|fits|rewrite snd_puts; lia]. cbn [mbind option_bind]. by rewrite puts_app.
  - destruct (fmt_text _ _ _ _ _) as [[t' ns']|] eqn:Et; [|done]. cbn [mbind option_bind] in *. injection E as <- <-.
    rewrite putc_emits by fits. cbn [mbind option_bind].
    rewrite (IH _ _ _ _ _ _ Et); [done|fits|rewrite snd_puts; cbn [length]; lia].
Qed.

End EmitFormat.

(** The bytes there are from [buf] to the end of the buffer, or of the address space. *)
Definition room (buf size : Z) : Z := if 2 ^ 32 <=? buf + size then 2 ^ 32 - 1 - buf else size.

(** What a buffer of [n] bytes holds after [out] is printed. *)
Definition truncated (out m : list Z) (n : Z) : list Z :=
  if n =? 0 then m
  else let k := Z.to_nat (Z.min (len out) (n - 1)) in take k out ++ 0 :: drop (S k) m.

Lemma puts_terminated buf n out m : 0 < n -> n <= len m ->
  (let '(m', p) := puts buf (buf + n) out (m, buf) in
   if p <? buf + n then zset m' (p - buf) 0 else zset m' (buf + n - 1 - buf) 0) = Some (truncated out m n).
Proof.
  intros Hn Hm. rewrite puts_mem by lia. cbv zeta iota beta. rewrite Z.sub_diag, take_0, app_nil_l, Nat.add_0_l.
  replace (buf + n - buf) with n by lia. unfold truncated. rewrite (proj2 (Z.eqb_neq n 0)) by lia.
  destruct (Z.ltb_spec (buf + len out) (buf + n)).
  - replace (buf + len out - buf) with (len out) by lia. rewrite zset_spec by (rewrite length_app, length_drop, length_take; lia).
    rewrite Nat2Z.id. replace (Z.to_nat (Z.min (len out) (n - 1))) with (length out) by lia.
    rewrite !(take_ge out) by lia. rewrite insert_app_r_alt, Nat.sub_diag by lia.
    destruct (drop (length out) m) as [|x r] eqn:E; [apply (f_equal length) in E; rewrite length_drop in E; cbn in E; lia|].
    cbn. do 3 f_equal. apply (f_equal (drop 1)) in E. rewrite drop_drop in E. by rewrite <- Nat.add_1_r.
  - replace (buf + n - 1 - buf) with (n - 1) by lia. rewrite zset_spec by (rewrite length_app, length_drop, length_take; lia).
    replace (Z.min (len out) (n - 1)) with (n - 1) by lia. rewrite length_take.
    replace (Z.to_nat n) with (S (Z.to_nat (n - 1))) by lia. set (k := Z.to_nat (n - 1)). rewrite Nat.min_l by lia.
    rewrite insert_app_l by (rewrite length_take; lia). f_equal.
    destruct (lookup_lt_is_Some_2 out k ltac:(lia)) as [x Hx]. rewrite (take_S_r _ _ _ Hx).
    rewrite insert_app_r_alt by (rewrite length_take; lia). rewrite length_take, Nat.min_l, Nat.sub_diag by lia.
    cbn. by rewrite <- app_assoc.
Qed.


(** Four bytes 8 below the top of the address space and a text of ten characters: the pointer wraps to 0, which
    is below the end, and the ninth character is stored outside of the buffer. *)
Theorem vsnprintf_wraps :
  vsnprintf (fun _ => [0]) (replicate 8 1) (2 ^ 32 - 8) 4 [97; 97; 97; 97; 97; 97; 97; 97; 97; 97; 0] [] = None.
Proof. vm_compute. reflexivity. Qed.

(** ["<%#06x|%-4d|%pI4|%s>"] in 16 bytes. *)
Definition demo_fmt : list Z :=
  [60; 37; 35; 48; 54; 120; 124; 37; 45; 52; 100; 124; 37; 112; 73; 52; 124; 37; 115; 62; 0].


(** ** Reading numbers back *)

Definition val (base : Z) (ds : list Z) (r : Z) : Z := foldl (fun r d => r * base + d) r ds.

Lemma val_rev base ds : val base (rev ds) 0 = of_digits base ds.
Proof.
  unfold val. induction ds as [|d ds IH]; [done|]. cbn [rev of_digits]. rewrite foldl_app, IH. cbn [foldl]. lia.
Qed.

Lemma val_zeros base n ds : val base (replicate n 0 ++ ds) 0 = val base ds 0.
Proof. induction n as [|n IH]; [done|]. exact IH. Qed.

(** A digit is read as its value, in either case. *)
Lemma digit_char_ok locase d : locase = 0 \/ locase = 32 -> 0 <= d < 16 ->
  isxdigit (digit_char locase d) = true /\ digit_value (digit_char locase d) = d /\
  (TOLOWER (digit_char locase d) =? ch "x") = false /\ (is_u8 (digit_char locase d) /\ digit_char locase d <> 0) /\
  (digit_char locase d =? ch "-") = false /\ (digit_char locase d =? ch "0") = (d =? 0).
Proof.
  intros Hl Hd. assert (exists n, (n < 16)%nat /\ d = Z.of_nat n) as (n & Hn & ->) by (exists (Z.to_nat d); lia).
  destruct Hl as [-> | ->]; do 16 (destruct n as [|n]; [repeat split; (reflexivity || discriminate)|]); lia.
Qed.

Lemma wrap_step w base r d : 0 <= w -> wrap w (wrap w r * base + d) = wrap w (r * base + d).
Proof. intros. unfold wrap. by rewrite <- Zplus_mod_idemp_l, Zmult_mod_idemp_l, Zplus_mod_idemp_l. Qed.

Lemma val_wrap w base ds : 0 <= w -> forall r, wrap w (val base ds (wrap w r)) = wrap w (val base ds r).
Proof.
  intros Hw. induction ds as [|d ds IH]; intros r; cbn [val foldl].
  - unfold wrap. by rewrite Zmod_mod.
  - fold (val base ds (wrap w r * base + d)) (val base ds (r * base + d)).
    rewrite <- IH, wrap_step, IH by done. done.
Qed.

Section ReadBack.
Context (w base locase : Z).
Context (Hw : 0 <= w) (Hb : base_ok base) (Hl : locase = 0 \/ locase = 32).

Let chars (ds : list Z) : list Z := digit_char locase <$> ds.

Lemma parse_digits_ok ds : Forall (fun d => 0 <= d < base) ds -> forall r n, r = wrap w r ->
  parse_digits w base (chars ds ++ [0]) r n = Some (wrap w (val base ds r), n + len ds).
Proof.
  assert (H16 : base <= 16) by (destruct Hb as [-> |[-> | ->]]; lia).
  induction 1 as [|d ds Hd _ IH]; intros r n Hr; cbn [chars fmap list_fmap app parse_digits].
  - change (isxdigit 0) with false. cbn [val foldl length]. rewrite <- Hr. do 2 f_equal. lia.
  - destruct (digit_char_ok locase d Hl ltac:(lia)) as (-> & -> & _). rewrite (proj2 (Z.leb_gt _ _)) by lia.
    fold (chars ds). rewrite IH by (unfold wrap; by rewrite Zmod_mod). rewrite val_wrap by done.
    cbn [length]. do 2 f_equal. lia.
Qed.

Lemma strto_plain ds : Forall (fun d => 0 <= d < base) ds -> ds <> [] ->
  simple_strto w (chars ds ++ [0]) base = Some (wrap w (val base ds 0), len ds).
Proof.
  assert (H16 : 8 <= base <= 16) by (destruct Hb as [-> |[-> | ->]]; lia).
  intros Hd Hne. unfold simple_strto. rewrite (proj2 (Z.eqb_neq base 0)) by lia. cbn [mbind option_bind].
  assert (Hz : wrap w 0 = 0) by (unfold wrap; apply Z.mod_0_l; pose proof (Z.pow_pos_nonneg 2 w); lia).
  assert (Hp : parse_digits w base (drop (Z.to_nat 0) (chars ds ++ [0])) 0 0 = Some (wrap w (val base ds 0), len ds))
    by (change (Z.to_nat 0) with 0%nat; by rewrite drop_0, parse_digits_ok).
  destruct (base =? 16); [|done]. destruct ds as [|d0 ds]; [done|]. cbn [chars fmap list_fmap app] in *.
  change (zget (?a :: ?l) 0) with (Some a). cbn [mbind option_bind].
  destruct (_ =? ch "0"); [|done]. apply Forall_cons in Hd as [_ Hd]. destruct ds as [|d1 ds]; [done|]. rewrite fmap_cons in *. cbn [app] in *.
  change (zget (?a :: ?b :: ?l) 1) with (Some b). cbn [mbind option_bind].
  apply Forall_cons in Hd as [Hd1 _]. destruct (digit_char_ok locase d1 Hl ltac:(lia)) as (_ & _ & -> & _). done.
Qed.

Lemma chars_nonul ds : Forall (fun d => 0 <= d < base) ds -> nonul (chars ds).
Proof.
  assert (H16 : base <= 16) by (destruct Hb as [-> |[-> | ->]]; lia).
  intros Hd. apply Forall_fmap, (Forall_impl _ _ _ Hd). intros d H. cbn. by apply digit_char_ok; [|lia].
Qed.

End ReadBack.

(** The digits printed: zeros up to the precision, then the number's. *)
Definition all_digits (num base precision : Z) : list Z :=
  replicate (Z.to_nat (precision - len (to_digits 64 base num))) 0 ++ rev (to_digits 64 base num).

Lemma number_text_bare num base precision type :
  number_text num base (-1) precision type = sign_text num type ++ prefix_text base type ++
    (digit_char (Z.land type SMALL) <$> all_digits (magnitude num type) base precision).
Proof.
  unfold number_text, all_digits, digits_text. set (mag := magnitude num type). set (ds := to_digits 64 base mag). clearbody ds mag.
  rewrite length_rev, length_fmap, fmap_app, fmap_replicate. change (digit_char ?a <$> rev ds) with (map (digit_char a) (rev ds)). rewrite map_rev.
  assert (E0 : digit_char (Z.land type SMALL) 0 = ch "0") by (destruct (small_case type) as [-> | ->]; reflexivity). rewrite E0.
  match goal with |- context [replicate (Z.to_nat (-1 - ?a - ?b - ?c)) _] =>
    replace (Z.to_nat (-1 - a - b - c)) with 0%nat by lia end.
  cbn [replicate]. rewrite !app_nil_r, !app_nil_l. by destruct (has type LEFT), (has type ZEROPAD).
Qed.

Lemma all_digits_ok num base precision : base_ok base -> is_u64 num ->
  Forall (fun d => 0 <= d < base) (all_digits num base precision) /\ all_digits num base precision <> [] /\
  val base (all_digits num base precision) 0 = num.
Proof.
  intros Hb Hn. assert (H16 : 8 <= base <= 16) by (destruct Hb as [-> |[-> | ->]]; lia). unfold all_digits. split_and!.
  - apply Forall_app; split; [apply Forall_replicate; lia|]. apply Forall_rev, to_digits_range; [lia|apply Hn].
  - intros [_ E]%app_eq_nil. apply (f_equal (@rev Z)) in E. rewrite rev_involutive in E. by apply to_digits_ne in E; [|lia].
  - rewrite val_zeros, val_rev. apply of_to_digits; [lia|apply Hn].
Qed.

Lemma strict_ok w t base v : nonul t -> t <> [] -> simple_strto w (t ++ [0]) base = Some (v, len t) ->
  strict_strto w (t ++ [0]) base = Some (0, v).
Proof.
  intros Ht Hne E. unfold strict_strto. rewrite (strlen_ok (t ++ [0]) t []) by done. cbn [mbind option_bind].
  assert (len t <> 0) by (destruct t; [done|cbn [length]; lia]).
  rewrite (proj2 (Z.eqb_neq _ _)) by done. rewrite E. cbn [mbind option_bind]. rewrite (proj2 (Z.eqb_neq _ _)) by done.
  rewrite zget_lookup, Nat2Z.id, lookup_app_r, Nat.sub_diag by lia. done.
Qed.

Lemma to_digits_last base : 2 <= base -> forall fuel n, 0 < n < 2 ^ Z.of_nat fuel ->
  exists l d, to_digits fuel base n = l ++ [d] /\ 0 < d.
Proof.
  intros Hb. induction fuel as [|fuel IH]; intros n Hn; [cbn in Hn; lia|]. cbn [to_digits].
  destruct (Z.ltb_spec n base); [exists [], n; split; [done|lia]|].
  rewrite Nat2Z.inj_succ, Z.pow_succ_r in Hn by lia. destruct (IH (n / base)) as (l & d & -> & Hd).
  - split; [apply Z.div_str_pos; lia|]. apply Z.div_lt_upper_bound; [lia|]. pose proof (Z.pow_pos_nonneg 2 (Z.of_nat fuel)). nia.
  - by exists (n mod base :: l), d.
Qed.

Section Unsigned.
Context (num base type precision : Z).
Context (Hb : base_ok base) (Hn : is_u64 num) (Hsg : has type SIGN = false).

Let ds : list Z := all_digits num base precision.
Let cs : list Z := digit_char (Z.land type SMALL) <$> ds.

Lemma unsigned_text : number_text num base (-1) precision type = prefix_text base type ++ cs.
Proof. rewrite number_text_bare. unfold sign_text, magnitude. by rewrite Hsg. Qed.

Lemma unsigned_nonul : nonul (prefix_text base type ++ cs) /\ prefix_text base type ++ cs <> [].
Proof.
  destruct (all_digits_ok num base precision Hb Hn) as (Hd & Hne & _). split.
  - apply Forall_app; split; [|apply (chars_nonul base); [done|apply small_case|done]]. unfold prefix_text. destruct (_ && _), (base =? 16); try constructor;
      try done; repeat constructor; destruct (small_case type) as [-> | ->]; done.
  - intros [_ E]%app_eq_nil. apply fmap_nil_inv in E. done.
Qed.

Lemma read_back : simple_strtoull ((prefix_text base type ++ cs) ++ [0]) base = Some (num, len (prefix_text base type ++ cs)).
Proof.
  destruct (all_digits_ok num base precision Hb Hn) as (Hd & Hne & Hv). fold ds in Hd, Hne, Hv. unfold simple_strtoull.
  assert (Hloc := small_case type). assert (H64 : wrap 64 num = num) by by apply u64_id.
  rewrite length_app. unfold cs at 2. rewrite length_fmap. unfold prefix_text. destruct (has type SPECIAL && negb (base =? 10)) eqn:Ep.
  - destruct (Z.eqb_spec base 16) as [E16|E16].
    + cbn [app length]. unfold simple_strto. rewrite (proj2 (Z.eqb_neq base 0)) by lia. cbn [mbind option_bind].
      rewrite (proj2 (Z.eqb_eq base 16)) by done. change (zget (?a :: ?l) 0) with (Some a). change (zget (?a :: ?b :: ?l) 1) with (Some b).
      cbn [mbind option_bind]. change (ch "0" =? ch "0") with true. cbv iota.
      replace (TOLOWER _ =? ch "x") with true by (destruct Hloc as [-> | ->]; reflexivity). cbn [mbind option_bind].
      change (Z.to_nat 2) with 2%nat. cbn [drop]. rewrite drop_0. unfold cs. rewrite parse_digits_ok by (done || lia). rewrite Hv, H64.
      do 2 f_equal. lia.
    + assert (E0 : ch "0" = digit_char (Z.land type SMALL) 0) by (destruct Hloc as [-> | ->]; reflexivity).
      change ([ch "0"] ++ cs) with (ch "0" :: cs). rewrite E0. change (_ :: cs) with (digit_char (Z.land type SMALL) <$> 0 :: ds).
      rewrite strto_plain by (done || lia || (constructor; [destruct Hb as [-> |[-> | ->]]; lia|done])).
      change (val base (0 :: ds) 0) with (val base ds 0). rewrite Hv, H64. done.
  - rewrite app_nil_l. unfold cs. rewrite strto_plain by (done || lia). rewrite Hv, H64. done.
Qed.

(** The base is recognised from the prefix, or from the first digit. *)
Lemma guess_special : has type SPECIAL = true -> base <> 10 ->
  simple_guess_base ((prefix_text base type ++ cs) ++ [0]) = Some base.
Proof.
  intros Hs H10. destruct (all_digits_ok num base precision Hb Hn) as (Hd & Hne & _).
  assert (H16 : 8 <= base <= 16) by (destruct Hb as [-> |[-> | ->]]; lia).
  unfold prefix_text. rewrite Hs, (proj2 (Z.eqb_neq base 10)) by done. cbn [negb andb].
  assert (exists d ds', ds = d :: ds' /\ 0 <= d < 16) as (d & ds' & E & Hd0).
  { fold ds in Hd, Hne. destruct ds as [|d ds']; [done|]. apply Forall_cons in Hd as [Hd _]. exists d, ds'. split; [done|lia]. }
  assert (Hloc := small_case type). destruct (digit_char_ok (Z.land type SMALL) d Hloc Hd0) as (Hx & _ & Hlo & _).
  unfold cs. rewrite E, fmap_cons. unfold simple_guess_base. change (zget (ch "0" :: ?l) 0) with (Some (ch "0")).
  destruct (Z.eqb_spec base 16) as [E16|E16]; cbn [app].
  - change (zget (?a :: ?l) 0) with (Some a). change (zget (?a :: ?b :: ?l) 1) with (Some b).
    change (zget (?a :: ?b :: ?c :: ?l) 2) with (Some c). cbn [mbind option_bind]. change (ch "0" =? ch "0") with true. cbv iota.
    replace (TOLOWER _ =? ch "x") with true by (destruct Hloc as [-> | ->]; reflexivity). by rewrite Hx, E16.
  - change (zget (?a :: ?l) 0) with (Some a). change (zget (?a :: ?b :: ?l) 1) with (Some b). cbn [mbind option_bind].
    change (ch "0" =? ch "0") with true. cbv iota. rewrite Hlo. destruct Hb as [-> |[-> | ->]]; done.
Qed.

End Unsigned.

Lemma strto_guessed w cp base : simple_guess_base cp = Some base -> base <> 0 -> simple_strto w cp 0 = simple_strto w cp base.
Proof. intros E H. unfold simple_strto. rewrite E, (proj2 (Z.eqb_neq _ _) H). done. Qed.

(** Decimal: a nonzero number does not start with a zero. *)
Lemma guess_decimal num locase : 0 < num < 2 ^ 64 -> locase = 0 \/ locase = 32 ->
  simple_guess_base ((digit_char locase <$> all_digits num 10 (-1)) ++ [0]) = Some 10.
Proof.
  intros Hn Hl. destruct (all_digits_ok num 10 (-1) (or_intror (or_introl eq_refl)) ltac:(unfold is_u64; lia)) as (Hd & _ & _).
  destruct (to_digits_last 10 ltac:(lia) 64 num Hn) as (l & d & E & H0). unfold all_digits in *. rewrite E in *.
  rewrite rev_app_distr in *. replace (Z.to_nat _) with 0%nat in * by lia. cbn [replicate rev app] in *.
  apply Forall_cons in Hd as [Hd _]. destruct (digit_char_ok locase d Hl ltac:(lia)) as (_ & _ & _ & _ & _ & Hz).
  rewrite fmap_cons. unfold simple_guess_base. cbn [app]. change (zget (?a :: ?l) 0) with (Some a). cbn [mbind option_bind].
  rewrite Hz, (proj2 (Z.eqb_neq _ _)) by lia. done.
Qed.

(** The text of a number is read back. *)
Lemma number_text_read num base precision type : base_ok base -> is_u64 num ->
  (has type SIGN = false ->
   strict_strtoull (number_text num base (-1) precision type ++ [0]) base = Some (0, num) /\
   (base = 10 \/ has type SPECIAL = true ->
    strict_strtoull (number_text num base (-1) (-1) type ++ [0]) 0 = Some (0, num))) /\
  (has type SIGN = true -> has type PLUS = false -> has type SPACE = false -> base = 10 ->
   strict_strtoll (number_text num base (-1) precision type ++ [0]) base = Some (0, s64 num)).
Proof.
  intros Hb Hn.
  assert (Hrb : forall num type precision, is_u64 num -> has type SIGN = false ->
    strict_strtoull (number_text num base (-1) precision type ++ [0]) base = Some (0, num)).
  { intros x ty pr Hx Hs. rewrite unsigned_text by done. destruct (unsigned_nonul x base ty pr Hb Hx).
    apply strict_ok; [done|done|]. by apply read_back. }
  split.
  - intros Hs. split; [by apply Hrb|]. intros Hg. rewrite unsigned_text by done. destruct (unsigned_nonul num base type (-1) Hb Hn).
    apply strict_ok; [done|done|]. assert (base <> 0) by (destruct Hb as [-> |[-> | ->]]; lia).
    destruct (Z.eqb_spec base 10) as [->|H10].
    + assert (E : prefix_text 10 type = []) by (unfold prefix_text; by rewrite andb_false_r). rewrite E, app_nil_l in *.
      destruct (Z.eqb_spec num 0) as [->|Hnz]; [destruct (small_case type) as [-> | ->]; reflexivity|].
      unfold is_u64 in Hn. rewrite (strto_guessed _ _ 10); [|apply guess_decimal; [lia|apply small_case]|done].
      pose proof (read_back num 10 type (-1) Hb Hn) as R. rewrite E, app_nil_l in R. done.
    + destruct Hg as [|Hg]; [done|]. rewrite (strto_guessed _ _ base); [by apply read_back|by apply guess_special|done].
  - intros Hs Hp Hsp ->. rewrite number_text_bare. unfold sign_text, magnitude. rewrite Hs, Hp, Hsp. cbn [andb].
    assert (Hpx : prefix_text 10 type = []) by (unfold prefix_text; by rewrite andb_false_r). rewrite Hpx, app_nil_l.
    assert (Hcs : forall x, is_u64 x -> strict_strtoull ((digit_char (Z.land type SMALL) <$> all_digits x 10 precision) ++ [0]) 10 = Some (0, x)).
    { intros x Hx. pose proof (Hrb x (Z.land type SMALL) precision Hx) as R. rewrite number_text_bare in R.
      assert (Hf : has (Z.land type SMALL) SIGN = false) by (destruct (small_case type) as [-> | ->]; reflexivity).
      unfold sign_text, magnitude in R. rewrite Hf in R. cbn [andb app] in R.
      replace (prefix_text 10 (Z.land type SMALL)) with (@nil Z) in R by (unfold prefix_text; by rewrite andb_false_r).
      rewrite app_nil_l in R. rewrite <- (Z.land_assoc type) in R. by apply R. }
    unfold strict_strtoll. unfold is_u64 in Hn. destruct (Z.ltb_spec (s64 num) 0) as [H|H].
    + rewrite <- app_assoc. cbn [app]. change (zget (?a :: ?l) 0) with (Some a). cbn [mbind option_bind]. change (ch "-" =? ch "-") with true.
      cbv iota. cbn [drop]. rewrite drop_0, Hcs by (unfold is_u64, s64, swrap in *; Z.to_euclidean_division_equations; lia).
      cbn [mbind option_bind]. change (0 =? 0) with true. cbv iota. do 2 f_equal.
      unfold s64, swrap in *. Z.to_euclidean_division_equations; lia.
    + rewrite app_nil_l. destruct (all_digits_ok num 10 precision (or_intror (or_introl eq_refl)) Hn) as (Hd & Hne & _).
      specialize (Hcs num Hn). destruct (all_digits num 10 precision) as [|d ds]; [done|]. apply Forall_cons in Hd as [Hd _].
      destruct (digit_char_ok (Z.land type SMALL) d (small_case type) ltac:(lia)) as (_ & _ & _ & _ & Hm & _).
      rewrite fmap_cons in *. cbn [app] in *. change (zget (?a :: ?l) 0) with (Some a). cbn [mbind option_bind]. rewrite Hm.
      by rewrite Hcs.
Qed.

(** A number without a field width is at most 67 characters long, or three more than its precision. *)
Lemma number_text_len num base precision type : base_ok base -> is_u64 num ->
  len (number_text num base (-1) precision type) <= Z.max precision 64 + 3.
Proof.
  intros Hb Hn. rewrite number_text_bare, !length_app, length_fmap. unfold all_digits. rewrite length_app, length_replicate, length_rev.
  assert (Hm : 0 <= magnitude num type < 2 ^ 64) by (unfold magnitude, is_u64, s64, swrap in *;
    destruct (has type SIGN), (Z.ltb_spec ((num + 2 ^ (64 - 1)) mod 2 ^ 64 - 2 ^ (64 - 1)) 0); cbn [andb]; Z.to_euclidean_division_equations; lia).
  pose proof (digits_text_len (magnitude num type) base type Hb Hm) as Hd. unfold digits_text in Hd. rewrite length_rev, length_fmap in Hd.
  assert (len (sign_text num type) <= 1) by (unfold sign_text; repeat case_match; cbn [length]; lia).
  assert (len (prefix_text base type) <= 2) by (unfold prefix_text; repeat case_match; cbn [length]; lia).
  lia.
Qed.

(** C33: [number] called without a field width (-1) and with a precision of at
    most 2 ^ 29 stores, in a buffer with room for it, a text that the parsers read
    back, and leaves the rest of the buffer alone.  Of an unsigned conversion, with
    any flags, in either case, strict_strtoull in the same base returns the number,
    and in base 0 too if the precision is -1 and the base is 10 or the prefix was
    asked for.  Of a signed decimal without PLUS and SPACE, strict_strtoll returns
    the signed number.  The limits are needed: a '+' is refused by strict_strtoll,
    and in base 0 a decimal with leading zeros is read as octal
    ([number_not_read_back]). *)
Theorem number_roundtrip m buf num base precision type : base_ok base -> is_u64 num -> sane precision = true ->
  0 <= buf -> buf + len m < 2 ^ 32 -> Z.max precision 64 + 3 <= len m ->
  exists t, number buf (buf + len m) (m, buf) num base (-1) precision type = Some (t ++ drop (length t) m, buf + len t) /\
  (has type SIGN = false ->
   strict_strtoull (t ++ [0]) base = Some (0, num) /\
   (precision = -1 -> base = 10 \/ has type SPECIAL = true -> strict_strtoull (t ++ [0]) 0 = Some (0, num))) /\
  (has type SIGN = true -> has type PLUS = false -> has type SPACE = false -> base = 10 ->
   strict_strtoll (t ++ [0]) base = Some (0, s64 num)).
Proof.
  intros Hb Hn Hp Hbuf Htop Hm. pose proof (number_text_len num base precision type Hb Hn) as Hl.
  pose proof (number_text_read num base precision type Hb Hn) as [Hu Hs].
  exists (number_text num base (-1) precision type). split; [|split; [|exact Hs]].
  - rewrite (number_emits buf (buf + len m) num base (-1) precision type Hb Hn eq_refl Hp)
      by (unfold room_for, good; cbn [fst snd]; lia).
    rewrite puts_mem by lia. cbv zeta. rewrite Z.sub_diag. cbn [Z.to_nat take app Nat.add].
    rewrite (take_ge (number_text _ _ _ _ _)) by lia. done.
  - intros Hsg. destruct (Hu Hsg) as [H1 H2]. split; [exact H1|]. by intros ->.
Qed.

(** The most negative number with 25 digits, and 0xdeadbeef in octal with its prefix. *)
Lemma number_roundtrip_witness :
  (exists t, number 4096 4196 (replicate 100 7, 4096) (2 ^ 63) 10 (-1) 25 SIGN = Some (t ++ drop (length t) (replicate 100 7), 4096 + len t) /\
     strict_strtoll (t ++ [0]) 10 = Some (0, - 2 ^ 63)) /\
  (exists t, number 4096 4196 (replicate 100 7, 4096) 0xdeadbeef 8 (-1) (-1) SPECIAL =
       Some (t ++ drop (length t) (replicate 100 7), 4096 + len t) /\
     strict_strtoull (t ++ [0]) 0 = Some (0, 0xdeadbeef)).
Proof.
  split.
  - destruct (number_roundtrip (replicate 100 7) 4096 (2 ^ 63) 10 25 SIGN (or_intror (or_introl eq_refl)) ltac:(unfold is_u64; lia)
      eq_refl ltac:(lia) ltac:(reflexivity) ltac:(vm_compute; congruence)) as (t & E & _ & H).
    exists t. split; [exact E|]. apply H; reflexivity.
  - destruct (number_roundtrip (replicate 100 7) 4096 0xdeadbeef 8 (-1) SPECIAL (or_introl eq_refl) ltac:(unfold is_u64; lia)
      eq_refl ltac:(lia) ltac:(reflexivity) ltac:(vm_compute; congruence)) as (t & E & H & _).
    exists t. split; [exact E|]. apply H; [reflexivity|reflexivity|right; reflexivity].
Defined.

(** What is not read back: "+5" (-EINVAL), and "010", which is 8 in base 0. *)
Theorem number_not_read_back :
  number 0 8 (replicate 8 0, 0) 5 10 (-1) (-1) (Z.lor SIGN PLUS) = Some ([43; 53; 0; 0; 0; 0; 0; 0], 2) /\
  strict_strtoll [43; 53; 0] 10 = Some (-EINVAL, 0) /\
  number 0 8 (replicate 8 0, 0) 10 10 (-1) 3 0 = Some ([48; 49; 48; 0; 0; 0; 0; 0], 3) /\
  strict_strtoull [48; 49; 48; 0] 0 = Some (0, 8).
Proof. vm_compute. done. Qed.

(** The division-free decimal conversion: for every 64-bit number put_dec
    terminates and stores its decimal digits, least significant first, as many as
    the number has. *)
Theorem put_dec_correct num : is_u64 num ->
  exists ds, put_dec num = Some (dec_chars ds) /\ Forall (fun d => 0 <= d < 10) ds /\ of_digits 10 ds = num /\
    (num <> 0 -> exists l d, ds = l ++ [d] /\ 0 < d) /\ (num = 0 -> ds = [0]).
Proof.
  intros Hn. exists (to_digits 64 10 num). rewrite put_dec_ok by done. unfold is_u64 in Hn. split_and!.
  - done.
  - apply to_digits_range; lia.
  - apply of_to_digits; [lia|exact Hn].
  - intros. apply to_digits_last; [lia|]. change (2 ^ Z.of_nat 64) with (2 ^ 64). lia.
  - intros ->. reflexivity.
Qed.

Lemma put_dec_correct_witness : exists ds, put_dec (2 ^ 64 - 1) = Some (dec_chars ds) /\ of_digits 10 ds = 2 ^ 64 - 1.
Proof.
  destruct (put_dec_correct (2 ^ 64 - 1) ltac:(unfold is_u64; lia)) as (ds & E & _ & V & _). exists ds. split; [exact E|exact V].
Defined.

(** strict_strtoul does not detect overflow: the text of any 64-bit number is
    accepted and gives the number modulo 2 ^ 32; and a bare 0x is accepted as 0 in
    base 16, though no digit follows. *)
Theorem strict_strtoul_accepts_overflow num : is_u64 num ->
  strict_strtoul (number_text num 10 (-1) (-1) 0 ++ [0]) 10 = Some (0, u32 num) /\
  strict_strtoul [ch "0"; ch "x"; 0] 16 = Some (0, 0).
Proof.
  intros Hn. split; [|reflexivity]. assert (Hb : base_ok 10) by (by right; left). rewrite unsigned_text by done.
  destruct (unsigned_nonul num 10 0 (-1) Hb Hn). apply strict_ok; [done|done|].
  change (prefix_text 10 0) with (@nil Z). rewrite app_nil_l. destruct (all_digits_ok num 10 (-1) Hb Hn) as (Hd & Hne & Hv).
  rewrite strto_plain by (done || lia || by left). by rewrite Hv, length_fmap.
Qed.

Lemma strict_strtoul_accepts_overflow_witness : strict_strtoul (number_text (2 ^ 32) 10 (-1) (-1) 0 ++ [0]) 10 = Some (0, 0).
Proof. exact (proj1 (strict_strtoul_accepts_overflow (2 ^ 32) ltac:(unfold is_u64; lia))). Defined.

Lemma mac_loop_len sep l : len (mac_loop sep l) <= 3 * len l - (if 0 <? len l then 1 else 0).
Proof.
  induction l as [|b l IH]; [done|]. cbn [mac_loop]. rewrite !length_app. cbn [pack_hex_byte length] in *.
  destruct (Z.ltb_spec 0 (len l)), (Z.eqb_spec (len l) 0), sep; cbn [negb andb length]; (lia || (rewrite (proj2 (Z.ltb_lt _ _)); lia)).
Qed.

Lemma ip6_loop_len sep n : forall l, length l = (2 * n)%nat -> len (ip6_loop sep l) <= 5 * Z.of_nat n - (if 0 <? Z.of_nat n then 1 else 0).
Proof.
  induction n as [|n IH]; intros [|b [|b' l]] Hl; cbn [length] in Hl; try lia; [done|]. cbn [ip6_loop]. rewrite !length_app.
  specialize (IH l ltac:(lia)). cbn [pack_hex_byte length] in *.
  destruct (Z.ltb_spec 0 (Z.of_nat n)), (Z.eqb_spec (len l) 0), sep; cbn [negb andb length]; rewrite (proj2 (Z.ltb_lt _ _)) by lia; lia.
Qed.

Lemma put_dec_trunc_u8 b : is_u8 b -> (length (put_dec_trunc b) <= 3)%nat.
Proof.
  intros Hb. unfold is_u8 in Hb. rewrite put_dec_trunc_ok by lia. unfold dec_chars. rewrite length_fmap.
  apply to_digits_len; [lia|]. change (10 ^ Z.of_nat 3) with 1000. lia.
Qed.

Lemma ip4_loop_len l : bytes l -> len (ip4_loop l) <= 4 * len l - (if 0 <? len l then 1 else 0).
Proof.
  induction 1 as [|b l Hb _ IH]; [done|]. cbn [ip4_loop]. rewrite !length_app, length_rev.
  pose proof (put_dec_trunc_u8 b Hb). cbn [length].
  destruct (Z.ltb_spec 0 (len l)), (Z.eqb_spec (len l) 0); cbn [negb andb length] in *; rewrite (proj2 (Z.ltb_lt _ _)) by lia; lia.
Qed.

(** The fixed buffers on the stack are large enough: the digits of a 64-bit
    number in the 66 bytes of [tmp], each quad of an IPv4 address in the 3 bytes of
    [temp], and the texts of MAC, IPv4 and IPv6 addresses with their terminators in
    18, 16 and 40 bytes. *)
Theorem local_buffers_fit num base type mac ip4 ip6 sep : base_ok base -> is_u64 num ->
  bytes ip4 -> length mac = 6%nat -> length ip4 = 4%nat -> length ip6 = 16%nat ->
  len (digits_text num base type) <= 66 /\
  Forall (fun b => len (put_dec_trunc b) <= 3) ip4 /\
  len (mac_loop sep mac ++ [0]) <= 18 /\ len (ip4_loop ip4 ++ [0]) <= 16 /\ len (ip6_loop sep ip6 ++ [0]) <= 40.
Proof.
  intros Hb Hn H4 Lm L4 L6. pose proof (digits_text_len num base type Hb Hn).
  pose proof (mac_loop_len sep mac) as Bm. pose proof (ip4_loop_len ip4 H4) as B4. pose proof (ip6_loop_len sep 8 ip6 L6) as B6.
  rewrite Lm in Bm. rewrite L4 in B4. change (0 <? Z.of_nat 6) with true in Bm. change (0 <? Z.of_nat 4) with true in B4. change (0 <? Z.of_nat 8) with true in B6. rewrite !length_app. cbn [length]. split_and!; try lia.
  apply (Forall_impl _ _ _ H4). intros b Hbb. pose proof (put_dec_trunc_u8 b Hbb). lia.
Qed.

Lemma local_buffers_fit_witness : len (ip4_loop [255; 255; 255; 255] ++ [0]) <= 16.
Proof.
  apply (local_buffers_fit 0 10 0 [0; 0; 0; 0; 0; 0] [255; 255; 255; 255] (replicate 16 0) true
    (or_intror (or_introl eq_refl)) ltac:(unfold is_u64; lia) ltac:(repeat constructor; unfold is_u8; lia) eq_refl eq_refl eq_refl).
Defined.
