(* ===== verification/Lowmem.v ===== *)
(** The Android low memory killer (drivers/staging/android/lowmemorykiller.c):
    the thresholds, the choice of a victim, and the delay between two kills.  The
    page counters, [jiffies] and the list of processes are inputs of the shrinker. *)
From S2P Require Import Prelude.
Local Open Scope kernel_scope.

Definition OOM_ADJUST_MAX : Z := 15.
Definition HZ : Z := 100.

(** A process: its [mm]'s [get_mm_rss], if it has one, and [oomkilladj]. *)
Record task := mk_task { pid : nat; mm_rss : option Z; oomkilladj : Z }.

(** The module's variables; [lowmem_adj] and [lowmem_minfree] have six slots. *)
Record lowmem := mk_lowmem {
  lowmem_adj : list Z;
  lowmem_adj_size : Z;
  lowmem_minfree : list Z;
  lowmem_minfree_size : Z;
  lowmem_deathpending : option nat;
  lowmem_deathpending_timeout : Z }.

Definition lowmem_default : lowmem :=
  mk_lowmem [0; 1; 6; 12; 0; 0] 4 [3 * 512; 2 * 1024; 4 * 1024; 16 * 1024; 0; 0] 4 None 0.

(** The [global_page_state] counters. *)
Record vmstat := mk_vmstat {
  nr_free_pages : Z;
  nr_file_pages : Z;
  nr_active_anon : Z;
  nr_active_file : Z;
  nr_inactive_anon : Z;
  nr_inactive_file : Z }.

Definition task_notify_func (st : lowmem) (t : nat) : lowmem :=
  if bool_decide (lowmem_deathpending st = Some t)
  then mk_lowmem (lowmem_adj st) (lowmem_adj_size st) (lowmem_minfree st) (lowmem_minfree_size st)
         None (lowmem_deathpending_timeout st)
  else st.

Definition time_after_eq (a b : Z) : bool := 0 <=? s32 (s32 a - s32 b).
Definition time_before_eq (a b : Z) : bool := time_after_eq b a.

(** The loop over the thresholds, from [i] on; [other_file] is compared as unsigned. *)
Fixpoint find_min_adj (fuel : nat) (st : lowmem) (i array_size other_file : Z) : option Z :=
  if i <? array_size then
    match fuel with
    | O => None
    | S fuel' =>
        m ← zget (lowmem_minfree st) i;
        if u32 other_file <? m then zget (lowmem_adj st) i
        else find_min_adj fuel' st (i + 1) array_size other_file
    end
  else Some (OOM_ADJUST_MAX + 1).

(** The process chosen so far, with its size and [oom_adj]. *)
Definition selection : Type := option (nat * Z * Z).

(** One turn of [for_each_process]. *)
Definition consider (min_adj : Z) (sel : selection) (p : task) : selection :=
  match mm_rss p with
  | None => sel
  | Some rss =>
      let oom_adj := oomkilladj p in
      if oom_adj <? min_adj then sel else
      let tasksize := s32 rss in
      if tasksize <=? 0 then sel else
      match sel with
      | Some (_, selected_tasksize, selected_oom_adj) =>
          if oom_adj <? selected_oom_adj then sel
          else if (oom_adj =? selected_oom_adj) && (tasksize <=? selected_tasksize) then sel
          else Some (pid p, tasksize, oom_adj)
      | None => Some (pid p, tasksize, oom_adj)
      end
  end.

(** The new state, the return value and the process that is sent [SIGKILL]. *)
Definition lowmem_shrink (st : lowmem) (vm : vmstat) (procs : list task) (jiffies nr_to_scan : Z)
    : option (lowmem * Z * option nat) :=
  let other_file := s32 (nr_file_pages vm) in
  if bool_decide (is_Some (lowmem_deathpending st)) && time_before_eq jiffies (lowmem_deathpending_timeout st)
  then Some (st, 0, None) else
  let array_size := 6 in
  let array_size := if lowmem_adj_size st <? array_size then lowmem_adj_size st else array_size in
  let array_size := if lowmem_minfree_size st <? array_size then lowmem_minfree_size st else array_size in
  min_adj ← find_min_adj 6 st 0 array_size other_file;
  let rem := s32 (nr_active_anon vm + nr_active_file vm + nr_inactive_anon vm + nr_inactive_file vm) in
  if (nr_to_scan <=? 0) || (min_adj =? OOM_ADJUST_MAX + 1) then Some (st, rem, None) else
  match foldl (consider min_adj) None procs with
  | None => Some (st, rem, None)
  | Some (p, selected_tasksize, _) =>
      Some (mk_lowmem (lowmem_adj st) (lowmem_adj_size st) (lowmem_minfree st) (lowmem_minfree_size st)
              (Some p) (jiffies +u HZ), s32 (rem - selected_tasksize), Some p)
  end.

(** ** The choice of a victim *)

(** The processes that may be killed. *)
Definition eligible (min_adj : Z) (p : task) : bool :=
  match mm_rss p with None => false | Some rss => (min_adj <=? oomkilladj p) && (0 <? s32 rss) end.

Definition task_size (p : task) : Z := s32 (default 0 (mm_rss p)).

(** [q] is at least as good a victim as [p]. *)
Definition worse_eq (p q : task) : Prop :=
  oomkilladj p < oomkilladj q \/ oomkilladj p = oomkilladj q /\ task_size p <= task_size q.

Definition worse (p q : task) : Prop :=
  oomkilladj p < oomkilladj q \/ oomkilladj p = oomkilladj q /\ task_size p < task_size q.

(** The first of the best victims. *)
Definition victim (min_adj : Z) (procs : list task) (v : task) : Prop :=
  exists before after, procs = before ++ v :: after /\ eligible min_adj v = true /\
    Forall (fun p => eligible min_adj p = true -> worse p v) before /\
    Forall (fun p => eligible min_adj p = true -> worse_eq p v) after.

Lemma consider_skip min_adj sel p : eligible min_adj p = false -> consider min_adj sel p = sel.
Proof.
  unfold eligible, consider. destruct (mm_rss p) as [rss|]; [|done].
  destruct (Z.leb_spec min_adj (oomkilladj p)), (Z.ltb_spec (oomkilladj p) min_adj); try lia; try done.
  cbn [andb]. destruct (Z.ltb_spec 0 (s32 rss)), (Z.leb_spec (s32 rss) 0); (lia || done).
Qed.

Lemma consider_take min_adj sel p : eligible min_adj p = true ->
  consider min_adj sel p =
    match sel with
    | Some (_, s, a) =>
        if (oomkilladj p <? a) || ((oomkilladj p =? a) && (task_size p <=? s)) then sel
        else Some (pid p, task_size p, oomkilladj p)
    | None => Some (pid p, task_size p, oomkilladj p)
    end.
Proof.
  unfold eligible, consider, task_size. destruct (mm_rss p) as [rss|]; [|done].
  rewrite andb_true_iff, Z.leb_le, Z.ltb_lt. intros [Ha Hs]. rewrite (proj2 (Z.ltb_ge _ _)), (proj2 (Z.leb_gt _ _)) by lia.
  destruct sel as [[[q s] a]|]; [|done]. cbn [default from_option id]. by destruct (_ <? a).
Qed.

(** What the scan has chosen describes the first best victim so far. *)
Lemma select_victim min_adj procs :
  match foldl (consider min_adj) None procs with
  | None => Forall (fun p => eligible min_adj p = false) procs
  | Some (p, s, a) => exists v, victim min_adj procs v /\ p = pid v /\ s = task_size v /\ a = oomkilladj v
  end.
Proof.
  induction procs as [|p procs IH] using rev_ind; [by constructor|]. rewrite foldl_app. cbn [foldl].
  destruct (eligible min_adj p) eqn:Ep.
  - rewrite consider_take by done. destruct (foldl (consider min_adj) None procs) as [[[q s] a]|].
    + destruct IH as (v & (b & c & -> & Hv & Hb & Hc) & -> & -> & ->).
      destruct ((oomkilladj p <? oomkilladj v) || _) eqn:E.
      * exists v. split; [|done]. exists b, (c ++ [p]). rewrite <- app_assoc. split_and!; try done.
        apply Forall_app; split; [done|]. constructor; [|done]. intros _. unfold worse_eq.
        apply orb_true_iff in E as [E|E]; [rewrite Z.ltb_lt in E; lia|]. rewrite andb_true_iff, Z.eqb_eq, Z.leb_le in E. lia.
      * exists p. split; [|done]. exists (b ++ v :: c), []. split_and!; try done.
        apply orb_false_iff in E as [E1 E2]. rewrite Z.ltb_ge in E1. rewrite andb_false_iff, Z.eqb_neq, Z.leb_gt in E2.
        apply Forall_app; split; [|constructor].
        -- apply (Forall_impl _ _ _ Hb). unfold worse. intros q Hq Hel. specialize (Hq Hel). lia.
        -- intros _. unfold worse. lia.
        -- apply (Forall_impl _ _ _ Hc). unfold worse, worse_eq. intros q Hq Hel. specialize (Hq Hel). lia.
    + exists p. split; [|done]. exists procs, []. split_and!; try done.
      apply (Forall_impl _ _ _ IH). intros q ->. done.
  - rewrite consider_skip by done. destruct (foldl (consider min_adj) None procs) as [[[q s] a]|].
    + destruct IH as (v & (b & c & -> & Hv & Hb & Hc) & Hpq). exists v. split; [|done].
      exists b, (c ++ [p]). rewrite <- app_assoc. split_and!; try done. apply Forall_app; split; [done|]. constructor; [|done].
      by rewrite Ep.
    + apply Forall_app. by split; [|constructor].
Qed.

(** ** The thresholds *)

(** The sizes that the module parameters can have. *)
Definition lowmem_wf (st : lowmem) : Prop :=
  length (lowmem_adj st) = 6%nat /\ length (lowmem_minfree st) = 6%nat.

Definition thresholds (st : lowmem) : Z := Z.min 6 (Z.min (lowmem_adj_size st) (lowmem_minfree_size st)).

(** The entry in force: the first threshold the cached pages are below. *)
Definition threshold_at (st : lowmem) (other_file i : Z) : Prop :=
  0 <= i < thresholds st /\ other_file < zat (lowmem_minfree st) i /\
  forall j, 0 <= j < i -> zat (lowmem_minfree st) j <= other_file.

Lemma find_min_adj_ok st n other_file : lowmem_wf st -> n <= 6 -> forall fuel i, 0 <= i -> n - i <= Z.of_nat fuel ->
  exists r, find_min_adj fuel st i n other_file = Some r /\
    ((exists k, i <= k < n /\ u32 other_file < zat (lowmem_minfree st) k /\
        (forall j, i <= j < k -> zat (lowmem_minfree st) j <= u32 other_file) /\ r = zat (lowmem_adj st) k) \/
     (forall j, i <= j < n -> zat (lowmem_minfree st) j <= u32 other_file) /\ r = OOM_ADJUST_MAX + 1).
Proof.
  intros [Ha Hm] Hn. induction fuel as [|fuel IH]; intros i Hi Hf; cbn [find_min_adj]; destruct (Z.ltb_spec i n); try lia;
    try (eexists; split; [reflexivity|]; right; split; [intros; lia|done]).
  rewrite (zget_zat (lowmem_minfree st)), (zget_zat (lowmem_adj st)) by lia. cbn [mbind option_bind].
  destruct (u32 other_file <? zat (lowmem_minfree st) i) eqn:E; [apply Z.ltb_lt in E|apply Z.ltb_ge in E].
  - eexists. split; [reflexivity|]. left. exists i. split_and!; (lia || done || (intros; lia)).
  - destruct (IH (i + 1) ltac:(lia) ltac:(lia)) as (r & -> & [(k & Hk & Hlt & Hj & ->)|[Hj ->]]); eexists; (split; [reflexivity|]).
    + left. exists k. split_and!; try (lia || done). intros j Hj'. destruct (Z.eq_dec j i) as [->|]; [lia|]. apply Hj. lia.
    + right. split; [|done]. intros j Hj'. destruct (Z.eq_dec j i) as [->|]; [lia|]. apply Hj. lia.
Qed.

Lemma array_size_thresholds st :
  (let array_size := if lowmem_adj_size st <? 6 then lowmem_adj_size st else 6 in
   if lowmem_minfree_size st <? array_size then lowmem_minfree_size st else array_size) = thresholds st.
Proof.
  unfold thresholds. cbv zeta.
  destruct (Z.ltb_spec (lowmem_adj_size st) 6);
    [destruct (Z.ltb_spec (lowmem_minfree_size st) (lowmem_adj_size st))|destruct (Z.ltb_spec (lowmem_minfree_size st) 6)]; lia.
Qed.

(** A kill is outstanding and its time is not over. *)
Definition waiting (st : lowmem) (jiffies : Z) : bool :=
  bool_decide (is_Some (lowmem_deathpending st)) && time_before_eq jiffies (lowmem_deathpending_timeout st).

Definition lru_pages (vm : vmstat) : Z :=
  s32 (nr_active_anon vm + nr_active_file vm + nr_inactive_anon vm + nr_inactive_file vm).

Definition set_pending (st : lowmem) (p : option nat) (timeout : Z) : lowmem :=
  mk_lowmem (lowmem_adj st) (lowmem_adj_size st) (lowmem_minfree st) (lowmem_minfree_size st) p timeout.

(** Why a call of the shrinker kills nobody, with what it returns. *)
Definition spares (st : lowmem) (vm : vmstat) (procs : list task) (jiffies nr_to_scan rem : Z) : Prop :=
  waiting st jiffies = true /\ rem = 0 \/
  waiting st jiffies = false /\ rem = lru_pages vm /\
  (nr_to_scan <= 0 \/ (forall i, ~ threshold_at st (u32 (nr_file_pages vm)) i) \/
   exists i, threshold_at st (u32 (nr_file_pages vm)) i /\
     (zat (lowmem_adj st) i = OOM_ADJUST_MAX + 1 \/
      Forall (fun p => eligible (zat (lowmem_adj st) i) p = false) procs)).

Lemma u32_s32 x : u32 (s32 x) = u32 x.
Proof. destruct (s32_eqm x) as [k ->]. unfold u32, wrap. by rewrite Z.mul_comm, Z_mod_plus_full. Qed.

(** The free pages do not matter: the code reads them only to print them. *)
Theorem lowmem_ignores_free_pages st vm free procs jiffies nr_to_scan :
  lowmem_shrink st (mk_vmstat free (nr_file_pages vm) (nr_active_anon vm) (nr_active_file vm)
    (nr_inactive_anon vm) (nr_inactive_file vm)) procs jiffies nr_to_scan =
  lowmem_shrink st vm procs jiffies nr_to_scan.
Proof. reflexivity. Qed.

(** C34: what the low memory killer does with the page counters, the processes
    and the thresholds it finds: when the page cache is below a threshold, a scan
    is asked for and no kill is outstanding, it takes the first such threshold and
    kills the process with the highest oom_adj not below that threshold's, the
    largest of these and the first of equal ones, records it, and takes its size
    off the result; in every other case, each of them listed, it kills nobody and
    leaves its state alone.  The test is of the page cache alone, as the code has
    it: the comment at the top of the driver speaks of free memory with the caches
    counted in, but the free pages do not matter ([lowmem_ignores_free_pages]). *)
Theorem lowmem_shrink_correct st vm procs jiffies nr_to_scan : lowmem_wf st ->
  exists st' rem killed, lowmem_shrink st vm procs jiffies nr_to_scan = Some (st', rem, killed) /\
  match killed with
  | None => st' = st /\ spares st vm procs jiffies nr_to_scan rem
  | Some k => waiting st jiffies = false /\ 0 < nr_to_scan /\
      exists i v, threshold_at st (u32 (nr_file_pages vm)) i /\ victim (zat (lowmem_adj st) i) procs v /\
        k = pid v /\ st' = set_pending st (Some k) (jiffies +u HZ) /\ rem = s32 (lru_pages vm - task_size v)
  end.
Proof.
  intros Hwf. unfold lowmem_shrink, spares. fold (waiting st jiffies) (lru_pages vm). destruct (waiting st jiffies) eqn:Ew.
  { exists st, 0, None. split; [done|]. split; [done|]. by left. }
  pose proof (array_size_thresholds st) as Ea. cbv zeta in Ea. rewrite Ea. clear Ea.
  assert (Ht : thresholds st <= 6) by (unfold thresholds; lia).
  destruct (find_min_adj_ok st (thresholds st) (s32 (nr_file_pages vm)) Hwf Ht 6 0 ltac:(lia) ltac:(lia)) as (r & -> & Hr).
  cbn [mbind option_bind]. rewrite u32_s32 in Hr.
  destruct Hr as [(i & Hi & Hlt & Hj & ->)|[Hj ->]].
  2:{ rewrite Z.eqb_refl, orb_true_r. exists st, (lru_pages vm), None. split; [done|]. split; [done|]. right. split_and!; try done.
      right; left. intros i (Hi & Hlt & _). specialize (Hj i Hi). lia. }
  assert (Hat : threshold_at st (u32 (nr_file_pages vm)) i) by done.
  destruct (Z.leb_spec nr_to_scan 0); cbn [orb].
  { exists st, (lru_pages vm), None. split; [done|]. split; [done|]. right. split_and!; try done. by left. }
  destruct (Z.eqb_spec (zat (lowmem_adj st) i) (OOM_ADJUST_MAX + 1)) as [E|E].
  { exists st, (lru_pages vm), None. split; [done|]. split; [done|]. right. split_and!; try done. right; right. eauto. }
  pose proof (select_victim (zat (lowmem_adj st) i) procs) as Hs. destruct (foldl _ _ procs) as [[[k s] a]|].
  - destruct Hs as (v & Hv & -> & -> & ->). eexists _, _, (Some (pid v)). split; [reflexivity|]. split_and!; try done. eauto 10.
  - exists st, (lru_pages vm), None. split; [done|]. split; [done|]. right. split_and!; try done. right; right. eauto.
Qed.

(** 500 free and 3000 cached pages, two background processes at oom_adj 8 and one in the foreground: the larger
    background one goes. *)
Lemma lowmem_shrink_correct_witness :
  exists rem killed st', lowmem_shrink lowmem_default (mk_vmstat 500 3000 10 20 30 40)
    [mk_task 1 (Some 9000) 0; mk_task 2 (Some 50) 8; mk_task 3 (Some 70) 8; mk_task 4 None 15] 7 128 = Some (st', rem, killed) /\
    killed = Some 3%nat /\ rem = 30.
Proof.
  destruct (lowmem_shrink_correct lowmem_default (mk_vmstat 500 3000 10 20 30 40)
    [mk_task 1 (Some 9000) 0; mk_task 2 (Some 50) 8; mk_task 3 (Some 70) 8; mk_task 4 None 15] 7 128 ltac:(split; reflexivity))
    as (st' & rem & killed & E & _).
  exists rem, killed, st'. split; [exact E|]. vm_compute in E. injection E as _ <- <-. split; reflexivity.
Defined.

(** One kill at a time: for HZ jiffies after a kill, also across the wrap of
    jiffies, further calls kill nobody and return 0, until the victim's death is
    reported; after the report, or after HZ jiffies, the killer is ready again. *)
Theorem lowmem_one_at_a_time st vm procs j nr st' rem k d :
  lowmem_shrink st vm procs j nr = Some (st', rem, Some k) -> is_u32 j -> 0 <= d < 2 ^ 31 ->
  (forall vm' procs' nr', d <= HZ -> lowmem_shrink st' vm' procs' (j +u d) nr' = Some (st', 0, None)) /\
  (forall t, t <> k -> task_notify_func st' t = st') /\
  waiting (task_notify_func st' k) (j +u d) = false /\
  (HZ < d -> waiting st' (j +u d) = false).
Proof.
  intros E Hj Hd.
  assert (Hst : lowmem_deathpending st' = Some k /\ lowmem_deathpending_timeout st' = j +u HZ).
  { unfold lowmem_shrink in E. cbv zeta in E. destruct (_ && _); [done|]. destruct (find_min_adj _ _ _ _ _); [|done].
    cbn [mbind option_bind] in E. destruct (_ || _); [done|]. destruct (foldl _ _ _) as [[[p s] a]|]; [|done].
    by injection E as <- <- <-. }
  destruct Hst as [Hk Ht]. assert (Hw : waiting st' (j +u d) = (d <=? HZ)).
  { unfold waiting. rewrite Hk, bool_decide_eq_true_2 by eauto. cbn [andb]. unfold time_before_eq, time_after_eq. rewrite Ht.
    assert (Es : s32 (s32 (u32 (j + HZ)) - s32 (u32 (j + d))) = HZ - d).
    { unfold HZ, s32, swrap, u32, wrap, is_u32 in *. Z.to_euclidean_division_equations; lia. }
    rewrite Es. apply eq_bool_prop_intro; rewrite !Is_true_true, !Z.leb_le; lia. }
  split_and!.
  - intros vm' procs' nr' Hle. unfold lowmem_shrink. fold (waiting st' (j +u d)). rewrite Hw, (proj2 (Z.leb_le _ _)) by done. done.
  - intros t Hne. unfold task_notify_func. rewrite Hk, bool_decide_eq_false_2 by congruence. done.
  - unfold task_notify_func. rewrite Hk, bool_decide_eq_true_2 by done. done.
  - intros H. rewrite Hw. apply Z.leb_gt. lia.
Qed.

(** The kill is at a jiffy just before the wrap. *)
Lemma lowmem_one_at_a_time_witness :
  exists st', lowmem_shrink lowmem_default (mk_vmstat 0 100 1 1 1 1) [mk_task 5 (Some 60) 3] (2 ^ 32 - 10) 1 = Some (st', -56, Some 5%nat) /\
    lowmem_shrink st' (mk_vmstat 0 0 0 0 0 0) [mk_task 6 (Some 60) 9] 50 1 = Some (st', 0, None).
Proof.
  eexists. split; [reflexivity|].
  refine (proj1 (lowmem_one_at_a_time lowmem_default (mk_vmstat 0 100 1 1 1 1) [mk_task 5 (Some 60) 3] (2 ^ 32 - 10) 1 _ (-56) 5%nat 60
    _ _ _) (mk_vmstat 0 0 0 0 0 0) [mk_task 6 (Some 60) 9] 1 _); [reflexivity|unfold is_u32; lia|lia|unfold HZ; lia].
Defined.
