(* ===== verification/Wakelock.v ===== *)
(** Android wake locks (kernel/power/wakelock.c, include/linux/wakelock.h): the
    locks that keep the phone from suspending, with their time-outs, the timer that
    expires them, the work item that suspends, and the statistics
    (CONFIG_WAKELOCK_STAT).  A definition is what a routine does while it holds
    [list_lock] with interrupts off; [jiffies] and the kernel time are constant
    there and are inputs, the clock behind [ktime_get] is read as often as the code
    reads it.  Messages are left out. *)
From S2P Require Import Prelude Time.
Local Open Scope kernel_scope.

Definition WAKE_LOCK_SUSPEND : Z := 0.
Definition WAKE_LOCK_IDLE : Z := 1.
Definition WAKE_LOCK_TYPE_COUNT : Z := 2.
Definition WAKE_LOCK_TYPE_MASK : Z := 0x0f.
Definition WAKE_LOCK_INITIALIZED : Z := 2 ^ 8.
Definition WAKE_LOCK_ACTIVE : Z := 2 ^ 9.
Definition WAKE_LOCK_AUTO_EXPIRE : Z := 2 ^ 10.
Definition WAKE_LOCK_PREVENTING_SUSPEND : Z := 2 ^ 11.
Definition LONG_MAX : Z := 2 ^ 31 - 1.
Definition HZ : Z := 100.

Record stat_t := mk_stat {
  count : Z;
  expire_count : Z;
  wakeup_count : Z;
  total_time : Z;
  prevent_suspend_time : Z;
  max_time : Z;
  last_time : Z }.

Record wake_lock := mk_lock { flags : Z; expires : Z; stat : stat_t }.

(** [struct wake_lock] objects by address; [main_wake_lock], [unknown_wakeup] and
    [deleted_wake_locks] are the first three. *)
Definition main_wake_lock : nat := 0.
Definition unknown_wakeup : nat := 1.
Definition deleted_wake_locks : nat := 2.

Record wakelocks := mk_wakelocks {
  locks : gmap nat wake_lock;
  inactive_locks : list nat;
  active_suspend : list nat;             (** [active_wake_locks[WAKE_LOCK_SUSPEND]] *)
  active_idle : list nat;                (** [active_wake_locks[WAKE_LOCK_IDLE]] *)
  current_event_num : Z;
  expire_timer : option Z;               (** when it is pending, its [expires] *)
  suspend_work : bool;                   (** queued *)
  last_sleep_time_update : Z;
  wait_for_wakeup : bool;
  clock_reads : nat }.

(** What is constant while interrupts are off. *)
Record env := mk_env { jiffies : Z; xtime : timespec; wall_to_monotonic : timespec }.

Definition has (l : wake_lock) (f : Z) : bool := negb (Z.land (flags l) f =? 0).
Definition type_of (l : wake_lock) : Z := Z.land (flags l) WAKE_LOCK_TYPE_MASK.
Definition set_flags (f : Z -> Z) (l : wake_lock) : wake_lock := mk_lock (f (flags l)) (expires l) (stat l).
Definition set_expires (e : Z) (l : wake_lock) : wake_lock := mk_lock (flags l) e (stat l).
Definition set_stat (f : stat_t -> stat_t) (l : wake_lock) : wake_lock := mk_lock (flags l) (expires l) (f (stat l)).
Definition set_last_time (t : Z) (s : stat_t) : stat_t :=
  mk_stat (count s) (expire_count s) (wakeup_count s) (total_time s) (prevent_suspend_time s) (max_time s) t.

Definition upd_locks (f : gmap nat wake_lock -> gmap nat wake_lock) (st : wakelocks) : wakelocks :=
  mk_wakelocks (f (locks st)) (inactive_locks st) (active_suspend st) (active_idle st) (current_event_num st)
    (expire_timer st) (suspend_work st) (last_sleep_time_update st) (wait_for_wakeup st) (clock_reads st).
Definition upd_lock (id : nat) (f : wake_lock -> wake_lock) : wakelocks -> wakelocks := upd_locks (alter f id).
Definition upd_lists (fi fs fd : list nat -> list nat) (st : wakelocks) : wakelocks :=
  mk_wakelocks (locks st) (fi (inactive_locks st)) (fs (active_suspend st)) (fd (active_idle st)) (current_event_num st)
    (expire_timer st) (suspend_work st) (last_sleep_time_update st) (wait_for_wakeup st) (clock_reads st).
Definition set_event (n : Z) (st : wakelocks) : wakelocks :=
  mk_wakelocks (locks st) (inactive_locks st) (active_suspend st) (active_idle st) n
    (expire_timer st) (suspend_work st) (last_sleep_time_update st) (wait_for_wakeup st) (clock_reads st).
Definition set_timer (t : option Z) (st : wakelocks) : wakelocks :=
  mk_wakelocks (locks st) (inactive_locks st) (active_suspend st) (active_idle st) (current_event_num st)
    t (suspend_work st) (last_sleep_time_update st) (wait_for_wakeup st) (clock_reads st).
Definition set_work (w : bool) (st : wakelocks) : wakelocks :=
  mk_wakelocks (locks st) (inactive_locks st) (active_suspend st) (active_idle st) (current_event_num st)
    (expire_timer st) w (last_sleep_time_update st) (wait_for_wakeup st) (clock_reads st).
Definition set_stats (t : Z) (w : bool) (n : nat) (st : wakelocks) : wakelocks :=
  mk_wakelocks (locks st) (inactive_locks st) (active_suspend st) (active_idle st) (current_event_num st)
    (expire_timer st) (suspend_work st) t w n.

(** ** Lists *)

(** [list_del] follows the links of the entry, which must be on a list. *)
Definition list_del (id : nat) (st : wakelocks) : option wakelocks :=
  if bool_decide (id ∈ inactive_locks st ++ active_suspend st ++ active_idle st)
  then let rm := filter (fun x => x <> id) in Some (upd_lists rm rm rm st)
  else None.

(** [list_add] to [inactive_locks]; [list_add_tail] or [list_add] to the active ones. *)
Definition add_inactive (id : nat) : wakelocks -> wakelocks :=
  upd_lists (cons id) (fun l => l) (fun l => l).
Definition add_active (type : Z) (tail : bool) (id : nat) : wakelocks -> wakelocks :=
  let add l := if tail then l ++ [id] else id :: l in
  if type =? WAKE_LOCK_SUSPEND then upd_lists (fun l => l) add (fun l => l)
  else upd_lists (fun l => l) (fun l => l) add.

Definition active_wake_locks (st : wakelocks) (type : Z) : list nat :=
  if type =? WAKE_LOCK_SUSPEND then active_suspend st else active_idle st.

Section Clock.
(** The [n]-th reading of the clock. *)
Context (clock : nat -> Z).

Definition ktime_get (st : wakelocks) : Z * wakelocks :=
  (clock (clock_reads st), set_stats (last_sleep_time_update st) (wait_for_wakeup st) (S (clock_reads st)) st).

(** ** Statistics *)

(** The time at which an auto-expiring lock has expired, if it has; the outer [option]
    is for the loops of [set_normalized_timespec]. *)
Definition get_expired_time (e : env) (lock : wake_lock) : option (option Z) :=
  if negb (has lock WAKE_LOCK_AUTO_EXPIRE) then Some None else
  let timeout := s32 (expires lock - jiffies e) in
  if 0 <? timeout then Some None else
  let delta := jiffies_to_timespec (u32 (- timeout)) in
  ts ← set_normalized_timespec (s32 (tv_sec (xtime e) + tv_sec (wall_to_monotonic e) - tv_sec delta))
                               (s32 (tv_nsec (xtime e) + tv_nsec (wall_to_monotonic e) - tv_nsec delta));
  Some (Some (timespec_to_ktime ts)).

(** What [wake_unlock_stat_locked] does to the lock, given the times it reads. *)
Definition unlock_stat (now last sleep_update : Z) (expired : bool) (l : wake_lock) : wake_lock :=
  let s := stat l in
  let duration := ktime_sub now (last_time s) in
  let prevent := has l WAKE_LOCK_PREVENTING_SUSPEND in
  mk_lock (if prevent then Z.land (flags l) (Z.lnot WAKE_LOCK_PREVENTING_SUSPEND) else flags l) (expires l)
    (mk_stat (s32 (count s + 1)) (if expired then s32 (expire_count s + 1) else expire_count s) (wakeup_count s)
       (ktime_add (total_time s) duration)
       (if prevent then ktime_add (prevent_suspend_time s) (ktime_sub now sleep_update) else prevent_suspend_time s)
       (if ktime_to_ns (max_time s) <? ktime_to_ns duration then duration else max_time s) last).

Definition wake_unlock_stat_locked (e : env) (id : nat) (expired : bool) (st : wakelocks) : option wakelocks :=
  lock ← locks st !! id;
  if negb (has lock WAKE_LOCK_ACTIVE) then Some st else
  etime ← get_expired_time e lock;
  let '(now, expired, st) :=
    match etime with
    | Some t => (t, true, st)
    | None => let '(t, st) := ktime_get st in (t, expired, st)
    end in
  let '(last, st) := ktime_get st in
  Some (upd_lock id (unlock_stat now last (last_sleep_time_update st) expired) st).

(** One turn of the loop of [update_sleep_wait_stats_locked]. *)
Definition sleep_wait_stat (e : env) (done : bool) (elapsed sleep_update : Z) (l : wake_lock) : option wake_lock :=
  etime ← get_expired_time e l;
  let s := stat l in
  let s' := if has l WAKE_LOCK_PREVENTING_SUSPEND then
              let add := match etime with Some t => ktime_sub t sleep_update | None => elapsed end in
              mk_stat (count s) (expire_count s) (wakeup_count s) (total_time s)
                (ktime_add (prevent_suspend_time s) add) (max_time s) (last_time s)
            else s in
  Some (mk_lock (if done || bool_decide (is_Some etime) then Z.land (flags l) (Z.lnot WAKE_LOCK_PREVENTING_SUSPEND)
                 else Z.lor (flags l) WAKE_LOCK_PREVENTING_SUSPEND) (expires l) s').

Fixpoint sleep_wait_loop (e : env) (done : bool) (elapsed : Z) (l : list nat) (st : wakelocks) : option wakelocks :=
  match l with
  | [] => Some st
  | id :: l' =>
      lock ← locks st !! id;
      lock' ← sleep_wait_stat e done elapsed (last_sleep_time_update st) lock;
      sleep_wait_loop e done elapsed l' (upd_lock id (fun _ => lock') st)
  end.

Definition update_sleep_wait_stats_locked (e : env) (done : bool) (st : wakelocks) : option wakelocks :=
  let '(now, st) := ktime_get st in
  let elapsed := ktime_sub now (last_sleep_time_update st) in
  st ← sleep_wait_loop e done elapsed (active_suspend st) st;
  Some (set_stats now (wait_for_wakeup st) (clock_reads st) st).

(** ** Operations *)

Definition deactivate (f : Z) : Z := Z.land f (Z.lnot (Z.lor WAKE_LOCK_ACTIVE WAKE_LOCK_AUTO_EXPIRE)).

Definition expire_wake_lock (e : env) (id : nat) (st : wakelocks) : option wakelocks :=
  st ← wake_unlock_stat_locked e id true st;
  st ← list_del id (upd_lock id (set_flags deactivate) st);
  Some (add_inactive id st).

(** [list_for_each_entry_safe]: the entry is removed only after its successor is known. *)
Fixpoint has_wake_lock_loop (e : env) (l : list nat) (max_timeout : Z) (st : wakelocks) : option (wakelocks * Z) :=
  match l with
  | [] => Some (st, max_timeout)
  | id :: l' =>
      lock ← locks st !! id;
      if has lock WAKE_LOCK_AUTO_EXPIRE then
        let timeout := s32 (expires lock - jiffies e) in
        if timeout <=? 0 then st ← expire_wake_lock e id st; has_wake_lock_loop e l' max_timeout st
        else has_wake_lock_loop e l' (if max_timeout <? timeout then timeout else max_timeout) st
      else Some (st, -1)
  end.

Definition has_wake_lock_locked (e : env) (type : Z) (st : wakelocks) : option (wakelocks * Z) :=
  if WAKE_LOCK_TYPE_COUNT <=? type then None
  else has_wake_lock_loop e (active_wake_locks st type) 0 st.

Definition has_wake_lock (e : env) (type : Z) (st : wakelocks) : option (wakelocks * Z) :=
  has_wake_lock_locked e type st.

(** The tail that [wake_lock_internal] and [wake_unlock] share: restart or stop the
    timer, and queue the work when nothing is left. *)
Definition rearm (e : env) (expire_in : Z) (st : wakelocks) : wakelocks :=
  if 0 <? expire_in then set_timer (Some (jiffies e +u expire_in)) st
  else let st := set_timer None st in if expire_in =? 0 then set_work true st else st.

Definition zero_stat : stat_t := mk_stat 0 0 0 (ktime_set 0 0) (ktime_set 0 0) (ktime_set 0 0) (ktime_set 0 0).

(** Initialising a lock that is on a list would corrupt the list. *)
Definition wake_lock_init (id : nat) (type : Z) (st : wakelocks) : option wakelocks :=
  if bool_decide (id ∈ inactive_locks st ++ active_suspend st ++ active_idle st) then None else
  let exp := match locks st !! id with Some l => expires l | None => 0 end in
  Some (add_inactive id (upd_locks
    (insert id (mk_lock (Z.lor (Z.land type WAKE_LOCK_TYPE_MASK) WAKE_LOCK_INITIALIZED) exp zero_stat)) st)).

Definition add_stats (s d : stat_t) : stat_t :=
  mk_stat (s32 (count d + count s)) (s32 (expire_count d + expire_count s)) (wakeup_count d)
    (ktime_add (total_time d) (total_time s)) (ktime_add (prevent_suspend_time d) (prevent_suspend_time s))
    (ktime_add (max_time d) (max_time s)) (last_time d).

Definition wake_lock_destroy (id : nat) (st : wakelocks) : option wakelocks :=
  let st := upd_lock id (set_flags (fun f => Z.land f (Z.lnot WAKE_LOCK_INITIALIZED))) st in
  lock ← locks st !! id;
  let st := if negb (count (stat lock) =? 0) then upd_lock deleted_wake_locks (set_stat (add_stats (stat lock))) st
            else st in
  list_del id st.

Definition wake_lock_active (id : nat) (st : wakelocks) : option bool :=
  lock ← locks st !! id; Some (has lock WAKE_LOCK_ACTIVE).

(** The statistics and the flag at the start of [wake_lock_internal]. *)
Definition lock_stat (e : env) (id : nat) (type : Z) (st : wakelocks) : option wakelocks :=
  let st := if (type =? WAKE_LOCK_SUSPEND) && wait_for_wakeup st then
              upd_lock id (set_stat (fun s => mk_stat (count s) (expire_count s) (s32 (wakeup_count s + 1))
                (total_time s) (prevent_suspend_time s) (max_time s) (last_time s)))
                (set_stats (last_sleep_time_update st) false (clock_reads st) st)
            else st in
  lock ← locks st !! id;
  st ← (if has lock WAKE_LOCK_AUTO_EXPIRE && (s32 (expires lock - jiffies e) <=? 0) then
          st ← wake_unlock_stat_locked e id false st;
          let '(t, st) := ktime_get st in Some (upd_lock id (set_stat (set_last_time t)) st)
        else Some st);
  lock ← locks st !! id;
  if negb (has lock WAKE_LOCK_ACTIVE) then
    let st := upd_lock id (set_flags (fun f => Z.lor f WAKE_LOCK_ACTIVE)) st in
    let '(t, st) := ktime_get st in Some (upd_lock id (set_stat (set_last_time t)) st)
  else Some st.

Definition wake_lock_internal (e : env) (id : nat) (timeout : Z) (has_timeout : bool) (st : wakelocks)
    : option wakelocks :=
  lock ← locks st !! id;
  let type := type_of lock in
  if (WAKE_LOCK_TYPE_COUNT <=? type) || negb (has lock WAKE_LOCK_INITIALIZED) then None else
  st ← lock_stat e id type st;
  st ← list_del id st;
  let st := if has_timeout then
      add_active type true id (upd_lock id (fun l => set_flags (fun f => Z.lor f WAKE_LOCK_AUTO_EXPIRE)
                                                       (set_expires (jiffies e +u timeout) l)) st)
    else
      add_active type false id (upd_lock id (fun l => set_flags (fun f => Z.land f (Z.lnot WAKE_LOCK_AUTO_EXPIRE))
                                                        (set_expires LONG_MAX l)) st) in
  if negb (type =? WAKE_LOCK_SUSPEND) then Some st else
  let is_main := Nat.eqb id main_wake_lock in
  let st := if is_main then set_event (s32 (current_event_num st + 1)) st else st in
  st ← (if is_main then update_sleep_wait_stats_locked e true st
        else main_active ← wake_lock_active main_wake_lock st;
             if negb main_active then update_sleep_wait_stats_locked e false st else Some st);
  '(st, expire_in) ← (if has_timeout then has_wake_lock_locked e type st else Some (st, -1));
  Some (rearm e expire_in st).

Definition wake_lock_ (e : env) (id : nat) (st : wakelocks) : option wakelocks := wake_lock_internal e id 0 false st.
Definition wake_lock_timeout (e : env) (id : nat) (timeout : Z) (st : wakelocks) : option wakelocks :=
  wake_lock_internal e id timeout true st.

Definition wake_unlock (e : env) (id : nat) (st : wakelocks) : option wakelocks :=
  lock ← locks st !! id;
  let type := type_of lock in
  st ← wake_unlock_stat_locked e id false st;
  st ← list_del id (upd_lock id (set_flags deactivate) st);
  let st := add_inactive id st in
  if negb (type =? WAKE_LOCK_SUSPEND) then Some st else
  '(st, has_lock) ← has_wake_lock_locked e type st;
  let st := rearm e has_lock st in
  if Nat.eqb id main_wake_lock then update_sleep_wait_stats_locked e false st else Some st.

(** The timer's function; the timer is no longer pending when it runs. *)
Definition expire_wake_locks (e : env) (st : wakelocks) : option wakelocks :=
  '(st, has_lock) ← has_wake_lock_locked e WAKE_LOCK_SUSPEND st;
  Some (if has_lock =? 0 then set_work true st else st).

Definition power_suspend_late (e : env) (st : wakelocks) : option (wakelocks * Z) :=
  '(st, h) ← has_wake_lock e WAKE_LOCK_SUSPEND st;
  Some (set_stats (last_sleep_time_update st) true (clock_reads st) st, if negb (h =? 0) then - EAGAIN else 0).

(** [suspend] up to [sys_sync]; the second result: no lock stops it. *)
Definition suspend_enter (e : env) (st : wakelocks) : option (wakelocks * bool) :=
  '(st, h) ← has_wake_lock e WAKE_LOCK_SUSPEND st; Some (st, h =? 0).

(** [suspend] after [pm_suspend]. *)
Definition suspend_exit (e : env) (entry_event_num : Z) (st : wakelocks) : option wakelocks :=
  if current_event_num st =? entry_event_num then wake_lock_timeout e unknown_wakeup (HZ / 2) st else Some st.

(** [wakelocks_init], when the registrations succeed. *)
Definition wakelocks_init (e : env) : option wakelocks :=
  let st := mk_wakelocks ∅ [] [] [] 0 None false 0 false 0 in
  st ← wake_lock_init deleted_wake_locks WAKE_LOCK_SUSPEND st;
  st ← wake_lock_init main_wake_lock WAKE_LOCK_SUSPEND st;
  st ← wake_lock_ e main_wake_lock st;
  wake_lock_init unknown_wakeup WAKE_LOCK_SUSPEND st.

End Clock.

(** ** The locks without their statistics *)

Record view := mk_view { v_type : Z; v_init : bool; v_active : bool; v_auto : bool; v_expires : Z }.

Definition view_of (l : wake_lock) : view :=
  mk_view (type_of l) (has l WAKE_LOCK_INITIALIZED) (has l WAKE_LOCK_ACTIVE) (has l WAKE_LOCK_AUTO_EXPIRE) (expires l).

Record core := mk_core {
  c_view : gmap nat view; c_in : list nat; c_su : list nat; c_id : list nat;
  c_event : Z; c_timer : option Z; c_work : bool }.

Definition core_of (st : wakelocks) : core :=
  mk_core (view_of <$> locks st) (inactive_locks st) (active_suspend st) (active_idle st) (current_event_num st)
    (expire_timer st) (suspend_work st).

Definition c_upd (id : nat) (f : view -> view) (c : core) : core :=
  mk_core (alter f id (c_view c)) (c_in c) (c_su c) (c_id c) (c_event c) (c_timer c) (c_work c).
Definition c_lists (fi fs fd : list nat -> list nat) (c : core) : core :=
  mk_core (c_view c) (fi (c_in c)) (fs (c_su c)) (fd (c_id c)) (c_event c) (c_timer c) (c_work c).
Definition c_all (c : core) : list nat := c_in c ++ c_su c ++ c_id c.
Definition c_active (c : core) (type : Z) : list nat := if type =? WAKE_LOCK_SUSPEND then c_su c else c_id c.

Definition c_remove (id : nat) : core -> core := let rm := filter (fun x => x <> id) in c_lists rm rm rm.
Definition c_del (id : nat) (c : core) : option core :=
  if bool_decide (id ∈ c_all c) then Some (c_remove id c) else None.
Definition c_add_in (id : nat) : core -> core := c_lists (cons id) (fun l => l) (fun l => l).
Definition c_add_active (type : Z) (tail : bool) (id : nat) : core -> core :=
  let add l := if tail then l ++ [id] else id :: l in
  if type =? WAKE_LOCK_SUSPEND then c_lists (fun l => l) add (fun l => l) else c_lists (fun l => l) (fun l => l) add.

Definition v_off (v : view) : view := mk_view (v_type v) (v_init v) false false (v_expires v).
Definition v_on (timed : bool) (exp : Z) (v : view) : view := mk_view (v_type v) (v_init v) true timed exp.

Definition c_expire (id : nat) (c : core) : option core :=
  c ← c_del id (c_upd id v_off c); Some (c_add_in id c).

Fixpoint c_has_loop (j : Z) (l : list nat) (max_timeout : Z) (c : core) : option (core * Z) :=
  match l with
  | [] => Some (c, max_timeout)
  | id :: l' =>
      v ← c_view c !! id;
      if v_auto v then
        let timeout := s32 (v_expires v - j) in
        if timeout <=? 0 then c ← c_expire id c; c_has_loop j l' max_timeout c
        else c_has_loop j l' (if max_timeout <? timeout then timeout else max_timeout) c
      else Some (c, -1)
  end.

Definition c_has (j type : Z) (c : core) : option (core * Z) :=
  if WAKE_LOCK_TYPE_COUNT <=? type then None else c_has_loop j (c_active c type) 0 c.

Definition c_set (ev : Z) (timer : option Z) (work : bool) (c : core) : core :=
  mk_core (c_view c) (c_in c) (c_su c) (c_id c) ev timer work.

Definition c_rearm (j expire_in : Z) (c : core) : core :=
  if 0 <? expire_in then c_set (c_event c) (Some (j +u expire_in)) (c_work c) c
  else c_set (c_event c) None (if expire_in =? 0 then true else c_work c) c.

Definition c_lock (j : Z) (id : nat) (timeout : Z) (has_timeout : bool) (c : core) : option core :=
  v ← c_view c !! id;
  let type := v_type v in
  if (WAKE_LOCK_TYPE_COUNT <=? type) || negb (v_init v) then None else
  c ← c_del id c;
  let c := c_add_active type has_timeout id
             (c_upd id (v_on has_timeout (if has_timeout then j +u timeout else LONG_MAX)) c) in
  if negb (type =? WAKE_LOCK_SUSPEND) then Some c else
  let c := if Nat.eqb id main_wake_lock then c_set (s32 (c_event c + 1)) (c_timer c) (c_work c) c else c in
  '(c, expire_in) ← (if has_timeout then c_has j type c else Some (c, -1));
  Some (c_rearm j expire_in c).

Definition c_unlock (j : Z) (id : nat) (c : core) : option core :=
  v ← c_view c !! id;
  c ← c_expire id c;
  if negb (v_type v =? WAKE_LOCK_SUSPEND) then Some c else
  '(c, has_lock) ← c_has j (v_type v) c;
  Some (c_rearm j has_lock c).

(** ** Flags *)

Lemma view_bits l : view_of l =
  mk_view (Z.land (flags l) 15) (Z.testbit (flags l) 8) (Z.testbit (flags l) 9) (Z.testbit (flags l) 10) (expires l).
Proof. unfold view_of, has, type_of, WAKE_LOCK_INITIALIZED, WAKE_LOCK_ACTIVE, WAKE_LOCK_AUTO_EXPIRE. by rewrite !test_flag. Qed.

(** An update of flags that leaves the type's bits alone. *)
Lemma view_flags f e s f' : (forall i, 0 <= i < 4 -> Z.testbit f' i = Z.testbit f i) ->
  view_of (mk_lock f' e s) = mk_view (Z.land f 15) (Z.testbit f' 8) (Z.testbit f' 9) (Z.testbit f' 10) e.
Proof.
  intros H. rewrite view_bits. cbn [flags expires]. f_equal. apply Z.bits_inj'. intros i Hi. rewrite !Z.land_spec.
  change 15 with (2 ^ 4 - 1). rewrite testbit_mask by lia. destruct (Z.ltb_spec i 4); [rewrite H by lia; done|].
  by rewrite !andb_false_r.
Qed.

(** [flag_bits] decides a bit of an update of single flags. *)
Ltac flag_bits :=
  unfold deactivate, WAKE_LOCK_INITIALIZED, WAKE_LOCK_ACTIVE, WAKE_LOCK_AUTO_EXPIRE, WAKE_LOCK_PREVENTING_SUSPEND;
  rewrite ?bit_clear, ?bit_set by lia;
  repeat match goal with |- context [?i =? ?k] => destruct (Z.eqb_spec i k); try lia end; try done.

Lemma view_prevent_off l e s : e = expires l ->
  view_of (mk_lock (Z.land (flags l) (Z.lnot WAKE_LOCK_PREVENTING_SUSPEND)) e s) = view_of l.
Proof. intros ->. rewrite (view_flags (flags l)) by (intros; flag_bits). rewrite view_bits. f_equal; flag_bits. Qed.

Lemma view_prevent_on l e s : e = expires l ->
  view_of (mk_lock (Z.lor (flags l) WAKE_LOCK_PREVENTING_SUSPEND) e s) = view_of l.
Proof. intros ->. rewrite (view_flags (flags l)) by (intros; flag_bits). rewrite view_bits. f_equal; flag_bits. Qed.

Lemma view_stat l s : view_of (mk_lock (flags l) (expires l) s) = view_of l.
Proof. done. Qed.

Lemma view_deactivate l : view_of (set_flags deactivate l) = v_off (view_of l).
Proof.
  assert (H : forall i, 0 <= i -> Z.testbit (deactivate (flags l)) i = if (i =? 9) || (i =? 10) then false else Z.testbit (flags l) i).
  { intros i Hi. unfold deactivate, WAKE_LOCK_ACTIVE, WAKE_LOCK_AUTO_EXPIRE.
    rewrite Z.land_spec, testbit_lnot, Z.lor_spec, !testbit_pow2, (proj2 (Z.leb_le 0 i)) by lia.
    destruct (i =? 9), (i =? 10); cbn; by rewrite ?andb_false_r, ?andb_true_r. }
  unfold set_flags. rewrite (view_flags (flags l)).
  - rewrite !H by lia. by rewrite view_bits.
  - intros i Hi. rewrite H by lia. destruct (Z.eqb_spec i 9), (Z.eqb_spec i 10); (lia || done).
Qed.

Lemma view_activate l : view_of (set_flags (fun f => Z.lor f WAKE_LOCK_ACTIVE) l) = v_on (has l WAKE_LOCK_AUTO_EXPIRE) (expires l) (view_of l).
Proof.
  unfold set_flags. rewrite (view_flags (flags l)) by (intros; flag_bits). unfold has. unfold WAKE_LOCK_AUTO_EXPIRE at 1.
  rewrite test_flag by lia. rewrite view_bits. unfold v_on. cbn [v_type v_init]. f_equal; flag_bits.
Qed.

Lemma view_timed l e : has l WAKE_LOCK_ACTIVE = true ->
  view_of (set_flags (fun f => Z.lor f WAKE_LOCK_AUTO_EXPIRE) (set_expires e l)) = v_on true e (view_of l).
Proof.
  unfold has, WAKE_LOCK_ACTIVE. rewrite test_flag by lia. intros Ha. unfold set_flags. cbn [set_expires flags expires stat].
  rewrite (view_flags (flags l)) by (intros; flag_bits). rewrite view_bits. unfold v_on. cbn [v_type v_init]. f_equal; flag_bits.
Qed.

Lemma view_untimed l e : has l WAKE_LOCK_ACTIVE = true ->
  view_of (set_flags (fun f => Z.land f (Z.lnot WAKE_LOCK_AUTO_EXPIRE)) (set_expires e l)) = v_on false e (view_of l).
Proof.
  unfold has, WAKE_LOCK_ACTIVE. rewrite test_flag by lia. intros Ha. unfold set_flags. cbn [set_expires flags expires stat].
  rewrite (view_flags (flags l)) by (intros; flag_bits). rewrite view_bits. unfold v_on. cbn [v_type v_init]. f_equal; flag_bits.
Qed.

(** ** Statistics do not change the core *)

(** Updating one lock, seen from the core. *)
Lemma core_upd id f g st l : locks st !! id = Some l -> view_of (f l) = g (view_of l) ->
  core_of (upd_lock id f st) = c_upd id g (core_of st).
Proof.
  intros El E. unfold core_of, upd_lock, upd_locks, c_upd. cbn. f_equal. apply map_eq. intros i.
  rewrite lookup_fmap. destruct (decide (i = id)) as [->|].
  - rewrite !lookup_alter_eq, lookup_fmap, El. cbn. by rewrite E.
  - by rewrite !lookup_alter_ne, lookup_fmap.
Qed.

Lemma core_upd_same id f st l : locks st !! id = Some l -> view_of (f l) = view_of l -> core_of (upd_lock id f st) = core_of st.
Proof.
  intros El E. rewrite (core_upd id f (fun v => v) st l) by done. unfold c_upd. destruct (core_of st). cbn. f_equal.
  apply map_eq. intros i. destruct (decide (i = id)) as [->|]; [|by rewrite lookup_alter_ne]. rewrite lookup_alter_eq. match goal with |- _ <$> ?x = ?x => by destruct x end.
Qed.

Lemma core_stats t w n st : core_of (set_stats t w n st) = core_of st.
Proof. done. Qed.

Lemma core_lookup st id : c_view (core_of st) !! id = view_of <$> locks st !! id.
Proof. apply lookup_fmap. Qed.

(** A state with the same core has a lock with the same view. *)
Lemma core_lock st st' id l : core_of st' = core_of st -> locks st !! id = Some l ->
  exists l', locks st' !! id = Some l' /\ view_of l' = view_of l.
Proof.
  intros E El. assert (H : c_view (core_of st') !! id = Some (view_of l)) by (by rewrite E, core_lookup, El).
  rewrite core_lookup in H. destruct (locks st' !! id) as [l'|]; [|done]. cbn in H. exists l'. split; [done|]. congruence.
Qed.

(** Every lock on a list exists, and so does the main lock. *)
Definition present (c : core) : Prop :=
  (forall id, id ∈ c_all c -> is_Some (c_view c !! id)) /\ is_Some (c_view c !! main_wake_lock).

Lemma c_expire_view id c c' : c_expire id c = Some c' -> c_view c' = alter v_off id (c_view c).
Proof. unfold c_expire, c_del. case_bool_decide; [|done]. by intros [= <-]. Qed.

Lemma v_on_id v : v_active v = true -> v_on (v_auto v) (v_expires v) v = v.
Proof. destruct v. cbn. by intros ->. Qed.

Lemma core_lock_view st id v : c_view (core_of st) !! id = Some v -> exists l, locks st !! id = Some l /\ view_of l = v.
Proof. rewrite core_lookup. destruct (locks st !! id) as [l|]; [|done]. intros [= E]. eauto. Qed.

Lemma c_upd_comp id f t x c : (forall v, v_on t x (f v) = v_on t x v) ->
  c_upd id (v_on t x) (c_remove id (c_upd id f c)) = c_upd id (v_on t x) (c_remove id c).
Proof.
  intros E. unfold c_upd, c_remove, c_lists. cbn. f_equal. apply map_eq. intros i.
  destruct (decide (i = id)) as [->|]; [rewrite !lookup_alter_eq|by rewrite !lookup_alter_ne].
  destruct (c_view c !! id); [cbn [fmap option_fmap option_map]; by rewrite E|done].
Qed.

Lemma c_all_remove id c i : i ∈ c_all (c_remove id c) <-> i ∈ c_all c /\ i <> id.
Proof. unfold c_all, c_remove, c_lists. cbn. rewrite !elem_of_app, !list_elem_of_filter. tauto. Qed.

Lemma c_all_add_in id c i : i ∈ c_all (c_add_in id c) <-> i = id \/ i ∈ c_all c.
Proof. unfold c_all, c_add_in, c_lists. cbn. rewrite elem_of_cons. tauto. Qed.

Lemma c_all_add_active type b id c i : i ∈ c_all (c_add_active type b id c) <-> i = id \/ i ∈ c_all c.
Proof.
  unfold c_all, c_add_active, c_lists. destruct (_ =? _), b; cbn;
    repeat first [rewrite elem_of_app | rewrite elem_of_cons | rewrite elem_of_nil]; tauto.
Qed.

Lemma present_lock id t x type b c : present c -> id ∈ c_all c ->
  present (c_add_active type b id (c_upd id (v_on t x) (c_remove id c))).
Proof.
  intros [Hp Hm] Hid.
  assert (Ev : c_view (c_add_active type b id (c_upd id (v_on t x) (c_remove id c))) = alter (v_on t x) id (c_view c))
    by (unfold c_add_active; by destruct (_ =? _)).
  unfold present. rewrite Ev. split; [|by rewrite lookup_alter_is_Some].
  intros i. rewrite c_all_add_active. change (c_all (c_upd id (v_on t x) (c_remove id c))) with (c_all (c_remove id c)).
  rewrite c_all_remove, lookup_alter_is_Some. intros [->|[Hi _]]; by apply Hp.
Qed.

Lemma present_expire id c c' : present c -> c_expire id c = Some c' -> present c'.
Proof.
  intros [Hp Hm] E. pose proof (c_expire_view _ _ _ E) as Ev. unfold c_expire, c_del in E. case_bool_decide as Hid; [|done].
  injection E as <-. unfold present. rewrite Ev, lookup_alter_is_Some. split; [|done].
  intros i. rewrite c_all_add_in, c_all_remove, lookup_alter_is_Some. intros [->|[Hi _]]; by apply Hp.
Qed.

Lemma has_present e type c c' r : present c -> c_has e type c = Some (c', r) -> present c'.
Proof.
  unfold c_has. intros Hp. destruct (_ <=? _); [done|]. generalize (c_active c type) 0. intros l. revert c Hp.
  induction l as [|id l IH]; intros c Hp mx; cbn [c_has_loop]; [by intros [= <- _]|].
  destruct (c_view c !! id) as [v|]; [|done]. cbn [mbind option_bind]. destruct (v_auto v); [|by intros [= <- _]].
  destruct (_ <=? 0); [|by apply IH]. destruct (c_expire id c) as [c1|] eqn:E; [|done]. cbn [mbind option_bind].
  apply IH. by apply (present_expire id c).
Qed.

Definition cz (p : wakelocks * Z) : core * Z := (core_of (fst p), snd p).

Section Refine.
Context (clock : nat -> Z).

Lemma get_expired_some e l : exists r, get_expired_time e l = Some r.
Proof.
  unfold get_expired_time. destruct (negb _); [eauto|]. cbv zeta. destruct (0 <? _); [eauto|].
  rewrite set_normalized_ok by apply s32_range. cbn [mbind option_bind]. eauto.
Qed.

Lemma unlock_stat_view now last su b l : view_of (unlock_stat now last su b l) = view_of l.
Proof. unfold unlock_stat. cbv zeta. destruct (has l WAKE_LOCK_PREVENTING_SUSPEND); [by apply view_prevent_off|done]. Qed.

Lemma unlock_stat_core e id b st l : locks st !! id = Some l ->
  exists st', wake_unlock_stat_locked clock e id b st = Some st' /\ core_of st' = core_of st.
Proof.
  intros El. unfold wake_unlock_stat_locked. rewrite El. cbn [mbind option_bind]. destruct (negb _); [eauto|].
  destruct (get_expired_some e l) as [[t|] ->]; cbn [mbind option_bind ktime_get]; eexists; (split; [reflexivity|]);
    (rewrite (core_upd_same id _ _ l); [done|exact El|apply unlock_stat_view]).
Qed.

Lemma sleep_wait_core e d el : forall l st, (forall id, id ∈ l -> is_Some (locks st !! id)) ->
  exists st', sleep_wait_loop e d el l st = Some st' /\ core_of st' = core_of st.
Proof.
  induction l as [|id l IH]; intros st Hl; cbn [sleep_wait_loop]; [eauto|].
  destruct (Hl id ltac:(left)) as [lk El]. rewrite El. cbn [mbind option_bind]. unfold sleep_wait_stat.
  destruct (get_expired_some e lk) as [r ->]. cbn [mbind option_bind]. cbv zeta.
  set (lk' := mk_lock _ _ _). assert (Ev : view_of lk' = view_of lk)
    by (unfold lk'; destruct (d || _); [by apply view_prevent_off|by apply view_prevent_on]).
  pose proof (core_upd_same id (fun _ => lk') st lk El Ev) as Ec.
  destruct (IH (upd_lock id (fun _ => lk') st)) as (st' & -> & E').
  { intros i Hi. destruct (Hl i ltac:(by right)) as [li Eli]. destruct (core_lock _ _ _ _ Ec Eli) as (l' & -> & _). eauto. }
  exists st'. split; [done|]. congruence.
Qed.

Lemma update_sleep_core e d st : (forall id, id ∈ active_suspend st -> is_Some (locks st !! id)) ->
  exists st', update_sleep_wait_stats_locked clock e d st = Some st' /\ core_of st' = core_of st.
Proof.
  intros Hl. unfold update_sleep_wait_stats_locked. cbn [ktime_get]. cbv zeta.
  set (st1 := set_stats _ _ (S (clock_reads st)) st).
  destruct (sleep_wait_core e d (ktime_sub (clock (clock_reads st)) (last_sleep_time_update st1)) (active_suspend st1) st1 Hl) as (st' & -> & E').
  cbn [mbind option_bind]. eexists. split; [reflexivity|]. by rewrite core_stats, E'.
Qed.

(** ** The operations refine those on the core *)

Lemma list_del_core id st : core_of <$> list_del id st = c_del id (core_of st).
Proof. unfold list_del, c_del, c_all. cbn [core_of c_in c_su c_id]. by case_bool_decide. Qed.

Lemma expire_core e id st : is_Some (locks st !! id) ->
  core_of <$> expire_wake_lock clock e id st = c_expire id (core_of st).
Proof.
  intros [l El]. unfold expire_wake_lock, c_expire. destruct (unlock_stat_core e id true st l El) as (st1 & -> & E1).
  cbn [mbind option_bind]. destruct (core_lock _ _ _ _ E1 El) as (l1 & El1 & _).
  rewrite <- E1, <- (core_upd id (set_flags deactivate) v_off st1 l1 El1 (view_deactivate l1)), <- list_del_core.
  by destruct (list_del _ _).
Qed.

Lemma has_loop_core e : forall l mx st, (forall id, id ∈ l -> is_Some (c_view (core_of st) !! id)) ->
  cz <$> has_wake_lock_loop clock e l mx st = c_has_loop (jiffies e) l mx (core_of st).
Proof.
  induction l as [|id l IH]; intros mx st Hl; cbn [has_wake_lock_loop c_has_loop]; [done|].
  rewrite core_lookup. destruct (Hl id ltac:(left)) as [v Ev]. rewrite core_lookup in Ev. destruct (locks st !! id) as [lk|] eqn:El; [|done].
  cbn [fmap option_fmap option_map mbind option_bind view_of v_auto v_expires]. destruct (has lk WAKE_LOCK_AUTO_EXPIRE); [|done].
  destruct (_ <=? 0).
  - pose proof (expire_core e id st) as He. destruct (expire_wake_lock clock e id st) as [st'|].
    + cbn [fmap option_fmap option_map] in He. rewrite <- He by eauto. cbn [mbind option_bind]. apply IH.
      specialize (He ltac:(eauto)). symmetry in He. apply c_expire_view in He. rewrite He. intros i Hi.
      rewrite lookup_alter_is_Some. apply Hl. by right.
    + cbn [fmap option_fmap option_map] in He. rewrite <- He by eauto. done.
  - apply IH. intros i Hi. apply Hl. by right.
Qed.

Lemma has_core e type st : present (core_of st) ->
  cz <$> has_wake_lock_locked clock e type st = c_has (jiffies e) type (core_of st).
Proof.
  intros [Hp _]. unfold has_wake_lock_locked, c_has. destruct (_ <=? _); [done|]. apply has_loop_core.
  intros id Hid. apply Hp. unfold c_all. rewrite !elem_of_app.
  unfold c_active in Hid. destruct (type =? WAKE_LOCK_SUSPEND); [by right; left|by right; right].
Qed.

Lemma rearm_core e x st : core_of (rearm e x st) = c_rearm (jiffies e) x (core_of st).
Proof. unfold rearm, c_rearm. destruct (0 <? x); [done|]. by destruct (x =? 0). Qed.

Lemma lock_stat_core e id type st l : locks st !! id = Some l ->
  exists st' l', lock_stat clock e id type st = Some st' /\ locks st' !! id = Some l' /\ has l' WAKE_LOCK_ACTIVE = true /\
    core_of st' = c_upd id (fun v => v_on (v_auto v) (v_expires v) v) (core_of st).
Proof.
  intros El. unfold lock_stat. cbv zeta.
  set (st0 := if (type =? WAKE_LOCK_SUSPEND) && wait_for_wakeup st then _ else st).
  assert (E0 : core_of st0 = core_of st) by (unfold st0; destruct (_ && _); [rewrite (core_upd_same id _ _ l); done|done]).
  clearbody st0. destruct (core_lock _ _ _ _ E0 El) as (l0 & El0 & Ev0). rewrite El0. cbn [mbind option_bind].
  assert (exists st1, (if has l0 WAKE_LOCK_AUTO_EXPIRE && (s32 (expires l0 - jiffies e) <=? 0)
      then st ← wake_unlock_stat_locked clock e id false st0;
           let '(t, st2) := ktime_get clock st in Some (upd_lock id (set_stat (set_last_time t)) st2)
      else Some st0) = Some st1 /\ core_of st1 = core_of st) as (st1 & -> & E1).
  { destruct (_ && _); [|eauto]. destruct (unlock_stat_core e id false st0 l0 El0) as (s & -> & Es). cbn [mbind option_bind ktime_get].
    eexists. split; [reflexivity|]. destruct (core_lock _ _ _ _ Es El0) as (l1 & El1 & _).
    rewrite (core_upd_same id _ _ l1) by done. rewrite core_stats. congruence. }
  cbn [mbind option_bind]. destruct (core_lock _ _ _ _ E1 El) as (l1 & El1 & Ev1). rewrite El1. cbn [mbind option_bind].
  destruct (has l1 WAKE_LOCK_ACTIVE) eqn:Ea; cbn [negb].
  - exists st1, l1. split_and!; try done. rewrite <- E1. unfold c_upd. destruct (core_of st1) as [m] eqn:Ec. cbn. f_equal.
    apply map_eq. intros i. destruct (decide (i = id)) as [->|]; [|by rewrite lookup_alter_ne]. rewrite lookup_alter_eq.
    assert (Em : m !! id = Some (view_of l1)) by (change m with (c_view (mk_core m c_in0 c_su0 c_id0 c_event0 c_timer0 c_work0)); by rewrite <- Ec, core_lookup, El1).
    rewrite Em. cbn [fmap option_fmap option_map]. by rewrite v_on_id.
  - cbn [ktime_get].
    set (f := set_flags (fun f => Z.lor f WAKE_LOCK_ACTIVE)). set (s2 := upd_lock id f st1).
    assert (Es2 : locks s2 !! id = Some (f l1)) by (unfold s2; cbn; by rewrite lookup_alter_eq, El1).
    eexists _, _. split; [reflexivity|]. split; [cbn; rewrite lookup_alter_eq; cbn in Es2; rewrite Es2; reflexivity|].
    split.
    + change (v_active (view_of (f l1)) = true). unfold f. by rewrite view_activate.
    + rewrite (core_upd_same id _ _ (f l1)) by done. rewrite core_stats. unfold s2.
      rewrite (core_upd id f (fun v => v_on (v_auto v) (v_expires v) v) st1 l1 El1); [by rewrite E1|]. apply view_activate.
Qed.

Lemma lock_core e id t b st : present (core_of st) ->
  core_of <$> wake_lock_internal clock e id t b st = c_lock (jiffies e) id t b (core_of st).
Proof.
  intros Hp. unfold wake_lock_internal, c_lock. rewrite core_lookup. destruct (locks st !! id) as [l|] eqn:El; [|done].
  cbn [fmap option_fmap option_map mbind option_bind view_of v_type v_init]. cbv zeta. destruct (_ || _); [done|].
  destruct (lock_stat_core e id (type_of l) st l El) as (s1 & l1 & -> & El1 & Ha & E1). cbn [mbind option_bind].
  pose proof (list_del_core id s1) as Hd. rewrite E1 in Hd. unfold c_del in *. change (c_all (c_upd _ _ _)) with (c_all (core_of st)) in Hd.
  case_bool_decide as Hid; [|destruct (list_del id s1); done]. destruct (list_del id s1) as [s2|] eqn:Es2; [|done].
  apply (inj Some) in Hd. cbn [mbind option_bind].
  assert (exists l2, locks s2 !! id = Some l2 /\ has l2 WAKE_LOCK_ACTIVE = true) as (l2 & El2 & Ha2).
  { unfold list_del in Es2. case_bool_decide; [|done]. injection Es2 as <-. eauto. }
  set (x := if b then jiffies e +u t else LONG_MAX).
  set (s3 := if b then _ else _). set (c3 := c_add_active (type_of l) b id (c_upd id (v_on b x) (c_remove id (core_of st)))).
  assert (E3 : core_of s3 = c3).
  { unfold c3. rewrite <- (c_upd_comp id (fun v => v_on (v_auto v) (v_expires v) v)) by done. rewrite <- Hd. unfold s3, x. destruct b.
    - rewrite <- (core_upd id (fun l => set_flags (fun f => Z.lor f WAKE_LOCK_AUTO_EXPIRE) (set_expires (jiffies e +u t) l))
        (v_on true (jiffies e +u t)) s2 l2 El2 (view_timed l2 _ Ha2)). unfold add_active, c_add_active. by destruct (_ =? _).
    - rewrite <- (core_upd id (fun l => set_flags (fun f => Z.land f (Z.lnot WAKE_LOCK_AUTO_EXPIRE)) (set_expires LONG_MAX l))
        (v_on false LONG_MAX) s2 l2 El2 (view_untimed l2 _ Ha2)). unfold add_active, c_add_active. by destruct (_ =? _). }
  assert (P3 : present c3) by by apply present_lock. clearbody s3 c3.
  destruct (negb (type_of l =? WAKE_LOCK_SUSPEND)); [cbn; by rewrite E3|].
  set (s4 := if (id =? main_wake_lock)%nat then _ else s3). set (c4 := if (id =? main_wake_lock)%nat then _ else c3).
  assert (E4 : core_of s4 = c4) by (unfold s4, c4; destruct (_ =? _)%nat; by rewrite <- E3).
  assert (P4 : present c4) by (unfold c4; by destruct (_ =? _)%nat). clearbody s4 c4.
  assert (exists s5, (if (id =? main_wake_lock)%nat then update_sleep_wait_stats_locked clock e true s4
      else main_active ← wake_lock_active main_wake_lock s4;
           if negb main_active then update_sleep_wait_stats_locked clock e false s4 else Some s4) = Some s5 /\ core_of s5 = c4)
    as (s5 & -> & E5).
  { subst c4. assert (Hs : forall i, i ∈ active_suspend s4 -> is_Some (locks s4 !! i)).
    { intros i Hi. destruct P4 as [P4 _]. rewrite <- (fmap_is_Some view_of), <- core_lookup. apply P4.
      unfold c_all. rewrite !elem_of_app. by right; left. }
    destruct (_ =? _)%nat; [by apply update_sleep_core|]. unfold wake_lock_active.
    destruct P4 as [_ [v Hv]]. apply core_lock_view in Hv as (lm & -> & _). cbn [mbind option_bind].
    destruct (negb _); [by apply update_sleep_core|eauto]. }
  cbn [mbind option_bind]. destruct b; cbn [mbind option_bind].
  - rewrite <- E5. rewrite <- has_core by by rewrite E5. destruct (has_wake_lock_locked _ _ _ _) as [[s6 r]|]; [|done].
    cbn [fmap option_fmap option_map cz fst snd mbind option_bind]. by rewrite rearm_core.
  - cbn [fmap option_fmap option_map]. by rewrite rearm_core, E5.
Qed.

Lemma unlock_core e id st : present (core_of st) -> core_of <$> wake_unlock clock e id st = c_unlock (jiffies e) id (core_of st).
Proof.
  intros Hp. unfold wake_unlock, c_unlock. rewrite core_lookup. destruct (locks st !! id) as [l|] eqn:El; [|done].
  cbn [fmap option_fmap option_map mbind option_bind view_of v_type]. cbv zeta.
  destruct (unlock_stat_core e id false st l El) as (s1 & -> & E1). cbn [mbind option_bind].
  destruct (core_lock _ _ _ _ E1 El) as (l1 & El1 & _).
  pose proof (list_del_core id (upd_lock id (set_flags deactivate) s1)) as Hd.
  rewrite (core_upd id (set_flags deactivate) v_off s1 l1 El1 (view_deactivate l1)), E1 in Hd.
  pose proof (present_expire id (core_of st)) as P2.
  destruct (c_expire id (core_of st)) as [c2|] eqn:Ex; unfold c_expire in Ex; rewrite <- Hd in Ex;
    (destruct (list_del id _) as [s2|]; [|done]); [|done]. apply (inj Some) in Ex. cbn [mbind option_bind].
  change (c_add_in id (core_of s2)) with (core_of (add_inactive id s2)) in Ex. set (s3 := add_inactive id s2) in *. clearbody s3.
  specialize (P2 c2 Hp eq_refl).
  destruct (negb _); [cbn; by rewrite Ex|]. rewrite <- Ex in *. clear Hd Ex. pose proof (has_core e (type_of l) s3 P2) as Hh.
  destruct (has_wake_lock_locked clock e (type_of l) s3) as [[s4 r]|]; cbn [fmap option_fmap option_map cz fst snd] in Hh; rewrite <- Hh; [|done].
  cbn [mbind option_bind]. unfold cz in *. cbn [fst snd] in *. rewrite <- rearm_core. symmetry in Hh. pose proof (has_present _ _ _ _ _ P2 Hh) as P4.
  destruct (_ =? _)%nat; [|done]. destruct (update_sleep_core e false (rearm e r s4)) as (s5 & -> & E5); [|cbn; by rewrite E5].
  intros i Hi. destruct P4 as [P4 _]. rewrite <- (fmap_is_Some view_of), <- core_lookup, rearm_core. unfold c_rearm, c_set.
  assert (Hi' : i ∈ active_suspend s4) by (unfold rearm, set_timer, set_work in Hi; repeat case_match; done).
  destruct (0 <? r); apply P4; unfold c_all; rewrite !elem_of_app; by right; left.
Qed.

End Refine.

(** ** The invariant of the lists *)

Definition timed (c : core) (id : nat) : bool := match c_view c !! id with Some v => v_auto v | None => false end.
(** The jiffies left, as the code computes them. *)
Definition left_ (j : Z) (c : core) (id : nat) : Z :=
  match c_view c !! id with Some v => s32 (v_expires v - j) | None => 0 end.

(** Locks without a time-out come first. *)
Definition untimed_first (c : core) (l : list nat) : Prop :=
  exists a b, l = a ++ b /\ Forall (fun i => timed c i = false) a /\ Forall (fun i => timed c i = true) b.

Definition lists (c : core) (l : list nat) (P : view -> Prop) : Prop :=
  forall id, id ∈ l -> exists v, c_view c !! id = Some v /\ v_init v = true /\ P v.

Definition v_idle (v : view) : Prop := v_active v = false /\ v_auto v = false /\ 0 <= v_type v < WAKE_LOCK_TYPE_COUNT.
Definition v_held (type : Z) (v : view) : Prop := v_active v = true /\ v_type v = type.

Record wf (c : core) : Prop := {
  wf_nodup : NoDup (c_all c);
  wf_in : lists c (c_in c) v_idle;
  wf_su : lists c (c_su c) (v_held WAKE_LOCK_SUSPEND);
  wf_id : lists c (c_id c) (v_held WAKE_LOCK_IDLE);
  wf_order_su : untimed_first c (c_su c);
  wf_order_id : untimed_first c (c_id c);
  wf_fixed : forall id, (id <= deleted_wake_locks)%nat ->
    id ∈ c_all c /\ exists v, c_view c !! id = Some v /\ v_type v = WAKE_LOCK_SUSPEND }.

Lemma filter_ne_notin (id : nat) (l : list nat) : id ∉ l -> filter (fun x => x <> id) l = l.
Proof.
  induction l as [|x l IH]; intros H; [done|]. rewrite filter_cons_True by (intros ->; apply H; by left).
  f_equal. apply IH. intros Hi. apply H. by right.
Qed.

Lemma untimed_first_weaken c c' l (P : nat -> Prop) `{!forall x, Decision (P x)} : untimed_first c l ->
  (forall i, i ∈ filter P l -> timed c' i = timed c i) -> untimed_first c' (filter P l).
Proof.
  intros (a & b & -> & Ha & Hb) Ht. rewrite filter_app in *. exists (filter P a), (filter P b). split; [done|].
  rewrite Forall_forall in Ha, Hb. split; rewrite Forall_forall; intros i Hi; (rewrite Ht by (rewrite elem_of_app; tauto));
    apply list_elem_of_filter in Hi as [_ Hi]; auto.
Qed.

Section Move.
Context (c : core) (id : nat) (f : view -> view) (Hwf : wf c) (Hid : id ∈ c_all c).

Let m : core := c_upd id f (c_remove id c).

Lemma move_all : c_all m = filter (fun x => x <> id) (c_all c).
Proof. unfold m, c_all, c_remove, c_lists. cbn. by rewrite !filter_app. Qed.

Lemma move_other i : i <> id -> c_view m !! i = c_view c !! i.
Proof. intros. unfold m. cbn. by rewrite lookup_alter_ne. Qed.

Lemma move_self v : c_view c !! id = Some v -> c_view m !! id = Some (f v).
Proof. intros E. unfold m. cbn. by rewrite lookup_alter_eq, E. Qed.

Lemma move_lists l P : lists c l P -> lists m (filter (fun x => x <> id) l) P.
Proof. intros H i [Hne Hi]%list_elem_of_filter. rewrite move_other by done. by apply H. Qed.

Lemma move_order l : untimed_first c l -> untimed_first m (filter (fun x => x <> id) l).
Proof. intros H. apply (untimed_first_weaken c); [done|]. intros i [Hne _]%list_elem_of_filter. unfold timed. by rewrite move_other. Qed.

Lemma move_nodup : (id ∉ c_all m) /\ NoDup (c_all m).
Proof. rewrite move_all. split; [rewrite list_elem_of_filter; tauto|]. apply NoDup_filter, Hwf. Qed.

Lemma move_view : exists v, c_view c !! id = Some v /\ v_init v = true /\ 0 <= v_type v < WAKE_LOCK_TYPE_COUNT.
Proof.
  unfold c_all in Hid. rewrite !elem_of_app in Hid. unfold WAKE_LOCK_TYPE_COUNT. destruct Hid as [H|[H|H]].
  - destruct (wf_in c Hwf id H) as (v & ? & ? & _ & _ & ?). eauto.
  - destruct (wf_su c Hwf id H) as (v & ? & ? & _ & E). exists v. rewrite E. done.
  - destruct (wf_id c Hwf id H) as (v & ? & ? & _ & E). exists v. rewrite E. done.
Qed.

Lemma move_fixed i : (i <= deleted_wake_locks)%nat -> (forall v, v_type (f v) = v_type v) ->
  (i = id \/ i ∈ c_all m) /\ exists v, c_view m !! i = Some v /\ v_type v = WAKE_LOCK_SUSPEND.
Proof.
  intros Hi Hf. destruct (wf_fixed c Hwf i Hi) as (Ha & v & Ev & Et). rewrite move_all, list_elem_of_filter.
  destruct (decide (i = id)) as [->|Hne]; [|rewrite move_other by done; split; [by right|eauto]]. split; [by left|].
  rewrite (move_self v) by done. exists (f v). split; [done|]. by rewrite Hf.
Qed.

Lemma wf_move_in : (forall v, f v = v_off v) -> wf (c_add_in id m).
Proof.
  intros Hf. destruct move_nodup as [Hni Hnd]. destruct move_view as (v & Ev & Hi & Ht). constructor.
  - change (c_all (c_add_in id m)) with (id :: c_all m). by constructor.
  - intros i. cbn [c_add_in c_lists c_in]. rewrite elem_of_cons. intros [->|H]; [|by apply (move_lists _ _ (wf_in c Hwf))].
    exists (f v). split; [apply (move_self v Ev)|]. by rewrite Hf.
  - apply (move_lists _ _ (wf_su c Hwf)).
  - apply (move_lists _ _ (wf_id c Hwf)).
  - apply (move_order _ (wf_order_su c Hwf)).
  - apply (move_order _ (wf_order_id c Hwf)).
  - intros i Hle. rewrite c_all_add_in. apply move_fixed; [done|]. intros w. by rewrite Hf.
Qed.

Lemma order_add b x l : (forall v, f v = v_on b x v) -> untimed_first m l -> untimed_first m (if b then l ++ [id] else id :: l).
Proof.
  intros Hf (a & a' & -> & Ha & Hb). destruct move_view as (v & Ev & _).
  assert (Et : timed m id = b) by (unfold timed; rewrite (move_self v Ev), Hf; done). destruct b.
  - exists a, (a' ++ [id]). rewrite <- app_assoc. split_and!; try done. apply Forall_app. split; [done|]. by constructor.
  - exists (id :: a), a'. split_and!; try done. by constructor.
Qed.

Lemma elem_add b (l : list nat) i : i ∈ (if b : bool then l ++ [id] else id :: l) <-> i = id \/ i ∈ l.
Proof. destruct b; [rewrite elem_of_app, elem_of_cons, elem_of_nil|rewrite elem_of_cons]; tauto. Qed.

Lemma wf_move_active b x type : (forall v, f v = v_on b x v) -> (forall v, c_view c !! id = Some v -> v_type v = type) ->
  wf (c_add_active type b id m).
Proof.
  intros Hf Hty. destruct move_nodup as [Hni Hnd]. destruct move_view as (v & Ev & Hi & Ht). specialize (Hty v Ev).
  assert (Hp : c_all (c_add_active type b id m) ≡ₚ id :: c_all m).
  { unfold c_all, c_add_active, c_lists. destruct (_ =? _), b; cbn; solve_Permutation. }
  assert (Hmv : c_view (c_add_active type b id m) = c_view m) by (unfold c_add_active; by destruct (_ =? _)).
  assert (Hfix : forall i, (i <= deleted_wake_locks)%nat -> i ∈ c_all (c_add_active type b id m) /\
    exists w, c_view (c_add_active type b id m) !! i = Some w /\ v_type w = WAKE_LOCK_SUSPEND).
  { intros i Hle. rewrite c_all_add_active, Hmv. apply move_fixed; [done|]. intros w. by rewrite Hf. }
  assert (Hnew : c_view m !! id = Some (v_on b x v)) by (by rewrite (move_self v Ev), Hf).
  pose proof (move_lists _ _ (wf_in c Hwf)) as Hin. pose proof (move_lists _ _ (wf_su c Hwf)) as Hsu.
  pose proof (move_lists _ _ (wf_id c Hwf)) as Hidl. pose proof (move_order _ (wf_order_su c Hwf)) as Hos.
  pose proof (move_order _ (wf_order_id c Hwf)) as Hoi.
  assert (Hnd' : NoDup (c_all (c_add_active type b id m))) by (rewrite Hp; by constructor).
  assert (Hadd : forall l ty, ty = type -> lists m l (v_held ty) -> lists m (if b then l ++ [id] else id :: l) (v_held ty)).
  { intros l ty -> Hl i [->|H]%elem_add; [|by apply Hl]. exists (v_on b x v). done. }
  unfold c_add_active in *. unfold WAKE_LOCK_TYPE_COUNT, WAKE_LOCK_SUSPEND, WAKE_LOCK_IDLE in *.
  destruct (Z.eqb_spec type 0); constructor; try done; try (by apply (order_add b x)).
  - apply (Hadd _ WAKE_LOCK_SUSPEND); [unfold WAKE_LOCK_SUSPEND; lia|exact Hsu].
  - apply (Hadd _ WAKE_LOCK_IDLE); [unfold WAKE_LOCK_IDLE; lia|exact Hidl].
Qed.

End Move.

Lemma wf_present c : wf c -> present c.
Proof.
  intros Hwf. split; [|destruct (wf_fixed c Hwf main_wake_lock) as (_ & v & Ev & _); [unfold main_wake_lock, deleted_wake_locks; lia|eauto]].
  intros id Hid. destruct (move_view c id Hwf Hid) as (v & Ev & _). eauto.
Qed.

Lemma expire_move id c : id ∈ c_all c -> c_expire id c = Some (c_add_in id (c_upd id v_off (c_remove id c))).
Proof. intros Hid. unfold c_expire, c_del. change (c_all (c_upd id v_off c)) with (c_all c). by rewrite bool_decide_eq_true_2. Qed.

Lemma wf_expire id c c' : wf c -> c_expire id c = Some c' -> wf c'.
Proof.
  intros Hwf E. destruct (decide (id ∈ c_all c)) as [Hid|Hid].
  - rewrite expire_move in E by done. injection E as <-. by apply wf_move_in.
  - unfold c_expire, c_del in E. change (c_all (c_upd id v_off c)) with (c_all c) in E. by rewrite bool_decide_eq_false_2 in E.
Qed.

(** ** What [has_wake_lock] returns and does *)

(** The longest time left, at least 0. *)
Definition longest (j : Z) (c : core) (l : list nat) : Z := foldr (fun i m => Z.max (left_ j c i) m) 0 l.

(** What an operation on the locks of one type leaves alone. *)
Definition framed (type : Z) (c c' : core) : Prop :=
  c_event c' = c_event c /\ c_timer c' = c_timer c /\ c_work c' = c_work c /\
  c_active c' (1 - type) = c_active c (1 - type).

Lemma framed_trans type c1 c2 c3 : framed type c1 c2 -> framed type c2 c3 -> framed type c1 c3.
Proof. unfold framed. intuition congruence. Qed.

Lemma type_cases type : 0 <= type < WAKE_LOCK_TYPE_COUNT -> type = WAKE_LOCK_SUSPEND \/ type = WAKE_LOCK_IDLE.
Proof. unfold WAKE_LOCK_TYPE_COUNT, WAKE_LOCK_SUSPEND, WAKE_LOCK_IDLE. lia. Qed.

Lemma active_in_all c type i : i ∈ c_active c type -> i ∈ c_all c.
Proof. unfold c_active, c_all. rewrite !elem_of_app. destruct (_ =? _); tauto. Qed.

Lemma nodup_active c type : wf c -> 0 <= type < WAKE_LOCK_TYPE_COUNT -> NoDup (c_active c type) /\
  forall i, i ∈ c_active c type -> i ∉ c_active c (1 - type).
Proof.
  intros Hwf Ht. pose proof (wf_nodup c Hwf) as H. unfold c_all in H. rewrite !NoDup_app in H. destruct H as (_ & _ & Hs & Hd & Hi).
  unfold c_active. destruct (type_cases type Ht) as [-> | ->]; cbn; (split; [done|]); intros i H1 H2; by apply (Hd i).
Qed.

Lemma filter_drop (id : nat) (pre l : list nat) : NoDup (pre ++ id :: l) -> filter (fun x => x <> id) (pre ++ id :: l) = pre ++ l.
Proof.
  rewrite NoDup_app, NoDup_cons. intros (_ & Hd & Hn & _). rewrite filter_app, filter_cons_False by tauto.
  rewrite !filter_ne_notin; [done|done|]. intros Hi. apply (Hd id Hi). by left.
Qed.

Lemma expire_active j id c c' type pre l : wf c -> 0 <= type < WAKE_LOCK_TYPE_COUNT -> c_active c type = pre ++ id :: l ->
  c_expire id c = Some c' -> c_active c' type = pre ++ l /\ framed type c c' /\
    (forall i, i ∈ pre ++ l -> timed c' i = timed c i /\ left_ j c' i = left_ j c i).
Proof.
  intros Hwf Ht Ea E. destruct (nodup_active c type Hwf Ht) as [Hn Hd]. assert (Hin : id ∈ c_active c type) by (rewrite Ea, elem_of_app, elem_of_cons; tauto).
  rewrite expire_move in E by by apply (active_in_all c type). injection E as <-.
  assert (Hf : forall t, c_active (c_add_in id (c_upd id v_off (c_remove id c))) t = filter (fun x => x <> id) (c_active c t))
    by (intros t; unfold c_active; by destruct (_ =? _)).
  split_and!.
  - rewrite Hf, Ea. apply filter_drop. by rewrite <- Ea.
  - unfold framed. split_and!; try done. rewrite Hf. apply filter_ne_notin. by apply Hd.
  - intros i Hi. assert (i <> id). { intros ->. rewrite Ea, NoDup_app, NoDup_cons in Hn. rewrite elem_of_app in Hi.
      destruct Hn as (_ & Hp & Hl & _), Hi as [Hi|Hi]; [|done]. apply (Hp id Hi). by left. }
    unfold timed, left_. cbn. by rewrite lookup_alter_ne.
Qed.

Lemma filter_left_ext j c c' l : (forall i, i ∈ l -> left_ j c' i = left_ j c i) ->
  filter (fun i => 0 < left_ j c' i) l = filter (fun i => 0 < left_ j c i) l /\ longest j c' l = longest j c l.
Proof.
  induction l as [|x l IH]; intros H; [done|]. destruct IH as [IH1 IH2]; [intros i Hi; apply H; by right|].
  pose proof (H x ltac:(left)) as Hx. rewrite !filter_cons. cbn [longest foldr]. fold (longest j c' l) (longest j c l). rewrite Hx, IH2. split; [|done].
  destruct (decide (0 < left_ j c x)); by rewrite IH1.
Qed.

Lemma has_loop_ok j type : 0 <= type < WAKE_LOCK_TYPE_COUNT -> forall l pre mx c, wf c -> c_active c type = pre ++ l ->
  Forall (fun i => timed c i = true) l -> 0 <= mx ->
  exists c', c_has_loop j l mx c = Some (c', Z.max mx (longest j c l)) /\ wf c' /\ framed type c c' /\
    c_active c' type = pre ++ filter (fun i => 0 < left_ j c i) l /\
    (forall i, i ∈ c_active c' type -> timed c' i = timed c i /\ left_ j c' i = left_ j c i).
Proof.
  intros Ht. induction l as [|id l IH]; intros pre mx c Hwf Ea Hl Hmx; cbn [c_has_loop longest foldr].
  - exists c. rewrite Z.max_l by done. unfold framed. split_and!; done.
  - fold (longest j c l). apply Forall_cons in Hl as [Htd Hl].
    assert (Hid : id ∈ c_all c) by (apply (active_in_all c type); rewrite Ea, elem_of_app, elem_of_cons; tauto).
    destruct (move_view c id Hwf Hid) as (v & Ev & _). rewrite Ev. cbn [mbind option_bind].
    assert (Et : v_auto v = true) by (unfold timed in Htd; by rewrite Ev in Htd). rewrite Et.
    assert (El : left_ j c id = s32 (v_expires v - j)) by (unfold left_; by rewrite Ev). rewrite <- El.
    rewrite filter_cons. destruct (Z.leb_spec (left_ j c id) 0) as [H0|H0].
    + destruct (c_expire id c) as [c1|] eqn:Ex; [|by rewrite expire_move in Ex]. cbn [mbind option_bind].
      destruct (expire_active j id c c1 type pre l Hwf Ht Ea Ex) as (Ea1 & Hfr & Hsame).
      destruct (filter_left_ext j c c1 l) as [Ef El1]; [intros i Hi; apply Hsame; rewrite elem_of_app; tauto|].
      destruct (IH pre mx c1) as (c' & E & Hw & Hfr' & Ea' & Hs'); [by apply (wf_expire id c)|done| |done|].
      { apply Forall_forall. intros i Hi. rewrite Forall_forall in Hl. destruct (Hsame i) as [-> _]; [rewrite elem_of_app; tauto|by apply Hl]. }
      exists c'. rewrite E, El1. rewrite decide_False by lia. split_and!; try done.
      * do 2 f_equal. lia.
      * by apply (framed_trans type c c1).
      * by rewrite Ea', Ef.
      * intros i Hi. destruct (Hs' i Hi) as [-> ->]. apply Hsame. rewrite Ea', elem_of_app, list_elem_of_filter in Hi. rewrite elem_of_app. tauto.
    + rewrite decide_True by done. destruct (IH (pre ++ [id]) (if mx <? left_ j c id then left_ j c id else mx) c) as (c' & E & Hw & Hfr' & Ea' & Hs').
      { done. } { rewrite <- app_assoc. done. } { done. } { destruct (mx <? _); lia. }
      exists c'. rewrite E. split_and!; try done.
      * do 2 f_equal. destruct (Z.ltb_spec mx (left_ j c id)); lia.
      * rewrite Ea', <- app_assoc. done.
Qed.

Lemma has_ok j type c : wf c -> 0 <= type < WAKE_LOCK_TYPE_COUNT ->
  exists c' r, c_has j type c = Some (c', r) /\ wf c' /\ framed type c c' /\
  (if existsb (fun i => negb (timed c i)) (c_active c type) then c' = c /\ r = -1
   else r = longest j c (c_active c type) /\ c_active c' type = filter (fun i => 0 < left_ j c i) (c_active c type) /\
     (forall i, i ∈ c_active c' type -> timed c' i = true /\ left_ j c' i = left_ j c i)).
Proof.
  intros Hwf Ht. unfold c_has. rewrite (proj2 (Z.leb_gt _ _)) by lia.
  assert (Hu : untimed_first c (c_active c type)) by (unfold c_active; destruct (_ =? _); apply Hwf).
  destruct Hu as (a & b & Eab & Ha & Hb). destruct a as [|x a].
  - cbn [app] in Eab. assert (Ex : existsb (fun i => negb (timed c i)) (c_active c type) = false).
    { rewrite Eab. apply not_true_iff_false. rewrite existsb_exists. intros (i & Hi & Hn). rewrite <- list_elem_of_In in Hi.
      rewrite Forall_forall in Hb. by rewrite Hb in Hn. }
    rewrite Ex. destruct (has_loop_ok j type Ht b [] 0 c Hwf Eab Hb ltac:(lia)) as (c' & E & Hw & Hfr & Ea & Hs).
    exists c', (longest j c b). rewrite Eab in *. rewrite E. split_and!; try done.
    + do 2 f_equal. apply Z.max_r. clear. induction b as [|i b IH]; cbn [longest foldr]; [done|]. fold (longest j c b). lia.
    + intros i Hi. destruct (Hs i Hi) as [-> ->]. split; [|done]. rewrite Ea, app_nil_l, list_elem_of_filter in Hi. rewrite Forall_forall in Hb. apply Hb, Hi.
  - apply Forall_cons in Ha as [Hx Ha]. exists c, (-1). rewrite Eab. cbn [app c_has_loop existsb]. rewrite Hx. cbn [negb orb].
    assert (Hid : x ∈ c_all c) by (apply (active_in_all c type); rewrite Eab; left).
    destruct (move_view c x Hwf Hid) as (v & Ev & _). rewrite Ev. cbn [mbind option_bind]. unfold timed in Hx. rewrite Ev in Hx. rewrite Hx.
    unfold framed. split_and!; done.
Qed.

(** ** Suspending is not forgotten *)

Definition untimed_held (c : core) : Prop := exists i, i ∈ c_su c /\ timed c i = false.

(** Something will lead to a suspend: a lock whose holder must release it, the
    timer, or the work item. *)
Definition ready (c : core) : Prop :=
  untimed_held c \/ c_timer c <> None \/ c_su c = [] /\ c_work c = true.

(** A pending timer waits for the last of the locks. *)
Definition covered (j : Z) (c : core) : Prop :=
  forall T, c_timer c = Some T -> forall i, i ∈ c_su c -> timed c i = true /\ left_ j c i <= s32 (T - j).

Lemma existsb_untimed c : existsb (fun i => negb (timed c i)) (c_active c WAKE_LOCK_SUSPEND) = true <-> untimed_held c.
Proof.
  rewrite existsb_exists. unfold untimed_held. split; intros (i & Hi & H); exists i; rewrite list_elem_of_In in *;
    (split; [done|]); by apply negb_true_iff.
Qed.

Lemma longest_ge j c l : 0 <= longest j c l < 2 ^ 31 /\ forall i, i ∈ l -> left_ j c i <= longest j c l.
Proof.
  assert (Hr : forall i, left_ j c i < 2 ^ 31).
  { intros i. unfold left_. destruct (c_view c !! i) as [v|]; [|done]. pose proof (s32_range (v_expires v - j)) as H. unfold is_s32 in H. lia. }
  induction l as [|x l [IH1 IH2]]; cbn [longest foldr]; [split; [done|]; intros i Hi; by apply elem_of_nil in Hi|].
  fold (longest j c l). specialize (Hr x). split; [lia|]. intros i [->|Hi]%elem_of_cons; [lia|]. specialize (IH2 i Hi). lia.
Qed.

Lemma s32_timer j r : 0 <= r < 2 ^ 31 -> s32 (u32 (j + r) - j) = r.
Proof. intros. unfold s32, swrap, u32, wrap. Z.to_euclidean_division_equations; lia. Qed.

Lemma wf_rearm j x c : wf c -> wf (c_rearm j x c).
Proof. intros H. unfold c_rearm, c_set. destruct (0 <? x); destruct H; by constructor. Qed.

Lemma has_rearm j c : wf c -> exists c' r, c_has j WAKE_LOCK_SUSPEND c = Some (c', r) /\
  wf (c_rearm j r c') /\ ready (c_rearm j r c') /\ covered j (c_rearm j r c') /\ c_event (c_rearm j r c') = c_event c /\
  c_id (c_rearm j r c') = c_id c.
Proof.
  intros Hwf. destruct (has_ok j WAKE_LOCK_SUSPEND c Hwf ltac:(unfold WAKE_LOCK_SUSPEND, WAKE_LOCK_TYPE_COUNT; lia)) as (c' & r & E & Hw & (Hev & _ & _ & Hid) & H).
  exists c', r. split; [done|]. split; [by apply wf_rearm|].
  assert (Hb : c_event (c_rearm j r c') = c_event c /\ c_id (c_rearm j r c') = c_id c)
    by (unfold c_rearm, c_set; destruct (0 <? r); done).
  destruct (existsb _ _) eqn:Ex.
  - destruct H as [-> ->]. apply existsb_untimed in Ex. split; [by left|]. split; [|done]. intros T. done.
  - destruct H as (-> & Ea & Hs). change (c_active c' WAKE_LOCK_SUSPEND) with (c_su c') in *. set (r := longest j c _) in *.
    destruct (longest_ge j c (c_active c WAKE_LOCK_SUSPEND)) as [Hr Hle]. fold r in Hr, Hle. unfold c_rearm in *. destruct (Z.ltb_spec 0 r).
    + split; [by right; left|]. split; [|done]. intros T [= <-] i Hi. destruct (Hs i Hi) as [Ht El].
      change (timed (c_set _ _ _ c') i) with (timed c' i). change (left_ j (c_set _ _ _ c') i) with (left_ j c' i).
      split; [done|]. rewrite El, s32_timer by lia. apply Hle. cbn [c_set c_su] in Hi. rewrite Ea, list_elem_of_filter in Hi. tauto.
    + assert (r = 0) by lia. rewrite (proj2 (Z.eqb_eq r 0)) in * by done. split; [|split; [intros T; done|done]]. right; right. split; [|done].
      cbn [c_set c_su]. rewrite Ea.
      destruct (filter _ _) as [|x l] eqn:Ef; [done|]. assert (Hx : x ∈ filter (fun i => 0 < left_ j c i) (c_active c WAKE_LOCK_SUSPEND)) by (rewrite Ef; left).
      apply list_elem_of_filter in Hx as [H1 H2]. specialize (Hle x H2). lia.
Qed.

Lemma listed_type c id v : wf c -> c_view c !! id = Some v -> id ∈ c_all c ->
  v_init v = true /\ 0 <= v_type v < WAKE_LOCK_TYPE_COUNT /\ (v_type v = WAKE_LOCK_IDLE -> id ∉ c_su c).
Proof.
  intros Hwf Ev Hid. destruct (move_view c id Hwf Hid) as (v' & Ev' & Hi & Ht). assert (v' = v) by congruence. subst v'.
  split; [done|]. split; [done|]. intros Hty Hs. destruct (wf_su c Hwf id Hs) as (w & Ew & _ & _ & Hw). assert (w = v) by congruence. subst w.
  rewrite Hty in Hw. done.
Qed.

(** [c'] has the same suspend locks, timer and work as [c]. *)
Definition same_suspend (c c' : core) : Prop :=
  c_su c' = c_su c /\ c_event c' = c_event c /\ c_timer c' = c_timer c /\ c_work c' = c_work c /\
  forall i, i ∈ c_su c -> c_view c' !! i = c_view c !! i.

(** What a lock or unlock of a lock on some list achieves. *)
Definition settled (j : Z) (id : nat) (c c' : core) : Prop :=
  wf c' /\ (same_suspend c c' /\ (v_type <$> c_view c !! id) = Some WAKE_LOCK_IDLE \/ ready c' /\ covered j c').

Lemma lock_ok j id t b c : wf c -> id ∈ c_all c -> exists c', c_lock j id t b c = Some c' /\ settled j id c c'.
Proof.
  intros Hwf Hid. destruct (move_view c id Hwf Hid) as (v & Ev & _). destruct (listed_type c id v Hwf Ev Hid) as (Hi & Ht & Hns).
  unfold c_lock. rewrite Ev. cbn [mbind option_bind]. rewrite (proj2 (Z.leb_gt _ _)), Hi by lia. cbn [orb negb].
  unfold c_del. rewrite bool_decide_eq_true_2 by done. cbn [mbind option_bind]. set (x := if b then j +u t else LONG_MAX).
  set (c1 := c_add_active (v_type v) b id (c_upd id (v_on b x) (c_remove id c))).
  assert (Hw1 : wf c1) by (apply (wf_move_active c id (v_on b x) Hwf Hid b x); [done|]; intros w Ew; congruence).
  destruct (type_cases _ Ht) as [E|E]; rewrite E; cbn [negb Z.eqb WAKE_LOCK_SUSPEND WAKE_LOCK_IDLE].
  - change (0 =? 0) with true. cbn [negb]. set (c2 := if (id =? main_wake_lock)%nat then _ else c1).
    assert (Hw2 : wf c2) by (unfold c2; destruct (_ =? _)%nat; [destruct Hw1; by constructor|done]). destruct b.
    + destruct (has_rearm j c2 Hw2) as (c' & r & -> & Hw & Hr & Hc & _). cbn [mbind option_bind]. eexists. split; [reflexivity|]. split; [done|]. by right.
    + cbn [mbind option_bind]. eexists. split; [reflexivity|]. split; [by apply wf_rearm|]. right. split; [left|intros T; done].
      exists id. unfold c_rearm. cbn. unfold c2. assert (H : id ∈ c_su c1 /\ timed c1 id = false).
      { unfold c1. rewrite E. split; [cbn; left|]. unfold timed. cbn. by rewrite lookup_alter_eq, Ev. }
      by destruct (_ =? _)%nat.
  - change (1 =? 0) with false. cbn [negb]. exists c1. split; [done|]. split; [done|]. left. split; [|by rewrite Ev, <- E].
    specialize (Hns E). unfold same_suspend, c1. rewrite E. unfold c_add_active. change (WAKE_LOCK_IDLE =? WAKE_LOCK_SUSPEND) with false.
    split_and!; try done.
    + cbn. by apply filter_ne_notin.
    + intros i Hi'. cbn. rewrite lookup_alter_ne; [done|]. by intros ->.
Qed.

Lemma unlock_ok j id c : wf c -> id ∈ c_all c -> exists c', c_unlock j id c = Some c' /\ settled j id c c'.
Proof.
  intros Hwf Hid. destruct (move_view c id Hwf Hid) as (v & Ev & _). destruct (listed_type c id v Hwf Ev Hid) as (Hi & Ht & Hns).
  unfold c_unlock. rewrite Ev. cbn [mbind option_bind]. destruct (c_expire id c) as [c1|] eqn:Ex; [|by rewrite expire_move in Ex].
  pose proof (wf_expire _ _ _ Hwf Ex) as Hw1. cbn [mbind option_bind].
  destruct (type_cases _ Ht) as [E|E]; rewrite E; cbn [negb Z.eqb WAKE_LOCK_SUSPEND WAKE_LOCK_IDLE].
  - change (0 =? 0) with true. cbn [negb]. destruct (has_rearm j c1 Hw1) as (c' & r & E' & Hw & Hr & Hc & _). fold WAKE_LOCK_SUSPEND. rewrite E'.
    cbn [mbind option_bind]. eexists. split; [reflexivity|]. split; [done|]. by right.
  - change (1 =? 0) with false. cbn [negb]. exists c1. split; [done|]. split; [done|]. left. split; [|by rewrite Ev, <- E]. rewrite expire_move in Ex by done. injection Ex as <-.
    specialize (Hns E). unfold same_suspend. split_and!; try done.
    + cbn. by apply filter_ne_notin.
    + intros i Hi'. cbn. rewrite lookup_alter_ne; [done|]. by intros ->.
Qed.

(** Registering and removing locks. *)
Lemma init_ok id type st : wf (core_of st) -> id ∉ c_all (core_of st) -> 0 <= type < WAKE_LOCK_TYPE_COUNT ->
  exists st', wake_lock_init id type st = Some st' /\ wf (core_of st') /\ same_suspend (core_of st) (core_of st').
Proof.
  intros Hwf Hid Ht. unfold wake_lock_init. rewrite bool_decide_eq_false_2 by done. eexists. split; [reflexivity|].
  set (ex := match locks st !! id with Some l => expires l | None => 0 end). set (lk := mk_lock _ _ _).
  assert (Ev : view_of lk = mk_view type true false false ex) by (unfold lk; destruct (type_cases type Ht) as [-> | ->]; reflexivity).
  set (c := core_of st) in *. set (c' := core_of _).
  assert (Evw : c_view c' = <[id := mk_view type true false false ex]> (c_view c)) by (unfold c'; cbn; by rewrite fmap_insert, Ev).
  assert (Hne : forall i, i ∈ c_all c -> c_view c' !! i = c_view c !! i) by (intros i Hi; rewrite Evw, lookup_insert_ne; [done|by intros ->]).
  assert (Hl : forall l P, (forall i, i ∈ l -> i ∈ c_all c) -> lists c l P -> lists c' l P)
    by (intros l P Hs H i Hi; rewrite Hne by auto; auto).
  assert (Ho : forall l, (forall i, i ∈ l -> i ∈ c_all c) -> untimed_first c l -> untimed_first c' l).
  { intros l Hs (a & b & -> & Ha & Hb). exists a, b. split; [done|]. rewrite !Forall_forall in *. unfold timed in *.
    split; intros i Hi; (rewrite Hne by (apply Hs; rewrite elem_of_app; tauto)); auto. }
  assert (Hsub : forall i, (i ∈ c_in c -> i ∈ c_all c) /\ (i ∈ c_su c -> i ∈ c_all c) /\ (i ∈ c_id c -> i ∈ c_all c))
    by (intros i; unfold c_all; rewrite !elem_of_app; tauto).
  split; [constructor|].
  - change (c_all c') with (id :: c_all c). constructor; [done|apply Hwf].
  - intros i. change (c_in c') with (id :: c_in c). rewrite elem_of_cons. intros [->|Hi]; [|by apply (Hl _ _ (fun i => proj1 (Hsub i)) (wf_in c Hwf))].
    rewrite Evw, lookup_insert_eq. eexists. split; [reflexivity|]. unfold v_idle. cbn. done.
  - apply (Hl _ _ (fun i => proj1 (proj2 (Hsub i))) (wf_su c Hwf)).
  - apply (Hl _ _ (fun i => proj2 (proj2 (Hsub i))) (wf_id c Hwf)).
  - apply (Ho _ (fun i => proj1 (proj2 (Hsub i))) (wf_order_su c Hwf)).
  - apply (Ho _ (fun i => proj2 (proj2 (Hsub i))) (wf_order_id c Hwf)).
  - intros i Hle. destruct (wf_fixed c Hwf i Hle) as (Ha & v & Hv & Hty). change (c_all c') with (id :: c_all c).
    split; [by right|]. exists v. by rewrite Hne.
  - unfold same_suspend. split_and!; try done. intros i Hi. apply Hne. exact (proj1 (proj2 (Hsub i)) Hi).
Qed.

(** [c'] has the locks of [c] but [id]. *)
Definition dropped (id : nat) (c c' : core) : Prop :=
  c_su c' = filter (fun x => x <> id) (c_su c) /\ c_event c' = c_event c /\ c_timer c' = c_timer c /\ c_work c' = c_work c /\
  forall i, i <> id -> c_view c' !! i = c_view c !! i.

(** A lock may be destroyed whether it is held or not. *)
Lemma destroy_ok id st : wf (core_of st) -> id ∈ c_all (core_of st) -> (deleted_wake_locks < id)%nat ->
  exists st', wake_lock_destroy id st = Some st' /\ wf (core_of st') /\ dropped id (core_of st) (core_of st').
Proof.
  intros Hwf Hall Hgt. set (c := core_of st) in *.
  destruct (move_view c id Hwf Hall) as (v & Ev & _). apply core_lock_view in Ev as (l & El & _).
  unfold wake_lock_destroy. set (f := set_flags _). set (st1 := upd_lock id f st).
  assert (El1 : locks st1 !! id = Some (f l)) by (unfold st1; cbn; by rewrite lookup_alter_eq, El). rewrite El1. cbn [mbind option_bind].
  set (g := fun _ : view => view_of (f l)).
  assert (E1 : core_of st1 = c_upd id g c) by (apply (core_upd id f g st l El); done).
  set (st2 := if negb _ then _ else st1). assert (E2 : core_of st2 = c_upd id g c).
  { unfold st2. destruct (negb _); [|done]. destruct (wf_fixed c Hwf deleted_wake_locks ltac:(lia)) as (_ & w & Ew & _).
    assert (Hd : exists d, locks st1 !! deleted_wake_locks = Some d).
    { unfold st1. cbn. rewrite lookup_alter_ne by lia. apply core_lock_view in Ew as (d & -> & _). eauto. }
    destruct Hd as [d Hd]. rewrite (core_upd_same _ _ _ d Hd); done. }
  clearbody st2. pose proof (list_del_core id st2) as Hld. rewrite E2 in Hld. unfold c_del in Hld. change (c_all (c_upd id g c)) with (c_all c) in Hld.
  rewrite bool_decide_eq_true_2 in Hld by done. destruct (list_del id st2) as [st'|]; [|done]. apply (inj Some) in Hld.
  exists st'. split; [done|]. rewrite Hld. change (c_remove id (c_upd id g c)) with (c_upd id g (c_remove id c)).
  split; [constructor|].
  - apply (move_nodup c id g Hwf).
  - apply (move_lists c id g _ _ (wf_in c Hwf)).
  - apply (move_lists c id g _ _ (wf_su c Hwf)).
  - apply (move_lists c id g _ _ (wf_id c Hwf)).
  - apply (move_order c id g _ (wf_order_su c Hwf)).
  - apply (move_order c id g _ (wf_order_id c Hwf)).
  - intros i Hle. destruct (wf_fixed c Hwf i Hle) as (Ha & w & Hv & Hty). rewrite (move_other c id g) by lia.
    split; [|eauto]. rewrite (move_all c id g), list_elem_of_filter. split; [lia|done].
  - unfold dropped. split_and!; try done. intros i Hi. by apply move_other.
Qed.

(** A lock that is not held: nothing changes for the others. *)
Lemma dropped_inactive id c c' : wf c -> id ∈ c_in c -> dropped id c c' -> same_suspend c c'.
Proof.
  intros Hwf Hid (Es & Ee & Et & Ew & Ev).
  assert (Hns : id ∉ c_su c).
  { pose proof (wf_nodup c Hwf) as Hn. unfold c_all in Hn. rewrite !NoDup_app in Hn. destruct Hn as (_ & Hd & _).
    specialize (Hd id Hid). rewrite elem_of_app in Hd. tauto. }
  unfold same_suspend. split_and!; try done; [rewrite Es; by apply filter_ne_notin|].
  intros i Hi. apply Ev. by intros ->.
Qed.

Lemma dropped_covered id j c c' : dropped id c c' -> covered j c -> covered j c'.
Proof.
  intros (Es & _ & Et & _ & Ev) Hc T HT i. rewrite Et in HT. rewrite Es, list_elem_of_filter. intros [Hne Hi].
  unfold timed, left_. rewrite Ev by done. by apply Hc.
Qed.

(** ** The system *)

(** The work item: not running, past its first check, or inside [pm_suspend]. *)
Inductive work_state : Type := WIdle | WEnter | WSuspending (entry_event_num : Z).

(** [now] counts jiffies without wrap-around. *)
Record wsys := mk_wsys { w_st : wakelocks; w_now : Z; w_work : work_state }.

(** Something is left to do before, or while, the phone suspends. *)
Definition live (c : core) (w : work_state) : Prop :=
  untimed_held c \/ c_timer c <> None \/
  c_su c = [] /\ (c_work c = true \/ w = WEnter \/ w = WSuspending (c_event c)).

(** No expired lock or timer is overlooked for [2 ^ 31] jiffies (248 days). *)
Definition timely (c : core) (now : Z) : Prop :=
  (forall i, i ∈ c_su c -> timed c i = true -> - 2 ^ 31 < left_ (u32 now) c i) /\
  (forall T, c_timer c = Some T -> - 2 ^ 31 < s32 (T - u32 now)).

Section System.
Context (clock : nat -> Z).

(** [any]: locks may be destroyed while they are held, as [wake_lock_destroy] allows; otherwise they are
    released before. *)
Inductive wstep (any : bool) : wsys -> wsys -> Prop :=
  | ws_lock e id timeout b st st' now w :
      jiffies e = u32 now -> id ∈ c_all (core_of st) -> wake_lock_internal clock e id timeout b st = Some st' ->
      wstep any (mk_wsys st now w) (mk_wsys st' now w)
  | ws_unlock e id st st' now w :
      jiffies e = u32 now -> id ∈ c_all (core_of st) -> wake_unlock clock e id st = Some st' ->
      wstep any (mk_wsys st now w) (mk_wsys st' now w)
  | ws_init id type st st' now w :
      id ∉ c_all (core_of st) -> 0 <= type < WAKE_LOCK_TYPE_COUNT -> wake_lock_init id type st = Some st' ->
      wstep any (mk_wsys st now w) (mk_wsys st' now w)
  | ws_destroy id st st' now w :
      id ∈ (if any then c_all (core_of st) else inactive_locks st) -> (deleted_wake_locks < id)%nat -> wake_lock_destroy id st = Some st' ->
      wstep any (mk_wsys st now w) (mk_wsys st' now w)
  | ws_has e type st st' r now w :
      jiffies e = u32 now -> 0 <= type < WAKE_LOCK_TYPE_COUNT -> has_wake_lock clock e type st = Some (st', r) ->
      wstep any (mk_wsys st now w) (mk_wsys st' now w)
  | ws_timer e T st st' now w :
      jiffies e = u32 now -> expire_timer st = Some T -> 0 <= s32 (u32 now - T) ->
      expire_wake_locks clock e (set_timer None st) = Some st' ->
      wstep any (mk_wsys st now w) (mk_wsys st' now w)
  | ws_enter e st st' b now :
      jiffies e = u32 now -> suspend_work st = true -> suspend_enter clock e (set_work false st) = Some (st', b) ->
      wstep any (mk_wsys st now WIdle) (mk_wsys st' now (if b then WEnter else WIdle))
  | ws_suspend st now :
      wstep any (mk_wsys st now WEnter) (mk_wsys st now (WSuspending (current_event_num st)))
  | ws_late e st st' r now n :
      jiffies e = u32 now -> power_suspend_late clock e st = Some (st', r) ->
      wstep any (mk_wsys st now (WSuspending n)) (mk_wsys st' now (WSuspending n))
  | ws_exit e st st' now n :
      jiffies e = u32 now -> suspend_exit clock e n st = Some st' ->
      wstep any (mk_wsys st now (WSuspending n)) (mk_wsys st' now WIdle)
  | ws_tick st now w :
      timely (core_of st) now -> wstep any (mk_wsys st now w) (mk_wsys st (now + 1) w).

Definition inv (s : wsys) : Prop :=
  let c := core_of (w_st s) in wf c /\ live c (w_work s) /\ covered (u32 (w_now s)) c.

Lemma same_inv j c c' w : same_suspend c c' -> live c w /\ covered j c -> live c' w /\ covered j c'.
Proof.
  intros (Es & Ee & Et & Ew & Ev) [Hl Hc]. unfold live, covered, untimed_held, timed, left_ in *. rewrite Es, Ee, Et, Ew. split.
  - destruct Hl as [(i & Hi & H)|H]; [left; exists i; rewrite Ev by done; done|by right].
  - intros T HT i Hi. rewrite Ev by done. by apply Hc.
Qed.

Lemma ready_live c w : ready c -> live c w.
Proof. unfold ready, live. tauto. Qed.

Lemma settled_inv j id c c' w : settled j id c c' -> live c w /\ covered j c -> wf c' /\ live c' w /\ covered j c'.
Proof. intros [Hw [[Hs _]|[Hr Hc]]] H; (split; [done|]); [by apply (same_inv j c)|]. split; [by apply ready_live|done]. Qed.

Lemma core_has e type st st' r : wf (core_of st) -> has_wake_lock clock e type st = Some (st', r) ->
  c_has (jiffies e) type (core_of st) = Some (core_of st', r).
Proof. intros Hwf E. rewrite <- (has_core clock e type st (wf_present _ Hwf)). unfold has_wake_lock in E. by rewrite E. Qed.

(** Locks that are not looked at are left alone. *)
Lemma has_loop_view j l i : forall mx c c' r, c_has_loop j l mx c = Some (c', r) -> i ∉ l -> c_view c' !! i = c_view c !! i.
Proof.
  induction l as [|x l IH]; intros mx c c' r E Hni; cbn [c_has_loop] in E; [by injection E as <- _|].
  rewrite not_elem_of_cons in Hni. destruct Hni as [Hne Hni].
  destruct (c_view c !! x) as [v|]; [|done]. cbn [mbind option_bind] in E. destruct (v_auto v); [|by injection E as <- _].
  destruct (_ <=? 0); [|by apply (IH _ _ _ _ E)]. destruct (c_expire x c) as [c1|] eqn:Ex; [|done]. cbn [mbind option_bind] in E.
  apply c_expire_view in Ex. by rewrite (IH _ _ _ _ E Hni), Ex, lookup_alter_ne.
Qed.

(** A check of the locks, without setting the timer. *)
Lemma has_inv j type c c' r w : wf c -> 0 <= type < WAKE_LOCK_TYPE_COUNT -> c_has j type c = Some (c', r) ->
  live c w /\ covered j c -> wf c' /\ live c' w /\ covered j c' /\
  (type = WAKE_LOCK_SUSPEND -> (r = 0 -> c_su c' = []) /\ (r <> 0 -> untimed_held c' \/ c_timer c' <> None)) /\
  c_work c' = c_work c /\ c_event c' = c_event c /\ c_timer c' = c_timer c.
Proof.
  intros Hwf Ht E [Hl Hc]. destruct (has_ok j type c Hwf Ht) as (c2 & r2 & E2 & Hw & (Hev & Htm & Hwk & Hoth) & H).
  rewrite E in E2. injection E2 as <- <-. destruct (type_cases type Ht) as [-> | ->].
  - change (c_active c' WAKE_LOCK_SUSPEND) with (c_su c') in *. change (c_active c WAKE_LOCK_SUSPEND) with (c_su c) in *.
    pose proof (existsb_untimed c) as Hex. change (c_active c WAKE_LOCK_SUSPEND) with (c_su c) in Hex. destruct (existsb _ _) eqn:Eb.
    + destruct H as [-> ->]. split_and!; try done. intros _. split; [done|]. intros _. left. by apply Hex.
    + assert (Hnu : ~ untimed_held c) by (intros Hu; apply Hex in Hu; done). destruct H as (-> & Ea & Hs).
      destruct (longest_ge j c (c_su c)) as [Hr Hle].
      assert (Hsub : forall i, i ∈ c_su c' -> i ∈ c_su c /\ 0 < left_ j c i) by (intros i; rewrite Ea, list_elem_of_filter; tauto).
      split; [done|]. split.
      { destruct Hl as [Hu|[Ht'|[Hs0 Hwe]]]; [done|right; left; congruence|]. right; right. rewrite Ea, Hs0, Hwk, Hev. done. }
      split.
      { intros T HT i Hi. rewrite Htm in HT. destruct (Hs i Hi) as [-> ->]. split; [done|]. apply (Hc T HT). by apply Hsub. }
      split_and!; try done. intros _. split.
      * intros H0. destruct (c_su c') as [|x l]; [done|]. destruct (Hsub x ltac:(left)) as [Hx1 Hx2]. specialize (Hle x Hx1). lia.
      * intros Hn0. destruct Hl as [Hu|[Ht'|[Hs0 _]]]; [done|right; congruence|]. rewrite Hs0 in Hn0. done.
  - assert (Hsame : same_suspend c c' \/ c' = c).
    { destruct (existsb _ _); [by right; destruct H|]. left. change (c_active c' (1 - WAKE_LOCK_IDLE)) with (c_su c') in Hoth.
      change (c_active c (1 - WAKE_LOCK_IDLE)) with (c_su c) in Hoth. unfold same_suspend. split_and!; try done.
      intros i Hi. unfold c_has in E. change (WAKE_LOCK_TYPE_COUNT <=? WAKE_LOCK_IDLE) with false in E.
      apply (has_loop_view _ _ i) in E; [done|]. intros Hx. by apply (proj2 (nodup_active c WAKE_LOCK_IDLE Hwf Ht) i Hx). }
    split; [done|]. destruct Hsame as [Hs| ->].
    + destruct (same_inv j c c' w Hs (conj Hl Hc)). split_and!; done.
    + split_and!; done.
Qed.

Lemma suspend_type : 0 <= WAKE_LOCK_SUSPEND < WAKE_LOCK_TYPE_COUNT.
Proof. unfold WAKE_LOCK_SUSPEND, WAKE_LOCK_TYPE_COUNT. lia. Qed.

Lemma longest_zero j c l : longest j c l = 0 -> filter (fun i => 0 < left_ j c i) l = [].
Proof.
  intros E. destruct (longest_ge j c l) as [_ Hle]. rewrite E in Hle. destruct (filter _ _) as [|x l'] eqn:Ef; [done|].
  assert (Hx : x ∈ filter (fun i => 0 < left_ j c i) l) by (rewrite Ef; left).
  apply list_elem_of_filter in Hx as [H1 H2]. specialize (Hle x H2). lia.
Qed.

Lemma longest_all j c l : (forall i, i ∈ l -> left_ j c i <= 0) -> longest j c l = 0.
Proof.
  induction l as [|x l IH]; intros H; [done|]. cbn [longest foldr]. fold (longest j c l).
  rewrite IH by (intros i Hi; apply H; by right). specialize (H x ltac:(left)). lia.
Qed.

(** When the timer's time has come, all locks have expired. *)
Lemma timer_fires j c T c' r : wf c -> covered j c -> c_timer c = Some T -> 0 <= s32 (j - T) ->
  c_has j WAKE_LOCK_SUSPEND (c_set (c_event c) None (c_work c) c) = Some (c', r) ->
  r = 0 /\ wf c' /\ c_su c' = [] /\ c_timer c' = None.
Proof.
  intros Hwf Hc HT Hle E. set (d := c_set _ _ _ c) in *. assert (Hwf' : wf d) by (destruct Hwf; by constructor).
  destruct (has_ok j WAKE_LOCK_SUSPEND d Hwf' suspend_type) as (c2 & r2 & E2 & Hw & (_ & Htm & _) & H).
  rewrite E in E2. injection E2 as <- <-.
  assert (HTl : s32 (T - j) <= 0) by (unfold s32, swrap in *; Z.to_euclidean_division_equations; lia).
  assert (Hall : forall i, i ∈ c_su d -> timed d i = true /\ left_ j d i <= 0) by (intros i Hi; destruct (Hc T HT i Hi); split; [done|]; etrans; done).
  change (c_active d WAKE_LOCK_SUSPEND) with (c_su d) in *. destruct (existsb _ _) eqn:Eb.
  - apply (existsb_untimed d) in Eb as (i & Hi & Hn). destruct (Hall i Hi) as [Ht _]. congruence.
  - destruct H as (-> & Ea & _). assert (Hz : longest j d (c_su d) = 0) by (apply longest_all; intros i Hi; by apply Hall).
    split; [done|]. split; [done|]. split; [|done]. rewrite <- (longest_zero j d (c_su d) Hz). exact Ea.
Qed.

Lemma s32_tick x now : - 2 ^ 31 < s32 (x - u32 now) -> s32 (x - u32 (now + 1)) = s32 (x - u32 now) - 1.
Proof. unfold s32, swrap, u32, wrap. Z.to_euclidean_division_equations; lia. Qed.

Lemma tick_covered now c : timely c now -> covered (u32 now) c -> covered (u32 (now + 1)) c.
Proof.
  intros [Ht1 Ht2] Hc T HT i Hi. destruct (Hc T HT i Hi) as [Htd Hle]. split; [done|]. specialize (Ht1 i Hi Htd). specialize (Ht2 T HT).
  rewrite s32_tick by done. unfold left_ in *. destruct (c_view c !! i) as [v|] eqn:Ev.
  - rewrite s32_tick by done. lia.
  - unfold timed in Htd. by rewrite Ev in Htd.
Qed.

Lemma lock_inv e id t b st st' : wf (core_of st) -> id ∈ c_all (core_of st) -> wake_lock_internal clock e id t b st = Some st' ->
  settled (jiffies e) id (core_of st) (core_of st').
Proof.
  intros Hwf Hid E. destruct (lock_ok (jiffies e) id t b (core_of st) Hwf Hid) as (c' & Ec & Hs).
  rewrite <- (lock_core clock e id t b st (wf_present _ Hwf)), E in Ec. cbn in Ec. injection Ec as <-. exact Hs.
Qed.

Lemma wstep_inv s s' : wstep false s s' -> inv s -> inv s'.
Proof.
  unfold inv. intros Hst. destruct Hst; cbn [w_st w_now w_work]; intros (Hwf & Hl & Hc).
  - rewrite <- H in *. apply (settled_inv _ id (core_of st)); [|done]. by apply (lock_inv e id timeout b).
  - rewrite <- H in *. apply (settled_inv _ id (core_of st)); [|done]. destruct (unlock_ok (jiffies e) id (core_of st) Hwf H0) as (c' & Ec & Hs).
    rewrite <- (unlock_core clock e id st (wf_present _ Hwf)), H1 in Ec. cbn in Ec. injection Ec as <-. exact Hs.
  - destruct (init_ok id type st Hwf H H0) as (s2 & E & Hw & Hs). rewrite E in H1. injection H1 as <-. split; [done|]. by apply (same_inv _ (core_of st)).
  - destruct (destroy_ok id st Hwf) as (s2 & E & Hw & Hs); [unfold c_all; rewrite elem_of_app; by left|done|].
    rewrite E in H1. injection H1 as <-. split; [done|]. apply (same_inv _ (core_of st)); [by apply (dropped_inactive id)|done].
  - rewrite <- H in *. apply core_has in H1; [|done]. destruct (has_inv _ _ _ _ _ w Hwf H0 H1 (conj Hl Hc)) as (? & ? & ? & _). done.
  - rewrite <- H in *. unfold expire_wake_locks in H2.
    assert (Hwf' : wf (core_of (set_timer None st))) by (destruct Hwf; by constructor).
    destruct (has_wake_lock_locked clock e WAKE_LOCK_SUSPEND (set_timer None st)) as [[s2 r]|] eqn:E; [|done]. cbn [mbind option_bind] in H2.
    apply core_has in E; [|done]. injection H2 as <-.
    destruct (timer_fires (jiffies e) (core_of st) T (core_of s2) r Hwf Hc H0 H1 E) as (-> & Hw2 & Hs2 & Ht2). cbn [Z.eqb].
    split; [destruct Hw2; by constructor|]. split; [right; right; split; [exact Hs2|by left]|].
    intros T' HT'. change (c_timer (core_of s2) = Some T') in HT'. congruence.
  - rewrite <- H in *. unfold suspend_enter in H1. assert (Hwf' : wf (core_of (set_work false st))) by (destruct Hwf; by constructor).
    destruct (has_wake_lock clock e WAKE_LOCK_SUSPEND (set_work false st)) as [[s2 r]|] eqn:E; [|done]. cbn [mbind option_bind] in H1. injection H1 as <- <-.
    apply core_has in E; [|done].
    assert (Hl' : live (core_of (set_work false st)) WEnter) by (destruct Hl as [Hu|[Ht|[Hs _]]]; [by left|by right; left|right; right; eauto]).
    destruct (has_inv _ _ _ _ _ WEnter Hwf' suspend_type E (conj Hl' Hc)) as (Hw2 & Hl2 & Hc2 & Hr & Hwk & _). destruct (Hr eq_refl) as [Hr0 Hr1].
    split; [done|]. split; [|done]. destruct (Z.eqb_spec r 0) as [->|Hn]; [done|]. destruct (Hr1 Hn) as [Hu|Ht]; [by left|by right; left].
  - split; [done|]. split; [|done]. destruct Hl as [Hu|[Ht|[Hs Hw]]]; [by left|by right; left|]. right; right. split; [done|].
    destruct Hw as [Hw|[_|Hw]]; [by left|by right; right|done].
  - rewrite <- H in *. unfold power_suspend_late in H0.
    destruct (has_wake_lock clock e WAKE_LOCK_SUSPEND st) as [[s2 h]|] eqn:E; [|done]. cbn [mbind option_bind] in H0. injection H0 as <- <-.
    apply core_has in E; [|done]. rewrite core_stats. destruct (has_inv _ _ _ _ _ (WSuspending n) Hwf suspend_type E (conj Hl Hc)) as (? & ? & ? & _). done.
  - rewrite <- H in *. unfold suspend_exit in H0. destruct (Z.eqb_spec (current_event_num st) n) as [Heq|Hne].
    + destruct (wf_fixed _ Hwf unknown_wakeup) as [Hin _]; [unfold unknown_wakeup, deleted_wake_locks; lia|].
      pose proof (lock_inv e unknown_wakeup (HZ / 2) true st st' Hwf Hin H0) as [Hw [[_ Hty]|[Hr Hcv]]].
      * destruct (wf_fixed _ Hwf unknown_wakeup) as (_ & v & Ev & Hty'); [unfold unknown_wakeup, deleted_wake_locks; lia|].
        rewrite Ev in Hty. cbn in Hty. rewrite Hty' in Hty. done.
      * split; [done|]. split; [by apply ready_live|done].
    + injection H0 as <-. split; [done|]. split; [|done]. destruct Hl as [Hu|[Ht|[Hs Hw]]]; [by left|by right; left|].
      right; right. split; [done|]. destruct Hw as [Hw|[Hw|Hw]]; [by left|done|]. injection Hw as Hw. done.
  - split; [done|]. split; [done|]. by apply tick_covered.
Qed.

(** The state after [wakelocks_init]: the main lock is held. *)
Definition init_core : core :=
  mk_core (<[unknown_wakeup := mk_view 0 true false false 0]> (<[main_wake_lock := mk_view 0 true true false LONG_MAX]>
            (<[deleted_wake_locks := mk_view 0 true false false 0]> ∅)))
    [unknown_wakeup; deleted_wake_locks] [main_wake_lock] [] 1 None false.

Definition c_init (id : nat) (c : core) : core :=
  c_add_in id (mk_core (<[id := mk_view 0 true false false (match c_view c !! id with Some v => v_expires v | None => 0 end)]> (c_view c))
    (c_in c) (c_su c) (c_id c) (c_event c) (c_timer c) (c_work c)).

Lemma init_step id st : bool_decide (id ∈ c_all (core_of st)) = false ->
  exists st', wake_lock_init id WAKE_LOCK_SUSPEND st = Some st' /\ core_of st' = c_init id (core_of st).
Proof.
  intros Hid. unfold wake_lock_init. change (inactive_locks st ++ active_suspend st ++ active_idle st) with (c_all (core_of st)).
  rewrite Hid. eexists. split; [reflexivity|]. unfold c_init, c_add_in, c_lists, core_of at 1, add_inactive, upd_lists, upd_locks.
  cbn [locks inactive_locks active_suspend active_idle current_event_num expire_timer suspend_work].
  rewrite fmap_insert, core_lookup. set (x := match locks st !! id with Some l => expires l | None => 0 end).
  assert (Ex : match view_of <$> locks st !! id with Some v => v_expires v | None => 0 end = x) by (unfold x; by destruct (locks st !! id)).
  rewrite Ex. done.
Qed.

Lemma init_state e : exists st, wakelocks_init clock e = Some st /\ core_of st = init_core.
Proof.
  unfold wakelocks_init. set (s0 := mk_wakelocks ∅ [] [] [] 0 None false 0 false 0).
  destruct (init_step deleted_wake_locks s0) as (s1 & -> & E1); [vm_compute; reflexivity|]. cbn [mbind option_bind].
  destruct (init_step main_wake_lock s1) as (s2 & -> & E2); [rewrite E1; vm_compute; reflexivity|]. cbn [mbind option_bind].
  rewrite E1 in E2. unfold wake_lock_. assert (Hp : present (core_of s2)).
  { rewrite E2. split; [|exists (mk_view 0 true false false 0); vm_compute; reflexivity].
    assert (Ha : c_all (c_init main_wake_lock (c_init deleted_wake_locks (core_of s0))) = [main_wake_lock; deleted_wake_locks]) by (vm_compute; reflexivity).
    intros id. rewrite Ha, !elem_of_cons, elem_of_nil. intros Hid.
    destruct Hid as [->|[->|[]]]; exists (mk_view 0 true false false 0); vm_compute; reflexivity. }
  pose proof (lock_core clock e main_wake_lock 0 false s2 Hp) as Hl. rewrite E2 in Hl.
  destruct (wake_lock_internal clock e main_wake_lock 0 false s2) as [s3|]; [|vm_compute in Hl; discriminate Hl].
  cbn [mbind option_bind]. unfold fmap, option_fmap, option_map in Hl.
  assert (E3 : bool_decide (unknown_wakeup ∈ c_all (core_of s3)) = false /\ c_init unknown_wakeup (core_of s3) = init_core).
  { apply (inj Some (core_of s3) (default init_core (c_lock (jiffies e) main_wake_lock 0 false (c_init main_wake_lock (c_init deleted_wake_locks (core_of s0)))))) in Hl.
    rewrite Hl. split; vm_compute; reflexivity. }
  destruct (init_step unknown_wakeup s3) as (s4 & -> & E4); [apply E3|]. exists s4. split; [done|]. rewrite E4. apply E3.
Qed.

Lemma init_wf : wf init_core.
Proof.
  assert (Hd : NoDup (c_all init_core)) by (by apply (bool_decide_eq_true_1 (NoDup (c_all init_core)))).
  assert (Hl : lists init_core (c_in init_core) v_idle).
  { intros id. cbn [init_core c_in]. rewrite !elem_of_cons, elem_of_nil. intros [->|[->|[]]]; eexists; (split; [reflexivity|]); split; [done| |done|]; by cbn. }
  constructor; try done.
  - intros id. cbn [init_core c_su]. rewrite elem_of_cons, elem_of_nil. intros [->|[]]. eexists. split; [reflexivity|]. done.
  - intros id Hin. by apply elem_of_nil in Hin.
  - exists [main_wake_lock], []. split_and!; try done. by constructor.
  - by exists [], [].
  - intros id Hle. unfold deleted_wake_locks in Hle. destruct id as [|[|[|id]]]; [| | |lia];
      (split; [by apply (bool_decide_eq_true_1 _)|]; eexists; split; reflexivity).
Qed.

Definition wreach_of (any : bool) (s : wsys) : Prop :=
  exists e st now, jiffies e = u32 now /\ wakelocks_init clock e = Some st /\ rtc (wstep any) (mk_wsys st now WIdle) s.

(** The states of the system, and those of runs in which no lock is destroyed while it is held. *)
Definition wreach : wsys -> Prop := wreach_of true.
Definition wreach_released : wsys -> Prop := wreach_of false.

(** The invariant without [live], which a lock that is destroyed while held may break. *)
Definition inv_any (s : wsys) : Prop := wf (core_of (w_st s)) /\ covered (u32 (w_now s)) (core_of (w_st s)).

Lemma settled_any j id c c' : settled j id c c' -> covered j c -> wf c' /\ covered j c'.
Proof.
  intros [Hw [[(Es & _ & Et & _ & Ev) _]|[_ Hc']]] Hc; (split; [done|]); [|done]. intros T HT i Hi. rewrite Et in HT. rewrite Es in Hi.
  unfold timed, left_. rewrite Ev by done. by apply Hc.
Qed.

(** While the timer is pending there is something left to do. *)
Lemma has_any j type c c' r : wf c -> 0 <= type < WAKE_LOCK_TYPE_COUNT -> c_has j type c = Some (c', r) -> covered j c ->
  wf c' /\ covered j c'.
Proof.
  intros Hwf Hty E Hc. destruct (c_timer c) as [T|] eqn:ET.
  - destruct (has_inv j type c c' r WIdle Hwf Hty E) as (? & _ & ? & _); [|done]. split; [right; left; congruence|done].
  - destruct (has_ok j type c Hwf Hty) as (c2 & r2 & E2 & Hw & (_ & Htm & _) & _). rewrite E in E2. injection E2 as <- <-.
    split; [done|]. intros T HT. congruence.
Qed.

Lemma has_any_st e type st st' r : wf (core_of st) -> 0 <= type < WAKE_LOCK_TYPE_COUNT ->
  has_wake_lock clock e type st = Some (st', r) -> covered (jiffies e) (core_of st) ->
  wf (core_of st') /\ covered (jiffies e) (core_of st').
Proof. intros Hwf Hty E. apply (has_any _ type _ _ r); [done|done|]. by apply core_has. Qed.

Lemma wstep_any s s' : wstep true s s' -> inv_any s -> inv_any s'.
Proof.
  unfold inv_any. intros Hst. destruct Hst; cbn [w_st w_now w_work]; intros (Hwf & Hc).
  - rewrite <- H in *. apply (settled_any _ id (core_of st)); [|done]. by apply (lock_inv e id timeout b).
  - rewrite <- H in *. apply (settled_any _ id (core_of st)); [|done]. destruct (unlock_ok (jiffies e) id (core_of st) Hwf H0) as (c' & Ec & Hs).
    rewrite <- (unlock_core clock e id st (wf_present _ Hwf)), H1 in Ec. cbn in Ec. injection Ec as <-. exact Hs.
  - destruct (init_ok id type st Hwf H H0) as (s2 & E & Hw & (Es & _ & Et & _ & Ev)). rewrite E in H1. injection H1 as <-. split; [done|].
    intros T HT i Hi. rewrite Et in HT. rewrite Es in Hi. unfold timed, left_. rewrite Ev by done. by apply Hc.
  - destruct (destroy_ok id st Hwf H H0) as (s2 & E & Hw & Hs). rewrite E in H1. injection H1 as <-. split; [done|]. by apply (dropped_covered id _ (core_of st)).
  - rewrite <- H in *. by apply (has_any_st e type st st' r).
  - rewrite <- H in *. unfold expire_wake_locks in H2. fold (has_wake_lock clock e WAKE_LOCK_SUSPEND (set_timer None st)) in H2.
    destruct (has_wake_lock clock e WAKE_LOCK_SUSPEND (set_timer None st)) as [[s2 r]|] eqn:E; [|done]. cbn [mbind option_bind] in H2.
    assert (Hwf' : wf (core_of (set_timer None st))) by (destruct Hwf; by constructor).
    destruct (has_any_st e WAKE_LOCK_SUSPEND (set_timer None st) s2 r Hwf' suspend_type E) as [Hw Hcv]; [by intros T'|].
    injection H2 as <-. destruct (r =? 0); [split; [destruct Hw; by constructor|exact Hcv]|done].
  - rewrite <- H in *. unfold suspend_enter in H1. assert (Hwf' : wf (core_of (set_work false st))) by (destruct Hwf; by constructor).
    destruct (has_wake_lock clock e WAKE_LOCK_SUSPEND (set_work false st)) as [[s2 r]|] eqn:E; [|done]. cbn [mbind option_bind] in H1. injection H1 as <- <-.
    by apply (has_any_st e WAKE_LOCK_SUSPEND (set_work false st) s2 r).
  - done.
  - rewrite <- H in *. unfold power_suspend_late in H0.
    destruct (has_wake_lock clock e WAKE_LOCK_SUSPEND st) as [[s2 h]|] eqn:E; [|done]. cbn [mbind option_bind] in H0. injection H0 as <- <-.
    rewrite core_stats. by apply (has_any_st e WAKE_LOCK_SUSPEND st s2 h).
  - rewrite <- H in *. unfold suspend_exit in H0. destruct (Z.eqb_spec (current_event_num st) n) as [Heq|Hne]; [|by injection H0 as <-].
    destruct (wf_fixed _ Hwf unknown_wakeup) as [Hin _]; [unfold unknown_wakeup, deleted_wake_locks; lia|].
    apply (settled_any _ unknown_wakeup (core_of st)); [|done]. by apply (lock_inv e unknown_wakeup (HZ / 2) true).
  - split; [done|]. by apply tick_covered.
Qed.

(** [wakelocks_init] establishes the invariant. *)
Lemma init_inv e st now : wakelocks_init clock e = Some st -> inv (mk_wsys st now WIdle).
Proof.
  intros E. destruct (init_state e) as (st' & E' & Ec). rewrite E in E'. injection E' as <-.
  unfold inv. cbn [w_st w_now w_work]. rewrite Ec. split; [apply init_wf|]. split; [|intros T; done].
  left. exists main_wake_lock. split; [left|reflexivity].
Qed.

Lemma wreach_released_inv s : wreach_released s -> inv s.
Proof.
  intros (e & st & now & Hj & E & Hr). apply (init_inv e st now) in E. revert E. generalize (mk_wsys st now WIdle), Hr.
  clear. intros s0 Hr. induction Hr; [done|]. eauto using wstep_inv.
Qed.

Lemma wreach_inv s : wreach s -> inv_any s.
Proof.
  intros (e & st & now & Hj & E & Hr). apply (init_inv e st now) in E as (Hw & _ & Hc). assert (H0 : inv_any (mk_wsys st now WIdle)) by done.
  clear Hw Hc. revert H0. generalize (mk_wsys st now WIdle), Hr. clear. intros s0 Hr. induction Hr; [done|]. eauto using wstep_any.
Qed.

Lemma wreach_mono s : wreach_released s -> wreach s.
Proof.
  intros (e & st & now & Hj & E & Hr). exists e, st, now. split; [done|]. split; [done|].
  assert (Hm : forall x y, wstep false x y -> wstep true x y).
  { intros x y Hxy. destruct Hxy; try by econstructor. apply (ws_destroy _ id); [unfold c_all; rewrite elem_of_app; by left|done..]. }
  clear E. induction Hr; [apply rtc_refl|]. by eapply rtc_l; [apply Hm|].
Qed.

End System.

(** ** Correctness *)

(** C28: the state of the wake locks in every reachable state of the system of lock
    holders, timer and suspend work: each registered lock is on exactly one list,
    the one for its type and for whether it is active, also when locks are
    destroyed while they are held; locks without a time-out come before those with one; the timer, when pending, expires no earlier than
    any lock; and every operation on registered locks runs through, without
    hitting a BUG_ON or a broken list. *)
Theorem wakelock_reachable_inv clock s e : wreach clock s -> jiffies e = u32 (w_now s) ->
  wf (core_of (w_st s)) /\ covered (jiffies e) (core_of (w_st s)) /\
  (forall id timeout b, id ∈ c_all (core_of (w_st s)) ->
     is_Some (wake_lock_internal clock e id timeout b (w_st s)) /\ is_Some (wake_unlock clock e id (w_st s))) /\
  is_Some (expire_wake_locks clock e (w_st s)) /\ is_Some (power_suspend_late clock e (w_st s)) /\
  (forall n, is_Some (suspend_exit clock e n (w_st s))).
Proof.
  intros Hr Hj. destruct (wreach_inv clock s Hr) as (Hwf & Hc). rewrite Hj. split; [done|]. split; [done|].
  pose proof (wf_present _ Hwf) as Hp.
  assert (Hlk : forall id t b, id ∈ c_all (core_of (w_st s)) -> is_Some (wake_lock_internal clock e id t b (w_st s))).
  { intros id t b Hid. destruct (lock_ok (jiffies e) id t b _ Hwf Hid) as (c' & Ec & _).
    rewrite <- (lock_core clock e id t b _ Hp) in Ec. destruct (wake_lock_internal _ _ _ _ _ _); [eauto|done]. }
  assert (Hh : exists p, has_wake_lock_locked clock e WAKE_LOCK_SUSPEND (w_st s) = Some p).
  { destruct (has_ok (jiffies e) WAKE_LOCK_SUSPEND _ Hwf suspend_type) as (c' & r & Ec & _).
    rewrite <- (has_core clock e _ _ Hp) in Ec. destruct (has_wake_lock_locked _ _ _ _); [eauto|done]. }
  destruct Hh as ((st' & r) & Hh). split_and!.
  - intros id t b Hid. split; [by apply Hlk|]. destruct (unlock_ok (jiffies e) id _ Hwf Hid) as (c' & Ec & _).
    rewrite <- (unlock_core clock e id _ Hp) in Ec. destruct (wake_unlock _ _ _ _); [eauto|done].
  - unfold expire_wake_locks. rewrite Hh. cbn [mbind option_bind]. eauto.
  - unfold power_suspend_late, has_wake_lock. rewrite Hh. cbn [mbind option_bind]. eauto.
  - intros n. unfold suspend_exit. destruct (_ =? n); [|eauto]. apply Hlk.
    destruct (wf_fixed _ Hwf unknown_wakeup) as [Hin _]; [unfold unknown_wakeup, deleted_wake_locks; lia|done].
Qed.

Definition demo_env : env := mk_env 0 (mk_ts 0 0) (mk_ts 0 0).

Lemma demo_reach_of any : exists st, wreach_of (fun _ => 0) any (mk_wsys st 0 WIdle) /\ core_of st = init_core.
Proof.
  destruct (init_state (fun _ => 0) demo_env) as (st & E & Ec). exists st. split; [exists demo_env, st, 0; done|exact Ec].
Qed.
Lemma demo_reach : exists st, wreach (fun _ => 0) (mk_wsys st 0 WIdle) /\ core_of st = init_core.
Proof. apply demo_reach_of. Qed.

Lemma wakelock_reachable_inv_witness :
  exists st st', wreach (fun _ => 0) (mk_wsys st 0 WIdle) /\ wake_unlock (fun _ => 0) demo_env main_wake_lock st = Some st'.
Proof.
  destruct demo_reach as (st & Hr & Hs).
  destruct (wakelock_reachable_inv (fun _ => 0) (mk_wsys st 0 WIdle) demo_env Hr eq_refl) as (_ & _ & H & _).
  destruct (H main_wake_lock 0 true) as [_ [st' E]]; [cbn [w_st]; rewrite Hs; right; right; left|].
  exists st, st'. split; [exact Hr|exact E].
Defined.

Definition has_result (clock : nat -> Z) (e : env) (type : Z) (st : wakelocks) : Prop :=
  let c := core_of st in
  exists st' r, has_wake_lock clock e type st = Some (st', r) /\ wf (core_of st') /\ framed type c (core_of st') /\
    (if existsb (fun i => negb (timed c i)) (active_wake_locks st type) then core_of st' = c /\ r = -1
     else r = longest (jiffies e) c (active_wake_locks st type) /\
       active_wake_locks st' type = filter (fun i => 0 < left_ (jiffies e) c i) (active_wake_locks st type)).

Lemma has_result_ok clock e type st : wf (core_of st) -> 0 <= type < WAKE_LOCK_TYPE_COUNT -> has_result clock e type st.
Proof.
  intros Hwf Hty. set (c := core_of st). destruct (has_ok (jiffies e) type c Hwf Hty) as (c' & r & Ec & Hw & Hf & H). unfold c in Ec.
  rewrite <- (has_core clock e type st (wf_present _ Hwf)) in Ec. unfold has_result, has_wake_lock.
  destruct (has_wake_lock_locked clock e type st) as [[st' r']|]; [|done].
  apply (inj Some) in Ec. unfold cz in Ec. cbn [fst snd] in Ec. injection Ec as Ec ->. exists st', r. rewrite Ec. split_and!; try done.
  change (c_active c type) with (active_wake_locks st type) in H. fold c. destruct (existsb _ _); [done|]. rewrite <- Ec in H.
  change (c_active (core_of st') type) with (active_wake_locks st' type) in H. tauto.
Qed.

(** C29: the answer of has_wake_lock, as its header comment promises: -1 when a lock
    without a time-out is held, else the longest time left, 0 when nothing is held;
    expired locks are released on the way.  The last check before the phone
    suspends answers 0 exactly when every held lock has expired, and then none is
    left. *)
Theorem has_wake_lock_correct clock s e type : wreach clock s -> jiffies e = u32 (w_now s) ->
  0 <= type < WAKE_LOCK_TYPE_COUNT -> let c := core_of (w_st s) in
  has_result clock e type (w_st s) /\
  (exists st' ret, power_suspend_late clock e (w_st s) = Some (st', ret) /\
     (ret = 0 /\ active_suspend st' = [] /\
        (forall i, i ∈ active_suspend (w_st s) -> timed c i = true /\ left_ (jiffies e) c i <= 0) \/
      ret = - EAGAIN /\
        exists i, i ∈ active_suspend (w_st s) /\ (timed c i = false \/ 0 < left_ (jiffies e) c i))).
Proof.
  intros Hr Hj Ht c. destruct (wreach_inv clock s Hr) as (Hwf & _).
  split; [by apply has_result_ok|].
  destruct (has_result_ok clock e WAKE_LOCK_SUSPEND _ Hwf suspend_type) as (st' & r & E & _ & _ & Hd). fold c in Hd. unfold power_suspend_late. rewrite E.
  cbn [mbind option_bind]. eexists _, _. split; [reflexivity|]. change (active_wake_locks ?x WAKE_LOCK_SUSPEND) with (active_suspend x) in *.
  pose proof (existsb_untimed c) as Hex. change (c_active c WAKE_LOCK_SUSPEND) with (active_suspend (w_st s)) in Hex. destruct (existsb _ _) eqn:Eb.
  - destruct Hd as [_ ->]. right. split; [done|]. destruct (proj1 Hex eq_refl) as (i & Hi & Hn). eauto.
  - destruct Hd as [-> Ea]. destruct (longest_ge (jiffies e) c (active_suspend (w_st s))) as [Hr0 Hle].
    assert (Htd : forall i, i ∈ active_suspend (w_st s) -> timed c i = true).
    { intros i Hi. destruct (timed c i) eqn:Etd; [done|]. assert (Hu : untimed_held c) by (exists i; done). apply Hex in Hu. done. }
    destruct (Z.eqb_spec (longest (jiffies e) c (active_suspend (w_st s))) 0) as [E0|E0]; cbn [negb].
    + left. split; [done|]. split; [cbn; rewrite Ea; by apply longest_zero|]. intros i Hi. split; [by apply Htd|]. specialize (Hle i Hi). lia.
    + right. split; [done|]. clear -E0. induction (active_suspend (w_st s)) as [|x l IH]; [done|]. cbn [longest foldr] in E0.
      fold (longest (jiffies e) c l) in E0. destruct (Z_lt_le_dec 0 (left_ (jiffies e) c x)); [exists x; split; [left|by right]|].
      destruct IH as (i & Hi & H); [destruct (longest_ge (jiffies e) c l); lia|]. exists i. split; [by right|done].
Qed.

Lemma has_wake_lock_correct_witness :
  exists st st', wreach (fun _ => 0) (mk_wsys st 0 WIdle) /\ power_suspend_late (fun _ => 0) demo_env st = Some (st', - EAGAIN).
Proof.
  destruct demo_reach as (st & Hr & Hs).
  destruct (has_wake_lock_correct (fun _ => 0) (mk_wsys st 0 WIdle) demo_env WAKE_LOCK_SUSPEND Hr eq_refl suspend_type)
    as [_ (st' & ret & E & [(_ & _ & H)|[-> _]])]; [|exists st, st'; split; [exact Hr|exact E]].
  exfalso. cbn [w_st] in H. assert (Hm : main_wake_lock ∈ active_suspend st) by (change (main_wake_lock ∈ c_su (core_of st)); rewrite Hs; left).
  destruct (H main_wake_lock Hm) as [Ht _]. rewrite Hs in Ht. discriminate Ht.
Defined.

(** C27: the phone does not stay awake for nothing.  In every reachable state of a run in
    which no lock is destroyed while it is held, a lock without a time-out is held, or the
    expiry timer is pending, or no lock is held and the suspend work is queued or on its way
    into suspend.  (Time-outs and the timer are looked at within 2 ^ 31 jiffies.)  So when the
    last lock is released or expires, a suspend follows.  The code does not enforce that locks
    are released first ([wake_lock_destroy] takes a held lock off its list and starts nothing),
    and then the claim fails: see [destroy_held_stuck]. *)
Theorem wakelock_never_stuck clock s : wreach_released clock s ->
  (exists id l, id ∈ active_suspend (w_st s) /\ locks (w_st s) !! id = Some l /\ has l WAKE_LOCK_AUTO_EXPIRE = false) \/
  expire_timer (w_st s) <> None \/
  active_suspend (w_st s) = [] /\
    (suspend_work (w_st s) = true \/ w_work s = WEnter \/ w_work s = WSuspending (current_event_num (w_st s))).
Proof.
  intros Hr. destruct (wreach_released_inv clock s Hr) as (Hwf & Hl & _). destruct Hl as [(i & Hi & Hn)|Hl]; [left|by right].
  destruct (wf_su _ Hwf i Hi) as (v & Ev & _). pose proof (core_lock_view _ _ _ Ev) as (l & El & <-). exists i, l. split_and!; try done.
  unfold timed in Hn. by rewrite Ev in Hn.
Qed.

(** The main lock is released: the work is queued. *)
Lemma wakelock_never_stuck_witness :
  exists s, wreach_released (fun _ => 0) s /\ active_suspend (w_st s) = [] /\ suspend_work (w_st s) = true.
Proof.
  destruct (demo_reach_of false) as (st & Hr & Hs).
  assert (Hp : present (core_of st)) by (rewrite Hs; apply wf_present, init_wf).
  pose proof (unlock_core (fun _ => 0) demo_env main_wake_lock st Hp) as Hu.
  destruct (wake_unlock (fun _ => 0) demo_env main_wake_lock st) as [st'|] eqn:E; [|rewrite Hs in Hu; vm_compute in Hu; discriminate Hu].
  assert (Hs' : active_suspend st' = []).
  { rewrite Hs in Hu. unfold fmap, option_fmap, option_map in Hu. apply (f_equal (fun o => c_su <$> o)) in Hu. vm_compute in Hu. by injection Hu. }
  assert (Ht : expire_timer st' = None).
  { rewrite Hs in Hu. apply (f_equal (fun o => c_timer <$> o)) in Hu. vm_compute in Hu. by injection Hu. }
  assert (Hr' : wreach_released (fun _ => 0) (mk_wsys st' 0 WIdle)).
  { destruct Hr as (e & st0 & now & Hj & E0 & Hrt). exists e, st0, now. split; [exact Hj|]. split; [exact E0|].
    eapply rtc_r; [exact Hrt|]. apply (ws_unlock _ _ demo_env main_wake_lock); [reflexivity| |exact E]. rewrite Hs. right; right; left. }
  exists (mk_wsys st' 0 WIdle). split; [exact Hr'|]. split; [exact Hs'|].
  destruct (wakelock_never_stuck (fun _ => 0) (mk_wsys st' 0 WIdle) Hr') as [(id & l & Hi & _)|[H|[_ [H|[H|H]]]]]; cbn in *.
  - rewrite Hs' in Hi. by apply elem_of_nil in Hi.
  - by rewrite Ht in H.
  - exact H.
  - discriminate H.
  - discriminate H.
Defined.

(** ** Destroying a held lock *)

(** A driver's lock is taken, user space releases the main lock, and the driver destroys its lock while it is held. *)
Definition destroy_held (clock : nat -> Z) (e : env) : option wakelocks :=
  st ← wakelocks_init clock e;
  st ← wake_lock_init 5 WAKE_LOCK_SUSPEND st;
  st ← wake_lock_internal clock e 5 0 false st;
  st ← wake_unlock clock e main_wake_lock st;
  wake_lock_destroy 5 st.

Lemma destroy_held_reach clock e st : jiffies e = u32 0 -> destroy_held clock e = Some st -> wreach clock (mk_wsys st 0 WIdle).
Proof.
  intros Hj. unfold destroy_held.
  destruct (wakelocks_init clock e) as [s0|] eqn:E0; [|done]. cbn [mbind option_bind].
  assert (H0 : wreach clock (mk_wsys s0 0 WIdle)) by (exists e, s0, 0; done).
  assert (Hstep : forall x y, wreach clock x -> wstep clock true x y -> wreach clock y).
  { intros x y (e' & s' & n & ? & ? & Hr) Hxy. exists e', s', n. split; [done|]. split; [done|]. by eapply rtc_r. }
  destruct (init_state clock e) as (s0' & E0' & Ec). rewrite E0 in E0'. injection E0' as <-.
  destruct (wake_lock_init 5 WAKE_LOCK_SUSPEND s0) as [s1|] eqn:E1; [|done]. cbn [mbind option_bind].
  assert (H1 : wreach clock (mk_wsys s1 0 WIdle)).
  { apply (Hstep _ _ H0). apply (ws_init clock true 5%nat WAKE_LOCK_SUSPEND); [rewrite Ec; by apply (bool_decide_eq_true_1 _)|exact suspend_type|done]. }
  pose proof (proj1 (wreach_inv clock _ H1)) as Hw1. cbn [w_st] in Hw1.
  assert (Hin1 : 5%nat ∈ c_all (core_of s1)).
  { unfold wake_lock_init in E1. case_bool_decide; [done|]. injection E1 as <-. left. }
  destruct (wake_lock_internal clock e 5 0 false s1) as [s2|] eqn:E2; [|done]. cbn [mbind option_bind].
  assert (H2 : wreach clock (mk_wsys s2 0 WIdle)) by (apply (Hstep _ _ H1); by apply (ws_lock clock true e 5%nat 0 false)).
  pose proof (proj1 (wreach_inv clock _ H2)) as Hw2. cbn [w_st] in Hw2.
  destruct (wake_unlock clock e main_wake_lock s2) as [s3|] eqn:E3; [|done]. cbn [mbind option_bind].
  assert (H3 : wreach clock (mk_wsys s3 0 WIdle)).
  { apply (Hstep _ _ H2). apply (ws_unlock clock true e main_wake_lock); [done| |done]. apply (wf_fixed _ Hw2). unfold main_wake_lock, deleted_wake_locks; lia. }
  intros E4. apply (Hstep _ _ H3). apply (ws_destroy clock true 5%nat); [|unfold deleted_wake_locks; lia|done].
  unfold wake_lock_destroy, list_del in E4. destruct (locks (upd_lock 5 _ s3) !! 5%nat); [|done]. cbn [mbind option_bind] in E4.
  case_bool_decide as Hin; [|done]. destruct (negb _) in Hin; exact Hin.
Qed.

(** Destroying a held lock leaves the phone awake: no lock is held, no timer is pending, no work is queued. *)
Theorem destroy_held_stuck : exists s, wreach (fun _ => 0) s /\
  active_suspend (w_st s) = [] /\ expire_timer (w_st s) = None /\ suspend_work (w_st s) = false /\ w_work s = WIdle.
Proof.
  destruct (destroy_held (fun _ => 0) demo_env) as [st|] eqn:E; [|vm_compute in E; discriminate E].
  pose proof (destroy_held_reach (fun _ => 0) demo_env st eq_refl E) as Hr. vm_compute in E. injection E as <-.
  eexists. split; [exact Hr|]. done.
Qed.
