(* ===== verification/Rbtree.v ===== *)
(** Red-black trees: lib/rbtree.c and include/linux/rbtree.h.

    The tree is intrusive: a node is a [struct rb_node] at an address, with the
    parent pointer and the colour packed in one word, and every operation
    rewires nodes in place.  The model keeps the memory of nodes as a map from
    addresses and the root pointer, and a small state monad in which reading or
    writing through a pointer to no node (NULL included) has no result.

    The loops carry fuel; [rb_fuel] relates it to the number of nodes.
    After the code come the functional trees that memory represents, the reading
    and writing of nodes at a place of a tree, the rotations and the red-black
    invariant; RbInsert, RbErase and RbWalk prove the operations. *)
From stdpp Require Import gmap.
From S2P Require Import Prelude.

Local Open Scope kernel_scope.

(** ** The code *)

Definition NULL : Z := 0.
Definition RB_RED : Z := 0.
Definition RB_BLACK : Z := 1.

Record rb_node := RbNode {
  rb_parent_color : Z;
  rb_right : Z;
  rb_left : Z }.

(** The memory of nodes and [root->rb_node]. *)
Record rb_state := RbState {
  rb_mem : gmap Z rb_node;
  rb_root : Z }.

Definition M (A : Type) : Type := rb_state -> option (A * rb_state).
#[export] Instance M_ret : MRet M := fun A a s => Some (a, s).
#[export] Instance M_bind : MBind M :=
  fun A B f m s => match m s with Some (a, s') => f a s' | None => None end.

Definition load (p : Z) : M rb_node := fun s =>
  if p =? NULL then None else match rb_mem s !! p with Some n => Some (n, s) | None => None end.
Definition store (p : Z) (f : rb_node -> rb_node) : M unit := fun s =>
  if p =? NULL then None else
  match rb_mem s !! p with
  | Some n => Some (tt, RbState (<[p := f n]> (rb_mem s)) (rb_root s))
  | None => None
  end.

Definition get_root : M Z := fun s => Some (rb_root s, s).
Definition set_root (p : Z) : M unit := fun s => Some (tt, RbState (rb_mem s) p).
Definition get_left (p : Z) : M Z := n ← load p; mret (rb_left n).
Definition get_right (p : Z) : M Z := n ← load p; mret (rb_right n).
Definition set_left (p q : Z) : M unit :=
  store p (fun n => RbNode (rb_parent_color n) (rb_right n) q).
Definition set_right (p q : Z) : M unit :=
  store p (fun n => RbNode (rb_parent_color n) q (rb_left n)).
Definition get_pc (p : Z) : M Z := n ← load p; mret (rb_parent_color n).
Definition set_pc (p : Z) (f : Z -> Z) : M unit :=
  store p (fun n => RbNode (f (rb_parent_color n)) (rb_right n) (rb_left n)).

(** include/linux/rbtree.h *)
Definition rb_parent (r : Z) : M Z := w ← get_pc r; mret (Z.land w (~u 3)).
Definition rb_color (r : Z) : M Z := w ← get_pc r; mret (Z.land w 1).
Definition rb_is_red (r : Z) : M bool := c ← rb_color r; mret (c =? 0).
Definition rb_is_black (r : Z) : M bool := c ← rb_color r; mret (negb (c =? 0)).
Definition rb_set_red (r : Z) : M unit := set_pc r (fun w => Z.land w (~u 1)).
Definition rb_set_black (r : Z) : M unit := set_pc r (fun w => Z.lor w 1).
Definition rb_set_parent (rb p : Z) : M unit := set_pc rb (fun w => Z.lor (Z.land w 3) p).
Definition rb_set_color (rb color : Z) : M unit :=
  set_pc rb (fun w => Z.lor (Z.land w (~u 1)) color).
Definition RB_EMPTY_NODE (node : Z) : M bool := p ← rb_parent node; mret (p =? node).
Definition RB_CLEAR_NODE (node : Z) : M unit := rb_set_parent node node.

(** The [struct rb_node **] a caller passes: the root pointer or a child field. *)
Inductive rb_link := LinkRoot | LinkLeft (p : Z) | LinkRight (p : Z).

Definition rb_link_node (node parent : Z) (link : rb_link) : M unit :=
  store node (fun _ => RbNode parent NULL NULL);;
  match link with
  | LinkRoot => set_root node
  | LinkLeft p => set_left p node
  | LinkRight p => set_right p node
  end.

(** [if (p) ...] on a pointer. *)
Definition when (b : bool) (m : M unit) : M unit := if b then m else mret tt.
Definition nonnull (p : Z) : bool := negb (p =? NULL).

Definition __rb_rotate_left (node : Z) : M unit :=
  right ← get_right node;
  parent ← rb_parent node;
  rl ← get_left right;
  set_right node rl;;
  when (nonnull rl) (rl ← get_left right; rb_set_parent rl node);;
  set_left right node;;
  rb_set_parent right parent;;
  (if nonnull parent then
     pl ← get_left parent;
     if node =? pl then set_left parent right else set_right parent right
   else set_root right);;
  rb_set_parent node right.

Definition __rb_rotate_right (node : Z) : M unit :=
  left ← get_left node;
  parent ← rb_parent node;
  lr ← get_right left;
  set_left node lr;;
  when (nonnull lr) (lr ← get_right left; rb_set_parent lr node);;
  set_right left node;;
  rb_set_parent left parent;;
  (if nonnull parent then
     pr ← get_right parent;
     if node =? pr then set_right parent left else set_left parent left
   else set_root left);;
  rb_set_parent node left.

(** The body of the loop of [rb_insert_color] on the side where [parent] is the
    left child of [gparent]; the result is the [node] of the next loop test. *)
Definition rb_insert_left (node parent gparent : Z) : M Z :=
  uncle ← get_right gparent;
  ured ← (if nonnull uncle then rb_is_red uncle else mret false);
  if (ured : bool) then
    rb_set_black uncle;; rb_set_black parent;; rb_set_red gparent;; mret gparent
  else
    pr ← get_right parent;
    np ← (if pr =? node then __rb_rotate_left parent;; mret (parent, node)
          else mret (node, parent));
    let '(node, parent) := np in
    rb_set_black parent;; rb_set_red gparent;; __rb_rotate_right gparent;; mret node.

Definition rb_insert_right (node parent gparent : Z) : M Z :=
  uncle ← get_left gparent;
  ured ← (if nonnull uncle then rb_is_red uncle else mret false);
  if (ured : bool) then
    rb_set_black uncle;; rb_set_black parent;; rb_set_red gparent;; mret gparent
  else
    pl ← get_left parent;
    np ← (if pl =? node then __rb_rotate_right parent;; mret (parent, node)
          else mret (node, parent));
    let '(node, parent) := np in
    rb_set_black parent;; rb_set_red gparent;; __rb_rotate_left gparent;; mret node.

Fixpoint rb_insert_loop (fuel : nat) (node : Z) : M unit :=
  match fuel with
  | O => fun _ => None
  | S fuel =>
    parent ← rb_parent node;
    again ← (if nonnull parent then rb_is_red parent else mret false);
    if (again : bool) then
      gparent ← rb_parent parent;
      gl ← get_left gparent;
      node ← (if parent =? gl then rb_insert_left node parent gparent
              else rb_insert_right node parent gparent);
      rb_insert_loop fuel node
    else mret tt
  end.

Definition rb_insert_color (fuel : nat) (node : Z) : M unit :=
  rb_insert_loop fuel node;;
  r ← get_root; rb_set_black r.

(** [!p || rb_is_black(p)] *)
Definition null_or_black (p : Z) : M bool :=
  if nonnull p then rb_is_black p else mret true.

(** The two sides of the loop of [__rb_erase_color]: [inl (node, parent)]
    continues the loop, [inr node] is the [break].  [rb_erase_left_black] is the
    part after the first [if], where the sibling is black. *)
Definition rb_erase_left_black (parent other : Z) : M (Z * Z + Z) :=
  ol ← get_left other;
  lb ← null_or_black ol;
  both ← (if (lb : bool) then r ← get_right other; null_or_black r else mret false);
  if (both : bool) then
    rb_set_red other;; p ← rb_parent parent; mret (inl (parent, p))
  else
    r ← get_right other;
    rb ← null_or_black r;
    other ← (if (rb : bool) then
               o_left ← get_left other;
               when (nonnull o_left) (rb_set_black o_left);;
               rb_set_red other;; __rb_rotate_right other;; get_right parent
             else mret other);
    c ← rb_color parent;
    rb_set_color other c;;
    rb_set_black parent;;
    r ← get_right other;
    when (nonnull r) (rb_set_black r);;
    __rb_rotate_left parent;;
    r ← get_root; mret (inr r).

Definition rb_erase_left (parent : Z) : M (Z * Z + Z) :=
  other ← get_right parent;
  red ← rb_is_red other;
  other ← (if (red : bool) then
             rb_set_black other;; rb_set_red parent;; __rb_rotate_left parent;; get_right parent
           else mret other);
  rb_erase_left_black parent other.

Definition rb_erase_right_black (parent other : Z) : M (Z * Z + Z) :=
  ol ← get_left other;
  lb ← null_or_black ol;
  both ← (if (lb : bool) then r ← get_right other; null_or_black r else mret false);
  if (both : bool) then
    rb_set_red other;; p ← rb_parent parent; mret (inl (parent, p))
  else
    l ← get_left other;
    lb ← null_or_black l;
    other ← (if (lb : bool) then
               o_right ← get_right other;
               when (nonnull o_right) (rb_set_black o_right);;
               rb_set_red other;; __rb_rotate_left other;; get_left parent
             else mret other);
    c ← rb_color parent;
    rb_set_color other c;;
    rb_set_black parent;;
    l ← get_left other;
    when (nonnull l) (rb_set_black l);;
    __rb_rotate_right parent;;
    r ← get_root; mret (inr r).

Definition rb_erase_right (parent : Z) : M (Z * Z + Z) :=
  other ← get_left parent;
  red ← rb_is_red other;
  other ← (if (red : bool) then
             rb_set_black other;; rb_set_red parent;; __rb_rotate_right parent;; get_left parent
           else mret other);
  rb_erase_right_black parent other.

(** The loop gives the [node] it ends with. *)
Fixpoint rb_erase_loop (fuel : nat) (node parent : Z) : M Z :=
  match fuel with
  | O => fun _ => None
  | S fuel =>
    b ← null_or_black node;
    r ← get_root;
    if (b : bool) && negb (node =? r) then
      pl ← get_left parent;
      res ← (if pl =? node then rb_erase_left parent else rb_erase_right parent);
      match res with
      | inl (node, parent) => rb_erase_loop fuel node parent
      | inr node => mret node
      end
    else mret node
  end.

Definition __rb_erase_color (fuel : nat) (node parent : Z) : M unit :=
  node ← rb_erase_loop fuel node parent;
  when (nonnull node) (rb_set_black node).

(** [while ((left = node->rb_left) != NULL) node = left;] *)
Fixpoint go_left (fuel : nat) (node : Z) : M Z :=
  match fuel with
  | O => fun _ => None
  | S fuel => l ← get_left node; if nonnull l then go_left fuel l else mret node
  end.
Fixpoint go_right (fuel : nat) (node : Z) : M Z :=
  match fuel with
  | O => fun _ => None
  | S fuel => r ← get_right node; if nonnull r then go_right fuel r else mret node
  end.

(** Both children present: unlink the successor and put it in the place of
    [node]; the result is [child], [parent] and [color] at the label [color:]. *)
Definition rb_erase_two (fuel : nat) (old : Z) : M (Z * Z * Z) :=
  node ← get_right old;
  node ← go_left fuel node;
  child ← get_right node;
  parent ← rb_parent node;
  color ← rb_color node;
  when (nonnull child) (rb_set_parent child parent);;
  parent ← (if parent =? old then set_right parent child;; mret node
            else set_left parent child;; mret parent);
  w ← get_pc old; set_pc node (fun _ => w);;
  r ← get_right old; set_right node r;;
  l ← get_left old; set_left node l;;
  op ← rb_parent old;
  (if nonnull op then
     opl ← get_left op;
     if opl =? old then set_left op node else set_right op node
   else set_root node);;
  l ← get_left old; rb_set_parent l node;;
  r ← get_right old; when (nonnull r) (rb_set_parent r node);;
  mret (child, parent, color).

(** At most one child: splice [child] in the place of [node]. *)
Definition rb_erase_one (node child : Z) : M (Z * Z * Z) :=
  parent ← rb_parent node;
  color ← rb_color node;
  when (nonnull child) (rb_set_parent child parent);;
  (if nonnull parent then
     pl ← get_left parent;
     if pl =? node then set_left parent child else set_right parent child
   else set_root child);;
  mret (child, parent, color).

Definition rb_erase (fuel : nat) (node : Z) : M unit :=
  l ← get_left node;
  r ← get_right node;
  cpc ← (if negb (nonnull l) then rb_erase_one node r
         else if negb (nonnull r) then rb_erase_one node l
         else rb_erase_two fuel node);
  let '(child, parent, color) := cpc in
  when (color =? RB_BLACK) (__rb_erase_color fuel child parent).

Definition rb_first (fuel : nat) : M Z :=
  n ← get_root;
  if nonnull n then go_left fuel n else mret NULL.
Definition rb_last (fuel : nat) : M Z :=
  n ← get_root;
  if nonnull n then go_right fuel n else mret NULL.

(** [while ((parent = rb_parent(node)) && node == parent->rb_right) node = parent;] *)
Fixpoint up_right (fuel : nat) (node : Z) : M Z :=
  match fuel with
  | O => fun _ => None
  | S fuel =>
    parent ← rb_parent node;
    if nonnull parent then
      pr ← get_right parent;
      if node =? pr then up_right fuel parent else mret parent
    else mret parent
  end.
Fixpoint up_left (fuel : nat) (node : Z) : M Z :=
  match fuel with
  | O => fun _ => None
  | S fuel =>
    parent ← rb_parent node;
    if nonnull parent then
      pl ← get_left parent;
      if node =? pl then up_left fuel parent else mret parent
    else mret parent
  end.

Definition rb_next (fuel : nat) (node : Z) : M Z :=
  p ← rb_parent node;
  if p =? node then mret NULL else
  r ← get_right node;
  if nonnull r then go_left fuel r else up_right fuel node.

Definition rb_prev (fuel : nat) (node : Z) : M Z :=
  p ← rb_parent node;
  if p =? node then mret NULL else
  l ← get_left node;
  if nonnull l then go_right fuel l else up_left fuel node.

Definition rb_replace_node (victim new : Z) : M unit :=
  parent ← rb_parent victim;
  (if nonnull parent then
     pl ← get_left parent;
     if victim =? pl then set_left parent new else set_right parent new
   else set_root new);;
  l ← get_left victim; when (nonnull l) (rb_set_parent l new);;
  r ← get_right victim; when (nonnull r) (rb_set_parent r new);;
  v ← load victim; store new (fun _ => v).

(** [*p] through the link. *)
Definition read_link (l : rb_link) : M Z :=
  match l with LinkRoot => get_root | LinkLeft q => get_left q | LinkRight q => get_right q end.

(** Turns enough for any descent and repair in a tree that fits in memory. *)
Definition RB_FUEL : nat := 67.

(** ** The functional trees *)

Inductive color := Red | Black.
Definition cz (c : color) : Z := match c with Red => RB_RED | Black => RB_BLACK end.

Inductive tree := E | T (c : color) (l : tree) (x : Z) (r : tree).

Fixpoint ids (t : tree) : list Z :=
  match t with E => [] | T _ l x r => ids l ++ x :: ids r end.
Definition addr (t : tree) : Z := match t with E => NULL | T _ _ x _ => x end.
Fixpoint height (t : tree) : nat :=
  match t with E => O | T _ l _ r => S (Nat.max (height l) (height r)) end.

(** Contexts, innermost frame first: [FL c x r] has the hole on the left of [x]. *)
Inductive frame := FL (c : color) (x : Z) (r : tree) | FR (c : color) (l : tree) (x : Z).
Definition fid (f : frame) : Z := match f with FL _ x _ => x | FR _ _ x => x end.
Definition fill (f : frame) (t : tree) : tree :=
  match f with FL c x r => T c t x r | FR c l x => T c l x t end.
Fixpoint plug (k : list frame) (t : tree) : tree :=
  match k with [] => t | f :: k => plug k (fill f t) end.
Definition par (k : list frame) : Z := match k with [] => NULL | f :: _ => fid f end.
Fixpoint before (k : list frame) : list Z :=
  match k with [] => [] | FL _ _ _ :: k => before k | FR _ l x :: k => before k ++ ids l ++ [x] end.
Fixpoint after (k : list frame) : list Z :=
  match k with [] => [] | FL _ x r :: k => (x :: ids r) ++ after k | FR _ _ _ :: k => after k end.

Lemma ids_plug k t : ids (plug k t) = before k ++ ids t ++ after k.
Proof.
  revert t. induction k as [|[c x r|c l x] k IH]; intros t; cbn [plug before after].
  - by rewrite app_nil_r.
  - rewrite IH. cbn [fill ids]. by rewrite <- !app_assoc.
  - rewrite IH. cbn [fill ids]. by rewrite <- !app_assoc.
Qed.

(** An address a node can have: not NULL, a multiple of 4, 32 bits. *)
Definition node_addr (p : Z) : Prop := 0 < p < 2 ^ 32 /\ p mod 4 = 0.
#[export] Instance node_addr_dec p : Decision (node_addr p).
Proof. unfold node_addr. apply _. Defined.

(** The word that packs a parent pointer and a colour. *)
Definition pcw (p : Z) (c : color) : Z := p + cz c.
Definition okp (p : Z) : Prop := 0 <= p < 2 ^ 32 /\ p mod 4 = 0.

Lemma land_not3 w : 0 <= w < 2 ^ 32 -> Z.land w (~u 3) = w - w mod 4.
Proof. intros H. exact (land_high_mask w 2 32 ltac:(lia) H). Qed.

Lemma land_low q b : 0 <= b < 4 -> Z.land (Z.shiftl q 2) b = 0.
Proof.
  intros Hb. apply Z.bits_inj'. intros n Hn.
  rewrite Z.land_spec, Z.bits_0, Z.shiftl_spec by lia. destruct (Z.ltb_spec n 2).
  - by rewrite (Z.testbit_neg_r _ (n - 2)) by lia.
  - rewrite (Z.bits_above_log2 b n); [apply andb_false_r|lia|].
    destruct (Z.eq_dec b 0) as [->|]; [cbn; lia|]. apply Z.log2_lt_pow2; [lia|].
    apply Z.lt_le_trans with (2 ^ 2); [lia|]. apply Z.pow_le_mono_r; lia.
Qed.

Lemma lor_low p b : p mod 4 = 0 -> 0 <= b < 4 -> Z.lor p b = p + b.
Proof.
  intros Hp Hb.
  replace p with (Z.shiftl (p / 4) 2).
  2:{ rewrite Z.shiftl_mul_pow2 by lia. change (2 ^ 2) with 4. pose proof (Z.div_mod p 4). lia. }
  rewrite <- Z.lxor_lor, <- Z.add_nocarry_lxor by (by apply land_low). done.
Qed.

Lemma cz_bit c : 0 <= cz c < 2.
Proof. destruct c; cbn [cz]; unfold RB_RED, RB_BLACK; lia. Qed.

Lemma pcw_mod4 p c : p mod 4 = 0 -> (pcw p c) mod 4 = cz c.
Proof. intros. pose proof (cz_bit c). unfold pcw. Z.to_euclidean_division_equations; lia. Qed.

Lemma pcw_range p c : okp p -> 0 <= pcw p c < 2 ^ 32.
Proof. intros [? ?]. pose proof (cz_bit c). unfold pcw. Z.to_euclidean_division_equations; lia. Qed.

Lemma pcw_parent p c : okp p -> Z.land (pcw p c) (~u 3) = p.
Proof.
  intros H. rewrite land_not3 by by apply pcw_range. rewrite pcw_mod4 by apply H. unfold pcw. lia.
Qed.

Lemma land1 w : Z.land w 1 = w mod 2.
Proof. apply (Z.land_ones w 1). lia. Qed.
Lemma land3 w : Z.land w 3 = w mod 4.
Proof. apply (Z.land_ones w 2). lia. Qed.

Lemma pcw_color p c : okp p -> Z.land (pcw p c) 1 = cz c.
Proof.
  intros [? ?]. rewrite land1. pose proof (cz_bit c). unfold pcw.
  Z.to_euclidean_division_equations; lia.
Qed.

Lemma pcw_set_parent p q c : okp p -> okp q -> Z.lor (Z.land (pcw p c) 3) q = pcw q c.
Proof.
  intros [? ?] [? ?]. pose proof (cz_bit c).
  rewrite land3, pcw_mod4, Z.lor_comm, lor_low by (done || lia). done.
Qed.

Lemma land_not1 p c : okp p -> Z.land (pcw p c) (~u 1) = p.
Proof.
  intros H. pose proof (pcw_range p c H). pose proof (cz_bit c). destruct H as [? ?].
  change (~u 1) with (Z.lor (~u 3) 2). rewrite Z.land_lor_distr_r, land_not3 by done.
  rewrite pcw_mod4 by done.
  assert (Z.land (pcw p c) 2 = 0) as ->.
  { apply Z.bits_inj'. intros n Hn. rewrite Z.land_spec, Z.bits_0.
    destruct (Z.eq_dec n 1) as [->|].
    - assert (Z.testbit (pcw p c) 1 = false) as ->; [|done].
      rewrite Z.testbit_eqb by lia. unfold pcw. apply Z.eqb_neq.
      Z.to_euclidean_division_equations; lia.
    - change 2 with (2 ^ 1). rewrite Z.pow2_bits_false by lia. apply andb_false_r. }
  rewrite Z.lor_0_r. unfold pcw. lia.
Qed.

Lemma pcw_set_color p c d : okp p -> Z.lor (Z.land (pcw p c) (~u 1)) (cz d) = pcw p d.
Proof.
  intros H. rewrite land_not1 by done. pose proof (cz_bit d).
  apply lor_low; [apply H|lia].
Qed.

Lemma pcw_set_red p c : okp p -> Z.land (pcw p c) (~u 1) = pcw p Red.
Proof. intros. rewrite land_not1 by done. unfold pcw. cbn [cz]. unfold RB_RED. lia. Qed.

Lemma pcw_set_black p c : okp p -> Z.lor (pcw p c) 1 = pcw p Black.
Proof.
  intros H. unfold pcw. destruct c; cbn [cz]; unfold RB_RED, RB_BLACK.
  - rewrite Z.add_0_r. apply lor_low; [apply H|lia].
  - rewrite <- (lor_low p 1) by (apply H || lia). by rewrite <- Z.lor_assoc.
Qed.

(** ** Memory that represents a tree *)

Fixpoint repr (h : gmap Z rb_node) (p : Z) (t : tree) : Prop :=
  match t with
  | E => True
  | T c l x r =>
    h !! x = Some (RbNode (pcw p c) (addr r) (addr l)) /\ repr h x l /\ repr h x r
  end.

(** The frame [f] under the context [k] with [a] in its hole. *)
Definition fnode (k : list frame) (f : frame) (a : Z) : rb_node :=
  match f with
  | FL c x r => RbNode (pcw (par k) c) (addr r) a
  | FR c l x => RbNode (pcw (par k) c) a (addr l)
  end.
Definition side (f : frame) : tree := match f with FL _ _ r => r | FR _ l _ => l end.
Fixpoint reprc (h : gmap Z rb_node) (k : list frame) (a : Z) : Prop :=
  match k with
  | [] => True
  | f :: k => h !! fid f = Some (fnode k f a) /\ repr h (fid f) (side f) /\ reprc h k (fid f)
  end.

Lemma repr_plug h k t :
  repr h NULL (plug k t) <-> reprc h k (addr t) /\ repr h (par k) t.
Proof.
  revert t. induction k as [|f k IH]; intros t; cbn [plug reprc par]; [tauto|].
  rewrite IH. destruct f; cbn [fill repr fid fnode side addr]; tauto.
Qed.

Fixpoint rootc (k : list frame) (a : Z) : Z :=
  match k with [] => a | f :: k => rootc k (fid f) end.
Lemma addr_plug k t : addr (plug k t) = rootc k (addr t).
Proof. revert t. induction k as [|f k IH]; intros t; [done|]. cbn [plug rootc]. rewrite IH. by destruct f. Qed.

Lemma repr_ext h h' p t :
  (forall y, y ∈ ids t -> h' !! y = h !! y) -> repr h p t -> repr h' p t.
Proof.
  revert p. induction t as [|c l IHl x r IHr]; intros p H; [done|].
  cbn [repr ids] in *. intros (Hx & Hl & Hr). repeat split.
  - rewrite H; [done|set_solver].
  - apply IHl; [|done]. intros; apply H; set_solver.
  - apply IHr; [|done]. intros; apply H; set_solver.
Qed.

Lemma reprc_ext h h' k a :
  (forall y, y ∈ before k ++ after k -> h' !! y = h !! y) -> reprc h k a -> reprc h' k a.
Proof.
  revert a. induction k as [|f k IH]; intros a H; [done|].
  cbn [reprc]. intros (Hx & Hs & Hk). repeat split.
  - rewrite H; [done|]. destruct f; set_solver.
  - eapply repr_ext; [|done]. intros; apply H. destruct f; set_solver.
  - apply IH; [|done]. intros; apply H. destruct f; set_solver.
Qed.

(** [reps bg s t]: the state [s] holds exactly the tree [t]; memory that is not
    in the tree is as in [bg]. *)
Record reps (bg : gmap Z rb_node) (s : rb_state) (t : tree) : Prop := {
  rs_repr : repr (rb_mem s) NULL t;
  rs_root : rb_root s = addr t;
  rs_nodup : NoDup (ids t);
  rs_addr : Forall node_addr (ids t);
  rs_bg : forall y, y ∉ ids t -> rb_mem s !! y = bg !! y }.

(** The memory and the root after the pointer to the hole of [k] becomes [a]. *)
Definition relink (k : list frame) (a : Z) (s : rb_state) : rb_state :=
  match k with
  | [] => RbState (rb_mem s) a
  | f :: k' => RbState (<[fid f := fnode k' f a]> (rb_mem s)) (rb_root s)
  end.

Lemma relink_mem k a s y :
  rb_mem (relink k a s) !! y =
    match k with f :: k' => if decide (y = fid f) then Some (fnode k' f a) else rb_mem s !! y
               | [] => rb_mem s !! y end.
Proof.
  destruct k as [|f k]; [done|]. cbn [relink rb_mem].
  case_decide; subst; [by rewrite lookup_insert_eq|by rewrite lookup_insert_ne].
Qed.

(** [nodup] reads a [NoDup] of concatenations in the context as facts about membership. *)
Ltac nodup := repeat match goal with
  | H : NoDup (_ ++ _) |- _ => apply NoDup_app in H as (? & ? & ?)
  | H : NoDup (_ :: _) |- _ => apply NoDup_cons in H as [? ?]
  end.

Lemma frame_fresh f k l :
  NoDup (before (f :: k) ++ l ++ after (f :: k)) ->
  (fid f ∉ before k ++ after k) /\ (fid f ∉ ids (side f)) /\ (fid f ∉ l) /\
  (forall y, y ∈ ids (side f) -> y ∉ l).
Proof. destruct f; cbn [before after fid side]; intros H; nodup; set_solver. Qed.

(** Replacing the subtree in the hole: the frame of every tree operation. *)
Lemma reps_update bg bg' s k t t' h :
  reps bg s (plug k t) ->
  NoDup (before k ++ ids t' ++ after k) ->
  Forall node_addr (ids t') ->
  (forall y, y ∈ before k ++ after k -> h !! y = rb_mem s !! y) ->
  (forall y, y ∉ before k ++ ids t' ++ after k -> h !! y = bg' !! y) ->
  repr h (par k) t' ->
  reps bg' (relink k (addr t') (RbState h (rb_root s))) (plug k t').
Proof.
  intros [Hr Hroot Hnd Ha Hbg] Hnd' Ha' Hh Hbg' Ht'.
  rewrite ids_plug in Hnd, Ha, Hbg. rewrite addr_plug in Hroot.
  apply repr_plug in Hr as [Hk Ht].
  assert (Hk' : reprc h k (addr t)) by (by eapply reprc_ext).
  split; rewrite ?ids_plug, ?addr_plug.
  - apply repr_plug. destruct k as [|f k]; [by split|].
    apply frame_fresh in Hnd' as (Hf1 & Hf2 & Hf3 & _).
    destruct Hk' as (Hx & Hs & Hk'). split; [split; [|split]|].
    + rewrite relink_mem. by rewrite decide_True.
    + eapply repr_ext; [|done]. intros y Hy. by rewrite relink_mem, decide_False by congruence.
    + eapply reprc_ext; [|done]. intros y Hy. by rewrite relink_mem, decide_False by congruence.
    + eapply repr_ext; [|done]. intros y Hy. by rewrite relink_mem, decide_False by congruence.
  - destruct k; done.
  - done.
  - rewrite !Forall_app in *. tauto.
  - intros y Hy. rewrite relink_mem. destruct k as [|f k]; [by apply Hbg'|].
    rewrite decide_False; [by apply Hbg'|]. intros ->. destruct f; set_solver.
Qed.

(** The same nodes in a new shape. *)
Lemma reps_reshape bg s k t t' h :
  reps bg s (plug k t) -> ids t' = ids t ->
  (forall y, y ∉ ids t -> h !! y = rb_mem s !! y) ->
  repr h (par k) t' ->
  reps bg (relink k (addr t') (RbState h (rb_root s))) (plug k t').
Proof.
  intros Hs Hi Hh Ht. pose proof Hs as [_ _ Hnd Ha Hbg]. rewrite ids_plug in *.
  eapply reps_update; [apply Hs|..]; rewrite ?Hi; try done.
  - rewrite !Forall_app in Ha. tauto.
  - intros y Hy. apply Hh. nodup. set_solver.
  - intros y Hy. rewrite Hh by set_solver. by apply Hbg.
Qed.

(** ** Running the code on a represented tree *)

Lemma run_bind {A B} (m : M A) (f : A -> M B) s a s' :
  m s = Some (a, s') -> (m ≫= f) s = f a s'.
Proof. intros H. unfold mbind, M_bind. by rewrite H. Qed.

Lemma load_ok p n s : p <> NULL -> rb_mem s !! p = Some n -> load p s = Some (n, s).
Proof. intros Hp H. unfold load. rewrite (proj2 (Z.eqb_neq p NULL) Hp), H. done. Qed.

Lemma store_ok p n f s :
  p <> NULL -> rb_mem s !! p = Some n ->
  store p f s = Some (tt, RbState (<[p := f n]> (rb_mem s)) (rb_root s)).
Proof. intros Hp H. unfold store. rewrite (proj2 (Z.eqb_neq p NULL) Hp), H. done. Qed.

Lemma node_addr_ok p : node_addr p -> okp p /\ p <> NULL.
Proof. unfold node_addr, okp, NULL. lia. Qed.

(** The node at the hole of a context. *)
Section at_node.
Context (bg : gmap Z rb_node) (s : rb_state) (k : list frame).
Context (c : color) (l : tree) (x : Z) (r : tree).
Hypothesis Hs : reps bg s (plug k (T c l x r)).

Lemma at_addr : node_addr x.
Proof.
  pose proof (rs_addr _ _ _ Hs) as H. rewrite ids_plug, !Forall_app in H.
  cbn [ids] in H. rewrite Forall_app, Forall_cons in H. tauto.
Qed.

Lemma at_nonnull : x <> NULL.
Proof. apply (node_addr_ok x at_addr). Qed.

Lemma at_par : okp (par k).
Proof.
  pose proof (rs_addr _ _ _ Hs) as H. rewrite ids_plug, !Forall_app in H.
  destruct k as [|[] ?]; cbn [par fid]; [by split; unfold NULL|..];
    cbn [before after] in H; apply node_addr_ok; rewrite ?Forall_app, ?Forall_cons in H; tauto.
Qed.

Lemma at_lookup : rb_mem s !! x = Some (RbNode (pcw (par k) c) (addr r) (addr l)).
Proof. pose proof (rs_repr _ _ _ Hs) as H. apply repr_plug in H as [_ H]. apply H. Qed.

Lemma at_load : load x s = Some (RbNode (pcw (par k) c) (addr r) (addr l), s).
Proof. apply load_ok; [apply at_nonnull|apply at_lookup]. Qed.

Lemma at_left : get_left x s = Some (addr l, s).
Proof. unfold get_left. by rewrite (run_bind _ _ _ _ _ at_load). Qed.
Lemma at_right : get_right x s = Some (addr r, s).
Proof. unfold get_right. by rewrite (run_bind _ _ _ _ _ at_load). Qed.
Lemma at_pc : get_pc x s = Some (pcw (par k) c, s).
Proof. unfold get_pc. by rewrite (run_bind _ _ _ _ _ at_load). Qed.
Lemma at_parent : rb_parent x s = Some (par k, s).
Proof.
  unfold rb_parent. rewrite (run_bind _ _ _ _ _ at_pc), pcw_parent by apply at_par. done.
Qed.
Lemma at_color : rb_color x s = Some (cz c, s).
Proof.
  unfold rb_color. rewrite (run_bind _ _ _ _ _ at_pc), pcw_color by apply at_par. done.
Qed.
Lemma at_is_red : rb_is_red x s = Some (match c with Red => true | Black => false end, s).
Proof. unfold rb_is_red. rewrite (run_bind _ _ _ _ _ at_color). by destruct c. Qed.
Lemma at_is_black : rb_is_black x s = Some (match c with Red => false | Black => true end, s).
Proof. unfold rb_is_black. rewrite (run_bind _ _ _ _ _ at_color). by destruct c. Qed.

Lemma at_set_pc f d :
  f (pcw (par k) c) = pcw (par k) d ->
  exists s', set_pc x f s = Some (tt, s') /\ reps bg s' (plug k (T d l x r)).
Proof.
  intros Hf. unfold set_pc. rewrite (store_ok _ _ _ _ at_nonnull at_lookup).
  eexists; split; [done|]. cbn [rb_parent_color rb_right rb_left]. rewrite Hf.
  pose proof (rs_nodup _ _ _ Hs) as Hnd. rewrite ids_plug in Hnd.
  pose proof (rs_addr _ _ _ Hs) as Ha. rewrite ids_plug in Ha.
  pose proof (rs_bg _ _ _ Hs) as Hbg. rewrite ids_plug in Hbg.
  pose proof (rs_repr _ _ _ Hs) as Hr. apply repr_plug in Hr as (Hk & _ & Hl & Hr).
  set (h := <[x := _]> (rb_mem s)).
  assert (Hh : forall y, y <> x -> h !! y = rb_mem s !! y).
  { intros y Hy. unfold h. by rewrite lookup_insert_ne. }
  assert (Hi : forall y, y ∈ before k ++ after k \/ y ∈ ids l ++ ids r -> y <> x).
  { intros y Hy ->. cbn [ids] in Hnd. nodup. set_solver. }
  replace (RbState h (rb_root s)) with
    (relink k (addr (T d l x r)) (RbState h (rb_root s))).
  - eapply reps_update; [apply Hs|done| | | |].
    + rewrite !Forall_app in Ha. tauto.
    + intros y Hy. apply Hh, Hi. by left.
    + intros y Hy. rewrite Hh; [by apply Hbg|]. intros ->. set_solver.
    + cbn [repr]. split; [unfold h; by rewrite lookup_insert_eq|]. split.
      * eapply repr_ext; [|done]. intros y Hy. apply Hh, Hi. set_solver.
      * eapply repr_ext; [|done]. intros y Hy. apply Hh, Hi. set_solver.
  - destruct k as [|fr k']; cbn [relink rb_mem rb_root addr].
    + f_equal. symmetry. apply (rs_root _ _ _ Hs).
    + f_equal. apply insert_id. destruct Hk as (Hx & _). rewrite Hh; [done|].
      apply Hi. left. destruct fr; cbn; set_solver.
Qed.

Lemma at_set_red : exists s', rb_set_red x s = Some (tt, s') /\ reps bg s' (plug k (T Red l x r)).
Proof. apply at_set_pc, pcw_set_red, at_par. Qed.
Lemma at_set_black :
  exists s', rb_set_black x s = Some (tt, s') /\ reps bg s' (plug k (T Black l x r)).
Proof. apply at_set_pc, pcw_set_black, at_par. Qed.
Lemma at_set_color d :
  exists s', rb_set_color x (cz d) s = Some (tt, s') /\ reps bg s' (plug k (T d l x r)).
Proof. apply at_set_pc, pcw_set_color, at_par. Qed.
End at_node.

(** Field accesses on a known node. *)
Section fields.
Context (p : Z) (n : rb_node) (s : rb_state).
Hypothesis (Hp : p <> NULL) (Hn : rb_mem s !! p = Some n).

Lemma get_left_ok : get_left p s = Some (rb_left n, s).
Proof. unfold get_left. by rewrite (run_bind _ _ _ _ _ (load_ok _ _ _ Hp Hn)). Qed.
Lemma get_right_ok : get_right p s = Some (rb_right n, s).
Proof. unfold get_right. by rewrite (run_bind _ _ _ _ _ (load_ok _ _ _ Hp Hn)). Qed.
Lemma get_pc_ok : get_pc p s = Some (rb_parent_color n, s).
Proof. unfold get_pc. by rewrite (run_bind _ _ _ _ _ (load_ok _ _ _ Hp Hn)). Qed.
Lemma rb_parent_ok q c : rb_parent_color n = pcw q c -> okp q -> rb_parent p s = Some (q, s).
Proof. intros Hw Hq. unfold rb_parent. rewrite (run_bind _ _ _ _ _ get_pc_ok), Hw, pcw_parent; done. Qed.
Lemma rb_color_ok q c : rb_parent_color n = pcw q c -> okp q -> rb_color p s = Some (cz c, s).
Proof. intros Hw Hq. unfold rb_color. rewrite (run_bind _ _ _ _ _ get_pc_ok), Hw, pcw_color; done. Qed.
Lemma set_left_ok q :
  set_left p q s = Some (tt, RbState (<[p := RbNode (rb_parent_color n) (rb_right n) q]> (rb_mem s)) (rb_root s)).
Proof. unfold set_left, set_right. by rewrite (store_ok _ _ _ _ Hp Hn). Qed.
Lemma set_right_ok q :
  set_right p q s = Some (tt, RbState (<[p := RbNode (rb_parent_color n) q (rb_left n)]> (rb_mem s)) (rb_root s)).
Proof. unfold set_left, set_right. by rewrite (store_ok _ _ _ _ Hp Hn). Qed.
Lemma rb_set_parent_ok q q' c :
  rb_parent_color n = pcw q c -> okp q -> okp q' ->
  rb_set_parent p q' s = Some (tt, RbState (<[p := RbNode (pcw q' c) (rb_right n) (rb_left n)]> (rb_mem s)) (rb_root s)).
Proof.
  intros Hw Hq Hq'. unfold rb_set_parent, set_pc. rewrite (store_ok _ _ _ _ Hp Hn), Hw.
  by rewrite pcw_set_parent.
Qed.
End fields.

(** A subtree given a new parent. *)
Definition adopt (t : tree) (p : Z) (h : gmap Z rb_node) : gmap Z rb_node :=
  match t with E => h | T c l z r => <[z := RbNode (pcw p c) (addr r) (addr l)]> h end.

Lemma adopt_out t p h y : y ∉ ids t -> adopt t p h !! y = h !! y.
Proof. destruct t; [done|]. cbn. intros. rewrite lookup_insert_ne; [done|set_solver]. Qed.

Lemma adopt_repr t p q h : NoDup (ids t) -> repr h q t -> repr (adopt t p h) p t.
Proof.
  destruct t as [|c l z r]; [done|]. cbn [ids repr adopt]. intros Hnd (_ & Hl & Hr).
  nodup. split; [by rewrite lookup_insert_eq|].
  split; (eapply repr_ext; [|done]); intros; rewrite lookup_insert_ne; set_solver.
Qed.

Lemma adopt_ok t p q s :
  repr (rb_mem s) q t -> okp q -> okp p -> Forall node_addr (ids t) ->
  when (nonnull (addr t)) (rb_set_parent (addr t) p) s =
    Some (tt, RbState (adopt t p (rb_mem s)) (rb_root s)).
Proof.
  destruct t as [|c l z r]; cbn [repr addr ids adopt].
  - intros. by destruct s.
  - intros (Hz & _) Hq Hp Ha. rewrite Forall_app, Forall_cons in Ha.
    destruct Ha as (_ & Ha & _). apply node_addr_ok in Ha as [_ Ha].
    unfold when, nonnull. rewrite (proj2 (Z.eqb_neq z NULL) Ha). cbn [negb].
    by rewrite (rb_set_parent_ok z _ s Ha Hz q p c).
Qed.

(** The pointer to the hole is found by comparing the parent's children. *)
Record link_ok (h : gmap Z rb_node) (k : list frame) (a : Z) : Prop := {
  lk_node : match k with [] => True | f :: k' => h !! fid f = Some (fnode k' f a) end;
  lk_par : Forall (fun f => fid f <> NULL) k;
  lk_side : match k with [] => True | f :: _ => addr (side f) <> a end }.

Lemma relink_left h k a b s :
  h = rb_mem s -> link_ok h k a ->
  (if nonnull (par k) then
     pl ← get_left (par k); if a =? pl then set_left (par k) b else set_right (par k) b
   else set_root b) s = Some (tt, relink k b s).
Proof.
  intros -> [Hn Hp Hs]. destruct k as [|f k]; [done|]. apply Forall_cons in Hp as [Hp _].
  unfold nonnull. cbn [par]. rewrite (proj2 (Z.eqb_neq _ NULL) Hp). cbn [negb].
  rewrite (run_bind _ _ _ _ _ (get_left_ok _ _ _ Hp Hn)).
  destruct f; cbn [fnode rb_left side fid] in *.
  - rewrite Z.eqb_refl. by rewrite (set_left_ok _ _ _ Hp Hn).
  - rewrite (proj2 (Z.eqb_neq a _)) by congruence. by rewrite (set_right_ok _ _ _ Hp Hn).
Qed.

Lemma relink_right h k a b s :
  h = rb_mem s -> link_ok h k a ->
  (if nonnull (par k) then
     pr ← get_right (par k); if a =? pr then set_right (par k) b else set_left (par k) b
   else set_root b) s = Some (tt, relink k b s).
Proof.
  intros -> [Hn Hp Hs]. destruct k as [|f k]; [done|]. apply Forall_cons in Hp as [Hp _].
  unfold nonnull. cbn [par]. rewrite (proj2 (Z.eqb_neq _ NULL) Hp). cbn [negb].
  rewrite (run_bind _ _ _ _ _ (get_right_ok _ _ _ Hp Hn)).
  destruct f; cbn [fnode rb_right side fid] in *.
  - rewrite (proj2 (Z.eqb_neq a _)) by congruence. by rewrite (set_left_ok _ _ _ Hp Hn).
  - rewrite Z.eqb_refl. by rewrite (set_right_ok _ _ _ Hp Hn).
Qed.

Lemma relink_left' h k a b s :
  h = rb_mem s -> link_ok h k a ->
  (if nonnull (par k) then
     pl ← get_left (par k); if pl =? a then set_left (par k) b else set_right (par k) b
   else set_root b) s = Some (tt, relink k b s).
Proof.
  intros Hh Hk. rewrite <- (relink_left h k a b s Hh Hk).
  destruct (nonnull (par k)); [|done]. unfold mbind, M_bind.
  destruct (get_left (par k) s) as [[pl s']|]; [|done]. by rewrite Z.eqb_sym.
Qed.

Lemma relink_insert k a x n s :
  x <> par k \/ k = [] ->
  RbState (<[x := n]> (rb_mem (relink k a s))) (rb_root (relink k a s)) =
  relink k a (RbState (<[x := n]> (rb_mem s)) (rb_root s)).
Proof.
  intros H. destruct k as [|f k]; [done|]. cbn [relink rb_mem rb_root].
  f_equal. apply insert_insert_ne. destruct H; cbn in *; congruence.
Qed.

(** What separates the parts of a represented tree. *)
Lemma reps_link bg s k t h :
  reps bg s (plug k t) -> addr t <> NULL ->
  (forall y, y ∈ before k ++ after k -> h !! y = rb_mem s !! y) -> link_ok h k (addr t).
Proof.
  intros [Hr _ Hnd Ha _] Ht Hh. rewrite ids_plug in Hnd, Ha. apply repr_plug in Hr as [Hk _].
  assert (Hp : Forall (fun f => fid f <> NULL) k).
  { rewrite !Forall_app in Ha. destruct Ha as (Ha1 & _ & Ha2). clear -Ha1 Ha2.
    induction k as [|f k IH]; [constructor|].
    destruct f; cbn [before after] in *; rewrite ?Forall_app, ?Forall_cons in *;
      (constructor; [apply node_addr_ok; tauto|apply IH; tauto]). }
  split; [..|].
  - destruct k as [|f k]; [done|]. rewrite Hh; [apply Hk|]. destruct f; cbn; set_solver.
  - done.
  - destruct k as [|f k]; [done|]. destruct t as [|c l x r]; [done|]. intros He.
    destruct (side f) as [|c' l' x' r'] eqn:Hf; [done|]. cbn [addr] in He. subst x'.
    apply frame_fresh in Hnd as (_ & _ & _ & Hd). apply (Hd x); [rewrite Hf|]; cbn [ids]; set_solver.
Qed.

(** [xr lem] runs the next command by [lem]; [lk] finds a node in updated memory. *)
Ltac ne := first [done | congruence | set_solver].
Ltac lk :=
  cbn [rb_mem rb_root];
  first [ eassumption
        | rewrite lookup_insert_eq; reflexivity
        | rewrite lookup_insert_ne by ne; lk
        | rewrite adopt_out by ne; lk ].
Ltac fld := cbn [rb_left rb_right rb_parent_color rb_mem rb_root].
Ltac xr lem := rewrite (run_bind _ _ _ _ _ lem); fld.

Lemma reps_nodup bg s k t l :
  reps bg s (plug k t) -> ids t ≡ₚ l -> NoDup ((before k ++ after k) ++ l).
Proof.
  intros H Hl. pose proof (rs_nodup _ _ _ H) as Hn. rewrite ids_plug in Hn.
  eapply NoDup_Permutation_proper; [|exact Hn]. rewrite <- Hl. solve_Permutation.
Qed.

Lemma reps_okp bg s k t : reps bg s (plug k t) -> okp (par k) /\ Forall node_addr (ids t).
Proof.
  intros H. pose proof (rs_addr _ _ _ H) as Ha. rewrite ids_plug, !Forall_app in Ha.
  split; [|tauto]. destruct k as [|[] ?]; cbn [par fid]; [by split; unfold NULL|..];
    cbn [before after] in Ha; apply node_addr_ok; rewrite ?Forall_app, ?Forall_cons in Ha; tauto.
Qed.

(** The nodes [x] and [y] of a rotation, with the subtrees [a] and [c] that stay
    and [b] that moves. *)
Record pair_sep (k : list frame) (x y : Z) (a b c : tree) : Prop := {
  ps_x : node_addr x; ps_y : node_addr y; ps_xy : x <> y; ps_b : Forall node_addr (ids b);
  ps_nb : NoDup (ids b);
  ps_xs : x ∉ ids a ++ ids b ++ ids c; ps_ys : y ∉ ids a ++ ids b ++ ids c;
  ps_a : forall z, z ∈ ids a -> z ∉ ids b; ps_c : forall z, z ∈ ids c -> z ∉ ids b;
  ps_k : forall z, z ∈ before k ++ after k -> z <> x /\ z <> y /\ (z ∉ ids b) }.

Lemma reps_pair bg s k t x y a b c :
  reps bg s (plug k t) -> ids t ≡ₚ x :: y :: ids a ++ ids b ++ ids c -> pair_sep k x y a b c.
Proof.
  intros Hs Hp. pose proof (reps_nodup _ _ _ _ _ Hs Hp) as Hnd.
  destruct (reps_okp _ _ _ _ Hs) as [_ Ha]. rewrite Hp in Ha.
  rewrite !Forall_cons, !Forall_app in Ha.
  apply NoDup_app in Hnd as (_ & HdK & Hnd).
  apply NoDup_cons in Hnd as [Hxn Hnd]. apply NoDup_cons in Hnd as [Hyn Hnd].
  apply NoDup_app in Hnd as (Hna & Hdab & Hnd). apply NoDup_app in Hnd as (Hnb & Hdbc & Hnc).
  split; try tauto; try set_solver.
Qed.

(** Memory after a rotation, before the pointer to the pair is moved. *)
Definition rot_mem (x y : Z) (b : tree) (n1 n2 n3 : rb_node) (h : gmap Z rb_node) :=
  <[x := n1]> (<[y := n2]> (adopt b x (<[x := n3]> h))).

Lemma rot_mem_out x y b n1 n2 n3 h z :
  z <> x -> z <> y -> z ∉ ids b -> rot_mem x y b n1 n2 n3 h !! z = h !! z.
Proof.
  intros. unfold rot_mem.
  rewrite lookup_insert_ne, lookup_insert_ne, adopt_out, lookup_insert_ne by done. done.
Qed.

Lemma rot_mem_stay x y b n1 n2 n3 h t q :
  x ∉ ids t -> y ∉ ids t -> (forall z, z ∈ ids t -> z ∉ ids b) ->
  repr h q t -> repr (rot_mem x y b n1 n2 n3 h) q t.
Proof.
  intros H1 H2 H3. apply repr_ext. intros z Hz. apply rot_mem_out; [congruence..|by apply H3].
Qed.

Lemma rot_mem_moved x y b n1 n2 n3 h q :
  x ∉ ids b -> y ∉ ids b -> NoDup (ids b) ->
  repr h q b -> repr (rot_mem x y b n1 n2 n3 h) x b.
Proof.
  intros H1 H2 H3 H. eapply repr_ext; [|apply (adopt_repr b x q (<[x := n3]> h)); [done|]].
  - intros z Hz. unfold rot_mem. rewrite !lookup_insert_ne by congruence. done.
  - eapply repr_ext; [|done]. intros z Hz. rewrite lookup_insert_ne by congruence. done.
Qed.

Lemma par_fresh k x :
  (forall z, z ∈ before k ++ after k -> z <> x) -> x <> par k \/ k = [].
Proof.
  intros HK. destruct k as [|f k]; [by right|left]. intros ->. apply (HK (fid f)); [|done].
  destruct f; cbn; set_solver.
Qed.

Lemma rotate_left_ok bg s k cx cy a b c x y :
  reps bg s (plug k (T cx a x (T cy b y c))) ->
  exists s', __rb_rotate_left x s = Some (tt, s') /\ reps bg s' (plug k (T cy (T cx a x b) y c)).
Proof.
  intros Hs. destruct (reps_okp _ _ _ _ Hs) as [Hp _].
  destruct (reps_pair _ _ _ _ x y a b c Hs ltac:(cbn [ids]; solve_Permutation))
    as [Hx Hy Hxy Hb Hnb Hxs Hys Hda Hdc HK].
  destruct (node_addr_ok x Hx) as [Hx1 Hx0], (node_addr_ok y Hy) as [Hy1 Hy0].
  pose proof (rs_repr _ _ _ Hs) as Hr. apply repr_plug in Hr as (Hk & Hnx & Hra & Hny & Hrb & Hrc).
  cbn [addr] in *.
  unfold __rb_rotate_left.
  xr (get_right_ok x _ s Hx0 Hnx). xr (rb_parent_ok x _ s Hx0 Hnx _ _ eq_refl Hp).
  xr (get_left_ok y _ s Hy0 Hny). xr (set_right_ok x _ s Hx0 Hnx (addr b)).
  set (s1 := RbState _ _).
  assert (Hy_1 : rb_mem s1 !! y = Some (RbNode (pcw x cy) (addr c) (addr b))) by (unfold s1; lk).
  assert (Had : when (nonnull (addr b)) (rl ← get_left y; rb_set_parent rl x) s1 =
    Some (tt, RbState (adopt b x (rb_mem s1)) (rb_root s1))).
  { rewrite <- (adopt_ok b x y s1); [|eapply repr_ext; [|done]|done..].
    - unfold when. destruct (nonnull _); [|done]. by xr (get_left_ok y _ s1 Hy0 Hy_1).
    - intros z Hz. unfold s1; cbn [rb_mem]. rewrite lookup_insert_ne; set_solver. }
  xr Had. erewrite run_bind by (apply set_left_ok; [done|lk]). fld.
  erewrite run_bind by (eapply rb_set_parent_ok; [done|lk|done|done|done]). fld.
  rewrite insert_insert_eq.
  set (s2 := RbState (<[y := _]> _) _).
  erewrite run_bind by
    (eapply (relink_left (rb_mem s2) k x y s2); [done|]; eapply (reps_link _ _ _ _ _ Hs); [done|];
     intros z Hz; apply HK in Hz as (? & ? & ?); unfold s2, s1; cbn [rb_mem];
     rewrite lookup_insert_ne, adopt_out, lookup_insert_ne by done; done).
  assert (Hxk : x <> par k \/ k = []) by (apply par_fresh; intros z Hz; by apply HK).
  assert (Hx_2 : rb_mem (relink k y s2) !! x = Some (RbNode (pcw (par k) cx) (addr b) (addr a))).
  { rewrite relink_mem. destruct k as [|f k'];
      [|rewrite decide_False by (destruct Hxk; done)]; unfold s2, s1; lk. }
  rewrite (rb_set_parent_ok x _ _ Hx0 Hx_2 (par k) y cx eq_refl Hp Hy1). fld.
  eexists; split; [done|]. rewrite relink_insert by done. unfold s2. fld.
  eapply (reps_reshape bg s k _ (T cy (T cx a x b) y c) _ Hs).
  { cbn [ids]. by rewrite <- app_assoc. }
  { intros z Hz. cbn [ids] in Hz. unfold s1. cbn [rb_mem]. apply rot_mem_out; set_solver. }
  unfold s1. cbn [rb_mem repr addr]. repeat split.
  - unfold rot_mem; lk.
  - unfold rot_mem; lk.
  - apply rot_mem_stay; [set_solver..|done].
  - by apply (rot_mem_moved _ _ _ _ _ _ _ y); [set_solver..|].
  - apply rot_mem_stay; [set_solver..|done].
Qed.

Lemma rotate_right_ok bg s k cx cy a b c x y :
  reps bg s (plug k (T cx (T cy c y b) x a)) ->
  exists s', __rb_rotate_right x s = Some (tt, s') /\ reps bg s' (plug k (T cy c y (T cx b x a))).
Proof.
  intros Hs. destruct (reps_okp _ _ _ _ Hs) as [Hp _].
  destruct (reps_pair _ _ _ _ x y a b c Hs ltac:(cbn [ids]; solve_Permutation))
    as [Hx Hy Hxy Hb Hnb Hxs Hys Hda Hdc HK].
  destruct (node_addr_ok x Hx) as [Hx1 Hx0], (node_addr_ok y Hy) as [Hy1 Hy0].
  pose proof (rs_repr _ _ _ Hs) as Hr. apply repr_plug in Hr as (Hk & Hnx & (Hny & Hrc & Hrb) & Hra).
  cbn [addr] in *.
  unfold __rb_rotate_right.
  xr (get_left_ok x _ s Hx0 Hnx). xr (rb_parent_ok x _ s Hx0 Hnx _ _ eq_refl Hp).
  xr (get_right_ok y _ s Hy0 Hny). xr (set_left_ok x _ s Hx0 Hnx (addr b)).
  set (s1 := RbState _ _).
  assert (Hy_1 : rb_mem s1 !! y = Some (RbNode (pcw x cy) (addr b) (addr c))) by (unfold s1; lk).
  assert (Had : when (nonnull (addr b)) (lr ← get_right y; rb_set_parent lr x) s1 =
    Some (tt, RbState (adopt b x (rb_mem s1)) (rb_root s1))).
  { rewrite <- (adopt_ok b x y s1); [|eapply repr_ext; [|done]|done..].
    - unfold when. destruct (nonnull _); [|done]. by xr (get_right_ok y _ s1 Hy0 Hy_1).
    - intros z Hz. unfold s1; cbn [rb_mem]. rewrite lookup_insert_ne; set_solver. }
  xr Had. erewrite run_bind by (apply set_right_ok; [done|lk]). fld.
  erewrite run_bind by (eapply rb_set_parent_ok; [done|lk|done|done|done]). fld.
  rewrite insert_insert_eq.
  set (s2 := RbState (<[y := _]> _) _).
  erewrite run_bind by
    (eapply (relink_right (rb_mem s2) k x y s2); [done|]; eapply (reps_link _ _ _ _ _ Hs); [done|];
     intros z Hz; apply HK in Hz as (? & ? & ?); unfold s2, s1; cbn [rb_mem];
     rewrite lookup_insert_ne, adopt_out, lookup_insert_ne by done; done).
  assert (Hxk : x <> par k \/ k = []) by (apply par_fresh; intros z Hz; by apply HK).
  assert (Hx_2 : rb_mem (relink k y s2) !! x = Some (RbNode (pcw (par k) cx) (addr a) (addr b))).
  { rewrite relink_mem. destruct k as [|f k'];
      [|rewrite decide_False by (destruct Hxk; done)]; unfold s2, s1; lk. }
  rewrite (rb_set_parent_ok x _ _ Hx0 Hx_2 (par k) y cx eq_refl Hp Hy1). fld.
  eexists; split; [done|]. rewrite relink_insert by done. unfold s2. fld.
  eapply (reps_reshape bg s k _ (T cy c y (T cx b x a)) _ Hs).
  { cbn [ids]. by rewrite <- app_assoc. }
  { intros z Hz. cbn [ids] in Hz. unfold s1. cbn [rb_mem]. apply rot_mem_out; set_solver. }
  unfold s1. cbn [rb_mem repr addr]. repeat split.
  - unfold rot_mem; lk.
  - apply rot_mem_stay; [set_solver..|done].
  - unfold rot_mem; lk.
  - by apply (rot_mem_moved _ _ _ _ _ _ _ y); [set_solver..|].
  - apply rot_mem_stay; [set_solver..|done].
Qed.

(** ** The red-black invariant *)

(** [rbt c n t]: [t] has a root of colour [c] ([E] is black), no red node has a
    red child, and every path to a leaf has [n] black nodes. *)
Inductive rbt : color -> nat -> tree -> Prop :=
| rbt_E : rbt Black 0 E
| rbt_red n l x r : rbt Black n l -> rbt Black n r -> rbt Red n (T Red l x r)
| rbt_black c1 c2 n l x r : rbt c1 n l -> rbt c2 n r -> rbt Black (S n) (T Black l x r).

(** [rbc c n k]: the hole of [k] takes a tree of black height [n], of black root
    only when [c] is red (the parent is red, or there is none). *)
Inductive rbc : color -> nat -> list frame -> Prop :=
| rbc_nil n : rbc Red n []
| rbc_FL_red n x r k : rbt Black n r -> rbc Black n k -> rbc Red n (FL Red x r :: k)
| rbc_FR_red n l x k : rbt Black n l -> rbc Black n k -> rbc Red n (FR Red l x :: k)
| rbc_FL_black c c' n x r k : rbt c n r -> rbc c' (S n) k -> rbc Black n (FL Black x r :: k)
| rbc_FR_black c c' n l x k : rbt c n l -> rbc c' (S n) k -> rbc Black n (FR Black l x :: k).

#[export] Hint Constructors rbt rbc : kernel.

(** The whole tree: a black root and the invariant. *)
Definition rb_inv (t : tree) : Prop := exists n, rbt Black n t.

Lemma plug_rb k c n d t :
  rbc c n k -> rbt d n t -> (c = Red -> d = Black) -> rb_inv (plug k t).
Proof.
  intros Hk. revert d t. induction Hk; intros d t Ht Hc; cbn [plug fill].
  - rewrite Hc in Ht by done. by exists n.
  - rewrite Hc in Ht by done. eapply IHHk; [by constructor|done].
  - rewrite Hc in Ht by done. eapply IHHk; [by constructor|done].
  - eapply IHHk; [by econstructor|done].
  - eapply IHHk; [by econstructor|done].
Qed.

Lemma unplug_rb k d n t :
  rbt d n (plug k t) -> exists c d' n', rbt d' n' t /\ (c = Red -> d = Black -> d' = Black) /\
    (d = Black -> rbc c n' k).
Proof.
  revert t. induction k as [|f k IH]; intros t H.
  - exists Red, d, n. split; [done|]. split; [done|]. intros; constructor.
  - cbn [plug] in H. apply IH in H as (c & d' & n' & Ht & Hc & Hk).
    destruct f; cbn [fill] in Ht; inversion Ht; subst.
    + exists Red, Black, n'. split; [done|]. split; [done|]. intros Hd. specialize (Hk Hd).
      destruct c; [naive_solver|]. by constructor.
    + exists Black. eexists _, _. split; [done|]. split; [done|]. intros Hd. by econstructor; eauto.
    + exists Red, Black, n'. split; [done|]. split; [done|]. intros Hd. specialize (Hk Hd).
      destruct c; [naive_solver|]. by constructor.
    + exists Black. eexists _, _. split; [done|]. split; [done|]. intros Hd. by econstructor; eauto.
Qed.

Definition is_red (t : tree) : bool := match t with T Red _ _ _ => true | _ => false end.

Lemma rbt_is_red c n t : rbt c n t -> c = if is_red t then Red else Black.
Proof. by intros []. Qed.

Section at_tree.
Context (bg : gmap Z rb_node) (s : rb_state) (k : list frame) (t : tree).
Hypothesis Hs : reps bg s (plug k t).

Lemma at_null : nonnull (addr t) = match t with E => false | _ => true end.
Proof.
  destruct t as [|c l x r]; [done|]. unfold nonnull. cbn [addr].
  by rewrite (proj2 (Z.eqb_neq x NULL) (at_nonnull _ _ _ _ _ _ _ Hs)).
Qed.
Lemma at_maybe_red :
  (if nonnull (addr t) then rb_is_red (addr t) else mret false) s = Some (is_red t, s).
Proof.
  rewrite at_null. destruct t as [|c l x r]; [done|]. cbn [addr].
  rewrite (at_is_red _ _ _ _ _ _ _ Hs). by destruct c.
Qed.
Lemma at_null_or_black : null_or_black (addr t) s = Some (negb (is_red t), s).
Proof.
  unfold null_or_black. rewrite at_null. destruct t as [|c l x r]; [done|]. cbn [addr].
  rewrite (at_is_black _ _ _ _ _ _ _ Hs). by destruct c.
Qed.
End at_tree.

(** [to H t]: look at [H] with the focus moved to [t] (the whole tree is the same). *)
Ltac focus H k t :=
  let Hf := fresh "Hf" in
  match type of H with reps ?bg ?s _ => pose proof (H : reps bg s (plug k t)) as Hf end.
Tactic Notation "upd" constr(lem) "as" simple_intropattern(s) simple_intropattern(H) :=
  let He := fresh "He" in destruct lem as (s & He & H); xr He; clear He.

Lemma sibling_ne bg s k c1 c2 l x r t y :
  (reps bg s (plug k (T c1 t y (T c2 l x r))) \/ reps bg s (plug k (T c1 (T c2 l x r) y t))) ->
  addr t <> x.
Proof.
  intros H. destruct t as [|d a z b]; cbn [addr].
  - destruct H as [H|H]; intros <-.
    + by apply (at_nonnull bg s (FR c1 E y :: k) _ _ _ _ H).
    + by apply (at_nonnull bg s (FL c1 y E :: k) _ _ _ _ H).
  - destruct H as [H|H]; intros ->; pose proof (rs_nodup _ _ _ H) as Hn;
      rewrite ids_plug in Hn; cbn [ids] in Hn; nodup; set_solver.
Qed.
