(* ===== verification/RbInsert.v ===== *)
(** Insertion in a red-black tree: the cases of the loop of [rb_insert_color], the
    height of a red-black tree, and [rb_link_node] followed by [rb_insert_color]. *)
From stdpp Require Import gmap.
From S2P Require Import Prelude Rbtree.

Local Open Scope kernel_scope.

(** ** Insertion: the cases of the loop *)

Lemma insert_left_recolor bg s k pl p pr g ul z ur x :
  reps bg s (plug k (T Black (T Red pl p pr) g (T Red ul z ur))) ->
  exists s', rb_insert_left x p g s = Some (g, s') /\
    reps bg s' (plug k (T Red (T Black pl p pr) g (T Black ul z ur))).
Proof.
  intros H. unfold rb_insert_left.
  xr (at_right _ _ _ _ _ _ _ H). xr (at_maybe_red bg s (FR Black (T Red pl p pr) g :: k) (T Red ul z ur) H).
  cbn [is_red addr].
  upd (at_set_black bg s (FR Black (T Red pl p pr) g :: k) Red ul z ur H) as s1 H1.
  upd (at_set_black bg s1 (FL Black g (T Black ul z ur) :: k) Red pl p pr H1) as s2 H2.
  upd (at_set_red bg s2 k Black _ g _ H2) as s3 H3. by exists s3.
Qed.

Lemma insert_left_outer bg s k l x r p b g u :
  reps bg s (plug k (T Black (T Red (T Red l x r) p b) g u)) -> is_red u = false ->
  exists s', rb_insert_left x p g s = Some (x, s') /\
    reps bg s' (plug k (T Black (T Red l x r) p (T Red b g u))).
Proof.
  intros H Hu. unfold rb_insert_left.
  xr (at_right _ _ _ _ _ _ _ H).
  xr (at_maybe_red bg s (FR Black (T Red (T Red l x r) p b) g :: k) u H). rewrite Hu.
  xr (at_right bg s (FL Black g u :: k) _ _ p _ H).
  rewrite (proj2 (Z.eqb_neq _ _) (sibling_ne bg s (FL Black g u :: k) _ _ _ _ _ b p (or_intror H))).
  erewrite run_bind by done.
  upd (at_set_black bg s (FL Black g u :: k) Red _ p _ H) as s1 H1.
  upd (at_set_red bg s1 k Black _ g _ H1) as s2 H2.
  upd (rotate_right_ok bg s2 k Red Black u b (T Red l x r) g p H2) as s3 H3. by exists s3.
Qed.

Lemma insert_left_inner bg s k l x r p b g u :
  reps bg s (plug k (T Black (T Red b p (T Red l x r)) g u)) -> is_red u = false ->
  exists s', rb_insert_left x p g s = Some (p, s') /\
    reps bg s' (plug k (T Black (T Red b p l) x (T Red r g u))).
Proof.
  intros H Hu. unfold rb_insert_left.
  xr (at_right _ _ _ _ _ _ _ H).
  xr (at_maybe_red bg s (FR Black (T Red b p (T Red l x r)) g :: k) u H). rewrite Hu.
  xr (at_right bg s (FL Black g u :: k) _ _ p _ H). cbn [addr]. rewrite Z.eqb_refl.
  destruct (rotate_left_ok bg s (FL Black g u :: k) Red Red b l r p x H) as (s1 & He & H1).
  erewrite run_bind by (erewrite run_bind by exact He; done). clear He.
  upd (at_set_black bg s1 (FL Black g u :: k) Red _ x _ H1) as s2 H2.
  upd (at_set_red bg s2 k Black _ g _ H2) as s3 H3.
  upd (rotate_right_ok bg s3 k Red Black u r (T Red b p l) g x H3) as s4 H4. by exists s4.
Qed.

Lemma insert_right_recolor bg s k pl p pr g ul z ur x :
  reps bg s (plug k (T Black (T Red ul z ur) g (T Red pl p pr))) ->
  exists s', rb_insert_right x p g s = Some (g, s') /\
    reps bg s' (plug k (T Red (T Black ul z ur) g (T Black pl p pr))).
Proof.
  intros H. unfold rb_insert_right.
  xr (at_left _ _ _ _ _ _ _ H). xr (at_maybe_red bg s (FL Black g (T Red pl p pr) :: k) (T Red ul z ur) H).
  cbn [is_red addr].
  upd (at_set_black bg s (FL Black g (T Red pl p pr) :: k) Red ul z ur H) as s1 H1.
  upd (at_set_black bg s1 (FR Black (T Black ul z ur) g :: k) Red pl p pr H1) as s2 H2.
  upd (at_set_red bg s2 k Black _ g _ H2) as s3 H3. by exists s3.
Qed.

Lemma insert_right_outer bg s k l x r p b g u :
  reps bg s (plug k (T Black u g (T Red b p (T Red l x r)))) -> is_red u = false ->
  exists s', rb_insert_right x p g s = Some (x, s') /\
    reps bg s' (plug k (T Black (T Red u g b) p (T Red l x r))).
Proof.
  intros H Hu. unfold rb_insert_right.
  xr (at_left _ _ _ _ _ _ _ H).
  xr (at_maybe_red bg s (FL Black g (T Red b p (T Red l x r)) :: k) u H). rewrite Hu.
  xr (at_left bg s (FR Black u g :: k) _ _ p _ H).
  rewrite (proj2 (Z.eqb_neq _ _) (sibling_ne bg s (FR Black u g :: k) _ _ _ _ _ b p (or_introl H))).
  erewrite run_bind by done.
  upd (at_set_black bg s (FR Black u g :: k) Red _ p _ H) as s1 H1.
  upd (at_set_red bg s1 k Black _ g _ H1) as s2 H2.
  upd (rotate_left_ok bg s2 k Red Black u b (T Red l x r) g p H2) as s3 H3. by exists s3.
Qed.

Lemma insert_right_inner bg s k l x r p b g u :
  reps bg s (plug k (T Black u g (T Red (T Red l x r) p b))) -> is_red u = false ->
  exists s', rb_insert_right x p g s = Some (p, s') /\
    reps bg s' (plug k (T Black (T Red u g l) x (T Red r p b))).
Proof.
  intros H Hu. unfold rb_insert_right.
  xr (at_left _ _ _ _ _ _ _ H).
  xr (at_maybe_red bg s (FL Black g (T Red (T Red l x r) p b) :: k) u H). rewrite Hu.
  xr (at_left bg s (FR Black u g :: k) _ _ p _ H). cbn [addr]. rewrite Z.eqb_refl.
  destruct (rotate_right_ok bg s (FR Black u g :: k) Red Red b r l p x H) as (s1 & He & H1).
  erewrite run_bind by (erewrite run_bind by exact He; done). clear He.
  upd (at_set_black bg s1 (FR Black u g :: k) Red _ x _ H1) as s2 H2.
  upd (at_set_red bg s2 k Black _ g _ H2) as s3 H3.
  upd (rotate_left_ok bg s3 k Red Black u l (T Red r p b) g x H3) as s4 H4. by exists s4.
Qed.

(** The loop ends when the parent is black or missing. *)
Lemma insert_stop bg s fuel f k l x r :
  reps bg s (plug (f :: k) (T Red l x r)) -> is_red (fill f E) = false ->
  rb_insert_loop (S fuel) x s = Some (tt, s).
Proof.
  intros H Hf. cbn [rb_insert_loop]. xr (at_parent _ _ _ _ _ _ _ H).
  assert (Ht : exists c l' r', fill f (T Red l x r) = T c l' (fid f) r' /\ c = Black).
  { destruct f as [[]|[]]; cbn [fill fid] in *; naive_solver. }
  destruct Ht as (c & l' & r' & Ht & ->). cbn [par].
  change (plug (f :: k) (T Red l x r)) with (plug k (fill f (T Red l x r))) in H. rewrite Ht in H.
  by xr (at_maybe_red bg s k (T Black l' (fid f) r') H).
Qed.

Lemma insert_stop_root bg s fuel l x r :
  reps bg s (plug [] (T Red l x r)) -> rb_insert_loop (S fuel) x s = Some (tt, s).
Proof. intros H. cbn [rb_insert_loop]. xr (at_parent _ _ _ _ _ _ _ H). done. Qed.

Ltac insert_case lem x' k' n' :=
  destruct lem as (s' & He & H'); exists s', x', k'; eexists _, _, n';
  split; [exact He|]; split; [exact H'|]; split; [cbn; by simplify_list_eq|];
  split; [eauto with kernel|]; split; [eauto with kernel|];
  first [by left | right; eexists; repeat split; eauto with kernel].

(** One turn of the loop: the red node with a red parent moves two levels up, or
    the pair is rotated under a black node and the next test ends the loop. *)
Lemma insert_turn bg s k1 n c g u p b l x r (f1 f2 : bool) :
  rbt c n u -> rbt Black n b -> rbt Black n l -> rbt Black n r ->
  let kp := if f1 then FL Red p b else FR Red b p in
  let kg := if f2 then FL Black g u else FR Black u g in
  reps bg s (plug (kp :: kg :: k1) (T Red l x r)) ->
  exists s' x' k' l' r' n',
    (gl ← get_left g;
     if p =? gl then rb_insert_left x p g else rb_insert_right x p g) s = Some (x', s') /\
    reps bg s' (plug k' (T Red l' x' r')) /\
    before k' ++ ids (T Red l' x' r') ++ after k' =
      before (kp :: kg :: k1) ++ ids (T Red l x r) ++ after (kp :: kg :: k1) /\
    rbt Black n' l' /\ rbt Black n' r' /\
    (k' = k1 /\ n' = S n \/
     exists f, k' = f :: k1 /\ is_red (fill f E) = false /\ n' = n /\
       forall c', rbc c' (S n) k1 -> rbc Black n k').
Proof.
  intros Hu Hb Hl Hr kp kg Hs. pose proof (rbt_is_red _ _ _ Hu) as Hc.
  assert (Hg : (gl ← get_left g;
      if p =? gl then rb_insert_left x p g else rb_insert_right x p g) s =
    (if f2 then rb_insert_left x p g s else rb_insert_right x p g s)).
  { destruct f2.
    - destruct f1; (erewrite run_bind by exact (at_left bg s k1 Black _ g u Hs));
        cbn [addr]; by rewrite Z.eqb_refl.
    - destruct f1; pose proof (sibling_ne bg s k1 _ _ _ _ _ u g (or_introl Hs)) as Hne;
        (erewrite run_bind by exact (at_left bg s k1 Black u g _ Hs));
        by rewrite (proj2 (Z.eqb_neq _ _)) by congruence. }
  rewrite Hg. destruct (is_red u) eqn:Eu.
  - destruct u as [|[] ul z ur]; try done. inversion Hu; subst. destruct f2, f1.
    + insert_case (insert_left_recolor bg s k1 (T Red l x r) p b g ul z ur x Hs) g k1 (S n).
    + insert_case (insert_left_recolor bg s k1 b p (T Red l x r) g ul z ur x Hs) g k1 (S n).
    + insert_case (insert_right_recolor bg s k1 (T Red l x r) p b g ul z ur x Hs) g k1 (S n).
    + insert_case (insert_right_recolor bg s k1 b p (T Red l x r) g ul z ur x Hs) g k1 (S n).
  - subst c. destruct f2, f1.
    + insert_case (insert_left_outer bg s k1 l x r p b g u Hs Eu) x (FL Black p (T Red b g u) :: k1) n.
    + insert_case (insert_left_inner bg s k1 l x r p b g u Hs Eu) p (FL Black x (T Red r g u) :: k1) n.
    + insert_case (insert_right_inner bg s k1 l x r p b g u Hs Eu) p (FR Black (T Red u g l) x :: k1) n.
    + insert_case (insert_right_outer bg s k1 l x r p b g u Hs Eu) x (FR Black (T Red u g b) p :: k1) n.
Qed.

Lemma insert_loop_ok fuel bg s k c n l x r :
  rbc c n k -> rbt Black n l -> rbt Black n r ->
  reps bg s (plug k (T Red l x r)) -> (length k < fuel)%nat ->
  exists s' t' c' n', rb_insert_loop fuel x s = Some (tt, s') /\ reps bg s' t' /\
    ids t' = ids (plug k (T Red l x r)) /\ rbt c' n' t'.
Proof.
  revert s k c n l x r. induction fuel as [|fuel IH]; intros s k c n l x r Hk Hl Hr Hs Hf; [lia|].
  assert (Hstop : c = Black \/ k = [] \/ exists f k1, k = f :: k1 /\ c = Red).
  { destruct c; [|by left]. destruct k; naive_solver. }
  destruct Hstop as [->|[->|(f & k1 & -> & ->)]].
  - destruct (plug_rb _ _ _ Red (T Red l x r) Hk) as [m Hm]; [by constructor|done|].
    exists s, (plug k (T Red l x r)), Black, m. split; [|done].
    inversion Hk; subst; by eapply insert_stop.
  - exists s, (T Red l x r), Red, n. split; [by eapply insert_stop_root|].
    split; [done|]. split; [done|]. by constructor.
  - assert (Hk1 : exists (f1 f2 : bool) p b g u c0 c1 k2,
      f = (if f1 then FL Red p b else FR Red b p) /\
      k1 = (if f2 then FL Black g u else FR Black u g) :: k2 /\
      rbt Black n b /\ rbt c0 n u /\ rbc c1 (S n) k2).
    { inversion Hk as [|? p b ? Hb Hk' |? b p ? Hb Hk'| |]; subst; inversion Hk' as [| | |? ? ? g u k2 |? ? ? u g k2]; subst.
      - exists true, true; naive_solver. - exists true, false; naive_solver.
      - exists false, true; naive_solver. - exists false, false; naive_solver. }
    destruct Hk1 as (f1 & f2 & p & b & g & u & c0 & c1 & k2 & -> & -> & Hb & Hu & Hk2).
    pose proof (insert_turn bg s k2 n c0 g u p b l x r f1 f2 Hu Hb Hl Hr Hs) as Ht.
    cbn zeta in Ht. set (kp := if f1 then _ else _) in *. set (kg := if f2 then _ else _) in *.
    destruct Ht as (s1 & x1 & k3 & l1 & r1 & n1 & He & Hs1 & Hi & Hl1 & Hr1 & Hn).
    assert (Hp : par (kp :: kg :: k2) = p) by (destruct f1; done).
    assert (Hrun : rb_insert_loop (S fuel) x s = rb_insert_loop fuel x1 s1).
    { cbn [rb_insert_loop]. xr (at_parent _ _ _ _ _ _ _ Hs). rewrite Hp.
      assert (Hpp : (if nonnull p then rb_is_red p else mret false) s = Some (true, s) /\
        rb_parent p s = Some (g, s)).
      { destruct f1.
        - split; [apply (at_maybe_red bg s (kg :: k2) (T Red (T Red l x r) p b) Hs)|].
          rewrite (at_parent bg s (kg :: k2) Red _ p _ Hs). by destruct f2.
        - split; [apply (at_maybe_red bg s (kg :: k2) (T Red b p (T Red l x r)) Hs)|].
          rewrite (at_parent bg s (kg :: k2) Red _ p _ Hs). by destruct f2. }
      destruct Hpp as [Hpr Hpg]. xr Hpr. xr Hpg.
      revert He. unfold mbind, M_bind. destruct (get_left g s) as [[gl sg]|]; [|done].
      intros ->. done. }
    rewrite Hrun, !ids_plug. setoid_rewrite <- Hi. cbn [length] in Hf.
    destruct Hn as [[-> ->]|(f & -> & Hfb & -> & Hk3)].
    + rewrite <- ids_plug. eapply (IH s1 k2 c1 (S n)); [done..|lia].
    + rewrite <- ids_plug. eapply (IH s1 (f :: k2) Black n); [by eapply Hk3|done..|cbn; lia].
Qed.

(** ** Height *)

Lemma height_plug k t : (length k + height t <= height (plug k t))%nat.
Proof.
  revert t. induction k as [|f k IH]; intros t; cbn [plug length]; [lia|].
  specialize (IH (fill f t)). destruct f; cbn [fill height] in *; lia.
Qed.

Lemma rbt_height c n t :
  rbt c n t -> (height t <= 2 * n + match c with Red => 1 | Black => 0 end)%nat.
Proof. induction 1; cbn [height]; [lia..|]. destruct c1, c2; lia. Qed.

Lemma rbt_size c n t : rbt c n t -> (2 ^ n <= S (length (ids t)))%nat.
Proof.
  induction 1; cbn [ids]; rewrite ?length_app; cbn [length]; [done|lia|].
  rewrite Nat.pow_succ_r'. lia.
Qed.

Lemma rb_height t : rb_inv t -> (height t <= 2 * Nat.log2 (S (length (ids t))))%nat.
Proof.
  intros [n H]. pose proof (rbt_height _ _ _ H) as Hh. cbn iota in Hh. pose proof (rbt_size _ _ _ H) as Hs.
  apply Nat.log2_le_mono in Hs. rewrite Nat.log2_pow2 in Hs by lia. lia.
Qed.

(** Enough fuel for any loop of the file on a tree of [m] nodes. *)
Definition rb_fuel (m fuel : nat) : Prop := (2 * Nat.log2 (S m) + 3 <= fuel)%nat.

Lemma rb_fuel_depth t fuel k u :
  rb_inv t -> t = plug k u -> rb_fuel (length (ids t)) fuel -> (length k + height u + 3 <= fuel)%nat.
Proof.
  intros Ht -> Hf. pose proof (rb_height _ Ht). pose proof (height_plug k u).
  unfold rb_fuel in Hf. lia.
Qed.

(** 64 iterations and a few are enough for any tree that fits in 32-bit memory. *)
Lemma rb_fuel_enough m : (Z.of_nat m < 2 ^ 32)%Z -> rb_fuel m 67.
Proof.
  intros H. unfold rb_fuel. assert (Nat.log2 (S m) <= 32)%nat; [|lia].
  destruct (Nat.log2_spec (S m)) as [Hl _]; [lia|].
  apply Nat2Z.inj_le in Hl. rewrite Nat2Z.inj_pow in Hl.
  apply Nat2Z.inj_le, (Z.pow_le_mono_r_iff 2); lia.
Qed.

(** ** Insertion *)

(** The link a search that ends at the hole of [k] passes to [rb_link_node]. *)
Definition link_of (k : list frame) : rb_link :=
  match k with
  | [] => LinkRoot
  | FL _ x _ :: _ => LinkLeft x
  | FR _ _ x :: _ => LinkRight x
  end.

Lemma link_node_ok bg s k x :
  reps bg s (plug k E) -> node_addr x -> x ∉ ids (plug k E) -> is_Some (rb_mem s !! x) ->
  exists s', rb_link_node x (par k) (link_of k) s = Some (tt, s') /\
    reps bg s' (plug k (T Red E x E)).
Proof.
  intros Hs Hx Hnx [nd Hnd]. destruct (node_addr_ok x Hx) as [_ Hx0].
  rewrite ids_plug in Hnx. cbn [ids app] in Hnx.
  exists (relink k x (RbState (<[x := RbNode (par k) NULL NULL]> (rb_mem s)) (rb_root s))). split.
  - unfold rb_link_node. xr (store_ok x nd (fun _ => RbNode (par k) NULL NULL) s Hx0 Hnd).
    destruct k as [|f k]; [done|].
    pose proof (rs_repr _ _ _ Hs) as Hr. apply repr_plug in Hr as [[Hr _] _]. cbn [addr] in Hr.
    assert (Hf : rb_mem (RbState (<[x := RbNode (par (f :: k)) NULL NULL]> (rb_mem s)) (rb_root s))
      !! fid f = Some (fnode k f NULL)).
    { cbn [rb_mem]. rewrite lookup_insert_ne; [done|]. intros ->. apply Hnx.
      destruct f; cbn [before after fid]; set_solver. }
    pose proof (rs_addr _ _ _ Hs) as Ha. rewrite ids_plug, !Forall_app in Ha.
    destruct f; cbn [before after fid link_of] in *;
      rewrite ?Forall_app, ?Forall_cons in Ha; destruct (node_addr_ok x0) as [_ Hx00]; try tauto.
    + by rewrite (set_left_ok _ _ _ Hx00 Hf).
    + by rewrite (set_right_ok _ _ _ Hx00 Hf).
  - pose proof Hs as [_ _ Hn Ha Hbg]. rewrite ids_plug in *. cbn [ids app] in *.
    eapply (reps_update bg bg s k E (T Red E x E)); [done|..].
    + cbn [ids app]. eapply NoDup_Permutation_proper; [|apply NoDup_cons; split; [exact Hnx|exact Hn]].
      solve_Permutation.
    + by constructor.
    + intros y Hy. rewrite lookup_insert_ne; set_solver.
    + intros y Hy. cbn [ids app] in Hy. rewrite lookup_insert_ne by set_solver. apply Hbg. set_solver.
    + cbn [repr addr]. rewrite lookup_insert_eq. split; [|done]. unfold pcw. cbn [cz]. unfold RB_RED.
      by rewrite Z.add_0_r.
Qed.

Lemma insert_color_ok fuel bg s k c n l x r :
  rbc c n k -> rbt Black n l -> rbt Black n r ->
  reps bg s (plug k (T Red l x r)) -> (length k < fuel)%nat ->
  exists s' t', rb_insert_color fuel x s = Some (tt, s') /\ reps bg s' t' /\
    ids t' = ids (plug k (T Red l x r)) /\ rb_inv t'.
Proof.
  intros Hk Hl Hr Hs Hf.
  destruct (insert_loop_ok fuel bg s k c n l x r) as (s1 & t1 & c1 & n1 & He & Hs1 & Hi & Ht1); [done..|].
  unfold rb_insert_color. xr He. erewrite run_bind by done.
  destruct t1 as [|d a y b].
  { rewrite ids_plug in Hi. cbn in Hi. symmetry in Hi. apply app_eq_nil in Hi as [_ Hi].
    apply app_eq_nil in Hi as [Hi _]. by apply app_eq_nil in Hi as [_ Hi]. }
  rewrite (rs_root _ _ _ Hs1). cbn [addr].
  destruct (at_set_black bg s1 [] d a y b Hs1) as (s2 & He2 & Hs2).
  exists s2, (T Black a y b). split; [done|]. split; [done|]. split; [done|].
  inversion Ht1; subst; eexists; eauto with kernel.
Qed.

Lemma insert_ok fuel bg s k x :
  reps bg s (plug k E) -> rb_inv (plug k E) ->
  node_addr x -> x ∉ ids (plug k E) -> is_Some (rb_mem s !! x) ->
  rb_fuel (length (ids (plug k E))) fuel ->
  exists s' t', (rb_link_node x (par k) (link_of k);; rb_insert_color fuel x) s = Some (tt, s') /\
    reps bg s' t' /\ rb_inv t' /\
    ids (plug k E) = before k ++ after k /\ ids t' = before k ++ x :: after k.
Proof.
  intros Hs Hi Hx Hnx Hm Hfuel.
  pose proof (rb_fuel_depth _ _ _ _ Hi eq_refl Hfuel) as Hd. destruct Hi as [n Hi].
  apply unplug_rb in Hi as (c & d & n' & Ht & Hc & Hk). specialize (Hk eq_refl).
  inversion Ht; subst.
  destruct (link_node_ok bg s k x) as (s1 & He & Hs1); [done..|]. xr He.
  destruct (insert_color_ok fuel bg s1 k c 0 E x E) as (s2 & t2 & He2 & Hs2 & Hi2 & Hr2);
    [done|constructor|constructor|done|lia|].
  exists s2, t2. split; [done|]. split; [done|]. split; [done|].
  rewrite Hi2, !ids_plug. done.
Qed.

(** C12: Inserting a node the way every user of the library does, [rb_link_node]
    at the empty place a search reached followed by [rb_insert_color], succeeds
    on any red-black tree (no NULL or stray pointer is followed, and the loop
    ends within 2 log2(m+1) + 3 turns on a tree of m nodes), gives memory that again
    holds a red-black tree (black root, no red node with a red child, equal black
    heights), whose in-order sequence is the old one with the node inserted at that place;
    no memory outside the tree is touched. *)
Theorem rb_insert_correct fuel bg s k x :
  reps bg s (plug k E) -> rb_inv (plug k E) ->
  node_addr x -> x ∉ ids (plug k E) -> is_Some (rb_mem s !! x) ->
  rb_fuel (length (ids (plug k E))) fuel ->
  exists s' t', (rb_link_node x (par k) (link_of k);; rb_insert_color fuel x) s = Some (tt, s') /\
    reps bg s' t' /\ rb_inv t' /\
    ids (plug k E) = before k ++ after k /\ ids t' = before k ++ x :: after k.
Proof. apply insert_ok. Qed.

(** *** Witnesses: three nodes at the addresses 4, 8 and 12, and a spare one at 16. *)
Definition demo_mem : gmap Z rb_node :=
  <[4 := RbNode 8 0 0]> (<[8 := RbNode 1 12 4]> (<[12 := RbNode 8 0 0]> (<[16 := RbNode 0 0 0]> ∅))).
Definition demo : rb_state := RbState demo_mem 8.
Definition demo_tree : tree := T Black (T Red E 4 E) 8 (T Red E 12 E).

Lemma demo_reps : reps demo_mem demo demo_tree.
Proof.
  split.
  - vm_compute. repeat split.
  - done.
  - apply (bool_decide_unpack _). vm_compute. done.
  - apply (bool_decide_unpack _). vm_compute. done.
  - done.
Qed.

Lemma demo_inv : rb_inv demo_tree.
Proof. exists 1%nat. repeat econstructor. Qed.

Lemma rb_insert_correct_witness :
  exists s' t', (rb_link_node 16 12 (LinkLeft 12);; rb_insert_color 10 16) demo = Some (tt, s') /\
    reps demo_mem s' t' /\ rb_inv t' /\ ids t' = [4; 8; 16; 12].
Proof.
  pose (k := [FL Red 12 E; FR Black (T Red E 4 E) 8]).
  destruct (rb_insert_correct 10 demo_mem demo k 16) as (s' & t' & H1 & H2 & H3 & _ & H4).
  - exact demo_reps.
  - exact demo_inv.
  - apply (bool_decide_unpack _). vm_compute. done.
  - apply (bool_decide_unpack _). vm_compute. done.
  - vm_compute. eauto.
  - unfold rb_fuel. vm_compute. lia.
  - exists s', t'. auto.
Defined.
