(* ===== verification/RbErase.v ===== *)
(** Removal from a red-black tree: the cases of the loop of [__rb_erase_color], the
    splice of a node with at most one child, the exchange with the successor and
    [rb_erase]; [rb_replace_node]. *)
From stdpp Require Import gmap.
From S2P Require Import Prelude Rbtree RbInsert.

Local Open Scope kernel_scope.

(** ** Erasure: the cases of the loop *)

Lemma erase_left_up bg s k cp t p i o e :
  reps bg s (plug k (T cp t p (T Black i o e))) -> is_red i = false -> is_red e = false ->
  exists s', rb_erase_left_black p o s = Some (inl (p, par k), s') /\
    reps bg s' (plug k (T cp t p (T Red i o e))).
Proof.
  intros H Hi He. unfold rb_erase_left_black.
  xr (at_left bg s (FR cp t p :: k) Black _ o _ H).
  xr (at_null_or_black bg s (FL Black o e :: FR cp t p :: k) i H). rewrite ?Hi, ?He. cbn [negb].
  erewrite run_bind by (erewrite run_bind by exact (at_right bg s (FR cp t p :: k) Black _ o _ H);
    exact (at_null_or_black bg s (FR Black i o :: FR cp t p :: k) e H)).
  rewrite ?Hi, ?He. cbn [negb].
  upd (at_set_red bg s (FR cp t p :: k) Black _ o _ H) as s1 H1.
  xr (at_parent bg s1 k cp _ p _ H1). by exists s1.
Qed.

(** The last rotation: the sibling [o] has a red outer child. *)
Lemma erase_left_rotate bg s k cp t p i o a z b :
  reps bg s (plug k (T cp t p (T Black i o (T Red a z b)))) ->
  exists s', (c ← rb_color p; rb_set_color o c;; rb_set_black p;;
     q ← get_right o; when (nonnull q) (rb_set_black q);; __rb_rotate_left p;;
     q ← get_root; mret (inr q)) s = Some (inr (rb_root s') : Z * Z + Z, s') /\
    reps bg s' (plug k (T cp (T Black t p i) o (T Black a z b))).
Proof.
  intros H. xr (at_color bg s k cp _ p _ H).
  upd (at_set_color bg s (FR cp t p :: k) Black _ o _ H cp) as s1 H1.
  upd (at_set_black bg s1 k cp _ p _ H1) as s2 H2.
  xr (at_right bg s2 (FR Black t p :: k) cp _ o _ H2). cbn [addr].
  rewrite (at_null bg s2 (FR cp i o :: FR Black t p :: k) (T Red a z b) H2 :
    nonnull z = true).
  upd (at_set_black bg s2 (FR cp i o :: FR Black t p :: k) Red a z b H2) as s3 H3.
  upd (rotate_left_ok bg s3 k Black cp t i (T Black a z b) p o H3) as s4 H4. by exists s4.
Qed.

Lemma erase_left_outer bg s k cp t p i o a z b :
  reps bg s (plug k (T cp t p (T Black i o (T Red a z b)))) ->
  exists s', rb_erase_left_black p o s = Some (inr (rb_root s'), s') /\
    reps bg s' (plug k (T cp (T Black t p i) o (T Black a z b))).
Proof.
  intros H. destruct (erase_left_rotate bg s k cp t p i o a z b H) as (s' & He & H').
  exists s'. split; [|done]. rewrite <- He. unfold rb_erase_left_black.
  xr (at_left bg s (FR cp t p :: k) Black _ o _ H).
  xr (at_null_or_black bg s (FL Black o (T Red a z b) :: FR cp t p :: k) i H).
  
  assert (Hb : (if negb (is_red i) then r ← get_right o; null_or_black r else mret false) s
    = Some (false, s)).
  { destruct (is_red i); [done|]. cbn [negb].
    erewrite run_bind by exact (at_right bg s (FR cp t p :: k) Black _ o _ H).
    exact (at_null_or_black bg s (FR Black i o :: FR cp t p :: k) (T Red a z b) H). }
  xr Hb.
  xr (at_right bg s (FR cp t p :: k) Black _ o _ H).
  xr (at_null_or_black bg s (FR Black i o :: FR cp t p :: k) (T Red a z b) H). cbn [is_red negb].
  by erewrite run_bind by done.
Qed.

(** The outer child is black and the inner one red: first a rotation of the sibling. *)
Lemma erase_left_inner bg s k cp t p a z b o e :
  reps bg s (plug k (T cp t p (T Black (T Red a z b) o e))) -> is_red e = false ->
  exists s', rb_erase_left_black p o s = Some (inr (rb_root s'), s') /\
    reps bg s' (plug k (T cp (T Black t p a) z (T Black b o e))).
Proof.
  intros H Hr. unfold rb_erase_left_black.
  set (i := (T Red a z b)) in *.
  xr (at_left bg s (FR cp t p :: k) Black _ o _ H).
  xr (at_null_or_black bg s (FL Black o e :: FR cp t p :: k) i H). rewrite ?Hr. cbn [is_red negb i].
  erewrite run_bind by done.
  cbn [is_red negb i].
  xr (at_right bg s (FR cp t p :: k) Black _ o _ H).
  xr (at_null_or_black bg s (FR Black i o :: FR cp t p :: k) e H). rewrite Hr. cbn [negb].
  destruct (at_set_black bg s (FL Black o e :: FR cp t p :: k) Red _ z _ H) as (s1 & He1 & H1).
  destruct (at_set_red bg s1 (FR cp t p :: k) Black _ o _ H1) as (s2 & He2 & H2).
  destruct (rotate_right_ok bg s2 (FR cp t p :: k) Red Black e b a o z H2) as (s3 & He3 & H3).
  assert (Hrun : (o_inner ← get_left o; when (nonnull o_inner) (rb_set_black o_inner);;
    rb_set_red o;; __rb_rotate_right o;; get_right p) s = Some (z, s3)).
  { xr (at_left bg s (FR cp t p :: k) Black _ o _ H). cbn [addr i].
    rewrite (at_null bg s (FL Black o e :: FR cp t p :: k) i H : nonnull z = true).
    cbn [when]. xr He1. xr He2. xr He3. exact (at_right bg s3 k cp _ p _ H3). }
  xr Hrun.
  apply (erase_left_rotate bg s3 k cp t p a z b o e H3).
Qed.

Lemma erase_right_up bg s k cp t p i o e :
  reps bg s (plug k (T cp (T Black e o i) p t)) -> is_red i = false -> is_red e = false ->
  exists s', rb_erase_right_black p o s = Some (inl (p, par k), s') /\
    reps bg s' (plug k (T cp (T Red e o i) p t)).
Proof.
  intros H Hi He. unfold rb_erase_right_black.
  xr (at_left bg s (FL cp p t :: k) Black _ o _ H).
  xr (at_null_or_black bg s (FL Black o i :: FL cp p t :: k) e H). rewrite ?Hi, ?He. cbn [negb].
  erewrite run_bind by (erewrite run_bind by exact (at_right bg s (FL cp p t :: k) Black _ o _ H);
    exact (at_null_or_black bg s (FR Black e o :: FL cp p t :: k) i H)).
  rewrite ?Hi, ?He. cbn [negb].
  upd (at_set_red bg s (FL cp p t :: k) Black _ o _ H) as s1 H1.
  xr (at_parent bg s1 k cp _ p _ H1). by exists s1.
Qed.

(** The last rotation: the sibling [o] has a red outer child. *)
Lemma erase_right_rotate bg s k cp t p i o a z b :
  reps bg s (plug k (T cp (T Black (T Red a z b) o i) p t)) ->
  exists s', (c ← rb_color p; rb_set_color o c;; rb_set_black p;;
     q ← get_left o; when (nonnull q) (rb_set_black q);; __rb_rotate_right p;;
     q ← get_root; mret (inr q)) s = Some (inr (rb_root s') : Z * Z + Z, s') /\
    reps bg s' (plug k (T cp (T Black a z b) o (T Black i p t))).
Proof.
  intros H. xr (at_color bg s k cp _ p _ H).
  upd (at_set_color bg s (FL cp p t :: k) Black _ o _ H cp) as s1 H1.
  upd (at_set_black bg s1 k cp _ p _ H1) as s2 H2.
  xr (at_left bg s2 (FL Black p t :: k) cp _ o _ H2). cbn [addr].
  rewrite (at_null bg s2 (FL cp o i :: FL Black p t :: k) (T Red a z b) H2 :
    nonnull z = true).
  upd (at_set_black bg s2 (FL cp o i :: FL Black p t :: k) Red a z b H2) as s3 H3.
  upd (rotate_right_ok bg s3 k Black cp t i (T Black a z b) p o H3) as s4 H4. by exists s4.
Qed.

Lemma erase_right_outer bg s k cp t p i o a z b :
  reps bg s (plug k (T cp (T Black (T Red a z b) o i) p t)) ->
  exists s', rb_erase_right_black p o s = Some (inr (rb_root s'), s') /\
    reps bg s' (plug k (T cp (T Black a z b) o (T Black i p t))).
Proof.
  intros H. destruct (erase_right_rotate bg s k cp t p i o a z b H) as (s' & He & H').
  exists s'. split; [|done]. rewrite <- He. unfold rb_erase_right_black.
  xr (at_left bg s (FL cp p t :: k) Black _ o _ H).
  xr (at_null_or_black bg s (FL Black o i :: FL cp p t :: k) (T Red a z b) H).
  cbn [is_red negb]. erewrite run_bind by done. cbn iota.
  
  xr (at_left bg s (FL cp p t :: k) Black _ o _ H).
  xr (at_null_or_black bg s (FL Black o i :: FL cp p t :: k) (T Red a z b) H). cbn [is_red negb].
  by erewrite run_bind by done.
Qed.

(** The outer child is black and the inner one red: first a rotation of the sibling. *)
Lemma erase_right_inner bg s k cp t p a z b o e :
  reps bg s (plug k (T cp (T Black e o (T Red b z a)) p t)) -> is_red e = false ->
  exists s', rb_erase_right_black p o s = Some (inr (rb_root s'), s') /\
    reps bg s' (plug k (T cp (T Black e o b) z (T Black a p t))).
Proof.
  intros H Hr. unfold rb_erase_right_black.
  set (i := (T Red b z a)) in *.
  xr (at_left bg s (FL cp p t :: k) Black _ o _ H).
  xr (at_null_or_black bg s (FL Black o i :: FL cp p t :: k) e H). rewrite ?Hr. cbn [is_red negb i].
  erewrite run_bind by (erewrite run_bind by exact (at_right bg s (FL cp p t :: k) Black _ o _ H);
    exact (at_null_or_black bg s (FR Black e o :: FL cp p t :: k) i H)).
  cbn [is_red negb i].
  xr (at_left bg s (FL cp p t :: k) Black _ o _ H).
  xr (at_null_or_black bg s (FL Black o i :: FL cp p t :: k) e H). rewrite Hr. cbn [negb].
  destruct (at_set_black bg s (FR Black e o :: FL cp p t :: k) Red _ z _ H) as (s1 & He1 & H1).
  destruct (at_set_red bg s1 (FL cp p t :: k) Black _ o _ H1) as (s2 & He2 & H2).
  destruct (rotate_left_ok bg s2 (FL cp p t :: k) Red Black e b a o z H2) as (s3 & He3 & H3).
  assert (Hrun : (o_inner ← get_right o; when (nonnull o_inner) (rb_set_black o_inner);;
    rb_set_red o;; __rb_rotate_left o;; get_left p) s = Some (z, s3)).
  { xr (at_right bg s (FL cp p t :: k) Black _ o _ H). cbn [addr i].
    rewrite (at_null bg s (FR Black e o :: FL cp p t :: k) i H : nonnull z = true).
    cbn [when]. xr He1. xr He2. xr He3. exact (at_left bg s3 k cp _ p _ H3). }
  xr Hrun.
  apply (erase_right_rotate bg s3 k cp t p a z e o b H3).
Qed.

Definition blacken (t : tree) : tree := match t with E => E | T _ l x r => T Black l x r end.

(** The subtree [t] in the hole of [k] is one black node short; a red root makes
    up for it once it is painted black. *)
Definition short (k : list frame) (t : tree) : Prop :=
  exists c n, rbc c (S n) k /\
    if is_red t then rbt Black (S n) (blacken t) else rbt Black n t.

Definition weight (k : list frame) : nat :=
  match k with (FL Red _ _ | FR Red _ _) :: _ => 1 | _ => 2 end.

(** The outcome of a turn from [k] and [t]: another turn from [k'] and [t'], nearer to the
    end, or a repaired tree. *)
Definition turned bg (k : list frame) (t : tree) (s' : rb_state) (res : Z * Z + Z) : Prop :=
  (exists k' t', res = inl (addr t', par k') /\ reps bg s' (plug k' t') /\
     before k' ++ ids t' ++ after k' = before k ++ ids t ++ after k /\ short k' t' /\
     (length k' + (if is_red t' then 1 else 2) < length k + weight k)%nat) \/
  (exists t', res = inr (rb_root s') /\ reps bg s' t' /\
     ids t' = before k ++ ids t ++ after k /\ rb_inv t').

Lemma rbt_black_inv c n t : rbt c n t -> is_red t = false -> rbt Black n t.
Proof. intros [] ?; eauto with kernel; done. Qed.

Lemma rbt_red_inv c n t : rbt c n t -> is_red t = true ->
  exists l x r, t = T Red l x r /\ rbt Black n l /\ rbt Black n r.
Proof. intros [] ?; try done. eauto 10. Qed.

Ltac turn_up lem k' t' :=
  let Hrun := fresh in destruct lem as (s' & Hrun & H'); exists s'; eexists; split; [exact Hrun|]; clear Hrun; left;
  exists k', t'; split; [done|]; split; [exact H'|]; split; [cbn; by simplify_list_eq|].
Ltac turn_done lem :=
  let Hrun := fresh in destruct lem as (s' & Hrun & H'); exists s'; eexists; split; [exact Hrun|]; clear Hrun; right;
  eexists; split; [done|]; split; [exact H'|]; split; [rewrite ids_plug; cbn; by simplify_list_eq|].

Lemma erase_left_black_ok bg s k c n cp t p i o e :
  rbc c (S n) (FL cp p (T Black i o e) :: k) -> rbt Black n t ->
  reps bg s (plug k (T cp t p (T Black i o e))) ->
  exists s' res, rb_erase_left_black p o s = Some (res, s') /\
    turned bg (FL cp p (T Black i o e) :: k) t s' res.
Proof.
  intros Hk Ht Hs.
  assert (Hsib : exists c1 c2, rbt c1 n i /\ rbt c2 n e).
  { inversion Hk as [ | ? ? ? ? Ho Hk' | | ? ? ? ? ? ? Ho Hk' |]; subst; inversion Ho; subst; eauto. }
  destruct Hsib as (c1 & c2 & Hi & He).
  assert (Hk' : exists c' m, rbc c' m k /\ (c' = Red -> cp = Black) /\
    (m = match cp with Red => S n | Black => S (S n) end)).
  { inversion Hk; subst; eauto. }
  destruct Hk' as (c' & m & Hk' & Hc' & ->).
  destruct (is_red e) eqn:Ee; [|destruct (is_red i) eqn:Ei].
  - destruct (rbt_red_inv _ _ _ He Ee) as (a & z & b & -> & Ha & Hb).
    turn_done (erase_left_outer bg s k cp t p i o a z b Hs).
    destruct cp; (eapply plug_rb; [exact Hk'| |exact Hc']); econstructor; eauto with kernel.
  - destruct (rbt_red_inv _ _ _ Hi Ei) as (a & z & b & -> & Ha & Hb).
    turn_done (erase_left_inner bg s k cp t p a z b o e Hs Ee).
    destruct cp; (eapply plug_rb; [exact Hk'| |exact Hc']); econstructor; eauto with kernel.
  - pose proof (rbt_black_inv _ _ _ Hi Ei). pose proof (rbt_black_inv _ _ _ He Ee).
    turn_up (erase_left_up bg s k cp t p i o e Hs Ei Ee) k (T cp t p (T Red i o e)).
    destruct cp; cbn [is_red length weight]; (split; [|lia]).
    + destruct c'; [naive_solver|]. exists Black, n. cbn. eauto with kernel.
    + exists c', (S n). cbn. eauto with kernel.
Qed.

Lemma erase_left_ok bg s k c n cp t p o :
  rbc c (S n) (FL cp p o :: k) -> rbt Black n t ->
  reps bg s (plug k (T cp t p o)) ->
  exists s' res, rb_erase_left p s = Some (res, s') /\
    turned bg (FL cp p o :: k) t s' res.
Proof.
  intros Hk Ht Hs. unfold rb_erase_left.
  destruct o as [|co i o e].
  { exfalso. inversion Hk as [ | ? ? ? ? Ho Hk' | | ? ? ? ? ? ? Ho Hk' |]; subst; inversion Ho. }
  xr (at_right bg s k cp _ p _ Hs). cbn [addr].
  destruct (T co i o e) as [|c0 i0 o0 e0] eqn:Eo; [done|]. injection Eo as -> -> -> ->.
  xr (at_is_red bg s (FR cp t p :: k) c0 _ o0 _ Hs).
  destruct c0.
  - assert (Hx : cp = Black /\ rbt Black (S n) i0 /\ rbt Black (S n) e0 /\ exists c', rbc c' (S (S n)) k).
    { inversion Hk as [ | ? ? ? ? Ho Hk' | | ? ? ? ? ? ? Ho Hk' |]; subst; inversion Ho; subst; eauto. }
    destruct Hx as (-> & Hi & He & c' & Hk').
    destruct (at_set_black bg s (FR Black t p :: k) Red _ o0 _ Hs) as (s1 & He1 & H1).
    destruct (at_set_red bg s1 k Black _ p _ H1) as (s2 & He2 & H2).
    destruct (rotate_left_ok bg s2 k Red Black t i0 e0 p o0 H2) as (s3 & He3 & H3).
    erewrite run_bind by (xr He1; xr He2; xr He3;
      exact (at_right bg s3 (FL Black o0 e0 :: k) Red _ p _ H3)).
    clear He1 H1 He2 H2 He3.
    assert (Hr : rbc Red (S n) (FL Red p i0 :: FL Black o0 e0 :: k)) by eauto with kernel.
    destruct i0 as [|ci il io ie]; [inversion Hi|].
    assert (ci = Black) as -> by (inversion Hi; done).
    destruct (erase_left_black_ok bg s3 (FL Black o0 e0 :: k) Red n Red t p il io ie Hr Ht H3)
      as (s' & res & Hrun & Hturn).
    exists s', res. split; [exact Hrun|]. unfold turned in *. cbn [length weight] in *.
    destruct Hturn as [(k' & t' & -> & Hk1 & Hk2 & Hk3 & Hk4)|(t' & -> & Hk1 & Hk2 & Hk3)].
    + left. exists k', t'. split; [done|]. split; [done|]. split; [rewrite Hk2; cbn; by simplify_list_eq|].
      split; [done|]. lia.
    + right. exists t'. split; [done|]. split; [done|]. split; [rewrite Hk2; cbn; by simplify_list_eq|]. done.
  - erewrite run_bind by done.
    by apply (erase_left_black_ok bg s k c n cp t p i0 o0 e0 Hk Ht Hs).
Qed.

Lemma erase_right_black_ok bg s k c n cp t p i o e :
  rbc c (S n) (FR cp (T Black e o i) p :: k) -> rbt Black n t ->
  reps bg s (plug k (T cp (T Black e o i) p t)) ->
  exists s' res, rb_erase_right_black p o s = Some (res, s') /\
    turned bg (FR cp (T Black e o i) p :: k) t s' res.
Proof.
  intros Hk Ht Hs.
  assert (Hsib : exists c1 c2, rbt c1 n i /\ rbt c2 n e).
  { inversion Hk as [ | | ? ? ? ? Ho Hk' | | ? ? ? ? ? ? Ho Hk']; subst; inversion Ho; subst; eauto. }
  destruct Hsib as (c1 & c2 & Hi & He).
  assert (Hk' : exists c' m, rbc c' m k /\ (c' = Red -> cp = Black) /\
    (m = match cp with Red => S n | Black => S (S n) end)).
  { inversion Hk; subst; eauto. }
  destruct Hk' as (c' & m & Hk' & Hc' & ->).
  destruct (is_red e) eqn:Ee; [|destruct (is_red i) eqn:Ei].
  - destruct (rbt_red_inv _ _ _ He Ee) as (a & z & b & -> & Ha & Hb).
    turn_done (erase_right_outer bg s k cp t p i o a z b Hs).
    destruct cp; (eapply plug_rb; [exact Hk'| |exact Hc']); econstructor; eauto with kernel.
  - destruct (rbt_red_inv _ _ _ Hi Ei) as (a & z & b & -> & Ha & Hb).
    turn_done (erase_right_inner bg s k cp t p b z a o e Hs Ee).
    destruct cp; (eapply plug_rb; [exact Hk'| |exact Hc']); econstructor; eauto with kernel.
  - pose proof (rbt_black_inv _ _ _ Hi Ei). pose proof (rbt_black_inv _ _ _ He Ee).
    turn_up (erase_right_up bg s k cp t p i o e Hs Ei Ee) k (T cp (T Red e o i) p t).
    destruct cp; cbn [is_red length weight]; (split; [|lia]).
    + destruct c'; [naive_solver|]. exists Black, n. cbn. eauto with kernel.
    + exists c', (S n). cbn. eauto with kernel.
Qed.

Lemma erase_right_ok bg s k c n cp t p o :
  rbc c (S n) (FR cp o p :: k) -> rbt Black n t ->
  reps bg s (plug k (T cp o p t)) ->
  exists s' res, rb_erase_right p s = Some (res, s') /\
    turned bg (FR cp o p :: k) t s' res.
Proof.
  intros Hk Ht Hs. unfold rb_erase_right.
  destruct o as [|co i o e].
  { exfalso. inversion Hk as [ | | ? ? ? ? Ho Hk' | | ? ? ? ? ? ? Ho Hk']; subst; inversion Ho. }
  xr (at_left bg s k cp _ p _ Hs). cbn [addr].
  destruct (T co i o e) as [|c0 i0 o0 e0] eqn:Eo; [done|]. injection Eo as -> -> -> ->.
  xr (at_is_red bg s (FL cp p t :: k) c0 _ o0 _ Hs).
  destruct c0.
  - assert (Hx : cp = Black /\ rbt Black (S n) i0 /\ rbt Black (S n) e0 /\ exists c', rbc c' (S (S n)) k).
    { inversion Hk as [ | | ? ? ? ? Ho Hk' | | ? ? ? ? ? ? Ho Hk']; subst; inversion Ho; subst; eauto. }
    destruct Hx as (-> & Hi & He & c' & Hk').
    destruct (at_set_black bg s (FL Black p t :: k) Red _ o0 _ Hs) as (s1 & He1 & H1).
    destruct (at_set_red bg s1 k Black _ p _ H1) as (s2 & He2 & H2).
    destruct (rotate_right_ok bg s2 k Red Black t e0 i0 p o0 H2) as (s3 & He3 & H3).
    erewrite run_bind by (xr He1; xr He2; xr He3;
      exact (at_left bg s3 (FR Black i0 o0 :: k) Red _ p _ H3)).
    clear He1 H1 He2 H2 He3.
    assert (Hr : rbc Red (S n) (FR Red e0 p :: FR Black i0 o0 :: k)) by eauto with kernel.
    destruct e0 as [|ci il io ie]; [inversion He|].
    assert (ci = Black) as -> by (inversion He; done).
    destruct (erase_right_black_ok bg s3 (FR Black i0 o0 :: k) Red n Red t p ie io il Hr Ht H3)
      as (s' & res & Hrun & Hturn).
    exists s', res. split; [exact Hrun|]. unfold turned in *. cbn [length weight] in *.
    destruct Hturn as [(k' & t' & -> & Hk1 & Hk2 & Hk3 & Hk4)|(t' & -> & Hk1 & Hk2 & Hk3)].
    + left. exists k', t'. split; [done|]. split; [done|]. split; [rewrite Hk2; cbn; by simplify_list_eq|].
      split; [done|]. lia.
    + right. exists t'. split; [done|]. split; [done|]. split; [rewrite Hk2; cbn; by simplify_list_eq|]. done.
  - erewrite run_bind by done.
    by apply (erase_right_black_ok bg s k c n cp t p e0 o0 i0 Hk Ht Hs).
Qed.

(** The root is an ancestor of the hole. *)
Lemma root_ne bg s f k t : reps bg s (plug (f :: k) t) -> addr t <> rb_root s.
Proof.
  intros H. pose proof (rs_root _ _ _ H) as Hr. rewrite addr_plug in Hr. rewrite Hr.
  pose proof (rs_nodup _ _ _ H) as Hn. pose proof (rs_addr _ _ _ H) as Ha.
  assert (Hin : rootc (f :: k) (addr t) ∈ before (f :: k) ++ after (f :: k)).
  { clear. cbn [rootc]. generalize (addr t). revert f. induction k as [|g k IH]; intros f a.
    - destruct f; cbn; set_solver.
    - cbn [rootc]. specialize (IH g a). destruct f; cbn [before after] in *; set_solver. }
  intros He. rewrite <- He in Hin. rewrite ids_plug in Hn, Ha.
  destruct t as [|c l x r].
  - cbn [ids app addr] in *. rewrite Forall_forall in Ha. by apply Ha, node_addr_ok in Hin as [_ Hin].
  - cbn [addr] in Hin. assert (x ∈ ids (T c l x r)) by (cbn; set_solver). nodup. set_solver.
Qed.

(** Painting a node black at the end of [__rb_erase_color]. *)
Lemma paint_black bg s k t :
  reps bg s (plug k t) ->
  exists s', when (nonnull (addr t)) (rb_set_black (addr t)) s = Some (tt, s') /\
    reps bg s' (plug k (blacken t)).
Proof.
  intros H. rewrite (at_null bg s k t H). destruct t as [|c l x r]; [by exists s|].
  exact (at_set_black bg s k c l x r H).
Qed.

Lemma erase_stop bg s fuel k t p :
  reps bg s (plug k t) -> is_red t = true \/ k = [] ->
  rb_erase_loop (S fuel) (addr t) p s = Some (addr t, s).
Proof.
  intros H Hst. cbn [rb_erase_loop]. xr (at_null_or_black bg s k t H).
  erewrite run_bind by done. destruct (is_red t) eqn:Et; [done|].
  destruct Hst as [? | ->]; [done|]. rewrite (rs_root _ _ _ H). cbn [plug negb].
  by rewrite Z.eqb_refl.
Qed.

Lemma erase_color_ok fuel bg s k t :
  reps bg s (plug k t) -> short k t -> (length k + (if is_red t then 1 else 2) <= fuel)%nat ->
  exists s' t', __rb_erase_color fuel (addr t) (par k) s = Some (tt, s') /\ reps bg s' t' /\
    ids t' = before k ++ ids t ++ after k /\ rb_inv t'.
Proof.
  revert s k t. induction fuel as [|fuel IH]; intros s k t Hs (c & n & Hk & Ht) Hf;
    [destruct (is_red t); lia|].
  assert (Hids : forall u, ids (blacken u) = ids u) by (by intros []).
  destruct (is_red t) eqn:Et; [|destruct k as [|f k]].
  - unfold __rb_erase_color. xr (erase_stop bg s fuel k t (par k) Hs (or_introl Et)).
    destruct (paint_black bg s k t Hs) as (s' & He & Hs'). exists s', (plug k (blacken t)).
    split; [done|]. split; [done|]. split; [by rewrite ids_plug, Hids|]. by eapply plug_rb.
  - unfold __rb_erase_color. xr (erase_stop bg s fuel [] t (par []) Hs (or_intror eq_refl)).
    destruct (paint_black bg s [] t Hs) as (s' & He & Hs'). exists s', (blacken t).
    split; [done|]. split; [done|]. split; [by rewrite Hids; cbn; rewrite app_nil_r|].
    exists n. destruct t as [|[]]; done.
  - assert (Hturn : exists s1 res,
      (pl ← get_left (fid f); if pl =? addr t then rb_erase_left (fid f) else rb_erase_right (fid f)) s
        = Some (res, s1) /\ turned bg (f :: k) t s1 res).
    { destruct f as [cp p o|cp o p]; cbn [fid].
      - erewrite run_bind by exact (at_left bg s k cp t p o Hs). rewrite Z.eqb_refl.
        by eapply erase_left_ok.
      - erewrite run_bind by exact (at_left bg s k cp o p t Hs).
        assert (Hne : addr o <> addr t).
        { destruct t as [|ct tl tx tr].
          - destruct o as [|co ol ox or_]; [inversion Hk as [ | | ? ? ? ? Ho | | ? ? ? ? ? ? Ho]; inversion Ho|].
            apply (at_nonnull bg s (FL cp p E :: k) co ol ox or_ Hs).
          - apply (sibling_ne bg s k cp ct tl tx tr o p (or_introl Hs)). }
        rewrite (proj2 (Z.eqb_neq _ _) Hne). by eapply erase_right_ok. }
    destruct Hturn as (s1 & res & Hrun & Hturn).
    assert (Hloop : rb_erase_loop (S fuel) (addr t) (fid f) s =
      match res with inl (node, parent) => rb_erase_loop fuel node parent s1 | inr node => Some (node, s1) end).
    { cbn [rb_erase_loop]. xr (at_null_or_black bg s (f :: k) t Hs). erewrite run_bind by done.
      rewrite Et, (proj2 (Z.eqb_neq _ _) (root_ne _ _ _ _ _ Hs)). cbn [negb andb].
      revert Hrun. unfold mbind, M_bind. destruct (get_left (fid f) s) as [[pl sg]|]; [|done].
      intros ->. by destruct res as [[]|]. }
    destruct Hturn as [(k' & t' & -> & Hs1 & Hi & Hsh & Hw)|(t' & -> & Hs1 & Hi & Hinv)].
    + destruct (IH s1 k' t' Hs1 Hsh) as (s2 & t2 & He2 & Hs2 & Hi2 & Hinv2).
      { assert (weight (f :: k) <= 2)%nat by (destruct f as [[]|[]]; cbn; lia). lia. }
      exists s2, t2. split; [|by rewrite Hi2].
      unfold __rb_erase_color in *. cbn [par]. revert He2. unfold mbind, M_bind. by rewrite Hloop.
    + destruct (paint_black bg s1 [] t' Hs1) as (s2 & He2 & Hs2). exists s2, t'.
      split; [|split; [|done]].
      * unfold __rb_erase_color. cbn [par]. erewrite run_bind by exact Hloop.
        by rewrite (rs_root _ _ _ Hs1).
      * destruct Hinv as [m Hm]. destruct t' as [|ct]; [done|]. inversion Hm; subst. done.
Qed.

(** ** Walks down the tree *)

Lemma plug_app k1 k2 t : plug (k1 ++ k2) t = plug k2 (plug k1 t).
Proof. revert t. induction k1 as [|f k1 IH]; intros t; [done|]. cbn. apply IH. Qed.
Lemma before_app k1 k2 : before (k1 ++ k2) = before k2 ++ before k1.
Proof. induction k1 as [|[] k1 IH]; cbn; rewrite ?app_nil_r; [done..|]. rewrite IH. by rewrite <- app_assoc. Qed.
Lemma after_app k1 k2 : after (k1 ++ k2) = after k1 ++ after k2.
Proof. induction k1 as [|[] k1 IH]; cbn; [done| |done]. rewrite IH. by rewrite <- app_assoc. Qed.
Lemma par_app k1 k2 : par (k1 ++ k2) = match k1 with [] => par k2 | _ => par k1 end.
Proof. by destruct k1. Qed.

Definition is_FL (f : frame) : Prop := match f with FL _ _ _ => True | _ => False end.
Definition is_FR (f : frame) : Prop := match f with FR _ _ _ => True | _ => False end.

Lemma go_left_ok fuel bg s k t :
  reps bg s (plug k t) -> t <> E -> (height t <= fuel)%nat ->
  exists kr c y d, t = plug kr (T c E y d) /\ Forall is_FL kr /\
    go_left fuel (addr t) s = Some (y, s).
Proof.
  revert fuel k. induction t as [|c l IH x r _]; intros fuel k Hs Hne Hf; [done|].
  cbn [height] in Hf. destruct fuel as [|fuel]; [lia|]. cbn [go_left addr].
  rewrite (run_bind _ _ _ _ _ (at_left bg s k c l x r Hs)).
  destruct l as [|cl ll lx lr] eqn:El.
  - exists [], c, x, r. by split.
  - rewrite (at_null bg s (FL c x r :: k) (T cl ll lx lr) Hs).
    destruct (IH fuel (FL c x r :: k) Hs) as (kr & c' & y & d & Hd & Hk & Hg); [done|lia|].
    exists (kr ++ [FL c x r]), c', y, d. rewrite plug_app, <- Hd. split; [done|].
    split; [|done]. apply Forall_app. split; [done|]. by constructor.
Qed.

Lemma go_right_ok fuel bg s k t :
  reps bg s (plug k t) -> t <> E -> (height t <= fuel)%nat ->
  exists kr c y d, t = plug kr (T c d y E) /\ Forall is_FR kr /\
    go_right fuel (addr t) s = Some (y, s).
Proof.
  revert fuel k. induction t as [|c l _ x r IH]; intros fuel k Hs Hne Hf; [done|].
  cbn [height] in Hf. destruct fuel as [|fuel]; [lia|]. cbn [go_right addr].
  rewrite (run_bind _ _ _ _ _ (at_right bg s k c l x r Hs)).
  destruct r as [|cl ll lx lr] eqn:El.
  - exists [], c, x, l. by split.
  - rewrite (at_null bg s (FR c l x :: k) (T cl ll lx lr) Hs).
    destruct (IH fuel (FR c l x :: k) Hs) as (kr & c' & y & d & Hd & Hk & Hg); [done|lia|].
    exists (kr ++ [FR c l x]), c', y, d. rewrite plug_app, <- Hd. split; [done|].
    split; [|done]. apply Forall_app. split; [done|]. by constructor.
Qed.

Lemma before_FL k : Forall is_FL k -> before k = [].
Proof. induction 1 as [|[] k]; cbn; done. Qed.
Lemma after_FR k : Forall is_FR k -> after k = [].
Proof. induction 1 as [|[] k]; cbn; done. Qed.

(** ** Unlinking a node with at most one child *)

Lemma par_out k l :
  NoDup (before k ++ l ++ after k) -> Forall node_addr l -> par k ∉ l.
Proof.
  intros Hn Ha. destruct k as [|f k]; [|apply frame_fresh in Hn; naive_solver].
  rewrite Forall_forall in Ha. intros Hi. by apply Ha, node_addr_ok in Hi as [_ Hi].
Qed.

Lemma hole_out k l y : NoDup (before k ++ l ++ after k) -> y ∈ before k ++ after k -> y ∉ l.
Proof. intros H Hy. nodup. set_solver. Qed.

Lemma splice_ok bg s k c l x r u :
  reps bg s (plug k (T c l x r)) -> l = E /\ u = r \/ r = E /\ u = l ->
  exists s', rb_erase_one x (addr u) s = Some (addr u, par k, cz c, s') /\
    reps (<[x := RbNode (pcw (par k) c) (addr r) (addr l)]> bg) s' (plug k u) /\
    s' = relink k (addr u) (RbState (adopt u (par k) (rb_mem s)) (rb_root s)).
Proof.
  intros Hs Hu. eexists. split; [|split; [|done]].
  - unfold rb_erase_one. xr (at_parent _ _ _ _ _ _ _ Hs). xr (at_color _ _ _ _ _ _ _ Hs).
    destruct (reps_okp _ _ _ _ Hs) as [Hp Ha]. pose proof (rs_repr _ _ _ Hs) as Hr.
    apply repr_plug in Hr as (Hk & Hx & Hl & Hr). cbn [ids] in Ha. rewrite Forall_app, Forall_cons in Ha.
    pose proof (at_addr _ _ _ _ _ _ _ Hs) as Hxa. apply node_addr_ok in Hxa as [Hxo Hx0].
    xr (adopt_ok u (par k) x s ltac:(naive_solver) Hxo Hp ltac:(naive_solver)).
    erewrite run_bind; [done|]. eapply relink_left'; [done|].
    eapply (reps_link _ _ _ _ _ Hs); [done|]. intros y Hy. cbn [rb_mem]. apply adopt_out.
    pose proof (rs_nodup _ _ _ Hs) as Hn. rewrite ids_plug in Hn.
    pose proof (hole_out _ _ _ Hn Hy) as Hout. cbn [ids] in Hout. clear -Hout Hu.
    destruct Hu as [[-> ->]|[-> ->]]; set_solver.
  - pose proof Hs as [Hr _ Hn Ha Hbg]. rewrite ids_plug in *. apply repr_plug in Hr as (Hk & Hx & Hl & Hr).
    assert (Hu' : exists l1 l2, ids (T c l x r) = l1 ++ l2 /\ (ids u = l1 /\ l2 = [x] \/ l1 = [x] /\ ids u = l2)
      /\ repr (rb_mem s) x u).
    { cbn [ids]. destruct Hu as [[-> ->]|[-> ->]]; [exists [x], (ids r)|exists (ids l), [x]]; naive_solver. }
    destruct Hu' as (l1 & l2 & Hi & Hl12 & Hru). rewrite Hi in *.
    assert (Hxu : (x ∉ before k ++ ids u ++ after k) /\ NoDup (before k ++ ids u ++ after k)).
    { rewrite <- NoDup_cons. eapply NoDup_Permutation_proper; [|exact Hn].
      destruct Hl12 as [[-> ->]|[-> ->]]; solve_Permutation. }
    destruct Hxu as [Hxu Hnu].
    assert (Hm : forall y, y ∉ ids u -> adopt u (par k) (rb_mem s) !! y = rb_mem s !! y)
      by (intros; by apply adopt_out).
    eapply (reps_update _ _ _ _ _ u _ Hs).
    + done.
    + rewrite !Forall_app in Ha. naive_solver.
    + intros y Hy. by apply Hm, (hole_out k).
    + intros y Hy. rewrite Hm by set_solver. destruct (decide (y = x)) as [->|Hyx].
      * by rewrite lookup_insert_eq.
      * rewrite lookup_insert_ne by done. apply Hbg. clear -Hy Hyx Hl12.
        destruct Hl12 as [[<- ->]|[-> <-]]; set_solver.
    + apply (adopt_repr u (par k) x); [nodup; done|done].
Qed.

(** ** Putting a fresh node in the place of another *)

Lemma adopt_relink t p k a s :
  par k ∉ ids t \/ k = [] ->
  RbState (adopt t p (rb_mem (relink k a s))) (rb_root (relink k a s)) =
  relink k a (RbState (adopt t p (rb_mem s)) (rb_root s)).
Proof.
  intros H. destruct t as [|c l x r]; cbn [adopt]; [by destruct k, s|].
  apply relink_insert. destruct H as [H|H]; [left|by right]. intros ->. apply H. cbn [ids]. set_solver.
Qed.

Lemma adopt_insert t p y n h :
  y ∉ ids t -> adopt t p (<[y := n]> h) = <[y := n]> (adopt t p h).
Proof.
  intros H. destruct t as [|c l x r]; [done|]. cbn [adopt ids] in *.
  apply insert_insert_ne. set_solver.
Qed.

(** Memory with [y] in the place of [x], before the pointer to [x] is moved. *)
Definition swap_mem (k : list frame) (c : color) (l : tree) (y : Z) (r : tree) (h : gmap Z rb_node) :=
  adopt r y (adopt l y (<[y := RbNode (pcw (par k) c) (addr r) (addr l)]> h)).

Lemma replace_reps bg s k c l x r y :
  reps bg s (plug k (T c l x r)) -> node_addr y -> y ∉ ids (plug k (T c l x r)) ->
  reps (<[x := RbNode (pcw (par k) c) (addr r) (addr l)]> bg)
    (relink k y (RbState (swap_mem k c l y r (rb_mem s)) (rb_root s))) (plug k (T c l y r)).
Proof.
  intros Hs Hy Hyn. pose proof Hs as [Hr _ Hn Ha Hbg].
  pose proof (reps_nodup _ _ _ _ (x :: ids l ++ ids r) Hs ltac:(cbn [ids]; solve_Permutation)) as Hnd.
  rewrite ids_plug in *. apply repr_plug in Hr as (Hk & Hx & Hl & Hr). cbn [ids] in *.
  apply NoDup_app in Hnd as (HnK & HdK & Hnd). apply NoDup_cons in Hnd as [Hxn Hnd].
  apply NoDup_app in Hnd as (Hnl & Hdlr & Hnr).
  assert (Hout : forall z, z <> y -> z ∉ ids l -> z ∉ ids r ->
    swap_mem k c l y r (rb_mem s) !! z = rb_mem s !! z).
  { intros z H1 H2 H3. unfold swap_mem. by rewrite !adopt_out, lookup_insert_ne by done. }
  assert (HyK : y ∉ before k ++ after k) by set_solver.
  eapply (reps_update _ _ s k (T c l x r) (T c l y r)); [done|..]; cbn [ids].
  - rewrite <- app_assoc. cbn [app].
    eapply (NoDup_Permutation_proper _ (y :: (before k ++ after k) ++ ids l ++ ids r)); [solve_Permutation|].
    apply NoDup_cons. split; [set_solver|]. apply NoDup_app.
    split; [done|]. split; [|by apply NoDup_app]. intros z Hz. specialize (HdK z Hz). set_solver.
  - rewrite !Forall_app, !Forall_cons in Ha. rewrite Forall_app, Forall_cons. tauto.
  - intros z Hz. specialize (HdK z Hz). apply Hout; set_solver.
  - intros z Hz. rewrite Hout by set_solver. destruct (decide (z = x)) as [->|Hzx].
    + by rewrite lookup_insert_eq.
    + rewrite lookup_insert_ne by done. apply Hbg. set_solver.
  - cbn [repr]. unfold swap_mem. split.
    { rewrite !adopt_out by set_solver. by rewrite lookup_insert_eq. }
    split.
    + eapply (repr_ext (adopt l y (<[y := RbNode (pcw (par k) c) (addr r) (addr l)]> (rb_mem s)))).
      { intros z Hz. by rewrite adopt_out by set_solver. }
      apply (adopt_repr l y x); [done|]. eapply repr_ext; [|exact Hl].
      intros z Hz. rewrite lookup_insert_ne; set_solver.
    + apply (adopt_repr r y x); [done|]. eapply repr_ext; [|exact Hr].
      intros z Hz. rewrite adopt_out, lookup_insert_ne by set_solver. done.
Qed.

(** The node of [x] is found unchanged while its neighbours are rewired. *)
Lemma swap_relink k c l y r s :
  par k ∉ ids l \/ k = [] -> par k ∉ ids r \/ k = [] ->
  y <> par k \/ k = [] ->
  RbState (adopt r y (adopt l y (rb_mem (relink k y
    (RbState (<[y := RbNode (pcw (par k) c) (addr r) (addr l)]> (rb_mem s)) (rb_root s))))))
    (rb_root (relink k y s)) = relink k y (RbState (swap_mem k c l y r (rb_mem s)) (rb_root s)).
Proof.
  intros Hl Hr Hy. unfold swap_mem.
  pose proof (adopt_relink l y k y (RbState (<[y := RbNode (pcw (par k) c) (addr r) (addr l)]> (rb_mem s)) (rb_root s)) Hl) as H1.
  cbn [rb_mem rb_root] in H1.
  pose proof (adopt_relink r y k y (RbState (adopt l y (<[y := RbNode (pcw (par k) c) (addr r) (addr l)]> (rb_mem s))) (rb_root s)) Hr) as H2.
  cbn [rb_mem rb_root] in H2. rewrite <- H2, <- H1. cbn [rb_mem rb_root]. by destruct k.
Qed.

(** Where the pointers that [rb_replace_node] and [rb_erase] follow lead. *)
Lemma relink_at k a s x n :
  x <> par k \/ k = [] -> rb_mem s !! x = Some n -> rb_mem (relink k a s) !! x = Some n.
Proof.
  intros H Hn. rewrite relink_mem. destruct k as [|f k]; [done|].
  rewrite decide_False; [done|]. destruct H; done.
Qed.

(** What the place of [x] looks like to the code that rewires it to [y]. *)
Record place (s : rb_state) (k : list frame) (c : color) (l : tree) (x : Z) (r : tree) (y : Z) : Prop := {
  pl_xk : x <> par k \/ k = []; pl_yk : y <> par k \/ k = [];
  pl_lk : par k ∉ ids l \/ k = []; pl_rk : par k ∉ ids r \/ k = [];
  pl_xl : x ∉ ids l; pl_xr : x ∉ ids r; pl_yl : y ∉ ids l; pl_yr : y ∉ ids r; pl_xy : x <> y;
  pl_lr : forall z, z ∈ ids r -> z ∉ ids l;
  pl_al : Forall node_addr (ids l); pl_ar : Forall node_addr (ids r);
  pl_l : repr (rb_mem s) x l; pl_r : repr (rb_mem s) x r }.

Lemma reps_place bg s k c l x r y :
  reps bg s (plug k (T c l x r)) -> y ∉ ids (plug k (T c l x r)) -> place s k c l x r y.
Proof.
  intros Hs Hy. pose proof Hs as [Hr _ Hn Ha _].
  pose proof (reps_nodup _ _ _ _ (x :: ids l ++ ids r) Hs ltac:(cbn [ids]; solve_Permutation)) as Hnd.
  rewrite ids_plug in *. apply repr_plug in Hr as (_ & _ & Hl & Hr). cbn [ids] in *.
  assert (Hp : par k ∈ before k ++ after k \/ k = []).
  { destruct k as [|[] k]; [by right|left..]; cbn; set_solver. }
  apply NoDup_app in Hnd as (HnK & HdK & Hnd). apply NoDup_cons in Hnd as [Hxn Hnd].
  apply NoDup_app in Hnd as (Hnl & Hdlr & Hnr).
  rewrite !Forall_app, !Forall_cons in Ha.
  assert (HK : par k ∉ x :: ids l ++ ids r \/ k = []) by (destruct Hp; [left; by apply HdK|by right]).
  assert (HyK : y <> par k \/ k = []).
  { destruct Hp as [Hp|]; [left|by right]. intros ->. set_solver. }
  split; try tauto; try done; try set_solver.
  all: destruct HK as [HK|]; [left; set_solver|by right].
Qed.

(** [rb_replace_node] puts the replacement exactly in the victim's place: the
    shape, the colours and the in-order sequence are kept with the victim's
    address replaced, so the tree is red-black again, and no memory
    outside the tree and the two nodes changes. *)
Theorem rb_replace_correct bg s k c l x r y :
  reps bg s (plug k (T c l x r)) -> node_addr y -> y ∉ ids (plug k (T c l x r)) ->
  is_Some (rb_mem s !! y) ->
  exists s' n, rb_replace_node x y s = Some (tt, s') /\
    reps (<[x := n]> bg) s' (plug k (T c l y r)) /\
    (rb_inv (plug k (T c l x r)) -> rb_inv (plug k (T c l y r))).
Proof.
  intros Hs Hya Hy [ny Hny].
  pose proof (reps_place _ _ _ _ _ _ _ _ Hs Hy) as [Hxk Hyk Hlk Hrk Hxl Hxr Hyl Hyr Hxy Hlr Hal Har Hl Hr].
  destruct (reps_okp _ _ _ _ Hs) as [Hp _].
  pose proof (at_addr _ _ _ _ _ _ _ Hs) as Hxa.
  destruct (node_addr_ok x Hxa) as [Hxo Hx0], (node_addr_ok y Hya) as [Hyo Hy0].
  pose proof (at_lookup _ _ _ _ _ _ _ Hs) as Hx.
  set (node := RbNode (pcw (par k) c) (addr r) (addr l)) in *.
  eexists _, node. split; [|split; [exact (replace_reps bg s k c l x r y Hs Hya Hy)|]].
  2:{ intros [n Hi]. apply unplug_rb in Hi as (c' & d' & n' & Ht & Hc & Hk).
      eapply (plug_rb k c' n' d'); [by apply Hk|inversion Ht; subst; eauto with kernel|naive_solver]. }
  unfold rb_replace_node. xr (at_parent _ _ _ _ _ _ _ Hs).
  erewrite run_bind by (eapply relink_left; [done|]; eapply (reps_link _ _ _ _ _ Hs); done).
  pose proof (relink_at k y s x node Hxk Hx) as Hx1.
  xr (get_left_ok x node _ Hx0 Hx1).
  assert (Hsub : forall t, repr (rb_mem s) x t -> (par k ∉ ids t) \/ k = [] -> repr (rb_mem (relink k y s)) x t).
  { intros t Ht Hkt. eapply repr_ext; [|exact Ht]. intros z Hz. rewrite relink_mem.
    destruct k as [|f k']; [done|]. rewrite decide_False; [done|]. destruct Hkt; [|done].
    intros ->. done. }
  xr (adopt_ok l y x (relink k y s) (Hsub l Hl Hlk) Hxo Hyo Hal).
  erewrite run_bind by (apply get_right_ok; [done|cbn [rb_mem]; rewrite adopt_out by done; exact Hx1]).
  cbn [rb_right node].
  erewrite run_bind by (apply (adopt_ok r y x); [cbn [rb_mem]; eapply repr_ext; [|exact (Hsub r Hr Hrk)];
    intros z Hz; apply adopt_out; naive_solver|done..]). cbn [rb_mem rb_root].
  erewrite run_bind by (apply load_ok; [done|cbn [rb_mem]; rewrite !adopt_out by done; exact Hx1]).
  erewrite store_ok; [|done|].
  - cbn [rb_mem rb_root]. rewrite <- (swap_relink k c l y r s) by done. fold node.
    rewrite <- relink_insert by done. cbn [rb_mem rb_root]. by rewrite !adopt_insert by done.
  - cbn [rb_mem]. rewrite !adopt_out by done. exact (relink_at k y s y ny Hyk Hny).
Qed.

(** ** Erasing a node with two children *)

(** The unlinking of the successor is the splice of a node without a left child. *)
Lemma unlink_succ bg s k c l x kr cy y d :
  let kk := kr ++ FR c l x :: k in
  reps bg s (plug kk (T cy E y d)) -> Forall is_FL kr ->
  exists s1, (child ← get_right y; parent ← rb_parent y; color ← rb_color y;
      when (nonnull child) (rb_set_parent child parent);;
      parent ← (if parent =? x then set_right parent child;; mret y
                else set_left parent child;; mret parent);
      mret (child, parent, color)) s
    = Some (addr d, (if decide (kr = []) then y else par kr), cz cy, s1) /\
    reps (<[y := RbNode (pcw (par kk) cy) (addr d) NULL]> bg) s1 (plug kk d).
Proof.
  intros kk Hs Hkr. destruct (splice_ok bg s kk cy E y d d Hs) as (s1 & He & Hs1 & Hs1e); [by left|].
  exists s1. split; [|exact Hs1].
  xr (at_right _ _ _ _ _ _ _ Hs). xr (at_parent _ _ _ _ _ _ _ Hs). xr (at_color _ _ _ _ _ _ _ Hs).
  destruct (reps_okp _ _ _ _ Hs) as [Hp Ha]. pose proof (rs_repr _ _ _ Hs) as Hr.
  apply repr_plug in Hr as (Hk & Hy & _ & Hd). cbn [ids app] in Ha. apply Forall_cons in Ha as [Hya Hda].
  destruct (node_addr_ok y Hya) as [Hyo Hy0].
  xr (adopt_ok d (par kk) y s Hd Hyo Hp Hda).
  assert (Hpl : link_ok (rb_mem (RbState (adopt d (par kk) (rb_mem s)) (rb_root s))) kk y).
  { eapply (reps_link _ _ _ _ _ Hs); [done|]. intros z Hz. cbn [rb_mem]. apply adopt_out.
    pose proof (rs_nodup _ _ _ Hs) as Hn. rewrite ids_plug in Hn.
    pose proof (hole_out _ _ _ Hn Hz) as Hout. cbn [ids app] in Hout. set_solver. }
  destruct Hpl as [Hn Hpar _]. subst s1. destruct kr as [|f kr].
  - cbn [app] in *. unfold kk in *. apply Forall_cons in Hpar as [Hx0 _]. cbn [par fid fnode] in *.
    rewrite Z.eqb_refl. erewrite run_bind; [done|].
    erewrite run_bind by exact (set_right_ok x _ _ Hx0 Hn (addr d)). done.
  - apply Forall_cons in Hkr as [Hf _]. destruct f as [cq q rq|]; [|done].
    unfold kk in *. cbn [app] in *. apply Forall_cons in Hpar as [Hq0 _]. cbn [par fid fnode] in *.
    assert (Hqx : q <> x).
    { intros ->. pose proof (rs_nodup _ _ _ Hs) as Hnd. rewrite ids_plug in Hnd.
      cbn [before after] in Hnd. rewrite before_app, after_app in Hnd. cbn [before after] in Hnd.
      nodup. set_solver. }
    rewrite (proj2 (Z.eqb_neq _ _) Hqx). erewrite run_bind; [done|].
    erewrite run_bind by exact (set_left_ok q _ _ Hq0 Hn (addr d)). done.
Qed.

(** The successor [y] copied over [x]. *)
Lemma copy_over bg s k c l x r y :
  reps bg s (plug k (T c l x r)) -> l <> E -> node_addr y -> y ∉ ids (plug k (T c l x r)) ->
  is_Some (rb_mem s !! y) ->
  exists s', (w ← get_pc x; set_pc y (fun _ => w);;
      r ← get_right x; set_right y r;;
      l ← get_left x; set_left y l;;
      op ← rb_parent x;
      (if nonnull op then
         opl ← get_left op; if opl =? x then set_left op y else set_right op y
       else set_root y);;
      l ← get_left x; rb_set_parent l y;;
      r ← get_right x; when (nonnull r) (rb_set_parent r y)) s = Some (tt, s') /\
    reps (<[x := RbNode (pcw (par k) c) (addr r) (addr l)]> bg) s' (plug k (T c l y r)).
Proof.
  intros Hs Hle Hya Hy [ny Hny].
  pose proof (reps_place _ _ _ _ _ _ _ _ Hs Hy) as [Hxk Hyk Hlk Hrk Hxl Hxr Hyl Hyr Hxy Hlr Hal Har Hl Hr].
  destruct (reps_okp _ _ _ _ Hs) as [Hp _].
  pose proof (at_addr _ _ _ _ _ _ _ Hs) as Hxa.
  destruct (node_addr_ok x Hxa) as [Hxo Hx0], (node_addr_ok y Hya) as [Hyo Hy0].
  pose proof (at_lookup _ _ _ _ _ _ _ Hs) as Hx.
  set (node := RbNode (pcw (par k) c) (addr r) (addr l)) in *.
  eexists. split; [|exact (replace_reps bg s k c l x r y Hs Hya Hy)].
  xr (get_pc_ok x node s Hx0 Hx). unfold set_pc at 1.
  erewrite run_bind by (apply store_ok; [done|exact Hny]). fld.
  erewrite run_bind by (apply get_right_ok; [done|lk]). fld.
  erewrite run_bind by (apply set_right_ok; [done|lk]). fld. rewrite insert_insert_eq.
  erewrite run_bind by (apply get_left_ok; [done|lk]). fld.
  erewrite run_bind by (apply set_left_ok; [done|lk]). fld. rewrite insert_insert_eq.
  erewrite run_bind by (eapply rb_parent_ok; [done|lk|done|done]). fld.
  set (s2 := RbState (<[y := _]> (rb_mem s)) (rb_root s)).
  assert (Hx2 : rb_mem s2 !! x = Some node) by (unfold s2; lk).
  erewrite run_bind by (eapply relink_left'; [done|]; eapply (reps_link _ _ _ _ _ Hs); [done|];
    intros z Hz; unfold s2; cbn [rb_mem]; rewrite lookup_insert_ne;
    [done|rewrite ids_plug in Hy; set_solver]).
  pose proof (relink_at k y s2 x node Hxk Hx2) as Hx3.
  assert (Hsub : forall t, repr (rb_mem s) x t -> y ∉ ids t -> (par k ∉ ids t) \/ k = [] ->
    repr (rb_mem (relink k y s2)) x t).
  { intros t Ht Hyt Hkt. eapply repr_ext; [|exact Ht]. intros z Hz. rewrite relink_mem.
    destruct k as [|f k']; [|rewrite decide_False by (destruct Hkt; [intros ->; done|done])];
      unfold s2; cbn [rb_mem]; rewrite lookup_insert_ne; congruence. }
  xr (get_left_ok x node _ Hx0 Hx3).
  pose proof (adopt_ok l y x (relink k y s2) (Hsub l Hl Hyl Hlk) Hxo Hyo Hal) as Hadl.
  assert (Hln : nonnull (addr l) = true).
  { pose proof (at_null bg s (FL c x r :: k) l Hs) as Hn. rewrite Hn. by destruct l. }
  unfold when in Hadl. rewrite Hln in Hadl. xr Hadl.
  erewrite run_bind by (apply get_right_ok; [done|cbn [rb_mem]; rewrite adopt_out by done; exact Hx3]).
  cbn [rb_right node].
  erewrite (adopt_ok r y x); [| |done..].
  - cbn [rb_mem rb_root]. rewrite <- (swap_relink k c l y r s) by done. by destruct k.
  - cbn [rb_mem]. eapply repr_ext; [|exact (Hsub r Hr Hyr Hrk)].
    intros z Hz. apply adopt_out. naive_solver.
Qed.

(** [same_run]: two programs that run the same commands up to their last one. *)
Ltac same_run :=
  unfold mbind, M_bind, mret, M_ret;
  repeat match goal with
  | |- context [match ?m with Some _ => _ | None => None end] =>
    destruct m as [[? ?]|]; [|intros; done]
  end.

Lemma erase_two_run fuel bg s k c l x kr cy y d :
  let r := plug kr (T cy E y d) in
  let r' := plug kr d in
  reps bg s (plug k (T c l x r)) -> l <> E -> Forall is_FL kr ->
  go_left fuel (addr r) s = Some (y, s) ->
  exists s' nx, rb_erase_two fuel x s =
      Some (addr d, par (kr ++ FR c l y :: k), cz cy, s') /\
    reps (<[x := nx]> bg) s' (plug (kr ++ FR c l y :: k) d).
Proof.
  intros r r' Hs Hl Hkr Hgo.
  assert (Hsk : reps bg s (plug (kr ++ FR c l x :: k) (T cy E y d))) by (by rewrite plug_app).
  destruct (unlink_succ bg s k c l x kr cy y d Hsk Hkr) as (s1 & He1 & Hs1).
  rewrite plug_app in Hs1. change (reps (<[y := RbNode (pcw (par (kr ++ FR c l x :: k)) cy) (addr d) NULL]> bg)
    s1 (plug k (T c l x r'))) in Hs1.
  assert (Hy : y ∉ ids (plug k (T c l x r'))).
  { pose proof (rs_nodup _ _ _ Hsk) as Hn. rewrite ids_plug in Hn.
    change (plug k (T c l x r')) with (plug (FR c l x :: k) r'). unfold r'. rewrite <- plug_app, ids_plug.
    cbn [ids app] in Hn. apply (NoDup_Permutation_proper _ (y :: before (kr ++ FR c l x :: k) ++ ids d ++ after (kr ++ FR c l x :: k))) in Hn;
      [|solve_Permutation]. by apply NoDup_cons in Hn as [Hn _]. }
  assert (Hya : node_addr y) by exact (at_addr _ _ _ _ _ _ _ Hsk).
  destruct (copy_over _ s1 k c l x r' y Hs1 Hl Hya Hy) as (s2 & He2 & Hs2).
  { rewrite (rs_bg _ _ _ Hs1) by done. rewrite lookup_insert_eq. done. }
  exists s2, (RbNode (pcw (par k) c) (addr r') (addr l)). split.
  - unfold rb_erase_two. erewrite run_bind by exact (at_right _ _ _ _ _ _ _ Hs).
    erewrite run_bind by exact Hgo.
    assert (Hpar : par (kr ++ FR c l y :: k) = if decide (kr = []) then y else par kr).
    { rewrite par_app. destruct kr; [by rewrite decide_True|by rewrite decide_False]. }
    rewrite Hpar. revert He1. same_run. intros [= <- <- <- <-]. revert He2. same_run.
    intros [=]; subst; done.
  - rewrite plug_app. change (plug (FR c l y :: k) (plug kr d)) with (plug k (T c l y r')).
    destruct Hs2 as [H1 H2 H3 H4 H5]. split; try done. intros z Hz. rewrite H5 by done.
    assert (z <> y). { intros ->. apply Hz. rewrite ids_plug. cbn [ids]. set_solver. }
    destruct (decide (z = x)) as [->|]; [by rewrite !lookup_insert_eq|].
    by rewrite !lookup_insert_ne by done.
Qed.

Lemma rbc_swap c n kr c0 l x y k :
  rbc c n (kr ++ FR c0 l x :: k) -> rbc c n (kr ++ FR c0 l y :: k).
Proof.
  revert c n. induction kr as [|f kr IH]; intros c n H; cbn [app] in *;
    inversion H; subst; eauto with kernel.
Qed.

(** The end of [rb_erase]: only a black node that left needs the repair. *)
Lemma recolor_ok fuel bg s k u c :
  reps bg s (plug k u) -> (c = Red -> rb_inv (plug k u)) -> (c = Black -> short k u) ->
  (length k + 2 <= fuel)%nat ->
  exists s' t', when (cz c =? RB_BLACK) (__rb_erase_color fuel (addr u) (par k)) s = Some (tt, s') /\
    reps bg s' t' /\ rb_inv t' /\ ids t' = before k ++ ids u ++ after k.
Proof.
  intros Hs Hr Hb Hf. destruct c.
  - exists s, (plug k u). rewrite ids_plug. eauto.
  - destruct (erase_color_ok fuel bg s k u Hs (Hb eq_refl)) as (s' & t' & He & H1 & H2 & H3);
      [destruct (is_red u); lia|]. exists s', t'. eauto.
Qed.

(** What the place of a node with at most one child [u] lacks once it left. *)
Lemma gone_ok k c l x r u :
  rb_inv (plug k (T c l x r)) -> l = E /\ u = r \/ r = E /\ u = l ->
  exists c' n, rbc c' n k /\ (c = Red -> rbt Black n u) /\
    (c = Black -> exists n', n = S n' /\ if is_red u then rbt Black n (blacken u) else rbt Black n' u).
Proof.
  intros [m Hi] Hu. apply unplug_rb in Hi as (c' & d' & n & Ht & _ & Hk). specialize (Hk eq_refl).
  exists c', n. split; [done|].
  assert (Hb : forall c1 n1 t, rbt c1 n1 t -> if is_red t then rbt Black (S n1) (blacken t) else rbt Black n1 t).
  { intros c1 n1 t H. destruct (is_red t) eqn:Et; [|by eapply rbt_black_inv].
    destruct (rbt_red_inv _ _ _ H Et) as (a & z & b & -> & Ha & Hb). cbn. eauto with kernel. }
  inversion Ht; subst.
  - split; [|done]. intros _. destruct Hu as [[-> ->]|[-> ->]]; done.
  - split; [done|]. intros _. eexists; split; [done|].
    destruct Hu as [[-> ->]|[-> ->]]; by eapply Hb.
Qed.

Lemma erase_ok fuel bg s k c l x r :
  reps bg s (plug k (T c l x r)) -> rb_inv (plug k (T c l x r)) ->
  rb_fuel (length (ids (plug k (T c l x r)))) fuel ->
  exists s' t' nx, rb_erase fuel x s = Some (tt, s') /\
    reps (<[x := nx]> bg) s' t' /\ rb_inv t' /\
    ids (plug k (T c l x r)) = (before k ++ ids l) ++ x :: (ids r ++ after k) /\
    ids t' = (before k ++ ids l) ++ (ids r ++ after k).
Proof.
  intros Hs Hi Hf. pose proof (rb_fuel_depth _ _ _ _ Hi eq_refl Hf) as Hd.
  assert (Hids : ids (plug k (T c l x r)) = (before k ++ ids l) ++ x :: (ids r ++ after k)).
  { rewrite ids_plug. cbn [ids]. by simplify_list_eq. }
  unfold rb_erase. xr (at_left _ _ _ _ _ _ _ Hs). xr (at_right _ _ _ _ _ _ _ Hs).
  rewrite (at_null bg s (FL c x r :: k) l Hs), (at_null bg s (FR c l x :: k) r Hs).
  assert (Hone : forall u, l = E /\ u = r \/ r = E /\ u = l ->
    exists s' t' nx, (cpc ← rb_erase_one x (addr u);
        let '(child, parent, color) := cpc in
        when (color =? RB_BLACK) (__rb_erase_color fuel child parent)) s = Some (tt, s') /\
      reps (<[x := nx]> bg) s' t' /\ rb_inv t' /\ ids t' = before k ++ ids u ++ after k).
  { intros u Hu. destruct (splice_ok bg s k c l x r u Hs Hu) as (s1 & He & Hs1 & _).
    rewrite (run_bind _ _ _ _ _ He).
    destruct (gone_ok k c l x r u Hi Hu) as (c' & n & Hk & Hred & Hblack).
    destruct (recolor_ok fuel _ s1 k u c Hs1) as (s2 & t2 & H2 & H3 & H4 & H5); [| |lia|eauto 10].
    - intros ->. by eapply plug_rb; [exact Hk|apply Hred|].
    - intros ->. destruct Hblack as (n' & -> & Hu'); [done|]. by exists c', n'. }
  destruct l as [|cl ll lx lr] eqn:El; [|destruct r as [|cr rl rx rr] eqn:Er].
  - destruct (Hone r) as (s' & t' & nx & H1 & H2 & H3 & H4); [by left|]. exists s', t', nx.
    do 4 (split; [done|]). rewrite H4. cbn [ids]. by rewrite app_nil_r.
  - destruct (Hone (T cl ll lx lr)) as (s' & t' & nx & H1 & H2 & H3 & H4); [by right|]. exists s', t', nx.
    do 4 (split; [done|]). rewrite H4. by rewrite <- app_assoc.
  - rewrite <- El, <- Er in *. clear Hone. cbn [negb].
    destruct (go_left_ok fuel bg s (FR c l x :: k) r Hs) as (kr & cy & y & d & Hr & Hkr & Hgo);
      [by rewrite Er|cbn [height] in Hd; lia|].
    rewrite Hr in Hs, Hgo, Hi, Hd. clear Er.
    destruct (erase_two_run fuel bg s k c l x kr cy y d Hs) as (s1 & nx & He & Hs1);
      [by rewrite El|done|done|].
    xr He.
    assert (Hi' : rb_inv (plug (kr ++ FR c l x :: k) (T cy E y d))) by (by rewrite plug_app).
    destruct (gone_ok _ cy E y d d Hi') as (c' & n & Hk & Hred & Hblack); [by left|].
    apply (rbc_swap _ _ _ _ _ _ y) in Hk.
    destruct (recolor_ok fuel _ s1 (kr ++ FR c l y :: k) d cy Hs1) as (s2 & t2 & H2 & H3 & H4 & H5).
    + intros ->. by eapply plug_rb; [exact Hk|apply Hred|].
    + intros ->. destruct Hblack as (n' & -> & Hu'); [done|]. by exists c', n'.
    + pose proof (height_plug kr (T cy E y d)). rewrite length_app. cbn [length height] in *. lia.
    + exists s2, t2, nx. split; [done|]. split; [done|]. split; [done|]. split; [done|].
      rewrite H5, Hr, before_app, after_app, ids_plug. cbn [before after ids].
      rewrite (before_FL kr Hkr). by simplify_list_eq.
Qed.

(** A sequence without one of its elements. *)
Definition without (x : Z) (l : list Z) : list Z := filter (fun y => y <> x) l.

Lemma without_notin x l : x ∉ l -> without x l = l.
Proof.
  induction l as [|y l IH]; intros H; [done|]. unfold without in *.
  rewrite filter_cons_True by set_solver. rewrite IH; set_solver.
Qed.

Lemma without_mid x A B : NoDup (A ++ x :: B) -> without x (A ++ x :: B) = A ++ B.
Proof.
  intros H. nodup. unfold without. rewrite filter_app, filter_cons_False by tauto.
  f_equal; apply without_notin; set_solver.
Qed.

(** C13: [rb_erase] removes the node and nothing else: it succeeds on every node of
    any red-black tree (no NULL or stray pointer is followed, every loop ends within
    2 log2(m+1) + 3 turns on a tree of m nodes), and the memory again holds a
    red-black tree whose in-order sequence is the old one without the node; only the
    removed node's own memory is left changed outside the tree. *)
Theorem rb_erase_correct fuel bg s k c l x r :
  reps bg s (plug k (T c l x r)) -> rb_inv (plug k (T c l x r)) ->
  rb_fuel (length (ids (plug k (T c l x r)))) fuel ->
  exists s' t' nx, rb_erase fuel x s = Some (tt, s') /\
    reps (<[x := nx]> bg) s' t' /\ rb_inv t' /\
    ids t' = without x (ids (plug k (T c l x r))).
Proof.
  intros Hs Hi Hf. destruct (erase_ok fuel bg s k c l x r Hs Hi Hf) as (s' & t' & nx & H1 & H2 & H3 & H4 & H5).
  exists s', t', nx. do 3 (split; [done|]). rewrite H5, H4. symmetry. apply without_mid.
  rewrite <- H4. apply (rs_nodup _ _ _ Hs).
Qed.

Lemma rb_erase_correct_witness :
  exists s' t' n, rb_erase 10 8 demo = Some (tt, s') /\
    reps (<[8 := n]> demo_mem) s' t' /\ rb_inv t' /\ ids t' = [4; 12].
Proof.
  destruct (rb_erase_correct 10 demo_mem demo [] Black (T Red E 4 E) 8 (T Red E 12 E))
    as (s' & t' & n & H1 & H2 & H3 & H4).
  - exact demo_reps.
  - exact demo_inv.
  - unfold rb_fuel. vm_compute. lia.
  - exists s', t', n. auto.
Defined.

Lemma rb_replace_correct_witness :
  exists s' n, rb_replace_node 8 16 demo = Some (tt, s') /\
    reps (<[8 := n]> demo_mem) s' (T Black (T Red E 4 E) 16 (T Red E 12 E)).
Proof.
  destruct (rb_replace_correct demo_mem demo [] Black (T Red E 4 E) 8 (T Red E 12 E) 16)
    as (s' & n & H1 & H2 & _).
  - exact demo_reps.
  - apply (bool_decide_unpack _). vm_compute. done.
  - apply (bool_decide_unpack _). vm_compute. done.
  - vm_compute. eauto.
  - exists s', n. auto.
Defined.
