(* ===== verification/RbWalk.v ===== *)
(** Walks over a red-black tree, and the theorems about the library: insertion,
    removal, order and termination. *)
From stdpp Require Import gmap.
From S2P Require Import Prelude Rbtree RbInsert RbErase.

Local Open Scope kernel_scope.

(** ** Walking the tree in order *)

Definition first_of (l : list Z) : Z := default NULL (head l).
Definition last_of (l : list Z) : Z := default NULL (last l).

Lemma find_node t x : x ∈ ids t -> exists k c l r, t = plug k (T c l x r).
Proof.
  induction t as [|c l IHl y r IHr]; cbn [ids]; [set_solver|].
  rewrite elem_of_app, elem_of_cons. intros [H|[->|H]].
  - destruct (IHl H) as (k & c' & l' & r' & ->). exists (k ++ [FL c y r]), c', l', r'. by rewrite plug_app.
  - by exists [], c, l, r.
  - destruct (IHr H) as (k & c' & l' & r' & ->). exists (k ++ [FR c l y]), c', l', r'. by rewrite plug_app.
Qed.

Lemma go_left_first fuel bg s k t :
  reps bg s (plug k t) -> t <> E -> (height t <= fuel)%nat ->
  go_left fuel (addr t) s = Some (first_of (ids t), s).
Proof.
  intros Hs Ht Hf. destruct (go_left_ok fuel bg s k t) as (kr & c & y & d & -> & Hk & ->); [done..|].
  rewrite ids_plug, (before_FL _ Hk). done.
Qed.

Lemma go_right_last fuel bg s k t :
  reps bg s (plug k t) -> t <> E -> (height t <= fuel)%nat ->
  go_right fuel (addr t) s = Some (last_of (ids t), s).
Proof.
  intros Hs Ht Hf. destruct (go_right_ok fuel bg s k t) as (kr & c & y & d & -> & Hk & ->); [done..|].
  rewrite ids_plug, (after_FR _ Hk), app_nil_r. cbn [ids]. unfold last_of.
  by rewrite app_assoc, last_snoc.
Qed.

Lemma sibling_neb bg s k c1 c2 l x r t y :
  (reps bg s (plug k (T c1 t y (T c2 l x r))) \/ reps bg s (plug k (T c1 (T c2 l x r) y t))) ->
  (x =? addr t) = false.
Proof. intros H. apply Z.eqb_neq. intros He. by eapply sibling_ne. Qed.

Lemma up_right_ok fuel bg s k c l x r :
  reps bg s (plug k (T c l x r)) -> (length k < fuel)%nat ->
  up_right fuel x s = Some (first_of (after k), s).
Proof.
  revert fuel c l x r. induction k as [|f k IH]; intros fuel c l x r Hs Hf; (destruct fuel as [|fuel]; [lia|]);
    cbn [up_right]; xr (at_parent _ _ _ _ _ _ _ Hs); [done|].
  destruct f as [cp p o|cp o p]; cbn [par fid].
  - rewrite (at_null bg s k (T cp (T c l x r) p o) Hs : nonnull p = true).
    xr (at_right bg s k cp _ p _ Hs).
    by rewrite (sibling_neb bg s k cp c l x r o p (or_intror Hs)).
  - rewrite (at_null bg s k (T cp o p (T c l x r)) Hs : nonnull p = true).
    xr (at_right bg s k cp _ p _ Hs). cbn [addr]. rewrite Z.eqb_refl. cbn [after].
    eapply (IH fuel cp o p (T c l x r)); [exact Hs|cbn in Hf; lia].
Qed.

Lemma up_left_ok fuel bg s k c l x r :
  reps bg s (plug k (T c l x r)) -> (length k < fuel)%nat ->
  up_left fuel x s = Some (last_of (before k), s).
Proof.
  revert fuel c l x r. induction k as [|f k IH]; intros fuel c l x r Hs Hf; (destruct fuel as [|fuel]; [lia|]);
    cbn [up_left]; xr (at_parent _ _ _ _ _ _ _ Hs); [done|].
  destruct f as [cp p o|cp o p]; cbn [par fid].
  - rewrite (at_null bg s k (T cp (T c l x r) p o) Hs : nonnull p = true).
    xr (at_left bg s k cp _ p _ Hs). cbn [addr]. rewrite Z.eqb_refl. cbn [before].
    eapply (IH fuel cp (T c l x r) p o); [exact Hs|cbn in Hf; lia].
  - rewrite (at_null bg s k (T cp o p (T c l x r)) Hs : nonnull p = true).
    xr (at_left bg s k cp _ p _ Hs).
    rewrite (sibling_neb bg s k cp c l x r o p (or_introl Hs)).
    cbn [before]. unfold last_of. by rewrite app_assoc, last_snoc.
Qed.

Lemma first_app l1 l2 : l1 <> [] -> first_of (l1 ++ l2) = first_of l1.
Proof. by destruct l1. Qed.
Lemma last_app l1 l2 : l2 <> [] -> last_of (l1 ++ l2) = last_of l2.
Proof.
  intros H. destruct l2 as [|x l2 _] using rev_ind; [done|]. unfold last_of.
  by rewrite app_assoc, !last_snoc.
Qed.
Lemma ids_nonempty t : t <> E -> ids t <> [].
Proof. destruct t; [done|]. cbn. intros _ H. by apply app_eq_nil in H as [_ H]. Qed.

Lemma parent_not_self bg s k c l x r :
  reps bg s (plug k (T c l x r)) -> (par k =? x) = false.
Proof.
  intros Hs. apply Z.eqb_neq. intros He. pose proof (rs_nodup _ _ _ Hs) as Hn. rewrite ids_plug in Hn.
  destruct (reps_okp _ _ _ _ Hs) as [_ Ha]. apply (par_out _ _ Hn Ha). rewrite He. cbn. set_solver.
Qed.

Lemma next_ok fuel bg s k c l x r :
  reps bg s (plug k (T c l x r)) -> (length k + height r < fuel)%nat ->
  rb_next fuel x s = Some (first_of (ids r ++ after k), s).
Proof.
  intros Hs Hf. unfold rb_next. xr (at_parent _ _ _ _ _ _ _ Hs).
  rewrite (parent_not_self _ _ _ _ _ _ _ Hs). xr (at_right _ _ _ _ _ _ _ Hs).
  rewrite (at_null bg s (FR c l x :: k) r Hs). destruct r as [|cr rl rx rr] eqn:Er.
  - rewrite (up_right_ok fuel bg s k c l x E Hs); [done|lia].
  - rewrite <- Er in *. rewrite first_app by (apply ids_nonempty; by rewrite Er).
    apply (go_left_first fuel bg s (FR c l x :: k) r Hs); [by rewrite Er|lia].
Qed.

Lemma prev_ok fuel bg s k c l x r :
  reps bg s (plug k (T c l x r)) -> (length k + height l < fuel)%nat ->
  rb_prev fuel x s = Some (last_of (before k ++ ids l), s).
Proof.
  intros Hs Hf. unfold rb_prev. xr (at_parent _ _ _ _ _ _ _ Hs).
  rewrite (parent_not_self _ _ _ _ _ _ _ Hs). xr (at_left _ _ _ _ _ _ _ Hs).
  rewrite (at_null bg s (FL c x r :: k) l Hs). destruct l as [|cr rl rx rr] eqn:Er.
  - rewrite (up_left_ok fuel bg s k c E x r Hs) by lia. cbn [ids]. by rewrite app_nil_r.
  - rewrite <- Er in *. rewrite last_app by (apply ids_nonempty; by rewrite Er).
    apply (go_right_last fuel bg s (FL c x r :: k) l Hs); [by rewrite Er|lia].
Qed.

Lemma nodup_split (x : Z) l1 r1 l2 r2 :
  NoDup (l1 ++ x :: r1) -> l1 ++ x :: r1 = l2 ++ x :: r2 -> l1 = l2 /\ r1 = r2.
Proof.
  revert l2. induction l1 as [|a l1 IH]; intros [|b l2] Hn He; cbn in *; simplify_eq.
  - done.
  - exfalso. apply NoDup_cons in Hn as [Hn _]. set_solver.
  - exfalso. apply NoDup_cons in Hn as [Hn _]. set_solver.
  - apply NoDup_cons in Hn as [_ Hn]. edestruct IH as [-> ->]; [exact Hn|eassumption|done].
Qed.

Lemma walk_ok fuel bg s t :
  reps bg s t -> rb_inv t -> rb_fuel (length (ids t)) fuel ->
  rb_first fuel s = Some (first_of (ids t), s) /\ rb_last fuel s = Some (last_of (ids t), s) /\
  forall A x B, ids t = A ++ x :: B ->
    rb_next fuel x s = Some (first_of B, s) /\ rb_prev fuel x s = Some (last_of A, s).
Proof.
  intros Hs Hi Hf. pose proof (rb_fuel_depth t fuel [] t Hi eq_refl Hf) as Hd. cbn in Hd.
  split; [|split].
  - unfold rb_first. erewrite run_bind by done. rewrite (rs_root _ _ _ Hs).
    rewrite (at_null bg s [] t Hs). destruct t as [|c l x r] eqn:Et; [done|]. rewrite <- Et in *.
    apply (go_left_first fuel bg s [] t Hs); [by rewrite Et|lia].
  - unfold rb_last. erewrite run_bind by done. rewrite (rs_root _ _ _ Hs).
    rewrite (at_null bg s [] t Hs). destruct t as [|c l x r] eqn:Et; [done|]. rewrite <- Et in *.
    apply (go_right_last fuel bg s [] t Hs); [by rewrite Et|lia].
  - intros A x B HAB. destruct (find_node t x) as (k & c & l & r & ->); [rewrite HAB; set_solver|].
    pose proof (rb_fuel_depth _ _ _ _ Hi eq_refl Hf) as Hk. cbn [height] in Hk.
    pose proof (rs_nodup _ _ _ Hs) as Hn. rewrite ids_plug in HAB, Hn. cbn [ids] in HAB, Hn.
    assert (Heq : before k ++ (ids l ++ x :: ids r) ++ after k = (before k ++ ids l) ++ x :: (ids r ++ after k))
      by by simplify_list_eq.
    rewrite Heq in HAB, Hn. destruct (nodup_split x _ _ _ _ Hn HAB) as [<- <-].
    split; [apply (next_ok fuel bg s k c l x r Hs); lia|apply (prev_ok fuel bg s k c l x r Hs); lia].
Qed.

(** ** The theorems *)

(** On memory that holds a red-black tree, [rb_first] and [rb_last] give the
    ends of the in-order sequence (NULL when it is empty), and for every node [rb_next]
    and [rb_prev] give its neighbours in that sequence (NULL at the ends); they end, change
    nothing and follow no bad pointer. *)
Theorem rb_walk_correct fuel bg s t :
  reps bg s t -> rb_inv t -> rb_fuel (length (ids t)) fuel ->
  rb_first fuel s = Some (first_of (ids t), s) /\ rb_last fuel s = Some (last_of (ids t), s) /\
  forall A x B, ids t = A ++ x :: B ->
    rb_next fuel x s = Some (first_of B, s) /\ rb_prev fuel x s = Some (last_of A, s).
Proof. apply walk_ok. Qed.

(** Turns of a loop that are enough for any tree in a 32-bit memory. *)
Definition RB_TURNS : nat := 67.

(** C14: No operation of the library loops: on a red-black tree of fewer than 2^32
    nodes (any tree that fits in memory) the height is at most 64, and linking and
    colouring a new node at any empty place, erasing any node, finding the ends and
    stepping forwards and backwards all return with at most 67 turns of each loop. *)
Theorem rb_bounded_loops bg s t :
  reps bg s t -> rb_inv t -> len (ids t) < 2 ^ 32 ->
  (height t <= 64)%nat /\
  (forall k x, t = plug k E -> node_addr x -> x ∉ ids t -> is_Some (rb_mem s !! x) ->
     is_Some ((rb_link_node x (par k) (link_of k);; rb_insert_color RB_TURNS x) s)) /\
  (forall x, x ∈ ids t ->
     is_Some (rb_erase RB_TURNS x s) /\ is_Some (rb_next RB_TURNS x s) /\ is_Some (rb_prev RB_TURNS x s)) /\
  is_Some (rb_first RB_TURNS s) /\ is_Some (rb_last RB_TURNS s).
Proof.
  intros Hs Hi Hn. pose proof (rb_fuel_enough _ Hn : rb_fuel _ RB_TURNS) as Hf.
  pose proof (walk_ok RB_TURNS bg s t Hs Hi Hf) as (H1 & H2 & H3).
  split; [pose proof (rb_height t Hi); unfold rb_fuel, RB_TURNS in Hf; lia|].
  split; [|split; [|by rewrite H1, H2]].
  - intros k x -> Hx Hnx Hm. destruct (insert_ok RB_TURNS bg s k x) as (s' & t' & -> & _); done.
  - intros x Hx. destruct (list_elem_of_split _ _ Hx) as (A & B & HAB).
    destruct (H3 A x B HAB) as [-> ->]. split; [|done].
    destruct (find_node t x Hx) as (k & c & l & r & ->).
    destruct (erase_ok RB_TURNS bg s k c l x r) as (s' & t' & nx & -> & _); done.
Qed.

Lemma rb_walk_correct_witness :
  rb_first 10 demo = Some (4, demo) /\ rb_next 10 4 demo = Some (8, demo) /\
  rb_next 10 12 demo = Some (0, demo) /\ rb_prev 10 12 demo = Some (8, demo).
Proof.
  destruct (rb_walk_correct 10 demo_mem demo demo_tree) as (H1 & H2 & H3).
  - exact demo_reps.
  - exact demo_inv.
  - unfold rb_fuel. vm_compute. lia.
  - split; [exact H1|]. split; [exact (proj1 (H3 [] 4 [8; 12] eq_refl))|].
    exact (H3 [4; 8] 12 [] eq_refl).
Defined.

Lemma rb_bounded_loops_witness : is_Some (rb_erase RB_TURNS 12 demo) /\ is_Some (rb_last RB_TURNS demo).
Proof.
  destruct (rb_bounded_loops demo_mem demo demo_tree) as (_ & _ & H1 & _ & H2).
  - exact demo_reps.
  - exact demo_inv.
  - vm_compute. done.
  - split; [|exact H2]. apply H1. apply (bool_decide_unpack _). vm_compute. done.
Defined.
