(* ===== verification/RbIndex.v ===== *)
(** Red-black trees as indices: in-order sequences sorted by a key, the place a descent reaches, and the
    effect of [rb_insert_color] and [rb_erase] on an index of nodes ordered by a key. *)
From stdpp Require Import gmap sorting.
From S2P Require Import Prelude Rbtree RbInsert RbErase RbWalk.

Local Open Scope kernel_scope.

(** ** Sorted sequences *)

Definition sorted_by (key : Z -> Z) (l : list Z) : Prop :=
  StronglySorted (fun x y => key x <= key y) l.

Lemma sorted_app key l1 l2 :
  sorted_by key (l1 ++ l2) <->
  sorted_by key l1 /\ sorted_by key l2 /\ (forall x y, x ∈ l1 -> y ∈ l2 -> key x <= key y).
Proof.
  unfold sorted_by. induction l1 as [|a l1 IH]; cbn [app].
  - split; [intros; split; [constructor|]; split; [done|set_solver]|tauto].
  - split.
    + intros H. apply StronglySorted_inv in H as [H1 H2]. apply IH in H1 as (H3 & H4 & H5).
      rewrite Forall_app in H2. destruct H2 as [H6 H7]. rewrite Forall_forall in H7.
      split; [by constructor|]. split; [done|]. intros x y [->|Hx]%elem_of_cons Hy; auto.
    + intros (H1 & H2 & H3). apply StronglySorted_inv in H1 as [H4 H5]. constructor.
      * apply IH. split; [done|]. split; [done|]. intros x y Hx Hy. apply H3; [by right|done].
      * rewrite Forall_app. split; [done|]. apply Forall_forall. intros y Hy. apply H3; [by left|done].
Qed.

Lemma sorted_mid key l1 x l2 :
  sorted_by key (l1 ++ l2) -> (forall y, y ∈ l1 -> key y <= key x) -> (forall y, y ∈ l2 -> key x <= key y) ->
  sorted_by key (l1 ++ x :: l2).
Proof.
  intros (H1 & H2 & H3)%sorted_app Hl Hr. apply sorted_app. split; [done|]. split.
  - constructor; [done|]. by apply Forall_forall.
  - intros a b Ha [->|Hb]%elem_of_cons; auto.
Qed.

Lemma sorted_node key t c l x r :
  t = T c l x r -> sorted_by key (ids t) ->
  sorted_by key (ids l) /\ sorted_by key (ids r) /\
  (forall y, y ∈ ids l -> key y <= key x) /\ (forall y, y ∈ ids r -> key x <= key y).
Proof.
  intros -> (H1 & H2 & H3)%sorted_app. apply StronglySorted_inv in H2 as [H4 H5].
  rewrite Forall_forall in H5. split; [done|]. split; [done|]. split; [|done].
  intros y Hy. apply H3; [done|by left].
Qed.

Lemma sorted_ext key key' l :
  (forall x, x ∈ l -> key x = key' x) -> sorted_by key l -> sorted_by key' l.
Proof.
  induction l as [|a l IH]; intros H Hs; [constructor|].
  apply StronglySorted_inv in Hs as [H1 H2]. constructor; [apply IH; [set_solver|done]|].
  rewrite Forall_forall in *. intros x Hx. rewrite <- !H by set_solver. by apply H2.
Qed.

Lemma sorted_sublist key l1 l2 : sublist l1 l2 -> sorted_by key l2 -> sorted_by key l1.
Proof.
  intros H. induction H as [|a l1 l2 H IH|a l1 l2 H IH]; intros Hs; [done|..];
    apply StronglySorted_inv in Hs as [H1 H2].
  - constructor; [by apply IH|]. rewrite Forall_forall in *. intros x Hx.
    apply H2. eapply elem_of_submseteq; [exact Hx|by apply sublist_submseteq].
  - by apply IH.
Qed.

(** ** Descents *)

Lemma link_of_read bg s k t :
  reps bg s (plug k t) -> read_link (link_of k) s = Some (addr t, s).
Proof.
  intros Hs. destruct k as [|[c x r|c l x] k]; cbn [link_of read_link].
  - unfold get_root. by rewrite (rs_root _ _ _ Hs).
  - exact (at_left bg s k c t x r Hs).
  - exact (at_right bg s k c l x t Hs).
Qed.

(** The way a descent turned at a frame. *)
Definition turned_at (key : Z -> Z) (kn : Z) (f : frame) : Prop :=
  match f with FL _ x _ => kn < key x | FR _ _ x => key x <= kn end.

Lemma turned_bounds key kn k :
  Forall (turned_at key kn) k -> sorted_by key (before k ++ after k) ->
  (forall y, y ∈ before k -> key y <= kn) /\ (forall y, y ∈ after k -> kn < key y).
Proof.
  induction 1 as [|f k Hf Hk IH]; intros Hs; [set_solver|].
  destruct f as [c x r|c l x]; cbn [before after turned_at] in *.
  - destruct IH as [IH1 IH2].
    { eapply sorted_sublist; [|exact Hs]. apply sublist_app; [done|].
      apply sublist_app_r. exists [], (after k). split; [done|]. split; [apply sublist_nil_l|done]. }
    apply sorted_app in Hs as (_ & Hs & _). split; [done|].
    apply sorted_app in Hs as (Hs & _ & _). apply StronglySorted_inv in Hs as [_ Hs].
    rewrite Forall_forall in Hs. intros y [[->|Hy]%elem_of_cons|Hy]%elem_of_app; [done| |by apply IH2].
    specialize (Hs y Hy). cbn in Hs. lia.
  - destruct IH as [IH1 IH2].
    { eapply sorted_sublist; [|exact Hs]. apply sublist_app; [|done]. apply sublist_inserts_r. done. }
    apply sorted_app in Hs as (Hs & _ & _). split; [|done].
    apply sorted_app in Hs as (_ & Hs & _). apply sorted_app in Hs as (_ & _ & Hs).
    intros y [Hy|[Hy|Hy%list_elem_of_singleton]%elem_of_app]%elem_of_app; [by apply IH1| |by subst].
    specialize (Hs y x Hy). cbn in Hs. specialize (Hs ltac:(set_solver)). lia.
Qed.

(** ** An index: a red-black tree that holds the nodes [S] in the order of [key] *)

Definition index (m : gmap Z rb_node) (root : Z) (S : gset Z) (key : Z -> Z) : Prop :=
  exists t, repr m NULL t /\ root = addr t /\ NoDup (ids t) /\ Forall node_addr (ids t) /\
    rb_inv t /\ (forall n, n ∈ ids t <-> n ∈ S) /\ sorted_by key (ids t).

Lemma index_reps m root S key :
  index m root S key ->
  exists t, reps m (RbState m root) t /\ rb_inv t /\ (forall n, n ∈ ids t <-> n ∈ S) /\
    sorted_by key (ids t) /\ rb_fuel (length (ids t)) RB_FUEL.
Proof.
  intros (t & H1 & H2 & H3 & H4 & H5 & H6 & H7). exists t. split; [by split|]. do 3 (split; [done|]).
  apply rb_fuel_enough.
  assert (Hsub : ids t ⊆+ seqZ 1 (2 ^ 32 - 1)).
  { apply NoDup_submseteq; [done|]. intros x Hx. rewrite Forall_forall in H4.
    destruct (H4 x Hx) as [Hr _]. apply elem_of_seqZ. lia. }
  apply submseteq_length in Hsub. rewrite length_seqZ in Hsub. lia.
Qed.

Lemma index_frame m m' root S key :
  (forall y, y ∈ S -> m' !! y = m !! y) -> index m root S key -> index m' root S key.
Proof.
  intros Hm (t & H1 & H2 & H3 & H4 & H5 & H6 & H7). exists t. split; [|done].
  eapply repr_ext; [|exact H1]. intros y Hy. by apply Hm, H6.
Qed.

Lemma index_key m root S key key' :
  (forall x, x ∈ S -> key x = key' x) -> index m root S key -> index m root S key'.
Proof.
  intros Hk (t & H1 & H2 & H3 & H4 & H5 & H6 & H7). exists t. do 6 (split; [done|]).
  eapply sorted_ext; [|exact H7]. intros x Hx. by apply Hk, H6.
Qed.

Lemma reps_index bg s t S key :
  reps bg s t -> rb_inv t -> (forall n, n ∈ ids t <-> n ∈ S) -> sorted_by key (ids t) ->
  index (rb_mem s) (rb_root s) S key.
Proof. intros [H1 H2 H3 H4 H5] ? ? ?. exists t. done. Qed.

Lemma elem_of_mid (x n : Z) A B : x ∉ A ++ B -> (n ∈ A ++ B <-> n ∈ A ++ x :: B /\ n <> x).
Proof. set_solver. Qed.

(** Removing a node from an index. *)
Lemma index_erase m root S key x :
  index m root S key -> x ∈ S ->
  exists s', rb_erase RB_FUEL x (RbState m root) = Some (tt, s') /\
    index (rb_mem s') (rb_root s') (S ∖ {[x]}) key /\
    (forall y, y ∉ S -> rb_mem s' !! y = m !! y) /\
    (forall y, is_Some (m !! y) -> is_Some (rb_mem s' !! y)).
Proof.
  intros (t & Hs & Hi & HS & Hsort & Hf)%index_reps Hx.
  destruct (find_node t x) as (k & c & l & r & ->); [by apply HS|].
  destruct (erase_ok RB_FUEL m _ k c l x r Hs Hi Hf) as (s' & t' & nx & He & Hs' & Hi' & Hids & Hids').
  pose proof (rs_nodup _ _ _ Hs) as Hnd.
  assert (HS' : forall n, n ∈ ids t' <-> n ∈ S ∖ {[x]}).
  { intros n. rewrite Hids'. rewrite Hids in Hnd. 
    apply (NoDup_Permutation_proper _ (x :: (before k ++ ids l) ++ ids r ++ after k)) in Hnd; [|solve_Permutation].
    apply NoDup_cons in Hnd as [Hnx _].
    rewrite elem_of_difference, <- HS, Hids, not_elem_of_singleton. by apply elem_of_mid. }
  exists s'. split; [done|]. split; [|split].
  - eapply reps_index; [done|done|done|]. rewrite Hids'. rewrite Hids in Hsort.
    eapply sorted_sublist; [|exact Hsort]. apply sublist_app; [done|]. by apply sublist_cons.
  - intros y Hy. rewrite (rs_bg _ _ _ Hs') by (rewrite HS'; set_solver).
    rewrite lookup_insert_ne; [done|]. intros ->. done.
  - intros y Hy. destruct (decide (y ∈ ids t')) as [Hin|Hout].
    + destruct (find_node t' y Hin) as (k2 & c2 & l2 & r2 & ->).
      rewrite (at_lookup _ _ _ _ _ _ _ Hs'). done.
    + rewrite (rs_bg _ _ _ Hs') by done. destruct (decide (y = x)) as [->|].
      * rewrite lookup_insert_eq. done.
      * by rewrite lookup_insert_ne.
Qed.

(** Inserting a node with the key [key x] at the place a descent reached. *)
Lemma index_place m root S key k x :
  reps m (RbState m root) (plug k E) -> rb_inv (plug k E) -> rb_fuel (length (ids (plug k E))) RB_FUEL ->
  (forall n, n ∈ ids (plug k E) <-> n ∈ S) -> sorted_by key (ids (plug k E)) -> Forall (turned_at key (key x)) k ->
  x ∉ S -> node_addr x -> is_Some (m !! x) ->
  exists s', (rb_link_node x (par k) (link_of k);; rb_insert_color RB_FUEL x) (RbState m root) = Some (tt, s') /\
    index (rb_mem s') (rb_root s') ({[x]} ∪ S) key /\
    (forall y, y ∉ {[x]} ∪ S -> rb_mem s' !! y = m !! y) /\
    (forall y, is_Some (m !! y) -> is_Some (rb_mem s' !! y)).
Proof.
  intros Hs Hi Hf HS Hsort Hk Hx Hxa Hm.
  destruct (insert_ok RB_FUEL m _ k x Hs Hi Hxa) as (s' & t' & He' & Hs' & Hi' & Hids & Hids');
    [by rewrite HS|done|done|].
  rewrite Hids in Hsort, HS. destruct (turned_bounds key (key x) k Hk Hsort) as [Hb Ha].
  assert (HS' : forall n, n ∈ ids t' <-> n ∈ {[x]} ∪ S).
  { intros n. rewrite Hids', elem_of_union, elem_of_singleton, <- HS, !elem_of_app, elem_of_cons. tauto. }
  exists s'. split; [done|]. split; [|split].
  - eapply reps_index; [done|done|done|]. rewrite Hids'. apply sorted_mid; [done|done|].
    intros y Hy. specialize (Ha y Hy). lia.
  - intros y Hy. apply (rs_bg _ _ _ Hs'). by rewrite HS'.
  - intros y Hy. destruct (decide (y ∈ ids t')) as [Hin|Hout].
    + destruct (find_node t' y Hin) as (k2 & c2 & l2 & r2 & ->).
      rewrite (at_lookup _ _ _ _ _ _ _ Hs'). done.
    + by rewrite (rs_bg _ _ _ Hs').
Qed.
