(* ===== verification/Binder.v ===== *)
(** The buffer allocator of the binder driver (drivers/staging/android/binder.c).

    Every process that opens the driver maps a region that the driver carves into
    buffers.  A buffer is a 40-byte header followed by its data, up to the header of
    the next buffer; the headers are chained by address, free buffers are indexed by
    size and allocated ones by address in two red-black trees that share the memory of
    the headers, and only the pages that hold a header or allocated data are backed by memory.

    [binder_proc] has the fields of [struct binder_proc] the allocator uses.  The
    results of the page allocator and of the mapping functions are inputs.  BUG_ON,
    a missing header, releasing a page that is not there and an endless loop give no result. *)
From stdpp Require Import gmap.
From S2P Require Import Prelude Rbtree.

Local Open Scope kernel_scope.

(** ** Data *)

Definition PAGE_SIZE : Z := 4096.
Definition PAGE_MASK : Z := ~u (PAGE_SIZE - 1).
Definition ALIGN (x a : Z) : Z := Z.land (x +u (a - 1)) (~u (a - 1)).
Definition PAGE_ALIGN (x : Z) : Z := ALIGN x PAGE_SIZE.

(** [struct binder_buffer] on a 32-bit machine: [entry] at 0, [rb_node] at 8, the flags
    at 20, then four words; [data] starts at 40. *)
Definition sizeof_binder_buffer : Z := 40.
Definition rb_off : Z := 8.

Record binder_buffer := Buffer {
  free : bool;
  async_transaction : bool;
  transaction : Z;
  data_size : Z;
  offsets_size : Z }.

Record binder_proc := Proc {
  vma : bool;
  buffer : Z;
  buffer_size : Z;
  user_buffer_offset : Z;
  buffers : list Z;
  hdr : gmap Z binder_buffer;
  nodes : gmap Z rb_node;
  free_buffers : Z;
  allocated_buffers : Z;
  pages : list bool;
  free_async_space : Z }.

Definition set_buffers (l : list Z) (p : binder_proc) : binder_proc :=
  Proc (vma p) (buffer p) (buffer_size p) (user_buffer_offset p) l (hdr p) (nodes p)
    (free_buffers p) (allocated_buffers p) (pages p) (free_async_space p).
Definition set_hdr (h : gmap Z binder_buffer) (p : binder_proc) : binder_proc :=
  Proc (vma p) (buffer p) (buffer_size p) (user_buffer_offset p) (buffers p) h (nodes p)
    (free_buffers p) (allocated_buffers p) (pages p) (free_async_space p).
Definition set_trees (m : gmap Z rb_node) (f a : Z) (p : binder_proc) : binder_proc :=
  Proc (vma p) (buffer p) (buffer_size p) (user_buffer_offset p) (buffers p) (hdr p) m
    f a (pages p) (free_async_space p).
Definition set_pages (l : list bool) (p : binder_proc) : binder_proc :=
  Proc (vma p) (buffer p) (buffer_size p) (user_buffer_offset p) (buffers p) (hdr p) (nodes p)
    (free_buffers p) (allocated_buffers p) l (free_async_space p).
Definition set_async (n : Z) (p : binder_proc) : binder_proc :=
  Proc (vma p) (buffer p) (buffer_size p) (user_buffer_offset p) (buffers p) (hdr p) (nodes p)
    (free_buffers p) (allocated_buffers p) (pages p) n.

(** Answers of the memory manager, by page address, and the stale contents of a fresh header. *)
Record page_env := PageEnv {
  task_mm : bool;
  alloc_page_ok : Z -> bool;
  map_vm_area_ok : Z -> bool;
  vm_insert_page_ok : Z -> bool;
  stale : binder_buffer }.

(** A command of the red-black trees on one of the two roots. *)
Definition on_free {A} (m : M A) (p : binder_proc) : option (A * binder_proc) :=
  match m (RbState (nodes p) (free_buffers p)) with
  | Some (a, s) => Some (a, set_trees (rb_mem s) (rb_root s) (allocated_buffers p) p)
  | None => None
  end.
Definition on_allocated {A} (m : M A) (p : binder_proc) : option (A * binder_proc) :=
  match m (RbState (nodes p) (allocated_buffers p)) with
  | Some (a, s) => Some (a, set_trees (rb_mem s) (free_buffers p) (rb_root s) p)
  | None => None
  end.

(** The neighbours in the list of buffers; [Some None] is the list head. *)
Fixpoint next_in (l : list Z) (b : Z) : option (option Z) :=
  match l with
  | [] => None
  | x :: l => if x =? b then Some (head l) else next_in l b
  end.
Fixpoint prev_in (prev : option Z) (l : list Z) (b : Z) : option (option Z) :=
  match l with
  | [] => None
  | x :: l => if x =? b then Some prev else prev_in (Some x) l b
  end.
Fixpoint list_add (new b : Z) (l : list Z) : list Z :=
  match l with
  | [] => []
  | x :: l => if x =? b then x :: new :: l else x :: list_add new b l
  end.
Definition list_del (b : Z) (l : list Z) : list Z := filter (fun x => x <> b) l.

Definition data (b : Z) : Z := b +u sizeof_binder_buffer.

Definition binder_buffer_size (p : binder_proc) (b : Z) : option Z :=
  n ← next_in (buffers p) b;
  Some (match n with
        | None => (buffer p +u buffer_size p) -u data b
        | Some next => next -u data b
        end).

(** ** The two indices *)

(** The descent to the place of a new node: [left n] says to go left at the node [n]. *)
Fixpoint insert_search (fuel : nat) (left : Z -> option bool) (parent : Z) (p : rb_link)
    : M (Z * rb_link) :=
  match fuel with
  | O => fun _ => None
  | S fuel =>
    n ← read_link p;
    if nonnull n then
      match left n with
      | Some true => insert_search fuel left n (LinkLeft n)
      | Some false => insert_search fuel left n (LinkRight n)
      | None => fun _ => None
      end
    else mret (parent, p)
  end.

Definition binder_insert_free_buffer (new_buffer : Z) (p : binder_proc) : option binder_proc :=
  nb ← hdr p !! new_buffer;
  if negb (free nb) then None else
  new_buffer_size ← binder_buffer_size p new_buffer;
  let left n :=
    b ← hdr p !! (n -u rb_off);
    if negb (free b) then None else
    size ← binder_buffer_size p (n -u rb_off);
    Some (new_buffer_size <? size) in
  r ← on_free (l ← insert_search RB_FUEL left NULL LinkRoot;
               let '(parent, link) := l in
               rb_link_node (new_buffer +u rb_off) parent link;;
               rb_insert_color RB_FUEL (new_buffer +u rb_off)) p;
  Some r.2.

Definition binder_insert_allocated_buffer (new_buffer : Z) (p : binder_proc) : option binder_proc :=
  nb ← hdr p !! new_buffer;
  if free nb then None else
  let left n :=
    b ← hdr p !! (n -u rb_off);
    if free b then None else
    if new_buffer <? n -u rb_off then Some true
    else if n -u rb_off <? new_buffer then Some false else None in
  r ← on_allocated (l ← insert_search RB_FUEL left NULL LinkRoot;
               let '(parent, link) := l in
               rb_link_node (new_buffer +u rb_off) parent link;;
               rb_insert_color RB_FUEL (new_buffer +u rb_off)) p;
  Some r.2.

Fixpoint lookup_loop (fuel : nat) (h : gmap Z binder_buffer) (kern_ptr n : Z) : M Z :=
  match fuel with
  | O => fun _ => None
  | S fuel =>
    if nonnull n then
      match h !! (n -u rb_off) with
      | None => fun _ => None
      | Some b =>
        if free b then fun _ => None else
        if kern_ptr <? n -u rb_off then l ← get_left n; lookup_loop fuel h kern_ptr l
        else if n -u rb_off <? kern_ptr then r ← get_right n; lookup_loop fuel h kern_ptr r
        else mret (n -u rb_off)
      end
    else mret NULL
  end.

Definition binder_buffer_lookup (user_ptr : Z) (p : binder_proc) : option Z :=
  let kern_ptr := (user_ptr -u user_buffer_offset p) -u sizeof_binder_buffer in
  r ← on_allocated (n ← get_root; lookup_loop RB_FUEL (hdr p) kern_ptr n) p;
  Some r.1.

(** ** Pages *)

Definition page_index (p : binder_proc) (page_addr : Z) : Z := (page_addr -u buffer p) / PAGE_SIZE.

(** [free_range:] from [page_addr] down to [start]. *)
Fixpoint free_pages (fuel : nat) (p : binder_proc) (page_addr start : Z) (pgs : list bool)
    : option (list bool) :=
  match fuel with
  | O => None
  | S fuel =>
    if start <=? page_addr then
      pg ← zget pgs (page_index p page_addr);
      if negb pg then None else
      pgs ← zset pgs (page_index p page_addr) false;
      free_pages fuel p (page_addr -u PAGE_SIZE) start pgs
    else Some pgs
  end.

Fixpoint alloc_pages (fuel : nat) (env : page_env) (p : binder_proc) (page_addr start end_ : Z)
    (pgs : list bool) : option (Z * list bool) :=
  match fuel with
  | O => None
  | S fuel =>
    if page_addr <? end_ then
      pg ← zget pgs (page_index p page_addr);
      if (pg : bool) then None else
      if negb (alloc_page_ok env page_addr) then
        pgs ← free_pages (S (length pgs)) p (page_addr -u PAGE_SIZE) start pgs; Some (- ENOMEM, pgs)
      else
      pgs ← zset pgs (page_index p page_addr) true;
      if negb (map_vm_area_ok env page_addr && vm_insert_page_ok env page_addr) then
        pgs ← free_pages (S (length pgs)) p page_addr start pgs; Some (- ENOMEM, pgs)
      else alloc_pages fuel env p (page_addr +u PAGE_SIZE) start end_ pgs
    else Some (0, pgs)
  end.

Definition binder_update_page_range (env : page_env) (allocate : bool) (start end_ : Z)
    (vma_arg : bool) (p : binder_proc) : option (Z * binder_proc) :=
  if end_ <=? start then Some (0, p) else
  let v := if vma_arg then true else task_mm env && vma p in
  if allocate then
    if negb v then Some (- ENOMEM, p) else
    r ← alloc_pages (S (length (pages p))) env p start start end_ (pages p);
    Some (r.1, set_pages r.2 p)
  else
    pgs ← free_pages (S (length (pages p))) p (end_ -u PAGE_SIZE) start (pages p);
    Some (- ENOMEM, set_pages pgs p).

(** ** Allocation *)

(** The best-fit search: the result is [best_fit] and the [n] the loop ended with. *)
Fixpoint best_fit_loop (fuel : nat) (p : binder_proc) (size n best_fit : Z) : M (Z * Z) :=
  match fuel with
  | O => fun _ => None
  | S fuel =>
    if nonnull n then
      match (b ← hdr p !! (n -u rb_off); if negb (free b) then None else binder_buffer_size p (n -u rb_off)) with
      | None => fun _ => None
      | Some buffer_size =>
        if size <? buffer_size then l ← get_left n; best_fit_loop fuel p size l n
        else if buffer_size <? size then r ← get_right n; best_fit_loop fuel p size r best_fit
        else mret (n, n)
      end
    else mret (best_fit, n)
  end.

(** A header can be written: the pages it spans are there. *)
Definition mapped (p : binder_proc) (b : Z) : bool :=
  match zget (pages p) (page_index p b), zget (pages p) (page_index p (b +u (sizeof_binder_buffer - 1))) with
  | Some true, Some true => true
  | _, _ => false
  end.

(** [list_add(&new_buffer->entry, &buffer->entry); new_buffer->free = 1;] *)
Definition new_header (env : page_env) (new_buffer b : Z) (p : binder_proc) : option binder_proc :=
  if negb (mapped p new_buffer) then None else
  let s := stale env in
  Some (set_trees (<[new_buffer +u rb_off := RbNode 0 0 0]> (nodes p)) (free_buffers p) (allocated_buffers p)
    (set_hdr (<[new_buffer := Buffer true (async_transaction s) (transaction s) (data_size s) (offsets_size s)]> (hdr p))
      (set_buffers (list_add new_buffer b (buffers p)) p))).

Definition upd_hdr (b : Z) (f : binder_buffer -> binder_buffer) (p : binder_proc) : option binder_proc :=
  x ← hdr p !! b; Some (set_hdr (<[b := f x]> (hdr p)) p).

Definition binder_alloc_buf (env : page_env) (data_size_ offsets_size_ : Z) (is_async : bool)
    (p : binder_proc) : option (Z * binder_proc) :=
  if negb (vma p) then Some (NULL, p) else
  let size := ALIGN data_size_ 4 +u ALIGN offsets_size_ 4 in
  if (size <? data_size_) || (size <? offsets_size_) then Some (NULL, p) else
  if is_async && (free_async_space p <? size +u sizeof_binder_buffer) then Some (NULL, p) else
  r ← on_free (n ← get_root; best_fit_loop RB_FUEL p size n NULL) p;
  let '((best_fit, n), _) := r in
  if negb (nonnull best_fit) then Some (NULL, p) else
  let b := best_fit -u rb_off in
  bs ← binder_buffer_size p b;
  let has_page_addr := Z.land (data b +u bs) PAGE_MASK in
  let bs := if nonnull n then bs
            else if bs <=? (size +u sizeof_binder_buffer) +u 4 then size
            else size +u sizeof_binder_buffer in
  let end_page_addr := PAGE_ALIGN (data b +u bs) in
  let end_page_addr := if has_page_addr <? end_page_addr then has_page_addr else end_page_addr in
  u ← binder_update_page_range env true (PAGE_ALIGN (data b)) end_page_addr false p;
  let '(ret, p) := u in
  if negb (ret =? 0) then Some (NULL, p) else
  e ← on_free (rb_erase RB_FUEL best_fit) p;
  p ← upd_hdr b (fun x => Buffer false (async_transaction x) (transaction x) (data_size x) (offsets_size x)) e.2;
  p ← binder_insert_allocated_buffer b p;
  p ← (if negb (bs =? size) then
         let new_buffer := data b +u size in
         p ← new_header env new_buffer b p;
         binder_insert_free_buffer new_buffer p
       else Some p);
  p ← upd_hdr b (fun x => Buffer (free x) is_async (transaction x) data_size_ offsets_size_) p;
  Some (b, if is_async then set_async (free_async_space p -u (size +u sizeof_binder_buffer)) p else p).

(** ** Release *)

Definition buffer_start_page (b : Z) : Z := Z.land b PAGE_MASK.
Definition buffer_end_page (b : Z) : Z := Z.land ((b +u sizeof_binder_buffer) -u 1) PAGE_MASK.

(** The memory of the header is gone once it is unlinked. *)
Definition drop_header (b : Z) (p : binder_proc) : binder_proc :=
  set_trees (delete (b +u rb_off) (nodes p)) (free_buffers p) (allocated_buffers p)
    (set_hdr (delete b (hdr p)) (set_buffers (list_del b (buffers p)) p)).

Definition binder_delete_free_buffer (env : page_env) (b : Z) (p : binder_proc) : option binder_proc :=
  pv ← prev_in None (buffers p) b;
  prev ← pv;
  ph ← hdr p !! prev;
  if negb (free ph) then None else
  let '(free_page_start, free_page_end) :=
    if buffer_end_page prev =? buffer_start_page b then
      (false, negb (buffer_end_page prev =? buffer_end_page b))
    else (true, true) in
  nx ← next_in (buffers p) b;
  let '(free_page_start, free_page_end) :=
    match nx with
    | Some next =>
      if buffer_start_page next =? buffer_end_page b then
        (if buffer_start_page next =? buffer_start_page b then false else free_page_start, false)
      else (free_page_start, free_page_end)
    | None => (free_page_start, free_page_end)
    end in
  let p := drop_header b p in
  if free_page_start || free_page_end then
    u ← binder_update_page_range env false
          (if free_page_start then buffer_start_page b else buffer_end_page b)
          ((if free_page_end then buffer_end_page b else buffer_start_page b) +u PAGE_SIZE) false p;
    Some u.2
  else Some p.

Definition binder_free_buf (env : page_env) (b : Z) (p : binder_proc) : option binder_proc :=
  bs ← binder_buffer_size p b;
  x ← hdr p !! b;
  let size := ALIGN (data_size x) 4 +u ALIGN (offsets_size x) 4 in
  if free x || (bs <? size) || negb (transaction x =? NULL) || (b <? buffer p) ||
     (buffer p +u buffer_size p <? b) then None else
  let p := if async_transaction x
           then set_async (free_async_space p +u (size +u sizeof_binder_buffer)) p else p in
  u ← binder_update_page_range env false (PAGE_ALIGN (data b)) (Z.land (data b +u bs) PAGE_MASK) false p;
  e ← on_allocated (rb_erase RB_FUEL (b +u rb_off)) u.2;
  p ← upd_hdr b (fun x => Buffer true (async_transaction x) (transaction x) (data_size x) (offsets_size x)) e.2;
  nx ← next_in (buffers p) b;
  p ← match nx with
      | Some next =>
        nh ← hdr p !! next;
        if free nh then
          e ← on_free (rb_erase RB_FUEL (next +u rb_off)) p;
          binder_delete_free_buffer env next e.2
        else Some p
      | None => Some p
      end;
  pv ← prev_in None (buffers p) b;
  bp ← match pv with
       | Some prev =>
         ph ← hdr p !! prev;
         if free ph then
           p ← binder_delete_free_buffer env b p;
           e ← on_free (rb_erase RB_FUEL (prev +u rb_off)) p;
           Some (prev, e.2)
         else Some (b, p)
       | None => Some (b, p)
       end;
  binder_insert_free_buffer bp.1 bp.2.

(** ** Mapping the region *)

Definition SZ_4M : Z := 4194304.
Definition VM_WRITE : Z := 2.
Definition FORBIDDEN_MMAP_FLAGS : Z := VM_WRITE.

(** [binder_mmap] on a processor without aliasing caches; [area] is the kernel
    address [get_vm_area] gives (0 for none), [kzalloc_ok] the allocation of the page array. *)
Definition binder_mmap (env : page_env) (vm_start vm_end vm_flags area : Z) (kzalloc_ok : bool)
    (p : binder_proc) : option (Z * binder_proc) :=
  let vm_end := if SZ_4M <? vm_end -u vm_start then vm_start +u SZ_4M else vm_end in
  if negb (Z.land vm_flags FORBIDDEN_MMAP_FLAGS =? 0) then Some (- EPERM, p) else
  if negb (buffer p =? NULL) then Some (- EBUSY, p) else
  if area =? NULL then Some (- ENOMEM, p) else
  if negb kzalloc_ok then
    Some (- ENOMEM, Proc (vma p) NULL (buffer_size p) (vm_start -u area) (buffers p) (hdr p) (nodes p)
      (free_buffers p) (allocated_buffers p) (pages p) (free_async_space p)) else
  let size := vm_end -u vm_start in
  let p := Proc (vma p) area size (vm_start -u area) (buffers p) (hdr p) (nodes p)
      (free_buffers p) (allocated_buffers p) (replicate (Z.to_nat (size / PAGE_SIZE)) false) (free_async_space p) in
  u ← binder_update_page_range env true area (area +u PAGE_SIZE) true p;
  let '(ret, p) := u in
  if negb (ret =? 0) then
    Some (- ENOMEM, Proc (vma p) NULL (buffer_size p) (user_buffer_offset p) (buffers p) (hdr p) (nodes p)
      (free_buffers p) (allocated_buffers p) [] (free_async_space p)) else
  let s := stale env in
  let p := set_trees (<[area +u rb_off := RbNode 0 0 0]> (nodes p)) (free_buffers p) (allocated_buffers p)
    (set_hdr (<[area := Buffer true (async_transaction s) (transaction s) (data_size s) (offsets_size s)]> (hdr p))
      (set_buffers [area] p)) in
  p ← binder_insert_free_buffer area p;
  Some (0, Proc true (buffer p) (buffer_size p) (user_buffer_offset p) (buffers p) (hdr p) (nodes p)
      (free_buffers p) (allocated_buffers p) (pages p) (buffer_size p / 2)).

(** [binder_vma_close]: the mapping goes, the region stays. *)
Definition binder_vma_close (p : binder_proc) : binder_proc :=
  Proc false (buffer p) (buffer_size p) (user_buffer_offset p) (buffers p) (hdr p) (nodes p)
    (free_buffers p) (allocated_buffers p) (pages p) (free_async_space p).

(** ** The callers *)

(** [buffer->transaction = t] *)
Definition set_transaction (t b : Z) : binder_proc -> option binder_proc :=
  upd_hdr b (fun x => Buffer (free x) (async_transaction x) t (data_size x) (offsets_size x)).

(** The part of a [struct binder_node] that BC_FREE_BUFFER reads and writes: whether an
    asynchronous transaction of the node is being handled, and the work items that wait for it. *)
Record async_node : Type := AsyncNode { has_async_transaction : bool; async_todo : list Z }.

(** What the command found: the read of its argument faults, no buffer of the process may be
    freed at that address, or a buffer. *)
Inductive free_target : Type := FreeFault | FreeIgnored | FreeFound (b : Z).

(** The first half of BC_FREE_BUFFER, up to the two refusals.  [user] is the argument read by
    [get_user] ([None]: the read faults), [allow_user_free] the bit of each header, which only the
    transaction code writes. *)
Definition bc_free_find (user : option Z) (allow_user_free : Z -> bool) (p : binder_proc) : option free_target :=
  match user with
  | None => Some FreeFault
  | Some data_ptr =>
      b ← binder_buffer_lookup data_ptr p;
      if negb (nonnull b) then Some FreeIgnored else
      if negb (allow_user_free b) then Some FreeIgnored else
      Some (FreeFound b)
  end.

(** The asynchronous work after the buffer of an asynchronous transaction; [None] inside the
    result is [target_node == NULL], [None] outside the BUG_ON.  [todo] is [thread->todo]. *)
Definition bc_free_async (async : bool) (target : option async_node) (todo : list Z)
    : option (option async_node * list Z) :=
  match target with
  | Some node =>
      if async then
        if negb (has_async_transaction node) then None else
        Some (match async_todo node with
              | [] => (Some (AsyncNode false []), todo)
              | w :: rest => (Some (AsyncNode true rest), todo ++ [w])
              end)
      else Some (target, todo)
  | None => Some (None, todo)
  end.

(** What the command does besides freeing: nothing, or the transaction whose [buffer] pointer is
    cleared (NULL: none), the target node and the thread's work list afterwards. *)
Inductive free_effect : Type :=
| NoEffect (ret : Z)
| Detached (t : Z) (node : option async_node) (todo : list Z).

(** The command BC_FREE_BUFFER; [target_node] gives the node of each header.  Before
    [binder_free_buf] the code also calls [binder_transaction_buffer_release], which drops the
    references the objects in the buffer hold on nodes and files: no field of this model, and not
    modelled. *)
Definition bc_free_buffer (env : page_env) (user : option Z) (allow_user_free : Z -> bool)
    (target_node : Z -> option async_node) (todo : list Z) (p : binder_proc)
    : option (free_effect * binder_proc) :=
  r ← bc_free_find user allow_user_free p;
  match r with
  | FreeFault => Some (NoEffect (- EFAULT), p)
  | FreeIgnored => Some (NoEffect 0, p)
  | FreeFound b =>
      x ← hdr p !! b;
      p ← (if nonnull (transaction x) then set_transaction NULL b p else Some p);
      a ← bc_free_async (async_transaction x) (target_node b) todo;
      p ← binder_free_buf env b p;
      Some (Detached (transaction x) a.1 a.2, p)
  end.

(** The end of a process: every allocated buffer is released, then every page. *)
Fixpoint release_buffers (fuel : nat) (env : page_env) (count : Z) (p : binder_proc) : option (Z * binder_proc) :=
  match fuel with
  | O => None
  | S fuel =>
    r ← on_allocated (rb_first RB_FUEL) p;
    if nonnull r.1 then
      x ← hdr p !! (r.1 -u rb_off);
      p ← (if nonnull (transaction x) then set_transaction NULL (r.1 -u rb_off) p else Some p);
      p ← binder_free_buf env (r.1 -u rb_off) p;
      release_buffers fuel env (count + 1) p
    else Some (count, p)
  end.

Fixpoint release_pages (fuel : nat) (p : binder_proc) (i page_count : Z) : option Z :=
  match fuel with
  | O => None
  | S fuel =>
    if i <? buffer_size p / PAGE_SIZE then
      pg ← zget (pages p) i;
      release_pages fuel p (i + 1) (if (pg : bool) then page_count + 1 else page_count)
    else Some page_count
  end.
