(* ===== verification/BinderIndex.v ===== *)
(** Searches in the trees of the binder allocator: the descents that insert, look up and find
    the best fit. *)
From stdpp Require Import gmap sorting.
From S2P Require Import Prelude Rbtree RbInsert RbErase RbWalk RbIndex Binder.

Local Open Scope kernel_scope.

(** ** Descents *)

Lemma search_ok fuel left key kn bg s k t :
  reps bg s (plug k t) -> (forall x, x ∈ ids t -> left x = Some (kn <? key x)) ->
  (height t < fuel)%nat ->
  exists k', t = plug k' E /\ Forall (turned_at key kn) k' /\
    insert_search fuel left (par k) (link_of k) s = Some (par (k' ++ k), link_of (k' ++ k), s).
Proof.
  revert fuel k. induction t as [|c l IHl x r IHr]; intros fuel k Hs Hl Hf;
    (destruct fuel as [|fuel]; [cbn in Hf; lia|]); cbn [insert_search height] in *;
    rewrite (run_bind _ _ _ _ _ (link_of_read _ _ _ _ Hs)), (at_null _ _ _ _ Hs).
  - exists []. by split.
  - cbn [addr]. rewrite Hl by (cbn; set_solver). destruct (Z.ltb_spec kn (key x)).
    + destruct (IHl fuel (FL c x r :: k) Hs) as (k' & -> & Hk & He); [intros y Hy; apply Hl; cbn; set_solver|lia|].
      exists (k' ++ [FL c x r]). rewrite plug_app, Forall_app. split; [done|].
      split; [split; [done|]; by constructor|]. rewrite <- app_assoc. exact He.
    + destruct (IHr fuel (FR c l x :: k) Hs) as (k' & -> & Hk & He); [intros y Hy; apply Hl; cbn; set_solver|lia|].
      exists (k' ++ [FR c l x]). rewrite plug_app, Forall_app. split; [done|].
      split; [split; [done|]; by constructor|]. rewrite <- app_assoc. exact He.
Qed.

Lemma lookup_loop_ok fuel h kern bg s k t :
  reps bg s (plug k t) -> sorted_by id (ids t) -> (height t < fuel)%nat ->
  (forall x, x ∈ ids t -> x -u rb_off = x - rb_off /\ exists b, h !! (x - rb_off) = Some b /\ free b = false) ->
  lookup_loop fuel h kern (addr t) s =
    Some (if decide (kern + rb_off ∈ ids t) then kern else NULL, s).
Proof.
  revert fuel k. induction t as [|c l IHl x r IHr]; intros fuel k Hs Hsort Hf Hb;
    (destruct fuel as [|fuel]; [cbn in Hf; lia|]); cbn [lookup_loop height] in *;
    rewrite (at_null _ _ _ _ Hs).
  - rewrite decide_False; [done|]. cbn. set_solver.
  - cbn [addr]. destruct (Hb x) as (Hx & b & Hh & Hfree); [cbn; set_solver|]. rewrite Hx, Hh, Hfree.
    destruct (sorted_node id _ _ _ _ _ eq_refl Hsort) as (Hsl & Hsr & Hl & Hr). unfold id in Hl, Hr.
    pose proof (rs_nodup _ _ _ Hs) as Hn. rewrite ids_plug in Hn. cbn [ids] in Hn.
    assert (Hxl : (x ∉ ids l) /\ (x ∉ ids r)) by (nodup; set_solver). clear Hn. destruct Hxl as [Hxl Hxr].
    destruct (Z.ltb_spec kern (x - rb_off)); [|destruct (Z.ltb_spec (x - rb_off) kern)].
    + rewrite (run_bind _ _ _ _ _ (at_left _ _ _ _ _ _ _ Hs)).
      rewrite (IHl fuel (FL c x r :: k) Hs Hsl); [|lia|intros; apply Hb; cbn; set_solver].
      do 2 f_equal. apply decide_ext. cbn [ids]. rewrite elem_of_app, elem_of_cons.
      split; [tauto|]. intros [?|[?|Hin]]; [done|lia|]. specialize (Hr _ Hin). lia.
    + rewrite (run_bind _ _ _ _ _ (at_right _ _ _ _ _ _ _ Hs)).
      rewrite (IHr fuel (FR c l x :: k) Hs Hsr); [|lia|intros; apply Hb; cbn; set_solver].
      do 2 f_equal. apply decide_ext. cbn [ids]. rewrite elem_of_app, elem_of_cons.
      split; [tauto|]. intros [Hin|[?|?]]; [|lia|done]. specialize (Hl _ Hin). lia.
    + rewrite decide_True; [|cbn [ids]; rewrite elem_of_app, elem_of_cons; right; left; lia].
      unfold mret, M_ret. do 2 f_equal. lia.
Qed.

(** The outcome of a best-fit search among [l], starting from the candidate [bf]. *)
Definition best_fit_of (key : Z -> Z) (size bf : Z) (l : list Z) (b n : Z) : Prop :=
  (n <> NULL /\ b = n /\ n ∈ l /\ key n = size) \/
  (n = NULL /\ ((b = bf /\ forall x, x ∈ l -> key x < size) \/
     (b ∈ l /\ size < key b /\ forall y, y ∈ l -> size <= key y -> key b <= key y))).

Lemma best_fit_ok fuel p size key bf bg s k t :
  reps bg s (plug k t) -> sorted_by key (ids t) -> (height t < fuel)%nat ->
  (forall x, x ∈ ids t -> (b ← hdr p !! (x -u rb_off); if negb (free b) then None
     else binder_buffer_size p (x -u rb_off)) = Some (key x)) ->
  exists b n, best_fit_loop fuel p size (addr t) bf s = Some (b, n, s) /\
    best_fit_of key size bf (ids t) b n.
Proof.
  revert fuel k bf. induction t as [|c l IHl x r IHr]; intros fuel k bf Hs Hsort Hf Hb;
    (destruct fuel as [|fuel]; [cbn in Hf; lia|]); cbn [best_fit_loop height] in *;
    rewrite (at_null _ _ _ _ Hs).
  - exists bf, (addr E). split; [done|]. right. split; [done|]. left. set_solver.
  - cbn [addr]. rewrite (Hb x) by (cbn; set_solver).
    destruct (sorted_node key _ _ _ _ _ eq_refl Hsort) as (Hsl & Hsr & Hl & Hr).
    destruct (Z.ltb_spec size (key x)); [|destruct (Z.ltb_spec (key x) size)].
    + rewrite (run_bind _ _ _ _ _ (at_left _ _ _ _ _ _ _ Hs)).
      destruct (IHl fuel (FL c x r :: k) x Hs Hsl) as (b & n & -> & Hbn); [lia|intros; apply Hb; cbn; set_solver|].
      exists b, n. split; [done|]. destruct Hbn as [Hbn|(Hn & [[-> Hlt]|(Hin & Hgt & Hmin)])].
      * left. cbn [ids]. set_solver.
      * right. split; [done|]. right. cbn [ids]. split; [set_solver|]. split; [done|].
        intros y [Hy|[->|Hy]%elem_of_cons]%elem_of_app Hsz; [specialize (Hlt y Hy); lia|lia|by apply Hr].
      * right. split; [done|]. right. cbn [ids]. split; [set_solver|]. split; [done|].
        intros y [Hy|[->|Hy]%elem_of_cons]%elem_of_app Hsz; [by apply Hmin|by apply Hl|].
        specialize (Hl b Hin). specialize (Hr y Hy). lia.
    + rewrite (run_bind _ _ _ _ _ (at_right _ _ _ _ _ _ _ Hs)).
      destruct (IHr fuel (FR c l x :: k) bf Hs Hsr) as (b & n & -> & Hbn); [lia|intros; apply Hb; cbn; set_solver|].
      exists b, n. split; [done|]. destruct Hbn as [Hbn|(Hn & [[-> Hlt]|(Hin & Hgt & Hmin)])].
      * left. cbn [ids]. set_solver.
      * right. split; [done|]. left. split; [done|]. cbn [ids].
        intros y [Hy|[->|Hy]%elem_of_cons]%elem_of_app; [specialize (Hl y Hy); lia|lia|by apply Hlt].
      * right. split; [done|]. right. cbn [ids]. split; [set_solver|]. split; [done|].
        intros y [Hy|[->|Hy]%elem_of_cons]%elem_of_app Hsz; [specialize (Hl y Hy); lia|lia|by apply Hmin].
    + exists x, x. split; [done|]. left. split; [exact (at_nonnull _ _ _ _ _ _ _ Hs)|].
      split; [done|]. cbn [ids]. split; [set_solver|lia].
Qed.

(** Inserting a node with the key [key x]. *)
Lemma index_insert m root S key x left :
  index m root S key -> x ∉ S -> node_addr x -> is_Some (m !! x) ->
  (forall y, y ∈ S -> left y = Some (key x <? key y)) ->
  exists s', (l ← insert_search RB_FUEL left NULL LinkRoot;
      let '(parent, link) := l in rb_link_node x parent link;; rb_insert_color RB_FUEL x)
      (RbState m root) = Some (tt, s') /\
    index (rb_mem s') (rb_root s') ({[x]} ∪ S) key /\
    (forall y, y ∉ {[x]} ∪ S -> rb_mem s' !! y = m !! y) /\
    (forall y, is_Some (m !! y) -> is_Some (rb_mem s' !! y)).
Proof.
  intros (t & Hs & Hi & HS & Hsort & Hf)%index_reps Hx Hxa Hm Hl.
  pose proof (rb_fuel_depth t RB_FUEL [] t Hi eq_refl Hf) as Hh. cbn [length] in Hh.
  destruct (search_ok RB_FUEL left key (key x) m _ [] t Hs) as (k & -> & Hk & He);
    [intros y Hy; by apply Hl, HS|lia|].
  rewrite app_nil_r in He. cbn [par link_of] in He. rewrite (run_bind _ _ _ _ _ He). by apply index_place.
Qed.

