(* ===== verification/BinderLayout.v ===== *)
(** The layout of the region of the binder allocator: the chain of buffers, the page
    array and which pages the headers and the allocated data need, before and after a
    block is split, allocated, released or unlinked. *)
From stdpp Require Import gmap sorting.
From S2P Require Import Prelude Rbtree RbInsert RbErase RbWalk Binder RbIndex BinderIndex.

Local Open Scope kernel_scope.

(** ** Page and word arithmetic *)

Lemma page_mask_ok x : 0 <= x < 2 ^ 32 -> Z.land x PAGE_MASK = x - x mod 4096.
Proof. intros H. exact (land_high_mask x 12 32 ltac:(lia) H). Qed.

Lemma page_align_ok x : 0 <= x <= 2 ^ 32 - 4096 -> PAGE_ALIGN x = x + 4095 - (x + 4095) mod 4096.
Proof.
  intros H. unfold PAGE_ALIGN, ALIGN, PAGE_SIZE. rewrite u32_id by (unfold is_u32; lia).
  replace (x + (4096 - 1)) with (x + 4095) by lia. apply page_mask_ok. lia.
Qed.

Lemma align4_ok x : is_u32 x ->
  is_u32 (ALIGN x 4) /\ (ALIGN x 4) mod 4 = 0 /\ (x <= 2 ^ 32 - 4 -> x <= ALIGN x 4 < x + 4) /\
  (2 ^ 32 - 4 < x -> ALIGN x 4 = 0).
Proof.
  intros H. unfold ALIGN, is_u32 in *. change (~u (4 - 1)) with (2 ^ 32 - 2 ^ 2).
  pose proof (u32_range (x + (4 - 1))) as Hr.
  rewrite (land_high_mask _ 2 32) by lia. change (2 ^ 2) with 4.
  destruct (Z.le_gt_cases x (2 ^ 32 - 4)).
  - rewrite u32_id by (unfold is_u32; lia). Z.to_euclidean_division_equations; lia.
  - assert (u32 (x + (4 - 1)) = x + 3 - 2 ^ 32) as ->.
    { unfold u32, wrap. rewrite <- (Z_mod_plus_full _ (-1)). rewrite Z.mod_small; lia. }
    Z.to_euclidean_division_equations; lia.
Qed.

(** ** The chain of buffers *)

Definition hd_or (l : list Z) (e : Z) : Z := match l with [] => e | b :: _ => b end.

(** Each buffer with the address where it ends. *)
Fixpoint blk (l : list Z) (e : Z) : list (Z * Z) :=
  match l with [] => [] | b :: r => (b, hd_or r e) :: blk r e end.

Fixpoint chain (l : list Z) (e : Z) : Prop :=
  match l with [] => True | b :: r => b mod 4 = 0 /\ b + 40 <= hd_or r e /\ chain r e end.

Lemma hd_app l b r e : hd_or (l ++ b :: r) e = hd_or l b.
Proof. by destruct l. Qed.

Lemma blk_app l b r e : blk (l ++ b :: r) e = blk l b ++ (b, hd_or r e) :: blk r e.
Proof. induction l as [|x l IH]; [done|]. cbn [app blk]. by rewrite IH, hd_app. Qed.

Lemma chain_app l b r e : chain (l ++ b :: r) e <-> chain l b /\ chain (b :: r) e.
Proof. induction l as [|x l IH]; cbn [app chain]; [tauto|]. rewrite hd_app, IH. cbn. tauto. Qed.

Lemma chain_lower b r e x : chain (b :: r) e -> x ∈ r -> b + 40 <= x.
Proof.
  revert b. induction r as [|c r IH]; intros b H Hx; [set_solver|].
  cbn [chain hd_or] in H. destruct H as (_ & H1 & H2). apply elem_of_cons in Hx as [->|Hx]; [lia|].
  specialize (IH c H2 Hx). lia.
Qed.

Lemma chain_hd l e : chain l e -> hd_or l e <= e.
Proof.
  induction l as [|b l IH]; cbn [chain hd_or]; [lia|]. intros (_ & H1 & H2). specialize (IH H2). lia.
Qed.

Lemma chain_upper l e x : chain l e -> x ∈ l -> x + 40 <= e.
Proof.
  induction l as [|b l IH]; intros H Hx; [set_solver|]. cbn [chain] in H. destruct H as (_ & H1 & H2).
  apply elem_of_cons in Hx as [->|Hx]; [|by apply IH]. pose proof (chain_hd _ _ H2). lia.
Qed.

Lemma chain_nodup l e : chain l e -> NoDup l.
Proof.
  induction l as [|b l IH]; intros H; [constructor|]. apply NoDup_cons. split.
  - intros Hin. pose proof (chain_lower b l e b H Hin). lia.
  - apply IH. apply H.
Qed.

Lemma chain_split l b r e :
  chain (l ++ b :: r) e -> b mod 4 = 0 /\ b + 40 <= hd_or r e /\ (b ∉ l) /\ (b ∉ r) /\
  (forall x, x ∈ l -> x + 40 <= b) /\ (forall x, x ∈ r -> hd_or r e <= x /\ b + 40 <= x) /\ hd_or r e <= e.
Proof.
  intros H. pose proof (chain_nodup _ _ H) as Hn. apply chain_app in H as [Hl Hr].
  pose proof (chain_lower b r e) as Hlow. cbn [chain] in Hr. destruct Hr as (H1 & H2 & H3).
  split; [done|]. split; [done|]. apply NoDup_app in Hn as (_ & Hd & Hn). apply NoDup_cons in Hn as [Hn _].
  split; [intros Hin; apply (Hd b Hin); set_solver|]. split; [done|].
  split; [intros x Hx; by apply (chain_upper l b)|].
  assert (Hx : forall x, x ∈ r -> b + 40 <= x) by (intros; apply Hlow; [by cbn|done]).
  split; [|by apply chain_hd].
  destruct r as [|c r]; cbn [hd_or] in *; [set_solver|].
  intros x [->|Hin]%elem_of_cons; [split; [lia|apply Hx; set_solver]|].
  pose proof (chain_lower c r e x H3 Hin). lia.
Qed.

Lemma next_in_mid l b r : b ∉ l -> next_in (l ++ b :: r) b = Some (head r).
Proof.
  induction l as [|x l IH]; intros H; cbn [app next_in]; [by rewrite Z.eqb_refl|].
  rewrite (proj2 (Z.eqb_neq x b)) by set_solver. apply IH. set_solver.
Qed.

Lemma prev_in_mid o l b r : b ∉ l ->
  prev_in o (l ++ b :: r) b = Some (match last l with Some x => Some x | None => o end).
Proof.
  revert o. induction l as [|x l IH]; intros o H; cbn [app prev_in]; [by rewrite Z.eqb_refl|].
  rewrite (proj2 (Z.eqb_neq x b)) by set_solver. rewrite IH by set_solver.
  do 2 f_equal. destruct l as [|y l]; [done|]. change (last (x :: y :: l)) with (last (y :: l)).
  destruct (last (y :: l)) eqn:E; [done|]. by apply last_None in E.
Qed.

Lemma list_add_mid n l b r : b ∉ l -> list_add n b (l ++ b :: r) = l ++ b :: n :: r.
Proof.
  induction l as [|x l IH]; intros H; cbn [app list_add]; [by rewrite Z.eqb_refl|].
  rewrite (proj2 (Z.eqb_neq x b)) by set_solver. by rewrite IH by set_solver.
Qed.

Lemma list_del_mid l b r : b ∉ l -> b ∉ r -> list_del b (l ++ b :: r) = l ++ r.
Proof.
  intros H1 H2. unfold list_del. rewrite filter_app, filter_cons_False by tauto.
  f_equal; by apply without_notin.
Qed.

(** ** The page array *)

Definition fill (i0 i1 : Z) (v : bool) (l : list bool) : list bool :=
  imap (fun i x => if (i0 <=? Z.of_nat i) && (Z.of_nat i <? i1) then v else x) l.

Lemma len_fill i0 i1 v l : length (fill i0 i1 v l) = length l.
Proof. apply length_imap. Qed.

Lemma zget_fill i0 i1 v l i :
  zget (fill i0 i1 v l) i = if (i0 <=? i) && (i <? i1) then (fun _ => v) <$> zget l i else zget l i.
Proof.
  unfold zget, fill. destruct (Z.leb_spec 0 i); [|by destruct (_ && _)].
  rewrite list_lookup_imap, Z2Nat.id by lia. destruct (l !! Z.to_nat i); cbn; by destruct (_ && _).
Qed.

Lemma zget_ext {A} (l1 l2 : list A) : (forall i, 0 <= i -> zget l1 i = zget l2 i) -> l1 = l2.
Proof.
  intros H. apply list_eq. intros i. specialize (H (Z.of_nat i) ltac:(lia)).
  by rewrite !zget_lookup, Nat2Z.id in H by lia.
Qed.

Lemma zset_fill_next i0 i v l :
  i0 <= i -> 0 <= i < len l -> zset (fill i0 i v l) i v = Some (fill i0 (i + 1) v l).
Proof.
  intros H1 H2. rewrite zset_spec by (rewrite len_fill; lia). f_equal. apply zget_ext. intros j Hj.
  rewrite zget_fill, zget_lookup by lia. rewrite list_lookup_insert.
  destruct (decide (i = j)) as [->|].
  - rewrite decide_True by (rewrite len_fill; lia).
    destruct (zget_is_Some l j ltac:(lia)) as [x ->].
    destruct (Z.leb_spec i0 j), (Z.ltb_spec j (j + 1)); try lia. done.
  - rewrite decide_False by (intros [? ?]; lia). rewrite <- zget_lookup, zget_fill by lia.
    destruct (Z.leb_spec i0 j), (Z.ltb_spec j i), (Z.ltb_spec j (i + 1)); try lia; done.
Qed.

Lemma fill_empty i0 i1 v l : i1 <= i0 -> fill i0 i1 v l = l.
Proof.
  intros H. apply zget_ext. intros i Hi. rewrite zget_fill.
  destruct (Z.leb_spec i0 i), (Z.ltb_spec i i1); try lia; done.
Qed.

(** The region and its pages: [page i] is the address of the i-th page. *)
Definition page (p : binder_proc) (i : Z) : Z := buffer p + 4096 * i.

Record region (p : binder_proc) : Prop := {
  rg_base : 0 < buffer p /\ buffer p mod 4096 = 0;
  rg_size : 0 < buffer_size p /\ buffer_size p mod 4096 = 0;
  rg_top : buffer p + buffer_size p <= 2 ^ 32 - 4096;
  rg_pages : 4096 * len (pages p) = buffer_size p }.

Lemma region_low p : region p -> 4096 <= buffer p.
Proof. intros [[H1 H2] _ _ _]. Z.to_euclidean_division_equations; lia. Qed.

Lemma page_index_ok p i : region p -> 0 <= i <= len (pages p) -> page_index p (page p i) = i.
Proof.
  intros [] Hi. unfold page_index, page, PAGE_SIZE. rewrite u32_id by (unfold is_u32; lia).
  replace (buffer p + 4096 * i - buffer p) with (i * 4096) by lia. apply Z.div_mul. lia.
Qed.

Lemma page_next p i : region p -> 0 <= i < len (pages p) -> page p i +u PAGE_SIZE = page p (i + 1).
Proof. intros [] Hi. unfold page, PAGE_SIZE. rewrite u32_id; unfold is_u32; lia. Qed.

Lemma page_prev p i : region p -> 0 < i <= len (pages p) -> page p i -u PAGE_SIZE = page p (i - 1).
Proof. intros [] Hi. unfold page, PAGE_SIZE. rewrite u32_id; unfold is_u32; lia. Qed.

(** Releasing the pages [i0 .. i1-1], which are all there. *)
Lemma free_pages_ok fuel p i0 i1 pgs a :
  region p -> length pgs = length (pages p) -> 0 <= i0 -> i0 <= i1 -> i1 <= len pgs ->
  (forall i, i0 <= i < i1 -> zget pgs i = Some true) -> (Z.to_nat (i1 - i0) < fuel)%nat ->
  a = page p i1 -u PAGE_SIZE ->
  free_pages fuel p a (page p i0) pgs = Some (fill i0 i1 false pgs).
Proof.
  intros Hr Hl H0. revert i1 pgs a Hl. induction fuel as [|fuel IH]; intros i1 pgs a Hl H1 H2 Hall Hf ->; [lia|].
  cbn [free_pages]. destruct (Z.eq_dec i0 i1) as [->|Hne].
  - assert (Hlt : page p i1 -u PAGE_SIZE < page p i1).
    { pose proof (region_low p Hr). destruct Hr. unfold page, PAGE_SIZE in *.
      rewrite u32_id; unfold is_u32; lia. }
    destruct (Z.leb_spec (page p i1) (page p i1 -u PAGE_SIZE)); [lia|]. by rewrite fill_empty by lia.
  - rewrite page_prev by (done || lia).
    destruct (Z.leb_spec (page p i0) (page p (i1 - 1))); [|unfold page in *; lia].
    rewrite page_index_ok by (done || lia). rewrite Hall by lia. cbn [mbind option_bind negb].
    rewrite zset_spec by lia. cbn [mbind option_bind].
    set (pgs' := <[Z.to_nat (i1 - 1) := false]> pgs).
    assert (Hg : forall i, 0 <= i -> zget pgs' i = if decide (i = i1 - 1) then Some false else zget pgs i).
    { intros i Hi. unfold pgs'. rewrite !zget_lookup by lia. rewrite list_lookup_insert.
      repeat case_decide; try done; lia. }
    rewrite (IH (i1 - 1) pgs').
    + f_equal. apply zget_ext. intros i Hi. rewrite !zget_fill, Hg by lia.
      destruct (Z.leb_spec i0 i), (Z.ltb_spec i (i1 - 1)), (Z.ltb_spec i i1); case_decide; try lia; try done.
      cbn [andb]. subst i. rewrite Hall by lia. done.
    + unfold pgs'. by rewrite length_insert.
    + lia.
    + unfold pgs'. rewrite length_insert. lia.
    + intros i Hi. rewrite Hg by lia. rewrite decide_False by lia. apply Hall. lia.
    + lia.
    + done.
Qed.

(** The memory manager can back the page at [a]. *)
Definition page_ok (env : page_env) (a : Z) : bool :=
  alloc_page_ok env a && (map_vm_area_ok env a && vm_insert_page_ok env a).

Lemma alloc_pages_ok fuel env p i0 j i1 pgs :
  region p -> length pgs = length (pages p) -> 0 <= i0 -> i0 <= j -> j <= i1 -> i1 <= len pgs ->
  (forall i, i0 <= i < i1 -> zget pgs i = Some false) -> (Z.to_nat (i1 - j) < fuel)%nat ->
  alloc_pages fuel env p (page p j) (page p i0) (page p i1) (fill i0 j true pgs) = Some (0, fill i0 i1 true pgs) \/
  alloc_pages fuel env p (page p j) (page p i0) (page p i1) (fill i0 j true pgs) = Some (- ENOMEM, pgs) /\
    (exists i, i0 <= i < i1 /\ page_ok env (page p i) = false).
Proof.
  intros Hr Hl H0. revert j. induction fuel as [|fuel IH]; intros j H1 H2 H3 Hall Hf; [lia|].
  assert (Hback : forall i, i0 <= i -> i <= i1 -> fill i0 i false (fill i0 i true pgs) = pgs).
  { intros i Hi Hi1. apply zget_ext. intros k Hk. rewrite !zget_fill.
    destruct (Z.leb_spec i0 k), (Z.ltb_spec k i); cbn [andb]; try done.
    rewrite Hall by lia. done. }
  assert (Hset : forall i k, i0 <= k < i -> i <= i1 -> zget (fill i0 i true pgs) k = Some true).
  { intros i k Hk Hi. rewrite zget_fill, Hall by lia.
    destruct (Z.leb_spec i0 k), (Z.ltb_spec k i); try lia. done. }
  cbn [alloc_pages]. destruct (Z.eq_dec j i1) as [->|Hne].
  { left. destruct (Z.ltb_spec (page p i1) (page p i1)); [lia|done]. }
  destruct (Z.ltb_spec (page p j) (page p i1)); [|unfold page in *; lia].
  rewrite page_index_ok by (done || lia). rewrite zget_fill, Hall by lia.
  replace ((i0 <=? j) && (j <? j)) with false by (destruct (Z.leb_spec i0 j), (Z.ltb_spec j j); try lia; done).
  cbn [mbind option_bind]. destruct (alloc_page_ok env (page p j)) eqn:Ea; cbn [negb].
  - rewrite zset_fill_next by lia. cbn [mbind option_bind].
    destruct (map_vm_area_ok env (page p j) && vm_insert_page_ok env (page p j)) eqn:Em; cbn [negb].
    + rewrite page_next by (done || lia). apply IH; try done; lia.
    + right. split; [|exists j; unfold page_ok; rewrite Ea, Em; split; [lia|done]].
      rewrite (free_pages_ok _ p i0 (j + 1)); rewrite ?len_fill; try done; try lia.
      * cbn [mbind option_bind]. by rewrite Hback by lia.
      * intros i Hi. apply Hset; lia.
      * rewrite page_prev by (done || lia). f_equal. lia.
  - right. split; [|exists j; unfold page_ok; rewrite Ea; split; [lia|done]].
    rewrite (free_pages_ok _ p i0 j); rewrite ?len_fill; try done; try lia.
    + cbn [mbind option_bind]. by rewrite Hback by lia.
    + intros i Hi. apply Hset; lia.
Qed.

(** The index of a page-aligned address. *)
Definition pidx (p : binder_proc) (a : Z) : Z := (a - buffer p) / 4096.
Definition region_end (p : binder_proc) : Z := buffer p + buffer_size p.

Lemma page_pidx p a : region p -> a mod 4096 = 0 -> page p (pidx p a) = a.
Proof. intros [[H1 H2] _ _ _] H. unfold page, pidx. Z.to_euclidean_division_equations; lia. Qed.

Lemma pidx_range p a : region p -> a mod 4096 = 0 -> buffer p <= a <= region_end p ->
  0 <= pidx p a <= len (pages p).
Proof.
  intros Hr Ha Hi. pose proof (page_pidx p a Hr Ha) as H. destruct Hr. unfold page, region_end in *. lia.
Qed.

Lemma set_pages_same p : set_pages (pages p) p = p.
Proof. by destruct p. Qed.

Lemma update_free_ok env p start end_ :
  region p -> start mod 4096 = 0 -> end_ mod 4096 = 0 ->
  buffer p <= start <= region_end p -> buffer p <= end_ <= region_end p ->
  (forall i, pidx p start <= i < pidx p end_ -> zget (pages p) i = Some true) ->
  exists r, binder_update_page_range env false start end_ false p =
    Some (r, set_pages (fill (pidx p start) (pidx p end_) false (pages p)) p).
Proof.
  intros Hr Hs He Hsr Her Hall. unfold binder_update_page_range.
  pose proof (page_pidx p start Hr Hs) as H1. pose proof (page_pidx p end_ Hr He) as H2.
  pose proof (pidx_range p start Hr Hs Hsr). pose proof (pidx_range p end_ Hr He Her).
  destruct (Z.leb_spec end_ start).
  - exists 0. rewrite fill_empty by (unfold page in *; lia). by rewrite set_pages_same.
  - exists (- ENOMEM). rewrite <- H1 at 1. rewrite <- H2 at 1.
    rewrite (free_pages_ok _ p (pidx p start) (pidx p end_)); try done; unfold page in *; try lia.
Qed.

Lemma update_alloc_ok env p start end_ :
  region p -> start mod 4096 = 0 -> end_ mod 4096 = 0 ->
  buffer p <= start <= region_end p -> buffer p <= end_ <= region_end p ->
  (forall i, pidx p start <= i < pidx p end_ -> zget (pages p) i = Some false) ->
  binder_update_page_range env true start end_ false p =
    Some (0, set_pages (fill (pidx p start) (pidx p end_) true (pages p)) p) \/
  binder_update_page_range env true start end_ false p = Some (- ENOMEM, p) /\
    (task_mm env && vma p = false \/ exists i, page_ok env (page p i) = false).
Proof.
  intros Hr Hs He Hsr Her Hall. unfold binder_update_page_range.
  pose proof (page_pidx p start Hr Hs) as H1. pose proof (page_pidx p end_ Hr He) as H2.
  pose proof (pidx_range p start Hr Hs Hsr). pose proof (pidx_range p end_ Hr He Her).
  destruct (Z.leb_spec end_ start).
  - left. rewrite fill_empty by (unfold page in *; lia). by rewrite set_pages_same.
  - destruct (task_mm env && vma p); cbn [negb]; [|right; split; [done|by left]].
    pose proof (alloc_pages_ok (S (length (pages p))) env p (pidx p start) (pidx p start) (pidx p end_) (pages p)) as Hp.
    rewrite fill_empty, H1, H2 in Hp by lia. unfold page in *.
    destruct Hp as [->|[-> (i & _ & Hi)]]; try done; try lia.
    + by left.
    + right. cbn [mbind option_bind fst snd]. rewrite set_pages_same. split; [done|]. right. by exists i.
Qed.

(** ** Which pages must be there *)

(** The page at [P] holds a byte of the header at [b]. *)
Definition hits (b P : Z) : Prop := b < P + 4096 /\ P < b + 40.
(** It lies inside the data of the buffer. *)
Definition inside (b e P : Z) : Prop := b + 40 <= P /\ P + 4096 <= e.

Definition need (al : Z -> bool) (l : list Z) (e P : Z) : Prop :=
  exists b e', (b, e') ∈ blk l e /\ (hits b P \/ al b = true /\ inside b e' P).

Lemma need_nil al e P : ~ need al [] e P.
Proof. intros (b & e' & H & _). cbn in H. set_solver. Qed.

Lemma need_mid al l b r e P :
  need al (l ++ b :: r) e P <->
  need al l b P \/ (hits b P \/ al b = true /\ inside b (hd_or r e) P) \/ need al r e P.
Proof.
  unfold need. setoid_rewrite blk_app. setoid_rewrite elem_of_app. setoid_rewrite elem_of_cons.
  split.
  - intros (b' & e' & [H|[[= -> ->]|H]] & Hn); eauto 10.
  - intros [(b' & e' & H & Hn)|[Hn|(b' & e' & H & Hn)]]; eauto 10.
Qed.

Lemma need_cons al b r e P :
  need al (b :: r) e P <-> (hits b P \/ al b = true /\ inside b (hd_or r e) P) \/ need al r e P.
Proof. pose proof (need_mid al [] b r e P) as H. rewrite H. pose proof (need_nil al b P). tauto. Qed.

Lemma need_ext al al' l e P :
  (forall b, b ∈ l -> al b = al' b) -> need al l e P -> need al' l e P.
Proof.
  intros H (b & e' & Hb & Hn). exists b, e'. split; [done|]. rewrite <- H; [done|].
  clear -Hb. induction l as [|x l IH]; cbn [blk] in Hb; [set_solver|].
  apply elem_of_cons in Hb as [[= -> _]|Hb]; [by left|right; auto].
Qed.

(** What the buffers below and above a block can reach. *)
Lemma need_below al l b P : chain l b -> need al l b P -> P < b.
Proof.
  intros Hc (x & e' & Hx & Hn). revert Hc Hx. generalize b. induction l as [|y l IH]; intros b0 Hc Hx; cbn [blk chain] in *; [set_solver|].
  destruct Hc as (_ & H1 & H2). apply elem_of_cons in Hx as [[= -> ->]|Hx]; [|by eapply IH].
  pose proof (chain_hd _ _ H2). unfold hits, inside in Hn. lia.
Qed.

Lemma need_above al r e P : chain r e -> need al r e P -> r <> [] /\ hd_or r e < P + 4096.
Proof.
  intros Hc (x & e' & Hx & Hn). revert Hc Hx. induction r as [|y r IH]; intros Hc Hx; cbn [blk chain] in *; [set_solver|].
  destruct Hc as (_ & H1 & H2). split; [done|]. cbn [hd_or]. apply elem_of_cons in Hx as [[= -> ->]|Hx].
  - unfold hits, inside in Hn. lia.
  - destruct (IH H2 Hx) as [_ H]. lia.
Qed.

Ltac pages := unfold hits, inside in *; Z.to_euclidean_division_equations; lia.

(** A whole page inside a free block is not needed by anyone. *)
Lemma need_inside al l b r e P :
  chain (l ++ b :: r) e -> inside b (hd_or r e) P -> need al (l ++ b :: r) e P -> al b = true.
Proof.
  intros Hc Hi Hn. apply chain_app in Hc as [Hl Hr]. pose proof Hr as (Hb & Hbe & Hr').
  apply need_mid in Hn as [Hn|[[Hn|[Hn _]]|Hn]]; [|unfold hits, inside in *; lia|done|].
  - pose proof (need_below _ _ _ _ Hl Hn). unfold inside in Hi. lia.
  - pose proof (need_above _ _ _ _ Hr' Hn). unfold inside in Hi. lia.
Qed.

Definition set_al (al : Z -> bool) (b : Z) (v : bool) (x : Z) : bool := if x =? b then v else al x.

Lemma set_al_eq al b v : set_al al b v b = v.
Proof. unfold set_al. by rewrite Z.eqb_refl. Qed.
Lemma set_al_ne al b v x : x <> b -> set_al al b v x = al x.
Proof. intros H. unfold set_al. by rewrite (proj2 (Z.eqb_neq x b) H). Qed.

(** Allocating or releasing the data of the block at [b], whose end is [hd_or r e]. *)
Lemma need_flip al l b r e P v :
  chain (l ++ b :: r) e ->
  need (set_al al b v) (l ++ b :: r) e P <->
  need (set_al al b false) (l ++ b :: r) e P \/ v = true /\ inside b (hd_or r e) P.
Proof.
  intros Hc. pose proof (chain_split _ _ _ _ Hc) as (_ & _ & Hbl & Hbr & _).
  assert (Hext : forall l' e' v v', b ∉ l' -> need (set_al al b v) l' e' P -> need (set_al al b v') l' e' P).
  { intros l' e' v1 v2 Hb. apply need_ext. intros x Hx. rewrite !set_al_ne by congruence. done. }
  rewrite !need_mid, !set_al_eq. split.
  - intros [H|[[H|H]|H]]; eauto 6.
  - intros [[H|[[H|[? _]]|H]]|H]; eauto 6; done.
Qed.

(** Splitting a free block: the header at [n] and the data before it. *)
Lemma need_split al l b r e n P A B1 M :
  chain (l ++ b :: r) e -> al b = false -> n ∉ l ++ b :: r -> P mod 4096 = 0 -> (r = [] -> e mod 4096 = 0) ->
  b + 40 <= n -> n + 44 < hd_or r e ->
  A mod 4096 = 0 -> b + 40 <= A < b + 40 + 4096 ->
  B1 mod 4096 = 0 -> n + 40 <= B1 < n + 40 + 4096 ->
  M mod 4096 = 0 -> M <= hd_or r e < M + 4096 ->
  need (set_al (set_al al n false) b true) (l ++ b :: n :: r) e P <->
  need al (l ++ b :: r) e P \/ A <= P < Z.min B1 M.
Proof.
  intros Hc Hal Hn HP He Hbn Hnh HA1 HA2 HB1 HB2 HM1 HM2.
  pose proof (chain_split _ _ _ _ Hc) as (_ & _ & Hbl & Hbr & _).
  assert (Hext : forall l' e', b ∉ l' -> n ∉ l' ->
    need (set_al (set_al al n false) b true) l' e' P <-> need al l' e' P).
  { intros l' e' H1 H2. split; apply need_ext; intros x Hx;
      rewrite !set_al_ne by congruence; done. }
  rewrite !need_mid, need_cons, !set_al_eq, (set_al_ne _ b true n), set_al_eq by lia.
  rewrite !Hext by set_solver. cbn [hd_or]. rewrite Hal.
  assert (Hr : r <> [] -> hits (hd_or r e) P -> need al r e P).
  { destruct r as [|c r]; [done|]. intros _ H. apply need_cons. by left; left. }
  split.
  - intros [H|[[H|[_ H]]|[[H|[? _]]|H]]]; try done; try tauto.
    + right. unfold inside in H. split; [|apply Z.min_glb_lt]; pages.
    + unfold hits in H. destruct (Z.lt_ge_cases P (b + 40)).
      { left. right. left. left. unfold hits. lia. }
      destruct (Z.lt_ge_cases P M); [right; split; [|apply Z.min_glb_lt]; pages|].
      left. right. right. assert (P = M) as -> by pages. apply Hr; [|unfold hits; lia].
      intros ->. cbn [hd_or] in *. specialize (He eq_refl). pages.
  - intros [[H|[[H|[? _]]|H]]|[H1 H2]]; try done; try tauto.
    apply Z.min_glb_lt_iff in H2 as [H2 H3].
    destruct (Z.lt_ge_cases n (P + 4096)); [right; right; left; left|right; left; right]; [pages|].
    split; [done|]. pages.
Qed.

(** Unlinking the header at [b] between the free buffer at [pv] and its successor. *)
Lemma need_unlink al l pv b r e P :
  chain (l ++ pv :: b :: r) e -> al pv = false -> al b = false ->
  need al (l ++ pv :: r) e P <->
  need al (l ++ pv :: b :: r) e P /\ ~ (hits b P /\ ~ hits pv P /\ ~ (r <> [] /\ hits (hd_or r e) P)).
Proof.
  intros Hc Hp Hb. pose proof Hc as Hc0. apply chain_app in Hc as [Hl Hr].
  cbn [chain hd_or] in Hr. destruct Hr as (_ & H1 & _ & H2 & Hr).
  rewrite !need_mid, need_cons, Hp, Hb.
  assert (Hbl : need al l pv P -> hits b P -> hits pv P).
  { intros H Hh. pose proof (need_below _ _ _ _ Hl H). unfold hits in *. lia. }
  assert (Hbr : need al r e P -> hits b P -> r <> [] /\ hits (hd_or r e) P).
  { intros H Hh. pose proof (need_above _ _ _ _ Hr H) as [Hne Ha]. split; [done|]. unfold hits in *. lia. }
  assert (Hrn : r <> [] -> hits (hd_or r e) P -> need al r e P).
  { destruct r as [|c r]; [done|]. intros _ H. apply need_cons. by left; left. }
  assert (Hdec : hits b P \/ ~ hits b P) by (unfold hits; lia).
  assert (Hdec2 : hits pv P \/ ~ hits pv P) by (unfold hits; lia).
  split.
  - intros [H|[[H|[? _]]|H]]; try done; (split; [tauto|]); tauto.
  - intros [[H|[[H|[? _]]|[[H|[? _]]|H]]] Hnot]; try done; try tauto.
    destruct (decide (r = [])) as [->|Hne]; [tauto|].
    assert (Hdec3 : hits (hd_or r e) P \/ ~ hits (hd_or r e) P) by (unfold hits; lia). tauto.
Qed.

(** The range of pages [binder_delete_free_buffer] releases. *)
Definition del_range (pv b : Z) (nx : option Z) : Z * Z :=
  let sp := b - b mod 4096 in
  let ep := b + 39 - (b + 39) mod 4096 in
  let pp := pv + 39 - (pv + 39) mod 4096 in
  let '(fs, fe) := if pp =? sp then (false, negb (pp =? ep)) else (true, true) in
  let '(fs, fe) := match nx with
    | Some c => let np := c - c mod 4096 in
      if np =? ep then (if np =? sp then false else fs, false) else (fs, fe)
    | None => (fs, fe) end in
  if fs || fe then (if fs then sp else ep, (if fe then ep else sp) + 4096) else (sp, sp).

Lemma del_range_ok pv b r e P :
  pv + 40 <= b -> (forall c, head r = Some c -> b + 40 <= c /\ hd_or r e = c) -> P mod 4096 = 0 ->
  let '(lo, hi) := del_range pv b (head r) in
  lo mod 4096 = 0 /\ hi mod 4096 = 0 /\ b - 4096 < lo <= b + 39 /\ b - 4096 < hi <= b + 39 + 4096 /\
  (lo <= P < hi <-> hits b P /\ ~ hits pv P /\ ~ (r <> [] /\ hits (hd_or r e) P)).
Proof.
  intros H1 H2 HP. unfold del_range.
  set (sp := b - b mod 4096). set (ep := b + 39 - (b + 39) mod 4096).
  set (pp := pv + 39 - (pv + 39) mod 4096).
  assert (Hsp : sp mod 4096 = 0 /\ sp <= b < sp + 4096) by (unfold sp; pages).
  assert (Hep : ep mod 4096 = 0 /\ ep <= b + 39 < ep + 4096) by (unfold ep; pages).
  assert (Hpp : pp mod 4096 = 0 /\ pp <= pv + 39 < pp + 4096) by (unfold pp; pages).
  clearbody sp ep pp.
  assert (Hse : ep = sp \/ ep = sp + 4096) by pages.
  assert (HPs : P < sp \/ P = sp \/ P = sp + 4096 \/ sp + 4096 < P) by pages.
  assert (Hps : pp <= sp) by pages.
  destruct r as [|c r]; cbn [head hd_or].
  - assert (Hr : (([] : list Z) <> [] /\ hits e P) <-> False) by tauto.
    destruct (Z.eqb_spec pp sp), (Z.eqb_spec pp ep); cbn [negb orb andb];
      (split; [pages|]; split; [pages|]; split; [pages|]; split; [pages|]); rewrite Hr; clear Hr;
      unfold hits in *; Z.to_euclidean_division_equations; lia.
  - destruct (H2 c eq_refl) as [H3 _]. set (np := c - c mod 4096).
    assert (Hnp : np mod 4096 = 0 /\ np <= c < np + 4096) by (unfold np; pages). clearbody np.
    assert (Hne : ep <= np) by pages.
    assert (Hr : (c :: r <> [] /\ hits c P) <-> hits c P) by (split; [tauto|done]).
    destruct (Z.eqb_spec pp sp), (Z.eqb_spec pp ep), (Z.eqb_spec np ep), (Z.eqb_spec np sp); cbn [negb orb andb];
      (split; [pages|]; split; [pages|]; split; [pages|]; split; [pages|]); rewrite Hr; clear Hr;
      unfold hits in *; Z.to_euclidean_division_equations; lia.
Qed.
