(* ===== verification/BinderState.v ===== *)
(** The state of the binder allocator: the invariant that ties the chain of buffers, their
    headers, the two indices and the page array together, and the effect on it of every
    step of allocation and release. *)
From stdpp Require Import gmap sorting.
From S2P Require Import Prelude Rbtree RbInsert RbErase RbWalk Binder RbIndex BinderIndex BinderLayout.

Local Open Scope kernel_scope.

(** ** The state of the allocator *)

Definition flag (p : binder_proc) (b : Z) : option bool := free <$> hdr p !! b.

Definition size_at (l : list Z) (e b : Z) : Z :=
  match next_in l b with Some o => default e o - (b + 40) | None => 0 end.
Definition psize (p : binder_proc) (b : Z) : Z := size_at (buffers p) (region_end p) b.
(** The order of the free index: the size of the buffer around the node. *)
Definition fkey (p : binder_proc) (n : Z) : Z := psize p (n - 8).

(** The chain of buffers, their headers and the two indices, which hold the nodes
    [F] of free buffers, ordered by [K], and [A] of allocated ones. *)
Record core (p : binder_proc) (F A : gset Z) (K : Z -> Z) : Prop := {
  co_region : region p;
  co_head : hd_or (buffers p) NULL = buffer p;
  co_chain : chain (buffers p) (region_end p);
  co_hdr : forall b, is_Some (hdr p !! b) <-> b ∈ buffers p;
  co_nodes : forall b, b ∈ buffers p -> is_Some (nodes p !! (b + 8));
  co_F : index (nodes p) (free_buffers p) F K;
  co_A : index (nodes p) (allocated_buffers p) A id;
  co_Ff : forall n, n ∈ F -> flag p (n - 8) = Some true;
  co_Af : forall n, n ∈ A -> flag p (n - 8) = Some false }.

Lemma size_mid l b r e : b ∉ l -> size_at (l ++ b :: r) e b = hd_or r e - (b + 40).
Proof. intros H. unfold size_at. rewrite next_in_mid by done. by destruct r. Qed.

Lemma chain_above l e x : chain l e -> x ∈ l -> hd_or l NULL <= x.
Proof.
  intros H Hx. destruct l as [|b l]; [set_solver|]. cbn [hd_or]. apply elem_of_cons in Hx as [->|Hx]; [lia|].
  pose proof (chain_lower _ _ _ _ H Hx). lia.
Qed.

Lemma elem_split (b : Z) l : b ∈ l -> NoDup l -> exists l1 l2, l = l1 ++ b :: l2 /\ (b ∉ l1) /\ (b ∉ l2).
Proof.
  intros H Hn. apply list_elem_of_split in H as (l1 & l2 & ->). exists l1, l2. split; [done|].
  apply NoDup_app in Hn as (_ & Hd & Hn). apply NoDup_cons in Hn as [Hn _]. split; [|done].
  intros Hin. apply (Hd b Hin). set_solver.
Qed.

Lemma obind {A B} (f : A -> option B) x : (Some x ≫= f) = f x.
Proof. done. Qed.

Section core_facts.
Context (p : binder_proc) (F A : gset Z) (K : Z -> Z).
Hypothesis Hc : core p F A K.

Lemma core_addr b : b ∈ buffers p ->
  4096 <= b /\ buffer p <= b /\ b + 40 <= region_end p /\ region_end p <= 2 ^ 32 - 4096 /\ b mod 4 = 0.
Proof.
  intros Hb. pose proof (region_low p (co_region _ _ _ _ Hc)) as Hl.
  pose proof (chain_above _ _ _ (co_chain _ _ _ _ Hc) Hb) as Ha. rewrite (co_head _ _ _ _ Hc) in Ha.
  pose proof (chain_upper _ _ _ (co_chain _ _ _ _ Hc) Hb). pose proof (rg_top p (co_region _ _ _ _ Hc)).
  destruct (elem_split b _ Hb (chain_nodup _ _ (co_chain _ _ _ _ Hc))) as (l1 & l2 & He & _).
  pose proof (co_chain _ _ _ _ Hc) as Hch. rewrite He in Hch. apply chain_split in Hch as (H4 & _).
  unfold region_end in *. lia.
Qed.

Lemma core_node b : b ∈ buffers p -> node_addr (b + 8) /\ b +u rb_off = b + 8 /\ (b + 8) -u rb_off = b.
Proof.
  intros Hb. pose proof (core_addr b Hb). unfold node_addr, rb_off.
  rewrite !u32_id by (unfold is_u32; lia). split; [|lia]. split; [lia|].
  Z.to_euclidean_division_equations; lia.
Qed.

Lemma core_split b : b ∈ buffers p ->
  exists l r, buffers p = l ++ b :: r /\ (b ∉ l) /\ (b ∉ r) /\ chain (l ++ b :: r) (region_end p).
Proof.
  intros Hb. destruct (elem_split b _ Hb (chain_nodup _ _ (co_chain _ _ _ _ Hc))) as (l & r & He & H1 & H2).
  exists l, r. rewrite <- He. pose proof (co_chain _ _ _ _ Hc). done.
Qed.

Lemma core_size b : b ∈ buffers p ->
  binder_buffer_size p b = Some (psize p b) /\ 0 <= psize p b <= region_end p /\
  b + 40 + psize p b <= region_end p.
Proof.
  intros Hb. pose proof (core_addr b Hb) as Ha. destruct (core_split b Hb) as (l & r & He & Hl & Hr & Hch).
  pose proof (chain_split _ _ _ _ Hch) as (_ & H1 & _ & _ & _ & _ & H2).
  assert (Hp : psize p b = hd_or r (region_end p) - (b + 40)) by (unfold psize; rewrite He; by apply size_mid).
  rewrite Hp. unfold binder_buffer_size, data, sizeof_binder_buffer. rewrite He, next_in_mid by done.
  cbn [mbind option_bind]. split; [|lia]. f_equal. destruct (co_region _ _ _ _ Hc).
  unfold region_end in *. destruct r as [|c r]; cbn [head hd_or] in *;
    rewrite !u32_id; unfold is_u32; rewrite ?u32_id by (unfold is_u32; lia); lia.
Qed.

Lemma core_flag_in b v : flag p b = Some v -> b ∈ buffers p.
Proof.
  unfold flag. intros H. apply (co_hdr _ _ _ _ Hc). destruct (hdr p !! b); [eauto|done].
Qed.

Lemma core_F_in n : n ∈ F -> n - 8 ∈ buffers p /\ n = n - 8 + 8.
Proof. intros Hn. split; [|lia]. eapply core_flag_in. by apply (co_Ff _ _ _ _ Hc). Qed.
Lemma core_A_in n : n ∈ A -> n - 8 ∈ buffers p /\ n = n - 8 + 8.
Proof. intros Hn. split; [|lia]. eapply core_flag_in. by apply (co_Af _ _ _ _ Hc). Qed.

Lemma core_disjoint n : n ∈ F -> n ∉ A.
Proof.
  intros H1 H2. pose proof (co_Ff _ _ _ _ Hc n H1). pose proof (co_Af _ _ _ _ Hc n H2). congruence.
Qed.

(** A change of the free index leaves the rest as it was. *)
Lemma core_new_free m f F' :
  index m f F' K -> (forall n, n ∈ F' -> flag p (n - 8) = Some true) ->
  (forall n, n ∈ A -> m !! n = nodes p !! n) ->
  (forall n, is_Some (nodes p !! n) -> is_Some (m !! n)) ->
  core (set_trees m f (allocated_buffers p) p) F' A K.
Proof.
  intros Hi Hf Hm Hs. destruct Hc as [H1 H2 H3 H4 H5 H6 H7 H8 H9]. split; try done.
  - by destruct H1.
  - intros b Hb. by apply Hs, H5.
  - by eapply index_frame; [|exact H7].
Qed.
Lemma core_new_alloc m a A' :
  index m a A' id -> (forall n, n ∈ A' -> flag p (n - 8) = Some false) ->
  (forall n, n ∈ F -> m !! n = nodes p !! n) ->
  (forall n, is_Some (nodes p !! n) -> is_Some (m !! n)) ->
  core (set_trees m (free_buffers p) a p) F A' K.
Proof.
  intros Hi Hf Hm Hs. destruct Hc as [H1 H2 H3 H4 H5 H6 H7 H8 H9]. split; try done.
  - by destruct H1.
  - intros b Hb. by apply Hs, H5.
  - by eapply index_frame; [|exact H6].
Qed.

Lemma erase_free_ok n : n ∈ F ->
  exists m f, on_free (rb_erase RB_FUEL n) p = Some (tt, set_trees m f (allocated_buffers p) p) /\
    core (set_trees m f (allocated_buffers p) p) (F ∖ {[n]}) A K.
Proof.
  intros Hn. destruct (index_erase _ _ _ _ n (co_F _ _ _ _ Hc) Hn) as (s' & He & Hi & Hout & Hs).
  exists (rb_mem s'), (rb_root s'). unfold on_free. rewrite He. split; [done|]. apply core_new_free; [done| | |done].
  - intros x Hx. apply (co_Ff _ _ _ _ Hc). set_solver.
  - intros x Hx. apply Hout. intros Hf. by apply (core_disjoint x Hf).
Qed.

Lemma erase_alloc_ok n : n ∈ A ->
  exists m a, on_allocated (rb_erase RB_FUEL n) p = Some (tt, set_trees m (free_buffers p) a p) /\
    core (set_trees m (free_buffers p) a p) F (A ∖ {[n]}) K.
Proof.
  intros Hn. destruct (index_erase _ _ _ _ n (co_A _ _ _ _ Hc) Hn) as (s' & He & Hi & Hout & Hs).
  exists (rb_mem s'), (rb_root s'). unfold on_allocated. rewrite He. split; [done|]. apply core_new_alloc; [done| | |done].
  - intros x Hx. apply (co_Af _ _ _ _ Hc). set_solver.
  - intros x Hx. apply Hout. by apply core_disjoint.
Qed.

(** The two insertions. *)
Lemma insert_free_run b left : K = fkey p -> flag p b = Some true -> b + 8 ∉ F ->
  (forall y, y ∈ F -> left y = Some (psize p b <? psize p (y - 8))) ->
  exists m f, (r ← on_free (l ← insert_search RB_FUEL left NULL LinkRoot;
      let '(parent, link) := l in
      rb_link_node (b + 8) parent link;; rb_insert_color RB_FUEL (b + 8)) p; Some r.2) =
      Some (set_trees m f (allocated_buffers p) p) /\
    core (set_trees m f (allocated_buffers p) p) ({[b + 8]} ∪ F) A K.
Proof.
  intros HK Hb Hn Hl. pose proof (core_flag_in b true Hb) as Hin. destruct (core_node b Hin) as (Ha & _).
  destruct (index_insert _ _ _ _ (b + 8) left (co_F _ _ _ _ Hc) Hn Ha (co_nodes _ _ _ _ Hc b Hin)) as (s' & He & Hi & Hout & Hs).
  { intros y Hy. rewrite Hl, HK by done. unfold fkey. by replace (b + 8 - 8) with b by lia. }
  exists (rb_mem s'), (rb_root s'). unfold on_free. rewrite He, obind. split; [done|].
  apply core_new_free; [done| | |done].
  - intros y [->%elem_of_singleton|Hy]%elem_of_union; [|by apply (co_Ff _ _ _ _ Hc)].
    by replace (b + 8 - 8) with b by lia.
  - intros y Hy. apply Hout. intros [->%elem_of_singleton|Hyf]%elem_of_union; [|by apply (core_disjoint y Hyf)].
    pose proof (co_Af _ _ _ _ Hc _ Hy) as Hfl. replace (b + 8 - 8) with b in Hfl by lia. congruence.
Qed.

Lemma insert_alloc_run b left : flag p b = Some false -> b + 8 ∉ A ->
  (forall y, y ∈ A -> left y = Some (b + 8 <? y)) ->
  exists m a, (r ← on_allocated (l ← insert_search RB_FUEL left NULL LinkRoot;
      let '(parent, link) := l in
      rb_link_node (b + 8) parent link;; rb_insert_color RB_FUEL (b + 8)) p; Some r.2) =
      Some (set_trees m (free_buffers p) a p) /\
    core (set_trees m (free_buffers p) a p) F ({[b + 8]} ∪ A) K.
Proof.
  intros Hb Hn Hl. pose proof (core_flag_in b false Hb) as Hin. destruct (core_node b Hin) as (Ha & _).
  destruct (index_insert _ _ _ _ (b + 8) left (co_A _ _ _ _ Hc) Hn Ha (co_nodes _ _ _ _ Hc b Hin) Hl) as (s' & He & Hi & Hout & Hs).
  exists (rb_mem s'), (rb_root s'). unfold on_allocated. rewrite He, obind. split; [done|].
  apply core_new_alloc; [done| | |done].
  - intros y [->%elem_of_singleton|Hy]%elem_of_union; [|by apply (co_Af _ _ _ _ Hc)].
    by replace (b + 8 - 8) with b by lia.
  - intros y Hy. apply Hout. intros [->%elem_of_singleton|Hyf]%elem_of_union; [|by apply (core_disjoint y Hy)].
    pose proof (co_Ff _ _ _ _ Hc _ Hy) as Hfl. replace (b + 8 - 8) with b in Hfl by lia. congruence.
Qed.

Lemma flag_hdr b v : flag p b = Some v -> exists x, hdr p !! b = Some x /\ free x = v.
Proof. unfold flag. destruct (hdr p !! b) as [x|]; [|done]. intros [= <-]. eauto. Qed.

Lemma insert_free_ok b : K = fkey p -> flag p b = Some true -> b + 8 ∉ F ->
  exists m f, binder_insert_free_buffer b p = Some (set_trees m f (allocated_buffers p) p) /\
    core (set_trees m f (allocated_buffers p) p) ({[b + 8]} ∪ F) A K.
Proof.
  intros HK Hb Hn. pose proof (core_flag_in b true Hb) as Hin. destruct (core_node b Hin) as (_ & Hadd & _).
  destruct (core_size b Hin) as (Hsz & _). unfold binder_insert_free_buffer. rewrite Hadd.
  destruct (flag_hdr b true Hb) as (x & Hx & Hfx). rewrite Hx, obind, Hfx. cbn [negb]. rewrite Hsz, obind.
  apply insert_free_run; [done|done|done|]. intros y Hy. destruct (core_F_in y Hy) as [Hyin Hy8].
  destruct (core_node _ Hyin) as (_ & _ & Hsuby). rewrite <- Hy8 in Hsuby. rewrite Hsuby.
  destruct (flag_hdr _ _ (co_Ff _ _ _ _ Hc y Hy)) as (z & Hz & Hfz). rewrite Hz, obind, Hfz. cbn [negb].
  destruct (core_size _ Hyin) as (Hszy & _). by rewrite Hszy, obind.
Qed.

Lemma insert_alloc_ok b : flag p b = Some false -> b + 8 ∉ A ->
  exists m a, binder_insert_allocated_buffer b p = Some (set_trees m (free_buffers p) a p) /\
    core (set_trees m (free_buffers p) a p) F ({[b + 8]} ∪ A) K.
Proof.
  intros Hb Hn. pose proof (core_flag_in b false Hb) as Hin. destruct (core_node b Hin) as (_ & Hadd & _).
  unfold binder_insert_allocated_buffer. rewrite Hadd.
  destruct (flag_hdr b false Hb) as (x & Hx & Hfx). rewrite Hx, obind, Hfx.
  apply insert_alloc_run; [done|done|]. intros y Hy. destruct (core_A_in y Hy) as [Hyin Hy8].
  destruct (core_node _ Hyin) as (_ & _ & Hsuby). rewrite <- Hy8 in Hsuby. rewrite Hsuby.
  destruct (flag_hdr _ _ (co_Af _ _ _ _ Hc y Hy)) as (z & Hz & Hfz). rewrite Hz, obind, Hfz.
  assert (b <> y - 8) by (intros ->; by rewrite <- Hy8 in Hn).
  destruct (Z.ltb_spec b (y - 8)), (Z.ltb_spec (y - 8) b), (Z.ltb_spec (b + 8) y); try lia; done.
Qed.
End core_facts.

(** ** Changes of headers, pages and the chain *)

Section core_changes.
Context (p : binder_proc) (F A : gset Z) (K : Z -> Z).
Hypothesis Hc : core p F A K.

Lemma core_key K' : (forall n, n ∈ F -> K n = K' n) -> core p F A K'.
Proof. intros H. destruct Hc. split; try done. by eapply index_key. Qed.

Lemma core_set_pages l : length l = length (pages p) -> core (set_pages l p) F A K.
Proof.
  intros H. destruct Hc as [[R1 R2 R3 R4] ? ? ? ? ? ? ? ?]. split; try done.
  split; try done. cbn. by rewrite H.
Qed.

Lemma core_set_async n : core (set_async n p) F A K.
Proof. destruct Hc as [[R1 R2 R3 R4] ? ? ? ? ? ? ? ?]. split; try done. Qed.

(** Writing the header of a buffer that no index holds on the wrong side. *)
Lemma core_set_hdr b x : b ∈ buffers p ->
  (b + 8 ∈ F -> free x = true) -> (b + 8 ∈ A -> free x = false) ->
  core (set_hdr (<[b := x]> (hdr p)) p) F A K.
Proof.
  intros Hb HF HA. destruct Hc as [[R1 R2 R3 R4] H2 H3 H4 H5 H6 H7 H8 H9]. split; try done.
  - intros y. cbn. destruct (decide (y = b)) as [->|].
    + rewrite lookup_insert_eq. split; [done|eauto].
    + rewrite lookup_insert_ne by done. apply H4.
  - intros n Hn. unfold flag. cbn. destruct (decide (n - 8 = b)) as [He|].
    + rewrite He, lookup_insert_eq. cbn. rewrite HF; [done|]. by replace (b + 8) with n by lia.
    + rewrite lookup_insert_ne by done. by apply H8.
  - intros n Hn. unfold flag. cbn. destruct (decide (n - 8 = b)) as [He|].
    + rewrite He, lookup_insert_eq. cbn. rewrite HA; [done|]. by replace (b + 8) with n by lia.
    + rewrite lookup_insert_ne by done. by apply H9.
Qed.

End core_changes.

Lemma next_in_skip l b r x : x <> b -> x ∉ l -> next_in (l ++ b :: r) x = next_in r x.
Proof.
  intros Hx Hl. induction l as [|y l IH]; cbn [app next_in].
  - by rewrite (proj2 (Z.eqb_neq b x)) by congruence.
  - rewrite (proj2 (Z.eqb_neq y x)) by set_solver. apply IH. set_solver.
Qed.

Lemma next_in_before l b r r' x : x ∈ l -> x <> b -> next_in (l ++ b :: r) x = next_in (l ++ b :: r') x.
Proof.
  intros Hx Hb. induction l as [|y l IH]; [set_solver|]. cbn [app next_in].
  destruct (Z.eqb_spec y x); [by destruct l|]. apply IH. set_solver.
Qed.

(** The sizes of the other buffers do not change when a header appears after [b]. *)
Lemma size_add l b n r e x : x <> b -> x <> n -> size_at (l ++ b :: n :: r) e x = size_at (l ++ b :: r) e x.
Proof.
  intros Hb Hn. unfold size_at. destruct (decide (x ∈ l)) as [Hl|Hl].
  - by rewrite (next_in_before l b (n :: r) r) by done.
  - rewrite !next_in_skip by done. cbn [next_in]. by rewrite (proj2 (Z.eqb_neq n x)) by congruence.
Qed.

Lemma chain_add l b n r e : chain (l ++ b :: r) e -> b + 40 <= n -> n + 40 <= hd_or r e -> n mod 4 = 0 ->
  chain (l ++ b :: n :: r) e.
Proof.
  intros H H1 H2 H3. apply chain_app in H as [Hl Hr]. apply chain_app. split; [done|].
  cbn [chain hd_or] in *. tauto.
Qed.

Lemma chain_drop l pv b r e : chain (l ++ pv :: b :: r) e -> chain (l ++ pv :: r) e.
Proof.
  intros H. apply chain_app in H as [Hl Hr]. apply chain_app. split; [done|].
  cbn [chain hd_or] in *. destruct Hr as (? & ? & ? & ? & ?). split; [done|]. split; [lia|done].
Qed.

(** A free header written inside the block of [b]. *)
Lemma core_add p F A l b r n hx nd :
  core p F A (fkey p) -> buffers p = l ++ b :: r -> b ∉ l -> b ∉ r -> b + 8 ∉ F ->
  b + 40 <= n -> n + 40 <= hd_or r (region_end p) -> n mod 4 = 0 ->
  let p' := set_trees (<[n + 8 := nd]> (nodes p)) (free_buffers p) (allocated_buffers p)
    (set_hdr (<[n := hx]> (hdr p)) (set_buffers (l ++ b :: n :: r) p)) in
  core p' F A (fkey p') /\ (n + 8 ∉ F) /\ (n ∉ l ++ b :: r).
Proof.
  intros Hc Hb Hbl Hbr HbF H1 H2 H3 p'. pose proof (co_chain _ _ _ _ Hc) as Hch. rewrite Hb in Hch.
  pose proof (chain_split _ _ _ _ Hch) as (_ & _ & _ & _ & Hlow & Hhigh & _).
  assert (Hn : n ∉ l ++ b :: r).
  { intros [Hin|[->|Hin]%elem_of_cons]%elem_of_app; [specialize (Hlow n Hin); lia|lia|].
    specialize (Hhigh n Hin). lia. }
  assert (HnF : n + 8 ∉ F).
  { intros Hin. destruct (core_F_in _ _ _ _ Hc _ Hin) as [Hin' _].
    replace (n + 8 - 8) with n in Hin' by lia. by rewrite Hb in Hin'. }
  assert (HnA : n + 8 ∉ A).
  { intros Hin. destruct (core_A_in _ _ _ _ Hc _ Hin) as [Hin' _].
    replace (n + 8 - 8) with n in Hin' by lia. by rewrite Hb in Hin'. }
  split; [|done]. destruct Hc as [[R1 R2 R3 R4] G2 G3 G4 G5 G6 G7 G8 G9].
  assert (Hflag : forall x, x <> n -> flag p' x = flag p x).
  { intros x Hx. unfold flag. cbn. by rewrite lookup_insert_ne. }
  split; try done.
  - cbn. rewrite Hb in G2. by rewrite hd_app in *.
  - cbn. by apply chain_add.
  - intros x. cbn. destruct (decide (x = n)) as [->|Hx].
    + rewrite lookup_insert_eq. split; [set_solver|done].
    + rewrite lookup_insert_ne by done. rewrite G4, Hb. set_solver.
  - intros x Hx. cbn in *. destruct (decide (x = n)) as [->|Hxn]; [by rewrite lookup_insert_eq|].
    rewrite lookup_insert_ne by lia. apply G5. rewrite Hb. set_solver.
  - eapply index_frame; [|eapply index_key; [|exact G6]].
    + intros y Hy. cbn. rewrite lookup_insert_ne; [done|congruence].
    + intros y Hy. unfold fkey, psize. cbn. rewrite Hb. symmetry. apply size_add.
      * intros He. apply HbF. by replace (b + 8) with y by lia.
      * intros He. apply HnF. by replace (n + 8) with y by lia.
  - eapply index_frame; [|exact G7]. intros y Hy. cbn. rewrite lookup_insert_ne; [done|congruence].
  - intros y Hy. rewrite Hflag; [by apply G8|]. intros He. apply HnF. by replace (n + 8) with y by lia.
  - intros y Hy. rewrite Hflag; [by apply G9|]. intros He. apply HnA. by replace (n + 8) with y by lia.
Qed.

(** A header that no index holds unlinked from the chain. *)
Lemma core_drop p F A K l pv b r :
  core p F A K -> buffers p = l ++ pv :: b :: r -> b + 8 ∉ F -> b + 8 ∉ A ->
  core (drop_header b p) F A K /\ buffers (drop_header b p) = l ++ pv :: r.
Proof.
  intros Hc Hb HF HA. pose proof (co_chain _ _ _ _ Hc) as Hch. rewrite Hb in Hch.
  pose proof (chain_nodup _ _ Hch) as Hnd.
  assert (Hbuf : list_del b (buffers p) = l ++ pv :: r).
  { rewrite Hb. change (pv :: b :: r) with ([pv] ++ b :: r) in *. rewrite app_assoc in *.
    apply NoDup_app in Hnd as (_ & Hd & Hnd). apply NoDup_cons in Hnd as [Hnr _].
    rewrite list_del_mid; [by rewrite <- app_assoc| |done].
    intros Hin. apply (Hd b Hin). set_solver. }
  assert (Hbin : b ∈ buffers p) by (rewrite Hb; set_solver).
  destruct (core_node _ _ _ _ Hc b Hbin) as (_ & Hadd & _).
  split; [|exact Hbuf]. unfold drop_header. rewrite Hadd, Hbuf.
  destruct Hc as [[R1 R2 R3 R4] G2 G3 G4 G5 G6 G7 G8 G9].
  assert (Hin : forall x, x ∈ l ++ pv :: r <-> x ∈ buffers p /\ x <> b).
  { intros x. rewrite Hb, <- Hbuf. unfold list_del. rewrite list_elem_of_filter, Hb. tauto. }
  assert (Hflag : forall x, x <> b -> free <$> delete b (hdr p) !! x = flag p x).
  { intros x Hx. unfold flag. by rewrite lookup_delete_ne. }
  split; try done.
  - cbn. rewrite Hb in G2. by rewrite hd_app in *.
  - cbn. by eapply chain_drop.
  - intros x. cbn. rewrite Hin. destruct (decide (x = b)) as [->|Hx].
    + rewrite lookup_delete_eq. split; [by intros []|tauto].
    + rewrite lookup_delete_ne by done. rewrite G4. tauto.
  - intros x Hx. cbn in *. apply Hin in Hx as [Hx Hxb]. rewrite lookup_delete_ne by lia. by apply G5.
  - eapply index_frame; [|exact G6]. intros y Hy. cbn. rewrite lookup_delete_ne; [done|congruence].
  - eapply index_frame; [|exact G7]. intros y Hy. cbn. rewrite lookup_delete_ne; [done|congruence].
  - intros y Hy. unfold flag. cbn. rewrite Hflag; [by apply G8|]. intros He. apply HF. by replace (b + 8) with y by lia.
  - intros y Hy. unfold flag. cbn. rewrite Hflag; [by apply G9|]. intros He. apply HA. by replace (b + 8) with y by lia.
Qed.

(** The sizes of the other buffers do not change when the one after [pv] is unlinked. *)
Lemma size_drop l pv b r e x : x <> pv -> x <> b -> size_at (l ++ pv :: r) e x = size_at (l ++ pv :: b :: r) e x.
Proof. intros. symmetry. by apply size_add. Qed.

(** ** Pages of a state *)

Definition al_of (p : binder_proc) (b : Z) : bool :=
  match flag p b with Some f => negb f | None => false end.

(** A page is there exactly when a header or allocated data needs it. *)
Definition pages_ok (al : Z -> bool) (p : binder_proc) : Prop :=
  forall i, 0 <= i < len (pages p) ->
    (zget (pages p) i = Some true <-> need al (buffers p) (region_end p) (page p i)).

Lemma pages_fill p (N N' : Z -> Prop) s e (v : bool) i :
  region p -> s mod 4096 = 0 -> e mod 4096 = 0 -> 0 <= i < len (pages p) ->
  (zget (pages p) i = Some true <-> N (page p i)) ->
  (N' (page p i) <-> (if v then N (page p i) \/ s <= page p i < e else N (page p i) /\ ~ (s <= page p i < e))) ->
  zget (fill (pidx p s) (pidx p e) v (pages p)) i = Some true <-> N' (page p i).
Proof.
  intros Hr Hs He Hi HN HN'. rewrite zget_fill, HN'.
  pose proof (page_pidx p s Hr Hs) as Hps. pose proof (page_pidx p e Hr He) as Hpe.
  assert (Hiff : s <= page p i < e <-> pidx p s <= i < pidx p e) by (rewrite <- Hps, <- Hpe at 1; unfold page; lia).
  destruct (zget_is_Some (pages p) i Hi) as [x Hx]. rewrite Hx in *.
  destruct (Z.leb_spec (pidx p s) i), (Z.ltb_spec i (pidx p e)); cbn [andb fmap option_fmap option_map];
    destruct v; rewrite Hiff; (split; [intros H1; try (injection H1 as ->)|intros H1]);
    first [done | tauto | (right; lia) | (split; [tauto|lia]) | (destruct H1; [tauto|lia]) | (exfalso; lia) | (exfalso; tauto) | idtac].
Qed.

Lemma page_aligned p i : region p -> page p i mod 4096 = 0.
Proof. intros [[_ H] _ _ _]. unfold page. Z.to_euclidean_division_equations; lia. Qed.

(** [al] agrees on the chain with the flags. *)
Lemma pages_ok_ext al al' p : (forall b, b ∈ buffers p -> al b = al' b) -> pages_ok al p -> pages_ok al' p.
Proof.
  intros H Hp i Hi. rewrite (Hp i Hi). split; apply need_ext; [done|]. intros b Hb. symmetry. by apply H.
Qed.

Lemma delete_free_ok env p F A K l pv b r :
  core p F A K -> pages_ok (al_of p) p -> buffers p = l ++ pv :: b :: r ->
  flag p pv = Some true -> flag p b = Some true -> b + 8 ∉ F -> b + 8 ∉ A ->
  exists pgs, let p1 := set_pages pgs (drop_header b p) in
    binder_delete_free_buffer env b p = Some p1 /\ core p1 F A K /\
    buffers p1 = l ++ pv :: r /\ pages_ok (al_of p1) p1.
Proof.
  intros Hc Hpg Hb Hfp Hfb HF HA. pose proof (co_region _ _ _ _ Hc) as Hreg.
  pose proof (co_chain _ _ _ _ Hc) as Hch. rewrite Hb in Hch.
  assert (Hbin : b ∈ buffers p) by (rewrite Hb; set_solver).
  assert (Hpin : pv ∈ buffers p) by (rewrite Hb; set_solver).
  pose proof (core_addr _ _ _ _ Hc b Hbin) as Hba. pose proof (core_addr _ _ _ _ Hc pv Hpin) as Hpa.
  destruct (core_drop p F A K l pv b r Hc Hb HF HA) as [Hc1 Hb1].
  pose proof (chain_nodup _ _ Hch) as Hnd.
  assert (Hb' : buffers p = (l ++ [pv]) ++ b :: r) by (rewrite Hb, <- app_assoc; done).
  pose proof Hch as Hch'. change (pv :: b :: r) with ([pv] ++ b :: r) in Hch'. rewrite app_assoc in Hch'.
  pose proof (chain_split _ _ _ _ Hch') as (_ & Hbe & Hbl & Hbr & Hlow & Hhigh & _).
  assert (Hpv : pv + 40 <= b) by (apply Hlow; set_solver).
  assert (Hhd : forall c, head r = Some c -> b + 40 <= c /\ hd_or r (region_end p) = c).
  { destruct r as [|c r]; [done|]. intros x [= <-]. cbn [hd_or] in *. done. }
  assert (Halp : al_of p pv = false) by (unfold al_of; by rewrite Hfp).
  assert (Halb : al_of p b = false) by (unfold al_of; by rewrite Hfb).
  pose proof (fun (P : Z) (HP : P mod 4096 = 0) => del_range_ok pv b r (region_end p) P Hpv Hhd HP) as Hrange.
  destruct (del_range pv b (head r)) as [lo hi] eqn:Hdr.
  pose proof (Hrange 0 eq_refl) as (Hlo & Hhi & Hlo1 & Hhi1 & _).
  pose proof Hreg as [[Hbase Hbm] [Hsz Hsm] Htop Hpgs].
  assert (Hlor : buffer p <= lo <= region_end p /\ buffer p <= hi <= region_end p).
  { unfold region_end in *. split; pages. }
  destruct Hlor as [Hlor Hhir].
  assert (Hneed : forall P, P mod 4096 = 0 -> need (al_of p) (l ++ pv :: r) (region_end p) P <->
    need (al_of p) (buffers p) (region_end p) P /\ ~ (lo <= P < hi)).
  { intros P HP. rewrite Hb. destruct (Hrange P HP) as (_ & _ & _ & _ & Hrg). rewrite Hrg.
    by apply need_unlink. }
  exists (fill (pidx p lo) (pidx p hi) false (pages p)). cbn zeta.
  assert (Hcode : binder_delete_free_buffer env b p =
    Some (set_pages (fill (pidx p lo) (pidx p hi) false (pages p)) (drop_header b p))).
  { assert (Hprev : prev_in None (buffers p) b = Some (Some pv)) by (by rewrite Hb', prev_in_mid, last_snoc by done).
    assert (Hnext : next_in (buffers p) b = Some (head r)) by (by rewrite Hb', next_in_mid by done).
    unfold binder_delete_free_buffer. rewrite Hprev, Hnext, obind.
    destruct (flag_hdr p pv true Hfp) as (x & Hx & Hfx). rewrite obind, Hx, obind, Hfx. cbn [negb].
    assert (Hep : forall c, 4096 <= c -> c + 40 <= region_end p -> buffer_end_page c = c + 39 - (c + 39) mod 4096).
    { intros c H1 H2. unfold buffer_end_page, sizeof_binder_buffer. rewrite (u32_id (c + 40)) by (unfold is_u32; lia).
      replace (c + 40 - 1) with (c + 39) by lia. rewrite u32_id by (unfold is_u32; lia). apply page_mask_ok. lia. }
    assert (Hsp : forall c, 4096 <= c -> c + 40 <= region_end p -> buffer_start_page c = c - c mod 4096).
    { intros c H1 H2. unfold buffer_start_page. apply page_mask_ok. lia. }
    rewrite !Hep, !Hsp by lia.
    assert (Hup : forall u w, w mod 4096 = 0 -> u = lo -> w + 4096 = hi ->
      (z ← binder_update_page_range env false u (w +u PAGE_SIZE) false (drop_header b p); Some z.2) =
      Some (set_pages (fill (pidx p lo) (pidx p hi) false (pages p)) (drop_header b p))).
    { intros u w Hw -> <-. unfold PAGE_SIZE. rewrite u32_id by (unfold is_u32; lia).
      destruct (update_free_ok env (drop_header b p) lo (w + 4096)) as (ret & ->); try done.
      intros i Hi. pose proof (page_pidx p lo Hreg Hlo) as P1. pose proof (page_pidx p (w + 4096) Hreg Hhi) as P2.
      change (pidx (drop_header b p)) with (pidx p) in Hi.
      assert (Hi' : 0 <= i < len (pages p)) by (unfold page, region_end in *; lia).
      apply (Hpg i Hi'). rewrite Hb. apply need_mid. right. right. apply need_cons. left. left.
      destruct (Hrange (page p i) (page_aligned p i Hreg)) as (_ & _ & _ & _ & Hrg). apply Hrg.
      unfold page in *. lia. }
    unfold del_range in Hdr. clear Hrange Hneed Hlor Hhir Hlo1 Hhi1.
    assert (Hsp0 : (b - b mod 4096) mod 4096 = 0) by pages.
    assert (Hep0 : (b + 39 - (b + 39) mod 4096) mod 4096 = 0) by pages.
    assert (Hempty : forall u, u = lo -> u = hi -> Some (drop_header b p) =
      Some (set_pages (fill (pidx p lo) (pidx p hi) false (pages p)) (drop_header b p))).
    { intros u -> <-. rewrite fill_empty by lia. by destruct p. }
    set (sp := b - b mod 4096) in *. set (ep := b + 39 - (b + 39) mod 4096) in *.
    set (pp := pv + 39 - (pv + 39) mod 4096) in *. destruct r as [|c r]; cbn [head] in *.
    - destruct (pp =? sp), (pp =? ep); cbn [negb orb] in *; rewrite obind; cbv beta iota;
        cbn [orb]; injection Hdr as Hdr1 Hdr2; eauto.
    - assert (Hcin : c ∈ buffers p) by (rewrite Hb; set_solver).
      pose proof (core_addr _ _ _ _ Hc c Hcin) as Hca. set (np := c - c mod 4096) in *.
      destruct (pp =? sp), (pp =? ep); cbn [negb orb] in *; rewrite obind; cbv beta iota;
        rewrite !Hsp by lia; fold np; destruct (np =? ep), (np =? sp); cbn [orb] in *;
        injection Hdr as Hdr1 Hdr2; eauto. }
  split; [exact Hcode|]. split; [apply core_set_pages; [done|by rewrite len_fill]|]. split; [exact Hb1|].
  apply (pages_ok_ext (al_of p)).
  { intros x Hx. unfold al_of, flag. cbn. cbn in Hx. change (list_del b (buffers p)) with (buffers (drop_header b p)) in Hx.
    rewrite Hb1 in Hx. rewrite lookup_delete_ne; [done|]. intros <-. apply NoDup_app in Hnd as (_ & Hd & Hnd).
    apply NoDup_cons in Hnd as [Hp1 Hnd]. apply NoDup_cons in Hnd as [Hb2 _]. set_solver. }
  intros i Hi. cbn in Hi. rewrite len_fill in Hi.
  change (buffers (set_pages _ _)) with (buffers (drop_header b p)). rewrite Hb1.
  apply (pages_fill p (need (al_of p) (buffers p) (region_end p))); try done; [by apply Hpg|].
  apply Hneed, page_aligned, Hreg.
Qed.
