(* ===== verification/BinderAlloc.v ===== *)
(** The binder buffer allocator: its invariant, and allocation.

    [binv] is what holds between operations: the chain of buffers covers the region,
    each index is a sorted red-black tree of exactly the buffers it should hold, a page
    is backed iff a header or allocated data needs it, no two free buffers are adjacent,
    every allocated buffer has room for its request, and the space of asynchronous
    transactions is accounted for.  [alloc_ok] is the contract of [binder_alloc_buf]. *)
From stdpp Require Import gmap sorting.
From S2P Require Import Prelude Rbtree RbInsert RbErase RbWalk Binder RbIndex BinderIndex BinderLayout BinderState.

Local Open Scope kernel_scope.

(** ** The invariant *)

(** The space a buffer was allocated for. *)
Definition req (data_size_ offsets_size_ : Z) : Z := ALIGN data_size_ 4 +u ALIGN offsets_size_ 4.
Definition req_of (x : binder_buffer) : Z := req (data_size x) (offsets_size x).

Definition marks (p : binder_proc) (F A : gset Z) : Prop :=
  (forall n, n ∈ F <-> flag p (n - 8) = Some true) /\ (forall n, n ∈ A <-> flag p (n - 8) = Some false).

(** No two neighbours are free; [prev] says whether the buffer before [l] is. *)
Definition is_free (p : binder_proc) (b : Z) : bool := default false (flag p b).
Fixpoint coal (fr : Z -> bool) (prev : bool) (l : list Z) : bool :=
  match l with [] => true | b :: r => negb (prev && fr b) && coal fr (fr b) r end.
Definition coalesced (p : binder_proc) : Prop := coal (is_free p) false (buffers p) = true.

Definition fitted (p : binder_proc) : Prop :=
  forall b x, hdr p !! b = Some x -> free x = false -> req_of x <= psize p b.

(** What the asynchronous transactions hold of their half of the region. *)
Definition acost (o : option binder_buffer) : Z :=
  match o with
  | Some x => if negb (free x) && async_transaction x then req_of x + 40 else 0
  | None => 0
  end.
Fixpoint asum (h : gmap Z binder_buffer) (l : list Z) : Z :=
  match l with [] => 0 | b :: l => acost (h !! b) + asum h l end.
Definition async_ok (p : binder_proc) : Prop :=
  is_u32 (free_async_space p) /\ free_async_space p + asum (hdr p) (buffers p) = buffer_size p / 2.

Record binv (p : binder_proc) (F A : gset Z) : Prop := {
  bv_core : core p F A (fkey p);
  bv_marks : marks p F A;
  bv_pages : pages_ok (al_of p) p;
  bv_coal : coalesced p;
  bv_fit : fitted p;
  bv_async : async_ok p }.

Definition last_free (fr : Z -> bool) (prev : bool) (l : list Z) : bool :=
  match last l with Some b => fr b | None => prev end.

Lemma coal_app fr prev l r : coal fr prev (l ++ r) = coal fr prev l && coal fr (last_free fr prev l) r.
Proof.
  revert prev. induction l as [|b l IH]; intros prev; cbn [app coal]; [done|].
  rewrite IH, andb_assoc. f_equal. unfold last_free. destruct l as [|c l]; [done|].
  change (last (b :: c :: l)) with (last (c :: l)). destruct (last (c :: l)) eqn:E; [done|].
  by apply last_None in E.
Qed.

Lemma coal_ext fr fr' prev l : (forall b, b ∈ l -> fr b = fr' b) -> coal fr prev l = coal fr' prev l.
Proof.
  revert prev. induction l as [|b l IH]; intros prev H; cbn [coal]; [done|].
  rewrite H, IH by set_solver. done.
Qed.

Lemma coal_weaken fr prev l : coal fr prev l = true -> coal fr false l = true.
Proof. destruct l; cbn [coal]; [done|]. intros [_ H]%andb_true_iff. done. Qed.

Lemma last_free_ext fr fr' prev l : (forall b, b ∈ l -> fr b = fr' b) -> last_free fr prev l = last_free fr' prev l.
Proof.
  intros H. unfold last_free. destruct (last l) as [b|] eqn:E; [|done]. apply H.
  apply last_Some in E as [l' ->]. set_solver.
Qed.

Lemma asum_app h l1 l2 : asum h (l1 ++ l2) = asum h l1 + asum h l2.
Proof. induction l1 as [|b l1 IH]; cbn [app asum]; [done|]. rewrite IH. lia. Qed.

Lemma asum_ext h h' l : (forall b, b ∈ l -> acost (h !! b) = acost (h' !! b)) -> asum h l = asum h' l.
Proof.
  induction l as [|b l IH]; intros H; cbn [asum]; [done|]. rewrite IH, H by set_solver. done.
Qed.

Lemma req_ok ds os : is_u32 ds -> is_u32 os -> is_u32 (req ds os) /\ (req ds os) mod 4 = 0.
Proof.
  intros H1 H2. destruct (align4_ok ds H1) as (_ & Ha & _), (align4_ok os H2) as (_ & Hb & _).
  split; [apply u32_range|]. unfold req. change 4 with (2 ^ 2) at 3. rewrite mod_u32_pow2 by lia.
  change (2 ^ 2) with 4. Z.to_euclidean_division_equations; lia.
Qed.

Lemma acost_nonneg o : 0 <= acost o.
Proof.
  destruct o as [x|]; cbn [acost]; [|lia]. destruct (_ && _); [|lia].
  pose proof (u32_range (ALIGN (data_size x) 4 + ALIGN (offsets_size x) 4)). unfold req_of, req. lia.
Qed.

Lemma asum_nonneg h l : 0 <= asum h l.
Proof. induction l as [|b l IH]; cbn [asum]; [lia|]. pose proof (acost_nonneg (h !! b)). lia. Qed.

(** Every byte of an allocated buffer is backed by a page. *)
Lemma backed p F A b a :
  core p F A (fkey p) -> pages_ok (al_of p) p -> flag p b = Some false -> b <= a < b + 40 + psize p b ->
  zget (pages p) ((a - buffer p) / 4096) = Some true.
Proof.
  intros Hc Hpg Hf Ha. pose proof (core_flag_in _ _ _ _ Hc b _ Hf) as Hin.
  pose proof (core_addr _ _ _ _ Hc b Hin) as Hb.
  destruct (core_split _ _ _ _ Hc b Hin) as (l & r & He & Hl & Hr & Hch).
  destruct (core_size _ _ _ _ Hc b Hin) as (_ & _ & Hsz).
  assert (Hp : psize p b = hd_or r (region_end p) - (b + 40)) by (unfold psize; rewrite He; by apply size_mid).
  pose proof (co_region _ _ _ _ Hc) as [[R1 R1'] [R2 R2'] R3 R4].
  set (i := (a - buffer p) / 4096).
  assert (Hi : buffer p + 4096 * i <= a < buffer p + 4096 * i + 4096) by (unfold i; pages).
  unfold region_end in *. apply Hpg; [lia|]. rewrite He. unfold region_end, page.
  apply need_mid. unfold hits, inside, al_of. rewrite Hf. cbn [negb].
  destruct (Z.lt_ge_cases (buffer p + 4096 * i) (b + 40)); [right; left; left; lia|].
  destruct (Z.le_gt_cases (buffer p + 4096 * i + 4096) (hd_or r (buffer p + buffer_size p)));
    [right; left; right; done|].
  right. right. destruct r as [|c r]; cbn [hd_or] in *; [pages|].
  apply need_cons. left. left. unfold hits. lia.
Qed.

(** The region stays where it is. *)
Definition same_map (p q : binder_proc) : Prop :=
  vma q = vma p /\ buffer q = buffer p /\ buffer_size q = buffer_size p /\ user_buffer_offset q = user_buffer_offset p.

(** ** The steps of an allocation *)

(** The buffer moves from the free index to the allocated one. *)
Lemma take_ok p F A b x :
  core p F A (fkey p) -> b + 8 ∈ F -> hdr p !! b = Some x ->
  let x' := Buffer false (async_transaction x) (transaction x) (data_size x) (offsets_size x) in
  exists m f a, let q := set_trees m f a (set_hdr (<[b := x']> (hdr p)) p) in
    (e ← on_free (rb_erase RB_FUEL (b + 8)) p;
     q ← upd_hdr b (fun x => Buffer false (async_transaction x) (transaction x) (data_size x) (offsets_size x)) e.2;
     binder_insert_allocated_buffer b q) = Some q /\
    core q (F ∖ {[b + 8]}) ({[b + 8]} ∪ A) (fkey q).
Proof.
  intros Hc Hb Hx x'. pose proof (core_disjoint _ _ _ _ Hc _ Hb) as HbA.
  destruct (core_F_in _ _ _ _ Hc _ Hb) as [Hin _]. replace (b + 8 - 8) with b in Hin by lia.
  destruct (erase_free_ok _ _ _ _ Hc _ Hb) as (m1 & f1 & He1 & Hc1). rewrite He1, obind. cbn [snd].
  unfold upd_hdr. change (hdr (set_trees m1 f1 (allocated_buffers p) p)) with (hdr p). rewrite Hx, !obind.
  set (q2 := set_hdr _ _).
  assert (Hc2 : core q2 (F ∖ {[b + 8]}) A (fkey p)).
  { apply (core_set_hdr _ _ _ _ Hc1); [done|set_solver|done]. }
  destruct (insert_alloc_ok _ _ _ _ Hc2 b) as (m & a & He & Hc3);
    [unfold flag, q2; cbn; by rewrite lookup_insert_eq|done|].
  rewrite He. exists m, f1, a. cbn zeta. by split.
Qed.

(** The rest of the block becomes a free buffer at [n]. *)
Lemma carve_ok env p F A l b r n :
  core p F A (fkey p) -> buffers p = l ++ b :: r -> b ∉ l -> b ∉ r -> b + 8 ∉ F ->
  b + 40 <= n -> n + 40 <= hd_or r (region_end p) -> n mod 4 = 0 -> mapped p n = true ->
  let s := stale env in
  let x := Buffer true (async_transaction s) (transaction s) (data_size s) (offsets_size s) in
  exists m f a, let q := set_trees m f a (set_hdr (<[n := x]> (hdr p)) (set_buffers (l ++ b :: n :: r) p)) in
    (q ← new_header env n b p; binder_insert_free_buffer n q) = Some q /\
    core q ({[n + 8]} ∪ F) A (fkey q).
Proof.
  intros Hc Hb Hbl Hbr HbF H1 H2 H3 Hm s x.
  assert (Hch : chain (l ++ b :: r) (region_end p)) by (rewrite <- Hb; apply (co_chain _ _ _ _ Hc)).
  pose proof (chain_split _ _ _ _ Hch) as (_ & _ & _ & _ & _ & _ & Hhd).
  assert (Hbin : b ∈ buffers p) by (rewrite Hb; set_solver). pose proof (core_addr _ _ _ _ Hc b Hbin) as Ha.
  assert (Hn8 : n +u rb_off = n + 8) by (unfold rb_off; rewrite u32_id; [done|unfold is_u32; lia]).
  destruct (core_add p F A l b r n x (RbNode 0 0 0) Hc Hb Hbl Hbr HbF H1 H2 H3) as (Hc1 & HnF & Hn).
  unfold new_header. rewrite Hm. cbn [negb]. rewrite Hn8, obind. fold s. fold x.
  rewrite Hb, list_add_mid by done.
  set (q1 := set_trees _ _ _ _) in *.
  destruct (insert_free_ok _ _ _ _ Hc1 n eq_refl) as (m & f & He & Hc2);
    [unfold flag, q1; cbn; by rewrite lookup_insert_eq|done|].
  rewrite He. exists m, f, (allocated_buffers p). cbn zeta. by split.
Qed.

(** The outcome of the search for the best fit. *)
Lemma search_best p F A size :
  core p F A (fkey p) ->
  exists best n, on_free (n ← get_root; best_fit_loop RB_FUEL p size n NULL) p = Some (best, n, p) /\
    ((best = NULL /\ forall y, y ∈ F -> fkey p y < size) \/
     (best ∈ F /\ best <> NULL /\ size <= fkey p best /\ (nonnull n = true <-> fkey p best = size) /\
      forall y, y ∈ F -> size <= fkey p y -> fkey p best <= fkey p y)).
Proof.
  intros Hc. destruct (index_reps _ _ _ _ (co_F _ _ _ _ Hc)) as (t & Hs & Hi & HS & Hsort & Hf).
  pose proof (rb_fuel_depth t RB_FUEL [] t Hi eq_refl Hf) as Hh. cbn [length] in Hh.
  destruct (best_fit_ok RB_FUEL p size (fkey p) NULL _ _ [] t Hs Hsort) as (b & n & He & Hbn); [lia| |].
  { intros x Hx. apply HS in Hx. destruct (core_F_in _ _ _ _ Hc x Hx) as [Hin Hx8].
    destruct (core_node _ _ _ _ Hc _ Hin) as (_ & _ & Hsub). rewrite <- Hx8 in Hsub. rewrite Hsub.
    destruct (flag_hdr _ _ _ (co_Ff _ _ _ _ Hc x Hx)) as (z & Hz & Hfz). rewrite Hz, obind, Hfz. cbn [negb].
    apply (core_size _ _ _ _ Hc _ Hin). }
  exists b, n. split.
  - pose proof (rs_root _ _ _ Hs) as Hroot. cbn [rb_root] in Hroot. rewrite <- Hroot in He.
    unfold on_free. erewrite run_bind by done. cbn [rb_root]. rewrite He. by destruct p.
  - assert (Hnull : forall x, x ∈ ids t -> x <> NULL).
    { intros x Hx. pose proof (rs_addr _ _ _ Hs) as Ha. rewrite Forall_forall in Ha.
      by apply Ha, node_addr_ok in Hx as [_ Hx]. }
    destruct Hbn as [(Hn & -> & Hin & Hk)|(-> & [[-> Hlt]|(Hin & Hgt & Hmin)])].
    + right. split; [by apply HS|]. split; [by apply Hnull|]. split; [lia|]. split.
      * split; [done|]. intros _. unfold nonnull. by rewrite (proj2 (Z.eqb_neq n NULL) Hn).
      * intros y _ Hy. lia.
    + left. split; [done|]. intros y Hy. by apply Hlt, HS.
    + right. split; [by apply HS|]. split; [by apply Hnull|]. split; [lia|]. split.
      * split; [done|]. lia.
      * intros y Hy. by apply Hmin, HS.
Qed.

(** The pages of an allocation of [size] bytes in the free block at [b]; [n] is the place
    of the header that a split adds. *)
Definition new_chain (split : bool) (l : list Z) (b n : Z) (r : list Z) : list Z :=
  if split then l ++ b :: n :: r else l ++ b :: r.
Definition new_al (split : bool) (al : Z -> bool) (b n : Z) : Z -> bool :=
  if split then set_al (set_al al n false) b true else set_al al b true.

Lemma pages_plan env p F A l b r size bs (split : bool) :
  core p F A (fkey p) -> pages_ok (al_of p) p -> buffers p = l ++ b :: r -> flag p b = Some true ->
  0 <= size -> size <= psize p b ->
  (if split then bs = size + 40 /\ size + 44 < psize p b else bs = size /\ psize p b <= size + 44) ->
  let M := Z.land (data b +u psize p b) PAGE_MASK in
  let B1 := PAGE_ALIGN (data b +u bs) in
  let B := if M <? B1 then M else B1 in
  let n := b + 40 + size in
  let upd := binder_update_page_range env true (PAGE_ALIGN (data b)) B false p in
  (exists pgs, upd = Some (0, set_pages pgs p) /\ length pgs = length (pages p) /\
     forall i, 0 <= i < len (pages p) ->
       (zget pgs i = Some true <-> need (new_al split (al_of p) b n) (new_chain split l b n r) (region_end p) (page p i))) \/
  (upd = Some (- ENOMEM, p) /\ (task_mm env && vma p = false \/ exists i, page_ok env (page p i) = false)).
Proof.
  intros Hc Hpg Hb Hf Hs0 Hs Hbs M B1 B n upd.
  assert (Hin : b ∈ buffers p) by (rewrite Hb; set_solver).
  pose proof (core_addr _ _ _ _ Hc b Hin) as Ha. pose proof (co_region _ _ _ _ Hc) as Hreg.
  pose proof (co_chain _ _ _ _ Hc) as Hch. rewrite Hb in Hch.
  pose proof (chain_split _ _ _ _ Hch) as (_ & Hbh & Hbl & Hbr & Hlow & Hhigh & Hhe).
  assert (Hp : psize p b = hd_or r (region_end p) - (b + 40)) by (unfold psize; rewrite Hb; by apply size_mid).
  set (h := hd_or r (region_end p)) in *.
  assert (Hd : data b = b + 40) by (unfold data, sizeof_binder_buffer; rewrite u32_id; [done|unfold is_u32; lia]).
  assert (Hbs' : size <= bs <= psize p b) by (destruct split; lia).
  pose proof Hreg as [[R1 R1'] [R2 R2'] R3 R4].
  assert (HM : M mod 4096 = 0 /\ M <= h < M + 4096).
  { unfold M. rewrite Hd, u32_id by (unfold is_u32; lia). replace (b + 40 + psize p b) with h by lia.
    rewrite page_mask_ok by lia. clear -Hd. pages. }
  assert (HB1 : B1 mod 4096 = 0 /\ b + 40 + bs <= B1 < b + 40 + bs + 4096).
  { unfold B1. rewrite Hd, u32_id by (unfold is_u32; lia). rewrite page_align_ok by lia. clear. pages. }
  set (S := PAGE_ALIGN (data b)) in *.
  assert (HS : S mod 4096 = 0 /\ b + 40 <= S < b + 40 + 4096).
  { unfold S. rewrite Hd, page_align_ok by lia. clear. pages. }
  assert (HB : B = Z.min B1 M) by (unfold B; destruct (Z.ltb_spec M B1); lia).
  clearbody M B1 S B. subst upd. rewrite HB in *. clear HB B.
  assert (Hend : region_end p mod 4096 = 0) by (unfold region_end; clear -R1' R2'; pages).
  assert (Hal : al_of p b = false) by (unfold al_of; by rewrite Hf).
  assert (HBm : Z.min B1 M mod 4096 = 0) by (destruct (Z.min_spec B1 M) as [[_ ->]|[_ ->]]; tauto).
  assert (Hrange : buffer p <= S <= region_end p /\ buffer p <= Z.min B1 M <= region_end p).
  { clear -Ha HS HB1 HM R1' Hend Hhe Hbh Hp Hs0 Hs Hbs'. unfold region_end in *.
    assert (buffer p <= M) by pages. assert (S <= buffer p + buffer_size p) by pages. lia. }
  destruct Hrange as [HSr HBr].
  assert (Habs : forall i, pidx p S <= i < pidx p (Z.min B1 M) -> zget (pages p) i = Some false).
  { intros i Hi. pose proof (page_pidx p S Hreg (proj1 HS)) as P1.
    pose proof (page_pidx p (Z.min B1 M) Hreg HBm) as P2.
    assert (Hi' : 0 <= i < len (pages p)) by (unfold page, region_end in *; lia).
    destruct (zget_is_Some (pages p) i Hi') as [[] Hx]; [|done]. exfalso.
    apply (Hpg i Hi') in Hx. rewrite Hb in Hx. apply need_inside in Hx; [congruence|done|]. fold h.
    pose proof (page_aligned p i Hreg). unfold page, inside in *. clear -HS HM Hi P1 P2 H. pages. }
  destruct (update_alloc_ok env p S (Z.min B1 M)) as [->|Hfail]; try done; [tauto| |by right].
  left. eexists. split; [done|]. split; [by rewrite len_fill|]. intros i Hi.
  apply (pages_fill p (need (al_of p) (buffers p) (region_end p))); try done; [tauto|by apply Hpg|].
  pose proof (page_aligned p i Hreg) as HP. rewrite Hb. destruct split; cbn [new_al new_chain].
  - apply need_split; try done; try tauto; try lia.
    intros [Hin'|[Heq|Hin']%elem_of_cons]%elem_of_app; [specialize (Hlow n Hin'); lia|lia|].
    specialize (Hhigh n Hin'). lia.
  - assert (Hbase : need (al_of p) (l ++ b :: r) (region_end p) (page p i) <->
      need (set_al (al_of p) b false) (l ++ b :: r) (region_end p) (page p i)).
    { split; apply need_ext; intros y Hy; unfold set_al; destruct (Z.eqb_spec y b); by subst. }
    rewrite (need_flip (al_of p) l b r (region_end p) (page p i) true Hch), Hbase. fold h.
    assert (Hiff : S <= page p i < Z.min B1 M <-> inside b h (page p i)).
    { unfold inside. rewrite Z.min_glb_lt_iff. clear -HS HB1 HM HP Hbs Hbs' Hp. destruct Hbs as [-> Hbs]. pages. }
    rewrite Hiff. tauto.
Qed.

(** The sets of nodes after an allocation at [b]. *)
Definition new_F (split : bool) (F : gset Z) (b n : Z) : gset Z :=
  (if split then {[n + 8]} else ∅) ∪ F ∖ {[b + 8]}.

(** ** The state an allocation leaves

    The free buffer [b] between [l] and [r] was granted to a request of [ds] and [os]
    bytes; a [split] leaves the rest of it to a new free buffer at [n]. *)
Section grant.
Context (p : binder_proc) (F A : gset Z) (l : list Z) (b : Z) (r : list Z) (x hx : binder_buffer).
Context (split async : bool) (n ds os : Z) (m : gmap Z rb_node) (f a : Z) (pgs : list bool).
Context (Hinv : binv p F A) (Hb : buffers p = l ++ b :: r) (Hx : hdr p !! b = Some x) (Hfx : free x = true).
Context (Hsz : req ds os <= psize p b) (Hn : n = b + 40 + req ds os).
Context (Hsplit : split = true -> req ds os + 44 < psize p b).
Context (Hasync : async = true -> req ds os + 40 <= free_async_space p) (Hhx : free hx = true).

Definition grant_hdr : gmap Z binder_buffer :=
  <[b := Buffer false async (transaction x) ds os]> (if split then <[n := hx]> (hdr p) else hdr p).
Definition grant_proc : binder_proc :=
  Proc (vma p) (buffer p) (buffer_size p) (user_buffer_offset p) (new_chain split l b n r) grant_hdr m f a pgs
    (free_async_space p - if async then req ds os + 40 else 0).

Lemma grant_n : b < n /\ b ∉ l /\ b ∉ r /\ (split = true -> n ∉ buffers p).
Proof.
  assert (Hch : chain (l ++ b :: r) (region_end p)) by (rewrite <- Hb; apply (co_chain _ _ _ _ (bv_core _ _ _ Hinv))).
  pose proof (chain_split _ _ _ _ Hch) as (_ & _ & Hbl & Hbr & Hlow & Hhigh & _).
  assert (Hreq : 0 <= req ds os) by apply u32_range.
  split; [lia|]. split; [done|]. split; [done|]. intros Hsp. specialize (Hsplit Hsp).
  assert (Hp : psize p b = hd_or r (region_end p) - (b + 40)) by (unfold psize; rewrite Hb; by apply size_mid).
  rewrite Hb. intros [Hin|[Heq|Hin]%elem_of_cons]%elem_of_app; [specialize (Hlow n Hin); lia|lia|].
  specialize (Hhigh n Hin). lia.
Qed.

Lemma grant_old y : y <> b -> (split = true -> y <> n) -> grant_hdr !! y = hdr p !! y.
Proof.
  intros H1 H2. unfold grant_hdr. rewrite lookup_insert_ne by done. destruct split; [|done].
  rewrite lookup_insert_ne; [done|]. intros ->. by apply H2.
Qed.

Lemma grant_ne y : y ∈ buffers p -> split = true -> y <> n.
Proof. intros Hy Hsp ->. by apply grant_n in Hsp. Qed.

Lemma grant_side y : y ∈ l \/ y ∈ r -> y <> b /\ (split = true -> y <> n).
Proof.
  intros Hy. destruct grant_n as (_ & Hbl & Hbr & _). split; [destruct Hy; congruence|].
  apply grant_ne. rewrite Hb. set_solver.
Qed.

Lemma grant_flag_b : flag grant_proc b = Some false.
Proof. unfold flag, grant_proc, grant_hdr. cbn. by rewrite lookup_insert_eq. Qed.

Lemma grant_flag_n : split = true -> flag grant_proc n = Some true.
Proof.
  destruct grant_n as [Hlt _]. intros Hsp. unfold flag, grant_proc, grant_hdr. cbn. rewrite Hsp, lookup_insert_ne by lia.
  rewrite lookup_insert_eq. cbn. by rewrite Hhx.
Qed.

Lemma grant_flag y : y <> b -> (split = true -> y <> n) -> flag grant_proc y = flag p y.
Proof. intros H1 H2. unfold flag, grant_proc; cbn. by rewrite grant_old. Qed.

Lemma grant_flag_old : flag p b = Some true /\ (split = true -> flag p n = None).
Proof.
  split; [unfold flag; rewrite Hx; cbn; by rewrite Hfx|]. intros Hsp. destruct grant_n as (_ & _ & _ & Hnn).
  unfold flag. destruct (hdr p !! n) eqn:E; [|done]. exfalso. apply (Hnn Hsp).
  apply (co_hdr _ _ _ _ (bv_core _ _ _ Hinv)). by rewrite E.
Qed.

Lemma grant_sizes y : y <> b -> y ∈ buffers p -> psize grant_proc y = psize p y.
Proof.
  intros H1 H2. pose proof (grant_ne y H2) as Hne. unfold psize, grant_proc. cbn. unfold new_chain. rewrite Hb.
  destruct split; [|done]. apply size_add; [done|]. by apply Hne.
Qed.

Lemma grant_size_b : req ds os <= psize grant_proc b.
Proof.
  destruct grant_n as (_ & Hbl & Hbr & _).
  assert (Hp : psize p b = hd_or r (region_end p) - (b + 40)) by (unfold psize; rewrite Hb; by apply size_mid).
  unfold psize, grant_proc. cbn. unfold new_chain. destruct split.
  - rewrite size_mid by done. cbn [hd_or]. lia.
  - rewrite size_mid by done. unfold region_end in *. cbn. lia.
Qed.

Lemma grant_marks : marks grant_proc (new_F split F b n) ({[b + 8]} ∪ A).
Proof.
  destruct (bv_marks _ _ _ Hinv) as [HF HA]. pose proof grant_n as (Hlt & _).
  pose proof grant_flag_b as Hfb. pose proof grant_flag_n as Hfn. destruct grant_flag_old as [_ Hnp].
  split; intros y.
  - unfold new_F. rewrite elem_of_union, elem_of_difference, elem_of_singleton, HF.
    destruct (decide (y - 8 = b)) as [Heq|Hyb].
    { rewrite Heq, Hfb. split; [|done]. intros [Hin|[_ Hne]]; [|lia].
      destruct split; [|set_solver]. apply elem_of_singleton in Hin. lia. }
    destruct (decide (split = true /\ y - 8 = n)) as [[Hsp Heq]|Hnot].
    { rewrite Heq, Hfn by done. split; [done|]. left. rewrite Hsp. apply elem_of_singleton. lia. }
    rewrite grant_flag; [|done|tauto]. split; [|intros ?; right; split; [done|lia]].
    intros [Hin|[? _]]; [|done]. destruct split; [|set_solver]. apply elem_of_singleton in Hin.
    exfalso. apply Hnot. split; [done|lia].
  - rewrite elem_of_union, elem_of_singleton, HA. destruct (decide (y - 8 = b)) as [Heq|Hyb].
    { rewrite Heq, Hfb. split; [done|]. left. lia. }
    destruct (decide (split = true /\ y - 8 = n)) as [[Hsp Heq]|Hnot].
    { rewrite Heq, Hfn, Hnp by done. split; [|done]. intros [?|?]; [lia|done]. }
    rewrite grant_flag; [|done|tauto]. split; [intros [?|?]; [lia|done]|by right].
Qed.

Lemma grant_coal : coalesced grant_proc.
Proof.
  pose proof (bv_coal _ _ _ Hinv) as Hco. unfold coalesced in *. rewrite Hb, coal_app in Hco. cbn [coal] in Hco.
  assert (Hfp : is_free p b = true) by (unfold is_free; by rewrite (proj1 grant_flag_old)).
  assert (Hfb : is_free grant_proc b = false) by (unfold is_free; by rewrite grant_flag_b).
  assert (Hside : forall y, y ∈ l \/ y ∈ r -> is_free grant_proc y = is_free p y).
  { intros y [H1 H2]%grant_side. unfold is_free. by rewrite grant_flag. }
  rewrite Hfp in Hco. apply andb_true_iff in Hco as [Hc1 Hc2]. apply andb_true_iff in Hc2 as [_ Hc2].
  rewrite <- (coal_ext (is_free grant_proc) _ _ l) in Hc1 by auto.
  rewrite <- (coal_ext (is_free grant_proc) _ _ r) in Hc2 by auto.
  change (buffers grant_proc) with (new_chain split l b n r). unfold new_chain. pose proof grant_flag_n as Hfn.
  destruct split; rewrite coal_app, Hc1; cbn [coal]; rewrite Hfb, ?andb_false_r; cbn [negb andb].
  - unfold is_free at 1 2. by rewrite (Hfn eq_refl).
  - by eapply coal_weaken.
Qed.

Lemma grant_fit : fitted grant_proc.
Proof.
  pose proof grant_n as (Hlt & _). intros y z Hy Hz. change (hdr grant_proc) with grant_hdr in Hy.
  destruct (decide (y = b)) as [->|Hyb].
  { unfold grant_hdr in Hy. rewrite lookup_insert_eq in Hy. injection Hy as <-. exact grant_size_b. }
  destruct (decide (split = true /\ y = n)) as [[Hsp ->]|Hnot].
  - unfold grant_hdr in Hy. rewrite Hsp, lookup_insert_ne, lookup_insert_eq in Hy by lia. congruence.
  - rewrite grant_old in Hy; [|done|tauto]. rewrite grant_sizes; [by eapply (bv_fit _ _ _ Hinv)|done|].
    apply (co_hdr _ _ _ _ (bv_core _ _ _ Hinv)). by rewrite Hy.
Qed.

Lemma grant_async : async_ok grant_proc.
Proof.
  pose proof grant_n as (Hlt & _). destruct (bv_async _ _ _ Hinv) as [Hu Hsum]. unfold async_ok.
  change (hdr grant_proc) with grant_hdr. change (buffers grant_proc) with (new_chain split l b n r).
  change (free_async_space grant_proc) with (free_async_space p - if async then req ds os + 40 else 0).
  change (buffer_size grant_proc) with (buffer_size p).
  assert (Hreq : 0 <= req ds os) by apply u32_range.
  split; [unfold is_u32 in *; destruct async; [specialize (Hasync eq_refl)|]; lia|].
  rewrite Hb, asum_app in Hsum. cbn [asum] in Hsum. rewrite Hx in Hsum. unfold acost at 1 in Hsum.
  rewrite Hfx in Hsum. cbn [negb andb] in Hsum.
  assert (Hside : forall k, (forall y, y ∈ k -> y ∈ l \/ y ∈ r) -> asum grant_hdr k = asum (hdr p) k).
  { intros k Hk. apply asum_ext. intros y [H1 H2]%Hk%grant_side. by rewrite grant_old. }
  assert (HcostB : acost (grant_hdr !! b) = if async then req ds os + 40 else 0).
  { unfold grant_hdr. rewrite lookup_insert_eq. cbn. by destruct async. }
  assert (HcostN : split = true -> acost (grant_hdr !! n) = 0).
  { intros Hsp. unfold grant_hdr. rewrite Hsp, lookup_insert_ne, lookup_insert_eq by lia. cbn. by rewrite Hhx. }
  unfold new_chain. destruct split; rewrite asum_app; cbn [asum]; rewrite HcostB, !Hside by auto; [|lia].
  rewrite HcostN by done. lia.
Qed.

Lemma grant_inv :
  core grant_proc (new_F split F b n) ({[b + 8]} ∪ A) (fkey grant_proc) ->
  (forall i, 0 <= i < len pgs ->
     (zget pgs i = Some true <-> need (new_al split (al_of p) b n) (new_chain split l b n r) (region_end p) (page p i))) ->
  binv grant_proc (new_F split F b n) ({[b + 8]} ∪ A) /\
  (forall y, y <> b -> y ∈ buffers p -> hdr grant_proc !! y = hdr p !! y /\ psize grant_proc y = psize p y).
Proof.
  intros Hcq Hpgs. pose proof grant_flag_b as Hfb. pose proof grant_flag_n as Hfn. split; [split|].
  - done.
  - exact grant_marks.
  - apply (pages_ok_ext (new_al split (al_of p) b n)); [|exact Hpgs].
    intros y Hy. unfold al_of at 2. unfold new_al, set_al. pose proof (grant_flag y) as Hfy.
    destruct split; (destruct (Z.eqb_spec y b) as [->|Hyb]; [by rewrite Hfb|]);
      [destruct (Z.eqb_spec y n) as [->|Hyn]; [by rewrite Hfn|]|]; by rewrite Hfy.
  - exact grant_coal.
  - exact grant_fit.
  - exact grant_async.
  - intros y H1 H2. split; [|by apply grant_sizes]. apply grant_old; [done|]. by apply grant_ne.
Qed.
End grant.

(** ** Allocation *)

(** Why an allocation of [size] bytes is refused. *)
Definition refused (env : page_env) (p : binder_proc) (ds os : Z) (async : bool) : Prop :=
  vma p = false \/ req ds os < ds \/ req ds os < os \/
  (async = true /\ free_async_space p < req ds os +u sizeof_binder_buffer) \/
  (forall b, flag p b = Some true -> psize p b < req ds os) \/
  task_mm env = false \/ exists i, page_ok env (page p i) = false.

(** What a granted buffer is: the smallest free one that is large enough, now
    allocated with room for the request, and nothing else touched. *)
Definition granted (p q : binder_proc) (ds os : Z) (async : bool) (b : Z) : Prop :=
  flag p b = Some true /\ req ds os <= psize p b /\
  (forall c, flag p c = Some true -> req ds os <= psize p c -> psize p b <= psize p c) /\
  (exists x, hdr p !! b = Some x /\ hdr q !! b = Some (Buffer false async (transaction x) ds os)) /\
  req ds os <= psize q b /\
  (forall y, y <> b -> y ∈ buffers p -> hdr q !! y = hdr p !! y /\ psize q y = psize p y) /\ same_map p q /\
  (forall y, flag q y = Some false <-> flag p y = Some false \/ y = b) /\ ds + os <= req ds os /\
  free_async_space q = free_async_space p - (if async then req ds os + 40 else 0).

(** The two comparisons of the code catch every overflow of the size. *)
Lemma req_room ds os : is_u32 ds -> is_u32 os -> ds <= req ds os -> os <= req ds os -> ds + os <= req ds os.
Proof.
  intros H1 H2 H3 H4. unfold req in *.
  destruct (align4_ok ds H1) as (A1 & A2 & A3 & A4), (align4_ok os H2) as (B1 & B2 & B3 & B4). unfold is_u32 in *.
  destruct (Z.le_gt_cases (2 ^ 32) (ALIGN ds 4 + ALIGN os 4)).
  - assert (Hw : ALIGN ds 4 +u ALIGN os 4 = ALIGN ds 4 + ALIGN os 4 - 2 ^ 32).
    { unfold u32, wrap. rewrite <- (Z_mod_plus_full _ (-1)). rewrite Z.mod_small; lia. }
    rewrite Hw in *. clear Hw. Z.to_euclidean_division_equations. lia.
  - rewrite u32_id in * by (unfold is_u32; lia). Z.to_euclidean_division_equations. lia.
Qed.

Lemma bind3 {A B C D} (X : option A) (Y : A -> option B) (W : B -> option C) (G : C -> option D) c :
  (a ← X; b ← Y a; W b) = Some c -> (a ← X; b ← Y a; c ← W b; G c) = G c.
Proof. destruct X as [a|]; [|done]. cbn. destruct (Y a) as [b|]; [|done]. cbn. by intros ->. Qed.

Lemma mapped_need p F A K n al l e :
  core p F A K -> buffer p <= n -> n + 40 <= region_end p -> e = region_end p ->
  (forall i, 0 <= i < len (pages p) -> (zget (pages p) i = Some true <-> need al l e (page p i))) ->
  (forall P, hits n P -> need al l e P) -> mapped p n = true.
Proof.
  intros Hc H1 H2 -> Hpg Hn. pose proof (co_region _ _ _ _ Hc) as Hreg. pose proof Hreg as [[R1 R1'] [R2 R2'] R3 R4].
  pose proof (region_low p Hreg).
  assert (Hone : forall a, n <= a < n + 40 -> zget (pages p) (page_index p a) = Some true).
  { intros a Ha. unfold page_index, PAGE_SIZE. unfold region_end in *. rewrite u32_id by (unfold is_u32; lia).
    set (i := (a - buffer p) / 4096).
    assert (Hi : buffer p + 4096 * i <= a < buffer p + 4096 * i + 4096) by (unfold i; clear; pages).
    apply Hpg; [lia|]. apply Hn. unfold hits, page. lia. }
  unfold mapped, sizeof_binder_buffer. unfold region_end in *.
  rewrite (u32_id (n + (40 - 1))) by (unfold is_u32; lia). rewrite !Hone by lia. done.
Qed.

(** The size [bs] the code computes is that of the request, or leaves room for one more header. *)
Lemma fit_size p n b size :
  size <= psize p b -> 0 <= size -> is_u32 (psize p b + 40 + 4) -> (nonnull n = true <-> psize p b = size) ->
  let bs := if nonnull n then psize p b
            else if psize p b <=? (size +u sizeof_binder_buffer) +u 4 then size else size +u sizeof_binder_buffer in
  if negb (bs =? size) then bs = size + 40 /\ size + 44 < psize p b else bs = size /\ psize p b <= size + 44.
Proof.
  intros H1 H0 Hu Hexact bs. unfold bs, sizeof_binder_buffer, is_u32 in *.
  rewrite (u32_id (size + 40)) by (unfold is_u32; lia). rewrite u32_id by (unfold is_u32; lia).
  destruct (nonnull n) eqn:En.
  - apply proj1 in Hexact. rewrite (Hexact eq_refl), Z.eqb_refl. cbn. lia.
  - destruct (Z.leb_spec (psize p b) (size + 40 + 4)).
    + rewrite Z.eqb_refl. cbn. lia.
    + rewrite (proj2 (Z.eqb_neq _ _)) by lia. cbn. lia.
Qed.

(** The rest of the block, if it is to be a buffer of its own. *)
Lemma rest_ok env (split : bool) p q F A l b r x n pgs al :
  core q (F ∖ {[b + 8]}) ({[b + 8]} ∪ A) (fkey q) -> buffers q = l ++ b :: r -> b ∉ l -> b ∉ r ->
  (split = true -> b + 40 <= n /\ n + 40 <= hd_or r (region_end q) /\ n mod 4 = 0 /\ buffer q <= n /\ n + 40 <= region_end q) ->
  pages q = pgs -> buffer q = buffer p -> free x = true ->
  (forall i, 0 <= i < len pgs -> (zget pgs i = Some true <-> need al (new_chain split l b n r) (region_end q) (page p i))) ->
  exists m f a hx, let s := set_trees m f a (set_hdr
      (if split then <[n := hx]> (hdr q) else hdr q) (set_buffers (new_chain split l b n r) q)) in
    (if split then s ← new_header env n b q; binder_insert_free_buffer n s else Some q) = Some s /\
    core s (new_F split F b n) ({[b + 8]} ∪ A) (fkey s) /\ free hx = true.
Proof.
  intros Hc Hb Hbl Hbr Hroom Hpg Hbase Hx Hneed. destruct split.
  - destruct (Hroom eq_refl) as (H1 & H2 & H3 & H4 & H5).
    destruct (carve_ok env q (F ∖ {[b + 8]}) ({[b + 8]} ∪ A) l b r n Hc Hb Hbl Hbr) as (m2 & f2 & a2 & He2 & Hc3);
      [intros [_ Hx']%elem_of_difference; by apply Hx', elem_of_singleton|done..| |].
    + eapply (mapped_need q _ _ _ n al (new_chain true l b n r) (region_end q) Hc); [done|done|done| |].
      * intros i Hi. rewrite Hpg in *. unfold page. rewrite Hbase. by apply Hneed.
      * intros P HP. unfold new_chain. apply need_mid. right. right. apply need_cons. by left; left.
    + eexists m2, f2, a2, _. split; [exact He2|]. split; [exact Hc3|done].
  - exists (nodes q), (free_buffers q), (allocated_buffers q), x. cbn zeta.
    assert (Hq : set_trees (nodes q) (free_buffers q) (allocated_buffers q)
      (set_hdr (hdr q) (set_buffers (new_chain false l b n r) q)) = q).
    { unfold new_chain. rewrite <- Hb. by destruct q. }
    rewrite Hq. split; [done|]. split; [|done]. unfold new_F. by rewrite union_empty_l_L.
Qed.

(** The steps after the pages are there. *)
Lemma grant_run env (split : bool) p F A l b r x ds os async pgs :
  binv p F A -> buffers p = l ++ b :: r -> hdr p !! b = Some x -> free x = true ->
  is_u32 ds -> is_u32 os -> req ds os <= psize p b ->
  (split = true -> req ds os + 44 < psize p b) ->
  (async = true -> req ds os + 40 <= free_async_space p) ->
  length pgs = length (pages p) ->
  let n := b + 40 + req ds os in
  (forall i, 0 <= i < len pgs ->
    (zget pgs i = Some true <-> need (new_al split (al_of p) b n) (new_chain split l b n r) (region_end p) (page p i))) ->
  exists hx m f a, let q := grant_proc p l b r x hx split async n ds os m f a pgs in
    (e ← on_free (rb_erase RB_FUEL (b + 8)) (set_pages pgs p);
     q ← upd_hdr b (fun x => Buffer false (async_transaction x) (transaction x) (data_size x) (offsets_size x)) e.2;
     q ← binder_insert_allocated_buffer b q;
     q ← (if split then q ← new_header env n b q; binder_insert_free_buffer n q else Some q);
     q ← upd_hdr b (fun x => Buffer (free x) async (transaction x) ds os) q;
     Some (b, if async then set_async (free_async_space q -u (req ds os +u sizeof_binder_buffer)) q else q))
    = Some (b, q) /\ core q (new_F split F b n) ({[b + 8]} ∪ A) (fkey q) /\ free hx = true.
Proof.
  intros Hinv Hb Hx Hfx Hds Hos Hsz Hsplit Hasync Hlen n Hneed.
  pose proof Hinv as [Hc [HF HA] Hpg Hco Hfit [Hau _]]. destruct (req_ok ds os Hds Hos) as [Hru Hr4]. unfold is_u32 in Hru, Hau.
  assert (Hin : b ∈ buffers p) by (rewrite Hb; set_solver). pose proof (core_addr _ _ _ _ Hc b Hin) as Hba.
  assert (Hch : chain (l ++ b :: r) (region_end p)) by (rewrite <- Hb; apply (co_chain _ _ _ _ Hc)).
  pose proof (chain_split _ _ _ _ Hch) as (_ & _ & Hbl & Hbr & _ & _ & Hhe).
  assert (Hp : psize p b = hd_or r (region_end p) - (b + 40)) by (unfold psize; rewrite Hb; by apply size_mid).
  pose proof (rg_top p (co_region _ _ _ _ Hc)) as Htop.
  assert (HbF : b + 8 ∈ F).
  { apply HF. replace (b + 8 - 8) with b by lia. unfold flag. rewrite Hx. cbn. by rewrite Hfx. }
  destruct (take_ok (set_pages pgs p) F A b x (core_set_pages _ _ _ _ Hc pgs Hlen) HbF Hx) as (m1 & f1 & a1 & He1 & Hc2).
  cbn zeta in He1, Hc2. rewrite (bind3 _ _ _ _ _ He1). set (q1 := set_trees m1 f1 a1 _) in *.
  destruct (rest_ok env split p q1 F A l b r x n pgs (new_al split (al_of p) b n) Hc2 Hb Hbl Hbr) as (m2 & f2 & a2 & hx & He2 & Hc3 & Hhx);
    [|done|done|done|exact Hneed|].
  { intros Hsp. specialize (Hsplit Hsp). change (region_end q1) with (region_end p). change (buffer q1) with (buffer p).
    unfold n. destruct Hba as (? & ? & ? & ? & Hb4). split; [lia|]. split; [lia|]. split; [|lia].
    clear -Hr4 Hb4. Z.to_euclidean_division_equations; lia. }
  cbn zeta in He2, Hc3. rewrite He2, obind. set (q2 := set_trees m2 f2 a2 _) in *.
  set (x' := Buffer false (async_transaction x) (transaction x) (data_size x) (offsets_size x)).
  assert (Hx2 : hdr q2 !! b = Some x').
  { unfold q2. cbn. destruct split; rewrite ?lookup_insert_ne by lia; by rewrite lookup_insert_eq. }
  unfold upd_hdr. rewrite Hx2, !obind. cbn [free]. set (q3 := set_hdr _ q2).
  assert (Hc4 : core q3 (new_F split F b n) ({[b + 8]} ∪ A) (fkey q3)).
  { apply (core_set_hdr _ _ _ _ Hc3); [apply (co_hdr _ _ _ _ Hc3); by rewrite Hx2| |done].
    intros HbF'. exfalso. pose proof (co_Ff _ _ _ _ Hc3 _ HbF') as Hfl. replace (b + 8 - 8) with b in Hfl by lia.
    unfold flag in Hfl. by rewrite Hx2 in Hfl. }
  exists hx, m2, f2, a2. cbn zeta. set (q := grant_proc _ _ _ _ _ _ _ _ _ _ _ _ _ _ _).
  assert (Hhdr : hdr q3 = hdr q).
  { unfold q, grant_proc, grant_hdr, q3, q2. cbn. destruct split; rewrite ?(insert_insert_ne _ b n) by lia; by rewrite ?insert_insert_eq. }
  assert (Hq : (if async then set_async (free_async_space q3 -u (req ds os +u sizeof_binder_buffer)) q3 else q3) = q).
  { destruct async.
    - unfold set_async. rewrite Hhdr. cbn. unfold sizeof_binder_buffer. specialize (Hasync eq_refl).
      rewrite (u32_id (req ds os + 40)) by (unfold is_u32; lia). rewrite u32_id by (unfold is_u32; lia). done.
    - transitivity (set_hdr (hdr q) q3); [by rewrite <- Hhdr|]. unfold q, grant_proc. rewrite Z.sub_0_r. done. }
  rewrite Hq. split; [done|]. split; [|done]. rewrite <- Hq. destruct async; [by apply (core_set_async _ _ _ _ Hc4)|done].
Qed.

Definition alloc_answer (env : page_env) (p : binder_proc) (ds os : Z) (async : bool)
    (res : option (Z * binder_proc)) : Prop :=
  exists b q F' A', res = Some (b, q) /\ binv q F' A' /\
    ((b = NULL /\ q = p /\ refused env p ds os async) \/ (b <> NULL /\ granted p q ds os async b)).

Lemma alloc_ok env p F A ds os async :
  binv p F A -> is_u32 ds -> is_u32 os ->
  alloc_answer env p ds os async (binder_alloc_buf env ds os async p).
Proof.
  intros Hinv Hds Hos. pose proof Hinv as [Hc [HF HA] Hpg Hco Hfit Has].
  assert (Hno : refused env p ds os async -> alloc_answer env p ds os async (Some (NULL, p))).
  { intros Hr. exists NULL, p, F, A. auto 6. }
  unfold binder_alloc_buf. unfold refused in Hno. fold (req ds os).
  destruct (vma p) eqn:Hv; cbn [negb]; [|apply Hno; tauto].
  destruct (Z.ltb_spec (req ds os) ds); cbn [orb]; [apply Hno; tauto|].
  destruct (Z.ltb_spec (req ds os) os); [apply Hno; tauto|].
  destruct (async && (free_async_space p <? req ds os +u sizeof_binder_buffer)) eqn:Easync.
  { apply Hno. apply andb_true_iff in Easync as [-> Hlt]. apply Z.ltb_lt in Hlt. tauto. }
  destruct (search_best p F A (req ds os) Hc) as (best & n & He & Hbest). rewrite He, obind.
  destruct Hbest as [[-> Hall]|(HbF & Hb0 & Hfit1 & Hexact & Hmin)].
  { cbn [nonnull negb]. apply Hno. do 4 right. left. intros b Hb.
    assert (HbF : b + 8 ∈ F) by (apply HF; by replace (b + 8 - 8) with b by lia).
    specialize (Hall _ HbF). unfold fkey in Hall. by replace (b + 8 - 8) with b in Hall by lia. }
  unfold nonnull at 1. rewrite (proj2 (Z.eqb_neq best NULL) Hb0). cbn [negb].
  destruct (core_F_in _ _ _ _ Hc best HbF) as [Hin _].
  assert (exists b, best = b + 8) as [b ->] by (exists (best - 8); lia).
  replace (b + 8 - 8) with b in Hin by lia.
  destruct (core_node _ _ _ _ Hc b Hin) as (_ & _ & Hsub). rewrite Hsub.
  destruct (core_size _ _ _ _ Hc b Hin) as (Hsz & Hszr & Hszt). rewrite Hsz, obind.
  assert (Hkey : forall c, fkey p (c + 8) = psize p c) by (intros c; unfold fkey; by replace (c + 8 - 8) with c by lia).
  rewrite Hkey in *. pose proof (core_addr _ _ _ _ Hc b Hin) as Hba.
  assert (Hflag : flag p b = Some true) by (apply HF in HbF; by replace (b + 8 - 8) with b in HbF by lia).
  destruct (req_ok ds os Hds Hos) as [Hru Hr4]. unfold is_u32 in Hru.
  pose proof (rg_top p (co_region _ _ _ _ Hc)) as Htop.
  pose proof (fit_size p n b (req ds os) Hfit1 ltac:(lia) ltac:(unfold is_u32, region_end in *; lia) Hexact) as Hbs.
  cbn zeta in Hbs. set (bs := if nonnull n then psize p b else _) in *. set (split := negb (bs =? req ds os)) in *.
  destruct (core_split _ _ _ _ Hc b Hin) as (l & r & Hb & Hbl & Hbr & Hch).
  destruct (pages_plan env p F A l b r (req ds os) bs split Hc Hpg Hb Hflag ltac:(lia) Hfit1 Hbs)
    as [(pgs & -> & Hlen & Hneed)|[-> Hwhy]].
  2:{ rewrite obind. cbn. apply Hno. rewrite Hv, andb_true_r in Hwhy. tauto. }
  rewrite obind. cbn [Z.eqb negb]. destruct (flag_hdr _ _ _ Hflag) as (x & Hx & Hfx).
  assert (Hroom : async = true -> req ds os + 40 <= free_async_space p).
  { intros ->. cbn [andb] in Easync. apply Z.ltb_ge in Easync. unfold sizeof_binder_buffer, region_end in *.
    rewrite u32_id in Easync by (unfold is_u32; lia). done. }
  assert (Hsp : split = true -> req ds os + 44 < psize p b) by (intros Hs; rewrite Hs in Hbs; tauto).
  assert (Hd : data b +u req ds os = b + 40 + req ds os).
  { unfold data, sizeof_binder_buffer, region_end in *. rewrite (u32_id (b + 40)) by (unfold is_u32; lia).
    rewrite u32_id; [lia|unfold is_u32; lia]. }
  rewrite Hd. rewrite <- Hlen in Hneed.
  destruct (grant_run env split p F A l b r x ds os async pgs Hinv Hb Hx Hfx Hds Hos Hfit1 Hsp Hroom Hlen Hneed)
    as (hx & m & f & a & Hrun & Hcq & Hhx). cbn zeta in Hrun, Hcq. rewrite Hrun.
  destruct (grant_inv p F A l b r x hx split async _ ds os m f a pgs Hinv Hb Hx Hfx Hfit1 eq_refl Hsp Hroom Hhx Hcq Hneed)
    as (Hfin & Hrest).
  eexists b, _, _, _. split; [done|]. split; [exact Hfin|]. right. split; [unfold NULL; lia|].
  split; [done|]. split; [done|]. split.
  { intros c Hcf Hcs. rewrite <- (Hkey c) in *. apply Hmin; [|done]. apply HF. by replace (c + 8 - 8) with c by lia. }
  split; [|split; [by eapply grant_size_b|split; [exact Hrest|split; [done|split; [|split; [by apply req_room|done]]]]]].
  - exists x. split; [done|]. unfold grant_proc, grant_hdr. cbn. by rewrite lookup_insert_eq.
  - intros y. destruct (bv_marks _ _ _ Hfin) as [_ HA2]. specialize (HA (y + 8)). specialize (HA2 (y + 8)).
    replace (y + 8 - 8) with y in * by lia. rewrite <- HA2, <- HA, elem_of_union, elem_of_singleton.
    split; intros [?|?]; (by left) || (by right) || (right; lia) || (left; lia).
Qed.
