(* ===== verification/BinderFree.v ===== *)
(** The binder buffer allocator: release.

    [loose] is the state in the middle of [binder_free_buf], when the released buffer is
    in neither index; its merges with the free neighbours lead from [loose] to [loose].
    [free_ok] is the contract of the whole function. *)
From stdpp Require Import gmap sorting.
From S2P Require Import Prelude Rbtree RbInsert RbErase RbWalk Binder RbIndex BinderIndex BinderLayout BinderState BinderAlloc.

Local Open Scope kernel_scope.

(** ** Release *)

(** The allocated buffers are as they were. *)
Definition keeps (p q : binder_proc) : Prop :=
  (same_map p q /\ free_async_space q = free_async_space p) /\
  forall y, flag p y = Some false -> hdr q !! y = hdr p !! y /\ psize q y = psize p y.

Lemma keeps_trans p q s : keeps p q -> keeps q s -> keeps p s.
Proof.
  intros [[(S1 & S2 & S3 & S4) S5] H1] [[(T1 & T2 & T3 & T4) T5] H2].
  split; [unfold same_map; by rewrite T1, T2, T3, T4, T5|].
  intros y Hy. destruct (H1 y Hy) as [Hh Hp].
  assert (Hq : flag q y = Some false) by (unfold flag in *; by rewrite Hh).
  destruct (H2 y Hq) as [Hh2 Hp2]. rewrite Hh2, Hp2. done.
Qed.

(** The state while the free buffer [b] between [l] and [r] is in no index. *)
Record loose (p : binder_proc) (F A : gset Z) (l : list Z) (b : Z) (r : list Z) : Prop := {
  lo_core : core p F A (fkey p);
  lo_chain : buffers p = l ++ b :: r;
  lo_flag : flag p b = Some true;
  lo_F : forall n, n ∈ F <-> flag p (n - 8) = Some true /\ n - 8 <> b;
  lo_A : forall n, n ∈ A <-> flag p (n - 8) = Some false;
  lo_pages : pages_ok (al_of p) p;
  lo_left : coal (is_free p) false l = true;
  lo_right : coal (is_free p) false r = true;
  lo_fit : fitted p;
  lo_async : async_ok p }.

Lemma is_free_flag p y : is_free p y = true <-> flag p y = Some true.
Proof. unfold is_free. destruct (flag p y) as [[]|]; done. Qed.

(** Putting it back into the free index. *)
Lemma settle_ok p F A l b r :
  loose p F A l b r -> last_free (is_free p) false l = false -> coal (is_free p) true r = true ->
  exists m f, let q := set_trees m f (allocated_buffers p) p in
    binder_insert_free_buffer b p = Some q /\ binv q ({[b + 8]} ∪ F) A /\ keeps p q.
Proof.
  intros [Hc Hb Hf HF HA Hpg Hl Hr Hfit Has] Hlast Hright.
  assert (Hnot : b + 8 ∉ F) by (intros [_ H]%HF; lia).
  destruct (insert_free_ok _ _ _ _ Hc b eq_refl Hf Hnot) as (m & f & He & Hc1).
  exists m, f. cbn zeta. split; [done|]. split; [split; try done|split; [done|by intros y Hy]].
  - split; intros n; [|apply HA]. change (flag (set_trees m f (allocated_buffers p) p)) with (flag p).
    rewrite elem_of_union, elem_of_singleton, HF. split.
    + intros [->|[H _]]; [by replace (b + 8 - 8) with b by lia|done].
    + intros H. destruct (decide (n - 8 = b)); [left; lia|by right].
  - unfold coalesced. change (buffers (set_trees m f (allocated_buffers p) p)) with (buffers p).
    change (is_free (set_trees m f (allocated_buffers p) p)) with (is_free p).
    rewrite Hb, coal_app, Hl. cbn [coal andb]. rewrite Hlast. cbn [andb negb].
    apply is_free_flag in Hf. by rewrite Hf.
Qed.

(** Unlinking the free buffer [c] that follows the free buffer [pv]: the rest of the state. *)
Lemma unlinked_ok p F A l pv c r q :
  core p F A (fkey p) -> buffers p = l ++ pv :: c :: r -> flag p pv = Some true -> flag p c = Some true ->
  fitted p -> async_ok p ->
  hdr q = delete c (hdr p) -> buffers q = l ++ pv :: r -> same_map p q ->
  free_async_space q = free_async_space p ->
  fitted q /\ async_ok q /\ keeps p q /\ (forall y, y <> c -> flag q y = flag p y) /\ flag q c = None /\
  (forall y, y <> pv -> y <> c -> psize q y = psize p y).
Proof.
  intros Hc Hb Hfp Hfc Hfit Has Hh Hbq Hmap Hasp. pose proof Hmap as (_ & Hbase & Hbsz & _).
  assert (Hend : region_end q = region_end p) by (unfold region_end; congruence).
  assert (Hsizes : forall y, y <> pv -> y <> c -> psize q y = psize p y).
  { intros y H1 H2. unfold psize. rewrite Hbq, Hb, Hend. by apply size_drop. }
  assert (Hflag : forall y, y <> c -> flag q y = flag p y).
  { intros y Hy. unfold flag. by rewrite Hh, lookup_delete_ne. }
  assert (Hk : keeps p q).
  { split; [done|]. intros y Hy. split; [|apply Hsizes; congruence]. rewrite Hh, lookup_delete_ne; congruence. }
  split; [|split; [|split; [done|split; [done|split; [|done]]]]].
  - intros y x Hy Hx. destruct (decide (y = c)) as [->|Hyc]; [by rewrite Hh, lookup_delete_eq in Hy|].
    rewrite Hh, lookup_delete_ne in Hy by done.
    assert (Hfl : flag p y = Some false) by (unfold flag; rewrite Hy; cbn; by rewrite Hx).
    rewrite Hsizes by congruence. by eapply Hfit.
  - destruct Has as [Hu Hsum]. split; [by rewrite Hasp|]. rewrite Hasp, Hbsz, Hbq, Hh, <- Hsum, Hb.
    pose proof (chain_nodup _ _ (co_chain _ _ _ _ Hc)) as Hnd. rewrite Hb in Hnd.
    f_equal. rewrite !asum_app. cbn [asum].
    assert (Hcost : acost (hdr p !! c) = 0).
    { destruct (flag_hdr _ _ _ Hfc) as (z & Hz & Hfz). rewrite Hz. cbn. by rewrite Hfz. }
    rewrite Hcost. apply NoDup_app in Hnd as (_ & Hd & Hnd). apply NoDup_cons in Hnd as [Hp1 Hnd].
    apply NoDup_cons in Hnd as [Hc1 _].
    assert (Hcl : c ∉ l) by (intros Hin; apply (Hd c Hin); set_solver).
    assert (Hpc : pv <> c) by set_solver.
    rewrite (lookup_delete_ne _ c pv) by done.
    rewrite (asum_ext (delete c (hdr p)) (hdr p) l), (asum_ext (delete c (hdr p)) (hdr p) r); [lia|..];
      intros y Hy; rewrite lookup_delete_ne; congruence.
  - unfold flag. by rewrite Hh, lookup_delete_eq.
Qed.

(** The free neighbour after [b] is swallowed. *)
Lemma merge_next env p F A l b c r :
  loose p F A l b (c :: r) -> flag p c = Some true ->
  exists q, (e ← on_free (rb_erase RB_FUEL (c + 8)) p; binder_delete_free_buffer env c e.2) = Some q /\
    loose q (F ∖ {[c + 8]}) A l b r /\ keeps p q /\ coal (is_free q) true r = true /\
    last_free (is_free q) false l = last_free (is_free p) false l.
Proof.
  intros [Hc Hb Hf HF HA Hpg Hl Hr Hfit Has] Hfc.
  pose proof (chain_nodup _ _ (co_chain _ _ _ _ Hc)) as Hnd. rewrite Hb in Hnd.
  apply NoDup_app in Hnd as (_ & Hd & Hnd). apply NoDup_cons in Hnd as [Hbn Hnd]. apply NoDup_cons in Hnd as [Hcn _].
  assert (Hcl : c ∉ l) by (intros Hin; apply (Hd c Hin); set_solver).
  assert (Hcb : c <> b) by set_solver.
  assert (HcF : c + 8 ∈ F) by (apply HF; replace (c + 8 - 8) with c by lia; done).
  destruct (erase_free_ok _ _ _ _ Hc _ HcF) as (m & f & He & Hc1). rewrite He, obind. cbn [snd].
  set (p1 := set_trees m f (allocated_buffers p) p) in *.
  assert (HcF' : c + 8 ∉ F ∖ {[c + 8]}) by (intros [_ H]%elem_of_difference; by apply H, elem_of_singleton).
  assert (HcA : c + 8 ∉ A) by (apply (core_disjoint _ _ _ _ Hc); done).
  destruct (delete_free_ok env p1 (F ∖ {[c + 8]}) A (fkey p) l b c r Hc1 Hpg Hb Hf Hfc HcF' HcA) as (pgs & He2 & Hc2 & Hb2 & Hpg2).
  cbn zeta in He2, Hc2, Hb2, Hpg2. set (q := set_pages pgs (drop_header c p1)) in *. exists q. split; [exact He2|].
  destruct (unlinked_ok p F A l b c r q Hc Hb Hf Hfc Hfit Has eq_refl Hb2 ltac:(done) eq_refl)
    as (Hfit2 & Has2 & Hk & Hflag & Hfcq & Hsizes).
  cbn [coal] in Hr. assert (Hfrc : is_free p c = true) by (by apply is_free_flag). rewrite Hfrc in Hr. cbn [andb negb] in Hr.
  assert (Hfr : forall y, y <> c -> is_free q y = is_free p y) by (intros y Hy; unfold is_free; by rewrite Hflag).
  assert (Hrq : coal (is_free q) true r = true).
  { rewrite (coal_ext _ (is_free p)); [done|]. intros y Hy. apply Hfr. congruence. }
  split; [|split; [exact Hk|split; [exact Hrq|]]].
  - split; try done.
    + eapply core_key; [exact Hc2|]. intros y Hy. apply elem_of_difference in Hy as [Hy Hyc].
      apply HF in Hy as [_ Hyb]. unfold fkey. symmetry. apply Hsizes; [done|].
      intros He'. apply Hyc, elem_of_singleton. lia.
    + by rewrite Hflag.
    + intros n. rewrite elem_of_difference, elem_of_singleton, HF.
      destruct (decide (n - 8 = c)) as [Heq|Hne].
      * rewrite Heq, Hfcq. split; [|by intros [? _]]. intros [_ ?]. lia.
      * rewrite Hflag by done. split; [tauto|]. intros [? ?]. split; [done|]. lia.
    + intros n. rewrite HA. destruct (decide (n - 8 = c)) as [Heq|Hne].
      * rewrite Heq, Hfcq, Hfc. done.
      * by rewrite Hflag.
    + rewrite (coal_ext _ (is_free p)); [done|]. intros y Hy. apply Hfr. congruence.
    + by eapply coal_weaken.
  - apply last_free_ext. intros y Hy. apply Hfr. congruence.
Qed.

(** The buffer [b] is swallowed by the free neighbour before it. *)
Lemma merge_prev env p F A l pv b r :
  loose p F A (l ++ [pv]) b r -> flag p pv = Some true -> coal (is_free p) true r = true ->
  exists q, (p1 ← binder_delete_free_buffer env b p; e ← on_free (rb_erase RB_FUEL (pv + 8)) p1; Some (pv, e.2))
      = Some (pv, q) /\
    loose q (F ∖ {[pv + 8]}) A l pv r /\ keeps p q /\ coal (is_free q) true r = true /\
    last_free (is_free q) false l = false.
Proof.
  intros [Hc Hb Hf HF HA Hpg Hl Hr Hfit Has] Hfp Hright.
  assert (Hb' : buffers p = l ++ pv :: b :: r) by (by rewrite Hb, <- app_assoc).
  pose proof (chain_nodup _ _ (co_chain _ _ _ _ Hc)) as Hnd. rewrite Hb' in Hnd.
  apply NoDup_app in Hnd as (_ & Hd & Hnd). apply NoDup_cons in Hnd as [Hpn Hnd]. apply NoDup_cons in Hnd as [Hbn _].
  assert (Hbl : b ∉ l) by (intros Hin; apply (Hd b Hin); set_solver).
  assert (Hpb : pv <> b) by set_solver. assert (Hpr : pv ∉ r) by set_solver.
  assert (HbF : b + 8 ∉ F) by (intros [_ H]%HF; lia).
  assert (HbA : b + 8 ∉ A).
  { intros H%HA. replace (b + 8 - 8) with b in H by lia. congruence. }
  assert (HpF : pv + 8 ∈ F) by (apply HF; replace (pv + 8 - 8) with pv by lia; done).
  destruct (delete_free_ok env p F A (fkey p) l pv b r Hc Hpg Hb' Hfp Hf HbF HbA) as (pgs & He & Hc1 & Hb1 & Hpg1).
  cbn zeta in He, Hc1, Hb1, Hpg1. set (p1 := set_pages pgs (drop_header b p)) in *. rewrite He, obind.
  destruct (erase_free_ok _ _ _ _ Hc1 _ HpF) as (m & f & He2 & Hc2). rewrite He2, obind. cbn [snd].
  set (q := set_trees m f (allocated_buffers p1) p1) in *. exists q. split; [done|].
  destruct (unlinked_ok p F A l pv b r q Hc Hb' Hfp Hf Hfit Has eq_refl Hb1 ltac:(done) eq_refl)
    as (Hfit2 & Has2 & Hk & Hflag & Hfbq & Hsizes).
  assert (Hfr : forall y, y <> b -> is_free q y = is_free p y) by (intros y Hy; unfold is_free; by rewrite Hflag).
  assert (Hrq : coal (is_free q) true r = true).
  { rewrite (coal_ext _ (is_free p)); [done|]. intros y Hy. apply Hfr. congruence. }
  rewrite coal_app in Hl. cbn [coal] in Hl. assert (Hfrp : is_free p pv = true) by (by apply is_free_flag).
  rewrite Hfrp, andb_true_r, andb_true_r in Hl. apply andb_true_iff in Hl as [Hl Hlast]. apply negb_true_iff in Hlast.
  split; [|split; [exact Hk|split; [exact Hrq|]]].
  - split; try done.
    + eapply core_key; [exact Hc2|]. intros y Hy. apply elem_of_difference in Hy as [Hy Hyp].
      apply HF in Hy as [_ Hyb]. unfold fkey. symmetry. apply Hsizes; [|done].
      intros He'. apply Hyp, elem_of_singleton. lia.
    + by rewrite Hflag.
    + intros n. rewrite elem_of_difference, elem_of_singleton, HF.
      destruct (decide (n - 8 = b)) as [Heq|Hne].
      * rewrite Heq, Hfbq. split; [tauto|by intros [? _]].
      * rewrite Hflag by done. split; [intros [[? ?] ?]; split; [done|lia]|]. intros [? ?]. split; [done|lia].
    + intros n. rewrite HA. destruct (decide (n - 8 = b)) as [Heq|Hne].
      * rewrite Heq, Hfbq, Hf. done.
      * by rewrite Hflag.
    + rewrite (coal_ext _ (is_free p)); [done|]. intros y Hy. apply Hfr. congruence.
    + by eapply coal_weaken.
  - rewrite (last_free_ext _ (is_free p)); [done|]. intros y Hy. apply Hfr. congruence.
Qed.

(** The whole pages inside an allocated buffer go when it is released. *)
Lemma free_range_ok env p F A l b r :
  core p F A (fkey p) -> pages_ok (al_of p) p -> buffers p = l ++ b :: r -> flag p b = Some false ->
  exists ret pgs,
    binder_update_page_range env false (PAGE_ALIGN (data b)) (Z.land (data b +u psize p b) PAGE_MASK) false p
      = Some (ret, set_pages pgs p) /\ length pgs = length (pages p) /\
    forall i, 0 <= i < len pgs ->
      (zget pgs i = Some true <-> need (set_al (al_of p) b false) (buffers p) (region_end p) (page p i)).
Proof.
  intros Hc Hpg Hb Hflag.
  assert (Hin : b ∈ buffers p) by (rewrite Hb; set_solver).
  pose proof (core_addr _ _ _ _ Hc b Hin) as Hba. pose proof (co_region _ _ _ _ Hc) as Hreg.
  assert (Hch : chain (l ++ b :: r) (region_end p)) by (rewrite <- Hb; apply (co_chain _ _ _ _ Hc)).
  pose proof (chain_split _ _ _ _ Hch) as (_ & Hbh & Hbl & Hbr & _ & _ & Hhe).
  assert (Hp : psize p b = hd_or r (region_end p) - (b + 40)) by (unfold psize; rewrite Hb; by apply size_mid).
  set (h := hd_or r (region_end p)) in *. pose proof Hreg as [[R1 R1'] [R2 R2'] R3 R4].
  assert (Hd : data b = b + 40) by (unfold data, sizeof_binder_buffer; rewrite u32_id; [done|unfold is_u32; lia]).
  set (S := PAGE_ALIGN (data b)). set (M := Z.land (data b +u psize p b) PAGE_MASK).
  assert (HM : M mod 4096 = 0 /\ M <= h < M + 4096).
  { unfold M. rewrite Hd, u32_id by (unfold is_u32; lia). replace (b + 40 + psize p b) with h by lia.
    rewrite page_mask_ok by lia. clear. pages. }
  assert (HS : S mod 4096 = 0 /\ b + 40 <= S < b + 40 + 4096).
  { unfold S. rewrite Hd, page_align_ok by lia. clear. pages. }
  clearbody S M.
  assert (Hend : region_end p mod 4096 = 0) by (unfold region_end; clear -R1' R2'; pages).
  assert (Hrange : buffer p <= S <= region_end p /\ buffer p <= M <= region_end p).
  { clear -Hba HS HM R1' Hend Hhe Hbh Hp. assert (buffer p <= M) by pages. assert (S <= region_end p) by pages. lia. }
  assert (Hiff : forall P, P mod 4096 = 0 -> (S <= P < M <-> inside b h P)).
  { intros P HP. unfold inside. clear -HS HM HP. pages. }
  assert (Hal : al_of p b = true) by (unfold al_of; by rewrite Hflag).
  assert (Hpres : forall i, pidx p S <= i < pidx p M -> zget (pages p) i = Some true).
  { intros i Hi. pose proof (page_pidx p S Hreg (proj1 HS)) as P1. pose proof (page_pidx p M Hreg (proj1 HM)) as P2.
    assert (Hi' : 0 <= i < len (pages p)) by (unfold page, region_end in *; lia).
    apply (Hpg i Hi'). rewrite Hb. apply need_mid. right. left. right. split; [done|]. apply Hiff; [by apply page_aligned|].
    unfold page in *. lia. }
  destruct (update_free_ok env p S M) as (ret & ->); [done|tauto..|exact Hpres|].
  eexists ret, _. split; [done|]. split; [by apply len_fill|]. intros i Hi. rewrite len_fill in Hi.
  apply (pages_fill p (need (al_of p) (buffers p) (region_end p))); [done|tauto..|done|by apply Hpg|].
  rewrite Hb. pose proof (page_aligned p i Hreg) as HP.
  assert (Hsame : need (al_of p) (l ++ b :: r) (region_end p) (page p i) <->
    need (set_al (al_of p) b true) (l ++ b :: r) (region_end p) (page p i)).
  { split; apply need_ext; intros y Hy; unfold set_al; destruct (Z.eqb_spec y b); by subst. }
  rewrite Hsame, (need_flip (al_of p) l b r (region_end p) (page p i) true Hch), (Hiff _ HP). fold h. split.
  - intros H'. split; [by left|]. intros Hins. pose proof (need_inside _ _ _ _ _ _ Hch Hins H') as Habs.
    by rewrite set_al_eq in Habs.
  - intros [[?|[_ ?]] ?]; done.
Qed.

(** The buffer leaves the allocated index and its pages go. *)
Lemma loosen_ok env p F A b x :
  binv p F A -> hdr p !! b = Some x -> free x = false -> transaction x = NULL ->
  exists q l r, loose q F (A ∖ {[b + 8]}) l b r /\ buffers q = buffers p /\ same_map p q /\
    free_async_space q = free_async_space p + (if async_transaction x then req_of x + 40 else 0) /\
    (forall y, y <> b -> hdr q !! y = hdr p !! y) /\
    binder_free_buf env b p =
      (nx ← next_in (buffers q) b;
       p ← match nx with
           | Some next => nh ← hdr q !! next;
             if free nh then
               e ← on_free (rb_erase RB_FUEL (next +u rb_off)) q; binder_delete_free_buffer env next e.2
             else Some q
           | None => Some q
           end;
       pv ← prev_in None (buffers p) b;
       bp ← match pv with
            | Some prev => ph ← hdr p !! prev;
              if free ph then
                p ← binder_delete_free_buffer env b p;
                e ← on_free (rb_erase RB_FUEL (prev +u rb_off)) p; Some (prev, e.2)
              else Some (b, p)
            | None => Some (b, p)
            end;
       binder_insert_free_buffer bp.1 bp.2).
Proof.
  intros [Hc [HF HA] Hpg Hco Hfit Has] Hx Hfx Htx.
  assert (Hin : b ∈ buffers p) by (apply (co_hdr _ _ _ _ Hc); by rewrite Hx).
  pose proof (core_addr _ _ _ _ Hc b Hin) as Hba. pose proof (co_region _ _ _ _ Hc) as Hreg.
  destruct (core_size _ _ _ _ Hc b Hin) as (Hsz & Hszr & Hszt).
  destruct (core_node _ _ _ _ Hc b Hin) as (_ & Hadd & _).
  destruct (core_split _ _ _ _ Hc b Hin) as (l & r & Hb & Hbl & Hbr & Hch).
  pose proof (chain_split _ _ _ _ Hch) as (_ & Hbh & _ & _ & _ & _ & Hhe).
  assert (Hp : psize p b = hd_or r (region_end p) - (b + 40)) by (unfold psize; rewrite Hb; by apply size_mid).
  set (h := hd_or r (region_end p)) in *.
  pose proof Hreg as [[R1 R1'] [R2 R2'] R3 R4].
  assert (Hflag : flag p b = Some false) by (unfold flag; rewrite Hx; cbn; by rewrite Hfx).
  assert (HbA : b + 8 ∈ A) by (apply HA; by replace (b + 8 - 8) with b by lia).
  pose proof (Hfit b x Hx Hfx) as Hroom. destruct Has as [Hu Hsum].
  assert (Hcost : asum (hdr p) (buffers p) = asum (hdr p) l + (acost (Some x) + asum (hdr p) r)).
  { rewrite Hb, asum_app. cbn [asum]. by rewrite Hx. }
  pose proof (asum_nonneg (hdr p) l) as Hnl. pose proof (asum_nonneg (hdr p) r) as Hnr.
  assert (Hreq : 0 <= req_of x) by apply u32_range.
  assert (Hhalf : 0 <= buffer_size p / 2 <= buffer_size p) by (clear -R2; Z.to_euclidean_division_equations; lia).
  set (as' := if async_transaction x then free_async_space p + (req_of x + 40) else free_async_space p).
  assert (Has' : is_u32 as' /\ as' + (asum (hdr p) l + asum (hdr p) r) = buffer_size p / 2).
  { unfold as', is_u32 in *. unfold acost in Hcost. rewrite Hfx in Hcost. cbn [negb andb] in Hcost.
    destruct (async_transaction x); lia. }
  unfold binder_free_buf. rewrite Hsz, obind, Hx, obind. fold (req (data_size x) (offsets_size x)). fold (req_of x).
  rewrite Hfx, Htx. destruct (Z.ltb_spec (psize p b) (req_of x)); [lia|]. cbn [orb negb Z.eqb NULL].
  change (negb (NULL =? NULL)) with false. cbn [orb]. unfold region_end in *.
  destruct (Z.ltb_spec b (buffer p)); [lia|]. cbn [orb]. rewrite (u32_id (buffer p + buffer_size p)) by (unfold is_u32; lia).
  destruct (Z.ltb_spec (buffer p + buffer_size p) b); [lia|].
  set (p0 := if async_transaction x then _ else p).
  assert (Hp0 : p0 = set_async as' p).
  { unfold p0, as'. destruct (async_transaction x); [|by destruct p]. unfold sizeof_binder_buffer. f_equal.
    unfold is_u32 in *. rewrite (u32_id (req_of x + 40)) by (unfold is_u32; lia). apply u32_id. unfold is_u32; lia. }
  clearbody p0. subst p0. pose proof (core_set_async _ _ _ _ Hc as') as Hc0. set (p0 := set_async as' p) in *.
  destruct (free_range_ok env p0 F A l b r Hc0 Hpg Hb Hflag) as (ret & pgs & Hu' & Hlen & Hneed).
  change (psize p0 b) with (psize p b) in Hu'. rewrite Hu', obind. cbn [snd].
  pose proof (core_set_pages _ _ _ _ Hc0 pgs Hlen) as Hc1.
  destruct (erase_alloc_ok _ _ _ _ Hc1 _ HbA) as (m & a & He & Hc2). rewrite Hadd, He, obind. cbn [snd].
  unfold upd_hdr. change (hdr (set_trees m (free_buffers (set_pages pgs p0)) a (set_pages pgs p0))) with (hdr p).
  rewrite Hx, !obind. set (x' := Buffer true _ _ _ _). set (q := set_hdr _ _).
  assert (Hhq : forall y, y <> b -> hdr q !! y = hdr p !! y) by (intros y Hy; cbn; by rewrite lookup_insert_ne).
  exists q, l, r. split; [|split; [done|split; [done|split; [|split; [exact Hhq|done]]]]].
  2:{ change (free_async_space q) with as'. unfold as'. destruct (async_transaction x); lia. }
  assert (Hflagb : flag q b = Some true) by (unfold flag, q; cbn; by rewrite lookup_insert_eq).
  assert (Hflagq : forall y, y <> b -> flag q y = flag p y) by (intros y Hy; unfold flag; by rewrite Hhq).
  assert (Hfr : forall y, y <> b -> is_free q y = is_free p y) by (intros y Hy; unfold is_free; by rewrite Hflagq).
  unfold coalesced in Hco. rewrite Hb, coal_app in Hco. cbn [coal] in Hco.
  assert (Hfrb : is_free p b = false) by (unfold is_free; by rewrite Hflag). rewrite Hfrb, andb_false_r in Hco.
  cbn [negb andb] in Hco. apply andb_true_iff in Hco as [Hcl Hcr].
  split; try done.
  - apply (core_set_hdr _ _ _ _ Hc2); [done|done|]. intros [_ H']%elem_of_difference. exfalso. by apply H', elem_of_singleton.
  - intros n. rewrite HF. destruct (decide (n - 8 = b)) as [->|Hne].
    + rewrite Hflag. split; [done|tauto].
    + rewrite Hflagq by done. tauto.
  - intros n. rewrite elem_of_difference, elem_of_singleton, HA. destruct (decide (n - 8 = b)) as [Heq|Hne].
    + rewrite Heq, Hflagb. split; [intros [_ ?]; lia|done].
    + rewrite Hflagq by done. split; [tauto|]. intros ?. split; [done|lia].
  - apply (pages_ok_ext (set_al (al_of p) b false)).
    { intros y Hy. unfold set_al, al_of. destruct (Z.eqb_spec y b) as [->|Hyb]; [by rewrite Hflagb|by rewrite Hflagq]. }
    exact Hneed.
  - rewrite (coal_ext _ (is_free p)); [done|]. intros y Hy. apply Hfr. congruence.
  - rewrite (coal_ext _ (is_free p)); [done|]. intros y Hy. apply Hfr. congruence.
  - intros y z Hy Hz. destruct (decide (y = b)) as [->|Hyb].
    + unfold q in Hy. cbn in Hy. rewrite lookup_insert_eq in Hy. injection Hy as <-. done.
    + rewrite Hhq in Hy by done. by apply (Hfit y z).
  - unfold async_ok. change (free_async_space q) with as'. change (buffers q) with (buffers p).
    change (buffer_size q) with (buffer_size p). split; [tauto|]. rewrite Hb, asum_app. cbn [asum].
    rewrite (asum_ext (hdr q) (hdr p) l), (asum_ext (hdr q) (hdr p) r) by (intros y Hy; rewrite Hhq; congruence).
    assert (acost (hdr q !! b) = 0) by (unfold q; cbn; by rewrite lookup_insert_eq). lia.
Qed.

(** The block of a loose buffer reaches to the next header. *)
Lemma loose_block p F A l b r : loose p F A l b r ->
  b ∉ l /\ b + 40 + psize p b = hd_or r (region_end p) /\ (forall y, y ∈ l -> y < b) /\
  (forall y k, r = y :: k -> y < hd_or k (region_end p)).
Proof.
  intros Hlo. pose proof (co_chain _ _ _ _ (lo_core _ _ _ _ _ _ Hlo)) as Hch. rewrite (lo_chain _ _ _ _ _ _ Hlo) in Hch.
  pose proof (chain_split _ _ _ _ Hch) as (_ & _ & Hbl & Hbr & Hlow & Hhigh & _).
  split; [done|]. split; [unfold psize; rewrite (lo_chain _ _ _ _ _ _ Hlo), size_mid by done; lia|].
  split; [intros y Hy; specialize (Hlow y Hy); lia|]. intros y k ->.
  replace (l ++ b :: y :: k) with ((l ++ [b]) ++ y :: k) in Hch by (by rewrite <- app_assoc).
  pose proof (chain_split _ _ _ _ Hch) as (_ & Hy & _). lia.
Qed.

(** The code's test of the buffer after the released one. *)
Lemma next_phase env p F A l b r :
  loose p F A l b r ->
  exists q F' r', match head r with
      | Some next => nh ← hdr p !! next;
        if free nh then
          e ← on_free (rb_erase RB_FUEL (next +u rb_off)) p; binder_delete_free_buffer env next e.2
        else Some p
      | None => Some p
      end = Some q /\
    loose q F' A l b r' /\ keeps p q /\ coal (is_free q) true r' = true /\
    hd_or r (region_end p) <= hd_or r' (region_end p).
Proof.
  intros Hlo. pose proof (loose_block _ _ _ _ _ _ Hlo) as (_ & _ & _ & Hgrow).
  pose proof (lo_core _ _ _ _ _ _ Hlo) as Hc. pose proof (lo_chain _ _ _ _ _ _ Hlo) as Hb.
  assert (Hself : keeps p p) by done.
  destruct r as [|c r]; cbn [head]; [by exists p, F, []|].
  assert (Hin : c ∈ buffers p) by (rewrite Hb; set_solver).
  destruct (core_node _ _ _ _ Hc c Hin) as (_ & Hadd & _). rewrite Hadd.
  destruct (proj2 (co_hdr _ _ _ _ Hc c) Hin) as [y Hy]. rewrite Hy, obind.
  assert (Hfl : flag p c = Some (free y)) by (unfold flag; by rewrite Hy).
  destruct (free y).
  - destruct (merge_next env p F A l b c r Hlo Hfl) as (q & -> & Hq & Hk & Hr & _).
    exists q, (F ∖ {[c + 8]}), r. split; [done|]. split; [done|]. split; [done|]. split; [done|].
    cbn [hd_or]. specialize (Hgrow c r eq_refl). lia.
  - exists p, F, (c :: r). split; [done|]. split; [done|]. split; [done|]. split; [|lia].
    pose proof (lo_right _ _ _ _ _ _ Hlo) as Hr. cbn [coal] in Hr |- *.
    assert (Hfr : is_free p c = false) by (unfold is_free; by rewrite Hfl). rewrite Hfr in *. exact Hr.
Qed.

(** The code's test of the buffer before it. *)
Lemma prev_phase env p F A l b r :
  loose p F A l b r -> coal (is_free p) true r = true ->
  exists c q F' l', match last l with
      | Some prev => ph ← hdr p !! prev;
        if free ph then
          p ← binder_delete_free_buffer env b p;
          e ← on_free (rb_erase RB_FUEL (prev +u rb_off)) p; Some (prev, e.2)
        else Some (b, p)
      | None => Some (b, p)
      end = Some (c, q) /\
    loose q F' A l' c r /\ keeps p q /\ coal (is_free q) true r = true /\
    last_free (is_free q) false l' = false /\ c <= b.
Proof.
  intros Hlo Hr. pose proof (loose_block _ _ _ _ _ _ Hlo) as (_ & _ & Hlow & _).
  pose proof (lo_core _ _ _ _ _ _ Hlo) as Hc. pose proof (lo_chain _ _ _ _ _ _ Hlo) as Hb.
  assert (Hself : keeps p p) by done.
  destruct l as [|pv l _] using rev_ind; [exists b, p, F, []; do 5 (split; [done|]); lia|].
  rewrite last_snoc. assert (Hin : pv ∈ buffers p) by (rewrite Hb; set_solver).
  destruct (core_node _ _ _ _ Hc pv Hin) as (_ & Hadd & _). rewrite Hadd.
  destruct (proj2 (co_hdr _ _ _ _ Hc pv) Hin) as [y Hy]. rewrite Hy, obind.
  assert (Hfl : flag p pv = Some (free y)) by (unfold flag; by rewrite Hy).
  specialize (Hlow pv ltac:(set_solver)). destruct (free y).
  - destruct (merge_prev env p F A l pv b r Hlo Hfl Hr) as (q & -> & Hq & Hk & Hr' & Hl).
    exists pv, q, (F ∖ {[pv + 8]}), l. do 5 (split; [done|]). lia.
  - exists b, p, F, (l ++ [pv]). split; [done|]. split; [done|]. split; [done|]. split; [done|]. split; [|lia].
    unfold last_free. rewrite last_snoc. unfold is_free. by rewrite Hfl.
Qed.

(** The release of a buffer: it is no longer allocated, its bytes lie in a free buffer,
    its share of the asynchronous space is back, and the other buffers are untouched. *)
Definition released (p q : binder_proc) (b : Z) (x : binder_buffer) : Prop :=
  same_map p q /\
  (forall y, flag q y = Some false <-> flag p y = Some false /\ y <> b) /\
  (forall y, flag p y = Some false -> y <> b -> hdr q !! y = hdr p !! y /\ psize q y = psize p y) /\
  (exists c, flag q c = Some true /\ c <= b /\ b + psize p b <= c + psize q c) /\
  free_async_space q = free_async_space p + (if async_transaction x then req_of x + 40 else 0).

Lemma free_ok env p F A b x :
  binv p F A -> hdr p !! b = Some x -> free x = false -> transaction x = NULL ->
  exists q F', binder_free_buf env b p = Some q /\ binv q F' (A ∖ {[b + 8]}) /\ released p q b x.
Proof.
  intros Hinv Hx Hfx Htx.
  destruct (loosen_ok env p F A b x Hinv Hx Hfx Htx) as (q1 & l & r & Hlo & Hbq & Hmap & Has & Hoth & ->).
  pose proof (loose_block _ _ _ _ _ _ Hlo) as (Hbl & Hblk & _ & _).
  pose proof (lo_chain _ _ _ _ _ _ Hlo) as Hb.
  assert (Hsame : forall y, psize q1 y = psize p y).
  { intros y. unfold psize, region_end. destruct Hmap as (_ & -> & -> & _). by rewrite Hbq. }
  rewrite Hb, next_in_mid, obind by done.
  destruct (next_phase env _ _ _ _ _ _ Hlo) as (q2 & F2 & r2 & -> & Hlo2 & Hk2 & Hr2 & Hgrow). rewrite obind.
  pose proof (loose_block _ _ _ _ _ _ Hlo2) as (_ & Hblk2 & _ & _).
  rewrite (lo_chain _ _ _ _ _ _ Hlo2), prev_in_mid, obind by done.
  replace (match last l with Some x => Some x | None => None end) with (last l) by (by destruct (last l)).
  destruct (prev_phase env _ _ _ _ _ _ Hlo2 Hr2) as (c & q3 & F3 & l3 & -> & Hlo3 & Hk3 & Hr3 & Hl3 & Hcb).
  rewrite obind. cbn [fst snd]. pose proof (loose_block _ _ _ _ _ _ Hlo3) as (_ & Hblk3 & _ & _).
  destruct (settle_ok _ _ _ _ _ _ Hlo3 Hl3 Hr3) as (m & f & He & Hfin & Hk4). cbn zeta in He, Hfin, Hk4.
  set (q := set_trees m f (allocated_buffers q3) q3) in *.
  exists q, ({[c + 8]} ∪ F3). split; [done|]. split; [done|].
  pose proof (keeps_trans _ _ _ (keeps_trans _ _ _ Hk2 Hk3) Hk4) as [[(M1 & M2 & M3 & M4) Has'] Hk].
  pose proof Hmap as (N1 & N2 & N3 & N4).
  split; [unfold same_map; by rewrite M1, M2, M3, M4|].
  destruct (bv_marks _ _ _ Hinv) as [_ HA]. destruct (bv_marks _ _ _ Hfin) as [_ HA'].
  split; [|split; [|split; [|by rewrite Has', Has]]].
  - intros y. specialize (HA (y + 8)). specialize (HA' (y + 8)). replace (y + 8 - 8) with y in * by lia.
    rewrite <- HA', <- HA, elem_of_difference, elem_of_singleton. split; intros [? ?]; (split; [done|lia]).
  - intros y Hy Hne. assert (Hy1 : flag q1 y = Some false) by (unfold flag in *; by rewrite Hoth).
    destruct (Hk y Hy1) as [-> ->]. rewrite Hoth by done. by rewrite Hsame.
  - exists c. split; [exact (lo_flag _ _ _ _ _ _ Hlo3)|]. split; [done|]. change (psize q c) with (psize q3 c).
    destruct Hk2 as [[(_ & P2 & P3 & _) _] _]. destruct Hk3 as [[(_ & Q2 & Q3 & _) _] _].
    assert (region_end q3 = region_end q2) by (unfold region_end; congruence).
    assert (region_end q2 = region_end q1) by (unfold region_end; congruence).
    rewrite <- Hsame. rewrite H, H0 in *. lia.
Qed.
