(* ===== verification/BinderRun.v ===== *)
(** The binder buffer allocator as its callers use it: lookup by user pointer, the command
    BC_FREE_BUFFER, mapping the region, the end of a process, and the states any sequence of
    these operations reaches. *)
From stdpp Require Import gmap sorting.
From S2P Require Import Prelude Rbtree RbInsert RbErase RbWalk Binder RbIndex BinderIndex BinderLayout BinderState BinderAlloc BinderFree.

Local Open Scope kernel_scope.

(** ** Lookup *)

(** The kernel address the code computes from a user pointer. *)
Definition kern_of (p : binder_proc) (user_ptr : Z) : Z :=
  (user_ptr -u user_buffer_offset p) -u sizeof_binder_buffer.

Lemma lookup_ok p F A user_ptr :
  core p F A (fkey p) -> marks p F A ->
  binder_buffer_lookup user_ptr p =
    Some (if decide (flag p (kern_of p user_ptr) = Some false) then kern_of p user_ptr else NULL).
Proof.
  intros Hc [_ HA]. destruct (index_reps _ _ _ _ (co_A _ _ _ _ Hc)) as (t & Hs & Hi & HS & Hsort & Hf).
  pose proof (rb_fuel_depth t RB_FUEL [] t Hi eq_refl Hf) as Hh. cbn [length] in Hh.
  unfold binder_buffer_lookup. fold (kern_of p user_ptr). set (k := kern_of p user_ptr).
  assert (Hl : lookup_loop RB_FUEL (hdr p) k (allocated_buffers p) (RbState (nodes p) (allocated_buffers p)) =
    Some (if decide (k + rb_off ∈ ids t) then k else NULL, RbState (nodes p) (allocated_buffers p))).
  { pose proof (rs_root _ _ _ Hs) as Hroot. cbn [rb_root] in Hroot. rewrite Hroot at 1.
    apply (lookup_loop_ok RB_FUEL (hdr p) k _ _ [] t Hs Hsort); [lia|].
    intros x Hx. apply HS in Hx. destruct (core_A_in _ _ _ _ Hc x Hx) as [Hin Hx8].
    destruct (core_node _ _ _ _ Hc _ Hin) as (_ & _ & Hsub). rewrite <- Hx8 in Hsub. split; [done|].
    destruct (flag_hdr _ _ _ (co_Af _ _ _ _ Hc x Hx)) as (z & Hz & Hfz). by exists z. }
  unfold on_allocated. erewrite run_bind by done. cbn [rb_root]. rewrite Hl, obind. cbn [fst]. f_equal.
  assert (Hiff : k + rb_off ∈ ids t <-> flag p k = Some false).
  { rewrite HS, HA. unfold rb_off. by replace (k + 8 - 8) with k by lia. }
  repeat case_decide; tauto.
Qed.

(** ** The transaction field *)

(** What the invariant says does not depend on the transactions. *)
Lemma set_transaction_ok p F A t b x :
  binv p F A -> hdr p !! b = Some x ->
  exists q, set_transaction t b p = Some q /\ binv q F A /\ same_map p q /\
    free_async_space q = free_async_space p /\ buffers q = buffers p /\
    hdr q !! b = Some (Buffer (free x) (async_transaction x) t (data_size x) (offsets_size x)) /\
    forall y, y <> b -> hdr q !! y = hdr p !! y.
Proof.
  intros [Hc [HF HA] Hpg Hco Hfit Has] Hx. unfold set_transaction, upd_hdr. rewrite Hx, obind.
  set (x' := Buffer _ _ _ _ _). eexists. split; [done|]. set (q := set_hdr _ _).
  assert (Hin : b ∈ buffers p) by (apply (co_hdr _ _ _ _ Hc); by rewrite Hx).
  assert (Hfl : flag p b = Some (free x)) by (unfold flag; by rewrite Hx).
  assert (Hbq : hdr q !! b = Some x') by (unfold q; cbn; by rewrite lookup_insert_eq).
  assert (Hoth : forall y, y <> b -> hdr q !! y = hdr p !! y) by (intros y Hy; unfold q; cbn; by rewrite lookup_insert_ne).
  assert (Hflag : forall y, flag q y = flag p y).
  { intros y. destruct (decide (y = b)) as [->|Hy]; [rewrite Hfl; unfold flag; by rewrite Hbq|].
    unfold flag. by rewrite Hoth. }
  split; [split|done].
  - apply (core_set_hdr _ _ _ _ Hc); [done|..].
    + intros H%HF. replace (b + 8 - 8) with b in H by lia. cbn. congruence.
    + intros H%HA. replace (b + 8 - 8) with b in H by lia. cbn. congruence.
  - split; intros n; rewrite Hflag; [apply HF|apply HA].
  - eapply pages_ok_ext; [|exact Hpg]. intros y _. unfold al_of. by rewrite Hflag.
  - unfold coalesced. rewrite <- Hco. apply coal_ext. intros y _. unfold is_free. by rewrite Hflag.
  - intros y z Hy Hz. change (psize q y) with (psize p y). destruct (decide (y = b)) as [->|Hyb].
    + rewrite Hbq in Hy. injection Hy as <-. by apply (Hfit b x).
    + rewrite Hoth in Hy by done. by apply (Hfit y z).
  - destruct Has as [Hu Hsum]. split; [done|]. change (buffer_size q) with (buffer_size p). rewrite <- Hsum. change (free_async_space q) with (free_async_space p).
    f_equal. change (buffers q) with (buffers p). apply asum_ext. intros y _.
    destruct (decide (y = b)) as [->|Hy]; [by rewrite Hbq, Hx|by rewrite Hoth].
Qed.

(** A release after the field is cleared. *)
Lemma clear_free_ok env p F A b x :
  binv p F A -> hdr p !! b = Some x -> free x = false ->
  exists s q F', set_transaction NULL b p = Some s /\ binder_free_buf env b s = Some q /\
    binv q F' (A ∖ {[b + 8]}) /\ released p q b x.
Proof.
  intros Hinv Hx Hfx.
  destruct (set_transaction_ok p F A NULL b x Hinv Hx) as (s & Hset & Hs & Hm & Has & Hb & Hsb & Hoth).
  destruct (free_ok env s F A b _ Hs Hsb Hfx eq_refl) as (q & F' & Hfree & Hq & Hrel). exists s, q, F'.
  do 3 (split; [done|]). destruct Hrel as ((R1 & R2 & R3 & R4) & Hfl & Hk & (c & Hc1 & Hc2 & Hc3) & Ha).
  pose proof Hm as (M1 & M2 & M3 & M4).
  assert (Hsz : forall y, psize s y = psize p y).
  { intros y. unfold psize, region_end. by rewrite Hb, M2, M3. }
  assert (Hflag : forall y, flag s y = flag p y).
  { intros y. unfold flag. destruct (decide (y = b)) as [->|Hy]; [by rewrite Hsb, Hx|by rewrite Hoth]. }
  split; [unfold same_map; by rewrite R1, R2, R3, R4|].
  split; [intros y; rewrite Hfl; by rewrite Hflag|]. split.
  { intros y Hy Hyb. rewrite <- Hflag in Hy. destruct (Hk y Hy Hyb) as [-> ->]. by rewrite Hoth, Hsz. }
  split; [exists c; by rewrite <- (Hsz b)|]. rewrite Ha, Has. done.
Qed.

(** Both callers clear it where it is set. *)
Lemma clear_ok env p F A b x :
  binv p F A -> hdr p !! b = Some x -> free x = false ->
  exists q F', (s ← (if nonnull (transaction x) then set_transaction NULL b p else Some p); binder_free_buf env b s)
      = Some q /\ binv q F' (A ∖ {[b + 8]}) /\ released p q b x.
Proof.
  intros Hinv Hx Hfx. destruct (nonnull (transaction x)) eqn:Et.
  - destruct (clear_free_ok env p F A b x Hinv Hx Hfx) as (s & q & F' & -> & Hq & H). exists q, F'. by rewrite obind.
  - rewrite obind. apply (free_ok env p F A b x Hinv Hx Hfx).
    unfold nonnull in Et. by apply negb_false_iff, Z.eqb_eq in Et.
Qed.

(** ** The command BC_FREE_BUFFER *)

(** The transaction code marks a node before it hands out the buffer of an asynchronous
    transaction to it. *)
Definition async_marked (p : binder_proc) (allow : Z -> bool) (target : Z -> option async_node) : Prop :=
  forall b x n, hdr p !! b = Some x -> free x = false -> allow b = true -> async_transaction x = true ->
    target b = Some n -> has_async_transaction n = true.

(** The work after the free: the next waiting item of the node moves to the end of the thread's
    list, or the node is no longer busy. *)
Definition next_async (async : bool) (target : option async_node) (todo : list Z) : option async_node * list Z :=
  match target, async with
  | Some (AsyncNode _ []), true => (Some (AsyncNode false []), todo)
  | Some (AsyncNode _ (w :: rest)), true => (Some (AsyncNode true rest), todo ++ [w])
  | _, _ => (target, todo)
  end.

(** What BC_FREE_BUFFER does: effect [r] and new state [q]. *)
Definition user_freed (p : binder_proc) (user : option Z) (allow : Z -> bool) (target : Z -> option async_node)
    (todo : list Z) (r : free_effect) (q : binder_proc) : Prop :=
  match user with
  | None => r = NoEffect (- EFAULT) /\ q = p
  | Some data_ptr =>
      let b := kern_of p data_ptr in
      if decide (flag p b = Some false /\ allow b = true)
      then exists x, hdr p !! b = Some x /\ released p q b x /\
        r = Detached (transaction x) (next_async (async_transaction x) (target b) todo).1
              (next_async (async_transaction x) (target b) todo).2
      else r = NoEffect 0 /\ q = p
  end.

Lemma bc_free_async_ok async target todo :
  (forall n, async = true -> target = Some n -> has_async_transaction n = true) ->
  bc_free_async async target todo = Some (next_async async target todo).
Proof.
  intros H. destruct target as [[h l]|], async; try done; [|by destruct l].
  specialize (H _ eq_refl eq_refl). cbn in *. subst h. by destruct l.
Qed.

Lemma bc_free_step env user allow target todo p F A :
  binv p F A -> match bc_free_buffer env user allow target todo p with
  | None => ~ async_marked p allow target
  | Some (r, q) => user_freed p user allow target todo r q /\ exists F' A', binv q F' A'
  end.
Proof.
  intros Hinv. unfold bc_free_buffer, bc_free_find, user_freed. cbn zeta.
  destruct user as [ptr|]; [|rewrite obind; split; [done|]; by exists F, A].
  rewrite (lookup_ok p F A ptr (bv_core _ _ _ Hinv) (bv_marks _ _ _ Hinv)), obind.
  set (b := kern_of p ptr). destruct (decide (flag p b = Some false)) as [Hf|Hf].
  2:{ cbn. rewrite decide_False by tauto. split; [done|]. by exists F, A. }
  pose proof (core_flag_in _ _ _ _ (bv_core _ _ _ Hinv) b _ Hf) as Hin.
  pose proof (core_addr _ _ _ _ (bv_core _ _ _ Hinv) b Hin) as Hb.
  assert (Hnn : nonnull b = true).
  { unfold nonnull, NULL. apply negb_true_iff, Z.eqb_neq. lia. }
  rewrite Hnn. cbn [negb].
  destruct (allow b) eqn:Ea; cbn [negb]; rewrite obind.
  2:{ rewrite decide_False by (intros [_ ?]; congruence). split; [done|]. by exists F, A. }
  destruct (flag_hdr _ _ _ Hf) as (x & Hx & Hfx). rewrite Hx, obind.
  destruct (clear_ok env p F A b x Hinv Hx Hfx) as (q & F' & Hq & Hi & Hrel).
  destruct (if nonnull (transaction x) then set_transaction NULL b p else Some p) as [p1|] eqn:E1; [|done].
  cbn [mbind option_bind] in Hq. rewrite obind. destruct (bc_free_async _ _ _) as [a|] eqn:Ea'.
  - rewrite obind, Hq, obind, decide_True by done. split; [|by exists F', (A ∖ {[b + 8]})]. exists x. split; [done|]. split; [done|].
    assert (a = next_async (async_transaction x) (target b) todo) as ->; [|done].
    clear - Ea'. destruct (target b) as [[[] [|w l]]|], (async_transaction x); cbn in *; congruence.
  - cbn. intros Hm. rewrite bc_free_async_ok in Ea'; [done|]. intros n Hax Ht. by apply (Hm b x n).
Qed.

(** ** Mapping *)

(** A process that has mapped nothing, as [binder_open] leaves it. *)
Record unmapped (p : binder_proc) : Prop := {
  um_vma : vma p = false;
  um_buffer : buffer p = NULL;
  um_free : free_buffers p = NULL;
  um_alloc : allocated_buffers p = NULL;
  um_hdr : hdr p = ∅ }.

(** What the memory manager passes: whole pages below the top of the address space; a
    kernel area is page aligned and followed by a guard page. *)
Record vm_ok (vm_start vm_end area : Z) : Prop := {
  vm_pages : vm_start mod 4096 = 0 /\ vm_end mod 4096 = 0;
  vm_order : 0 <= vm_start < vm_end /\ vm_end < 2 ^ 32;
  vm_area : area = NULL \/ 0 < area /\ area mod 4096 = 0 /\ area + Z.min (vm_end - vm_start) SZ_4M <= 2 ^ 32 - 4096 }.

(** Why a mapping is refused. *)
Definition map_error (env : page_env) (vm_flags area : Z) (kzalloc_ok : bool) (p : binder_proc) (r : Z) : Prop :=
  (r = - EPERM /\ Z.land vm_flags VM_WRITE <> 0) \/
  (r = - EBUSY /\ buffer p <> NULL) \/
  (r = - ENOMEM /\ (area = NULL \/ kzalloc_ok = false \/ page_ok env area = false)).

Lemma index_empty m key : index m NULL ∅ key.
Proof.
  exists E. do 2 (split; [done|]). split; [constructor|]. split; [constructor|]. split; [by exists 0%nat; constructor|].
  split; [|constructor]. intros n. cbn. split; set_solver.
Qed.

(** The single free buffer of a fresh region. *)
Section fresh.
Context (v : bool) (area size off : Z) (x : binder_buffer) (m : gmap Z rb_node) (pgs : list bool) (sp : Z).
Context (Hx : free x = true) (Ha : 0 < area /\ area mod 4096 = 0) (Hs : 0 < size /\ size mod 4096 = 0).
Context (Htop : area + size <= 2 ^ 32 - 4096) (Hlen : 4096 * len pgs = size).
Context (Hpg : forall i, 0 <= i < len pgs -> (zget pgs i = Some true <-> i = 0)).

Definition fresh_proc (m : gmap Z rb_node) (f : Z) : binder_proc :=
  Proc v area size off [area] {[area := x]} m f NULL pgs sp.

Lemma fresh_core : is_Some (m !! (area + 8)) -> core (fresh_proc m NULL) ∅ ∅ (fkey (fresh_proc m NULL)).
Proof.
  intros Hm. split; try done.
  - destruct Ha, Hs. cbn. unfold region_end. cbn. split; [|split; [|done]]; Z.to_euclidean_division_equations; lia.
  - intros b. cbn. rewrite list_elem_of_singleton, lookup_singleton_is_Some. done.
  - intros b Hb. apply list_elem_of_singleton in Hb as ->. exact Hm.
  - apply index_empty.
  - apply index_empty.
Qed.

Lemma fresh_flag f m' b : flag (fresh_proc m' f) b = if decide (b = area) then Some true else None.
Proof.
  unfold flag. cbn. case_decide as Hb; [subst b|].
  - rewrite lookup_singleton_eq. cbn. by rewrite Hx.
  - by rewrite lookup_singleton_ne.
Qed.

Lemma fresh_inv f m' :
  core (fresh_proc m' f) {[area + 8]} ∅ (fkey (fresh_proc m' f)) -> sp = size / 2 ->
  binv (fresh_proc m' f) {[area + 8]} ∅.
Proof.
  intros Hc Hsp. split; [done|..].
  - split; intros n; rewrite fresh_flag.
    + rewrite elem_of_singleton. case_decide; split; try done; lia.
    + case_decide; split; try done; set_solver.
  - intros i Hi. cbn in Hi. cbn [pages fresh_proc buffers]. rewrite (Hpg i Hi). unfold region_end, page. cbn.
    split.
    + intros ->. exists area, (area + size). split; [apply list_elem_of_singleton; done|]. left. unfold hits. lia.
    + intros (b & e & Hin & Hor). apply list_elem_of_singleton in Hin. injection Hin as -> ->.
      destruct Hor as [Hh|[Hal _]]; [unfold hits in Hh; lia|].
      unfold al_of in Hal. rewrite fresh_flag, decide_True in Hal by done. done.
  - done.
  - intros b y Hb Hy. cbn in Hb. apply lookup_singleton_Some in Hb as [-> <-]. congruence.
  - destruct Hs. split; cbn; rewrite Hsp; [unfold is_u32; Z.to_euclidean_division_equations; lia|].
    rewrite lookup_singleton_eq. unfold acost. rewrite Hx. cbn. lia.
Qed.
End fresh.

Lemma first_page env p :
  region p -> pages p = replicate (length (pages p)) false ->
  (exists pgs, binder_update_page_range env true (buffer p) (buffer p +u PAGE_SIZE) true p = Some (0, set_pages pgs p) /\
     length pgs = length (pages p) /\ forall i, 0 <= i < len pgs -> (zget pgs i = Some true <-> i = 0)) \/
  binder_update_page_range env true (buffer p) (buffer p +u PAGE_SIZE) true p = Some (- ENOMEM, p) /\
    page_ok env (buffer p) = false.
Proof.
  intros Hr Hnone. pose proof Hr as [[R1 R1'] [R2 R2'] R3 R4]. unfold binder_update_page_range, PAGE_SIZE.
  assert (Hall : forall i, 0 <= i < len (pages p) -> zget (pages p) i = Some false).
  { intros i Hi. rewrite zget_lookup, Hnone by lia. apply lookup_replicate_2. lia. }
  assert (Hp1 : 1 <= len (pages p)) by lia.
  rewrite u32_id by (unfold is_u32; Z.to_euclidean_division_equations; lia).
  destruct (Z.leb_spec (buffer p + 4096) (buffer p)); [lia|]. cbn [negb].
  pose proof (alloc_pages_ok (S (length (pages p))) env p 0 0 1 (pages p) Hr eq_refl) as Hp.
  rewrite fill_empty in Hp by lia. unfold page in Hp. rewrite Z.mul_0_r, Z.mul_1_r, Z.add_0_r in Hp.
  destruct Hp as [->|[-> (i & Hi & Hok)]]; try lia.
  - intros i Hi. apply Hall. lia.
  - left. exists (fill 0 1 true (pages p)). split; [done|]. split; [by rewrite len_fill|]. intros i Hi. rewrite len_fill in Hi.
    rewrite zget_fill, Hall by lia. destruct (Z.leb_spec 0 i), (Z.ltb_spec i 1); cbn; split; try done; lia.
  - right. rewrite obind. cbn [fst snd]. rewrite set_pages_same. split; [done|].
    replace i with 0 in Hok by lia. unfold page in Hok. by rewrite Z.mul_0_r, Z.add_0_r in Hok.
Qed.

(** A mapping succeeds with the invariant established, or fails for one of the reasons
    the code knows and leaves the process unmapped. *)
Lemma mmap_ok env vm_start vm_end vm_flags area kzalloc_ok p :
  unmapped p -> vm_ok vm_start vm_end area ->
  exists r q, binder_mmap env vm_start vm_end vm_flags area kzalloc_ok p = Some (r, q) /\
    ((r = 0 /\ binv q {[area + 8]} ∅ /\ vma q = true /\ buffer q = area /\
      buffer_size q = Z.min (vm_end - vm_start) SZ_4M /\ user_buffer_offset q = vm_start -u area) \/
     (map_error env vm_flags area kzalloc_ok p r /\ unmapped q)).
Proof.
  intros [U1 U2 U3 U4 U5] [[V1 V2] [V3 V4] V5]. unfold binder_mmap, map_error, FORBIDDEN_MMAP_FLAGS.
  set (e := if SZ_4M <? vm_end -u vm_start then _ else _).
  assert (He : e -u vm_start = Z.min (vm_end - vm_start) SZ_4M).
  { unfold e. rewrite (u32_id (vm_end - vm_start)) by (unfold is_u32; lia). unfold SZ_4M.
    destruct (Z.ltb_spec 4194304 (vm_end - vm_start)); rewrite ?(u32_id (vm_start + 4194304)) by (unfold is_u32; lia);
      rewrite u32_id by (unfold is_u32; lia); lia. }
  rewrite He. set (size := Z.min (vm_end - vm_start) SZ_4M) in *.
  assert (Hsz : 0 < size /\ size mod 4096 = 0).
  { unfold size, SZ_4M. clear -V1 V2 V3. destruct (Z.min_spec (vm_end - vm_start) 4194304) as [[_ ->]|[_ ->]].
    - Z.to_euclidean_division_equations; lia.
    - done. }
  clearbody size e. destruct (Z.eqb_spec (Z.land vm_flags VM_WRITE) 0); cbn [negb]; [|by eexists _, p; split; [|right; split; [left|]]].
  rewrite U2. cbn [negb Z.eqb NULL]. change (NULL =? NULL) with true. cbn [negb].
  destruct (Z.eqb_spec area NULL) as [->|Hnz]; [exists (- ENOMEM), p; split; [done|]; right; split; [tauto|by split]|].
  destruct V5 as [?|(A1 & A2 & A3)]; [done|].
  destruct kzalloc_ok; cbn [negb]; [|eexists _, _; split; [done|]; right; split; [tauto|by split]].
  set (p1 := Proc _ _ _ _ _ _ _ _ _ _ _). assert (Hlen : 4096 * len (pages p1) = size).
  { unfold p1, PAGE_SIZE. cbn. rewrite length_replicate. Z.to_euclidean_division_equations; lia. }
  assert (Hreg : region p1) by (by split).
  destruct (first_page env p1 Hreg) as [(pgs & Hu & Hl & Hpg)|[Hu Hok]];
    [unfold p1; cbn; by rewrite length_replicate| |].
  - change (buffer p1) with area in Hu. rewrite Hu, obind. cbn [Z.eqb negb]. cbn [fst snd].
    rewrite (u32_id (area + rb_off)) by (unfold is_u32, rb_off; lia). unfold rb_off.
    set (x := Buffer _ _ _ _ _). set (p2 := set_trees _ _ _ _).
    assert (Hp2 : p2 = fresh_proc (vma p) area size (vm_start -u area) x pgs (free_async_space p)
      (<[area + 8 := RbNode 0 0 0]> (nodes p)) NULL).
    { unfold p2, fresh_proc, set_trees, set_hdr, set_buffers, set_pages, p1. cbn. by rewrite U3, U4, U5. }
    clearbody p2. subst p2.
    assert (Hlen' : 4096 * len pgs = size) by (rewrite Hl; done).
    pose proof (fresh_core (vma p) area size (vm_start -u area) x (<[area + 8 := RbNode 0 0 0]> (nodes p)) pgs
      (free_async_space p) ltac:(done) Hsz A3 Hlen' ltac:(by rewrite lookup_insert_eq)) as Hc.
    destruct (insert_free_ok _ _ _ _ Hc area eq_refl) as (m & f & Hi & Hc1);
      [by rewrite fresh_flag, decide_True|set_solver|].
    rewrite Hi, obind. eexists 0, _. split; [done|]. left. split; [done|]. split; [|done].
    rewrite union_empty_r_L in Hc1.
    eapply (fresh_inv true area size (vm_start -u area) x pgs (size / 2)); try done.
    cbn in Hc1. destruct Hc1 as [C1 C2 C3 C4 C5 C6 C7 C8 C9]. by split.
  - change (buffer p1) with area in *. rewrite Hu, obind. cbn [Z.eqb negb].
    change (negb (- ENOMEM =? 0)) with true. cbn [fst snd]. eexists _, _. split; [done|]. right.
    split; [tauto|by split].
Qed.

(** ** The end of a process *)

Definition allocated (p : binder_proc) : list Z := filter (fun b => flag p b = Some false) (buffers p).

Lemma allocated_size p F A : binv p F A -> size A = length (allocated p).
Proof.
  intros [Hc [HF HA] _ _ _ _].
  assert (Heq : A = list_to_set ((fun b => b + 8) <$> allocated p)).
  { apply set_eq. intros n. rewrite HA, elem_of_list_to_set, list_elem_of_fmap. unfold allocated. split.
    - intros H. exists (n - 8). split; [lia|]. apply list_elem_of_filter. split; [done|]. by eapply core_flag_in.
    - intros (b & -> & [Hb _]%list_elem_of_filter). by replace (b + 8 - 8) with b by lia. }
  rewrite Heq, size_list_to_set, length_fmap; [done|]. apply NoDup_fmap; [intros ???; lia|].
  apply NoDup_filter, (chain_nodup _ _ (co_chain _ _ _ _ Hc)).
Qed.

(** The first node of the allocated index, if there is one. *)
Lemma first_allocated p F A :
  core p F A (fkey p) ->
  exists n, on_allocated (rb_first RB_FUEL) p = Some (n, p) /\
    ((n = NULL /\ A = ∅) \/ (n ∈ A /\ nonnull n = true)).
Proof.
  intros Hc. destruct (index_reps _ _ _ _ (co_A _ _ _ _ Hc)) as (t & Hs & Hi & HS & _ & Hf).
  destruct (walk_ok RB_FUEL _ _ _ Hs Hi Hf) as (Hfirst & _). exists (first_of (ids t)).
  unfold on_allocated. rewrite Hfirst. split; [by destruct p|].
  destruct (ids t) as [|n l] eqn:E; cbn; [left; split; [done|]|right].
  - apply set_eq. intros n. rewrite <- HS. set_solver.
  - assert (Hn : n ∈ A) by (apply HS; set_solver). split; [done|].
    destruct (core_A_in _ _ _ _ Hc n Hn) as [Hin _]. pose proof (core_addr _ _ _ _ Hc _ Hin).
    unfold nonnull, NULL. apply negb_true_iff, Z.eqb_neq. lia.
Qed.

Lemma same_map_trans p q s : same_map p q -> same_map q s -> same_map p s.
Proof. intros (A1 & A2 & A3 & A4) (B1 & B2 & B3 & B4). unfold same_map. by rewrite B1, B2, B3, B4. Qed.

Lemma release_ok fuel env c p F A :
  binv p F A -> (size A < fuel)%nat ->
  exists q F', release_buffers fuel env c p = Some (c + Z.of_nat (size A), q) /\ binv q F' ∅ /\ same_map p q.
Proof.
  revert c p F A. induction fuel as [|fuel IH]; intros c p F A Hinv Hf; [lia|]. cbn [release_buffers].
  destruct (first_allocated p F A (bv_core _ _ _ Hinv)) as (n & -> & Hn). rewrite obind. cbn [fst].
  destruct Hn as [[-> ->]|[Hn Hnn]].
  - exists p, F. rewrite size_empty, Z.add_0_r. done.
  - rewrite Hnn. destruct (core_A_in _ _ _ _ (bv_core _ _ _ Hinv) n Hn) as [Hin Hn8].
    destruct (core_node _ _ _ _ (bv_core _ _ _ Hinv) _ Hin) as (_ & _ & Hsub). rewrite <- Hn8 in Hsub. rewrite Hsub.
    pose proof (co_Af _ _ _ _ (bv_core _ _ _ Hinv) n Hn) as Hfl.
    destruct (flag_hdr _ _ _ Hfl) as (x & Hx & Hfx). rewrite Hx, obind.
    destruct (clear_ok env p F A (n - 8) x Hinv Hx Hfx) as (q & F' & Hq & Hqi & Hm & _). rewrite <- Hn8 in Hqi.
    assert (Hsz : size A = S (size (A ∖ {[n]}))).
    { rewrite size_difference, size_singleton by set_solver.
      assert (size A <> 0%nat) by (intros H%size_empty_inv; set_solver). lia. }
    destruct (IH (c + 1) q F' _ Hqi ltac:(lia)) as (s & F2 & Hs & Hsi & Hsm).
    exists s, F2. split; [|split; [done|by eapply same_map_trans]].
    destruct (if nonnull (transaction x) then _ else _) as [p1|]; [|done]. rewrite obind in Hq. rewrite obind. rewrite Hq, obind.
    rewrite Hs. do 2 f_equal. lia.
Qed.

(** A region without allocated buffers is one free buffer, on one page. *)
Lemma idle_region p F :
  binv p F ∅ -> buffers p = [buffer p] /\ flag p (buffer p) = Some true /\
  forall i, 0 <= i < len (pages p) -> (zget (pages p) i = Some true <-> i = 0).
Proof.
  intros [Hc [HF HA] Hpg Hco Hfit Has].
  assert (Hall : forall b, b ∈ buffers p -> flag p b = Some true).
  { intros b Hb. destruct (proj2 (co_hdr _ _ _ _ Hc b) Hb) as [x Hx].
    assert (Hfl : flag p b = Some (free x)) by (unfold flag; by rewrite Hx).
    destruct (free x); [done|]. exfalso.
    assert (b + 8 ∈ (∅ : gset Z)) by (apply HA; by replace (b + 8 - 8) with b by lia). set_solver. }
  pose proof (co_head _ _ _ _ Hc) as Hhd. destruct (co_region _ _ _ _ Hc) as [[R1 R1'] [R2 R2'] R3 R4].
  assert (Hb : buffers p = [buffer p]).
  { destruct (buffers p) as [|b [|c l]] eqn:E; cbn [hd_or] in Hhd; [unfold NULL in Hhd; lia|by subst|].
    unfold coalesced in Hco. rewrite E in Hco. cbn [coal] in Hco. unfold is_free in Hco.
    rewrite (Hall b), (Hall c) in Hco by set_solver. done. }
  assert (Hfl : flag p (buffer p) = Some true) by (apply Hall; rewrite Hb; set_solver).
  split; [done|]. split; [done|]. intros i Hi. rewrite (Hpg i Hi), Hb. unfold region_end, page. split.
  - intros (b & e & Hin & Hor). apply list_elem_of_singleton in Hin. injection Hin as -> ->.
    destruct Hor as [Hh|[Hal _]]; [unfold hits in Hh; lia|]. unfold al_of in Hal. by rewrite Hfl in Hal.
  - intros ->. eexists (buffer p), _. split; [by apply list_elem_of_singleton|]. left. unfold hits. lia.
Qed.

Lemma release_pages_none fuel p i c :
  region p -> 0 <= i <= len (pages p) -> (forall j, i <= j < len (pages p) -> zget (pages p) j = Some false) ->
  (Z.to_nat (len (pages p) - i) < fuel)%nat -> release_pages fuel p i c = Some c.
Proof.
  intros [_ _ _ R4]. assert (Hn : buffer_size p / PAGE_SIZE = len (pages p)).
  { unfold PAGE_SIZE. rewrite <- R4. rewrite Z.mul_comm. by apply Z.div_mul. }
  revert i. induction fuel as [|fuel IH]; intros i Hi Hall Hf; [lia|]. cbn [release_pages]. rewrite Hn.
  destruct (Z.ltb_spec i (len (pages p))); [|done]. rewrite Hall, obind by lia. cbn. apply IH; [lia| |lia].
  intros j Hj. apply Hall. lia.
Qed.

Lemma release_pages_one p :
  region p -> (forall i, 0 <= i < len (pages p) -> (zget (pages p) i = Some true <-> i = 0)) ->
  release_pages (S (length (pages p))) p 0 0 = Some 1.
Proof.
  intros Hr Hpg. pose proof Hr as [_ [R2 R2'] _ R4]. assert (Hn : buffer_size p / PAGE_SIZE = len (pages p)).
  { unfold PAGE_SIZE. rewrite <- R4. rewrite Z.mul_comm. by apply Z.div_mul. }
  cbn [release_pages]. rewrite Hn. destruct (Z.ltb_spec 0 (len (pages p))); [|lia].
  rewrite (proj2 (Hpg 0 ltac:(lia)) eq_refl), obind. apply release_pages_none; [done|lia| |lia].
  intros j Hj. destruct (zget_is_Some (pages p) j ltac:(lia)) as [[] Hx]; [|done].
  apply Hpg in Hx; [lia|lia].
Qed.

(** ** The layout is determined by the allocated buffers *)

Lemma layout_unique frp frq szp szq e l1 l2 :
  chain l1 e -> chain l2 e -> hd_or l1 e = hd_or l2 e -> coal frp false l1 = true -> coal frq false l2 = true ->
  (forall y, y ∈ l1 /\ frp y = false <-> y ∈ l2 /\ frq y = false) ->
  (forall y, y ∈ l1 -> frp y = false -> szp y = szq y) ->
  (forall b e', (b, e') ∈ blk l1 e -> e' = b + 40 + szp b) -> (forall b e', (b, e') ∈ blk l2 e -> e' = b + 40 + szq b) ->
  l1 = l2.
Proof.
  revert l2. induction l1 as [|b l1 IH]; intros l2 C1 C2 Hhd K1 K2 Hal Hsz B1 B2.
  { destruct l2 as [|c l2]; [done|]. cbn [hd_or] in Hhd. pose proof (chain_upper _ _ c C2 ltac:(set_solver)). lia. }
  destruct l2 as [|b' l2]; cbn [hd_or] in Hhd; [pose proof (chain_upper _ _ b C1 ltac:(set_solver)); lia|]. subst b'.
  f_equal. pose proof (chain_nodup _ _ C1) as N1. pose proof (chain_nodup _ _ C2) as N2.
  apply NoDup_cons in N1 as [N1 _]. apply NoDup_cons in N2 as [N2 _].
  assert (Hal' : forall y, y ∈ l1 /\ frp y = false <-> y ∈ l2 /\ frq y = false).
  { intros y. destruct (decide (y = b)) as [->|Hy]; [split; intros [? _]; done|]. specialize (Hal y). set_solver. }
  assert (Hb : frp b = frq b).
  { specialize (Hal b). destruct (frp b), (frq b); try done; set_solver. }
  pose proof (chain_lower b l1 e) as L1. pose proof (chain_lower b l2 e) as L2.
  cbn [chain coal] in C1, C2, K1, K2. destruct C1 as (_ & _ & C1), C2 as (_ & _ & C2).
  rewrite andb_false_l in K1, K2. cbn [negb andb] in K1, K2.
  apply IH; try done.
  - destruct (frp b) eqn:E.
    + (* [b] is free: what follows it is allocated, on both sides *)
      rewrite <- Hb in K2. clear -K1 K2 Hal' C1 C2.
      assert (Hle : forall fr fr' k k', coal fr true k = true -> chain k' e ->
        (forall y, y ∈ k /\ fr y = false -> y ∈ k' /\ fr' y = false) -> hd_or k' e <= hd_or k e).
      { intros fr fr' k k' Hk Hc H. destruct k as [|c k]; [by apply chain_hd|]. cbn [coal andb] in Hk.
        destruct (fr c) eqn:Ec; [done|]. destruct (H c) as [Hc' _]; [set_solver|]. cbn [hd_or].
        destruct k' as [|d k']; [set_solver|]. cbn [hd_or]. apply elem_of_cons in Hc' as [->|Hin]; [lia|].
        pose proof (chain_lower _ _ _ _ Hc Hin). lia. }
      pose proof (Hle frp frq l1 l2 K1 C2 (fun y => proj1 (Hal' y))).
      pose proof (Hle frq frp l2 l1 K2 C1 (fun y => proj2 (Hal' y))). lia.
    + rewrite (B1 b (hd_or l1 e)), (B2 b (hd_or l2 e)), (Hsz b) by (cbn [blk]; set_solver). done.
  - by eapply coal_weaken.
  - by eapply coal_weaken.
  - intros y Hy. apply Hsz. set_solver.
  - intros c e' Hc. apply B1. cbn [blk]. set_solver.
  - intros c e' Hc. apply B2. cbn [blk]. set_solver.
Qed.

Lemma blk_mid l e b e' : (b, e') ∈ blk l e -> exists l1 r, l = l1 ++ b :: r /\ e' = hd_or r e.
Proof.
  induction l as [|c l IH]; cbn [blk]; [set_solver|]. intros [Heq|Hin]%elem_of_cons.
  - injection Heq as -> ->. by exists [], l.
  - destruct (IH Hin) as (l1 & r & -> & ->). by exists (c :: l1), r.
Qed.

Lemma blk_psize p F A b e' : core p F A (fkey p) -> (b, e') ∈ blk (buffers p) (region_end p) -> e' = b + 40 + psize p b.
Proof.
  intros Hc Hin. destruct (blk_mid _ _ _ _ Hin) as (l & r & Hb & ->).
  pose proof (co_chain _ _ _ _ Hc) as Hch. rewrite Hb in Hch. apply chain_split in Hch as (_ & _ & Hl & _).
  unfold psize. rewrite Hb, size_mid by done. lia.
Qed.

(** Two states with the same allocated buffers have the same chain, flags and pages. *)
Lemma same_layout p q F A F' A' :
  binv p F A -> binv q F' A' -> same_map p q ->
  (forall y, flag q y = Some false <-> flag p y = Some false) ->
  (forall y, flag p y = Some false -> psize q y = psize p y) ->
  buffers q = buffers p /\ pages q = pages p /\ forall y, flag q y = flag p y.
Proof.
  intros Hp Hq (_ & M2 & M3 & _) Hfl Hsz. pose proof (bv_core _ _ _ Hp) as Cp. pose proof (bv_core _ _ _ Hq) as Cq.
  assert (Hend : region_end q = region_end p) by (unfold region_end; congruence).
  assert (Hal : forall s F A, core s F A (fkey s) -> forall y, y ∈ buffers s /\ is_free s y = false <-> flag s y = Some false).
  { intros s G B Hc y. unfold is_free. split.
    - intros [Hin Hf]. destruct (proj2 (co_hdr _ _ _ _ Hc y) Hin) as [x Hx]. unfold flag in *. rewrite Hx in *. cbn in *. by rewrite Hf.
    - intros Hf. rewrite Hf. split; [by eapply core_flag_in|done]. }
  assert (Hb : buffers q = buffers p).
  { symmetry. apply (layout_unique (is_free p) (is_free q) (psize p) (psize q) (region_end p)).
    - apply (co_chain _ _ _ _ Cp).
    - rewrite <- Hend. apply (co_chain _ _ _ _ Cq).
    - pose proof (co_head _ _ _ _ Cp) as H1. pose proof (co_head _ _ _ _ Cq) as H2.
      destruct (co_region _ _ _ _ Cp) as [[R1 _] _ _ _].
      destruct (buffers p), (buffers q); cbn [hd_or] in *; unfold NULL in *; congruence || lia.
    - apply (bv_coal _ _ _ Hp).
    - apply (bv_coal _ _ _ Hq).
    - intros y. rewrite (Hal p F A Cp), (Hal q F' A' Cq). by rewrite Hfl.
    - intros y Hy Hf. symmetry. apply Hsz. by apply (Hal p F A Cp).
    - intros b e'. by apply (blk_psize p F A).
    - intros b e'. rewrite <- Hend. by apply (blk_psize q F' A'). }
  assert (Hflag : forall y, flag q y = flag p y).
  { intros y. assert (Hin : flag q y = None <-> flag p y = None).
    { unfold flag. rewrite !fmap_None, !eq_None_not_Some. rewrite (co_hdr _ _ _ _ Cp y), (co_hdr _ _ _ _ Cq y). by rewrite Hb. }
    specialize (Hfl y). destruct (flag q y) as [[]|], (flag p y) as [[]|]; try done; exfalso;
      (apply proj1 in Hfl; specialize (Hfl eq_refl); done) || (apply proj2 in Hfl; specialize (Hfl eq_refl); done) ||
      (apply proj1 in Hin; specialize (Hin eq_refl); done) || (apply proj2 in Hin; specialize (Hin eq_refl); done). }
  split; [done|]. split; [|done].
  assert (Hlen : len (pages q) = len (pages p)).
  { destruct (co_region _ _ _ _ Cp) as [_ _ _ R4], (co_region _ _ _ _ Cq) as [_ _ _ R4']. lia. }
  apply zget_ext. intros i Hi. destruct (Z.lt_ge_cases i (len (pages p))) as [Hlt|Hge].
  - pose proof (bv_pages _ _ _ Hp i ltac:(lia)) as P1. pose proof (bv_pages _ _ _ Hq i ltac:(lia)) as P2.
    assert (Hn : need (al_of q) (buffers q) (region_end q) (page q i) <-> need (al_of p) (buffers p) (region_end p) (page p i)).
    { unfold page. rewrite Hb, Hend, M2. split; apply need_ext; intros y _; unfold al_of; by rewrite Hflag. }
    destruct (zget_is_Some (pages p) i ltac:(lia)) as [v1 E1], (zget_is_Some (pages q) i ltac:(lia)) as [v2 E2].
    rewrite E1 in *. rewrite E2 in *. destruct v1, v2; try done; exfalso; naive_solver.
  - unfold zget. destruct (Z.leb_spec 0 i); [|done]. rewrite !lookup_ge_None_2 by lia. done.
Qed.

(** Allocation and release undo each other. *)
Lemma alloc_free_same p F A q ds os async b x s F2 A2 :
  binv p F A -> granted p q ds os async b ->
  hdr q !! b = Some x -> binv s F2 A2 -> released q s b x ->
  buffers s = buffers p /\ pages s = pages p /\ free_async_space s = free_async_space p /\
  (forall y, flag s y = flag p y) /\ (forall y, flag p y = Some false -> hdr s !! y = hdr p !! y).
Proof.
  intros Hp (Hfb & _ & _ & (x0 & _ & Hqb) & _ & Hoth & Hm & Hal & _ & Has) Hx Hs (Hm' & Hal' & Hk & _ & Has').
  assert (Hne : forall y, flag p y = Some false -> y <> b) by (intros y Hy ->; congruence).
  assert (Hstep : forall y, flag p y = Some false -> hdr s !! y = hdr p !! y /\ psize s y = psize p y).
  { intros y Hy. destruct (Hk y) as [-> ->]; [apply Hal; by left|by apply Hne|].
    apply Hoth; [by apply Hne|]. by eapply core_flag_in; [apply Hp|]. }
  destruct (same_layout p s F A F2 A2 Hp Hs (same_map_trans _ _ _ Hm Hm')) as (H1 & H2 & H3).
  - intros y. rewrite Hal', Hal. split; [intros [[?|?] ?]; tauto|]. intros Hy. split; [by left|by apply Hne].
  - intros y Hy. by apply Hstep.
  - split; [done|]. split; [done|]. split; [|split; [done|]].
    + rewrite Has', Has. rewrite Hqb in Hx. injection Hx as <-. cbn. unfold req_of. cbn. destruct async; lia.
    + intros y Hy. by apply Hstep.
Qed.

(** ** Reachable states *)

(** [binder_open]: the structure is zeroed. *)
Definition opened : binder_proc := Proc false NULL 0 0 [] ∅ ∅ NULL NULL [] 0.

Inductive step (p : binder_proc) : binder_proc -> Prop :=
| step_mmap env vm_start vm_end vm_flags area kzalloc_ok r q :
    vm_ok vm_start vm_end area -> binder_mmap env vm_start vm_end vm_flags area kzalloc_ok p = Some (r, q) -> step p q
| step_vma_close : step p (binder_vma_close p)
| step_alloc env ds os async b q :
    is_u32 ds -> is_u32 os -> binder_alloc_buf env ds os async p = Some (b, q) -> step p q
| step_transaction t b x q :
    hdr p !! b = Some x -> free x = false -> set_transaction t b p = Some q -> step p q
| step_free env b x q :
    hdr p !! b = Some x -> free x = false -> transaction x = NULL -> binder_free_buf env b p = Some q -> step p q
| step_user_free env user allow_user_free target_node todo r q :
    bc_free_buffer env user allow_user_free target_node todo p = Some (r, q) -> step p q.

Inductive reach : binder_proc -> Prop :=
| reach_open : reach opened
| reach_step p q : reach p -> step p q -> reach q.

(** The request of an allocated buffer did not overflow. *)
Definition sized (p : binder_proc) : Prop :=
  forall b x, hdr p !! b = Some x -> free x = false -> data_size x + offsets_size x <= req_of x.

Definition good (p : binder_proc) : Prop := unmapped p \/ (sized p /\ exists F A, binv p F A).

(** Operations on a process that mapped nothing. *)
Lemma lookup_null fuel h k s : lookup_loop (S fuel) h k NULL s = Some (NULL, s).
Proof. done. Qed.

Lemma unmapped_lookup p ptr : unmapped p -> binder_buffer_lookup ptr p = Some NULL.
Proof.
  intros [U1 U2 U3 U4 U5]. unfold binder_buffer_lookup, on_allocated. erewrite run_bind by done.
  cbn [rb_root]. rewrite U4. by rewrite (lookup_null 66).
Qed.

Lemma unmapped_free env user allow target todo p : unmapped p ->
  bc_free_buffer env user allow target todo p = Some (NoEffect (if user then 0 else - EFAULT), p).
Proof.
  intros H. unfold bc_free_buffer, bc_free_find. destruct user as [ptr|]; [|done].
  rewrite (unmapped_lookup p ptr H). done.
Qed.

Lemma unmapped_alloc env ds os async p : unmapped p -> binder_alloc_buf env ds os async p = Some (NULL, p).
Proof. intros [U1 _ _ _ _]. unfold binder_alloc_buf. by rewrite U1. Qed.

Lemma unmapped_release env fuel c p : unmapped p -> release_buffers (S fuel) env c p = Some (c, p).
Proof.
  intros [U1 U2 U3 U4 U5]. cbn [release_buffers]. unfold on_allocated, rb_first. erewrite run_bind by done.
  cbn [rb_root]. rewrite U4. unfold nonnull at 1. cbn. by destruct p; cbn in *; subst.
Qed.

(** A second mapping is refused. *)
Lemma remap_refused env vm_start vm_end vm_flags area kz p F A :
  binv p F A -> exists r, (r = - EPERM \/ r = - EBUSY) /\ binder_mmap env vm_start vm_end vm_flags area kz p = Some (r, p).
Proof.
  intros Hinv. destruct (co_region _ _ _ _ (bv_core _ _ _ Hinv)) as [[R1 _] _ _ _]. unfold binder_mmap.
  destruct (negb (Z.land vm_flags FORBIDDEN_MMAP_FLAGS =? 0)); [eexists; split; [by left|done]|].
  rewrite (proj2 (Z.eqb_neq (buffer p) NULL)) by (unfold NULL; lia). cbn [negb]. eexists. split; [by right|done].
Qed.

Lemma sized_released p q b x : sized p -> released p q b x -> sized q.
Proof.
  intros Hs (_ & Hal & Hk & _) y z Hy Hz.
  assert (Hf : flag q y = Some false) by (unfold flag; rewrite Hy; cbn; by rewrite Hz).
  apply Hal in Hf as [Hf Hyb]. destruct (Hk y Hf Hyb) as [Hh _]. rewrite Hh in Hy. by apply (Hs y z).
Qed.

Lemma sized_granted p q ds os async b F A : core p F A (fkey p) -> sized p -> granted p q ds os async b -> sized q.
Proof.
  intros Hc Hs (_ & _ & _ & (x & _ & Hqb) & _ & Hoth & _ & Hal & Hroom & _) y z Hy Hz.
  assert (Hf : flag q y = Some false) by (unfold flag; rewrite Hy; cbn; by rewrite Hz).
  destruct (decide (y = b)) as [->|Hyb]; [rewrite Hqb in Hy; injection Hy as <-; exact Hroom|].
  apply Hal in Hf as [Hf|?]; [|done]. destruct (Hoth y Hyb) as [Hh _]; [by eapply core_flag_in|].
  rewrite Hh in Hy. by apply (Hs y z).
Qed.

Lemma step_good p q : good p -> step p q -> good q.
Proof.
  intros [Hu|[Hsz (F & A & Hinv)]] Hstep; destruct Hstep as
    [env vs ve fl area kz r q Hvm He| |env ds os async b q Hds Hos He|t b x q Hx Hf He|env b x q Hx Hf Ht He|env u al tg td r q He].
  - destruct (mmap_ok env vs ve fl area kz p Hu Hvm) as (r' & q' & He' & [(_ & Hi & _)|[_ Hun]]);
      rewrite He' in He; injection He as <- <-; [|by left]. right. split; [|by eexists _, _].
    intros b x Hb Hx. pose proof (bv_marks _ _ _ Hi) as [_ HA]. specialize (HA (b + 8)).
    assert (b + 8 ∈ (∅ : gset Z)); [|set_solver]. apply HA. replace (b + 8 - 8) with b by lia. unfold flag. rewrite Hb. cbn. by rewrite Hx.
  - left. destruct Hu. by split.
  - rewrite unmapped_alloc in He by done. injection He as <- <-. by left.
  - destruct Hu as [_ _ _ _ U5]. by rewrite U5, lookup_empty in Hx.
  - destruct Hu as [_ _ _ _ U5]. by rewrite U5, lookup_empty in Hx.
  - rewrite unmapped_free in He by done. injection He as <- <-. by left.
  - destruct (remap_refused env vs ve fl area kz p F A Hinv) as (r' & _ & He'). rewrite He' in He. injection He as <- <-.
    right. by eauto.
  - right. split; [done|]. exists F, A. destruct Hinv as [[C1 C2 C3 C4 C5 C6 C7 C8 C9] Hm Hpg Hco Hfit Has].
    split; try done. destruct C1. by split.
  - destruct (alloc_ok env p F A ds os async Hinv Hds Hos) as (b' & q' & F' & A' & He' & Hi & Hor).
    rewrite He' in He. injection He as <- <-. right. split; [|by eauto].
    destruct Hor as [(_ & -> & _)|[_ Hg]]; [done|]. eapply sized_granted; [apply Hinv|done|done].
  - destruct (set_transaction_ok p F A t b x Hinv Hx) as (q' & He' & Hi & _ & _ & _ & Hqb & Hoth).
    rewrite He' in He. injection He as <-. right. split; [|by eauto].
    intros y z Hy Hz. destruct (decide (y = b)) as [->|Hyb].
    + rewrite Hqb in Hy. injection Hy as <-. by apply (Hsz b x).
    + rewrite Hoth in Hy by done. by apply (Hsz y z).
  - destruct (free_ok env p F A b x Hinv Hx Hf Ht) as (q' & F' & He' & Hi & Hrel). rewrite He' in He. injection He as <-.
    right. split; [by eapply sized_released|by eauto].
  - pose proof (bc_free_step env u al tg td p F A Hinv) as H. rewrite He in H. destruct H as [Hfr Hi].
    right. split; [|done]. unfold user_freed in Hfr. cbn zeta in Hfr. destruct u; [|by destruct Hfr as [_ ->]].
    case_decide; [|by destruct Hfr as [_ ->]]. destruct Hfr as (x & _ & Hrel & _). by eapply sized_released.
Qed.

Lemma reach_good p : reach p -> good p.
Proof.
  induction 1 as [|p q _ IH Hs]; [|by eapply step_good]. left. by split.
Qed.

(** ** The properties *)

(** C5: Every state that mapping, unmapping, allocation, release, the command
    BC_FREE_BUFFER with any pointer and writes of the transaction field can reach is either
    unmapped or well formed: the headers tile the region, the free index is a red-black tree
    ordered by size of exactly the free buffers and the allocated index one ordered by address of
    exactly the allocated ones, a page is present iff a header or allocated data needs it, no
    two free buffers are neighbours, every allocated buffer holds its request without overflow,
    and the asynchronous space and what is charged to it add up to half the region. *)
Theorem binder_wellformed p : reach p -> good p.
Proof. exact (reach_good p). Qed.

(** C6: In every reachable state an allocated buffer lies inside the region, has room for the
    data and the offsets of its request, every byte of it is on a page that is present,
    and no other buffer overlaps it. *)
Theorem binder_buffers_safe p b x :
  reach p -> hdr p !! b = Some x -> free x = false ->
  exists n, binder_buffer_size p b = Some n /\ data_size x + offsets_size x <= n /\
    buffer p <= b /\ data b + n <= buffer p + buffer_size p /\
    (forall a, b <= a < data b + n -> zget (pages p) (page_index p a) = Some true) /\
    (forall c y m, c <> b -> hdr p !! c = Some y -> binder_buffer_size p c = Some m ->
       data c + m <= b \/ data b + n <= c).
Proof.
  intros Hr Hx Hf. apply reach_good in Hr as [[_ _ _ _ U5]|[Hsz (F & A & Hinv)]]; [by rewrite U5, lookup_empty in Hx|].
  pose proof Hinv as [Hc [HF HA] Hpg Hco Hfit Has].
  assert (Hin : b ∈ buffers p) by (apply (co_hdr _ _ _ _ Hc); by rewrite Hx).
  assert (Hfl : flag p b = Some false) by (unfold flag; rewrite Hx; cbn; by rewrite Hf).
  pose proof (core_addr _ _ _ _ Hc b Hin) as Hba. destruct (core_size _ _ _ _ Hc b Hin) as (Hs & Hs1 & Hs2).
  assert (Hdata : forall c, c ∈ buffers p -> data c = c + 40).
  { intros c Hcin. pose proof (core_addr _ _ _ _ Hc c Hcin). unfold data, sizeof_binder_buffer.
    apply u32_id. unfold is_u32. lia. }
  exists (psize p b). rewrite (Hdata b Hin). split; [done|]. pose proof (Hsz b x Hx Hf). pose proof (Hfit b x Hx Hf).
  unfold region_end in Hs2. split; [lia|]. split; [lia|]. split; [lia|].
  destruct (co_region _ _ _ _ Hc) as [[R1 R1'] [R2 R2'] R3 R4]. split.
  - intros a Ha. unfold page_index, PAGE_SIZE. rewrite u32_id by (unfold is_u32; lia). by eapply backed.
  - intros c y m Hne Hy Hm. assert (Hcin : c ∈ buffers p) by (apply (co_hdr _ _ _ _ Hc); by rewrite Hy).
    destruct (core_size _ _ _ _ Hc c Hcin) as (Hs' & _). rewrite Hs' in Hm. injection Hm as <-. rewrite (Hdata c Hcin).
    destruct (core_split _ _ _ _ Hc b Hin) as (l & r & Hb & Hbl & Hbr & Hch).
    pose proof (chain_split _ _ _ _ Hch) as (_ & _ & _ & _ & _ & Hhigh & _).
    assert (Hpb : psize p b = hd_or r (region_end p) - (b + 40)) by (unfold psize; rewrite Hb; by apply size_mid).
    rewrite Hb in Hcin. apply elem_of_app in Hcin as [Hl|[?|Hr]%elem_of_cons]; [left| |right]; [|done|].
    + apply list_elem_of_split in Hl as (l1 & l2 & ->). rewrite <- app_assoc in Hb, Hch. cbn [app] in Hb, Hch.
      pose proof (chain_split _ _ _ _ Hch) as (_ & _ & Hcl & _ & _ & Hup & _).
      unfold psize. rewrite Hb, size_mid by done. destruct (Hup b) as [Hh _]; [set_solver|]. lia.
    + destruct (Hhigh c Hr) as [Hh _]. lia.
Qed.

(** C7: Allocation always returns.  It grants the smallest free buffer that is large enough, marks
    it allocated with the request, leaves room for it, keeps the place and contents of every
    other buffer and charges the asynchronous space; or it returns NULL with nothing changed
    because nothing is mapped, the size overflows, the asynchronous space is short, every
    free buffer is too small, or the memory manager refused. *)
Theorem binder_alloc_correct env p ds os async :
  reach p -> is_u32 ds -> is_u32 os ->
  exists b q, binder_alloc_buf env ds os async p = Some (b, q) /\
    ((b = NULL /\ q = p /\ refused env p ds os async) \/ (b <> NULL /\ granted p q ds os async b)).
Proof.
  intros Hr Hds Hos. apply reach_good in Hr as [Hu|[_ (F & A & Hinv)]].
  - exists NULL, p. rewrite unmapped_alloc by done. split; [done|]. left. split; [done|]. split; [done|]. left. apply Hu.
  - destruct (alloc_ok env p F A ds os async Hinv Hds Hos) as (b & q & F' & A' & He & _ & Hor). by exists b, q.
Qed.

(** C8: Releasing an allocated buffer whose transaction is cleared trips no BUG_ON: afterwards
    exactly that buffer is no longer allocated, its bytes belong to a free buffer, the other
    allocated buffers keep their place, size and header, and the asynchronous space it was charged
    is back. *)
Theorem binder_free_correct env p b x :
  reach p -> hdr p !! b = Some x -> free x = false -> transaction x = NULL ->
  exists q, binder_free_buf env b p = Some q /\ released p q b x.
Proof.
  intros Hr Hx Hf Ht. apply reach_good in Hr as [[_ _ _ _ U5]|[_ (F & A & Hinv)]]; [by rewrite U5, lookup_empty in Hx|].
  destruct (free_ok env p F A b x Hinv Hx Hf Ht) as (q & F' & He & _ & Hrel). by exists q.
Qed.

(** Releasing what was just allocated restores the allocator: the chain of buffers, every
    flag, the page array, the asynchronous space and the headers of the allocated buffers are
    those from before the allocation. *)
Theorem binder_alloc_free_roundtrip env env' p ds os async b q :
  reach p -> is_u32 ds -> is_u32 os -> binder_alloc_buf env ds os async p = Some (b, q) -> b <> NULL ->
  exists q' s, set_transaction NULL b q = Some q' /\ binder_free_buf env' b q' = Some s /\
    buffers s = buffers p /\ pages s = pages p /\ free_async_space s = free_async_space p /\
    (forall y, flag s y = flag p y) /\ (forall y, flag p y = Some false -> hdr s !! y = hdr p !! y).
Proof.
  intros Hr Hds Hos He Hb. apply reach_good in Hr as [Hu|[_ (F & A & Hinv)]].
  { rewrite unmapped_alloc in He by done. injection He as <- <-. done. }
  destruct (alloc_ok env p F A ds os async Hinv Hds Hos) as (b' & q0 & F' & A' & He' & Hi & Hor).
  rewrite He' in He. injection He as -> ->. destruct Hor as [(-> & _)|[_ Hg]]; [done|].
  pose proof Hg as (_ & _ & _ & (x & _ & Hqb) & _).
  destruct (clear_free_ok env' q F' A' b _ Hi Hqb eq_refl) as (q' & s & F2 & Hq' & Hs & Hsi & Hrel).
  exists q', s. split; [done|]. split; [done|].
  apply (alloc_free_same p F A q ds os async b _ s F2 _ Hinv Hg Hqb Hsi Hrel).
Qed.

(** C9: BC_FREE_BUFFER, whatever the process passes: a fault on its argument is EFAULT and
    changes nothing; a pointer that is not the data of an allocated buffer handed to the process
    changes nothing; otherwise exactly the buffer whose data the process sees at that address is
    released, the transaction it belongs to forgets it, and if it carried an asynchronous
    transaction the next one waiting at the target node moves to the end of the thread's work list,
    or the node is no longer busy.  The address the process is given for a buffer finds it.  The
    allocator's BUG_ONs cannot be reached; the BUG_ON on [has_async_transaction] is not reached if
    the transaction code, which is not modelled, has marked the target node of every asynchronous
    buffer it hands out ([async_marked]).  The references of the objects in the buffer
    ([binder_transaction_buffer_release]) are outside the model. *)
Theorem binder_user_free_correct env user allow_user_free target_node todo p :
  reach p -> async_marked p allow_user_free target_node ->
  (exists r q, bc_free_buffer env user allow_user_free target_node todo p = Some (r, q) /\
     user_freed p user allow_user_free target_node todo r q) /\
  (forall b, is_u32 b -> kern_of p (data b +u user_buffer_offset p) = b).
Proof.
  intros Hr Hm. split.
  - apply reach_good in Hr as [Hu|[_ (F & A & Hinv)]].
    + do 2 eexists. rewrite unmapped_free by done. split; [done|]. unfold user_freed. cbn zeta.
      destruct user; [|done]. rewrite decide_False; [done|].
      intros [Hf _]. unfold flag in Hf. by rewrite (um_hdr _ Hu), lookup_empty in Hf.
    + pose proof (bc_free_step env user allow_user_free target_node todo p F A Hinv) as H.
      destruct (bc_free_buffer _ _ _ _ _ _) as [[r q]|]; [|done]. exists r, q. split; [done|apply H].
  - intros b Hb. unfold kern_of, data, sizeof_binder_buffer. clear Hr Hm. generalize (user_buffer_offset p). intros o.
    unfold u32, wrap, is_u32 in *. rewrite !Zminus_mod_idemp_l.
    rewrite Zplus_mod_idemp_l. replace (_ - o - 40) with ((b + 40 + o) mod 2 ^ 32 - (o + 40)) by lia.
    rewrite Zminus_mod_idemp_l, Z.mod_small; lia.
Qed.

(** C10: Mapping a region either succeeds, on an unmapped process, with a region that starts at the kernel
    area and has the length of the user mapping, at most 4 MB, seen by the process at its own address; or it fails with
    EPERM, EBUSY or ENOMEM for the reason the code knows, and a process that had a region keeps it unchanged. *)
Theorem binder_mmap_correct env vm_start vm_end vm_flags area kzalloc_ok p :
  reach p -> vm_ok vm_start vm_end area ->
  exists r q, binder_mmap env vm_start vm_end vm_flags area kzalloc_ok p = Some (r, q) /\
    ((r = 0 /\ unmapped p /\ vma q = true /\ buffer q = area /\ buffers q = [area] /\
      buffer_size q = Z.min (vm_end - vm_start) SZ_4M /\ user_buffer_offset q = vm_start -u area) \/
     (map_error env vm_flags area kzalloc_ok p r /\ (unmapped p -> unmapped q) /\ (buffer p <> NULL -> q = p))).
Proof.
  intros Hr Hvm. apply reach_good in Hr as [Hu|[_ (F & A & Hinv)]].
  - destruct (mmap_ok env vm_start vm_end vm_flags area kzalloc_ok p Hu Hvm) as (r & q & He & Hor).
    exists r, q. split; [done|]. destruct Hor as [(-> & Hi & Hv & Hb & Hs & Ho)|[Herr Hq]].
    + left. do 4 (split; [done|]). split; [|done]. destruct (idle_region _ _ Hi) as [-> _]. by rewrite Hb.
    + right. split; [done|]. split; [done|]. intros Hb. by destruct Hb, Hu.
  - destruct (co_region _ _ _ _ (bv_core _ _ _ Hinv)) as [[R1 _] _ _ _].
    assert (Hb : buffer p <> NULL) by (unfold NULL; lia).
    exists (if negb (Z.land vm_flags FORBIDDEN_MMAP_FLAGS =? 0) then - EPERM else - EBUSY), p.
    unfold binder_mmap, map_error, FORBIDDEN_MMAP_FLAGS. rewrite (proj2 (Z.eqb_neq (buffer p) NULL)) by done.
    destruct (Z.eqb_spec (Z.land vm_flags VM_WRITE) 0); cbn [negb]; (split; [done|]); right; (split; [tauto|by split; intros]).
Qed.

(** C11: At the end of a process the release loop finds and frees every allocated buffer,
    once each, whatever transactions still refer to them; what is left is the whole region as a
    single free buffer, and the loop over the pages frees exactly one page. *)
Theorem binder_release_correct env p :
  reach p -> buffer p <> NULL ->
  exists q, release_buffers (S (length (buffers p))) env 0 p = Some (Z.of_nat (length (allocated p)), q) /\
    buffers q = [buffer p] /\ flag q (buffer p) = Some true /\ allocated_buffers q = NULL /\
    release_pages (S (length (pages q))) q 0 0 = Some 1.
Proof.
  intros Hr Hb. apply reach_good in Hr as [Hu|[_ (F & A & Hinv)]]; [by destruct Hb, Hu|].
  pose proof (allocated_size p F A Hinv) as Hsz.
  assert (Hle : (length (allocated p) <= length (buffers p))%nat) by apply length_filter.
  destruct (release_ok (S (length (buffers p))) env 0 p F A Hinv ltac:(lia)) as (q & F' & He & Hi & (M1 & M2 & M3 & M4)).
  exists q. rewrite He, Hsz. split; [done|]. destruct (idle_region q F' Hi) as (H1 & H2 & H3). rewrite <- M2.
  split; [done|]. split; [done|]. pose proof (bv_core _ _ _ Hi) as Hc. split.
  - destruct (co_A _ _ _ _ Hc) as (t & _ & -> & _ & _ & _ & HS & _). destruct t as [|c l x r]; [done|].
    exfalso. assert (x ∈ (∅ : gset Z)); [|set_solver]. apply HS. cbn. set_solver.
  - by apply release_pages_one; [apply Hc|].
Qed.

(** ** A process that maps 64 KB and allocates two buffers *)

Definition demo_env : page_env :=
  PageEnv true (fun _ => true) (fun _ => true) (fun _ => true) (Buffer false false NULL 0 0).
Definition result {A} (r : option (A * binder_proc)) : binder_proc :=
  match r with Some (_, q) => q | None => opened end.
Definition demo_area : Z := 3489660928.
Definition demo_mapped : binder_proc :=
  result (binder_mmap demo_env 1073741824 1073807360 0 demo_area true opened).
Definition demo_one : binder_proc := result (binder_alloc_buf demo_env 100 8 false demo_mapped).
Definition demo_two : binder_proc := result (binder_alloc_buf demo_env 5000 0 true demo_one).

Lemma demo_vm : vm_ok 1073741824 1073807360 demo_area.
Proof. split; [done|done|]. right. by vm_compute. Qed.
Lemma demo_mapped_reach : reach demo_mapped.
Proof.
  eapply reach_step; [exact reach_open|].
  eapply (step_mmap _ demo_env 1073741824 1073807360 0 demo_area true 0); [exact demo_vm|]. vm_compute. reflexivity.
Qed.
Lemma demo_one_reach : reach demo_one.
Proof.
  eapply reach_step; [exact demo_mapped_reach|].
  eapply (step_alloc _ demo_env 100 8 false demo_area); [done|done|]. vm_compute. reflexivity.
Qed.
Lemma demo_two_reach : reach demo_two.
Proof.
  eapply reach_step; [exact demo_one_reach|].
  eapply (step_alloc _ demo_env 5000 0 true 3489661076); [done|done|]. vm_compute. reflexivity.
Qed.

Lemma binder_wellformed_witness : length (buffers demo_two) = 3%nat /\ good demo_two.
Proof. split; [reflexivity|]. apply binder_wellformed, demo_two_reach. Defined.

Lemma binder_buffers_safe_witness :
  exists n, binder_buffer_size demo_two 3489661076 = Some n /\ 5000 + 0 <= n.
Proof.
  destruct (binder_buffers_safe demo_two 3489661076 (Buffer false true NULL 5000 0) demo_two_reach)
    as (n & H1 & H2 & _); [vm_compute; reflexivity|reflexivity|]. exists n. split; [exact H1|exact H2].
Defined.

Lemma binder_alloc_correct_witness :
  exists b q, binder_alloc_buf demo_env 5000 0 true demo_one = Some (b, q) /\
    ((b = NULL /\ q = demo_one /\ refused demo_env demo_one 5000 0 true) \/ (b <> NULL /\ granted demo_one q 5000 0 true b)).
Proof. apply (binder_alloc_correct demo_env demo_one 5000 0 true demo_one_reach); done. Defined.

Lemma binder_free_correct_witness :
  exists q, binder_free_buf demo_env demo_area demo_two = Some q /\
    released demo_two q demo_area (Buffer false false NULL 100 8).
Proof. apply (binder_free_correct demo_env demo_two demo_area _ demo_two_reach); vm_compute; reflexivity. Defined.

Lemma binder_alloc_free_roundtrip_witness :
  exists q' s, set_transaction NULL 3489661076 demo_two = Some q' /\ binder_free_buf demo_env 3489661076 q' = Some s /\
    buffers s = [demo_area; 3489661076].
Proof.
  destruct (binder_alloc_free_roundtrip demo_env demo_env demo_one 5000 0 true 3489661076 demo_two demo_one_reach)
    as (q' & s & H1 & H2 & H3 & _); [done|done|vm_compute; reflexivity|done|].
  exists q', s. split; [exact H1|]. split; [exact H2|]. rewrite H3. vm_compute. reflexivity.
Defined.

(** The second buffer is asynchronous; its node has one more transaction waiting. *)
Definition demo_node (b : Z) : option async_node :=
  if b =? 3489661076 then Some (AsyncNode true [77]) else None.

Lemma binder_user_free_correct_witness :
  exists q, bc_free_buffer demo_env (Some (data 3489661076 +u user_buffer_offset demo_two)) (fun _ => true)
      demo_node [5] demo_two = Some (Detached NULL (Some (AsyncNode true [])) [5; 77], q) /\
    released demo_two q 3489661076 (Buffer false true NULL 5000 0).
Proof.
  destruct (binder_user_free_correct demo_env (Some (data 3489661076 +u user_buffer_offset demo_two)) (fun _ => true)
    demo_node [5] demo_two demo_two_reach) as [(r & q & H1 & H2) H3].
  - intros b x n _ _ _ _. unfold demo_node. destruct (b =? 3489661076); [|discriminate]. intros [= <-]. reflexivity.
  - exists q. unfold user_freed in H2. cbn zeta in H2.
    rewrite H3, decide_True in H2 by first [split; vm_compute; reflexivity | unfold is_u32; lia].
    destruct H2 as (x & Hx & Hrel & ->). vm_compute in Hx. injection Hx as <-. split; [exact H1|exact Hrel].
Defined.

Lemma binder_mmap_correct_witness :
  exists r q, binder_mmap demo_env 1073741824 1073807360 0 demo_area true opened = Some (r, q) /\ r = 0 /\ buffers q = [demo_area].
Proof.
  destruct (binder_mmap_correct demo_env 1073741824 1073807360 0 demo_area true opened reach_open demo_vm)
    as (r & q & H1 & [(H2 & _ & _ & _ & H3 & _)|[H2 _]]).
  - exists r, q. split; [exact H1|]. split; [exact H2|exact H3].
  - exfalso. assert (Hr : r = 0) by (vm_compute in H1; congruence). subst r.
    destruct H2 as [[H2 _]|[[H2 _]|[H2 _]]]; discriminate H2.
Defined.

Lemma binder_release_correct_witness :
  exists q, release_buffers 4 demo_env 0 demo_two = Some (2, q) /\ buffers q = [demo_area].
Proof.
  assert (Hb : buffer demo_two = demo_area) by (vm_compute; reflexivity).
  assert (Hl : length (buffers demo_two) = 3%nat) by (vm_compute; reflexivity).
  assert (Ha : length (allocated demo_two) = 2%nat) by (vm_compute; reflexivity).
  assert (Hn : buffer demo_two <> NULL) by (rewrite Hb; discriminate).
  destruct (binder_release_correct demo_env demo_two demo_two_reach Hn) as (q & H1 & H2 & _).
  rewrite Hl, Ha in H1. rewrite Hb in H2. exists q. split; [exact H1|exact H2].
Defined.
