(* ===== verification/WakelockUse.v ===== *)
(** What a user of a wake lock can rely on: the operations of kernel/power/wakelock.c on other locks
    leave its lock alone, except that a time-out that has passed releases it. *)
From S2P Require Import Prelude Time Wakelock.

Local Open Scope kernel_scope.

(** ** Locks that an operation does not name *)

(** Lock [i] stays registered, and as it is unless its time-out has passed at [j]. *)
Definition kept (j : Z) (i : nat) (c c' : core) : Prop :=
  (i ∈ c_all c -> i ∈ c_all c') /\
  forall v, c_view c !! i = Some v ->
    c_view c' !! i = Some v \/ (v_auto v = true /\ s32 (v_expires v - j) <= 0 /\ c_view c' !! i = Some (v_off v)).

Lemma kept_same j i c c' : (i ∈ c_all c -> i ∈ c_all c') -> c_view c' !! i = c_view c !! i -> kept j i c c'.
Proof. intros Ha Hv. split; [done|]. intros v Hl. left. by rewrite Hv. Qed.

Lemma kept_refl j i c : kept j i c c.
Proof. by apply kept_same. Qed.

Lemma kept_trans j i c1 c2 c3 : kept j i c1 c2 -> kept j i c2 c3 -> kept j i c1 c3.
Proof.
  intros [Ha1 H1] [Ha2 H2]. split; [auto|]. intros v Hv. destruct (H1 v Hv) as [Hs|(Ht & Hl & Ho)]; [by apply H2|].
  right. destruct (H2 _ Ho) as [Hs|(Hf & _)]; [done|]. done.
Qed.

#[export] Hint Resolve kept_refl : kernel.

Lemma rearm_view j x c : c_view (c_rearm j x c) = c_view c.
Proof. unfold c_rearm, c_set. by destruct (0 <? x). Qed.
Lemma rearm_all j x c : c_all (c_rearm j x c) = c_all c.
Proof. unfold c_rearm, c_set. by destruct (0 <? x). Qed.
Lemma add_active_view type b id c : c_view (c_add_active type b id c) = c_view c.
Proof. unfold c_add_active. by destruct (_ =? _). Qed.

Lemma kept_rearm j x i c c' : kept j i c c' -> kept j i c (c_rearm j x c').
Proof. intros H. eapply kept_trans; [exact H|]. apply kept_same; [by rewrite rearm_all|by rewrite rearm_view]. Qed.

(** Releasing a lock keeps every lock registered. *)
Lemma expire_all id c c' i : c_expire id c = Some c' -> i ∈ c_all c -> i ∈ c_all c'.
Proof.
  unfold c_expire, c_del. case_bool_decide; [|done]. intros [= <-] Hi. rewrite c_all_add_in, c_all_remove.
  destruct (decide (i = id)); [by left|right; done].
Qed.

Lemma expire_kept j id i c c' : c_expire id c = Some c' -> i <> id -> kept j i c c'.
Proof.
  intros He Hi. apply kept_same; [by apply (expire_all id)|]. rewrite (c_expire_view _ _ _ He). by rewrite lookup_alter_ne.
Qed.

(** A check releases only locks whose time-out has passed. *)
Lemma has_loop_kept j l i : forall mx c c' r, c_has_loop j l mx c = Some (c', r) -> kept j i c c'.
Proof.
  induction l as [|x l IH]; intros mx c c' r He; cbn [c_has_loop] in He; [injection He as <- _; auto with kernel|].
  destruct (c_view c !! x) as [w|] eqn:Ew; [|done]. cbn [mbind option_bind] in He.
  destruct (v_auto w) eqn:Eauto; [|injection He as <- _; auto with kernel].
  destruct (Z.leb_spec (s32 (v_expires w - j)) 0) as [Hle|]; [|by apply (IH _ _ _ _ He)].
  destruct (c_expire x c) as [c1|] eqn:Ex; [|done]. cbn [mbind option_bind] in He.
  apply (kept_trans _ _ _ c1); [|by apply (IH _ _ _ _ He)].
  destruct (decide (i = x)) as [->|Hne]; [|by apply (expire_kept _ x)].
  split; [by apply (expire_all x)|]. intros v Hv. right. assert (v = w) as -> by congruence.
  by rewrite (c_expire_view _ _ _ Ex), lookup_alter_eq, Hv.
Qed.

Lemma has_kept_locks j type i c c' r : c_has j type c = Some (c', r) -> kept j i c c'.
Proof. unfold c_has. destruct (_ <=? _); [done|]. apply has_loop_kept. Qed.

(** ** Locking and unlocking *)

Lemma lock_use j id t b c c' : c_lock j id t b c = Some c' ->
  (forall i, i <> id -> kept j i c c') /\ (id ∈ c_all c') /\
  forall v, c_view c !! id = Some v -> let u := v_on b (if b then j +u t else LONG_MAX) v in
    c_view c' !! id = Some u \/ (b = true /\ s32 ((j +u t) - j) <= 0 /\ c_view c' !! id = Some (v_off u)).
Proof.
  unfold c_lock. destruct (c_view c !! id) as [w|] eqn:Ew; [|done]. cbn [mbind option_bind].
  destruct (_ || _); [done|]. unfold c_del. case_bool_decide; [|done]. cbn [mbind option_bind].
  set (x := if b then j +u t else LONG_MAX). set (c1 := c_add_active _ b id _).
  assert (Hv1 : c_view c1 = alter (v_on b x) id (c_view c)) by (unfold c1; by rewrite add_active_view).
  assert (Ha1 : forall i, i = id \/ i ∈ c_all c -> i ∈ c_all c1).
  { intros i Hi. unfold c1. rewrite c_all_add_active. destruct (decide (i = id)) as [->|Hne]; [by left|right].
    apply (proj2 (c_all_remove id c i)). destruct Hi as [->|Hi]; done. }
  assert (H1 : forall c2, c_view c2 = c_view c1 -> c_all c2 = c_all c1 ->
    (forall i, i <> id -> kept j i c c2) /\ id ∈ c_all c2 /\ c_view c2 !! id = Some (v_on b x w)).
  { intros c2 E1 E2. split; [|split; [rewrite E2; apply Ha1; by left|by rewrite E1, Hv1, lookup_alter_eq, Ew]].
    intros i Hi. apply kept_same; [rewrite E2; intros; apply Ha1; by right|by rewrite E1, Hv1, lookup_alter_ne]. }
  destruct (negb _).
  - intros [= <-]. destruct (H1 c1 eq_refl eq_refl) as (Hk & Hin & Hid). split; [done|]. split; [done|].
    intros v [= <-]. by left.
  - set (c2 := if (id =? main_wake_lock)%nat then _ else c1).
    destruct (H1 c2) as (Hk & Hin & Hid); [unfold c2; by destruct (_ =? _)%nat|unfold c2; by destruct (_ =? _)%nat|]. destruct b.
    + destruct (c_has j (v_type w) c2) as [[c3 r]|] eqn:Eh; [|done]. intros [= <-].
      split; [intros i Hi; apply kept_rearm, (kept_trans _ _ _ c2); [by apply Hk|by apply (has_kept_locks _ _ _ _ _ _ Eh)]|].
      destruct (has_kept_locks _ _ id _ _ _ Eh) as [Hall Hview]. split; [rewrite rearm_all; auto|].
      intros v [= <-]. rewrite rearm_view. destruct (Hview _ Hid) as [?|(_ & ? & ?)]; [by left|by right].
    + intros [= <-]. split; [intros i Hi; by apply kept_rearm, Hk|]. split; [by rewrite rearm_all|].
      intros v [= <-]. rewrite rearm_view. by left.
Qed.

Lemma unlock_use j id c c' : c_unlock j id c = Some c' ->
  (forall i, i <> id -> kept j i c c') /\ (id ∈ c_all c') /\ forall v, c_view c !! id = Some v -> c_view c' !! id = Some (v_off v).
Proof.
  unfold c_unlock. destruct (c_view c !! id) as [w|] eqn:Ew; [|done]. cbn [mbind option_bind].
  destruct (c_expire id c) as [c1|] eqn:Ex; [|done]. cbn [mbind option_bind].
  assert (Hid : c_view c1 !! id = Some (v_off w)) by (by rewrite (c_expire_view _ _ _ Ex), lookup_alter_eq, Ew).
  assert (Hin : id ∈ c_all c1).
  { unfold c_expire, c_del in Ex. case_bool_decide; [|done]. injection Ex as <-. rewrite c_all_add_in. by left. }
  destruct (negb _).
  - intros [= <-]. split; [intros; by apply (expire_kept _ id)|]. split; [done|]. by intros v [= <-].
  - destruct (c_has j (v_type w) c1) as [[c2 r]|] eqn:Eh; [|done]. intros [= <-].
    destruct (has_kept_locks _ _ id _ _ _ Eh) as [Hall Hview].
    split; [intros i Hi; apply kept_rearm, (kept_trans _ _ _ c1); [by apply (expire_kept _ id)|by apply (has_kept_locks _ _ _ _ _ _ Eh)]|].
    split; [rewrite rearm_all; auto|]. intros v [= <-]. rewrite rearm_view. by destruct (Hview _ Hid) as [?|(? & _)].
Qed.

(** ** What others do *)

Section Use.
Context (clock : nat -> Z).

(** Everything that is done with the wake locks but locking, unlocking and destroying [mine]. *)
Inductive other_use (mine : nat -> Prop) (e : env) (st : wakelocks) : wakelocks -> Prop :=
| use_lock id timeout b st' : ~ mine id -> id ∈ c_all (core_of st) ->
    wake_lock_internal clock e id timeout b st = Some st' -> other_use mine e st st'
| use_unlock id st' : ~ mine id -> id ∈ c_all (core_of st) ->
    wake_unlock clock e id st = Some st' -> other_use mine e st st'
| use_init id type st' : id ∉ c_all (core_of st) -> 0 <= type < WAKE_LOCK_TYPE_COUNT ->
    wake_lock_init id type st = Some st' -> other_use mine e st st'
| use_destroy id st' : ~ mine id -> id ∈ c_all (core_of st) -> (deleted_wake_locks < id)%nat ->
    wake_lock_destroy id st = Some st' -> other_use mine e st st'
| use_timer st' : expire_wake_locks clock e (set_timer None st) = Some st' -> other_use mine e st st'
| use_enter st' b : suspend_enter clock e (set_work false st) = Some (st', b) -> other_use mine e st st'
| use_late st' r : power_suspend_late clock e st = Some (st', r) -> other_use mine e st st'
| use_exit n st' : ~ mine unknown_wakeup -> suspend_exit clock e n st = Some st' -> other_use mine e st st'.

Lemma lock_wf e id t b st : wf (core_of st) -> id ∈ c_all (core_of st) ->
  exists st', wake_lock_internal clock e id t b st = Some st' /\ wf (core_of st') /\
    c_lock (jiffies e) id t b (core_of st) = Some (core_of st').
Proof.
  intros Hwf Hin. destruct (lock_ok (jiffies e) id t b (core_of st) Hwf Hin) as (c' & Hc & Hw & _).
  pose proof (lock_core clock e id t b st (wf_present _ Hwf)) as Hl. rewrite Hc in Hl.
  destruct (wake_lock_internal _ _ _ _ _ _) as [st'|]; [|done]. injection Hl as <-. by exists st'.
Qed.

Lemma unlock_wf e id st : wf (core_of st) -> id ∈ c_all (core_of st) ->
  exists st', wake_unlock clock e id st = Some st' /\ wf (core_of st') /\ c_unlock (jiffies e) id (core_of st) = Some (core_of st').
Proof.
  intros Hwf Hin. destruct (unlock_ok (jiffies e) id (core_of st) Hwf Hin) as (c' & Hc & Hw & _).
  pose proof (unlock_core clock e id st (wf_present _ Hwf)) as Hl. rewrite Hc in Hl.
  destruct (wake_unlock _ _ _ _) as [st'|]; [|done]. injection Hl as <-. by exists st'.
Qed.

Lemma has_wf e st st' r : wf (core_of st) -> has_wake_lock_locked clock e WAKE_LOCK_SUSPEND st = Some (st', r) ->
  wf (core_of st') /\ forall i, kept (jiffies e) i (core_of st) (core_of st').
Proof.
  intros Hwf He. pose proof (core_has clock e WAKE_LOCK_SUSPEND st st' r Hwf He) as Hc.
  destruct (has_ok (jiffies e) WAKE_LOCK_SUSPEND _ Hwf suspend_type) as (c' & r' & Hc' & Hw & _). rewrite Hc in Hc'.
  injection Hc' as <- <-. split; [done|]. intros i. by apply (has_kept_locks _ _ _ _ _ _ Hc).
Qed.

Lemma init_kept j id type st st' i : id ∉ c_all (core_of st) -> i ∈ c_all (core_of st) -> wake_lock_init id type st = Some st' ->
  kept j i (core_of st) (core_of st').
Proof.
  intros Hid Hi He. unfold wake_lock_init in He. case_bool_decide; [done|]. injection He as <-.
  assert (i <> id) by congruence. apply kept_same.
  - intros Hin. unfold c_all in *. cbn in *. by right.
  - rewrite !core_lookup. cbn. by rewrite lookup_insert_ne.
Qed.

Lemma destroy_kept j id st st' i : i <> id -> (deleted_wake_locks < id)%nat -> i <> deleted_wake_locks ->
  wake_lock_destroy id st = Some st' -> kept j i (core_of st) (core_of st').
Proof.
  intros Hi Hgt Hd He. unfold wake_lock_destroy in He.
  destruct (Wakelock.locks (upd_lock id _ st) !! id) as [l|]; [|done]. cbn [mbind option_bind] in He.
  unfold list_del in He. case_bool_decide; [|done]. injection He as <-. apply kept_same.
  - intros Hin. unfold c_all in *. rewrite !elem_of_app in *. destruct (negb _); cbn in *; rewrite !list_elem_of_filter; tauto.
  - rewrite !core_lookup. destruct (negb _); cbn; rewrite ?lookup_alter_ne; done.
Qed.

(** The locks that are mine are kept. *)
Lemma other_all mine e st st' : wf (core_of st) -> other_use mine e st st' -> wf (core_of st') /\
  forall i, mine i -> i <> deleted_wake_locks -> i ∈ c_all (core_of st) -> kept (jiffies e) i (core_of st) (core_of st').
Proof.
  intros Hwf Hu.
  destruct Hu as [id t b st' Hid Hin He|id st' Hid Hin He|id type st' Hid Hty He|id st' Hid Hin Hgt He|st' He|st' b He|st' r He|n st' Hid He].
  - destruct (lock_wf e id t b st Hwf Hin) as (s2 & He2 & Hw & Hc). rewrite He in He2. injection He2 as <-. split; [done|].
    intros i Hm _ _. apply (proj1 (lock_use _ _ _ _ _ _ Hc)). by intros ->.
  - destruct (unlock_wf e id st Hwf Hin) as (s2 & He2 & Hw & Hc). rewrite He in He2. injection He2 as <-. split; [done|].
    intros i Hm _ _. apply (proj1 (unlock_use _ _ _ _ Hc)). by intros ->.
  - destruct (init_ok id type st Hwf Hid Hty) as (s2 & He2 & Hw & _). rewrite He in He2. injection He2 as <-. split; [done|].
    intros i _ _ Hi. by apply (init_kept _ id type).
  - destruct (destroy_ok id st Hwf Hin Hgt) as (s2 & He2 & Hw & _). rewrite He in He2. injection He2 as <-. split; [done|].
    intros i Hm Hnd _. apply (destroy_kept _ id); [by intros ->|done..].
  - unfold expire_wake_locks in He. destruct (has_wake_lock_locked _ _ _ _) as [[s2 r]|] eqn:Eh; [|done]. injection He as <-.
    destruct (has_wf e (set_timer None st) s2 r ltac:(destruct Hwf; by split) Eh) as [Hw Hk].
    destruct (r =? 0); (split; [destruct Hw; by split|]); intros i _ _ _; exact (Hk i).
  - unfold suspend_enter, has_wake_lock in He. destruct (has_wake_lock_locked _ _ _ _) as [[s2 r]|] eqn:Eh; [|done]. injection He as <- _.
    destruct (has_wf e (set_work false st) s2 r ltac:(destruct Hwf; by split) Eh) as [Hw Hk]. split; [done|]. intros i _ _ _. exact (Hk i).
  - unfold power_suspend_late, has_wake_lock in He. destruct (has_wake_lock_locked _ _ _ _) as [[s2 h]|] eqn:Eh; [|done]. injection He as <- _.
    destruct (has_wf _ _ _ _ Hwf Eh) as [Hw Hk]. split; [done|]. intros i _ _ _. exact (Hk i).
  - unfold suspend_exit in He. destruct (_ =? _); [|injection He as <-; split; [done|intros; auto with kernel]].
    unfold wake_lock_timeout in He. destruct (lock_wf e unknown_wakeup (HZ / 2) true st Hwf) as (s2 & He2 & Hw & Hc);
      [apply (wf_fixed _ Hwf); unfold unknown_wakeup, deleted_wake_locks; lia|].
    rewrite He in He2. injection He2 as <-. split; [done|]. intros i Hm _ _. apply (proj1 (lock_use _ _ _ _ _ _ Hc)). by intros ->.
Qed.

Lemma other_kept mine e st st' i : wf (core_of st) -> other_use mine e st st' -> mine i -> i <> deleted_wake_locks ->
  i ∈ c_all (core_of st) -> wf (core_of st') /\ kept (jiffies e) i (core_of st) (core_of st').
Proof. intros Hwf Hu Hm Hnd Hi. destruct (other_all mine e st st' Hwf Hu) as [Hw Hk]. split; [done|by apply Hk]. Qed.

(** A lock that is held is among the active ones. *)
Lemma held_active c id v : wf c -> id ∈ c_all c -> c_view c !! id = Some v -> v_active v = true -> v_type v = WAKE_LOCK_SUSPEND ->
  id ∈ c_su c.
Proof.
  intros Hwf Hin Hv Ha Ht. unfold c_all in Hin. rewrite !elem_of_app in Hin. destruct Hin as [Hin|[Hin|Hin]]; [|done|].
  - destruct (wf_in _ Hwf _ Hin) as (w & Hw & _ & Hoff & _). congruence.
  - destruct (wf_id _ Hwf _ Hin) as (w & Hw & _ & _ & Hty). assert (w = v) as -> by congruence. rewrite Ht in Hty. done.
Qed.

(** A lock that is held and has time left keeps the phone from suspending. *)
Lemma held_stops e st id v : wf (core_of st) -> id ∈ c_all (core_of st) -> c_view (core_of st) !! id = Some v ->
  v_active v = true -> v_type v = WAKE_LOCK_SUSPEND -> v_auto v = false \/ 0 < s32 (v_expires v - jiffies e) ->
  exists st', power_suspend_late clock e st = Some (st', - EAGAIN).
Proof.
  intros Hwf Hin Hv Ha Hty Hleft. pose proof (held_active _ _ _ Hwf Hin Hv Ha Hty) as Hsu.
  destruct (has_result_ok clock e WAKE_LOCK_SUSPEND st Hwf suspend_type) as (st' & r & He & _ & _ & Hr).
  unfold power_suspend_late. rewrite He. cbn [mbind option_bind].
  assert (Hnz : r <> 0); [|rewrite (proj2 (Z.eqb_neq _ _) Hnz); by eexists]. destruct (existsb _ _) eqn:Ex; [destruct Hr as [_ ->]; done|].
  destruct Hr as [-> _]. destruct Hleft as [Hu|Hl].
  - exfalso. assert (Hex : existsb (fun i => negb (timed (core_of st) i)) (active_wake_locks st WAKE_LOCK_SUSPEND) = true); [|congruence].
    apply existsb_untimed. exists id. split; [done|]. unfold timed. by rewrite Hv.
  - destruct (longest_ge (jiffies e) (core_of st) (active_wake_locks st WAKE_LOCK_SUSPEND)) as [_ Hge].
    specialize (Hge id Hsu). unfold left_ in Hge. rewrite Hv in Hge. lia.
Qed.

End Use.
