(* ===== verification/EarlySuspend.v ===== *)
(** Early suspend (kernel/power/earlysuspend.c, include/linux/earlysuspend.h): the
    handlers that turn off the screen and the input devices when user space asks for sleep, before
    the last wake lock is released.

    A definition is what a routine does in one locked section.  The two work items run one
    after the other on [suspend_work_queue]; handlers are called with the mutex held but without the
    spin lock, so requests may come between any two calls.  A registration holds the mutex too, but
    neither a request nor the end of a work item needs it, so these may come between the moment a
    handler is put on the list and the call of its [suspend].  The wake lock the code takes and
    releases is known by what it promises ([MainLock]); the calls of the handlers are recorded.
    The work [suspend_work] of kernel/power/wakelock.c runs on the same queue; all it does to this file
    is to keep the worker thread busy, which any delay between two moves of the thread allows for. *)
From stdpp Require Import sorting.
From S2P Require Import Prelude.

Local Open Scope kernel_scope.

(** ** What the code asks of wake locks *)

(** [wake_lock(&main_wake_lock)] and [wake_unlock(&main_wake_lock)] on a state [W] of the wake
    locks, with what the environment [E] supplies; [ml_other] are the moves of the other users. *)
Class MainLock (W E : Type) := {
  ml_lock : E -> W -> option W;
  ml_unlock : E -> W -> option W;
  ml_other : W -> W -> Prop;
  ml_held : W -> bool;
  ml_ok : W -> Prop;
  ml_lock_ok e w : ml_ok w -> exists w', ml_lock e w = Some w' /\ ml_ok w' /\ ml_held w' = true;
  ml_unlock_ok e w : ml_ok w -> exists w', ml_unlock e w = Some w' /\ ml_ok w' /\ ml_held w' = false;
  ml_other_ok w w' : ml_ok w -> ml_other w w' -> ml_ok w' /\ ml_held w' = ml_held w }.

(** ** Data *)

Definition SUSPEND_REQUESTED : Z := 0x1.
Definition SUSPENDED : Z := 0x2.
Definition SUSPEND_REQUESTED_AND_SUSPENDED : Z := Z.lor SUSPEND_REQUESTED SUSPENDED.
Definition PM_SUSPEND_ON : Z := 0.
Definition PM_SUSPEND_MEM : Z := 3.

(** A [struct early_suspend]; the functions are there or NULL. *)
Record early_suspend_t := Handler { level : Z; suspend : bool; resume : bool }.

Inductive work := EarlySuspendWork | LateResumeWork.
#[global] Instance work_eq_dec : EqDecision work.
Proof. solve_decision. Defined.

(** What the worker thread is doing. *)
Inductive worker :=
| Waiting
| EarlyStart                       (** [early_suspend] was called *)
| EarlyCalls (rest : list nat)     (** it has the mutex and still calls these *)
| EarlyEnd                         (** it is past the mutex *)
| LateStart                        (** [late_resume] was called *)
| LateCalls (rest : list nat).

(** What happened to the handlers. *)
Inductive event := Registered (h : nat) (o : early_suspend_t) | Suspended (h : nat) | Resumed (h : nat).

Record es (W : Type) := Es {
  state : Z;
  early_suspend_handlers : list nat;
  objects : gmap nat early_suspend_t;
  requested_suspend_state : Z;
  suspend_work_queue : list work;
  thread : worker;
  registering : option nat;             (** put on the list, its registration not finished *)
  locks : W;
  events : list event }.                (** the latest first *)
Arguments Es {W}. Arguments state {W}. Arguments early_suspend_handlers {W}. Arguments objects {W}.
Arguments requested_suspend_state {W}. Arguments suspend_work_queue {W}. Arguments thread {W}.
Arguments registering {W}. Arguments locks {W}. Arguments events {W}.

Section Code.
Context {W E : Type} `{MainLock W E}.
Implicit Types s : es W.

Definition set_state (v : Z) s : es W :=
  Es v (early_suspend_handlers s) (objects s) (requested_suspend_state s) (suspend_work_queue s) (thread s) (registering s) (locks s) (events s).
Definition set_handlers (l : list nat) s : es W :=
  Es (state s) l (objects s) (requested_suspend_state s) (suspend_work_queue s) (thread s) (registering s) (locks s) (events s).
Definition set_requested (v : Z) s : es W :=
  Es (state s) (early_suspend_handlers s) (objects s) v (suspend_work_queue s) (thread s) (registering s) (locks s) (events s).
Definition set_queue (q : list work) s : es W :=
  Es (state s) (early_suspend_handlers s) (objects s) (requested_suspend_state s) q (thread s) (registering s) (locks s) (events s).
Definition set_thread (t : worker) s : es W :=
  Es (state s) (early_suspend_handlers s) (objects s) (requested_suspend_state s) (suspend_work_queue s) t (registering s) (locks s) (events s).
Definition set_locks (w : W) s : es W :=
  Es (state s) (early_suspend_handlers s) (objects s) (requested_suspend_state s) (suspend_work_queue s) (thread s) (registering s) w (events s).
Definition set_registering (r : option nat) s : es W :=
  Es (state s) (early_suspend_handlers s) (objects s) (requested_suspend_state s) (suspend_work_queue s) (thread s) r (locks s) (events s).
Definition log (v : event) s : es W :=
  Es (state s) (early_suspend_handlers s) (objects s) (requested_suspend_state s) (suspend_work_queue s) (thread s) (registering s) (locks s) (v :: events s).

(** [queue_work] does nothing when the work is pending. *)
Definition queue_work (w : work) s : es W :=
  if bool_decide (w ∈ suspend_work_queue s) then s else set_queue (suspend_work_queue s ++ [w]) s.

(** [if (h->suspend) h->suspend(h);] *)
Definition call_suspend (h : nat) s : option (es W) :=
  o ← objects s !! h; Some (if suspend o then log (Suspended h) s else s).
Definition call_resume (h : nat) s : option (es W) :=
  o ← objects s !! h; Some (if resume o then log (Resumed h) s else s).

(** ** Registration *)

(** The [list_for_each] that stops at the first handler of a higher level, and the
    [list_add_tail] before it. *)
Fixpoint add_sorted (objs : gmap nat early_suspend_t) (new_level : Z) (handler : nat) (l : list nat) : option (list nat) :=
  match l with
  | [] => Some [handler]
  | e :: l' =>
    o ← objs !! e;
    if new_level <? level o then Some (handler :: l)
    else l'' ← add_sorted objs new_level handler l'; Some (e :: l'')
  end.

(** [register_early_suspend] takes the mutex and puts the handler on the list ... *)
Definition register_add (handler : nat) (o : early_suspend_t) s : option (es W) :=
  if bool_decide (handler ∈ early_suspend_handlers s) then None else
  let s := log (Registered handler o)
             (Es (state s) (early_suspend_handlers s) (<[handler := o]> (objects s)) (requested_suspend_state s)
                (suspend_work_queue s) (thread s) (registering s) (locks s) (events s)) in
  l ← add_sorted (objects s) (level o) handler (early_suspend_handlers s);
  Some (set_registering (Some handler) (set_handlers l s)).

(** ... then calls its [suspend] if the others were called, and lets the mutex go.  The bit
    [SUSPENDED] that it reads changes only under the mutex. *)
Definition register_call s : option (es W) :=
  match registering s with
  | None => Some s
  | Some handler =>
    s ← (if negb (Z.land (state s) SUSPENDED =? 0) then call_suspend handler s else Some s);
    Some (set_registering None s)
  end.

(** The whole, when nothing comes between. *)
Definition register_early_suspend (handler : nat) (o : early_suspend_t) s : option (es W) :=
  s ← register_add handler o s; register_call s.

Definition unregister_early_suspend (handler : nat) s : option (es W) :=
  if bool_decide (handler ∈ early_suspend_handlers s)
  then Some (set_handlers (filter (fun x => x <> handler) (early_suspend_handlers s)) s) else None.

(** ** The work items *)

(** [early_suspend] up to the first call: the second result says that it goes on. *)
Definition early_suspend_enter s : es W * bool :=
  if state s =? SUSPEND_REQUESTED then (set_state (Z.lor (state s) SUSPENDED) s, true) else (s, false).

(** Its last section, after [sys_sync] or an abort. *)
Definition early_suspend_exit (e : E) s : option (es W) :=
  if state s =? SUSPEND_REQUESTED_AND_SUSPENDED then w ← ml_unlock e (locks s); Some (set_locks w s) else Some s.

Definition late_resume_enter s : es W * bool :=
  if state s =? SUSPENDED then (set_state (Z.land (state s) (Z.lnot SUSPENDED)) s, true) else (s, false).

(** One move of the worker thread. *)
Definition worker_step (e : E) s : option (es W) :=
  match thread s with
  | Waiting =>
    match suspend_work_queue s with
    | [] => Some s
    | EarlySuspendWork :: q => Some (set_thread EarlyStart (set_queue q s))
    | LateResumeWork :: q => Some (set_thread LateStart (set_queue q s))
    end
  | EarlyStart =>
    let '(s, go) := early_suspend_enter s in
    Some (set_thread (if go then EarlyCalls (early_suspend_handlers s) else EarlyEnd) s)
  | EarlyCalls [] => Some (set_thread EarlyEnd s)
  | EarlyCalls (h :: rest) => s ← call_suspend h s; Some (set_thread (EarlyCalls rest) s)
  | EarlyEnd => s ← early_suspend_exit e s; Some (set_thread Waiting s)
  | LateStart =>
    let '(s, go) := late_resume_enter s in
    Some (set_thread (if go then LateCalls (rev (early_suspend_handlers s)) else Waiting) s)
  | LateCalls [] => Some (set_thread Waiting s)
  | LateCalls (h :: rest) => s ← call_resume h s; Some (set_thread (LateCalls rest) s)
  end.

(** ** Requests of user space *)

Definition request_suspend_state (e : E) (new_state : Z) s : option (es W) :=
  let old_sleep := negb (Z.land (state s) SUSPEND_REQUESTED =? 0) in
  s ← (if negb old_sleep && negb (new_state =? PM_SUSPEND_ON) then
         Some (queue_work EarlySuspendWork (set_state (Z.lor (state s) SUSPEND_REQUESTED) s))
       else if old_sleep && (new_state =? PM_SUSPEND_ON) then
         let s := set_state (Z.land (state s) (Z.lnot SUSPEND_REQUESTED)) s in
         w ← ml_lock e (locks s);
         Some (queue_work LateResumeWork (set_locks w s))
       else Some s);
  Some (set_requested new_state s).

Definition get_suspend_state s : Z := requested_suspend_state s.

(** ** The system *)

(** The worker thread does not hold the mutex. *)
Definition unlocked (t : worker) : bool :=
  match t with EarlyCalls _ | LateCalls _ => false | _ => true end.

(** The mutex is free. *)
Definition mutex_free s : bool := unlocked (thread s) && bool_decide (registering s = None).

(** The worker's next move is to take the mutex, and a registration has it. *)
Definition blocked s : bool :=
  match thread s with EarlyStart | LateStart => bool_decide (registering s <> None) | _ => false end.

Inductive step s : es W -> Prop :=
| step_worker e s' : blocked s = false -> worker_step e s = Some s' -> step s s'
| step_request e n s' : request_suspend_state e n s = Some s' -> step s s'
| step_register h o s' : mutex_free s = true -> h ∉ early_suspend_handlers s ->
    register_add h o s = Some s' -> step s s'
| step_registered s' : register_call s = Some s' -> step s s'
| step_unregister h s' : mutex_free s = true -> h ∈ early_suspend_handlers s ->
    unregister_early_suspend h s = Some s' -> step s s'
| step_other w : ml_other (locks s) w -> step s (set_locks w s).

(** At boot nothing is requested and the main lock is held. *)
Definition boot (w : W) : es W := Es 0 [] ∅ PM_SUSPEND_MEM [] Waiting None w [].

Inductive reach : es W -> Prop :=
| reach_boot w : ml_ok w -> ml_held w = true -> reach (boot w)
| reach_step s s' : reach s -> step s s' -> reach s'.

End Code.

(** ** The calls of the handlers *)

(** The latest registration of [h]. *)
Fixpoint registration (l : list event) (h : nat) : option early_suspend_t :=
  match l with
  | [] => None
  | Registered x o :: l => if Nat.eqb x h then Some o else registration l h
  | _ :: l => registration l h
  end.

(** Since then, its last call was that of [suspend]. *)
Fixpoint is_down (l : list event) (h : nat) : bool :=
  match l with
  | [] => false
  | Registered x _ :: l => if Nat.eqb x h then false else is_down l h
  | Suspended x :: l => if Nat.eqb x h then true else is_down l h
  | Resumed x :: l => if Nat.eqb x h then false else is_down l h
  end.

(** It has both functions. *)
Definition paired (o : early_suspend_t) : bool := suspend o && resume o.
Definition pairs (l : list event) (h : nat) : Prop := exists o, registration l h = Some o /\ paired o = true.

(** Calls alternate, starting with [suspend]. *)
Fixpoint alternate (l : list event) : Prop :=
  match l with
  | [] => True
  | Registered _ _ :: l => alternate l
  | Suspended h :: l => (pairs l h -> is_down l h = false) /\ alternate l
  | Resumed h :: l => (pairs l h -> is_down l h = true) /\ alternate l
  end.

Section Proof.
Context {W E : Type} `{ML : MainLock W E}.
Implicit Types s : es W.

Definition suspended_bit s : bool := 2 <=? state s.

(** The handlers in [l] with both functions are down, or up, but for the one whose registration is
    under way. *)
Definition all_down (b : bool) s (l : list nat) : Prop :=
  forall h, h ∈ l -> registering s <> Some h -> pairs (events s) h -> is_down (events s) h = b.

Definition calls_ok s : Prop :=
  match thread s with
  | EarlyCalls rest => suspended_bit s = true /\ exists done, early_suspend_handlers s = done ++ rest /\
      all_down true s done /\ all_down false s rest
  | LateCalls rest => suspended_bit s = false /\ exists done, rev (early_suspend_handlers s) = done ++ rest /\
      all_down false s done /\ all_down true s rest
  | _ => all_down (suspended_bit s) s (early_suspend_handlers s)
  end.

(** Work that will react to the state is on its way. *)
Definition early_coming s : Prop := EarlySuspendWork ∈ suspend_work_queue s \/ thread s = EarlyStart.
Definition late_coming s : Prop := LateResumeWork ∈ suspend_work_queue s \/ thread s = LateStart.

Definition level_of (objs : gmap nat early_suspend_t) (h : nat) : Z := default 0 (level <$> objs !! h).

Record inv s : Prop := {
  i_state : 0 <= state s <= 3;
  i_lock : ml_ok (locks s);
  i_nodup : NoDup (early_suspend_handlers s);
  i_objs : forall h, h ∈ early_suspend_handlers s ->
    exists o, objects s !! h = Some o /\ registration (events s) h = Some o;
  i_sorted : StronglySorted (fun a b => level_of (objects s) a <= level_of (objects s) b) (early_suspend_handlers s);
  i_queue : NoDup (suspend_work_queue s);
  i_calls : calls_ok s;
  i_alt : alternate (events s);
  i_one : state s = 1 -> early_coming s;
  i_two : state s = 2 -> late_coming s;
  i_three : state s = 3 -> ml_held (locks s) = false \/ early_coming s \/ (exists l, thread s = EarlyCalls l) \/ thread s = EarlyEnd;
  i_held : ml_held (locks s) = false -> state s = 3 /\ unlocked (thread s) = true;
  i_mutex : registering s <> None -> unlocked (thread s) = true;
  i_new : forall h, registering s = Some h -> h ∈ early_suspend_handlers s /\ is_down (events s) h = false }.

Lemma queue_in w v s : w ∈ suspend_work_queue (queue_work v s) <-> w ∈ suspend_work_queue s \/ w = v.
Proof.
  unfold queue_work. case_bool_decide as Hin; [split; [by left|intros [?| ->]; done]|]. cbn. set_solver.
Qed.

Lemma queue_nodup v s : NoDup (suspend_work_queue s) -> NoDup (suspend_work_queue (queue_work v s)).
Proof.
  intros Hn. unfold queue_work. case_bool_decide as Hin; [done|]. cbn. apply NoDup_app. split; [done|].
  split; [set_solver|]. apply NoDup_singleton.
Qed.

Lemma queue_rest v s : queue_work v s = set_queue (suspend_work_queue (queue_work v s)) s.
Proof. unfold queue_work. case_bool_decide; [by destruct s|done]. Qed.


(** The fields a request leaves alone. *)
Definition same_calls s s' : Prop :=
  early_suspend_handlers s' = early_suspend_handlers s /\ objects s' = objects s /\ events s' = events s /\
  registering s' = registering s.

Definition bits_of_state (v : Z) : Prop :=
  Z.land v SUSPEND_REQUESTED = v mod 2 /\ Z.land v SUSPENDED = 2 * (v / 2) /\
  Z.lor v SUSPEND_REQUESTED = 2 * (v / 2) + 1 /\ Z.land v (Z.lnot SUSPEND_REQUESTED) = 2 * (v / 2) /\
  Z.lor v SUSPENDED = v mod 2 + 2 /\ Z.land v (Z.lnot SUSPENDED) = v mod 2.
Lemma state_bits v : 0 <= v <= 3 -> bits_of_state v.
Proof. intros H. assert (v = 0 \/ v = 1 \/ v = 2 \/ v = 3) as [->|[->|[->| ->]]] by lia; done. Qed.

Lemma request_spec e n s :
  0 <= state s <= 3 -> ml_ok (locks s) ->
  exists s', request_suspend_state e n s = Some s' /\ same_calls s s' /\ thread s' = thread s /\
    requested_suspend_state s' = n /\ ml_ok (locks s') /\
    ((state s mod 2 = 0 /\ n <> PM_SUSPEND_ON /\ state s' = state s + 1 /\ locks s' = locks s /\
      suspend_work_queue s' = suspend_work_queue (queue_work EarlySuspendWork s)) \/
     (state s mod 2 = 1 /\ n = PM_SUSPEND_ON /\ state s' = state s - 1 /\ ml_held (locks s') = true /\
      suspend_work_queue s' = suspend_work_queue (queue_work LateResumeWork s)) \/
     ((state s mod 2 = 0 <-> n = PM_SUSPEND_ON) /\ state s' = state s /\ locks s' = locks s /\
      suspend_work_queue s' = suspend_work_queue s)).
Proof.
  intros Hst Hlk. destruct (state_bits _ Hst) as (B1 & _ & B2 & B3 & _). unfold request_suspend_state. rewrite B1, B2, B3.
  destruct (Z.eqb_spec n PM_SUSPEND_ON) as [Hn|Hn], (Z.eqb_spec (state s mod 2) 0) as [Hm|Hm]; cbn [negb andb].
  - eexists. split; [done|]. split; [done|]. do 3 (split; [done|]). right. right. tauto.
  - destruct (ml_lock_ok e _ Hlk) as (w & Hw & Hok & Hheld). cbn [locks set_state]. rewrite Hw. cbn [mbind option_bind].
    eexists. split; [done|]. rewrite queue_rest. split; [done|]. split; [done|]. split; [done|]. split; [done|].
    right. left. cbn. split; [Z.to_euclidean_division_equations; lia|]. split; [done|].
    split; [Z.to_euclidean_division_equations; lia|]. split; [done|]. unfold queue_work. cbn. by case_bool_decide.
  - eexists. split; [done|]. rewrite queue_rest. split; [done|]. split; [done|]. split; [done|]. split; [done|].
    left. split; [done|]. split; [done|]. cbn. split; [Z.to_euclidean_division_equations; lia|]. split; [done|].
    unfold queue_work. cbn. by case_bool_decide.
  - eexists. split; [done|]. split; [done|]. do 3 (split; [done|]). right. right. tauto.
Qed.

Lemma calls_ok_ext s s' : same_calls s s' -> thread s' = thread s -> suspended_bit s' = suspended_bit s ->
  calls_ok s -> calls_ok s'.
Proof. intros (H1 & H2 & H3 & H6) H4 H5. unfold calls_ok, all_down. by rewrite H1, H3, H4, H5, H6. Qed.

Lemma request_inv e n s s' : inv s -> request_suspend_state e n s = Some s' -> inv s'.
Proof.
  intros [Hst Hlk Hnd Hob Hso Hq Hca Hal H1 H2 H3 Hh Hmu Hnw] He.
  destruct (request_spec e n s Hst Hlk) as (s2 & He2 & Hsame & Hth & _ & Hok & Hcase).
  rewrite He2 in He. injection He as ->. pose proof Hsame as (S1 & S2 & S3 & S4).
  assert (Hbit : suspended_bit s' = suspended_bit s).
  { unfold suspended_bit. destruct Hcase as [(Hm & _ & -> & _)|[(Hm & _ & -> & _)|(_ & -> & _)]]; [..|done];
    destruct (Z.leb_spec 2 (state s)), (Z.leb_spec 2 (state s + 1)), (Z.leb_spec 2 (state s - 1)); try done; exfalso;
      Z.to_euclidean_division_equations; lia. }
  assert (Hqin : forall w, w ∈ suspend_work_queue s -> w ∈ suspend_work_queue s').
  { intros w Hw. destruct Hcase as [(_ & _ & _ & _ & ->)|[(_ & _ & _ & _ & ->)|(_ & _ & _ & ->)]]; [apply queue_in; by left..|done]. }
  assert (Hearly : early_coming s -> early_coming s') by (intros [?|?]; [left; by apply Hqin|right; by rewrite Hth]).
  assert (Hlate : late_coming s -> late_coming s') by (intros [?|?]; [left; by apply Hqin|right; by rewrite Hth]).
  split; rewrite ?S1, ?S2, ?S3, ?S4, ?Hth; try done.
  - destruct Hcase as [(? & _ & -> & _)|[(? & _ & -> & _)|(_ & -> & _)]]; Z.to_euclidean_division_equations; lia.
  - destruct Hcase as [(_ & _ & _ & _ & ->)|[(_ & _ & _ & _ & ->)|(_ & _ & _ & ->)]]; [by apply queue_nodup..|done].
  - by apply (calls_ok_ext s).
  - intros Hs. destruct Hcase as [(Hm & _ & Hs' & _ & Hq')|[(Hm & _ & Hs' & _)|(_ & Hs' & _)]].
    + left. rewrite Hq'. apply queue_in. by right.
    + assert (Hs2 : state s = 2) by lia. by rewrite Hs2 in Hm.
    + apply Hearly, H1. congruence.
  - intros Hs. destruct Hcase as [(Hm & _ & Hs' & _)|[(Hm & _ & Hs' & _ & Hq')|(_ & Hs' & _)]].
    + assert (Hs2 : state s = 1) by lia. by rewrite Hs2 in Hm.
    + left. rewrite Hq'. apply queue_in. by right.
    + apply Hlate, H2. congruence.
  - intros Hs. destruct Hcase as [(Hm & _ & Hs' & _ & Hq')|[(Hm & _ & Hs' & _)|(_ & Hs' & Hl & _)]].
    + right. left. left. rewrite Hq'. apply queue_in. by right.
    + assert (Hs2 : state s = 4) by lia. lia.
    + rewrite Hl. destruct H3 as [?|[?|?]]; [congruence|by left|right; left; by apply Hearly|by right; right].
  - intros Hf. destruct Hcase as [(Hm & _ & Hs' & Hl & _)|[(_ & _ & _ & Ht & _)|(_ & Hs' & Hl & _)]]; [|congruence|].
    + rewrite Hl in Hf. destruct (Hh Hf) as [Hs3 _]. by rewrite Hs3 in Hm.
    + rewrite Hl in Hf. rewrite Hs'. by apply Hh.
Qed.

(** What one call does to the events. *)
Record called (b : bool) (h : nat) s s' : Prop := {
  cd_same : s' = Es (state s) (early_suspend_handlers s) (objects s) (requested_suspend_state s) (suspend_work_queue s)
                   (thread s) (registering s) (locks s) (events s');
  cd_reg : forall x, registration (events s') x = registration (events s) x;
  cd_other : forall x, x <> h -> is_down (events s') x = is_down (events s) x;
  cd_self : pairs (events s) h -> is_down (events s') h = b;
  cd_alt : (pairs (events s) h -> is_down (events s) h = negb b) -> alternate (events s) -> alternate (events s') }.

Lemma suspend_called s h o :
  objects s !! h = Some o -> registration (events s) h = Some o ->
  exists s', call_suspend h s = Some s' /\ called true h s s'.
Proof.
  intros Ho Hr. unfold call_suspend. rewrite Ho. cbn [mbind option_bind]. eexists. split; [done|].
  destruct (suspend o) eqn:Es; cbn [log events].
  - split; cbn; try done.
    + intros x Hx. by rewrite (proj2 (Nat.eqb_neq h x)).
    + intros _. by rewrite Nat.eqb_refl.
  - split; cbn; try done; [by destruct s|]. intros (o' & Hr' & Hp). rewrite Hr in Hr'. injection Hr' as <-.
    unfold paired in Hp. by rewrite Es in Hp.
Qed.

Lemma resume_called s h o :
  objects s !! h = Some o -> registration (events s) h = Some o ->
  exists s', call_resume h s = Some s' /\ called false h s s'.
Proof.
  intros Ho Hr. unfold call_resume. rewrite Ho. cbn [mbind option_bind]. eexists. split; [done|].
  destruct (resume o) eqn:Es; cbn [log events].
  - split; cbn; try done.
    + intros x Hx. by rewrite (proj2 (Nat.eqb_neq h x)).
    + intros _. by rewrite Nat.eqb_refl.
  - split; cbn; try done; [by destruct s|]. intros (o' & Hr' & Hp). rewrite Hr in Hr'. injection Hr' as <-.
    unfold paired in Hp. by rewrite Es, andb_false_r in Hp.
Qed.

Lemma called_pairs b h s s' x : called b h s s' -> pairs (events s') x <-> pairs (events s) x.
Proof. intros Hc. unfold pairs. by rewrite (cd_reg _ _ _ _ Hc). Qed.

(** The handlers before and after the one that was called. *)
Lemma called_split b h s s' done rest :
  called b h s s' -> NoDup (done ++ h :: rest) ->
  all_down b s done -> all_down (negb b) s (h :: rest) ->
  all_down b s' (done ++ [h]) /\ all_down (negb b) s' rest.
Proof.
  intros Hc Hnd H1 H2. apply NoDup_app in Hnd as (_ & Hd & Hnd). apply NoDup_cons in Hnd as [Hh _].
  assert (Hrg : registering s' = registering s) by (by rewrite (cd_same _ _ _ _ Hc)).
  split; intros x Hx Hn Hp; apply (called_pairs _ _ _ _ _ Hc) in Hp; rewrite Hrg in Hn.
  - apply elem_of_app in Hx as [Hx|Hx%list_elem_of_singleton]; [|subst x; by apply (cd_self _ _ _ _ Hc)].
    rewrite (cd_other _ _ _ _ Hc) by (intros ->; apply (Hd h Hx); set_solver). by apply H1.
  - rewrite (cd_other _ _ _ _ Hc) by congruence. apply H2; [set_solver|done..].
Qed.

(** The invariant after a call in the middle of a work item; [t] is the rest of it. *)
Lemma called_inv b h s s' t :
  inv s -> called b h s s' -> (pairs (events s) h -> is_down (events s) h = negb b) ->
  unlocked (thread s) = false -> unlocked t = false ->
  (state s = 3 -> exists l, t = EarlyCalls l) -> state s <> 2 \/ late_coming (set_thread t s) ->
  calls_ok (set_thread t s') -> inv (set_thread t s').
Proof.
  intros [Hst Hlk Hnd Hob Hso Hq Hca Hal H1 H2 H3 Hh Hmu Hnw] Hc Hlegal Hlock Ht H3' H2' Hcalls.
  pose proof (cd_alt _ _ _ _ Hc Hlegal Hal) as Halt. pose proof (cd_reg _ _ _ _ Hc) as Hreg.
  rewrite (cd_same _ _ _ _ Hc) in Hcalls |- *. split; cbn; try done.
  - intros x Hx. rewrite Hreg. by apply Hob.
  - intros Hs. destruct (H1 Hs) as [?|He]; [by left|]. rewrite He in Hlock. done.
  - intros Hs. destruct H2' as [?|[?|?]]; [done|by left|by right].
  - intros Hs. right. right. left. by apply H3'.
  - intros Hf. destruct (Hh Hf) as [_ Hu]. congruence.
  - intros Hr. rewrite (Hmu Hr) in Hlock. done.
  - intros x Hx. rewrite Hmu in Hlock by congruence. done.
Qed.

(** The worker takes the next item. *)
Lemma pick_inv e s : inv s -> thread s = Waiting -> exists s', worker_step e s = Some s' /\ inv s'.
Proof.
  intros Hi Et. pose proof Hi as [Hst Hlk Hnd Hob Hso Hq Hca Hal H1 H2 H3 Hh Hmu Hnw]. destruct (state_bits _ Hst) as (_ & _ & _ & _ & B4 & B5).
  unfold worker_step, calls_ok in *. rewrite Et in *.
  destruct (suspend_work_queue s) as [|[] q] eqn:Eq; [by exists s| |]; (eexists; split; [done|]);
    apply NoDup_cons in Hq as [_ Hq]; split; cbn; try done.
  + intros Hs. by right.
  + intros Hs. destruct (H2 Hs) as [Hin|]; [|congruence]. left. cbn. rewrite Eq in Hin. set_solver.
  + intros Hs. right. left. by right.
  + intros Hs. destruct (H1 Hs) as [Hin|]; [|congruence]. left. cbn. rewrite Eq in Hin. set_solver.
  + intros Hs. by right.
  + intros Hs. destruct (H3 Hs) as [?|[[Hin|]|[[? ?]|?]]]; [by left| |congruence..]. right. left. left. cbn. rewrite Eq in Hin. set_solver.
Qed.

(** [early_suspend] looks at the state. *)
Lemma early_enter_inv e s : inv s -> thread s = EarlyStart -> registering s = None ->
  exists s', worker_step e s = Some s' /\ inv s'.
Proof.
  intros Hi Et Er. pose proof Hi as [Hst Hlk Hnd Hob Hso Hq Hca Hal H1 H2 H3 Hh Hmu Hnw]. destruct (state_bits _ Hst) as (_ & _ & _ & _ & B4 & B5).
  unfold worker_step, calls_ok in *. rewrite Et in *.
  unfold early_suspend_enter. destruct (Z.eqb_spec (state s) SUSPEND_REQUESTED) as [Hs|Hs]; (eexists; split; [done|]).
  + rewrite B4, Hs. change (SUSPEND_REQUESTED mod 2 + 2) with 3. unfold suspended_bit in Hca. rewrite Hs in Hca.
    split; cbn; try done.
    * split; [done|]. exists []. split; [done|]. split; [intros h Hin; set_solver|]. exact Hca.
    * intros _. right. right. left. eauto.
    * intros Hf. destruct (Hh Hf) as [Hc _]. by rewrite Hs in Hc.
  + split; cbn; try done.
    * intros Hs2. destruct (H2 Hs2) as [?|?]; [by left|congruence].
    * intros _. by right; right; right.
Qed.

(** It calls one handler. *)
Lemma early_call_inv e rest s : inv s -> thread s = EarlyCalls rest -> exists s', worker_step e s = Some s' /\ inv s'.
Proof.
  intros Hi Et. pose proof Hi as [Hst Hlk Hnd Hob Hso Hq Hca Hal H1 H2 H3 Hh Hmu Hnw]. destruct (state_bits _ Hst) as (_ & _ & _ & _ & B4 & B5).
  unfold worker_step, calls_ok in *. rewrite Et in *.
  destruct Hca as (Hb & done & Hl & Hd & Hr). destruct rest as [|h rest].
  + eexists. split; [done|]. split; cbn; try done.
    * unfold calls_ok. cbn. change (suspended_bit (set_thread EarlyEnd s)) with (suspended_bit s). rewrite Hb.
      rewrite app_nil_r in Hl. rewrite Hl. exact Hd.
    * intros Hs. unfold suspended_bit in Hb. by rewrite Hs in Hb.
    * intros Hs. destruct (H2 Hs) as [?|?]; [by left|congruence].
    * intros _. by right; right; right.
    * intros Hf. destruct (Hh Hf) as [_ Hu]. discriminate Hu.
  + destruct (Hob h) as (o & Ho & Hreg); [rewrite Hl; set_solver|].
    destruct (suspend_called s h o Ho Hreg) as (s' & -> & Hc). eexists. split; [done|].
    apply (called_inv true h s s'); try done.
    * intros Hp. apply Hr; [set_solver| |done]. intros Hx. discriminate (Hmu ltac:(congruence)).
    * by rewrite Et.
    * eauto.
    * destruct (decide (state s = 2)) as [Hs|]; [|by left]. right. destruct (H2 Hs) as [?|?]; [by left|congruence].
    * rewrite Hl in Hnd. destruct (called_split true h s s' done rest Hc Hnd Hd Hr) as [Hd' Hr'].
      unfold calls_ok. cbn. split; [by rewrite (cd_same _ _ _ _ Hc)|]. exists (done ++ [h]).
      split; [rewrite (cd_same _ _ _ _ Hc); cbn; by rewrite Hl, <- app_assoc|]. split; [exact Hd'|exact Hr'].
Qed.

(** It releases the main lock. *)
Lemma early_exit_inv e s : inv s -> thread s = EarlyEnd -> exists s', worker_step e s = Some s' /\ inv s'.
Proof.
  intros Hi Et. pose proof Hi as [Hst Hlk Hnd Hob Hso Hq Hca Hal H1 H2 H3 Hh Hmu Hnw]. destruct (state_bits _ Hst) as (_ & _ & _ & _ & B4 & B5).
  unfold worker_step, calls_ok in *. rewrite Et in *.
  unfold early_suspend_exit. destruct (Z.eqb_spec (state s) SUSPEND_REQUESTED_AND_SUSPENDED) as [Hs|Hs].
  + destruct (ml_unlock_ok e _ Hlk) as (w & Hw & Hok & Hheld). rewrite Hw. cbn [mbind option_bind]. eexists. split; [done|].
    split; cbn; try done.
    * intros Hs'. by rewrite Hs in Hs'.
    * intros Hs'. by rewrite Hs in Hs'.
    * intros _. by left.
  + eexists. split; [done|]. split; cbn; try done.
    * intros Hs1. destruct (H1 Hs1) as [?|?]; [by left|congruence].
    * intros Hs1. destruct (H2 Hs1) as [?|?]; [by left|congruence].
Qed.

(** [late_resume] looks at the state. *)
Lemma late_enter_inv e s : inv s -> thread s = LateStart -> registering s = None ->
  exists s', worker_step e s = Some s' /\ inv s'.
Proof.
  intros Hi Et Er. pose proof Hi as [Hst Hlk Hnd Hob Hso Hq Hca Hal H1 H2 H3 Hh Hmu Hnw]. destruct (state_bits _ Hst) as (_ & _ & _ & _ & B4 & B5).
  unfold worker_step, calls_ok in *. rewrite Et in *.
  unfold late_resume_enter. destruct (Z.eqb_spec (state s) SUSPENDED) as [Hs|Hs]; (eexists; split; [done|]).
  + rewrite B5, Hs. change (SUSPENDED mod 2) with 0. unfold suspended_bit in Hca. rewrite Hs in Hca.
    split; cbn; try done.
    * split; [done|]. exists []. split; [done|]. split; [intros h Hin; set_solver|].
      intros h Hin. apply Hca. by rewrite list_elem_of_In, <- in_rev, <- list_elem_of_In in Hin.
    * intros Hf. destruct (Hh Hf) as [Hc _]. by rewrite Hs in Hc.
  + split; cbn; try done.
    * intros Hs1. destruct (H1 Hs1) as [?|?]; [by left|congruence].
    * intros Hs3. destruct (H3 Hs3) as [?|[[?|?]|[[? ?]|?]]]; [by left|right; left; by left|congruence..].
Qed.

(** It calls one handler. *)
Lemma late_call_inv e rest s : inv s -> thread s = LateCalls rest -> exists s', worker_step e s = Some s' /\ inv s'.
Proof.
  intros Hi Et. pose proof Hi as [Hst Hlk Hnd Hob Hso Hq Hca Hal H1 H2 H3 Hh Hmu Hnw]. destruct (state_bits _ Hst) as (_ & _ & _ & _ & B4 & B5).
  unfold worker_step, calls_ok in *. rewrite Et in *.
  destruct Hca as (Hb & done & Hl & Hd & Hr). destruct rest as [|h rest].
  + eexists. split; [done|]. split; cbn; try done.
    * unfold calls_ok. cbn. change (suspended_bit (set_thread Waiting s)) with (suspended_bit s). rewrite Hb.
      rewrite app_nil_r in Hl. intros h Hin. apply Hd. rewrite <- Hl. by rewrite list_elem_of_In, <- in_rev, <- list_elem_of_In.
    * intros Hs. destruct (H1 Hs) as [?|?]; [by left|congruence].
    * intros Hs. unfold suspended_bit in Hb. by rewrite Hs in Hb.
    * intros Hs. unfold suspended_bit in Hb. by rewrite Hs in Hb.
    * intros Hf. destruct (Hh Hf) as [_ Hu]. discriminate Hu.
  + assert (Hin : h ∈ early_suspend_handlers s).
    { rewrite list_elem_of_In, in_rev, Hl, <- list_elem_of_In. set_solver. }
    destruct (Hob h Hin) as (o & Ho & Hreg).
    destruct (resume_called s h o Ho Hreg) as (s' & -> & Hc). eexists. split; [done|].
    assert (Hlt : state s <> 2 /\ state s <> 3).
    { unfold suspended_bit in Hb. apply Z.leb_gt in Hb. lia. }
    destruct Hlt as [Hl2 Hl3]. apply (called_inv false h s s'); try done; [ | |by left|].
    * intros Hp. apply Hr; [set_solver| |done]. intros Hx. discriminate (Hmu ltac:(congruence)).
    * by rewrite Et.
    * assert (Hnd' : NoDup (done ++ h :: rest)) by (rewrite <- Hl; apply NoDup_ListNoDup, NoDup_rev; by apply NoDup_ListNoDup).
      destruct (called_split false h s s' done rest Hc Hnd' Hd Hr) as [Hd' Hr'].
      unfold calls_ok. cbn. split; [by rewrite (cd_same _ _ _ _ Hc)|]. exists (done ++ [h]).
      split; [rewrite (cd_same _ _ _ _ Hc); cbn; by rewrite Hl, <- app_assoc|]. split; [exact Hd'|exact Hr'].
Qed.

Lemma worker_inv e s : inv s -> blocked s = false -> exists s', worker_step e s = Some s' /\ inv s'.
Proof.
  intros Hi Hb. unfold blocked in Hb.
  assert (Hr : thread s = EarlyStart \/ thread s = LateStart -> registering s = None).
  { intros [Et|Et]; rewrite Et in Hb; apply bool_decide_eq_false in Hb; by apply dec_stable. }
  destruct (thread s) as [| |rest| | |rest] eqn:Et;
    [by apply pick_inv|apply early_enter_inv; auto|by eapply early_call_inv|by apply early_exit_inv|
     apply late_enter_inv; auto|by eapply late_call_inv].
Qed.

(** ** Registration *)

(** The new handler goes after those of its level and before those of higher ones. *)
Lemma add_sorted_ok objs lv h l :
  (forall x, x ∈ l -> is_Some (objs !! x)) ->
  StronglySorted (fun a b => level_of objs a <= level_of objs b) l ->
  exists l1 l2, l = l1 ++ l2 /\ add_sorted objs lv h l = Some (l1 ++ h :: l2) /\
    (forall x, x ∈ l1 -> level_of objs x <= lv) /\ (forall x, x ∈ l2 -> lv < level_of objs x).
Proof.
  induction l as [|x l IH]; intros Hob Hso; cbn [add_sorted]; [by exists [], []; split_and!; try set_solver|].
  apply StronglySorted_cons in Hso as [Hall Hso]. rewrite Forall_forall in Hall.
  destruct (Hob x ltac:(set_solver)) as [o Ho]. rewrite Ho. cbn [mbind option_bind].
  assert (Hlv : level_of objs x = level o) by (unfold level_of; by rewrite Ho).
  destruct (Z.ltb_spec lv (level o)).
  - exists [], (x :: l). split; [done|]. split; [done|]. split; [set_solver|].
    intros y [->|Hy]%elem_of_cons; [lia|]. specialize (Hall y Hy). lia.
  - destruct IH as (l1 & l2 & -> & -> & H1 & H2); [set_solver|done|]. exists (x :: l1), l2.
    split; [done|]. split; [done|]. split; [|done]. intros y [->|Hy]%elem_of_cons; [lia|by apply H1].
Qed.

Lemma sorted_insert objs h l1 l2 :
  StronglySorted (fun a b => level_of objs a <= level_of objs b) (l1 ++ l2) ->
  (forall x, x ∈ l1 -> level_of objs x <= level_of objs h) -> (forall x, x ∈ l2 -> level_of objs h < level_of objs x) ->
  StronglySorted (fun a b => level_of objs a <= level_of objs b) (l1 ++ h :: l2).
Proof.
  induction l1 as [|x l1 IH]; cbn [app]; intros Hs H1 H2.
  - constructor; [done|]. rewrite Forall_forall. intros y Hy. specialize (H2 y Hy). lia.
  - apply StronglySorted_cons in Hs as [Hall Hs]. constructor; [apply IH; [done|set_solver|done]|].
    rewrite Forall_forall in *. intros y Hy. specialize (H1 x ltac:(set_solver)).
    apply elem_of_app in Hy as [Hy|[->|Hy]%elem_of_cons]; [apply Hall; set_solver|done|apply Hall; set_solver].
Qed.

Lemma levels_ext objs objs' l :
  (forall x, x ∈ l -> objs' !! x = objs !! x) ->
  StronglySorted (fun a b => level_of objs a <= level_of objs b) l ->
  StronglySorted (fun a b => level_of objs' a <= level_of objs' b) l.
Proof.
  induction l as [|x l IH]; intros He Hs; [constructor|]. apply StronglySorted_cons in Hs as [Hall Hs].
  constructor; [apply IH; [set_solver|done]|]. rewrite Forall_forall in *. intros y Hy.
  unfold level_of. rewrite !He by set_solver. by apply Hall.
Qed.

Lemma sorted_filter objs (P : nat -> Prop) `{!forall x, Decision (P x)} l :
  StronglySorted (fun a b => level_of objs a <= level_of objs b) l ->
  StronglySorted (fun a b => level_of objs a <= level_of objs b) (filter P l).
Proof.
  induction l as [|x l IH]; intros Hs; [constructor|]. apply StronglySorted_cons in Hs as [Hall Hs].
  destruct (decide (P x)); [rewrite filter_cons_True by done|rewrite filter_cons_False by done; by apply IH].
  constructor; [by apply IH|]. rewrite Forall_forall in *. intros y [_ Hy]%list_elem_of_filter. by apply Hall.
Qed.

(** Outside the calls, [calls_ok] is about all handlers. *)
Lemma mutex_free_iff s : mutex_free s = true <-> unlocked (thread s) = true /\ registering s = None.
Proof. unfold mutex_free. by rewrite andb_true_iff, bool_decide_eq_true. Qed.

Lemma calls_unlocked s : unlocked (thread s) = true -> calls_ok s <-> all_down (suspended_bit s) s (early_suspend_handlers s).
Proof. intros Hu. unfold calls_ok. by destruct (thread s). Qed.

Lemma registration_new h o l x : registration (Registered h o :: l) x = if decide (x = h) then Some o else registration l x.
Proof.
  cbn [registration]. destruct (decide (x = h)) as [->|]; [by rewrite Nat.eqb_refl|].
  by rewrite (proj2 (Nat.eqb_neq h x)) by congruence.
Qed.
Lemma is_down_new h o l x : is_down (Registered h o :: l) x = if decide (x = h) then false else is_down l x.
Proof.
  cbn [is_down]. destruct (decide (x = h)) as [->|]; [by rewrite Nat.eqb_refl|].
  by rewrite (proj2 (Nat.eqb_neq h x)) by congruence.
Qed.

(** The state right after the new handler was put on the list. *)
Lemma listed_ok h o s l1 l2 :
  inv s -> mutex_free s = true -> h ∉ early_suspend_handlers s -> early_suspend_handlers s = l1 ++ l2 ->
  let objs := <[h := o]> (objects s) in
  (forall x, x ∈ l1 -> level_of objs x <= level o) -> (forall x, x ∈ l2 -> level o < level_of objs x) ->
  inv (Es (state s) (l1 ++ h :: l2) objs (requested_suspend_state s) (suspend_work_queue s) (thread s)
         (Some h) (locks s) (Registered h o :: events s)).
Proof.
  intros [Hst Hlk Hnd Hob Hso Hq Hca Hal H1 H2 H3 Hh Hmu Hnw] Hm Hnew Hl objs Hlo Hhi.
  apply mutex_free_iff in Hm as [Hu Hr]. apply (calls_unlocked _ Hu) in Hca. rewrite Hl in *.
  assert (Hold : forall x, x ∈ l1 ++ l2 -> objs !! x = objects s !! x).
  { intros x Hx. apply lookup_insert_ne. congruence. }
  assert (Hlh : level_of objs h = level o) by (unfold level_of, objs; by rewrite lookup_insert_eq).
  split; cbn -[registration is_down]; try done.
  - rewrite <- Permutation_middle. by apply NoDup_cons.
  - intros x Hx. rewrite registration_new. destruct (decide (x = h)) as [->|Hxh].
    + exists o. split; [apply lookup_insert_eq|done].
    + rewrite Hold by set_solver. apply Hob. set_solver.
  - apply sorted_insert; rewrite ?Hlh; try done. by apply (levels_ext (objects s)).
  - apply calls_unlocked; [done|]. intros x Hx Hn Hp. cbn -[registration is_down] in Hx, Hn, Hp |- *.
    assert (Hxh : x <> h) by congruence. rewrite is_down_new, decide_False by done. apply Hca; [set_solver|congruence|].
    destruct Hp as (o' & Ho' & Hpo). rewrite registration_new, decide_False in Ho' by done. by exists o'.
  - intros x [= <-]. split; [set_solver|]. by rewrite is_down_new, decide_True.
Qed.

Lemma register_add_inv h o s :
  inv s -> mutex_free s = true -> h ∉ early_suspend_handlers s ->
  exists s', register_add h o s = Some s' /\ inv s' /\ registering s' = Some h /\ exists l1 l2,
    early_suspend_handlers s = l1 ++ l2 /\ early_suspend_handlers s' = l1 ++ h :: l2 /\
    (forall x, x ∈ l1 -> level_of (objects s') x <= level o) /\ (forall x, x ∈ l2 -> level o < level_of (objects s') x).
Proof.
  intros Hi Hm Hnew. unfold register_add.
  rewrite bool_decide_eq_false_2 by done. cbn [objects log early_suspend_handlers].
  set (objs := <[h := o]> (objects s)).
  assert (Hold : forall x, x ∈ early_suspend_handlers s -> objs !! x = objects s !! x).
  { intros x Hx. apply lookup_insert_ne. congruence. }
  destruct (add_sorted_ok objs (level o) h (early_suspend_handlers s)) as (l1 & l2 & Hl & -> & Hlo & Hhi).
  { intros x Hx. rewrite Hold by done. destruct (i_objs _ Hi x Hx) as (y & Hy & _). eauto. }
  { apply (levels_ext (objects s)); [done|apply Hi]. }
  cbn [mbind option_bind]. eexists. split; [done|].
  split; [exact (listed_ok h o s l1 l2 Hi Hm Hnew Hl Hlo Hhi)|]. split; [done|]. by exists l1, l2.
Qed.

Lemma suspended_test s : inv s -> negb (Z.land (state s) SUSPENDED =? 0) = suspended_bit s.
Proof.
  intros Hi. destruct (state_bits _ (i_state _ Hi)) as (_ & B & _). rewrite B. pose proof (i_state _ Hi).
  unfold suspended_bit. destruct (Z.eqb_spec (2 * (state s / 2)) 0), (Z.leb_spec 2 (state s)); try done; exfalso;
    Z.to_euclidean_division_equations; lia.
Qed.

(** A registration that ends leaves its handler in line with the others. *)
Lemma register_call_inv s : inv s ->
  exists s', register_call s = Some s' /\ inv s' /\ registering s' = None /\
    early_suspend_handlers s' = early_suspend_handlers s /\ state s' = state s /\ thread s' = thread s /\
    suspend_work_queue s' = suspend_work_queue s /\ locks s' = locks s /\
    (forall h, registering s = Some h -> pairs (events s') h -> is_down (events s') h = suspended_bit s).
Proof.
  intros Hi. unfold register_call. destruct (registering s) as [h|] eqn:Er.
  2:{ exists s. split; [done|]. split; [done|]. done. }
  rewrite (suspended_test _ Hi). pose proof Hi as [Hst Hlk Hnd Hob Hso Hq Hca Hal H1 H2 H3 Hh Hmu Hnw].
  destruct (Hnw h Er) as [Hin Hdn]. assert (Hu : unlocked (thread s) = true) by (apply Hmu; congruence).
  apply (calls_unlocked _ Hu) in Hca. destruct (suspended_bit s) eqn:Eb.
  - destruct (Hob h Hin) as (o & Ho & Hreg). destruct (suspend_called s h o Ho Hreg) as (s' & -> & Hc).
    cbn [mbind option_bind]. eexists. split; [done|]. rewrite (cd_same _ _ _ _ Hc). cbn.
    assert (Hself : pairs (events s') h -> is_down (events s') h = true).
    { intros Hp. apply (cd_self _ _ _ _ Hc). by apply (called_pairs _ _ _ _ _ Hc). }
    split; [|do 6 (split; [done|]); by intros x [= <-]]. split; cbn; try done.
    + intros x Hx. rewrite (cd_reg _ _ _ _ Hc). by apply Hob.
    + apply calls_unlocked; [done|]. intros x Hx _ Hp. cbn in Hx, Hp |- *.
      change (suspended_bit _) with (suspended_bit s). rewrite Eb.
      destruct (decide (x = h)) as [->|Hxh]; [by apply Hself|]. rewrite (cd_other _ _ _ _ Hc) by done.
      apply Hca; [done|congruence|]. by apply (called_pairs _ _ _ _ _ Hc).
    + apply (cd_alt _ _ _ _ Hc); [|done]. by intros _.
  - eexists. split; [done|]. cbn. split; [|do 6 (split; [done|]); by intros x [= <-] _]. split; cbn; try done.
    apply calls_unlocked; [done|]. intros x Hx _ Hp. cbn in Hx, Hp |- *. change (suspended_bit _) with (suspended_bit s).
    rewrite Eb. destruct (decide (x = h)) as [->|Hxh]; [done|]. apply Hca; [done|congruence|done].
Qed.

Lemma unregister_inv h s :
  inv s -> mutex_free s = true -> h ∈ early_suspend_handlers s ->
  exists s', unregister_early_suspend h s = Some s' /\ inv s'.
Proof.
  intros [Hst Hlk Hnd Hob Hso Hq Hca Hal H1 H2 H3 Hh Hmu Hnw] [Hu Hr]%mutex_free_iff Hin. apply (calls_unlocked _ Hu) in Hca.
  unfold unregister_early_suspend. rewrite bool_decide_eq_true_2 by done. eexists. split; [done|]. split; cbn; try done.
  - by apply NoDup_filter.
  - intros x [_ Hx]%list_elem_of_filter. by apply Hob.
  - by apply sorted_filter.
  - apply calls_unlocked; [done|]. intros x Hx. cbn in Hx. apply list_elem_of_filter in Hx as [_ Hx]. by apply Hca.
  - intros x Hx. congruence.
Qed.

Lemma other_inv w s : inv s -> ml_other (locks s) w -> inv (set_locks w s).
Proof.
  intros [Hst Hlk Hnd Hob Hso Hq Hca Hal H1 H2 H3 Hh Hmu Hnw] Ho. destruct (ml_other_ok _ _ Hlk Ho) as [Hok Hheld].
  split; cbn; try done; by rewrite Hheld.
Qed.

Lemma boot_inv w : ml_ok w -> ml_held w = true -> inv (boot w).
Proof.
  intros Hok Hh. split; cbn; try done; try (intros; lia); try constructor; try set_solver. congruence.
Qed.

Lemma reach_inv s : reach s -> inv s.
Proof.
  induction 1 as [w Hok Hh|s s' _ IH Hs]; [by apply boot_inv|].
  destruct Hs as [e s' Hb He|e n s' He|h o s' Hu Hn He|s' He|h s' Hu Hin He|w Ho].
  - destruct (worker_inv e s IH Hb) as (s2 & He2 & Hi). congruence.
  - by eapply request_inv.
  - destruct (register_add_inv h o s IH Hu Hn) as (s2 & He2 & Hi & _). congruence.
  - destruct (register_call_inv s IH) as (s2 & He2 & Hi & _). congruence.
  - destruct (unregister_inv h s IH Hu Hin) as (s2 & He2 & Hi). congruence.
  - by apply other_inv.
Qed.

(** ** The worker on its own *)

Fixpoint worker_run (l : list E) s : option (es W) :=
  match l with [] => Some s | e :: l => s ← worker_step e s; worker_run l s end.

(** The moves the work takes that was started or is pending. *)
Definition work_cost (n : nat) (w : work) : nat := match w with EarlySuspendWork => n + 4 | LateResumeWork => n + 3 end.
Definition thread_cost (n : nat) (t : worker) : nat :=
  match t with
  | Waiting => 0 | EarlyStart => n + 3 | EarlyCalls l => length l + 2 | EarlyEnd => 1
  | LateStart => n + 2 | LateCalls l => length l + 1
  end.
Definition cost s : nat :=
  let n := length (early_suspend_handlers s) in
  thread_cost n (thread s) + sum_list_with (work_cost n) (suspend_work_queue s).

Lemma worker_progress e s s' :
  inv s -> worker_step e s = Some s' ->
  early_suspend_handlers s' = early_suspend_handlers s /\ registering s' = registering s /\ state s' mod 2 = state s mod 2 /\
  (cost s' < cost s \/ thread s = Waiting /\ suspend_work_queue s = [] /\ s' = s)%nat.
Proof.
  intros Hi He. pose proof (i_state _ Hi) as Hst. destruct (state_bits _ Hst) as (_ & _ & _ & _ & B4 & B5).
  unfold worker_step in He. unfold cost.
  destruct (thread s) as [| |[|h rest]| | |[|h rest]] eqn:Et.
  - destruct (suspend_work_queue s) as [|[] q] eqn:Eq; injection He as <-; cbn; rewrite ?Eq; cbn;
      (split; [done|]); (split; [done|]); (split; [done|]); [by right|left; lia..].
  - unfold early_suspend_enter in He. destruct (Z.eqb_spec (state s) SUSPEND_REQUESTED) as [Hs|_]; injection He as <-; cbn;
      (split; [done|]); (split; [done|]); (split; [|left; lia]); [|done].
    rewrite B4. Z.to_euclidean_division_equations; lia.
  - injection He as <-. cbn. split; [done|]. split; [done|]. split; [done|]. left. lia.
  - unfold call_suspend in He. destruct (objects s !! h) as [o|]; [|done]. injection He as <-.
    destruct (suspend o); cbn; (split; [done|]); (split; [done|]); (split; [done|]); left; lia.
  - unfold early_suspend_exit in He. destruct (_ =? _); [|injection He as <-; cbn; do 3 (split; [done|]); left; lia].
    destruct (ml_unlock e (locks s)); [|done]. injection He as <-. cbn. do 3 (split; [done|]). left. lia.
  - unfold late_resume_enter in He. destruct (Z.eqb_spec (state s) SUSPENDED) as [Hs|_]; injection He as <-; cbn;
      rewrite ?length_rev; (split; [done|]); (split; [done|]); (split; [|left; lia]); [|done].
    rewrite B5. Z.to_euclidean_division_equations; lia.
  - injection He as <-. cbn. split; [done|]. split; [done|]. split; [done|]. left. lia.
  - unfold call_resume in He. destruct (objects s !! h) as [o|]; [|done]. injection He as <-.
    destruct (resume o); cbn; (split; [done|]); (split; [done|]); (split; [done|]); left; lia.
Qed.

Lemma unblocked s : registering s = None -> blocked s = false.
Proof. intros Hr. unfold blocked. rewrite Hr. by destruct (thread s). Qed.

Lemma worker_run_ok l s :
  inv s -> registering s = None -> (cost s <= length l)%nat ->
  exists s', worker_run l s = Some s' /\ inv s' /\ thread s' = Waiting /\ suspend_work_queue s' = [] /\
    early_suspend_handlers s' = early_suspend_handlers s /\ registering s' = None /\ state s' mod 2 = state s mod 2.
Proof.
  revert s. induction l as [|e l IH]; intros s Hi Hr Hc; cbn [worker_run length] in *.
  - exists s. split; [done|]. split; [done|]. unfold cost in Hc.
    destruct (thread s); cbn in Hc; try lia. split; [done|]. split; [|done].
    destruct (suspend_work_queue s) as [|[] q]; [done|cbn in Hc; lia..].
  - destruct (worker_inv e s Hi (unblocked s Hr)) as (s1 & He & Hi1). rewrite He. cbn [mbind option_bind].
    destruct (worker_progress e s s1 Hi He) as (Hh & Hr1 & Hm & Hcost). rewrite Hr in Hr1.
    destruct (IH s1 Hi1 Hr1) as (s' & Hrun & Hi' & Ht & Hq & Hh' & Hr' & Hm').
    { destruct Hcost as [?|(Ht & Hq & ->)]; [lia|]. unfold cost. rewrite Ht, Hq. cbn. lia. }
    exists s'. rewrite Hh', Hm', Hh, Hm. done.
Qed.

Lemma worker_run_steps l s s' : inv s -> registering s = None -> worker_run l s = Some s' -> rtc step s s'.
Proof.
  revert s. induction l as [|e l IH]; intros s Hi Hr; cbn [worker_run]; [intros [= <-]; apply rtc_refl|].
  destruct (worker_inv e s Hi (unblocked s Hr)) as (s1 & He & Hi1). rewrite He. cbn [mbind option_bind]. intros Hrun.
  destruct (worker_progress e s s1 Hi He) as (_ & Hr1 & _). apply rtc_l with s1; [|apply IH; congruence].
  apply (step_worker _ e); [by apply unblocked|done].
Qed.

Lemma reach_rtc s s' : reach s -> rtc step s s' -> reach s'.
Proof. intros Hr. induction 1 as [|x y z Hxy _ IH]; [done|]. apply IH. by eapply reach_step. Qed.

Lemma cost_bound s : inv s ->
  (forall l, thread s = EarlyCalls l \/ thread s = LateCalls l -> (length l <= length (early_suspend_handlers s))%nat) ->
  (cost s <= 3 * length (early_suspend_handlers s) + 10)%nat.
Proof.
  intros Hi Hl. pose proof (i_queue _ Hi) as Hq. unfold cost. set (n := length (early_suspend_handlers s)) in *.
  assert (Ht : (thread_cost n (thread s) <= n + 3)%nat).
  { destruct (thread s) as [| |l| | |l]; cbn; try lia; [specialize (Hl l (or_introl eq_refl))|specialize (Hl l (or_intror eq_refl))]; lia. }
  assert (Hw : (sum_list_with (work_cost n) (suspend_work_queue s) <= 2 * n + 7)%nat).
  { destruct (suspend_work_queue s) as [|a [|b [|c q]]]; [cbn; lia|destruct a; cbn; lia|..].
    - apply NoDup_cons in Hq as [Hab _]. destruct a, b; cbn; try lia; set_solver.
    - apply NoDup_cons in Hq as [Ha Hq]. apply NoDup_cons in Hq as [Hb _]. destruct a, b, c; set_solver. }
  lia.
Qed.

Lemma calls_short s : inv s ->
  forall l, thread s = EarlyCalls l \/ thread s = LateCalls l -> (length l <= length (early_suspend_handlers s))%nat.
Proof.
  intros Hi l Hl. pose proof (i_calls _ Hi) as Hc. unfold calls_ok in Hc. destruct Hl as [Hl|Hl]; rewrite Hl in Hc.
  - destruct Hc as (_ & done & -> & _). rewrite length_app. lia.
  - destruct Hc as (_ & done & Heq & _). rewrite <- (length_rev (early_suspend_handlers s)), Heq, length_app. lia.
Qed.

(** A state in which the worker has nothing to do. *)
Lemma quiescent s : inv s -> thread s = Waiting -> suspend_work_queue s = [] ->
  (state s mod 2 = 1 -> state s = 3 /\ ml_held (locks s) = false) /\
  (state s mod 2 = 0 -> state s = 0 /\ ml_held (locks s) = true) /\
  all_down (suspended_bit s) s (early_suspend_handlers s).
Proof.
  intros [Hst Hlk Hnd Hob Hso Hq Hca Hal H1 H2 H3 Hh Hmu Hnw] Ht Hq0. unfold early_coming, late_coming in *. rewrite Ht, Hq0 in *.
  assert (N1 : state s <> 1) by (intros Hs; destruct (H1 Hs); [set_solver|done]).
  assert (N2 : state s <> 2) by (intros Hs; destruct (H2 Hs); [set_solver|done]).
  split; [|split].
  - intros Hm. assert (Hs : state s = 3) by (Z.to_euclidean_division_equations; lia). split; [done|].
    destruct (H3 Hs) as [?|[[?|?]|[[? ?]|?]]]; [done|set_solver|done..].
  - intros Hm. assert (Hs : state s = 0) by (Z.to_euclidean_division_equations; lia). split; [done|].
    destruct (ml_held (locks s)) eqn:Eh; [done|]. destruct (Hh eq_refl) as [Hc _]. by rewrite Hs in Hc.
  - unfold calls_ok in Hca. by rewrite Ht in Hca.
Qed.

(** The calls of one run, the latest first. *)
Definition suspend_calls (objs : gmap nat early_suspend_t) (l : list nat) : list event :=
  rev (Suspended <$> filter (fun h => (suspend <$> objs !! h) = Some true) l).
Definition resume_calls (objs : gmap nat early_suspend_t) (l : list nat) : list event :=
  rev (Resumed <$> filter (fun h => (resume <$> objs !! h) = Some true) l).

Lemma early_calls_run l es s :
  thread s = EarlyCalls l -> length es = length l -> (forall h, h ∈ l -> is_Some (objects s !! h)) ->
  exists s', worker_run es s = Some s' /\ thread s' = EarlyCalls [] /\
    events s' = suspend_calls (objects s) l ++ events s /\ state s' = state s.
Proof.
  revert es s. induction l as [|h l IH]; intros es s Ht Hl Hob; (destruct es as [|e es]; [|done]) || (destruct es as [|e es]; [done|]).
  - exists s. done.
  - cbn [worker_run]. unfold worker_step. rewrite Ht. unfold call_suspend. destruct (Hob h ltac:(set_solver)) as [o Ho].
    rewrite Ho. cbn [mbind option_bind]. set (s1 := set_thread (EarlyCalls l) _).
    assert (Hs1 : objects s1 = objects s /\ state s1 = state s) by (unfold s1; by destruct (suspend o)). destruct Hs1 as [Hob1 Hst1].
    destruct (IH es s1 eq_refl) as (s' & Hr & Ht' & Hev & Hst); [by injection Hl|rewrite Hob1; set_solver|].
    exists s'. split; [done|]. split; [done|]. split; [|congruence]. rewrite Hev, Hob1. unfold suspend_calls, s1.
    destruct (suspend o) eqn:Eo.
    + rewrite (filter_cons_True _ h) by (by rewrite Ho; cbn; rewrite Eo). cbn. by rewrite <- app_assoc.
    + rewrite (filter_cons_False _ h) by (by rewrite Ho; cbn; rewrite Eo). done.
Qed.

Lemma late_calls_run l es s :
  thread s = LateCalls l -> length es = length l -> (forall h, h ∈ l -> is_Some (objects s !! h)) ->
  exists s', worker_run es s = Some s' /\ thread s' = LateCalls [] /\
    events s' = resume_calls (objects s) l ++ events s /\ state s' = state s.
Proof.
  revert es s. induction l as [|h l IH]; intros es s Ht Hl Hob; (destruct es as [|e es]; [|done]) || (destruct es as [|e es]; [done|]).
  - exists s. done.
  - cbn [worker_run]. unfold worker_step. rewrite Ht. unfold call_resume. destruct (Hob h ltac:(set_solver)) as [o Ho].
    rewrite Ho. cbn [mbind option_bind]. set (s1 := set_thread (LateCalls l) _).
    assert (Hs1 : objects s1 = objects s /\ state s1 = state s) by (unfold s1; by destruct (resume o)). destruct Hs1 as [Hob1 Hst1].
    destruct (IH es s1 eq_refl) as (s' & Hr & Ht' & Hev & Hst); [by injection Hl|rewrite Hob1; set_solver|].
    exists s'. split; [done|]. split; [done|]. split; [|congruence]. rewrite Hev, Hob1. unfold resume_calls, s1.
    destruct (resume o) eqn:Eo.
    + rewrite (filter_cons_True _ h) by (by rewrite Ho; cbn; rewrite Eo). cbn. by rewrite <- app_assoc.
    + rewrite (filter_cons_False _ h) by (by rewrite Ho; cbn; rewrite Eo). done.
Qed.

(** The main lock is released only after the handlers have run. *)
Lemma released_after_calls s :
  inv s -> ml_held (locks s) = false ->
  state s = SUSPEND_REQUESTED_AND_SUSPENDED /\ unlocked (thread s) = true /\
  forall h, h ∈ early_suspend_handlers s -> registering s <> Some h -> pairs (events s) h -> is_down (events s) h = true.
Proof.
  intros Hi Hf. destruct (i_held _ Hi Hf) as [Hs Hu]. split; [done|]. split; [done|].
  pose proof (i_calls _ Hi) as Hc. apply (calls_unlocked _ Hu) in Hc.
  intros h Hh Hn Hp. rewrite (Hc h Hh Hn Hp). unfold suspended_bit. by rewrite Hs.
Qed.

(** ** The properties *)

(** C16: In every reachable interleaving of user requests, the worker thread, registrations
    and the other users of wake locks: the main wake lock is released only while sleep is requested, the
    suspend handlers were called and the worker is calling none of them, and every handler with both
    functions is down, except one whose [register_early_suspend] has put it on the list and has not
    returned yet; when that registration goes on, it leaves its handler down too.  The calls of a
    handler with both functions alternate, beginning with [suspend], also when it registers late. *)
Theorem early_suspend_safe s :
  reach s ->
  (ml_held (locks s) = false ->
     state s = SUSPEND_REQUESTED_AND_SUSPENDED /\ unlocked (thread s) = true /\
     forall h, h ∈ early_suspend_handlers s -> registering s <> Some h -> pairs (events s) h ->
       is_down (events s) h = true) /\
  (exists s', register_call s = Some s' /\ registering s' = None /\
     (ml_held (locks s') = false -> forall h, h ∈ early_suspend_handlers s -> pairs (events s') h ->
        is_down (events s') h = true)) /\
  alternate (events s).
Proof.
  intros Hr. apply reach_inv in Hr as Hi. split; [by apply released_after_calls|]. split; [|apply Hi].
  destruct (register_call_inv s Hi) as (s' & He & Hi' & Hr' & Hh & _). exists s'. split; [done|]. split; [done|].
  intros Hf h Hin Hp. destruct (released_after_calls s' Hi' Hf) as (_ & _ & Hd). apply Hd; [by rewrite Hh|by rewrite Hr'|done].
Qed.

(** C15: From every reachable state, when no further request comes and a registration that is under way
    has ended, the worker thread comes to rest within 3 n + 10 moves for n handlers.  If the last request
    was to sleep, then the system is suspended, every handler with
    both functions is down and the main wake lock is released; if it was to wake up, every such
    handler is up and the main wake lock is held.  No sequence of requests, however it overlaps the work
    items and registrations, is lost. *)
Theorem early_suspend_converges s es :
  reach s -> (3 * length (early_suspend_handlers s) + 10 <= length es)%nat ->
  exists s0 s', register_call s = Some s0 /\ (registering s = None -> s0 = s) /\
    worker_run es s0 = Some s' /\ thread s' = Waiting /\ suspend_work_queue s' = [] /\
    early_suspend_handlers s' = early_suspend_handlers s /\
    let sleep := negb (Z.land (state s) SUSPEND_REQUESTED =? 0) in
    state s' = (if sleep then SUSPEND_REQUESTED_AND_SUSPENDED else 0) /\ ml_held (locks s') = negb sleep /\
    forall h, h ∈ early_suspend_handlers s -> pairs (events s') h -> is_down (events s') h = sleep.
Proof.
  intros Hr Hl. apply reach_inv in Hr as Hi.
  destruct (register_call_inv s Hi) as (s0 & He0 & Hi0 & Hr0 & Hh0 & Hs0 & _). rewrite <- Hh0 in Hl.
  pose proof (cost_bound s0 Hi0 (calls_short s0 Hi0)) as Hc.
  destruct (worker_run_ok es s0 Hi0 Hr0 ltac:(lia)) as (s' & He & Hi' & Ht & Hq & Hh & Hr' & Hm). exists s0, s'.
  split; [done|]. split; [intros Hn; unfold register_call in He0; rewrite Hn in He0; congruence|].
  do 3 (split; [done|]). split; [congruence|]. cbn zeta. destruct (state_bits _ (i_state _ Hi)) as (-> & _).
  rewrite <- Hs0, <- Hm. destruct (quiescent s' Hi' Ht Hq) as (Q1 & Q0 & Qd). unfold suspended_bit, all_down in Qd.
  rewrite Hh, Hh0, Hr' in Qd. pose proof (Z.mod_pos_bound (state s') 2 ltac:(lia)) as Hb.
  destruct (Z.eqb_spec (state s' mod 2) 0) as [E0|E1]; cbn [negb].
  - destruct (Q0 E0) as [Hs Hheld]. rewrite Hs in *. split; [done|]. split; [done|]. intros h Hin. by apply Qd.
  - destruct (Q1 ltac:(lia)) as [Hs Hheld]. rewrite Hs in *. split; [done|]. split; [done|]. intros h Hin. by apply Qd.
Qed.

(** A work item that goes on calls the suspend functions of all registered handlers, once each, from the
    lowest to the highest level, and late resume calls the resume functions in the opposite order; a new
    handler takes its place after the handlers of its level. *)
Theorem early_suspend_order s es h o :
  reach s -> length es = S (length (early_suspend_handlers s)) ->
  (thread s = EarlyStart -> state s = SUSPEND_REQUESTED ->
     exists s', worker_run es s = Some s' /\ thread s' = EarlyCalls [] /\
       events s' = suspend_calls (objects s) (early_suspend_handlers s) ++ events s) /\
  (thread s = LateStart -> state s = SUSPENDED ->
     exists s', worker_run es s = Some s' /\ thread s' = LateCalls [] /\
       events s' = resume_calls (objects s) (rev (early_suspend_handlers s)) ++ events s) /\
  StronglySorted (fun a b => level_of (objects s) a <= level_of (objects s) b) (early_suspend_handlers s) /\
  (mutex_free s = true -> h ∉ early_suspend_handlers s ->
     exists s' l1 l2, register_add h o s = Some s' /\
       early_suspend_handlers s = l1 ++ l2 /\ early_suspend_handlers s' = l1 ++ h :: l2 /\
       (forall x, x ∈ l1 -> level_of (objects s') x <= level o) /\ (forall x, x ∈ l2 -> level o < level_of (objects s') x)).
Proof.
  intros Hr Hl. apply reach_inv in Hr as Hi. pose proof (i_objs _ Hi) as Hob.
  assert (Hsome : forall x, x ∈ early_suspend_handlers s -> is_Some (objects s !! x)) by (intros x Hx; destruct (Hob x Hx) as (y & -> & _); eauto).
  destruct es as [|e es]; [done|]. injection Hl as Hl. split; [|split; [|split; [apply Hi|]]].
  - intros Ht Hs. cbn [worker_run]. unfold worker_step, early_suspend_enter. rewrite Ht, Hs. cbn [Z.eqb mbind option_bind].
    destruct (early_calls_run (early_suspend_handlers s) es
      (set_thread (EarlyCalls (early_suspend_handlers s)) (set_state (Z.lor (state s) SUSPENDED) s)) eq_refl Hl Hsome)
      as (s' & Hrun & Ht' & Hev & _). exists s'. rewrite Hs in Hrun. done.
  - intros Ht Hs. cbn [worker_run]. unfold worker_step, late_resume_enter. rewrite Ht, Hs. cbn [Z.eqb mbind option_bind].
    destruct (late_calls_run (rev (early_suspend_handlers s)) es
      (set_thread (LateCalls (rev (early_suspend_handlers s))) (set_state (Z.land (state s) (Z.lnot SUSPENDED)) s)) eq_refl)
      as (s' & Hrun & Ht' & Hev & _); [by rewrite length_rev| |exists s'; rewrite Hs in Hrun; done].
    intros x Hx. apply Hsome. by rewrite list_elem_of_In, <- in_rev, <- list_elem_of_In in Hx.
  - intros Hu Hn. destruct (register_add_inv h o s Hi Hu Hn) as (s' & He & _ & _ & l1 & l2 & H'). by exists s', l1, l2.
Qed.

End Proof.

(** ** A system whose main lock is a flag *)

#[global] Program Instance flag_lock : MainLock bool unit := {
  ml_lock := fun _ _ => Some true;
  ml_unlock := fun _ _ => Some false;
  ml_other := eq;
  ml_held := fun w => w;
  ml_ok := fun _ => True }.
Next Obligation. eauto. Qed.
Next Obligation. eauto. Qed.
Next Obligation. naive_solver. Qed.

(** Two handlers, then sleep is requested. *)
Definition demo0 : es bool := default (boot true) (register_early_suspend 7 (Handler 100 true true) (boot true)).
Definition demo1 : es bool := default (boot true) (register_early_suspend 9 (Handler 50 true true) demo0).
Definition demo2 : es bool := default (boot true) (request_suspend_state tt PM_SUSPEND_MEM demo1).
Definition demo3 : es bool := default (boot true) (worker_step tt demo2).

(** A registration with nothing in between. *)
Lemma register_reach {W E : Type} `{ML : MainLock W E} (s : es W) h o s' : reach s -> mutex_free s = true ->
  h ∉ early_suspend_handlers s -> register_early_suspend h o s = Some s' -> reach s'.
Proof.
  intros Hr Hm Hn. unfold register_early_suspend. destruct (register_add h o s) as [s1|] eqn:E1; [|done].
  intros E2. apply (reach_step s1); [|by apply step_registered]. apply (reach_step s); [done|]. by apply (step_register _ h o).
Qed.

Lemma demo2_reach : reach demo2.
Proof.
  apply (reach_step demo1); [|by apply (step_request _ tt PM_SUSPEND_MEM)].
  apply (register_reach demo0 9%nat (Handler 50 true true)); [|done|vm_compute; set_solver|done].
  apply (register_reach (boot true) 7%nat (Handler 100 true true)); [by constructor|done|set_solver|done].
Qed.
Lemma demo3_reach : reach demo3.
Proof. apply (reach_step demo2); [apply demo2_reach|]. by apply (step_worker _ tt). Qed.

(** The worker runs to the end: the handlers are down and the main lock is free; then a third handler is
    put on the list. *)
Definition demo4 : es bool := default (boot true) (worker_run (replicate 5 tt) demo3).
Definition demo5 : es bool := default (boot true) (register_add 11 (Handler 60 true true) demo4).

Lemma demo4_reach : reach demo4.
Proof.
  apply (reach_rtc demo3); [exact demo3_reach|].
  apply (worker_run_steps (replicate 5 tt)); [apply reach_inv, demo3_reach|reflexivity|reflexivity].
Qed.
Lemma demo5_reach : reach demo5.
Proof.
  apply (reach_step demo4); [exact demo4_reach|].
  apply (step_register _ 11%nat (Handler 60 true true)); [reflexivity|vm_compute; set_solver|reflexivity].
Qed.

Lemma demo5_facts : ml_held (locks demo5) = false /\ registering demo5 = Some 11%nat /\
  early_suspend_handlers demo5 = [9; 11; 7]%nat /\ is_down (events demo5) 11 = false /\
  forall h, h ∈ [9; 11; 7]%nat -> pairs (events demo5) h.
Proof.
  split_and!; [vm_compute; reflexivity..|]. intros h Hh. vm_compute (events demo5).
  repeat (apply elem_of_cons in Hh as [->|Hh]; [eexists; split; reflexivity|]). by apply elem_of_nil in Hh.
Qed.

(** A late handler is on the list and not called yet while the main lock is free. *)
Theorem registering_handler_up :
  reach demo5 /\ ml_held (locks demo5) = false /\ registering demo5 = Some 11%nat /\
  pairs (events demo5) 11 /\ is_down (events demo5) 11 = false.
Proof.
  destruct demo5_facts as (H1 & H2 & _ & H3 & H4). split_and!; [exact demo5_reach|done..| |done]. apply H4. clear. set_solver.
Qed.

Lemma early_suspend_safe_witness :
  ml_held (locks demo5) = false /\ is_down (events demo5) 7 = true /\ is_down (events demo5) 9 = true.
Proof.
  destruct (early_suspend_safe demo5 demo5_reach) as (H & _ & _). destruct demo5_facts as (H1 & H2 & H3 & _ & H4).
  split; [exact H1|]. destruct (H H1) as (_ & _ & Hd). rewrite H2, H3 in Hd.
  split; (apply Hd; [clear; set_solver|discriminate|apply H4; clear; set_solver]).
Defined.

Lemma early_suspend_converges_witness :
  exists s', worker_run (replicate 16 tt) demo2 = Some s' /\ state s' = 3 /\ ml_held (locks s') = false.
Proof.
  destruct (early_suspend_converges demo2 (replicate 16 tt) demo2_reach) as (s0 & s' & _ & H0 & He & _ & _ & _ & H & H' & _);
    [vm_compute; lia|]. rewrite (H0 eq_refl) in He. exists s'. split; [exact He|]. split; [exact H|exact H'].
Defined.

Lemma early_suspend_order_witness :
  exists s', worker_run [tt; tt; tt] demo3 = Some s' /\ events s' = Suspended 7 :: Suspended 9 :: events demo3.
Proof.
  destruct (early_suspend_order demo3 [tt; tt; tt] 1%nat (Handler 0 true true) demo3_reach eq_refl) as (H & _).
  destruct (H eq_refl eq_refl) as (s' & He & _ & Hev). exists s'. split; [exact He|exact Hev].
Defined.
