(* ===== verification/PowerSuspend.v ===== *)
(** Early suspend on top of the wake locks: the wake locks of kernel/power/wakelock.c keep the
    promises that kernel/power/earlysuspend.c relies on, and the phone is suspended only
    after the early suspend handlers have run. *)
From stdpp Require Import sorting.
From S2P Require Import Prelude Time Wakelock WakelockUse EarlySuspend.

Local Open Scope kernel_scope.

(** ** The main lock among the wake locks *)

Definition main_view (st : wakelocks) : option view := c_view (core_of st) !! main_wake_lock.
Definition main_held (st : wakelocks) : bool := match main_view st with Some v => v_active v | None => false end.
(** It never has a time-out. *)
Definition main_ok (st : wakelocks) : Prop :=
  wf (core_of st) /\ exists v, main_view st = Some v /\ v_auto v = false.

Lemma main_listed c : wf c -> main_wake_lock ∈ c_all c.
Proof. intros Hwf. apply (wf_fixed c Hwf). unfold main_wake_lock, deleted_wake_locks. lia. Qed.

(** ** The interface *)

Section Instance.
Context (clock : nat -> Z).

(** The main lock is not the callers' to use. *)
Definition is_main (id : nat) : Prop := id = main_wake_lock.

Lemma other_ok st st' : main_ok st -> (exists e, other_use clock is_main e st st') -> main_ok st' /\ main_held st' = main_held st.
Proof.
  intros (Hwf & v & Hv & Ha) [e Hu]. destruct (other_kept clock is_main e st st' main_wake_lock Hwf Hu) as (Hw & _ & Hk);
    [done|done|by apply main_listed|].
  destruct (Hk v Hv) as [Hs|(Ht & _)]; [|congruence]. split; [split; [done|by exists v]|].
  unfold main_held, main_view in *. by rewrite Hv, Hs.
Qed.

Lemma main_lock_ok e st : main_ok st ->
  exists st', wake_lock_ clock e main_wake_lock st = Some st' /\ main_ok st' /\ main_held st' = true.
Proof.
  intros (Hwf & v & Hv & Ha). destruct (lock_wf clock e main_wake_lock 0 false st Hwf (main_listed _ Hwf)) as (st' & He & Hw & Hc).
  exists st'. split; [done|]. destruct (lock_use _ _ _ _ _ _ Hc) as (_ & _ & Hid). destruct (Hid v Hv) as [Hv'|[? _]]; [|done].
  split; [split; [done|by eexists]|]. unfold main_held, main_view. by rewrite Hv'.
Qed.

Lemma main_unlock_ok e st : main_ok st ->
  exists st', wake_unlock clock e main_wake_lock st = Some st' /\ main_ok st' /\ main_held st' = false.
Proof.
  intros (Hwf & v & Hv & Ha). destruct (unlock_wf clock e main_wake_lock st Hwf (main_listed _ Hwf)) as (st' & He & Hw & Hc).
  exists st'. split; [done|]. destruct (unlock_use _ _ _ _ Hc) as (_ & _ & Hid). specialize (Hid v Hv).
  split; [split; [done|by eexists]|]. unfold main_held, main_view. by rewrite Hid.
Qed.

(** The wake locks of the kernel keep the promises. *)
Instance wake_locks : MainLock wakelocks env := {
  ml_lock e := wake_lock_ clock e main_wake_lock;
  ml_unlock e := wake_unlock clock e main_wake_lock;
  ml_other st st' := exists e, other_use clock is_main e st st';
  ml_held := main_held;
  ml_ok := main_ok;
  ml_lock_ok := main_lock_ok;
  ml_unlock_ok := main_unlock_ok;
  ml_other_ok := other_ok }.

Lemma init_main e st : wakelocks_init clock e = Some st -> main_ok st /\ main_held st = true.
Proof.
  intros He. destruct (init_state clock e) as (s2 & He2 & Hc). rewrite He in He2. injection He2 as <-.
  unfold main_ok, main_held, main_view. rewrite Hc. split; [|done]. split; [apply init_wf|by eexists].
Qed.

(** A held main lock stops the phone from suspending. *)
Lemma main_stops e st : main_ok st -> main_held st = true -> exists st', power_suspend_late clock e st = Some (st', - EAGAIN).
Proof.
  intros (Hwf & v & Hv & Ha) Hh. unfold main_held in Hh. rewrite Hv in Hh.
  destruct (wf_fixed _ Hwf main_wake_lock) as (Hin & u & Hu & Hty); [unfold main_wake_lock, deleted_wake_locks; lia|].
  assert (u = v) as -> by (unfold main_view in Hv; congruence). apply (held_stops clock e st main_wake_lock v); try done. by left.
Qed.

End Instance.

(** The whole: early suspend with the kernel's wake locks, from their initialisation. *)
Definition boot_reach (clock : nat -> Z) (e0 : env) (s : es wakelocks) : Prop :=
  exists st, wakelocks_init clock e0 = Some st /\ rtc (step (H := wake_locks clock)) (boot st) s.

Lemma boot_reach_reach clock e0 s : boot_reach clock e0 s -> reach (H := wake_locks clock) s.
Proof.
  intros (st & He & Hr). destruct (init_main clock e0 st He) as [Hok Hh].
  assert (H0 : reach (H := wake_locks clock) (boot st)) by (by constructor). clear He.
  induction Hr as [|x y z Hxy _ IH]; [done|]. apply IH. by eapply reach_step.
Qed.

(** C17: With the kernel's wake locks under it, the last check before the phone suspends lets it
    through only when user space asked for sleep, the early suspend handlers have been called,
    the worker is calling none and every handler with both functions is down, except a handler whose
    registration is under way at that very moment: a late [register_early_suspend] can be overtaken
    between putting its handler on the list and calling it, as [suspend_during_registration] shows.
    For every handler whose registration has returned, the phone never suspends with it up. *)
Theorem suspend_after_handlers clock e0 s e st' :
  boot_reach clock e0 s -> power_suspend_late clock e (EarlySuspend.locks s) = Some (st', 0) ->
  state s = SUSPEND_REQUESTED_AND_SUSPENDED /\ unlocked (thread s) = true /\
  forall h, h ∈ early_suspend_handlers s -> registering s <> Some h -> pairs (events s) h ->
    is_down (events s) h = true.
Proof.
  intros Hr He. apply boot_reach_reach in Hr. pose proof (reach_inv (ML := wake_locks clock) s Hr) as Hi.
  apply (released_after_calls (ML := wake_locks clock) s Hi).
  destruct (ml_held (EarlySuspend.locks s)) eqn:Eh; [|done]. exfalso.
  destruct (main_stops clock e _ (i_lock _ Hi) Eh) as (s2 & Hs2). by rewrite Hs2 in He.
Qed.

(** A fresh system that is asked to sleep and lets its worker run. *)
Definition asleep (clock : nat -> Z) (e : env) : option (es wakelocks) :=
  st ← wakelocks_init clock e;
  s ← register_early_suspend 7 (Handler 50 true true) (boot st);
  s ← request_suspend_state (H := wake_locks clock) e PM_SUSPEND_MEM s;
  worker_run (ML := wake_locks clock) (replicate 5 e) s.

(** The same system with a second handler on the list that is not called yet. *)
Definition asleep_late (clock : nat -> Z) (e : env) : option (es wakelocks) :=
  s ← asleep clock e; register_add 8 (Handler 60 true true) s.

Lemma boot_step clock e0 s s' : boot_reach clock e0 s -> rtc (step (H := wake_locks clock)) s s' -> boot_reach clock e0 s'.
Proof. intros (st & H0 & Hr) Hs. exists st. split; [done|]. by transitivity s. Qed.

Lemma asleep_reach clock e s : asleep clock e = Some s -> boot_reach clock e s.
Proof.
  unfold asleep. destruct (wakelocks_init clock e) as [st|] eqn:E0; [|done]. cbn [mbind option_bind].
  unfold register_early_suspend. destruct (register_add _ _ _) as [s1|] eqn:E1; [|done]. cbn [mbind option_bind].
  assert (H1 : boot_reach clock e s1).
  { exists st. split; [done|]. apply rtc_once.
    by eapply (step_register (H := wake_locks clock)); [| |exact E1]; [done|set_solver]. }
  destruct (register_call s1) as [s2|] eqn:E2; [|done]. cbn [mbind option_bind].
  assert (H2 : boot_reach clock e s2) by (apply (boot_step _ _ _ _ H1), rtc_once; by apply step_registered).
  destruct (register_call_inv (ML := wake_locks clock) s1) as (s2' & E2' & Hi2 & Hr2 & _);
    [by apply reach_inv, (boot_reach_reach clock e)|]. rewrite E2 in E2'. injection E2' as <-.
  destruct (request_suspend_state _ _ _) as [s3|] eqn:E3; [|done]. cbn [mbind option_bind].
  assert (H3 : boot_reach clock e s3).
  { apply (boot_step _ _ _ _ H2), rtc_once. by eapply (step_request (H := wake_locks clock)); exact E3. }
  destruct (request_spec (ML := wake_locks clock) e PM_SUSPEND_MEM s2 (i_state _ Hi2) (i_lock _ Hi2))
    as (s3' & E3' & (_ & _ & _ & Hr3) & _). rewrite E3 in E3'. injection E3' as <-. intros E4.
  apply (boot_step _ _ _ _ H3), (worker_run_steps (replicate 5 e)); [|congruence|done].
  by apply reach_inv, (boot_reach_reach clock e).
Qed.

(** The state of [asleep_late], computed. *)
Lemma asleep_late_state : exists s s', asleep (fun _ => 0) demo_env = Some s /\ mutex_free s = true /\
  early_suspend_handlers s = [7%nat] /\ asleep_late (fun _ => 0) demo_env = Some s'.
Proof.
  destruct (asleep (fun _ => 0) demo_env) as [s|] eqn:E; [|vm_compute in E; discriminate E].
  unfold asleep_late. rewrite E. vm_compute in E. injection E as <-.
  do 2 eexists. split; [reflexivity|]. split; [reflexivity|]. split; [reflexivity|]. vm_compute. reflexivity.
Qed.

Lemma asleep_late_reach s : asleep_late (fun _ => 0) demo_env = Some s -> boot_reach (fun _ => 0) demo_env s.
Proof.
  destruct asleep_late_state as (s0 & _ & E & Hm & Hl & _). unfold asleep_late. rewrite E. cbn [mbind option_bind]. intros Ea.
  apply (boot_step _ _ s0); [by apply asleep_reach|]. apply rtc_once.
  apply (step_register (H := wake_locks (fun _ => 0)) _ 8%nat (Handler 60 true true)); [done| |done]. rewrite Hl. clear. set_solver.
Qed.

(** The phone passes the last check while a late handler is on the list and still up. *)
Theorem suspend_during_registration :
  exists s st', boot_reach (fun _ => 0) demo_env s /\
    power_suspend_late (fun _ => 0) demo_env (EarlySuspend.locks s) = Some (st', 0) /\
    8%nat ∈ early_suspend_handlers s /\ pairs (events s) 8 /\ is_down (events s) 8 = false.
Proof.
  destruct asleep_late_state as (_ & s & _ & _ & _ & E). pose proof (asleep_late_reach s E) as Hr.
  vm_compute in E. injection E as <-. do 2 eexists. split; [exact Hr|]. split; [vm_compute; reflexivity|].
  split; [apply list_elem_of_further, list_elem_of_here|]. split; [eexists; split; reflexivity|reflexivity].
Qed.

Lemma suspend_after_handlers_witness :
  exists s st', asleep (fun _ => 0) demo_env = Some s /\ power_suspend_late (fun _ => 0) demo_env (EarlySuspend.locks s) = Some (st', 0) /\
    state s = SUSPEND_REQUESTED_AND_SUSPENDED /\ is_down (events s) 7 = true.
Proof.
  destruct (asleep (fun _ => 0) demo_env) as [s|] eqn:E; [|vm_compute in E; discriminate E].
  destruct (power_suspend_late (fun _ => 0) demo_env (EarlySuspend.locks s)) as [[st' r]|] eqn:El;
    [|vm_compute in E; injection E as <-; vm_compute in El; discriminate El].
  assert (Hr : r = 0) by (vm_compute in E; injection E as <-; vm_compute in El; congruence). subst r.
  exists s, st'. split; [reflexivity|]. split; [exact El|].
  destruct (suspend_after_handlers (fun _ => 0) demo_env s demo_env st' (asleep_reach _ _ _ E) El) as (Hs & _ & Hd).
  split; [exact Hs|]. clear El Hs. vm_compute in E. injection E as <-.
  apply Hd; [apply list_elem_of_here|discriminate|eexists; split; reflexivity].
Defined.
