(* ===== verification/Alarm.v ===== *)
(** The Android alarm driver (drivers/rtc/alarm.c, include/linux/android_alarm.h): alarms
    on five clocks that wake the phone through a high-resolution timer or, while it is suspended,
    through the real-time clock.

    A definition is what a routine does in one section locked by [alarm_slock], or between two of them;
    clocks, user copies, the result of setting the time and the wake locks ([AlarmLocks]) are inputs.  A timer is the
    time it is set to, and a timer function that has started but waits for the lock
    is in [callbacks]: such a function can no longer be stopped by [hrtimer_try_to_cancel].
    [alarm_suspend] and [alarm_resume] run when no task is inside the driver; the part of [alarm_suspend]
    after its locked section and [alarm_resume], which take no lock, are one step each. *)
From S2P Require Import Prelude Time.

Local Open Scope kernel_scope.

(** ** What the driver asks of its two wake locks *)

Inductive alarm_lock := AlarmWakeLock | AlarmRtcWakeLock.

Class AlarmLocks (W E : Type) := {
  al_timeout : E -> alarm_lock -> Z -> W -> option W;
  al_unlock : E -> alarm_lock -> W -> option W;
  al_active : W -> alarm_lock -> bool;
  al_other : W -> W -> Prop;
  al_ok : W -> Prop;
  al_timeout_ok e l n w : al_ok w -> 0 < n < 2 ^ 31 -> exists w', al_timeout e l n w = Some w' /\ al_ok w' /\
    al_active w' l = true /\ forall k, k <> l -> al_active w' k = true -> al_active w k = true;
  al_unlock_ok e l w : al_ok w -> exists w', al_unlock e l w = Some w' /\ al_ok w' /\
    al_active w' l = false /\ forall k, al_active w' k = true -> al_active w k = true;
  al_other_ok w w' : al_ok w -> al_other w w' -> al_ok w' /\ forall k, al_active w' k = true -> al_active w k = true }.

(** ** Data *)

Definition ANDROID_ALARM_RTC_WAKEUP : nat := 0.
Definition ANDROID_ALARM_RTC : nat := 1.
Definition ANDROID_ALARM_ELAPSED_REALTIME_WAKEUP : nat := 2.
Definition ANDROID_ALARM_ELAPSED_REALTIME : nat := 3.
Definition ANDROID_ALARM_SYSTEMTIME : nat := 4.
Definition ANDROID_ALARM_TYPE_COUNT : nat := 5.
Definition alarm_type_mask (t : nat) : Z := Z.shiftl 1 (Z.of_nat t).
Definition ANDROID_ALARM_WAKEUP_MASK : Z :=
  Z.lor (alarm_type_mask ANDROID_ALARM_RTC_WAKEUP) (alarm_type_mask ANDROID_ALARM_ELAPSED_REALTIME_WAKEUP).
Definition ANDROID_ALARM_TIME_CHANGE_MASK : Z := Z.shiftl 1 16.
Definition HZ : Z := 100.

(** The holder of [alarm_setrtc_mutex]: its timers are cancelled, or started again. *)
Inductive setting := NotSetting | TimersCancelled | TimersStarted.
(** Device power: awake, past the check of [alarm_suspend], or suspended with the wake-up timers cancelled. *)
Inductive power := Awake | GoingDown | Asleep.

Record alarm_dev (W : Type) := AlarmDev {
  alarm_opened : bool;
  private_data : gset nat;               (** the open files where it is 1 *)
  closing : option (nat * nat * bool);   (** [alarm_release] of a file, at this type, which is disabled *)
  alarm_pending : Z;
  alarm_enabled : Z;
  wait_pending : Z;
  alarm_timer : list (option Z);
  callbacks : gset nat;
  alarm_time : list timespec;
  elapsed_rtc_delta : timespec;
  setrtc : setting;
  device : power;
  wake_locks : W }.
Arguments AlarmDev {W}. Arguments alarm_opened {W}. Arguments private_data {W}. Arguments closing {W}.
Arguments alarm_pending {W}. Arguments alarm_enabled {W}. Arguments wait_pending {W}. Arguments alarm_timer {W}.
Arguments callbacks {W}. Arguments alarm_time {W}. Arguments elapsed_rtc_delta {W}. Arguments setrtc {W}.
Arguments device {W}. Arguments wake_locks {W}.

Section Code.
Context {W E : Type} `{AlarmLocks W E}.
Notation dev := (alarm_dev W).
Implicit Types s : dev.

Definition set_owner (o : bool) (p : gset nat) (c : option (nat * nat * bool)) s : dev :=
  AlarmDev o p c (alarm_pending s) (alarm_enabled s) (wait_pending s) (alarm_timer s) (callbacks s) (alarm_time s)
    (elapsed_rtc_delta s) (setrtc s) (device s) (wake_locks s).
Definition set_flags (p en wt : Z) s : dev :=
  AlarmDev (alarm_opened s) (private_data s) (closing s) p en wt (alarm_timer s) (callbacks s) (alarm_time s)
    (elapsed_rtc_delta s) (setrtc s) (device s) (wake_locks s).
Definition set_timers (l : list (option Z)) (c : gset nat) s : dev :=
  AlarmDev (alarm_opened s) (private_data s) (closing s) (alarm_pending s) (alarm_enabled s) (wait_pending s) l c
    (alarm_time s) (elapsed_rtc_delta s) (setrtc s) (device s) (wake_locks s).
Definition set_times (l : list timespec) (d : timespec) s : dev :=
  AlarmDev (alarm_opened s) (private_data s) (closing s) (alarm_pending s) (alarm_enabled s) (wait_pending s)
    (alarm_timer s) (callbacks s) l d (setrtc s) (device s) (wake_locks s).
Definition set_phase (r : setting) (d : power) s : dev :=
  AlarmDev (alarm_opened s) (private_data s) (closing s) (alarm_pending s) (alarm_enabled s) (wait_pending s)
    (alarm_timer s) (callbacks s) (alarm_time s) (elapsed_rtc_delta s) r d (wake_locks s).
Definition set_locks (w : W) s : dev :=
  AlarmDev (alarm_opened s) (private_data s) (closing s) (alarm_pending s) (alarm_enabled s) (wait_pending s)
    (alarm_timer s) (callbacks s) (alarm_time s) (elapsed_rtc_delta s) (setrtc s) (device s) w.

Definition set_pending (p : Z) s : dev := set_flags p (alarm_enabled s) (wait_pending s) s.
Definition set_enabled (en : Z) s : dev := set_flags (alarm_pending s) en (wait_pending s) s.
Definition set_wait (wt : Z) s : dev := set_flags (alarm_pending s) (alarm_enabled s) wt s.

Definition lock_timeout (e : E) (l : alarm_lock) (n : Z) s : option dev :=
  w ← al_timeout e l n (wake_locks s); Some (set_locks w s).
Definition unlock (e : E) (l : alarm_lock) s : option dev :=
  w ← al_unlock e l (wake_locks s); Some (set_locks w s).

(** [hrtimer_try_to_cancel] fails while the timer function runs; [hrtimer_cancel] waits for it, so it is not a step then. *)
Definition remove_timer (t : nat) s : dev := set_timers (<[t := None]> (alarm_timer s)) (callbacks s) s.
Definition try_to_cancel (t : nat) s : dev := if bool_decide (t ∈ callbacks s) then s else remove_timer t s.
Definition cancel (t : nat) s : option dev :=
  if bool_decide (t ∈ callbacks s) then None else Some (remove_timer t s).

(** ** Starting a timer *)

Definition elapsed_type (t : nat) : bool :=
  Nat.eqb t ANDROID_ALARM_ELAPSED_REALTIME_WAKEUP || Nat.eqb t ANDROID_ALARM_ELAPSED_REALTIME.

(** [hr_alarm_time] *)
Definition hr_alarm_time (times : list timespec) (delta : timespec) (t : nat) : option timespec :=
  a ← times !! t;
  if elapsed_type t
  then set_normalized_timespec (s32 (tv_sec a + tv_sec delta)) (s32 (tv_nsec a + tv_nsec delta))
  else Some a.

Definition alarm_start_hrtimer (t : nat) s : option dev :=
  if Z.land (alarm_enabled s) (alarm_type_mask t) =? 0 then Some s else
  a ← hr_alarm_time (alarm_time s) (elapsed_rtc_delta s) t;
  Some (set_timers (<[t := Some (timespec_to_ktime a)]> (alarm_timer s)) (callbacks s) s).

(** [for (i = 0; i < ANDROID_ALARM_SYSTEMTIME; i++)] *)
Definition start_all s : option dev :=
  s ← alarm_start_hrtimer 0 s; s ← alarm_start_hrtimer 1 s; s ← alarm_start_hrtimer 2 s; alarm_start_hrtimer 3 s.
Definition cancel_all s : dev := try_to_cancel 3 (try_to_cancel 2 (try_to_cancel 1 (try_to_cancel 0 s))).

(** ** The commands *)

Definition alarm_clear (e : E) (t : nat) s : option dev :=
  let s := try_to_cancel t s in
  s ← (if negb (alarm_pending s =? 0) then
         let s := set_pending (Z.land (alarm_pending s) (Z.lnot (alarm_type_mask t))) s in
         if (alarm_pending s =? 0) && (wait_pending s =? 0) then unlock e AlarmWakeLock s else Some s
       else Some s);
  Some (set_enabled (Z.land (alarm_enabled s) (Z.lnot (alarm_type_mask t))) s).

Definition alarm_set (t : nat) (new_alarm_time : timespec) s : option dev :=
  let s := set_times (<[t := new_alarm_time]> (alarm_time s)) (elapsed_rtc_delta s) s in
  alarm_start_hrtimer t (set_enabled (Z.lor (alarm_enabled s) (alarm_type_mask t)) s).

(** ANDROID_ALARM_WAIT before and after [wait_event_interruptible]. *)
Definition alarm_wait_begin (e : E) s : option dev :=
  if (alarm_pending s =? 0) && negb (wait_pending s =? 0)
  then s ← unlock e AlarmWakeLock s; Some (set_wait 0 s) else Some s.
Definition alarm_wait_end (e : E) s : option (Z * dev) :=
  let rv := alarm_pending s in
  let s := set_pending 0 (set_wait 1 s) in
  s ← (if negb (Z.land rv ANDROID_ALARM_WAKEUP_MASK =? 0) then unlock e AlarmRtcWakeLock s else Some s);
  Some (rv, s).

(** ANDROID_ALARM_SET_RTC: the first locked section, with the time [tmp_time] read in it, the
    section after [do_settimeofday], and the last one. *)
Definition set_rtc_begin (tmp_time new_rtc_time : timespec) s : option dev :=
  let s := cancel_all s in
  d ← timespec_sub tmp_time new_rtc_time;
  delta ← timespec_sub (elapsed_rtc_delta s) d;
  Some (set_phase TimersCancelled (device s) (set_times (alarm_time s) delta s)).
Definition set_rtc_restart s : option dev :=
  s ← start_all s; Some (set_phase TimersStarted (device s) s).
Definition set_rtc_end s : dev :=
  set_phase NotSetting (device s) (set_pending (Z.lor (alarm_pending s) ANDROID_ALARM_TIME_CHANGE_MASK) s).
(** [do_settimeofday] failed. *)
Definition set_rtc_fail s : dev := set_phase NotSetting (device s) s.
(** [err_restore:], up to [do_settimeofday]. *)
Definition restore_begin s : dev := set_phase TimersCancelled (device s) (cancel_all s).

Definition alarm_get_time (t : nat) (now monotonic : timespec) s : option timespec :=
  if negb (Nat.eqb t ANDROID_ALARM_SYSTEMTIME) then
    if Nat.leb ANDROID_ALARM_ELAPSED_REALTIME_WAKEUP t then timespec_sub now (elapsed_rtc_delta s) else Some now
  else Some monotonic.

Definition ANDROID_ALARM_CLEAR0 : Z := 0x6100.
Definition ANDROID_ALARM_WAIT : Z := 0x6101.
Definition ANDROID_ALARM_SET0 : Z := 0x40086102.
Definition ANDROID_ALARM_SET_AND_WAIT0 : Z := 0x40086103.
Definition ANDROID_ALARM_GET_TIME0 : Z := 0x40086104.
Definition ANDROID_ALARM_SET_RTC : Z := 0x40086105.
Definition ANDROID_ALARM_SET_OLD : Z := 0x40046102.
Definition ANDROID_ALARM_SET_AND_WAIT_OLD : Z := 0x40046103.
Definition ANDROID_ALARM_BASE_CMD (cmd : Z) : Z := Z.land cmd (~u 0xf0).
Definition ANDROID_ALARM_IOCTL_TO_TYPE (cmd : Z) : Z := Z.shiftr (Z.land cmd 0xff) 4.

(** How a command goes on after its first section: it is done, it waits for an alarm,
    or it is about to set the time. *)
Inductive next := Return (rv : Z) | ReturnTime (t : timespec) | ToWait | ToSetRtc (new_rtc_time : timespec).

(** [alarm_ioctl] up to the end of its first locked section; [arg] is what user memory holds, if it can be read,
    [copy_out] whether the answer can be stored. *)
Definition alarm_ioctl (e : E) (cmd : Z) (file : nat) (rdonly : bool) (arg : option timespec) (copy_out : bool)
    (now monotonic : timespec) s : option (next * dev) :=
  let type := ANDROID_ALARM_IOCTL_TO_TYPE cmd in
  if Z.of_nat ANDROID_ALARM_TYPE_COUNT <=? type then Some (Return (- EINVAL), s) else
  let t := Z.to_nat type in
  let base := ANDROID_ALARM_BASE_CMD cmd in
  if negb (base =? ANDROID_ALARM_GET_TIME0) && rdonly then Some (Return (- EPERM), s) else
  let claim := negb (base =? ANDROID_ALARM_GET_TIME0) && negb (bool_decide (file ∈ private_data s)) &&
               negb (cmd =? ANDROID_ALARM_SET_RTC) in
  if claim && alarm_opened s then Some (Return (- EBUSY), s) else
  let s := if claim then set_owner true ({[file]} ∪ private_data s) (closing s) s else s in
  if base =? ANDROID_ALARM_CLEAR0 then s ← alarm_clear e t s; Some (Return 0, s) else
  if (base =? ANDROID_ALARM_SET_OLD) || (base =? ANDROID_ALARM_SET_AND_WAIT_OLD) ||
     (base =? ANDROID_ALARM_SET_AND_WAIT0) || (base =? ANDROID_ALARM_SET0) then
    match arg with
    | None => Some (Return (- EFAULT), s)
    | Some a =>
      let a := if (base =? ANDROID_ALARM_SET_OLD) || (base =? ANDROID_ALARM_SET_AND_WAIT_OLD)
               then mk_ts (tv_sec a) 0 else a in
      s ← alarm_set t a s;
      Some (if negb (base =? ANDROID_ALARM_SET_AND_WAIT0) && negb (cmd =? ANDROID_ALARM_SET_AND_WAIT_OLD)
            then Return 0 else ToWait, s)
    end
  else if base =? ANDROID_ALARM_WAIT then Some (ToWait, s)
  else if base =? ANDROID_ALARM_SET_RTC then
    Some (match arg with None => Return (- EFAULT) | Some a => ToSetRtc a end, s)
  else if base =? ANDROID_ALARM_GET_TIME0 then
    a ← alarm_get_time t now monotonic s;
    Some (if copy_out then ReturnTime a else Return (- EFAULT), s)
  else Some (Return (- EINVAL), s).

(** ** Release *)

(** One turn of the loop: the locked part, then [hrtimer_cancel] without the lock. *)
Definition release_disable (t : nat) s : dev :=
  if negb (Z.land (alarm_enabled s) (alarm_type_mask t) =? 0)
  then set_enabled (Z.land (alarm_enabled s) (Z.lnot (alarm_type_mask t))) s else s.
Definition release_end (e : E) (file : nat) s : option dev :=
  s ← (if negb (Z.lor (alarm_pending s) (wait_pending s) =? 0) then
         s ← unlock e AlarmWakeLock s; Some (set_pending 0 (set_wait 0 s))
       else Some s);
  Some (set_owner false (private_data s ∖ {[file]}) None s).

(** ** Interrupts and power *)

Definition alarm_timer_triggered (e : E) (t : nat) s : option dev :=
  if negb (Z.land (alarm_enabled s) (alarm_type_mask t) =? 0) then
    s ← lock_timeout e AlarmWakeLock (5 * HZ) s;
    let s := set_enabled (Z.land (alarm_enabled s) (Z.lnot (alarm_type_mask t))) s in
    Some (set_pending (Z.lor (alarm_pending s) (alarm_type_mask t)) s)
  else Some s.

Definition alarm_triggered_func (e : E) (rtc_af : bool) s : option dev :=
  if negb rtc_af then Some s else lock_timeout e AlarmRtcWakeLock (1 * HZ) s.

(** [alarm_suspend] in its locked section: an error, or whether wake-up alarms are to be set. *)
Definition suspend_check s : Z * bool :=
  if negb (alarm_pending s =? 0) && negb (al_active (wake_locks s) AlarmWakeLock) then (- EBUSY, false)
  else (0, negb (Z.land (alarm_enabled s) ANDROID_ALARM_WAKEUP_MASK =? 0)).
Definition suspend_cancel s : option dev :=
  s ← (if negb (Z.land (alarm_enabled s) (alarm_type_mask ANDROID_ALARM_RTC_WAKEUP) =? 0)
       then cancel ANDROID_ALARM_RTC_WAKEUP s else Some s);
  if negb (Z.land (alarm_enabled s) (alarm_type_mask ANDROID_ALARM_ELAPSED_REALTIME_WAKEUP) =? 0)
  then cancel ANDROID_ALARM_ELAPSED_REALTIME_WAKEUP s else Some s.

(** The time the real-time clock is set to ring; [rtc_delta] is how far the system time is ahead of it. *)
Definition rtc_alarm_time (rtc_delta : timespec) s : option Z :=
  rtc ← alarm_time s !! ANDROID_ALARM_RTC_WAKEUP;
  elapsed ← hr_alarm_time (alarm_time s) (elapsed_rtc_delta s) ANDROID_ALARM_ELAPSED_REALTIME_WAKEUP;
  let on t := negb (Z.land (alarm_enabled s) (alarm_type_mask t) =? 0) in
  r ← timespec_sub (if on ANDROID_ALARM_RTC_WAKEUP &&
                       (negb (on ANDROID_ALARM_ELAPSED_REALTIME_WAKEUP) || (timespec_compare rtc elapsed <? 0))
                    then rtc else elapsed) rtc_delta;
  Some (tv_sec r).

(** [save_time_delta]; [xtime] is the system time. *)
Definition save_time_delta (xtime rtc : timespec) : option timespec :=
  set_normalized_timespec (s32 (tv_sec xtime - tv_sec rtc)) (s32 (tv_nsec xtime - tv_nsec rtc)).

(** The rest of [alarm_suspend] with the two readings of the real-time clock: what the clock is set to, and
    whether the alarm is about to go off. *)
Definition suspend_rtc (xtime : timespec) (rtc_read1 rtc_read2 : Z) s : option (Z * bool) :=
  rtc_delta ← save_time_delta xtime (mk_ts (s32 rtc_read1) 0);
  r ← rtc_alarm_time rtc_delta s;
  let alarm := u32 r in Some (alarm, alarm <=? u32 (rtc_read2 + 1)).

(** The alarm is about to go off: [alarm_suspend] fails. *)
Definition start_wakeups s : option dev :=
  s ← alarm_start_hrtimer ANDROID_ALARM_RTC_WAKEUP s; alarm_start_hrtimer ANDROID_ALARM_ELAPSED_REALTIME_WAKEUP s.
Definition suspend_abort (e : E) s : option dev :=
  s ← lock_timeout e AlarmRtcWakeLock (2 * HZ) s; start_wakeups s.
Definition alarm_resume s : option dev :=
  if negb (Z.land (alarm_enabled s) ANDROID_ALARM_WAKEUP_MASK =? 0) then start_wakeups s else Some s.

(** ** The system *)

(** [file] can be used: it is open and not being closed. *)
Definition usable (file : nat) s : Prop := match closing s with Some (f, _, _) => f <> file | None => True end.

Inductive step s : dev -> Prop :=
| step_ioctl e cmd file rdonly arg copy_out now monotonic nx s' :
    device s = Awake -> usable file s ->
    alarm_ioctl e cmd file rdonly arg copy_out now monotonic s = Some (nx, s') -> step s s'
| step_wait_begin e file s' : device s = Awake -> usable file s -> file ∈ private_data s ->
    alarm_wait_begin e s = Some s' -> step s s'
| step_wait_end e file rv s' : device s = Awake -> usable file s -> file ∈ private_data s ->
    alarm_wait_end e s = Some (rv, s') -> step s s'
| step_rtc_begin tmp new s' : device s = Awake -> setrtc s = NotSetting -> set_rtc_begin tmp new s = Some s' -> step s s'
| step_restore_begin : device s = Awake -> setrtc s = NotSetting -> step s (restore_begin s)
| step_rtc_restart s' : setrtc s = TimersCancelled -> set_rtc_restart s = Some s' -> step s s'
| step_rtc_end : setrtc s = TimersStarted -> step s (set_rtc_end s)
| step_rtc_fail : setrtc s = TimersStarted -> step s (set_rtc_fail s)
| step_close file : device s = Awake -> closing s = None -> file ∈ private_data s ->
    step s (set_owner (alarm_opened s) (private_data s) (Some (file, 0%nat, false)) s)
| step_close_disable file t : closing s = Some (file, t, false) -> (t < ANDROID_ALARM_TYPE_COUNT)%nat ->
    step s (set_owner (alarm_opened s) (private_data s) (Some (file, t, true)) (release_disable t s))
| step_close_cancel file t s' : closing s = Some (file, t, true) -> cancel t s = Some s' ->
    step s (set_owner (alarm_opened s) (private_data s) (Some (file, S t, false)) s')
| step_close_end e file s' : closing s = Some (file, ANDROID_ALARM_TYPE_COUNT, false) -> release_end e file s = Some s' -> step s s'
| step_fire t x : alarm_timer s !! t = Some (Some x) -> t ∉ callbacks s ->
    step s (set_timers (<[t := None]> (alarm_timer s)) ({[t]} ∪ callbacks s) s)
| step_callback e t s' : t ∈ callbacks s -> alarm_timer_triggered e t s = Some s' ->
    step s (set_timers (alarm_timer s') (callbacks s' ∖ {[t]}) s')
| step_rtc_irq e af s' : alarm_triggered_func e af s = Some s' -> step s s'
| step_suspend go : device s = Awake -> setrtc s = NotSetting -> closing s = None -> suspend_check s = (0, go) ->
    step s (set_phase (setrtc s) (if go then GoingDown else Asleep) s)
| step_suspend_cancel s' : device s = GoingDown -> suspend_cancel s = Some s' ->
    step s (set_phase (setrtc s') Asleep s')
| step_suspend_abort e s' : device s = Asleep -> suspend_abort e s = Some s' -> step s (set_phase (setrtc s') Awake s')
| step_resume s' : device s = Asleep -> alarm_resume s = Some s' -> step s (set_phase (setrtc s') Awake s')
| step_other w : al_other (wake_locks s) w -> step s (set_locks w s).

(** [alarm_late_init] *)
Definition alarm_late_init (now system_time : timespec) : option timespec := timespec_sub now system_time.

(** After [alarm_late_init]; the times of the alarms are zero. *)
Definition alarm_boot (delta : timespec) (w : W) : dev :=
  AlarmDev false ∅ None 0 0 0 (replicate 5 None) ∅ (replicate 5 (mk_ts 0 0)) delta NotSetting Awake w.

Inductive reach : dev -> Prop :=
| reach_boot now system_time delta w : alarm_late_init now system_time = Some delta -> al_ok w -> al_active w AlarmWakeLock = false -> reach (alarm_boot delta w)
| reach_step s s' : reach s -> step s s' -> reach s'.

End Code.
