(* ===== verification/AlarmRun.v ===== *)
(** The alarm driver at work: an invariant of every reachable state of the model of
    drivers/rtc/alarm.c, and what follows from it: no enabled alarm is lost, a ringing alarm reaches
    the waiting process under the wake lock, setting the clock leaves the elapsed clock alone, and
    the real-time clock wakes a suspended phone in time. *)
From S2P Require Import Prelude Time Alarm.

Local Open Scope kernel_scope.

(** ** Masks *)

Definition on (v : Z) (t : nat) : bool := Z.testbit v (Z.of_nat t).

Lemma mask_pow t : alarm_type_mask t = 2 ^ Z.of_nat t.
Proof. unfold alarm_type_mask. by rewrite Z.shiftl_1_l. Qed.

Lemma mask_test v t : (Z.land v (alarm_type_mask t) =? 0) = negb (on v t).
Proof. rewrite mask_pow. unfold on. rewrite <- test_flag by lia. by rewrite negb_involutive. Qed.

Lemma mask_clear v t u : on (Z.land v (Z.lnot (alarm_type_mask t))) u = if Nat.eqb u t then false else on v u.
Proof.
  rewrite mask_pow. unfold on. rewrite bit_clear by lia.
  destruct (Nat.eqb_spec u t) as [->|]; [by rewrite Z.eqb_refl|by rewrite (proj2 (Z.eqb_neq _ _)) by lia].
Qed.

Lemma mask_set v t u : on (Z.lor v (alarm_type_mask t)) u = if Nat.eqb u t then true else on v u.
Proof.
  rewrite mask_pow. unfold on. rewrite bit_set by lia.
  destruct (Nat.eqb_spec u t) as [->|]; [by rewrite Z.eqb_refl|by rewrite (proj2 (Z.eqb_neq _ _)) by lia].
Qed.

(** Only the bits of the five types. *)
Definition type_bits (v : Z) : Prop := forall i, 5 <= i -> Z.testbit v i = false.

Lemma type_bits_zero v : 0 <= v -> type_bits v -> (forall t, (t < 5)%nat -> on v t = false) -> v = 0.
Proof.
  intros Hv Hb Ht. apply Z.bits_inj'. intros i Hi. rewrite Z.bits_0. destruct (Z.lt_ge_cases i 5); [|by apply Hb].
  specialize (Ht (Z.to_nat i) ltac:(lia)). unfold on in Ht. by rewrite Z2Nat.id in Ht.
Qed.

Lemma type_bits_clear v t : type_bits v -> type_bits (Z.land v (Z.lnot (alarm_type_mask t))).
Proof. intros Hb i Hi. rewrite Z.land_spec, Hb by lia. done. Qed.
Lemma type_bits_set v t : (t < 5)%nat -> type_bits v -> type_bits (Z.lor v (alarm_type_mask t)).
Proof.
  intros Ht Hb i Hi. rewrite mask_pow, bit_set by lia. rewrite (proj2 (Z.eqb_neq _ _)) by lia. by apply Hb.
Qed.

Section Proof.
Context {W E : Type} `{AL : AlarmLocks W E}.
Notation dev := (alarm_dev W).
Implicit Types s : dev.

(** ** The invariant *)

(** The timer of an alarm is set to its time. *)
Definition armed s (t : nat) : Prop :=
  exists a, hr_alarm_time (alarm_time s) (elapsed_rtc_delta s) t = Some a /\
    alarm_timer s !! t = Some (Some (timespec_to_ktime a)).

(** Someone has cancelled it and will start it again. *)
Definition excused s (t : nat) : Prop :=
  (setrtc s = TimersCancelled /\ (t < 4)%nat) \/
  (device s = Asleep /\ (t = ANDROID_ALARM_RTC_WAKEUP \/ t = ANDROID_ALARM_ELAPSED_REALTIME_WAKEUP)).

Definition covered s (t : nat) : Prop := armed s t \/ t ∈ callbacks s \/ excused s t.

Record inv s : Prop := {
  i_len : length (alarm_timer s) = 5%nat /\ length (alarm_time s) = 5%nat;
  i_bits : 0 <= alarm_enabled s /\ type_bits (alarm_enabled s);
  i_cover : forall t, (t < 5)%nat -> on (alarm_enabled s) t = true -> covered s t;
  i_owner : if alarm_opened s then exists f, private_data s = {[f]}
            else private_data s = ∅ /\ alarm_enabled s = 0 /\ wait_pending s = 0;
  i_close : forall f t b, closing s = Some (f, t, b) -> f ∈ private_data s /\
    (t + Nat.b2n b <= 5)%nat /\ forall u, (u < t)%nat \/ (b = true /\ u = t) -> on (alarm_enabled s) u = false;
  i_lock : alarm_pending s = 0 -> wait_pending s = 0 -> al_active (wake_locks s) AlarmWakeLock = false;
  i_ok : al_ok (wake_locks s) }.

(** The time of an alarm is always defined. *)
Lemma hr_defined times delta t : length times = 5%nat -> (t < 5)%nat -> exists a, hr_alarm_time times delta t = Some a.
Proof.
  intros Hl Ht. unfold hr_alarm_time. destruct (lookup_lt_is_Some_2 times t ltac:(lia)) as [a ->]. cbn [mbind option_bind].
  destruct (elapsed_type t); [|by eexists]. rewrite set_normalized_ok; [by eexists|]. apply s32_range.
Qed.

(** Starting a timer covers its alarm and leaves the rest alone. *)
Lemma start_ok t s : length (alarm_timer s) = 5%nat -> length (alarm_time s) = 5%nat -> (t < 5)%nat ->
  exists l, alarm_start_hrtimer t s = Some (set_timers l (callbacks s) s) /\ length l = 5%nat /\
    (forall u, u <> t -> l !! u = alarm_timer s !! u) /\
    (on (alarm_enabled s) t = true -> armed (set_timers l (callbacks s) s) t) /\
    (on (alarm_enabled s) t = false -> l = alarm_timer s).
Proof.
  intros Hl Ht Hlt. unfold alarm_start_hrtimer. rewrite mask_test. destruct (on (alarm_enabled s) t) eqn:Eo; cbn [negb].
  - destruct (hr_defined (alarm_time s) (elapsed_rtc_delta s) t Ht Hlt) as [a Ha]. rewrite Ha. cbn [mbind option_bind].
    eexists. split; [done|]. rewrite length_insert. split; [done|]. split; [|split; [|done]].
    + intros u Hu. by rewrite list_lookup_insert_ne.
    + intros _. exists a. split; [done|]. cbn. apply list_lookup_insert_eq. lia.
  - exists (alarm_timer s). split; [by destruct s|]. done.
Qed.

(** The timers changed only where a type is disabled, excused or now armed. *)
Lemma timers_inv s l c :
  inv s -> length l = 5%nat -> callbacks s ⊆ c ->
  (forall t, (t < 5)%nat -> on (alarm_enabled s) t = true -> l !! t <> alarm_timer s !! t ->
     covered (set_timers l c s) t) ->
  inv (set_timers l c s).
Proof.
  intros [[Hl1 Hl2] Hb Hcov Hown Hcl Hlk Hok] Hl Hc Hnew. split; cbn; try done.
  intros t Ht Ho. destruct (decide (l !! t = alarm_timer s !! t)) as [Heq|Hne]; [|by apply Hnew].
  destruct (Hcov t Ht Ho) as [(a & Ha & Hta)|[Hcb|Hex]].
  - left. exists a. cbn. by rewrite Heq.
  - right. left. cbn. by apply Hc.
  - right. right. exact Hex.
Qed.

Lemma start_inv t s : inv s -> (t < 5)%nat -> exists l,
  let s' := set_timers l (callbacks s) s in
  alarm_start_hrtimer t s = Some s' /\ inv s' /\
  (forall u, armed s u -> armed s' u) /\ (on (alarm_enabled s) t = true -> armed s' t).
Proof.
  intros Hi Ht. destruct (i_len _ Hi) as [Hl1 Hl2]. destruct (start_ok t s Hl1 Hl2 Ht) as (l & He & Hl & Hoth & Harm & Hoff).
  exists l. cbn zeta. split; [done|]. split; [|split; [|done]].
  - apply timers_inv; try done. intros u Hu Ho Hne.
    destruct (decide (u = t)) as [->|Hut]; [left; by apply Harm|]. by rewrite Hoth in Hne.
  - intros u (a & Ha & Hta). destruct (decide (u = t)) as [->|Hut].
    + destruct (on (alarm_enabled s) t); [by apply Harm|]. exists a. cbn. by rewrite (Hoff eq_refl).
    + exists a. cbn. by rewrite Hoth.
Qed.

(** The loop over the first four types. *)
Lemma start_all_inv s : inv s -> exists l,
  let s' := set_timers l (callbacks s) s in
  start_all s = Some s' /\ inv s' /\ forall t, (t < 4)%nat -> on (alarm_enabled s) t = true -> armed s' t.
Proof.
  intros Hi. unfold start_all.
  destruct (start_inv 0 s Hi ltac:(lia)) as (l0 & -> & H0 & K0 & A0). cbn [mbind option_bind].
  destruct (start_inv 1 _ H0 ltac:(lia)) as (l1 & -> & H1 & K1 & A1). cbn [mbind option_bind].
  destruct (start_inv 2 _ H1 ltac:(lia)) as (l2 & -> & H2 & K2 & A2). cbn [mbind option_bind].
  destruct (start_inv 3 _ H2 ltac:(lia)) as (l3 & -> & H3 & K3 & A3).
  exists l3. split; [done|]. split; [exact H3|]. intros t Ht Ho. cbn [alarm_enabled set_timers] in *.
  assert (t = 0 \/ t = 1 \/ t = 2 \/ t = 3)%nat as [->|[->|[->| ->]]] by lia.
  - by apply K3, K2, K1, A0.
  - by apply K3, K2, A1.
  - by apply K3, A2.
  - by apply A3.
Qed.

(** ** Changes of one part of the state *)

Lemma locks_inv s w : inv s -> al_ok w ->
  (al_active w AlarmWakeLock = true -> al_active (wake_locks s) AlarmWakeLock = true) -> inv (set_locks w s).
Proof.
  intros [Hl Hb Hcov Hown Hcl Hlk Hok] Hw Hm. split; try done. intros Hp Hwt. cbn in *.
  destruct (al_active w AlarmWakeLock) eqn:Ea; [|done]. rewrite Hm in Hlk by done. by apply Hlk.
Qed.

(** The flags, when no alarm is enabled that was not. *)
Lemma flags_inv s p en wt : inv s -> 0 <= en -> type_bits en ->
  (forall t, on en t = true -> on (alarm_enabled s) t = true) ->
  (alarm_opened s = false -> en = 0 /\ wt = 0) ->
  (p = 0 -> wt = 0 -> al_active (wake_locks s) AlarmWakeLock = false) -> inv (set_flags p en wt s).
Proof.
  intros [Hl Hb Hcov Hown Hcl Hlk Hok] Hen Hbits Hsub Hidle Hact. split; cbn; try done.
  - intros t Ht Ho. destruct (Hcov t Ht (Hsub t Ho)) as [?|[?|?]]; [by left|by right; left|by right; right].
  - destruct (alarm_opened s); [done|]. destruct Hown as [? _]. by split; [|apply Hidle].
  - intros f t b Hc. destruct (Hcl f t b Hc) as (Hf & Ht & Hu). split; [done|]. split; [done|]. intros u Hut.
    specialize (Hu u Hut). destruct (on en u) eqn:Eo; [|done]. by rewrite Hsub in Hu.
Qed.

Lemma phase_inv s r d : inv s ->
  (forall t, (t < 5)%nat -> on (alarm_enabled s) t = true -> covered (set_phase r d s) t) -> inv (set_phase r d s).
Proof. intros [Hl Hb Hcov Hown Hcl Hlk Hok] Hc. by split. Qed.

(** A phase that is over needs no excuse. *)
Lemma covered_phase s r d t : covered s t -> (excused s t -> covered (set_phase r d s) t) -> covered (set_phase r d s) t.
Proof. intros [?|[?|He]] Hx; [by left|by right; left|by apply Hx]. Qed.

Lemma removed_inv t s : inv s -> on (alarm_enabled s) t = false \/ excused s t -> inv (remove_timer t s).
Proof.
  intros Hi Hor. apply timers_inv; [done|by rewrite length_insert; apply Hi|done|].
  intros u Hu Ho Hne. destruct (decide (u = t)) as [->|Hut].
  - destruct Hor as [Hf|He]; [congruence|]. right. right. exact He.
  - by rewrite list_lookup_insert_ne in Hne.
Qed.

(** Trying to cancel changes only the timers. *)
Lemma cancelled_eq t s : exists l, try_to_cancel t s = set_timers l (callbacks s) s.
Proof. unfold try_to_cancel. case_bool_decide; [exists (alarm_timer s); by destruct s|by eexists]. Qed.

Lemma cancelled_inv t s : inv s -> on (alarm_enabled s) t = false \/ excused s t -> inv (try_to_cancel t s).
Proof. intros Hi Hor. unfold try_to_cancel. case_bool_decide; [done|by apply removed_inv]. Qed.

Lemma enabled_off s t : inv s -> inv (set_enabled (Z.land (alarm_enabled s) (Z.lnot (alarm_type_mask t))) s).
Proof.
  intros Hi. destruct (i_bits _ Hi) as [Hn Hb]. apply flags_inv; try done.
  - apply Z.land_nonneg. by left.
  - by apply type_bits_clear.
  - intros u. rewrite mask_clear. by destruct (Nat.eqb u t).
  - intros Hop. pose proof (i_owner _ Hi) as Ho. rewrite Hop in Ho. destruct Ho as (_ & -> & ->). by rewrite Z.land_0_l.
  - apply (i_lock _ Hi).
Qed.

(** ** The sections *)

(** The order of disabling an alarm and cancelling its timer does not matter. *)
Lemma clear_inv e t s : inv s -> exists s', alarm_clear e t s = Some s' /\ inv s'.
Proof.
  intros Hi. pose proof (enabled_off s t Hi) as H1. set (en := Z.land _ _) in H1.
  assert (H2 : inv (try_to_cancel t (set_enabled en s))).
  { apply cancelled_inv; [done|]. left. cbn. unfold en. by rewrite mask_clear, Nat.eqb_refl. }
  destruct (cancelled_eq t s) as [l El].
  assert (E2 : try_to_cancel t (set_enabled en s) = set_enabled en (set_timers l (callbacks s) s)).
  { rewrite <- El. unfold try_to_cancel. cbn. by case_bool_decide. }
  rewrite E2 in H2. unfold alarm_clear. rewrite El. clear E2 El.
  destruct (i_bits _ H2) as [Hn Hb]. cbn in Hn, Hb.
  assert (Hidle : alarm_opened s = false -> en = 0 /\ wait_pending s = 0).
  { intros Ho. pose proof (i_owner _ H2) as Hown. cbn in Hown. rewrite Ho in Hown. tauto. }
  cbn [alarm_pending set_timers set_pending set_flags wait_pending].
  destruct (Z.eqb_spec (alarm_pending s) 0) as [Hp|Hp]; cbn [negb mbind option_bind]; [by eexists; split|].
  set (p := Z.land (alarm_pending s) _). destruct ((p =? 0) && (wait_pending s =? 0)) eqn:Ez.
  - unfold unlock. cbn [wake_locks set_pending set_flags set_timers].
    destruct (al_unlock_ok e AlarmWakeLock (wake_locks s) (i_ok _ Hi)) as (w & -> & Hw & Hoff & Hmono). cbn [mbind option_bind].
    eexists. split; [done|]. pose proof (locks_inv _ w H2 Hw (Hmono _)) as H3.
    exact (flags_inv _ p en (wait_pending s) H3 Hn Hb (fun t H => H) Hidle (fun _ _ => Hoff)).
  - eexists. split; [done|]. apply (flags_inv _ p en (wait_pending s) H2 Hn Hb (fun t H => H) Hidle).
    intros -> Hz. by rewrite Hz in Ez.
Qed.

Lemma set_inv t new s : inv s -> (t < 5)%nat -> alarm_opened s = true -> closing s = None ->
  exists s', alarm_set t new s = Some s' /\ inv s'.
Proof.
  intros [[Hl1 Hl2] [Hn Hb] Hcov Hown Hcl Hlk Hok] Ht Hop Hclose. unfold alarm_set. set (s1 := set_enabled _ _).
  destruct (start_ok t s1) as (l & -> & Hl & Hoth & Harm & _); [done|by unfold s1; cbn; rewrite length_insert|done|].
  assert (Hon : forall u, on (alarm_enabled s1) u = if Nat.eqb u t then true else on (alarm_enabled s) u)
    by (intros u; unfold s1; cbn; apply mask_set).
  eexists. split; [done|]. split; cbn; try done.
  - split; [done|]. by rewrite length_insert.
  - split; [apply Z.lor_nonneg; split; [done|]; rewrite mask_pow; lia|by apply type_bits_set].
  - intros u Hu Ho. change (on (alarm_enabled s1) u = true) in Ho. rewrite Hon in Ho.
    destruct (Nat.eqb_spec u t) as [Hut|Hut]; [subst u; left; apply Harm; by rewrite Hon, Nat.eqb_refl|].
    destruct (Hcov u Hu Ho) as [(a & Ha & Hta)|[?|?]]; [|by right; left|by right; right].
    left. exists a. cbn. rewrite Hoth by done. split; [|done]. unfold hr_alarm_time in *.
    by rewrite list_lookup_insert_ne by done.
  - by rewrite Hop in *.
  - intros f u b Hc. by rewrite Hclose in Hc.
Qed.

Lemma wait_begin_inv e s : inv s -> exists s', alarm_wait_begin e s = Some s' /\ inv s'.
Proof.
  intros Hi. unfold alarm_wait_begin. destruct (_ && _); [|by eexists]. unfold unlock.
  destruct (al_unlock_ok e AlarmWakeLock (wake_locks s) (i_ok _ Hi)) as (w & -> & Hw & Hoff & Hmono). cbn [mbind option_bind].
  eexists. split; [done|]. pose proof (locks_inv _ w Hi Hw (Hmono _)) as H1. destruct (i_bits _ Hi) as [Hn Hb].
  apply flags_inv; try done. intros Ho. cbn in Ho. pose proof (i_owner _ Hi) as Hown. rewrite Ho in Hown. tauto.
Qed.

Lemma wait_end_inv e s : inv s -> alarm_opened s = true ->
  exists s', alarm_wait_end e s = Some (alarm_pending s, s') /\ inv s' /\ alarm_pending s' = 0.
Proof.
  intros Hi Ho. destruct (i_bits _ Hi) as [Hn Hb]. unfold alarm_wait_end.
  assert (H1 : inv (set_pending 0 (set_wait 1 s))).
  { apply (flags_inv s 0 (alarm_enabled s) 1 Hi Hn Hb (fun t H => H)); [congruence|done]. }
  destruct (negb _); [|by eexists]. unfold unlock. cbn [wake_locks set_pending set_wait set_flags].
  destruct (al_unlock_ok e AlarmRtcWakeLock (wake_locks s) (i_ok _ Hi)) as (w & -> & Hw & _ & Hmono). cbn [mbind option_bind].
  eexists. split; [done|]. split; [|done]. apply (locks_inv _ w H1 Hw). apply Hmono.
Qed.

(** ** Setting the time *)

Lemma cancel_all_eq s : length (alarm_timer s) = 5%nat ->
  exists l, cancel_all s = set_timers l (callbacks s) s /\ length l = 5%nat /\ l !! 4%nat = alarm_timer s !! 4%nat.
Proof.
  intros Hl. unfold cancel_all.
  assert (Hc : forall t s' l', t <> 4%nat -> s' = set_timers l' (callbacks s) s -> length l' = 5%nat -> l' !! 4%nat = alarm_timer s !! 4%nat ->
    exists l, try_to_cancel t s' = set_timers l (callbacks s) s /\
      length l = 5%nat /\ l !! 4%nat = alarm_timer s !! 4%nat).
  { intros t s' l' Ht -> Hl' H4. unfold try_to_cancel. case_bool_decide; [by exists l'|]. eexists. split; [done|]. cbn.
    by rewrite length_insert, list_lookup_insert_ne. }
  destruct (Hc 0%nat s (alarm_timer s)) as (l0 & -> & ? & ?); [lia|by destruct s|done|done|].
  destruct (Hc 1%nat _ l0 ltac:(lia) eq_refl) as (l1 & -> & ? & ?); [done|done|].
  destruct (Hc 2%nat _ l1 ltac:(lia) eq_refl) as (l2 & -> & ? & ?); [done|done|].
  destruct (Hc 3%nat _ l2 ltac:(lia) eq_refl) as (l3 & -> & ? & ?); [done|done|]. by exists l3.
Qed.

Lemma rtc_cancel_inv s delta : inv s ->
  inv (set_phase TimersCancelled (device s) (set_times (alarm_time s) delta (cancel_all s))).
Proof.
  intros [[Hl1 Hl2] Hb Hcov Hown Hcl Hlk Hok]. destruct (cancel_all_eq s Hl1) as (l & -> & Hl & H4). split; cbn; try done.
  intros t Ht Ho. destruct (decide (t = 4%nat)) as [->|]; [|right; right; left; cbn; split; [done|lia]].
  destruct (Hcov 4%nat Ht Ho) as [(a & Ha & Hta)|[?|[[_ ?]|?]]]; [|by right; left|lia|by right; right; right].
  left. exists a. cbn. by rewrite H4.
Qed.

(** A difference is always defined. *)
Lemma sub_defined a b : exists d, timespec_sub a b = Some d.
Proof. unfold timespec_sub. rewrite set_normalized_ok by apply s32_range. by eexists. Qed.

Lemma rtc_begin_inv tmp new s : inv s -> exists s', set_rtc_begin tmp new s = Some s' /\ inv s'.
Proof.
  intros Hi. pose proof (rtc_cancel_inv s) as Hr. unfold set_rtc_begin.
  destruct (cancel_all_eq s (proj1 (i_len _ Hi))) as (l & Hc & _). rewrite Hc in Hr |- *.
  destruct (sub_defined tmp new) as [d ->]. cbn [mbind option_bind elapsed_rtc_delta set_timers].
  destruct (sub_defined (elapsed_rtc_delta s) d) as [delta ->]. cbn [mbind option_bind]. eexists. split; [done|]. exact (Hr delta Hi).
Qed.

Lemma restore_begin_inv s : inv s -> inv (restore_begin s).
Proof.
  intros Hi. pose proof (rtc_cancel_inv s (elapsed_rtc_delta s) Hi) as Hr. unfold restore_begin.
  destruct (cancel_all_eq s (proj1 (i_len _ Hi))) as (l & Hc & _). rewrite Hc in Hr |- *. exact Hr.
Qed.

Lemma rtc_restart_inv s : inv s -> exists s', set_rtc_restart s = Some s' /\ inv s'.
Proof.
  intros Hi. unfold set_rtc_restart. destruct (start_all_inv s Hi) as (l & -> & H1 & Harm). cbn [mbind option_bind].
  eexists. split; [done|]. apply phase_inv; [done|]. intros t Ht Ho. apply covered_phase; [by apply (i_cover _ H1)|].
  intros [[_ Hx]|Hx]; [|by right; right; right]. left. by apply Harm.
Qed.

Lemma lor_set_nonzero p k : 0 <= k -> Z.lor p (2 ^ k) <> 0.
Proof. intros Hk He. apply (f_equal (fun x => Z.testbit x k)) in He. by rewrite bit_set, Z.eqb_refl, Z.bits_0 in He. Qed.

Lemma rtc_done_inv s : inv s -> setrtc s = TimersStarted -> inv (set_phase NotSetting (device s) s).
Proof.
  intros Hi Hs. apply phase_inv; [done|]. intros t Ht Ho. apply covered_phase; [by apply (i_cover _ Hi)|].
  intros [[Hx _]|Hx]; [by rewrite Hs in Hx|by right; right; right].
Qed.

Lemma rtc_end_inv s : inv s -> setrtc s = TimersStarted -> inv (set_rtc_end s).
Proof.
  intros Hi Hs. pose proof (rtc_done_inv s Hi Hs) as H1. destruct (i_bits _ Hi) as [Hn Hb].
  apply (flags_inv _ _ (alarm_enabled s) (wait_pending s) H1 Hn Hb (fun t H => H)).
  - intros Ho. cbn in Ho. pose proof (i_owner _ Hi) as Hown. rewrite Ho in Hown. tauto.
  - intros Hz. exfalso. by apply (lor_set_nonzero (alarm_pending s) 16).
Qed.

(** ** Closing *)

Lemma closing_inv s f t b : inv s -> f ∈ private_data s -> (t + Nat.b2n b <= 5)%nat ->
  (forall u, (u < t)%nat \/ (b = true /\ u = t) -> on (alarm_enabled s) u = false) ->
  inv (set_owner (alarm_opened s) (private_data s) (Some (f, t, b)) s).
Proof. intros [Hl Hb Hcov Hown Hcl Hlk Hok] Hf Ht Hu. split; cbn; try done. by intros ? ? ? [= <- <- <-]. Qed.

Lemma close_disable_inv s f t : inv s -> closing s = Some (f, t, false) -> (t < 5)%nat ->
  inv (set_owner (alarm_opened s) (private_data s) (Some (f, t, true)) (release_disable t s)).
Proof.
  intros Hi Hc Ht. destruct (i_close _ Hi _ _ _ Hc) as (Hf & _ & Hu). unfold release_disable. rewrite mask_test, negb_involutive.
  destruct (on (alarm_enabled s) t) eqn:Eo.
  - apply (closing_inv _ f t true (enabled_off s t Hi)); [done|cbn; lia|]. intros u Hut. cbn. rewrite mask_clear.
    destruct (Nat.eqb_spec u t); [done|]. apply Hu. left. lia.
  - apply closing_inv; [done|done|cbn; lia|]. intros u [Hut|[_ ->]]; [apply Hu; by left|done].
Qed.

Lemma close_cancel_inv s s' f t : inv s -> closing s = Some (f, t, true) -> cancel t s = Some s' ->
  inv (set_owner (alarm_opened s) (private_data s) (Some (f, S t, false)) s').
Proof.
  intros Hi Hc. destruct (i_close _ Hi _ _ _ Hc) as (Hf & Ht & Hu). unfold cancel. case_bool_decide; [done|]. intros [= <-].
  apply (closing_inv (remove_timer t s) f (S t) false); [apply removed_inv; [done|left; apply Hu; by right]|done|cbn in *; lia|].
  intros u [Hut|[? _]]; [|done]. cbn. apply Hu. destruct (decide (u = t)) as [->|]; [by right|left; lia].
Qed.

Lemma owned s f : inv s -> f ∈ private_data s -> alarm_opened s = true /\ private_data s = {[f]}.
Proof.
  intros Hi Hf. pose proof (i_owner _ Hi) as Ho. destruct (alarm_opened s).
  - split; [done|]. destruct Ho as [g Hg]. rewrite Hg in *. apply elem_of_singleton in Hf. by subst.
  - destruct Ho as [Ho _]. rewrite Ho in Hf. set_solver.
Qed.

Lemma close_end_inv e s f : inv s -> closing s = Some (f, 5%nat, false) ->
  exists s', release_end e f s = Some s' /\ inv s'.
Proof.
  intros Hi Hc. destruct (i_close _ Hi _ _ _ Hc) as (Hf & _ & Hu). destruct (owned s f Hi Hf) as [_ Hp].
  destruct (i_bits _ Hi) as [Hn Hb].
  assert (Hen : alarm_enabled s = 0) by (apply type_bits_zero; [done|done|]; intros t Ht; apply Hu; by left).
  assert (Hfin : forall s1, inv s1 -> private_data s1 = {[f]} -> alarm_enabled s1 = 0 -> wait_pending s1 = 0 ->
    inv (set_owner false (private_data s1 ∖ {[f]}) None s1)).
  { intros s1 [? ? ? ? ? ? ?] Hp1 ? ?. split; cbn; try done. rewrite Hp1. split; [set_solver|done]. }
  unfold release_end. destruct (Z.eqb_spec (Z.lor (alarm_pending s) (wait_pending s)) 0) as [Hz|Hz]; cbn [negb].
  - apply Z.lor_eq_0_iff in Hz as [_ Hw]. cbn [mbind option_bind]. eexists. split; [done|]. by apply Hfin.
  - unfold unlock. destruct (al_unlock_ok e AlarmWakeLock (wake_locks s) (i_ok _ Hi)) as (w & -> & Hw & Hoff & Hmono).
    cbn [mbind option_bind]. eexists. split; [done|]. apply Hfin; try done.
    apply (flags_inv _ 0 (alarm_enabled s) 0 (locks_inv _ w Hi Hw (Hmono _)) Hn Hb (fun t H => H)); [by intros _|done].
Qed.

(** ** Timers, interrupts and power *)

Lemma fire_inv s t : inv s -> inv (set_timers (<[t := None]> (alarm_timer s)) ({[t]} ∪ callbacks s) s).
Proof.
  intros Hi. apply timers_inv; [done|by rewrite length_insert; apply Hi|set_solver|].
  intros u Hu Ho Hne. destruct (decide (u = t)) as [->|Hut]; [right; left; cbn; set_solver|].
  by rewrite list_lookup_insert_ne in Hne.
Qed.

(** A timer function that is done leaves its alarm disabled. *)
Lemma callback_done_inv s t : inv s -> on (alarm_enabled s) t = false ->
  inv (set_timers (alarm_timer s) (callbacks s ∖ {[t]}) s).
Proof.
  intros [Hl Hb Hcov Hown Hcl Hlk Hok] Hoff. split; cbn; try done.
  intros u Hu Ho. destruct (Hcov u Hu Ho) as [?|[?|?]]; [by left| |by right; right].
  right. left. cbn. assert (u <> t) by congruence. set_solver.
Qed.

(** What the timer function does to an enabled alarm. *)
Definition rung (t : nat) (s s' : dev) : Prop :=
  alarm_pending s' = Z.lor (alarm_pending s) (alarm_type_mask t) /\
  alarm_enabled s' = Z.land (alarm_enabled s) (Z.lnot (alarm_type_mask t)) /\
  al_active (wake_locks s') AlarmWakeLock = true.

Lemma callback_ok e t s : inv s -> exists s', alarm_timer_triggered e t s = Some s' /\
  inv (set_timers (alarm_timer s') (callbacks s' ∖ {[t]}) s') /\
  if on (alarm_enabled s) t then rung t s s' else s' = s.
Proof.
  intros Hi. unfold alarm_timer_triggered. rewrite mask_test, negb_involutive.
  destruct (on (alarm_enabled s) t) eqn:Eo; [|eexists; split; [done|]; split; [by apply callback_done_inv|done]].
  unfold lock_timeout. destruct (al_timeout_ok e AlarmWakeLock (5 * HZ) (wake_locks s) (i_ok _ Hi)) as (w & -> & Hw & Hon & _);
    [unfold HZ; lia|]. cbn [mbind option_bind]. eexists. split; [done|]. split; [|by split].
  apply callback_done_inv; [|cbn; by rewrite mask_clear, Nat.eqb_refl].
  pose proof (enabled_off s t Hi) as [Hl Hb Hcov Hown Hcl Hlk Hok]. split; cbn in *; try done.
  intros Hz. exfalso. rewrite mask_pow in Hz. by apply lor_set_nonzero in Hz; [|lia].
Qed.

Lemma rtc_timeout_inv e n s : inv s -> 0 < n < 2 ^ 31 ->
  exists w, lock_timeout e AlarmRtcWakeLock n s = Some (set_locks w s) /\ inv (set_locks w s).
Proof.
  intros Hi Hn. unfold lock_timeout.
  destruct (al_timeout_ok e AlarmRtcWakeLock n (wake_locks s) (i_ok _ Hi) Hn) as (w & -> & Hw & _ & Hmono).
  exists w. split; [done|]. apply locks_inv; [done|done|]. by apply Hmono.
Qed.

Lemma rtc_irq_inv e af s : inv s -> exists s', alarm_triggered_func e af s = Some s' /\ inv s'.
Proof.
  intros Hi. unfold alarm_triggered_func. destruct af; cbn [negb]; [|by eexists].
  destruct (rtc_timeout_inv e (1 * HZ) s Hi) as (w & -> & Hw); [unfold HZ; lia|]. by eexists.
Qed.

Lemma suspend_inv s d : inv s -> device s = Awake -> inv (set_phase (setrtc s) d s).
Proof.
  intros Hi Hd. apply phase_inv; [done|]. intros t Ht Ho. apply covered_phase; [by apply (i_cover _ Hi)|].
  intros [Hx|[Hx _]]; [by right; right; left|congruence].
Qed.

(** Only the two wake-up timers are cancelled. *)
Lemma suspend_cancel_eq s s' : length (alarm_timer s) = 5%nat -> suspend_cancel s = Some s' ->
  exists l, s' = set_timers l (callbacks s) s /\ length l = 5%nat /\
    forall t, t <> ANDROID_ALARM_RTC_WAKEUP -> t <> ANDROID_ALARM_ELAPSED_REALTIME_WAKEUP -> l !! t = alarm_timer s !! t.
Proof.
  intros Hl. unfold suspend_cancel, cancel.
  assert (E0 : s = set_timers (alarm_timer s) (callbacks s) s) by (by destruct s).
  destruct (negb _).
  - case_bool_decide; [done|]. cbn [mbind option_bind]. destruct (negb _).
    + case_bool_decide; [done|]. intros [= <-]. eexists. split; [done|]. cbn. rewrite !length_insert. split; [done|].
      intros t H1 H2. by rewrite !list_lookup_insert_ne.
    + intros [= <-]. eexists. split; [done|]. cbn. rewrite !length_insert. split; [done|].
      intros t H1 H2. by rewrite !list_lookup_insert_ne.
  - cbn [mbind option_bind]. destruct (negb _).
    + case_bool_decide; [done|]. intros [= <-]. eexists. split; [done|]. cbn. rewrite !length_insert. split; [done|].
      intros t H1 H2. by rewrite !list_lookup_insert_ne.
    + intros [= <-]. by exists (alarm_timer s).
Qed.

Lemma suspend_cancel_inv s s' : inv s -> suspend_cancel s = Some s' -> device s = GoingDown ->
  inv (set_phase (setrtc s') Asleep s').
Proof.
  intros Hi Hc Hd. destruct (suspend_cancel_eq s s' (proj1 (i_len _ Hi)) Hc) as (l & -> & Hl & Hoth).
  assert (H1 : inv (set_phase (setrtc s) Asleep s)).
  { apply phase_inv; [done|]. intros t Ht Ho. apply covered_phase; [by apply (i_cover _ Hi)|].
    intros [Hx|[Hx _]]; [by right; right; left|congruence]. }
  apply (timers_inv _ l (callbacks s) H1 Hl); [done|]. intros t Ht Ho Hne. right. right. right. split; [done|].
  destruct (decide (t = ANDROID_ALARM_RTC_WAKEUP)); [by left|].
  destruct (decide (t = ANDROID_ALARM_ELAPSED_REALTIME_WAKEUP)); [by right|]. by rewrite Hoth in Hne.
Qed.

Lemma wakeups_inv s : inv s -> exists s', start_wakeups s = Some s' /\ inv (set_phase (setrtc s') Awake s').
Proof.
  intros Hi. unfold start_wakeups, ANDROID_ALARM_RTC_WAKEUP, ANDROID_ALARM_ELAPSED_REALTIME_WAKEUP.
  destruct (start_inv 0 s Hi ltac:(lia)) as (l0 & -> & H0 & K0 & A0). cbn [mbind option_bind].
  destruct (start_inv 2 _ H0 ltac:(lia)) as (l2 & -> & H2 & K2 & A2). eexists. split; [done|].
  apply phase_inv; [done|]. intros t Ht Ho. apply covered_phase; [by apply (i_cover _ H2)|].
  intros [Hx|[_ [->| ->]]]; [by right; right; left|left; by apply K2, A0|left; by apply A2].
Qed.

Lemma suspend_abort_inv e s : inv s -> exists s', suspend_abort e s = Some s' /\ inv (set_phase (setrtc s') Awake s').
Proof.
  intros Hi. unfold suspend_abort. destruct (rtc_timeout_inv e (2 * HZ) s Hi) as (w & -> & Hw); [unfold HZ; lia|].
  cbn [mbind option_bind]. by apply wakeups_inv.
Qed.

Lemma wakeup_mask_zero v : Z.land v ANDROID_ALARM_WAKEUP_MASK = 0 -> on v 0 = false /\ on v 2 = false.
Proof.
  intros Hz. assert (Hb : forall k, Z.testbit v k && Z.testbit ANDROID_ALARM_WAKEUP_MASK k = false)
    by (intros k; by rewrite <- Z.land_spec, Hz, Z.bits_0).
  unfold on. split; [specialize (Hb 0)|specialize (Hb 2)]; by rewrite andb_true_r in Hb.
Qed.

Lemma resume_inv s : inv s -> exists s', alarm_resume s = Some s' /\ inv (set_phase (setrtc s') Awake s').
Proof.
  intros Hi. unfold alarm_resume. destruct (Z.eqb_spec (Z.land (alarm_enabled s) ANDROID_ALARM_WAKEUP_MASK) 0) as [Hz|Hz]; cbn [negb];
    [|by apply wakeups_inv].
  eexists. split; [done|]. apply phase_inv; [done|]. intros t Ht Ho. apply covered_phase; [by apply (i_cover _ Hi)|].
  destruct (wakeup_mask_zero _ Hz) as [H0 H2]. intros [Hx|[_ [->| ->]]]; [by right; right; left|..];
    unfold ANDROID_ALARM_RTC_WAKEUP, ANDROID_ALARM_ELAPSED_REALTIME_WAKEUP in *; congruence.
Qed.

(** ** The commands of a file *)

Lemma claim_inv f s : inv s -> alarm_opened s = false -> inv (set_owner true ({[f]} ∪ private_data s) (closing s) s) /\ closing s = None.
Proof.
  intros [Hl Hb Hcov Hown Hcl Hlk Hok] Ho. rewrite Ho in Hown. destruct Hown as (Hp & Hen & Hw).
  assert (Hn : closing s = None).
  { destruct (closing s) as [[[g t] b]|]; [|done]. destruct (Hcl g t b eq_refl) as [Hg _]. rewrite Hp in Hg. set_solver. }
  split; [|done]. split; cbn; try done; [exists f; rewrite Hp; set_solver|]. intros ? ? ? Hc. congruence.
Qed.

(** A command that changes the alarms is given by the owner. *)
Definition owner (f : nat) s : Prop := alarm_opened s = true /\ private_data s = {[f]} /\ closing s = None.

Lemma usable_owner f s : inv s -> usable f s -> f ∈ private_data s -> owner f s.
Proof.
  intros Hi Hu Hf. destruct (owned s f Hi Hf) as [Ho Hp]. split; [done|]. split; [done|]. unfold usable in Hu.
  destruct (closing s) as [[[g t] b]|] eqn:Ec; [|done]. destruct (i_close _ Hi _ _ _ Ec) as [Hg _].
  rewrite Hp in Hg. apply elem_of_singleton in Hg. congruence.
Qed.

Definition claims (cmd : Z) (file : nat) s : bool :=
  negb (ANDROID_ALARM_BASE_CMD cmd =? ANDROID_ALARM_GET_TIME0) && negb (bool_decide (file ∈ private_data s)) &&
  negb (cmd =? ANDROID_ALARM_SET_RTC).
Definition claimed (cmd : Z) (file : nat) s : dev :=
  if claims cmd file s then set_owner true ({[file]} ∪ private_data s) (closing s) s else s.

Lemma claimed_ok cmd file s : inv s -> usable file s -> claims cmd file s && alarm_opened s = false ->
  inv (claimed cmd file s) /\
  (ANDROID_ALARM_BASE_CMD cmd <> ANDROID_ALARM_GET_TIME0 -> ANDROID_ALARM_BASE_CMD cmd <> ANDROID_ALARM_SET_RTC ->
   owner file (claimed cmd file s)).
Proof.
  intros Hi Hu Hc. unfold claimed. destruct (claims cmd file s) eqn:Ec.
  - destruct (claim_inv file s Hi Hc) as [H1 Hn]. split; [done|]. intros _ _. split; [done|]. split; [|done]. cbn.
    pose proof (i_owner _ Hi) as Ho. cbn in Hc. rewrite Hc in Ho. destruct Ho as [-> _]. set_solver.
  - split; [done|]. intros Hg Hs. apply usable_owner; [done|done|]. unfold claims in Ec.
    rewrite (proj2 (Z.eqb_neq _ _) Hg) in Ec. case_bool_decide as Hin; [done|]. cbn in Ec. apply negb_false_iff, Z.eqb_eq in Ec.
    by rewrite Ec in Hs.
Qed.

Lemma type_bound cmd : (Z.of_nat ANDROID_ALARM_TYPE_COUNT <=? ANDROID_ALARM_IOCTL_TO_TYPE cmd) = false ->
  (Z.to_nat (ANDROID_ALARM_IOCTL_TO_TYPE cmd) < 5)%nat.
Proof. unfold ANDROID_ALARM_TYPE_COUNT. intros Hb. apply Z.leb_gt in Hb. lia. Qed.

Lemma get_time_ok t now mono s : exists a, alarm_get_time t now mono s = Some a.
Proof.
  unfold alarm_get_time. destruct (negb _); [|by eexists]. destruct (Nat.leb _ _); [|by eexists]. apply sub_defined.
Qed.

Lemma alarm_ioctl_inv e cmd file rdonly arg out now mono s : inv s -> usable file s ->
  exists nx s', alarm_ioctl e cmd file rdonly arg out now mono s = Some (nx, s') /\ inv s'.
Proof.
  intros Hi Hu. unfold alarm_ioctl. cbv zeta. destruct (Z.of_nat ANDROID_ALARM_TYPE_COUNT <=? _) eqn:Et; [by do 2 eexists|].
  apply type_bound in Et. destruct (_ && rdonly); [by do 2 eexists|].
  fold (claims cmd file s). destruct (claims cmd file s && alarm_opened s) eqn:Ec; [by do 2 eexists|].
  destruct (claimed_ok cmd file s Hi Hu Ec) as [H1 Hown]. fold (claimed cmd file s). set (s1 := claimed cmd file s) in *.
  destruct (ANDROID_ALARM_BASE_CMD cmd =? ANDROID_ALARM_CLEAR0).
  { destruct (clear_inv e (Z.to_nat (ANDROID_ALARM_IOCTL_TO_TYPE cmd)) s1 H1) as (s2 & -> & H2). by do 2 eexists. }
  destruct (_ || _ || _ || _) eqn:Eset.
  { destruct arg as [a|]; [|by do 2 eexists].
    destruct Hown as (Ho & _ & Hcl); [intros Hb; by rewrite Hb in Eset|intros Hb; by rewrite Hb in Eset|].
    edestruct (set_inv (Z.to_nat (ANDROID_ALARM_IOCTL_TO_TYPE cmd))) as (s2 & He & H2); [exact H1|done|done|done|].
    rewrite He. by do 2 eexists. }
  destruct (_ =? ANDROID_ALARM_WAIT); [by do 2 eexists|]. destruct (_ =? ANDROID_ALARM_SET_RTC); [by do 2 eexists|].
  destruct (_ =? ANDROID_ALARM_GET_TIME0); [|by do 2 eexists].
  destruct (get_time_ok (Z.to_nat (ANDROID_ALARM_IOCTL_TO_TYPE cmd)) now mono s1) as [a ->]. by do 2 eexists.
Qed.

(** ** Every reachable state *)

Lemma alarm_step_inv s s' : inv s -> step s s' -> inv s'.
Proof.
  intros Hi Hs. destruct Hs as [e cmd f ro arg out now mono nx s' _ Hu He|e f s' _ _ _ He|e f rv s' _ Hu Hf He|tmp new s' _ _ He
    | | s' _ He|Hp|Hp|f _ Hc Hf|f t Hc Ht|f t s' Hc He|e f s' Hc He|t x Ht Hn|e t s' Ht He|e af s' He|go Hd _ _ _|s' Hd He
    |e s' _ He|s' _ He|w Hw].
  - destruct (alarm_ioctl_inv e cmd f ro arg out now mono s Hi Hu) as (? & ? & Hx & ?). rewrite Hx in He. by injection He as _ <-.
  - destruct (wait_begin_inv e s Hi) as (? & Hx & ?). rewrite Hx in He. by injection He as <-.
  - destruct (owned s f Hi Hf) as [Ho _]. destruct (wait_end_inv e s Hi Ho) as (? & Hx & ? & _). rewrite Hx in He. by injection He as _ <-.
  - destruct (rtc_begin_inv tmp new s Hi) as (? & Hx & ?). rewrite Hx in He. by injection He as <-.
  - by apply restore_begin_inv.
  - destruct (rtc_restart_inv s Hi) as (? & Hx & ?). rewrite Hx in He. by injection He as <-.
  - by apply rtc_end_inv.
  - by apply rtc_done_inv.
  - apply closing_inv; [done|done|cbn; lia|]. intros u [?|[? _]]; [lia|done].
  - by apply close_disable_inv.
  - by eapply close_cancel_inv.
  - destruct (close_end_inv e s f Hi Hc) as (? & Hx & ?). rewrite Hx in He. by injection He as <-.
  - by apply fire_inv.
  - destruct (callback_ok e t s Hi) as (? & Hx & ? & _). rewrite Hx in He. by injection He as <-.
  - destruct (rtc_irq_inv e af s Hi) as (? & Hx & ?). rewrite Hx in He. by injection He as <-.
  - by apply suspend_inv.
  - by eapply suspend_cancel_inv.
  - destruct (suspend_abort_inv e s Hi) as (? & Hx & ?). rewrite Hx in He. by injection He as <-.
  - destruct (resume_inv s Hi) as (? & Hx & ?). rewrite Hx in He. by injection He as <-.
  - destruct (al_other_ok _ _ (i_ok _ Hi) Hw) as [Hok Hmono]. apply locks_inv; [done|done|apply Hmono].
Qed.

Lemma alarm_reach_inv s : reach s -> inv s.
Proof.
  induction 1 as [now sys delta w _ Hw Ha|s s' _ IH Hs]; [|by eapply alarm_step_inv].
  split; cbn; try done; [split; [lia|intros i _; apply Z.bits_0]|]. intros t _. unfold on. by rewrite Z.bits_0.
Qed.

(** ** Theorems *)

(** A file that is not the owner is refused, or does not change anything: another error is
    the only other outcome.  No command of a usable file gets stuck. *)
Theorem alarm_ioctl_exclusive e cmd file rdonly arg out now mono s :
  reach s -> usable file s ->
  exists nx s', alarm_ioctl e cmd file rdonly arg out now mono s = Some (nx, s') /\
    (alarm_opened s = true -> file ∉ private_data s -> s' = s /\
       (ANDROID_ALARM_BASE_CMD cmd <> ANDROID_ALARM_GET_TIME0 -> cmd <> ANDROID_ALARM_SET_RTC ->
        exists err, nx = Return (- err) /\ (err = EINVAL \/ err = EPERM \/ err = EBUSY))).
Proof.
  intros Hr Hu. destruct (alarm_ioctl_inv e cmd file rdonly arg out now mono s (alarm_reach_inv _ Hr) Hu) as (nx & s' & He & _).
  exists nx, s'. split; [done|]. intros Ho Hf. unfold alarm_ioctl in He. cbv zeta in He. rewrite Ho, andb_true_r in He.
  destruct (_ <=? _); [injection He as <- <-; split; [done|]; eauto|].
  rewrite (bool_decide_eq_false_2 (file ∈ private_data s)) in He by done.
  destruct (Z.eqb_spec (ANDROID_ALARM_BASE_CMD cmd) ANDROID_ALARM_GET_TIME0) as [Hg|Hg]; cbn [negb andb] in He.
  - rewrite Hg in He. cbn in He. split; [|done]. destruct (alarm_get_time _ _ _ _); [|done]. by injection He.
  - destruct rdonly; [injection He as <- <-; split; [done|]; eauto|].
    destruct (Z.eqb_spec cmd ANDROID_ALARM_SET_RTC) as [->|Hs]; cbn [negb andb] in He; [|injection He as <- <-; split; [done|]; eauto].
    split; [|done]. by injection He.
Qed.

(** C18: In every reachable state of the alarm driver: at most one file owns the alarms, and
    without an owner no alarm is enabled; every enabled alarm has its timer set to the time asked for
    (corrected by the offset of the elapsed clock) or its timer function is about to run, unless the
    time is being set or the phone is down; and the wake lock is released when nothing is pending and no alarm is being handled. *)
Theorem alarm_never_lost s : reach s ->
  (if alarm_opened s then exists f, private_data s = {[f]} else private_data s = ∅ /\ alarm_enabled s = 0) /\
  (forall t, (t < 5)%nat -> on (alarm_enabled s) t = true ->
     (setrtc s = TimersCancelled -> t = ANDROID_ALARM_SYSTEMTIME) ->
     (device s = Asleep -> on ANDROID_ALARM_WAKEUP_MASK t = false) -> armed s t \/ t ∈ callbacks s) /\
  (alarm_pending s = 0 -> wait_pending s = 0 -> al_active (wake_locks s) AlarmWakeLock = false).
Proof.
  intros Hr. pose proof (alarm_reach_inv _ Hr) as Hi. split; [|split; [|by apply i_lock]].
  - pose proof (i_owner _ Hi) as Ho. destruct (alarm_opened s); [done|]. tauto.
  - intros t Ht Ho Hset Hdev. destruct (i_cover _ Hi t Ht Ho) as [?|[?|[[Hc Hlt]|[Hd Hw]]]]; [by left|by right|..].
    + rewrite Hset in Hlt by done. unfold ANDROID_ALARM_SYSTEMTIME in Hlt. lia.
    + specialize (Hdev Hd). by destruct Hw as [-> | ->].
Qed.

Lemma rung_on t s s' u : rung t s s' -> on (alarm_pending s') u = if Nat.eqb u t then true else on (alarm_pending s) u.
Proof. intros (-> & _ & _). apply mask_set. Qed.

(** C21: When the timer function of an enabled alarm runs, the alarm becomes pending with the
    wake lock held and is no longer enabled; a wait that is woken returns exactly the pending alarms, this one among them, and leaves none pending;
    and the next wait, if nothing else rang, releases the wake lock. *)
Theorem alarm_delivered e e1 e2 t s : reach s -> t ∈ callbacks s -> on (alarm_enabled s) t = true ->
  exists s1, alarm_timer_triggered e t s = Some s1 /\ al_active (wake_locks s1) AlarmWakeLock = true /\
    on (alarm_enabled s1) t = false /\
    exists rv s2, alarm_wait_end e1 s1 = Some (rv, s2) /\ rv <> 0 /\
      (forall u, on rv u = if Nat.eqb u t then true else on (alarm_pending s) u) /\
      alarm_pending s2 = 0 /\ wait_pending s2 = 1 /\
      exists s3, alarm_wait_begin e2 s2 = Some s3 /\ wait_pending s3 = 0 /\ al_active (wake_locks s3) AlarmWakeLock = false.
Proof.
  intros Hr Ht Ho. pose proof (alarm_reach_inv _ Hr) as Hi. destruct (callback_ok e t s Hi) as (s1 & He & H1 & Hring).
  rewrite Ho in Hring. exists s1. split; [done|]. split; [apply Hring|].
  split; [destruct Hring as (_ & -> & _); by rewrite mask_clear, Nat.eqb_refl|].
  exists (alarm_pending s1). pose proof (i_ok _ H1) as Hok1. cbn in Hok1.
  assert (Hend : exists s2, alarm_wait_end e1 s1 = Some (alarm_pending s1, s2) /\ alarm_pending s2 = 0 /\ wait_pending s2 = 1 /\ al_ok (wake_locks s2)).
  { unfold alarm_wait_end. destruct (negb _); [|by eexists]. unfold unlock. cbn [wake_locks set_pending set_wait set_flags].
    destruct (al_unlock_ok e1 AlarmRtcWakeLock (wake_locks s1) Hok1) as (w & -> & Hw & _). by eexists. }
  destruct Hend as (s2 & Hs2 & Hp2 & Hw2 & Hok2). exists s2. split; [done|].
  split; [destruct Hring as (-> & _); rewrite mask_pow; apply lor_set_nonzero; lia|].
  split; [intros u; by apply rung_on|]. split; [done|]. split; [done|].
  unfold alarm_wait_begin, unlock. rewrite Hp2, Hw2. cbn [Z.eqb negb andb].
  destruct (al_unlock_ok e2 AlarmWakeLock (wake_locks s2) Hok2) as (w & -> & Hw & Hoff & _). by eexists.
Qed.

(** ** Time *)

Lemma ns_inj a b : ts_ok a -> ts_ok b -> ns a = ns b -> a = b.
Proof.
  intros [_ Ha] [_ Hb]. destruct a as [x y], b as [x' y']. unfold ns, NSEC_PER_SEC in *. cbn in *. intros He. f_equal; lia.
Qed.

(** A sum or difference that fits is exact. *)
Lemma normalized_exact sec nsec : is_s32 nsec -> ktime_range (sec * NSEC_PER_SEC + nsec) ->
  exists d, set_normalized_timespec (s32 sec) nsec = Some d /\ ts_ok d /\ ns d = sec * NSEC_PER_SEC + nsec.
Proof.
  intros Hn Hr. rewrite set_normalized_ok by done. eexists. split; [done|]. unfold ktime_range, ts_ok, ns, NSEC_PER_SEC, is_s32 in *.
  cbn [tv_sec tv_nsec]. pose proof (Z.div_mod nsec 1000000000 ltac:(lia)). pose proof (Z.mod_pos_bound nsec 1000000000 ltac:(lia)).
  rewrite s32_id by (unfold is_s32; lia). lia.
Qed.

Lemma sub_exact a b : ts_ok a -> ts_ok b -> ktime_range (ns a - ns b) ->
  exists d, timespec_sub a b = Some d /\ ts_ok d /\ ns d = ns a - ns b.
Proof.
  intros [_ Ha] [_ Hb] Hr. unfold timespec_sub.
  assert (Hn : is_s32 (tv_nsec a - tv_nsec b)) by (unfold is_s32, NSEC_PER_SEC in *; lia). rewrite (s32_id _ Hn).
  assert (Ee : ns a - ns b = (tv_sec a - tv_sec b) * NSEC_PER_SEC + (tv_nsec a - tv_nsec b)) by (unfold ns; lia).
  rewrite Ee in *. by apply normalized_exact.
Qed.

(** The time at which an alarm is due, on the clock of its timer. *)
Lemma due_exact times delta t a : times !! t = Some a -> ts_ok a -> ts_ok delta -> elapsed_type t = true ->
  ktime_range (ns a + ns delta) -> exists d, hr_alarm_time times delta t = Some d /\ ts_ok d /\ ns d = ns a + ns delta.
Proof.
  intros Ht [_ Ha] [_ Hd] He Hr. unfold hr_alarm_time. rewrite Ht. cbn [mbind option_bind]. rewrite He.
  assert (Hn : is_s32 (tv_nsec a + tv_nsec delta)) by (unfold is_s32, NSEC_PER_SEC in *; lia). rewrite (s32_id _ Hn).
  assert (Ee : ns a + ns delta = (tv_sec a + tv_sec delta) * NSEC_PER_SEC + (tv_nsec a + tv_nsec delta)) by (unfold ns; lia).
  rewrite Ee in *. by apply normalized_exact.
Qed.

Lemma elapsed_time t now mono s : elapsed_type t = true -> alarm_get_time t now mono s = timespec_sub now (elapsed_rtc_delta s).
Proof.
  unfold elapsed_type, alarm_get_time. rewrite orb_true_iff, !Nat.eqb_eq. by intros [-> | ->].
Qed.

(** The offset after the first section of setting the time. *)
Lemma rtc_begin_delta tmp new s :
  length (alarm_timer s) = 5%nat -> ts_ok tmp -> ts_ok new -> ts_ok (elapsed_rtc_delta s) ->
  0 <= tv_sec tmp -> 0 <= tv_sec new -> ktime_range (ns (elapsed_rtc_delta s) - (ns tmp - ns new)) ->
  exists s', set_rtc_begin tmp new s = Some s' /\ ts_ok (elapsed_rtc_delta s') /\
    ns (elapsed_rtc_delta s') = ns (elapsed_rtc_delta s) - (ns tmp - ns new) /\ alarm_time s' = alarm_time s.
Proof.
  intros Hl Ht Hn Hd Hpt Hpn Hr. unfold set_rtc_begin. destruct (cancel_all_eq s Hl) as (l & -> & _).
  destruct (sub_exact tmp new Ht Hn) as (d & -> & Hdok & Hdns).
  { destruct Ht as [Ht1 Ht2], Hn as [Hn1 Hn2]. unfold ktime_range, ns, NSEC_PER_SEC, is_s32 in *. lia. }
  cbn [mbind option_bind elapsed_rtc_delta set_timers]. rewrite <- Hdns in Hr |- *.
  destruct (sub_exact _ _ Hd Hdok Hr) as (d' & -> & Hd'ok & Hd'ns). cbn [mbind option_bind]. by eexists.
Qed.

(** When the timer of an alarm is to fire, on the clock of the timer. *)
Definition due s (t : nat) : option timespec := hr_alarm_time (alarm_time s) (elapsed_rtc_delta s) t.

(** C22: Setting the clock from [tmp] to [new] does not change the elapsed clock: right after
    it shows what it showed before, and an alarm on the elapsed clock is due after exactly as long as before,
    though its timer runs on the clock that was set.  The times are normalised (nanoseconds from 0 to 999999999:
    [ts_ok]), that of the alarm included, the clock is not before 1970, and the sums and differences formed stay
    within the seconds of a [ktime_t].  ALARM_SET does not check that the time of an alarm is normalised
    (drivers/rtc/alarm.c:144); without it the claim fails, as [unnormalised_elapsed_moves] shows. *)
Theorem set_rtc_keeps_elapsed tmp new mono mono' s :
  reach s -> ts_ok tmp -> ts_ok new -> ts_ok (elapsed_rtc_delta s) -> 0 <= tv_sec tmp -> 0 <= tv_sec new ->
  ktime_range (ns (elapsed_rtc_delta s) - (ns tmp - ns new)) -> ktime_range (ns tmp - ns (elapsed_rtc_delta s)) ->
  exists s' shown, set_rtc_begin tmp new s = Some s' /\ ns shown = ns tmp - ns (elapsed_rtc_delta s) /\
    forall t, elapsed_type t = true ->
      alarm_get_time t tmp mono s = Some shown /\ alarm_get_time t new mono' s' = Some shown /\
      forall a, alarm_time s !! t = Some a -> ts_ok a -> ktime_range (ns a + ns (elapsed_rtc_delta s)) ->
        ktime_range (ns a + ns (elapsed_rtc_delta s')) -> exists d d',
        due s t = Some d /\ due s' t = Some d' /\ ns d' - ns new = ns d - ns tmp.
Proof.
  intros Hr Ht Hn Hd Hpt Hpn Hr1 Hr2. destruct (i_len _ (alarm_reach_inv _ Hr)) as [Hl _].
  destruct (rtc_begin_delta tmp new s Hl Ht Hn Hd Hpt Hpn Hr1) as (s' & He & Hd' & Hns & Htm).
  destruct (sub_exact tmp _ Ht Hd Hr2) as (x & Hx & Hxok & Hxns).
  destruct (sub_exact new _ Hn Hd') as (y & Hy & Hyok & Hyns); [rewrite Hns; by replace (_ - _) with (ns tmp - ns (elapsed_rtc_delta s)) by lia|].
  exists s', x. split; [done|]. split; [done|]. intros t Hel. rewrite !elapsed_time by done. split; [done|].
  split; [rewrite Hy; f_equal; apply ns_inj; [done|done|lia]|].
  intros a Ha Hok Hk Hk'. unfold due. destruct (due_exact _ _ _ _ Ha Hok Hd Hel Hk) as (d & -> & _ & Hdn).
  rewrite <- Htm in Ha. destruct (due_exact _ _ _ _ Ha Hok Hd' Hel Hk') as (d' & -> & _ & Hdn').
  exists d, d'. split; [done|]. split; [done|]. lia.
Qed.

(** When the time is then not set after all, or set back, the elapsed clock has jumped by the
    difference: neither the failure of [do_settimeofday] nor [err_restore] undoes the new offset. *)
Theorem set_rtc_failure_jumps tmp new now mono s :
  reach s -> ts_ok tmp -> ts_ok new -> ts_ok now -> ts_ok (elapsed_rtc_delta s) -> 0 <= tv_sec tmp -> 0 <= tv_sec new ->
  ktime_range (ns (elapsed_rtc_delta s) - (ns tmp - ns new)) -> ktime_range (ns now - ns (elapsed_rtc_delta s)) ->
  ktime_range (ns now - ns (elapsed_rtc_delta s) + (ns tmp - ns new)) ->
  exists s1 s2, set_rtc_begin tmp new s = Some s1 /\ set_rtc_restart s1 = Some s2 /\
    forall t, elapsed_type t = true -> exists x y, alarm_get_time t now mono s = Some x /\
      alarm_get_time t now mono (set_rtc_fail s2) = Some y /\ ns y = ns x + (ns tmp - ns new).
Proof.
  intros Hr Ht Hn Hnow Hd Hpt Hpn Hr1 Hr2 Hr3. pose proof (alarm_reach_inv _ Hr) as Hi.
  destruct (rtc_begin_delta tmp new s (proj1 (i_len _ Hi)) Ht Hn Hd Hpt Hpn Hr1) as (s1 & He & Hd' & Hns & Htm).
  destruct (rtc_begin_inv tmp new s Hi) as (s1' & He' & Hi1). rewrite He in He'. injection He' as <-.
  destruct (start_all_inv s1 Hi1) as (l & Hs & _).
  exists s1, (set_phase TimersStarted (device s1) (set_timers l (callbacks s1) s1)). split; [done|].
  split; [unfold set_rtc_restart; by rewrite Hs|]. intros t Hel. rewrite !elapsed_time by done. cbn [elapsed_rtc_delta set_rtc_fail set_phase set_timers].
  destruct (sub_exact now _ Hnow Hd Hr2) as (x & -> & _ & Hx).
  destruct (sub_exact now _ Hnow Hd') as (y & -> & _ & Hy); [rewrite Hns; by replace (_ - _) with (ns now - ns (elapsed_rtc_delta s) + (ns tmp - ns new)) by lia|].
  exists x, y. split; [done|]. split; [done|]. lia.
Qed.

(** ** Waking the suspended phone *)

(** An enabled alarm that wakes the phone, due at [d]. *)
Definition wakes s (t : nat) (d : timespec) : Prop :=
  (t = ANDROID_ALARM_RTC_WAKEUP \/ t = ANDROID_ALARM_ELAPSED_REALTIME_WAKEUP) /\ on (alarm_enabled s) t = true /\
  hr_alarm_time (alarm_time s) (elapsed_rtc_delta s) t = Some d.

(** The one the real-time clock is set for is the earliest. *)
Lemma earliest_chosen delta s : length (alarm_time s) = 5%nat -> Z.land (alarm_enabled s) ANDROID_ALARM_WAKEUP_MASK <> 0 ->
  (forall t d, wakes s t d -> ts_ok d) ->
  exists t d, wakes s t d /\ (forall t' d', wakes s t' d' -> ns d <= ns d') /\
    rtc_alarm_time delta s = tv_sec <$> timespec_sub d delta.
Proof.
  intros Hl Hm Hok. destruct (lookup_lt_is_Some_2 (alarm_time s) 0 ltac:(lia)) as [a Ha].
  destruct (hr_defined (alarm_time s) (elapsed_rtc_delta s) 2 Hl ltac:(lia)) as [b Hb].
  assert (H0 : hr_alarm_time (alarm_time s) (elapsed_rtc_delta s) 0 = Some a) by (unfold hr_alarm_time; by rewrite Ha).
  unfold rtc_alarm_time, ANDROID_ALARM_RTC_WAKEUP, ANDROID_ALARM_ELAPSED_REALTIME_WAKEUP. rewrite Ha, Hb. cbn [mbind option_bind].
  rewrite !mask_test, !negb_involutive.
  assert (Hc : forall t d, wakes s t d -> (t = 0%nat /\ d = a /\ on (alarm_enabled s) 0 = true) \/ (t = 2%nat /\ d = b /\ on (alarm_enabled s) 2 = true)).
  { intros t d ([-> | ->] & Ho & Hd); [left|right]; unfold ANDROID_ALARM_RTC_WAKEUP, ANDROID_ALARM_ELAPSED_REALTIME_WAKEUP in *;
      split; [done| |done|]; (split; [congruence|done]). }
  assert (Wa : on (alarm_enabled s) 0 = true -> wakes s 0 a) by (intros ?; split; [by left|done]).
  assert (Wb : on (alarm_enabled s) 2 = true -> wakes s 2 b) by (intros ?; split; [by right|done]).
  assert (Hfin : forall t d, wakes s t d -> (forall t' d', wakes s t' d' -> ns d <= ns d') ->
    exists t0 d0, wakes s t0 d0 /\ (forall t' d', wakes s t' d' -> ns d0 <= ns d') /\
      (r ← timespec_sub d delta; Some (tv_sec r)) = tv_sec <$> timespec_sub d0 delta).
  { intros t d Hw Hmin. exists t, d. split; [done|]. split; [done|]. by destruct (timespec_sub d delta). }
  destruct (on (alarm_enabled s) 0) eqn:E0, (on (alarm_enabled s) 2) eqn:E2; cbn [andb orb negb].
  - destruct (timespec_arith_correct a b (Hok _ _ (Wa eq_refl)) (Hok _ _ (Wb eq_refl))) as (_ & _ & Hcmp & _).
    destruct (Z.ltb_spec (timespec_compare a b) 0) as [Hlt|Hge].
    + apply (Hfin 0%nat a (Wa eq_refl)). intros t' d' Hw. destruct (Hc _ _ Hw) as [(_ & -> & _)|(_ & -> & _)]; lia.
    + apply (Hfin 2%nat b (Wb eq_refl)). intros t' d' Hw. destruct (Hc _ _ Hw) as [(_ & -> & _)|(_ & -> & _)]; lia.
  - apply (Hfin 0%nat a (Wa eq_refl)). intros t' d' Hw. destruct (Hc _ _ Hw) as [(_ & -> & _)|(_ & _ & ?)]; [lia|done].
  - apply (Hfin 2%nat b (Wb eq_refl)). intros t' d' Hw. destruct (Hc _ _ Hw) as [(_ & _ & ?)|(_ & -> & _)]; [done|lia].
  - exfalso. apply Hm. apply Z.bits_inj'. intros i Hi. rewrite Z.land_spec, Z.bits_0. unfold on in *. change (Z.of_nat 0) with 0 in E0. change (Z.of_nat 2) with 2 in E2.
    destruct (decide (i = 0)) as [->|]; [by rewrite E0|]. destruct (decide (i = 2)) as [->|]; [by rewrite E2|].
    replace ANDROID_ALARM_WAKEUP_MASK with (Z.lor (2 ^ 0) (2 ^ 2)) by done.
    rewrite Z.lor_spec, !testbit_pow2 by lia. rewrite !(proj2 (Z.eqb_neq _ _)) by done. by rewrite andb_false_r.
Qed.

(** C20: When the phone may suspend with wake-up alarms enabled, the real-time clock is set to ring in the last
    full second before the earliest of them is due, never after any of them; the attempt is given up
    exactly when the real-time clock would ring within a second.  This holds when the due time of every enabled
    wake-up alarm is normalised (nanoseconds from 0 to 999999999) and, on the scale of the real-time clock, lies
    between 0 and 2^31 s, the system clock is normalised and the two clocks differ by less than 2^31 s.  ALARM_SET
    does not check that the time of an alarm is normalised (drivers/rtc/alarm.c:144); without it the phone may wake
    after an alarm is due, as [unnormalised_wakes_late] shows. *)
Theorem alarm_wakes_in_time xtime rtc1 rtc2 s :
  reach s -> suspend_check s = (0, true) -> ts_ok xtime -> 0 <= rtc1 < 2 ^ 31 -> 0 <= rtc2 < 2 ^ 32 - 1 ->
  ktime_range (ns xtime - rtc1 * NSEC_PER_SEC) ->
  (forall t d, wakes s t d -> ts_ok d /\ 0 <= ns d - ns xtime + rtc1 * NSEC_PER_SEC < 2 ^ 31 * NSEC_PER_SEC) ->
  exists alarm abort, suspend_rtc xtime rtc1 rtc2 s = Some (alarm, abort) /\
    (forall t d, wakes s t d -> alarm * NSEC_PER_SEC <= ns d - ns xtime + rtc1 * NSEC_PER_SEC) /\
    (exists t d, wakes s t d /\ ns d - ns xtime + rtc1 * NSEC_PER_SEC < (alarm + 1) * NSEC_PER_SEC) /\
    (abort = true <-> alarm <= rtc2 + 1).
Proof.
  intros Hr Hck Hx H1 H2 Hdr Hw. destruct (i_len _ (alarm_reach_inv _ Hr)) as [_ Hl]. unfold suspend_check in Hck.
  destruct (negb _ && negb _); [done|]. injection Hck as Hm. apply negb_true_iff, Z.eqb_neq in Hm.
  unfold suspend_rtc, save_time_delta. fold (timespec_sub xtime (mk_ts (s32 rtc1) 0)). rewrite s32_id by (unfold is_s32; lia).
  destruct (sub_exact xtime (mk_ts rtc1 0) Hx) as (delta & -> & Hd & Hdn).
  { unfold ts_ok, is_s32, NSEC_PER_SEC. cbn. lia. }
  { unfold ns at 2. cbn. by rewrite Z.add_0_r. }
  assert (Hn : ns (mk_ts rtc1 0) = rtc1 * NSEC_PER_SEC) by (unfold ns; cbn; lia). rewrite Hn in Hdn.
  destruct (earliest_chosen delta s Hl Hm (fun t d H => proj1 (Hw t d H))) as (t & d & Htd & Hmin & Hra).
  cbn [mbind option_bind]. rewrite Hra. destruct (Hw t d Htd) as [Hdok Hrange].
  destruct (sub_exact d delta Hdok Hd) as (r & -> & [Hr1 Hr2] & Hrn); [unfold ktime_range; rewrite Hdn; unfold NSEC_PER_SEC in *; lia|].
  cbn [fmap option_fmap option_map mbind option_bind]. rewrite Hdn in Hrn.
  assert (Hrb : 0 <= tv_sec r < 2 ^ 31) by (unfold ns, is_s32, NSEC_PER_SEC in *; lia).
  rewrite (u32_id (tv_sec r)), (u32_id (rtc2 + 1)) by (unfold is_u32; lia). do 2 eexists. split; [done|]. split; [|split].
  - intros t' d' Hw'. specialize (Hmin t' d' Hw'). unfold ns, NSEC_PER_SEC in *. lia.
  - exists t, d. split; [done|]. unfold ns, NSEC_PER_SEC in *. lia.
  - apply Z.leb_le.
Qed.

End Proof.

(** ** A driver whose wake locks are two flags *)

Definition flag_of (w : bool * bool) (l : alarm_lock) : bool := match l with AlarmWakeLock => fst w | AlarmRtcWakeLock => snd w end.
Definition set_flag (b : bool) (l : alarm_lock) (w : bool * bool) : bool * bool :=
  match l with AlarmWakeLock => (b, snd w) | AlarmRtcWakeLock => (fst w, b) end.

#[global] Program Instance flag_locks : AlarmLocks (bool * bool) unit := {
  al_timeout := fun _ l _ w => Some (set_flag true l w);
  al_unlock := fun _ l w => Some (set_flag false l w);
  al_active := flag_of;
  al_other := eq;
  al_ok := fun _ => True }.
Next Obligation. intros e l n w _ _. eexists. split; [done|]. split; [done|]. split; [by destruct l|]. by intros [] ?; destruct l. Qed.
Next Obligation. intros e l w _. eexists. split; [done|]. split; [done|]. split; [by destruct l|]. by intros []; destruct l. Qed.
Next Obligation. naive_solver. Qed.

(** The alarm of the elapsed clock is set to 100 s, then it fires. *)
Definition alarm_demo0 : alarm_dev (bool * bool) := alarm_boot (mk_ts 1000 5) (false, false).
Definition alarm_demo1 : alarm_dev (bool * bool) :=
  match alarm_ioctl tt 0x40086122 7 false (Some (mk_ts 100 0)) true (mk_ts 0 0) (mk_ts 0 0) alarm_demo0 with
  | Some (_, s) => s | None => alarm_demo0 end.
Definition alarm_demo2 : alarm_dev (bool * bool) := set_timers (<[2%nat := None]> (alarm_timer alarm_demo1)) ({[2%nat]} ∪ ∅) alarm_demo1.

Lemma alarm_demo1_reach : reach alarm_demo1.
Proof.
  apply (reach_step alarm_demo0); [by apply (reach_boot (mk_ts 1010 5) (mk_ts 10 0))|].
  by apply (step_ioctl _ tt 0x40086122 7 false (Some (mk_ts 100 0)) true (mk_ts 0 0) (mk_ts 0 0) (Return 0)).
Qed.

Lemma alarm_demo2_reach : reach alarm_demo2.
Proof.
  apply (reach_step alarm_demo1); [apply alarm_demo1_reach|].
  apply (step_fire alarm_demo1 2 (timespec_to_ktime (mk_ts 1100 5))); [by vm_compute|]. vm_compute. set_solver.
Qed.

Lemma alarm_never_lost_witness : armed alarm_demo1 2 \/ 2%nat ∈ callbacks alarm_demo1.
Proof. destruct (alarm_never_lost alarm_demo1 alarm_demo1_reach) as (_ & H & _). apply H; [lia|reflexivity|discriminate|discriminate]. Defined.

Lemma alarm_delivered_witness : exists s1, alarm_timer_triggered tt 2 alarm_demo2 = Some s1 /\ al_active (wake_locks s1) AlarmWakeLock = true.
Proof.
  destruct (alarm_delivered tt tt tt 2 alarm_demo2 alarm_demo2_reach) as (s1 & He & Ha & _);
    [by apply (bool_decide_eq_true_1 _)|reflexivity|]. exists s1. split; [exact He|exact Ha].
Defined.

Lemma set_rtc_keeps_elapsed_witness : exists s' shown,
  set_rtc_begin (mk_ts 1050 0) (mk_ts 5000 0) alarm_demo1 = Some s' /\ ns shown = 49999999995 /\
  alarm_get_time 2 (mk_ts 5000 0) (mk_ts 0 0) s' = Some shown.
Proof.
  destruct (set_rtc_keeps_elapsed (mk_ts 1050 0) (mk_ts 5000 0) (mk_ts 0 0) (mk_ts 0 0) alarm_demo1 alarm_demo1_reach) as (s' & x & He & Hx & H);
    [by vm_compute|by vm_compute|by vm_compute|by vm_compute|by vm_compute|by vm_compute|by vm_compute|].
  exists s', x. split; [exact He|]. split; [exact Hx|]. apply (H 2%nat eq_refl).
Defined.

Lemma alarm_wakes_in_time_witness : exists a b, suspend_rtc (mk_ts 1050 0) 500 500 alarm_demo1 = Some (a, b) /\ (b = true <-> a <= 501).
Proof.
  destruct (alarm_wakes_in_time (mk_ts 1050 0) 500 500 alarm_demo1 alarm_demo1_reach) as (a & b & He & _ & _ & Hb);
    [by vm_compute|by vm_compute|by vm_compute|by vm_compute|by vm_compute| |].
  - intros t d ([-> | ->] & Ho & Hd); [discriminate Ho|]. vm_compute in Hd. injection Hd as <-. by vm_compute.
  - exists a, b. split; [exact He|exact Hb].
Defined.

(** ** Alarms with unnormalised times *)

(** ALARM_SET with the command [cmd] (the type in bits 4 to 7) and the time [t]. *)
Definition demo_set (cmd : Z) (t : timespec) (s : alarm_dev (bool * bool)) : option (next * alarm_dev (bool * bool)) :=
  alarm_ioctl tt cmd 7 false (Some t) true (mk_ts 0 0) (mk_ts 0 0) s.

Lemma demo_set_reach cmd t s r s' : reach s -> device s = Awake -> usable 7 s -> demo_set cmd t s = Some (r, s') -> reach s'.
Proof.
  intros Hr Hd Hu He. apply (reach_step s); [done|]. by apply (step_ioctl _ tt cmd 7 false (Some t) true (mk_ts 0 0) (mk_ts 0 0) r).
Qed.

(** An elapsed alarm is due 101 s after boot; a second alarm, at 100 s and 2147483647 ns, that is 102.1 s, is taken for
    the earlier one because its seconds are fewer, and the clock is set to ring at 102 s. *)
Theorem unnormalised_wakes_late : exists s d, reach s /\ suspend_check s = (0, true) /\
  wakes s ANDROID_ALARM_ELAPSED_REALTIME_WAKEUP d /\ d = mk_ts 101 0 /\
  suspend_rtc (mk_ts 50 0) 50 50 s = Some (102, false).
Proof.
  assert (H0 : reach (alarm_boot (mk_ts 0 0) (false, false))) by (by apply (reach_boot (mk_ts 10 0) (mk_ts 10 0))).
  destruct (demo_set 0x40086122 (mk_ts 101 0) (alarm_boot (mk_ts 0 0) (false, false))) as [[r1 s1]|] eqn:E1;
    [|vm_compute in E1; discriminate E1]. pose proof (demo_set_reach _ _ _ _ _ H0 eq_refl ltac:(done) E1) as H1.
  destruct (demo_set 0x40086102 (mk_ts 100 2147483647) s1) as [[r2 s2]|] eqn:E2;
    [|vm_compute in E1; injection E1 as <- <-; vm_compute in E2; discriminate E2].
  vm_compute in E1. injection E1 as <- <-. pose proof (demo_set_reach _ _ _ _ _ H1 eq_refl ltac:(done) E2) as H2. clear H1.
  vm_compute in E2. injection E2 as <- <-. do 2 eexists. split; [exact H2|]. clear.
  split; [reflexivity|]. split; [split; [by right|split; [reflexivity|reflexivity]]|]. split; reflexivity.
Qed.

(** An elapsed alarm at 50 s and 1600000000 ns: when the clock is set 0.1 s forward the sum of the nanoseconds passes
    2^31 and the alarm is due 4.29 s early. *)
Theorem unnormalised_elapsed_moves : exists s s' d d', reach s /\
  set_rtc_begin (mk_ts 20 0) (mk_ts 20 100000000) s = Some s' /\
  due s 2 = Some d /\ due s' 2 = Some d' /\
  ns d' - ns (mk_ts 20 100000000) = ns d - ns (mk_ts 20 0) - 2 ^ 32.
Proof.
  assert (H0 : reach (alarm_boot (mk_ts 0 500000000) (false, false))) by (by apply (reach_boot (mk_ts 10 500000000) (mk_ts 10 0))).
  destruct (demo_set 0x40086122 (mk_ts 50 1600000000) (alarm_boot (mk_ts 0 500000000) (false, false))) as [[r1 s1]|] eqn:E1;
    [|vm_compute in E1; discriminate E1]. pose proof (demo_set_reach _ _ _ _ _ H0 eq_refl ltac:(done) E1) as H1.
  vm_compute in E1. injection E1 as <- <-. do 4 eexists. split; [exact H1|]. clear.
  split; [vm_compute; reflexivity|]. split; [reflexivity|]. split; [vm_compute; reflexivity|]. reflexivity.
Qed.
