(* ===== verification/PowerAlarm.v ===== *)
(** The alarm driver on top of the wake locks: the wake locks of kernel/power/wakelock.c
    keep the promises that drivers/rtc/alarm.c relies on, and a ringing alarm
    keeps the phone awake for five seconds, whatever else is done with the wake locks. *)
From stdpp Require Import relations.
From S2P Require Import Prelude Time Wakelock WakelockUse Alarm AlarmRun.

Local Open Scope kernel_scope.

(** ** The two wake locks of the driver *)

Definition alarm_wake_lock : nat := 3.
Definition alarm_rtc_wake_lock : nat := 4.
Definition lock_id (l : alarm_lock) : nat := match l with AlarmWakeLock => alarm_wake_lock | AlarmRtcWakeLock => alarm_rtc_wake_lock end.
Definition is_alarm (id : nat) : Prop := exists l, id = lock_id l.

(** Both are initialised, to stop the phone from suspending. *)
Definition alarm_locks_ok (st : wakelocks) : Prop :=
  wf (core_of st) /\ forall l, lock_id l ∈ c_all (core_of st) /\
    exists v, c_view (core_of st) !! lock_id l = Some v /\ v_type v = WAKE_LOCK_SUSPEND.
Definition alarm_active (st : wakelocks) (l : alarm_lock) : bool := default false (wake_lock_active (lock_id l) st).

Lemma active_view st l v : c_view (core_of st) !! lock_id l = Some v -> alarm_active st l = v_active v.
Proof.
  rewrite core_lookup. unfold alarm_active, wake_lock_active. destruct (Wakelock.locks st !! lock_id l); [|done]. by intros [= <-].
Qed.

Lemma lock_id_inj l k : lock_id l = lock_id k -> l = k.
Proof. by destruct l, k. Qed.

(** Keeping a lock keeps it usable and does not take it. *)
Lemma kept_alarm j l st st' v : c_view (core_of st) !! lock_id l = Some v -> v_type v = WAKE_LOCK_SUSPEND ->
  kept j (lock_id l) (core_of st) (core_of st') ->
  (exists v', c_view (core_of st') !! lock_id l = Some v' /\ v_type v' = WAKE_LOCK_SUSPEND) /\
  (alarm_active st' l = true -> alarm_active st l = true).
Proof.
  intros Hv Ht [_ Hk]. rewrite (active_view st l v Hv). destruct (Hk v Hv) as [Hs|(_ & _ & Hs)]; rewrite (active_view st' l _ Hs); (split; [by eexists|done]).
Qed.

(** An operation on lock [l] keeps both, if it keeps the other. *)
Lemma alarm_locks_step j l st st' w : alarm_locks_ok st -> wf (core_of st') -> lock_id l ∈ c_all (core_of st') ->
  c_view (core_of st') !! lock_id l = Some w -> v_type w = WAKE_LOCK_SUSPEND ->
  (forall i, i <> lock_id l -> kept j i (core_of st) (core_of st')) ->
  alarm_locks_ok st' /\ forall k, k <> l -> alarm_active st' k = true -> alarm_active st k = true.
Proof.
  intros [_ Hl] Hwf Hin Hw Hty Hk.
  assert (Hoth : forall k, k <> l -> lock_id k ∈ c_all (core_of st') /\
    (exists v, c_view (core_of st') !! lock_id k = Some v /\ v_type v = WAKE_LOCK_SUSPEND) /\
    (alarm_active st' k = true -> alarm_active st k = true)).
  { intros k Hne. destruct (Hl k) as (Hink & v & Hv & Ht). assert (Hki : kept j (lock_id k) (core_of st) (core_of st'))
      by (apply Hk; intros E; by apply Hne, lock_id_inj). split; [by apply (proj1 Hki)|]. by apply (kept_alarm j k st st' v). }
  split; [|intros k Hne; by apply Hoth]. split; [done|]. intros k.
  destruct (decide (lock_id k = lock_id l)) as [E|Hne]; [rewrite E; split; [done|by exists w]|].
  destruct (Hoth k) as (? & ? & _); [by intros ->|]. done.
Qed.

(** The time left [d] jiffies after a time-out of [n] was set. *)
Lemma left_after j k n d : eq32 k (j + d) -> 0 <= d < n -> n < 2 ^ 31 -> s32 ((j +u n) - k) = n - d.
Proof.
  unfold eq32. intros Hk Hd Hn. rewrite <- (s32_id (n - d)) by (unfold is_s32; lia). unfold s32, swrap, u32, wrap in *. f_equal.
  apply (f_equal (fun x => (j + n - x + 2 ^ (32 - 1)) mod 2 ^ 32)) in Hk. euclid.
Qed.

Section Instance.
Context (clock : nat -> Z).

Lemma alarm_timeout_ok e l n st : alarm_locks_ok st -> 0 < n < 2 ^ 31 ->
  exists st', wake_lock_timeout clock e (lock_id l) n st = Some st' /\ alarm_locks_ok st' /\
    (exists v, c_view (core_of st') !! lock_id l = Some (v_on true (jiffies e +u n) v) /\ v_type v = WAKE_LOCK_SUSPEND) /\
    forall k, k <> l -> alarm_active st' k = true -> alarm_active st k = true.
Proof.
  intros Hok Hn. pose proof Hok as [Hwf Hl]. destruct (Hl l) as (Hin & v & Hv & Ht).
  destruct (lock_wf clock e (lock_id l) n true st Hwf Hin) as (st' & He & Hw & Hc). exists st'. split; [done|].
  destruct (lock_use _ _ _ _ _ _ Hc) as (Hk & Hin' & Hid). destruct (Hid v Hv) as [Hv'|(_ & Hle & _)].
  - destruct (alarm_locks_step (jiffies e) l st st' _ Hok Hw Hin' Hv' Ht Hk) as [H1 H2]. split; [done|]. split; [by exists v|done].
  - rewrite (left_after (jiffies e) (jiffies e) n 0) in Hle; [lia|unfold eq32; f_equal; lia|lia|lia].
Qed.

Lemma alarm_unlock_ok e l st : alarm_locks_ok st ->
  exists st', wake_unlock clock e (lock_id l) st = Some st' /\ alarm_locks_ok st' /\
    alarm_active st' l = false /\ forall k, alarm_active st' k = true -> alarm_active st k = true.
Proof.
  intros Hok. pose proof Hok as [Hwf Hl]. destruct (Hl l) as (Hin & v & Hv & Ht).
  destruct (unlock_wf clock e (lock_id l) st Hwf Hin) as (st' & He & Hw & Hc). exists st'. split; [done|].
  destruct (unlock_use _ _ _ _ Hc) as (Hk & Hin' & Hid). specialize (Hid v Hv).
  destruct (alarm_locks_step (jiffies e) l st st' _ Hok Hw Hin' Hid Ht Hk) as [H1 H2]. split; [done|].
  assert (Hoff : alarm_active st' l = false) by (by rewrite (active_view st' l _ Hid)). split; [done|].
  intros k Ha. apply H2; [|done]. intros ->. congruence.
Qed.

Lemma alarm_other_ok e st st' : alarm_locks_ok st -> other_use clock is_alarm e st st' ->
  alarm_locks_ok st' /\ (forall l, kept (jiffies e) (lock_id l) (core_of st) (core_of st')) /\
  forall k, alarm_active st' k = true -> alarm_active st k = true.
Proof.
  intros [Hwf Hl] Hu.
  assert (Hk : forall l, wf (core_of st') /\ kept (jiffies e) (lock_id l) (core_of st) (core_of st')).
  { intros l. apply (other_kept clock is_alarm e st st' (lock_id l) Hwf Hu); [by exists l|by destruct l|apply Hl]. }
  assert (Ha : forall l, (exists v, c_view (core_of st') !! lock_id l = Some v /\ v_type v = WAKE_LOCK_SUSPEND) /\
    (alarm_active st' l = true -> alarm_active st l = true)).
  { intros l. destruct (Hl l) as (_ & v & Hv & Ht). apply (kept_alarm (jiffies e) l st st' v Hv Ht). apply Hk. }
  split; [|split; [intros l; apply Hk|intros k; apply Ha]].
  split; [apply (Hk AlarmWakeLock)|]. intros l. split; [|apply Ha]. destruct (Hk l) as [_ [Hall _]]. apply Hall, Hl.
Qed.

(** The wake locks of the kernel keep the promises. *)
#[refine] Instance kernel_alarm_locks : AlarmLocks wakelocks env := {
  al_timeout e l := wake_lock_timeout clock e (lock_id l);
  al_unlock e l := wake_unlock clock e (lock_id l);
  al_active := alarm_active;
  al_other st st' := exists e, other_use clock is_alarm e st st';
  al_ok := alarm_locks_ok }.
Proof.
  - intros e l n st Hok Hn. destruct (alarm_timeout_ok e l n st Hok Hn) as (st' & He & Hok' & (v & Hv & _) & Hm).
    exists st'. split; [done|]. split; [done|]. split; [|done]. by rewrite (active_view st' l _ Hv).
  - apply alarm_unlock_ok.
  - intros st st' Hok [e Hu]. destruct (alarm_other_ok e st st' Hok Hu) as (? & _ & ?). done.
Defined.

(** ** A ringing alarm keeps the phone awake *)

(** What others do less than [n] jiffies after [j]. *)
Definition used_within (j n : Z) (st st' : wakelocks) : Prop :=
  exists e d, 0 <= d < n /\ eq32 (jiffies e) (j + d) /\ other_use clock is_alarm e st st'.

Lemma used_keeps j n l st st' v : n < 2 ^ 31 -> rtc (used_within j n) st st' -> alarm_locks_ok st ->
  c_view (core_of st) !! lock_id l = Some (v_on true (j +u n) v) ->
  alarm_locks_ok st' /\ c_view (core_of st') !! lock_id l = Some (v_on true (j +u n) v).
Proof.
  intros Hn Hr. induction Hr as [st|st st1 st' (e & d & Hd & He & Hu) _ IH]; intros Hok Hv; [done|].
  destruct (alarm_other_ok e st st1 Hok Hu) as (Hok1 & Hk & _). apply IH; [done|].
  destruct (Hk l) as [_ Hkv]. destruct (Hkv _ Hv) as [?|(_ & Hle & _)]; [done|]. cbn in Hle.
  rewrite (left_after j (jiffies e) n d) in Hle by done. lia.
Qed.

(** C19: With the kernel's wake locks under the driver, an alarm that rings keeps the phone awake: for the next five
    seconds, whatever others do with their wake locks, the last check before the phone suspends stops it,
    unless the process that waits for the alarms releases the lock. *)
Theorem alarm_keeps_awake e t s :
  reach (H := kernel_alarm_locks) s -> t ∈ callbacks s -> on (alarm_enabled s) t = true ->
  exists s', alarm_timer_triggered (H := kernel_alarm_locks) e t s = Some s' /\ on (alarm_pending s') t = true /\
    forall st e' d, rtc (used_within (jiffies e) (5 * Alarm.HZ)) (wake_locks s') st ->
      0 <= d < 5 * Alarm.HZ -> eq32 (jiffies e') (jiffies e + d) ->
      exists st', power_suspend_late clock e' st = Some (st', - EAGAIN).
Proof.
  intros Hr Ht Ho. pose proof (i_ok _ (alarm_reach_inv (AL := kernel_alarm_locks) s Hr)) as Hok. cbn in Hok.
  destruct (alarm_timeout_ok e AlarmWakeLock (5 * Alarm.HZ) (wake_locks s) Hok ltac:(unfold Alarm.HZ; lia)) as (w & He & Hw & (v & Hv & Hty) & _).
  unfold alarm_timer_triggered, lock_timeout. rewrite mask_test, Ho. cbn [negb al_timeout kernel_alarm_locks]. rewrite He.
  cbn [mbind option_bind]. eexists. split; [done|]. split; [cbn; by rewrite mask_set, Nat.eqb_refl|].
  intros st e' d Hu Hd He'. destruct (used_keeps (jiffies e) (5 * Alarm.HZ) AlarmWakeLock w st v ltac:(unfold Alarm.HZ; lia) Hu Hw Hv) as [[Hwf Hl] Hv'].
  destruct (Hl AlarmWakeLock) as [Hin _]. apply (held_stops clock e' st (lock_id AlarmWakeLock) _ Hwf Hin Hv'); [done|done|right].
  cbn. rewrite (left_after (jiffies e) (jiffies e') (5 * Alarm.HZ) d); [lia|done|done|unfold Alarm.HZ; lia].
Qed.

End Instance.

(** A fresh system: an alarm of the elapsed clock is set, and it fires. *)
Definition zero_clock (_ : nat) : Z := 0.
Definition awake_locks : option wakelocks :=
  st ← wakelocks_init zero_clock demo_env;
  st ← wake_lock_init alarm_wake_lock WAKE_LOCK_SUSPEND st;
  wake_lock_init alarm_rtc_wake_lock WAKE_LOCK_SUSPEND st.
Definition set_alarm (st : wakelocks) : option (next * alarm_dev wakelocks) :=
  alarm_ioctl (H := kernel_alarm_locks zero_clock) demo_env 0x40086122 7 false (Some (mk_ts 100 0)) true (mk_ts 0 0) (mk_ts 0 0)
    (alarm_boot (mk_ts 1000 5) st).
Definition fire (s : alarm_dev wakelocks) : alarm_dev wakelocks :=
  set_timers (<[2%nat := None]> (alarm_timer s)) ({[2%nat]} ∪ callbacks s) s.

Lemma awake_locks_ok st : awake_locks = Some st -> alarm_locks_ok st /\ alarm_active st AlarmWakeLock = false.
Proof.
  intros He. assert (Hwf : wf (core_of st)).
  { unfold awake_locks in He. destruct (init_state zero_clock demo_env) as (s0 & H0 & Hc). rewrite H0 in He. cbn [mbind option_bind] in He.
    destruct (init_ok alarm_wake_lock WAKE_LOCK_SUSPEND s0) as (s1 & H1 & Hw1 & _);
      [rewrite Hc; apply init_wf|rewrite Hc; by apply (bool_decide_eq_true_1 (_ ∉ _))|done|].
    rewrite H1 in He. cbn [mbind option_bind] in He.
    destruct (init_ok alarm_rtc_wake_lock WAKE_LOCK_SUSPEND s1) as (s2 & H2 & Hw2 & _); [done| |done|congruence].
    clear -H0 H1. vm_compute in H0. injection H0 as <-. vm_compute in H1. injection H1 as <-. by apply (bool_decide_eq_true_1 (_ ∉ _)). }
  vm_compute in He. injection He as <-. split; [|done]. split; [done|].
  intros []; (split; [by apply (bool_decide_eq_true_1 (_ ∈ _))|by eexists]).
Qed.

Lemma fire_reach st nx s : awake_locks = Some st -> set_alarm st = Some (nx, s) -> reach (H := kernel_alarm_locks zero_clock) (fire s).
Proof.
  intros H0 H1. destruct (awake_locks_ok st H0) as [Hok Hoff].
  apply (reach_step (H := kernel_alarm_locks zero_clock) s); [apply (reach_step (H := kernel_alarm_locks zero_clock) (alarm_boot (mk_ts 1000 5) st))|].
  - by apply (reach_boot (H := kernel_alarm_locks zero_clock) (mk_ts 1010 5) (mk_ts 10 0)).
  - by eapply (step_ioctl (H := kernel_alarm_locks zero_clock)); [| |exact H1].
  - cbn in H1. injection H1 as _ <-. by apply (step_fire (H := kernel_alarm_locks zero_clock) _ 2 (timespec_to_ktime (mk_ts 1100 5))).
Qed.

Lemma alarm_keeps_awake_witness : exists st nx s s', awake_locks = Some st /\ set_alarm st = Some (nx, s) /\
  alarm_timer_triggered (H := kernel_alarm_locks zero_clock) demo_env 2 (fire s) = Some s' /\
  exists st', power_suspend_late zero_clock demo_env (wake_locks s') = Some (st', - EAGAIN).
Proof.
  destruct awake_locks as [st|] eqn:E0; [|vm_compute in E0; discriminate E0].
  destruct (set_alarm st) as [[nx s]|] eqn:E1; [|vm_compute in E0; injection E0 as <-; vm_compute in E1; discriminate E1].
  destruct (alarm_keeps_awake zero_clock demo_env 2 (fire s) (fire_reach st nx s E0 E1)) as (s' & He & _ & Hs).
  - cbn. apply elem_of_union_l, elem_of_singleton. reflexivity.
  - cbn in E1. injection E1 as _ <-. reflexivity.
  - exists st, nx, s, s'. split; [reflexivity|]. split; [exact E1|]. split; [exact He|].
    apply (Hs (wake_locks s') demo_env 0); [apply rtc_refl|vm_compute; split; [discriminate|reflexivity]|unfold eq32; f_equal; lia].
Defined.
