(* ===== verification/UserWakelock.v ===== *)
(** Wake locks of user space: kernel/power/userwakelock.c.  Lines written into the sysfs files wake_lock and
    wake_unlock name a lock and an optional time-out in nanoseconds; the locks are kept in a red-black tree
    ordered by name ([Rbtree]) and are wake locks of the kernel ([Wakelock]).

    A line is a terminated text in memory.  [kzalloc] is an argument, the address of the new structure.
    The theorems are about names of 7-bit characters shorter than a page, which is what a sysfs file can hold; an example shows
    why other characters are excluded.  The show functions, which print the names, and debug messages are left out. *)
From stdpp Require Import gmap.
From S2P Require Import Prelude KString Vsprintf Time Wakelock WakelockUse Rbtree RbInsert RbErase RbWalk RbIndex.
From Stdlib Require Import Ascii.

Local Open Scope kernel_scope.

(** ** Reading the argument *)

(** [while ( *arg && !isspace( *arg)) arg++] and [while (isspace( *arg)) arg++], as the number of steps. *)
Fixpoint word_len (s : list Z) : option nat :=
  match s with
  | [] => None
  | c :: s' => if negb (c =? 0) && negb (isspace c) then n ← word_len s'; Some (S n) else Some O
  end.
Fixpoint space_len (s : list Z) : option nat :=
  match s with
  | [] => None
  | c :: s' => if isspace c then n ← space_len s'; Some (S n) else Some O
  end.

Definition NSEC_PER_JIFFY : Z := NSEC_PER_SEC / HZ.

(** Nanoseconds to jiffies, rounded up and more than 0; the result is stored in a [long]. *)
Definition timeout_jiffies (timeout : Z) : Z :=
  let timeout := u64 (timeout + (NSEC_PER_JIFFY - 1)) in
  let timeout := timeout / NSEC_PER_JIFFY in
  s32 (if timeout <=? 0 then 1 else timeout).

(** The length of the name and [*timeoutptr], or the error. *)
Definition parse_arg (buf : list Z) (timeoutptr : bool) : option (Z + nat * Z) :=
  name_len ← word_len buf;
  if Nat.eqb name_len 0 then Some (inl (- EINVAL)) else
  let arg := drop name_len buf in
  n ← space_len arg;
  let arg := drop n arg in
  c ← zget arg 0;
  if timeoutptr && negb (c =? 0) then
    '(timeout, n) ← simple_strtoull arg 0;
    let arg := drop (Z.to_nat n) arg in
    n ← space_len arg;
    c ← zget (drop n arg) 0;
    if negb (c =? 0) then Some (inl (- EINVAL)) else Some (inr (name_len, timeout_jiffies timeout))
  else if negb (c =? 0) then Some (inl (- EINVAL))
  else Some (inr (name_len, 0)).

(** ** The order of names *)

(** [strncmp] and the test of the character after the name. *)
Definition name_diff (buf name : list Z) (name_len : nat) : option Z :=
  diff ← strncmp buf name name_len;
  if diff =? 0 then c ← name !! name_len; Some (if negb (c =? 0) then -1 else 0) else Some diff.

(** A text of 7-bit characters, and the number it is in base 128 with [w] digits. *)
Definition ascii_text (l : list Z) : Prop := Forall (fun c => 0 < c < 128) l.
Fixpoint text_key (w : nat) (l : list Z) : Z :=
  match w, l with
  | S w, c :: l => c * 128 ^ Z.of_nat w + text_key w l
  | _, _ => 0
  end.

Lemma text_key_range w l : ascii_text l -> 0 <= text_key w l < 128 ^ Z.of_nat w.
Proof.
  intros Hl. revert w. induction Hl as [|c l Hc Hl IH]; intros [|w]; cbn [text_key]; [lia| |lia|].
  - pose proof (Z.pow_pos_nonneg 128 (Z.of_nat (S w))). lia.
  - specialize (IH w). rewrite Nat2Z.inj_succ, Z.pow_succ_r by lia. nia.
Qed.

Lemma text_key_pos w c l : ascii_text (c :: l) -> (0 < w)%nat -> 0 < text_key w (c :: l).
Proof.
  intros [Hc Hl]%Forall_cons Hw. destruct w as [|w]; [lia|]. cbn [text_key]. pose proof (text_key_range w l Hl).
  pose proof (Z.pow_pos_nonneg 128 (Z.of_nat w)). nia.
Qed.

(** The terminator does not count. *)
Lemma text_key_nul w l : ascii_text l -> text_key w (l ++ [0]) = text_key w l.
Proof. intros Hl. revert w. induction Hl as [|c l Hc Hl IH]; intros [|w]; cbn [app text_key]; [done|destruct w; cbn; lia|done|by rewrite IH]. Qed.

Lemma s8_ascii a b : 0 <= a < 128 -> 0 <= b < 128 -> s8 (a - b) = a - b.
Proof. intros. unfold s8, swrap. rewrite Z.mod_small by lia. lia. Qed.

(** On 7-bit names the comparison has the sign of the difference of the keys. *)
Lemma name_diff_ok a b rest rest' : ascii_text a -> ascii_text b -> forall w, (length a <= w)%nat -> (length b <= w)%nat ->
  exists d, name_diff (a ++ rest) (b ++ 0 :: rest') (length a) = Some d /\ Z.sgn d = Z.sgn (text_key w a - text_key w b).
Proof.
  intros Ha. revert b. induction Ha as [|c a Hc Ha IH]; intros b Hb w Hwa Hwb; unfold name_diff; cbn [length strncmp app].
  - destruct Hb as [|d b Hd Hb]; cbn [app mbind option_bind lookup list_lookup].
    + exists 0. split; [done|]. by destruct w.
    + change (0 =? 0) with true. cbv iota. rewrite (proj2 (Z.eqb_neq d 0)) by lia. exists (-1). split; [done|].
      pose proof (text_key_pos w d b ltac:(by constructor) ltac:(cbn in Hwb; lia)).
      replace (text_key w []) with 0 by (by destruct w). rewrite !Z.sgn_neg; lia.
  - destruct Hb as [|d b Hd Hb]; cbn [app].
    + rewrite Z.sub_0_r. replace (s8 c) with c by (rewrite <- (Z.sub_0_r c) at 2; rewrite s8_ascii; lia).
      rewrite (proj2 (Z.eqb_neq c 0)) by lia. cbn [negb orb mbind option_bind]. rewrite (proj2 (Z.eqb_neq c 0)) by lia.
      exists c. split; [done|]. pose proof (text_key_pos w c a ltac:(by constructor) ltac:(cbn in Hwa; lia)).
      replace (text_key w []) with 0 by (by destruct w). rewrite !Z.sgn_pos; lia.
    + rewrite s8_ascii by lia. rewrite (proj2 (Z.eqb_neq c 0)), orb_false_r by lia. destruct w as [|w]; [cbn in Hwa; lia|].
      cbn [length] in *. destruct (Z.eqb_spec (c - d) 0) as [E0|Hne]; cbn [negb].
      * destruct (IH b Hb w ltac:(lia) ltac:(lia)) as (x & Hx & Hsg). unfold name_diff in Hx. cbn [lookup list_lookup].
        exists x. split; [exact Hx|]. rewrite Hsg. cbn [text_key]. f_equal. assert (c = d) as -> by lia. lia.
      * cbn [mbind option_bind]. rewrite (proj2 (Z.eqb_neq _ _) Hne). exists (c - d). split; [done|]. cbn [text_key].
        pose proof (text_key_range w a Ha). pose proof (text_key_range w b Hb).
        destruct (Z.lt_trichotomy c d) as [Hlt|[?|Hgt]]; [rewrite !Z.sgn_neg by nia; done|lia|rewrite !Z.sgn_pos by nia; done].
Qed.

Lemma text_key_inj w a b : ascii_text a -> ascii_text b -> (length a <= w)%nat -> (length b <= w)%nat ->
  text_key w a = text_key w b -> a = b.
Proof.
  intros Ha. revert w b. induction Ha as [|c a Hc Ha IH]; intros w b Hb Hwa Hwb Hk; destruct Hb as [|d b Hd Hb]; [done|..].
  - pose proof (text_key_pos w d b ltac:(by constructor) ltac:(cbn in Hwb; lia)). replace (text_key w []) with 0 in Hk by (by destruct w). lia.
  - pose proof (text_key_pos w c a ltac:(by constructor) ltac:(cbn in Hwa; lia)). replace (text_key w []) with 0 in Hk by (by destruct w). lia.
  - destruct w as [|w]; [cbn in Hwa; lia|]. cbn [text_key length] in *.
    pose proof (text_key_range w a Ha). pose proof (text_key_range w b Hb). assert (c = d) as -> by nia.
    f_equal. apply (IH w); [done|lia|lia|lia].
Qed.

(** ** A terminated text is read inside *)

Lemma word_ok t rest : nonul t -> exists n, word_len (t ++ 0 :: rest) = Some n /\ (n <= length t)%nat /\
  Forall (fun c => isspace c = false) (take n t).
Proof.
  induction 1 as [|c t [Hc8 Hc] Ht IH]; cbn [app word_len].
  - exists 0%nat. split; [done|]. split; [lia|constructor].
  - rewrite (proj2 (Z.eqb_neq c 0)) by done. cbn [negb andb]. destruct (isspace c) eqn:Es; cbn [negb].
    + exists 0%nat. split; [done|]. split; [lia|constructor].
    + destruct IH as (n & -> & Hn & Hf). exists (S n). split; [done|]. cbn [length take]. split; [lia|]. by constructor.
Qed.

Lemma space_ok t rest : exists n, space_len (t ++ 0 :: rest) = Some n /\ (n <= length t)%nat.
Proof.
  induction t as [|c t IH]; cbn [app space_len]; [by exists 0%nat|].
  destruct (isspace c); [|exists 0%nat; split; [done|lia]]. destruct IH as (n & -> & Hn). exists (S n). split; [done|]. cbn. lia.
Qed.

Lemma digits_ok w base t rest : forall r n, exists r' m, parse_digits w base (t ++ 0 :: rest) r n = Some (r', n + m) /\ 0 <= m <= len t.
Proof.
  induction t as [|c t IH]; intros r n; cbn [app parse_digits].
  - exists r, 0. split; [do 2 f_equal; lia|cbn; lia].
  - destruct (isxdigit c); [|exists r, 0; split; [do 2 f_equal; lia|cbn; lia]].
    destruct (_ <=? _); [exists r, 0; split; [do 2 f_equal; lia|cbn; lia]|].
    destruct (IH (wrap w (r * base + digit_value c)) (n + 1)) as (r' & m & -> & Hm). exists r', (m + 1).
    split; [do 2 f_equal; lia|cbn in *; lia].
Qed.

Lemma zget_head (c : Z) l : zget (c :: l) 0 = Some c.
Proof. done. Qed.
Lemma zget_text t (rest : list Z) i : 0 <= i <= len t -> exists c, zget (t ++ 0 :: rest) i = Some c.
Proof.
  intros Hi. unfold zget. rewrite (proj2 (Z.leb_le 0 i)) by lia.
  destruct (lookup_lt_is_Some_2 (t ++ 0 :: rest) (Z.to_nat i)) as [c Hc]; [|by exists c]. rewrite length_app. cbn. lia.
Qed.

Lemma strto_ok w t rest : exists v n, simple_strto w (t ++ 0 :: rest) 0 = Some (v, n) /\ 0 <= n <= len t.
Proof.
  unfold simple_strto. change (0 =? 0) with true. cbv iota.
  assert (H0 : forall base, (base =? 16) = false -> exists v n,
    (skip ← (if base =? 16 then c0 ← zget (t ++ 0 :: rest) 0; if c0 =? ch "0"%char then c1 ← zget (t ++ 0 :: rest) 1;
       Some (if TOLOWER c1 =? ch "x"%char then 2 else 0) else Some 0 else Some 0);
     parse_digits w base (drop (Z.to_nat skip) (t ++ 0 :: rest)) 0 skip) = Some (v, n) /\ 0 <= n <= len t).
  { intros base ->. cbn [mbind option_bind]. destruct (digits_ok w base t rest 0 0) as (v & m & Hd & Hm).
    exists v, (0 + m). split; [exact Hd|lia]. }
  unfold simple_guess_base. destruct t as [|a t]; cbn [app]; rewrite zget_head; cbn [mbind option_bind].
  { change (0 =? ch "0"%char) with false. cbv iota. by apply H0. }
  destruct (Z.eqb_spec a (ch "0"%char)) as [->|Hn]; [|by apply H0].
  destruct t as [|b t]; cbn [app].
  { change (zget (ch "0"%char :: 0 :: rest) 1) with (Some 0). cbn [mbind option_bind].
    change (TOLOWER 0 =? ch "x"%char) with false. cbv iota. by apply (H0 8). }
  change (zget (ch "0"%char :: b :: t ++ 0 :: rest) 1) with (Some b). cbn [mbind option_bind].
  destruct (TOLOWER b =? ch "x"%char) eqn:Ex; [|by apply (H0 8)].
  destruct (zget_text (ch "0"%char :: b :: t) rest 2) as [c Hc]; [cbn; lia|]. cbn [app] in Hc. rewrite Hc. cbn [mbind option_bind].
  destruct (isxdigit c); [|by apply (H0 8)]. change (16 =? 16) with true. cbv iota. change (ch "0"%char =? ch "0"%char) with true. cbv iota.
  cbn [mbind option_bind]. change (drop (Z.to_nat 2) (ch "0"%char :: b :: t ++ 0 :: rest)) with (t ++ 0 :: rest).
  destruct (digits_ok w 16 t rest 0 2) as (v & m & Hd & Hm). exists v, (2 + m). split; [exact Hd|cbn; cbn in Hm; lia].
Qed.

Lemma drop_text n t (rest : list Z) : (n <= length t)%nat -> drop n (t ++ 0 :: rest) = drop n t ++ 0 :: rest.
Proof. intros Hn. by rewrite drop_app_le. Qed.

(** The argument is read inside its memory; a name is a prefix of the text without spaces. *)
Lemma parse_ok t rest b : nonul t -> exists r, parse_arg (t ++ 0 :: rest) b = Some r /\
  match r with inl err => err = - EINVAL | inr (n, timeout) => (0 < n <= length t)%nat /\ is_s32 timeout /\ (b = false -> timeout = 0) end.
Proof.
  intros Ht. unfold parse_arg. destruct (word_ok t rest Ht) as (n & -> & Hn & _). cbn [mbind option_bind].
  destruct (Nat.eqb_spec n 0) as [->|Hn0]; [by eexists; split|]. rewrite drop_text by done.
  destruct (space_ok (drop n t) rest) as (k & -> & Hk). cbn [mbind option_bind]. rewrite drop_text by done. set (a := drop k (drop n t)).
  destruct (zget_text a rest 0) as [c ->]; [lia|]. cbn [mbind option_bind]. destruct (b && negb (c =? 0)) eqn:Eb.
  - unfold simple_strtoull. destruct (strto_ok 64 a rest) as (v & m & -> & Hm). cbn [mbind option_bind]. rewrite drop_text by lia.
    destruct (space_ok (drop (Z.to_nat m) a) rest) as (k2 & -> & Hk2). cbn [mbind option_bind]. rewrite drop_text by done.
    destruct (zget_text (drop k2 (drop (Z.to_nat m) a)) rest 0) as [c2 ->]; [lia|]. cbn [mbind option_bind].
    destruct (negb (c2 =? 0)); [by eexists; split|]. eexists. split; [done|]. cbn. split; [lia|]. split; [apply s32_range|].
    intros ->. done.
  - destruct (negb (c =? 0)); [by eexists; split|]. eexists. split; [done|]. cbn. split; [lia|]. split; [unfold is_s32; lia|done].
Qed.

(** ** The locks *)

(** The node, the name and the wake lock of a [struct user_wake_lock] are kept apart; [lock_of] is the wake lock in the structure at an address. *)
Record user_locks := UserLocks {
  user_nodes : rb_state;
  user_names : gmap Z (list Z);
  user_wl : wakelocks }.

Definition lock_of (l : Z) : nat := (S deleted_wake_locks + Z.to_nat l)%nat.

(** The descent: the structure with that name, or the place for a new one. *)
Fixpoint lookup_name_loop (fuel : nat) (names : gmap Z (list Z)) (buf : list Z) (name_len : nat) (parent : Z) (p : rb_link)
    : M (Z + Z * rb_link) :=
  match fuel with
  | O => fun _ => None
  | S fuel =>
    n ← read_link p;
    if nonnull n then
      match (name ← names !! n; name_diff buf name name_len) with
      | None => fun _ => None
      | Some diff =>
          if diff <? 0 then lookup_name_loop fuel names buf name_len n (LinkLeft n)
          else if 0 <? diff then lookup_name_loop fuel names buf name_len n (LinkRight n)
          else mret (inl n)
      end
    else mret (inr (parent, p))
  end.

(** [mem] is what [kzalloc] returns.  The result is an error, or the lock and [*timeoutptr]. *)
Definition lookup_wake_lock_name (buf : list Z) (allocate timeoutptr : bool) (mem : Z) (st : user_locks)
    : option ((Z + Z * Z) * user_locks) :=
  r ← parse_arg buf timeoutptr;
  match r with
  | inl err => Some (inl err, st)
  | inr (name_len, timeout) =>
    '(res, _) ← lookup_name_loop RB_FUEL (user_names st) buf name_len NULL LinkRoot (user_nodes st);
    match res with
    | inl l => Some (inr (l, timeout), st)
    | inr (parent, p) =>
      if negb allocate then Some (inl (- EINVAL), st) else
      if mem =? NULL then Some (inl (- ENOMEM), st) else
      wl ← wake_lock_init (lock_of mem) WAKE_LOCK_SUSPEND (user_wl st);
      '(_, nodes) ← (rb_link_node mem parent p;; rb_insert_color RB_FUEL mem)
        (RbState (<[mem := RbNode 0 NULL NULL]> (rb_mem (user_nodes st))) (rb_root (user_nodes st)));
      Some (inr (mem, timeout), UserLocks nodes (<[mem := take name_len buf ++ [0]]> (user_names st)) wl)
    end
  end.

Definition set_wl (wl : wakelocks) (st : user_locks) : user_locks := UserLocks (user_nodes st) (user_names st) wl.

Definition wake_lock_store (clock : nat -> Z) (e : env) (buf : list Z) (n mem : Z) (st : user_locks) : option (Z * user_locks) :=
  '(r, st) ← lookup_wake_lock_name buf true true mem st;
  match r with
  | inl err => Some (err, st)
  | inr (l, timeout) =>
      wl ← (if negb (timeout =? 0) then wake_lock_timeout clock e (lock_of l) timeout (user_wl st)
            else wake_lock_ clock e (lock_of l) (user_wl st));
      Some (n, set_wl wl st)
  end.

Definition wake_unlock_store (clock : nat -> Z) (e : env) (buf : list Z) (n : Z) (st : user_locks) : option (Z * user_locks) :=
  '(r, st) ← lookup_wake_lock_name buf false false NULL st;
  match r with
  | inl err => Some (err, st)
  | inr (l, _) => wl ← wake_unlock clock e (lock_of l) (user_wl st); Some (n, set_wl wl st)
  end.

(** ** The descent *)

(** The key of a structure: the text of its name. *)
Definition NAME_MAX : nat := 4096.
Lemma NAME_MAX_eq : NAME_MAX = 4096%nat.
Proof. reflexivity. Qed.
#[global] Opaque NAME_MAX.
Definition name_key (names : gmap Z (list Z)) (l : Z) : Z := match names !! l with Some name => text_key NAME_MAX name | None => 0 end.
(** The name of a structure. *)
Definition named (names : gmap Z (list Z)) (name : list Z) (l : Z) : Prop := names !! l = Some (name ++ [0]).
Definition good_name (name : list Z) : Prop := ascii_text name /\ (length name < NAME_MAX)%nat.
Definition good_names (names : gmap Z (list Z)) : Prop :=
  forall l s, names !! l = Some s -> exists name, s = name ++ [0] /\ good_name name.

Lemma named_key names name l : named names name l -> good_name name -> name_key names l = text_key NAME_MAX name.
Proof. intros Hl [Hn _]. unfold name_key. rewrite Hl. by apply text_key_nul. Qed.

Lemma lookup_loop_tree fuel names name rest bg s k t :
  good_names names -> good_name name -> reps bg s (plug k t) -> sorted_by (name_key names) (ids t) ->
  (forall x, x ∈ ids t -> is_Some (names !! x)) -> (height t < fuel)%nat ->
  (exists l, l ∈ ids t /\ named names name l /\
     lookup_name_loop fuel names (name ++ rest) (length name) (par k) (link_of k) s = Some (inl l, s)) \/
  ((forall l, l ∈ ids t -> ~ named names name l) /\
   exists k', t = plug k' E /\
     (forall key, (forall x, x ∈ ids t -> key x = name_key names x) -> Forall (turned_at key (text_key NAME_MAX name)) k') /\
     lookup_name_loop fuel names (name ++ rest) (length name) (par k) (link_of k) s =
       Some (inr (par (k' ++ k), link_of (k' ++ k)), s)).
Proof.
  intros Hg Hn. revert fuel k. induction t as [|c l IHl x r IHr]; intros fuel k Hs Hsort Hin Hf;
    (destruct fuel as [|fuel]; [cbn in Hf; lia|]); cbn [lookup_name_loop height] in *;
    rewrite (run_bind _ _ _ _ _ (link_of_read _ _ _ _ Hs)), (at_null _ _ _ _ Hs).
  - right. split; [cbn; set_solver|]. exists []. split; [done|]. split; [by constructor|done].
  - cbn [addr]. destruct (Hin x) as [sx Hx]; [cbn; set_solver|]. destruct (Hg x sx Hx) as (nx & -> & Hnx).
    rewrite Hx. cbn [mbind option_bind].
    destruct (name_diff_ok name nx rest [] (proj1 Hn) (proj1 Hnx) NAME_MAX) as (d & -> & Hsg); [destruct Hn; lia|destruct Hnx; lia|].
    pose proof (named_key names nx x Hx Hnx) as Hkx.
    destruct (sorted_node (name_key names) _ _ _ _ _ eq_refl Hsort) as (Hsl & Hsr & Hl & Hr).
    assert (Hle : forall y, named names name y -> name_key names y = text_key NAME_MAX name) by (intros y Hy; by apply named_key).
    destruct (Z.ltb_spec d 0) as [Hd|Hd]; [|destruct (Z.ltb_spec 0 d) as [Hd'|Hd']].
    + assert (Hlt : text_key NAME_MAX name < name_key names x) by (rewrite Hkx; rewrite Z.sgn_neg in Hsg by lia; lia).
      destruct (IHl fuel (FL c x r :: k) Hs Hsl) as [(y & Hy & Hny & He)|(Hno & k' & -> & Hk & He)];
        [intros; apply Hin; cbn; set_solver|lia|left; exists y; split; [cbn; set_solver|done]|right].
      split; [|exists (k' ++ [FL c x r]); rewrite plug_app, <- app_assoc; split; [done|]; split; [|exact He]].
      * intros y [Hy|[->|Hy]%elem_of_cons]%elem_of_app Hny; [by apply (Hno y)|specialize (Hle _ Hny); lia|].
        specialize (Hle _ Hny). specialize (Hr y Hy). lia.
      * intros key Hkey. rewrite Forall_app. split; [apply Hk; intros y Hy; apply Hkey; cbn; set_solver|].
        constructor; [|done]. cbn. rewrite Hkey; [done|cbn; set_solver].
    + assert (Hgt : name_key names x < text_key NAME_MAX name) by (rewrite Hkx; rewrite Z.sgn_pos in Hsg by lia; lia).
      destruct (IHr fuel (FR c l x :: k) Hs Hsr) as [(y & Hy & Hny & He)|(Hno & k' & -> & Hk & He)];
        [intros; apply Hin; cbn; set_solver|lia|left; exists y; split; [cbn; set_solver|done]|right].
      split; [|exists (k' ++ [FR c l x]); rewrite plug_app, <- app_assoc; split; [done|]; split; [|exact He]].
      * intros y [Hy|[->|Hy]%elem_of_cons]%elem_of_app Hny; [|specialize (Hle _ Hny); lia|by apply (Hno y)].
        specialize (Hle _ Hny). specialize (Hl y Hy). lia.
      * intros key Hkey. rewrite Forall_app. split; [apply Hk; intros y Hy; apply Hkey; cbn; set_solver|].
        constructor; [|done]. cbn. rewrite Hkey; [lia|cbn; set_solver].
    + left. exists x. split; [cbn; set_solver|]. split; [|done]. assert (d = 0) as -> by lia. unfold named. rewrite Hx.
      do 2 f_equal. symmetry. apply (text_key_inj NAME_MAX); [apply Hn|apply Hnx|destruct Hn; lia|destruct Hnx; lia|].
      change (Z.sgn 0) with 0 in Hsg. apply Z.eq_sym, Z.sgn_null_iff in Hsg. lia.
Qed.

(** ** The invariant *)

Record uinv (st : user_locks) : Prop := {
  u_index : index (rb_mem (user_nodes st)) (rb_root (user_nodes st)) (dom (user_names st)) (name_key (user_names st));
  u_good : good_names (user_names st);
  u_one : forall name l l', named (user_names st) name l -> named (user_names st) name l' -> l = l';
  u_wf : wf (core_of (user_wl st));
  u_lock : forall l, is_Some (user_names st !! l) -> lock_of l ∈ c_all (core_of (user_wl st)) /\
    exists v, c_view (core_of (user_wl st)) !! lock_of l = Some v /\ v_type v = WAKE_LOCK_SUSPEND }.

(** The tree of an index, also in a memory that differs elsewhere. *)
Lemma index_tree m root S key : index m root S key ->
  exists t, (forall m', (forall y, y ∈ S -> m' !! y = m !! y) -> reps m' (RbState m' root) t) /\ rb_inv t /\
    (forall n, n ∈ ids t <-> n ∈ S) /\ sorted_by key (ids t) /\ rb_fuel (length (ids t)) RB_FUEL.
Proof.
  intros Hi. destruct (index_reps _ _ _ _ Hi) as (t & [H1 H2 H3 H4 H5] & Hinv & HS & Hsort & Hf). exists t. split; [|done].
  intros m' Hm. cbn in *. split; try done. cbn. eapply repr_ext; [|exact H1]. intros y Hy. by apply Hm, HS.
Qed.

Lemma user_addr st l : uinv st -> is_Some (user_names st !! l) -> node_addr l.
Proof.
  intros Hi Hl. destruct (u_index _ Hi) as (t & _ & _ & _ & Ha & _ & HS & _). rewrite Forall_forall in Ha.
  apply Ha, HS, elem_of_dom, Hl.
Qed.

Lemma lock_of_inj l l' : node_addr l -> node_addr l' -> lock_of l = lock_of l' -> l = l'.
Proof. unfold lock_of. intros [H1 _] [H2 _] E. lia. Qed.

(** The memory [kzalloc] returns is not in use. *)
Definition fresh (st : user_locks) (mem : Z) : Prop :=
  node_addr mem /\ user_names st !! mem = None /\ lock_of mem ∉ c_all (core_of (user_wl st)).

(** The result of a lookup of [name]: the one lock of that name, or none and room for a new one. *)
Lemma lookup_tree_ok st name rest : uinv st -> good_name name ->
  (exists l, named (user_names st) name l /\
     lookup_name_loop RB_FUEL (user_names st) (name ++ rest) (length name) NULL LinkRoot (user_nodes st) = Some (inl l, user_nodes st)) \/
  ((forall l, ~ named (user_names st) name l) /\ exists parent p,
     lookup_name_loop RB_FUEL (user_names st) (name ++ rest) (length name) NULL LinkRoot (user_nodes st) =
       Some (inr (parent, p), user_nodes st) /\
     forall mem, fresh st mem -> exists nodes,
       (rb_link_node mem parent p;; rb_insert_color RB_FUEL mem)
         (RbState (<[mem := RbNode 0 NULL NULL]> (rb_mem (user_nodes st))) (rb_root (user_nodes st))) = Some (tt, nodes) /\
       let names := <[mem := name ++ [0]]> (user_names st) in
       index (rb_mem nodes) (rb_root nodes) (dom names) (name_key names)).
Proof.
  intros Hi Hn. destruct (index_tree _ _ _ _ (u_index _ Hi)) as (t & Hs & Hinv & HS & Hsort & Hf).
  pose proof (rb_fuel_depth t RB_FUEL [] t Hinv eq_refl Hf) as Hh. cbn [length] in Hh.
  assert (Hin : forall x, x ∈ ids t -> is_Some (user_names st !! x)) by (intros x Hx; by apply elem_of_dom, HS).
  pose proof (Hs (rb_mem (user_nodes st)) (fun y _ => eq_refl)) as Hs0. destruct (user_nodes st) as [m root] eqn:En. cbn [rb_mem rb_root] in *.
  destruct (lookup_loop_tree RB_FUEL (user_names st) name rest m (RbState m root) [] t (u_good _ Hi) Hn Hs0 Hsort Hin ltac:(lia))
    as [(l & _ & Hl & He)|(Hno & k & -> & Hk & He)]; [left; by exists l|right].
  rewrite app_nil_r in He. split; [|exists (par k), (link_of k); split; [exact He|]].
  - intros l Hl. apply (Hno l); [|done]. apply HS, elem_of_dom. by exists (name ++ [0]).
  - intros mem (Ha & Hnone & _). assert (Hns : mem ∉ dom (user_names st)) by (by apply not_elem_of_dom).
    set (names := <[mem := name ++ [0]]> (user_names st)).
    assert (Hkey : forall x, x ∈ ids (plug k E) -> name_key names x = name_key (user_names st) x).
    { intros x Hx. unfold name_key, names. rewrite lookup_insert_ne; [done|]. intros ->. by apply Hns, HS. }
    assert (Hkm : name_key names mem = text_key NAME_MAX name) by (apply named_key; [apply lookup_insert_eq|done]).
    destruct (index_place (<[mem := RbNode 0 NULL NULL]> m) root (dom (user_names st)) (name_key names) k mem)
      as (nodes & Hp & Hix & _); try done.
    + apply Hs. intros y Hy. rewrite lookup_insert_ne; [done|]. by intros ->.
    + eapply sorted_ext; [|exact Hsort]. intros x Hx. symmetry. by apply Hkey.
    + rewrite Hkm. by apply Hk.
    + rewrite lookup_insert_eq. by eexists.
    + exists nodes. split; [exact Hp|]. cbn zeta. fold names. unfold names at 1. rewrite dom_insert_L. exact Hix.
Qed.

(** A new lock is registered with its name. *)
Lemma user_added st name mem nodes wl : uinv st -> good_name name -> fresh st mem -> (forall l, ~ named (user_names st) name l) ->
  index (rb_mem nodes) (rb_root nodes) (dom (<[mem := name ++ [0]]> (user_names st))) (name_key (<[mem := name ++ [0]]> (user_names st))) ->
  wake_lock_init (lock_of mem) WAKE_LOCK_SUSPEND (user_wl st) = Some wl ->
  uinv (UserLocks nodes (<[mem := name ++ [0]]> (user_names st)) wl) /\
  forall l, is_Some (user_names st !! l) -> forall j, kept j (lock_of l) (core_of (user_wl st)) (core_of wl).
Proof.
  intros Hi Hn (Ha & Hnone & Hfl) Hno Hix Hw.
  destruct (init_ok (lock_of mem) WAKE_LOCK_SUSPEND (user_wl st) (u_wf _ Hi) Hfl suspend_type) as (wl' & Hw' & Hwf & _).
  rewrite Hw in Hw'. injection Hw' as <-.
  assert (Hk : forall l, is_Some (user_names st !! l) -> forall j, kept j (lock_of l) (core_of (user_wl st)) (core_of wl)).
  { intros l Hl j. apply (init_kept j (lock_of mem) WAKE_LOCK_SUSPEND); [done|by apply (u_lock _ Hi)|done]. }
  split; [|done]. split; cbn [user_nodes user_names user_wl]; try done.
  - intros l s. destruct (decide (l = mem)) as [->|Hne]; [rewrite lookup_insert_eq|rewrite lookup_insert_ne by done; apply (u_good _ Hi)].
    intros [= <-]. by exists name.
  - intros nm l l'. unfold named. destruct (decide (l = mem)) as [->|Hne], (decide (l' = mem)) as [->|Hne'];
      rewrite ?lookup_insert_eq, ?lookup_insert_ne by done; [done|..].
    + intros [= Heq] Hl'. exfalso. apply (Hno l'). apply app_inv_tail in Heq as ->. exact Hl'.
    + intros Hl [= Heq]. exfalso. apply (Hno l). apply app_inv_tail in Heq as ->. exact Hl.
    + apply (u_one _ Hi).
  - intros l Hl. destruct (decide (l = mem)) as [->|Hne].
    + unfold wake_lock_init in Hw. case_bool_decide; [done|]. injection Hw as <-. rewrite core_lookup. cbn. rewrite lookup_insert_eq. cbn.
      split; [unfold c_all; cbn; by left|by eexists].
    + rewrite lookup_insert_ne in Hl by done. destruct (u_lock _ Hi l Hl) as (Hin & v & Hv & Hty).
      destruct (Hk l Hl 0) as [Hall Hview]. split; [by apply Hall|]. destruct (Hview v Hv) as [?|(_ & _ & ?)]; by eexists.
Qed.

(** ** The commands *)

Lemma ascii_nonul t : ascii_text t -> nonul t.
Proof. intros Ht. eapply Forall_impl; [exact Ht|]. intros c Hc. cbn in Hc. unfold is_u8. lia. Qed.

Lemma good_take n t : good_name t -> good_name (take n t).
Proof. intros [Ha Hl]. split; [by apply Forall_take|]. rewrite length_take. lia. Qed.

(** What [lookup_wake_lock_name] answers to [name] is [r], and the state is then [st']. *)
Definition found (allocate : bool) (mem : Z) (st : user_locks) (name : list Z) (timeout : Z) (r : Z + Z * Z) (st' : user_locks) : Prop :=
  (exists l, named (user_names st) name l /\ r = inr (l, timeout) /\ st' = st) \/
  ((forall l, ~ named (user_names st) name l) /\
   if negb allocate then r = inl (- EINVAL) /\ st' = st
   else if mem =? NULL then r = inl (- ENOMEM) /\ st' = st
   else r = inr (mem, timeout) /\ user_names st' = <[mem := name ++ [0]]> (user_names st) /\
     forall l, is_Some (user_names st !! l) -> forall j, kept j (lock_of l) (core_of (user_wl st)) (core_of (user_wl st'))).

Lemma user_lookup_ok st t rest allocate tp mem : uinv st -> good_name t -> (mem <> NULL -> fresh st mem) ->
  exists a r st', parse_arg (t ++ 0 :: rest) tp = Some a /\ lookup_wake_lock_name (t ++ 0 :: rest) allocate tp mem st = Some (r, st') /\
    uinv st' /\ match a with inl err => r = inl err /\ st' = st
                | inr (n, timeout) => is_s32 timeout /\ found allocate mem st (take n t) timeout r st' end.
Proof.
  intros Hi Ht Hm. unfold lookup_wake_lock_name.
  destruct (parse_ok t rest tp (ascii_nonul _ (proj1 Ht))) as (a & Hp & Ha). rewrite Hp. cbn [mbind option_bind].
  destruct a as [err|[n timeout]]; [by exists (inl err), (inl err), st|]. destruct Ha as ([Hn0 Hn] & Hs32 & _).
  exists (inr (n, timeout)). pose proof (good_take n t Ht) as Hname.
  assert (Hbuf : t ++ 0 :: rest = take n t ++ (drop n t ++ 0 :: rest)) by (by rewrite app_assoc, take_drop).
  assert (Hlen : length (take n t) = n) by (rewrite length_take; lia).
  assert (Htk : take n (t ++ 0 :: rest) = take n t) by (by rewrite take_app_le).
  destruct (lookup_tree_ok st (take n t) (drop n t ++ 0 :: rest) Hi Hname) as [(l & Hl & He)|(Hno & parent & p & He & Hins)];
    rewrite <- Hbuf, Hlen in He; rewrite He; cbn [mbind option_bind].
  - exists (inr (l, timeout)), st. do 3 (split; [done|]). split; [done|]. left. by exists l.
  - destruct allocate; cbn [negb]; [|exists (inl (- EINVAL)), st; do 3 (split; [done|]); split; [done|]; by right].
    destruct (Z.eqb_spec mem NULL) as [Hz|Hz].
    { exists (inl (- ENOMEM)), st. do 3 (split; [done|]). split; [done|]. right. split; [done|]. cbn [negb]. by rewrite (proj2 (Z.eqb_eq _ _) Hz). }
    specialize (Hm Hz). destruct (Hins mem Hm) as (nodes & Hnodes & Hix). rewrite Htk.
    destruct (init_ok (lock_of mem) WAKE_LOCK_SUSPEND (user_wl st) (u_wf _ Hi) (proj2 (proj2 Hm)) suspend_type) as (wl & Hw & _).
    rewrite Hw. cbn [mbind option_bind]. rewrite Hnodes. cbn [mbind option_bind].
    destruct (user_added st (take n t) mem nodes wl Hi Hname Hm Hno Hix Hw) as [Hi' Hk].
    eexists _, _. split; [done|]. split; [done|]. split; [exact Hi'|]. split; [done|]. right. split; [done|]. cbn [negb].
    by rewrite (proj2 (Z.eqb_neq _ _) Hz).
Qed.

(** Using the wake lock of [l] keeps the invariant and the other locks. *)
Lemma used_inv st l wl j v : uinv st -> is_Some (user_names st !! l) -> wf (core_of wl) -> lock_of l ∈ c_all (core_of wl) ->
  c_view (core_of wl) !! lock_of l = Some v -> v_type v = WAKE_LOCK_SUSPEND ->
  (forall i, i <> lock_of l -> kept j i (core_of (user_wl st)) (core_of wl)) ->
  uinv (set_wl wl st) /\ forall l', l' <> l -> is_Some (user_names st !! l') -> kept j (lock_of l') (core_of (user_wl st)) (core_of wl).
Proof.
  intros Hi Hl Hwf Hin Hv Hty Hk.
  assert (Hoth : forall l', l' <> l -> is_Some (user_names st !! l') -> kept j (lock_of l') (core_of (user_wl st)) (core_of wl)).
  { intros l' Hne Hl'. apply Hk. intros E. apply Hne, lock_of_inj; [by apply (user_addr st)|by apply (user_addr st)|done]. }
  split; [|done]. destruct Hi as [H1 H2 H3 H4 H5]. split; cbn; try done.
  intros l' Hl'. destruct (decide (l' = l)) as [->|Hne]; [split; [done|by exists v]|].
  destruct (Hoth l' Hne Hl') as [Hall Hview]. destruct (H5 l' Hl') as (Hin' & w & Hw & Hty').
  split; [by apply Hall|]. destruct (Hview w Hw) as [?|(_ & _ & ?)]; by eexists.
Qed.

(** The lock of [l] is held as asked for at [e]. *)
Definition held_for (e : env) (timeout : Z) (st : user_locks) (l : Z) : Prop :=
  exists v, c_view (core_of (user_wl st)) !! lock_of l = Some v /\ v_active v = true /\ v_auto v = negb (timeout =? 0) /\
    (timeout <> 0 -> v_expires v = jiffies e +u timeout).
(** The nanoseconds a line asks for, if it has a number after the name. *)
Definition timeout_ns (buf : list Z) : option Z :=
  n ← word_len buf;
  m ← space_len (drop n buf);
  let arg := drop m (drop n buf) in
  c ← zget arg 0;
  if c =? 0 then None else '(ns, _) ← simple_strtoull arg 0; Some ns.
(** In jiffies, rounded up, and at least one. *)
Definition jiffies_up (ns : Z) : Z := Z.max 1 ((ns + (NSEC_PER_JIFFY - 1)) / NSEC_PER_JIFFY).
(** The lock is held with the time-out the line asks for, where that is below 2^31 jiffies; without a number, for good. *)
Definition held_as_asked (e : env) (buf : list Z) (st : user_locks) (l : Z) : Prop :=
  match timeout_ns buf with
  | None => held_for e 0 st l
  | Some ns => jiffies_up ns < 2 ^ 31 -> held_for e (jiffies_up ns) st l
  end.

Definition released (st : user_locks) (l : Z) : Prop :=
  exists v, c_view (core_of (user_wl st)) !! lock_of l = Some v /\ v_active v = false.

Lemma take_lock clock e st l timeout : uinv st -> is_Some (user_names st !! l) -> is_s32 timeout ->
  exists wl, (if negb (timeout =? 0) then wake_lock_timeout clock e (lock_of l) timeout (user_wl st)
              else wake_lock_ clock e (lock_of l) (user_wl st)) = Some wl /\
    uinv (set_wl wl st) /\ (0 <= timeout -> held_for e timeout (set_wl wl st) l) /\
    forall l', l' <> l -> is_Some (user_names st !! l') -> kept (jiffies e) (lock_of l') (core_of (user_wl st)) (core_of wl).
Proof.
  intros Hi Hl Hs. destruct (u_lock _ Hi l Hl) as (Hin & v & Hv & Hty). set (b := negb (timeout =? 0)).
  assert (Hcall : (if b then wake_lock_timeout clock e (lock_of l) timeout (user_wl st) else wake_lock_ clock e (lock_of l) (user_wl st)) =
    wake_lock_internal clock e (lock_of l) (if b then timeout else 0) b (user_wl st)) by (by destruct b).
  rewrite Hcall. destruct (lock_wf clock e (lock_of l) (if b then timeout else 0) b (user_wl st) (u_wf _ Hi) Hin) as (wl & -> & Hw & Hc).
  exists wl. split; [done|]. destruct (lock_use _ _ _ _ _ _ Hc) as (Hk & Hin' & Hid). destruct (Hid v Hv) as [Hv'|(Hb & Hle & Hv')].
  - destruct (used_inv st l wl (jiffies e) _ Hi Hl Hw Hin' Hv' Hty Hk) as [H1 H2]. split; [done|]. split; [|done].
    intros _. eexists. split; [exact Hv'|]. split; [done|]. split; [done|]. intros Hnz. cbn.
    unfold b. by rewrite (proj2 (Z.eqb_neq _ _) Hnz).
  - destruct (used_inv st l wl (jiffies e) _ Hi Hl Hw Hin' Hv' Hty Hk) as [H1 H2]. split; [done|]. split; [|done].
    intros Hge. exfalso. rewrite Hb in Hle. unfold b in Hb. apply negb_true_iff, Z.eqb_neq in Hb.
    assert (E : s32 ((jiffies e +u timeout) - jiffies e) = timeout); [|lia].
    rewrite <- (s32_id timeout Hs) at 2. unfold s32, swrap, u32, wrap. euclid.
Qed.

(** ** The time-out asked for *)

Lemma parse_digits_nonneg w base : forall cp r n v m, 0 <= w -> parse_digits w base cp r n = Some (v, m) -> 0 <= r -> 0 <= v.
Proof.
  induction cp as [|c cp IH]; intros r n v m Hw; cbn [parse_digits]; [done|]. destruct (isxdigit c); [|by intros [= <- _]].
  destruct (base <=? digit_value c); [by intros [= <- _]|]. intros H _. apply (IH _ _ _ _ Hw H). unfold wrap.
  apply Z.mod_pos_bound, Z.pow_pos_nonneg; lia.
Qed.

Lemma strtoull_nonneg cp base v n : simple_strtoull cp base = Some (v, n) -> 0 <= v.
Proof.
  unfold simple_strtoull, simple_strto. destruct (if base =? 0 then _ else _) as [b|]; [|done]. cbn [mbind option_bind].
  destruct (if b =? 16 then _ else _) as [k|]; [|done]. cbn [mbind option_bind]. intros H. by eapply parse_digits_nonneg; [|exact H|].
Qed.

Lemma timeout_jiffies_exact ns : 0 <= ns -> jiffies_up ns < 2 ^ 31 -> timeout_jiffies ns = jiffies_up ns.
Proof.
  unfold timeout_jiffies, jiffies_up. change NSEC_PER_JIFFY with 10000000. intros H0 H1.
  assert (Hq : (ns + (10000000 - 1)) / 10000000 < 2 ^ 31) by lia.
  assert (ns + (10000000 - 1) < 2 ^ 31 * 10000000).
  { pose proof (Z.mod_pos_bound (ns + (10000000 - 1)) 10000000 ltac:(lia)).
    pose proof (Z.div_mod (ns + (10000000 - 1)) 10000000 ltac:(lia)). lia. }
  rewrite u64_id by (unfold is_u64; lia). pose proof (Z.div_pos (ns + (10000000 - 1)) 10000000 ltac:(lia) ltac:(lia)).
  destruct (Z.leb_spec ((ns + (10000000 - 1)) / 10000000) 0); rewrite s32_id by (unfold is_s32; lia); lia.
Qed.

(** What [parse_arg] stores in [*timeoutptr]. *)
Lemma parse_timeout buf len timeout : parse_arg buf true = Some (inr (len, timeout)) ->
  match timeout_ns buf with None => timeout = 0 | Some ns => 0 <= ns /\ timeout = timeout_jiffies ns end.
Proof.
  unfold parse_arg, timeout_ns. destruct (word_len buf) as [n|]; [|done]. cbn [mbind option_bind].
  destruct (Nat.eqb n 0); [done|]. destruct (space_len (drop n buf)) as [m|]; [|done]. cbn [mbind option_bind].
  destruct (zget _ 0) as [c|]; [|done]. cbn [mbind option_bind andb]. destruct (c =? 0); cbn [negb]; [by intros [= _ <-]|].
  destruct (simple_strtoull _ 0) as [[v k]|] eqn:E; [|done]. cbn [mbind option_bind].
  destruct (space_len _) as [x|]; [|done]. cbn [mbind option_bind]. destruct (zget _ 0) as [d|]; [|done]. cbn [mbind option_bind].
  destruct (d =? 0); cbn [negb]; [|done]. intros [= _ <-]. split; [|done]. by eapply strtoull_nonneg.
Qed.

Lemma asked_held e buf st l len timeout : parse_arg buf true = Some (inr (len, timeout)) ->
  (0 <= timeout -> held_for e timeout st l) -> held_as_asked e buf st l.
Proof.
  intros Hp%parse_timeout Hh. unfold held_as_asked. destruct (timeout_ns buf) as [ns|]; [|subst; by apply Hh].
  destruct Hp as [H0 ->]. intros Hlt. rewrite timeout_jiffies_exact in Hh by done. apply Hh. unfold jiffies_up. lia.
Qed.

(** ** Every reachable state *)

Section Reach.
Context (clock : nat -> Z).

Definition is_user (st : user_locks) (id : nat) : Prop := exists l, is_Some (user_names st !! l) /\ id = lock_of l.

(** User space writes 7-bit text into the two files; others use their own wake locks. *)
Inductive user_step (st : user_locks) : user_locks -> Prop :=
| us_lock e t rest n mem r st' : good_name t -> (mem <> NULL -> fresh st mem) ->
    wake_lock_store clock e (t ++ 0 :: rest) n mem st = Some (r, st') -> user_step st st'
| us_unlock e t rest n r st' : good_name t -> wake_unlock_store clock e (t ++ 0 :: rest) n st = Some (r, st') -> user_step st st'
| us_other e wl : other_use clock (is_user st) e (user_wl st) wl -> user_step st (set_wl wl st).

Inductive user_reach : user_locks -> Prop :=
| ur_init e wl : wakelocks_init clock e = Some wl -> user_reach (UserLocks (RbState ∅ NULL) ∅ wl)
| ur_step st st' : user_reach st -> user_step st st' -> user_reach st'.

Lemma user_store_ok e st t rest n mem : uinv st -> good_name t -> (mem <> NULL -> fresh st mem) ->
  exists a r st', parse_arg (t ++ 0 :: rest) true = Some a /\ wake_lock_store clock e (t ++ 0 :: rest) n mem st = Some (r, st') /\ uinv st' /\
    match a with
    | inl err => r = err /\ st' = st
    | inr (len, timeout) => let name := take len t in
        (r = - ENOMEM /\ mem = NULL /\ st' = st /\ forall l, ~ named (user_names st) name l) \/
        (r = n /\ exists l, named (user_names st') name l /\ (0 <= timeout -> held_for e timeout st' l) /\
           (user_names st' = user_names st \/
            (forall l', ~ named (user_names st) name l') /\ l = mem /\ user_names st' = <[mem := name ++ [0]]> (user_names st)) /\
           forall l', l' <> l -> is_Some (user_names st !! l') -> kept (jiffies e) (lock_of l') (core_of (user_wl st)) (core_of (user_wl st')))
    end.
Proof.
  intros Hi Ht Hm. unfold wake_lock_store. destruct (user_lookup_ok st t rest true true mem Hi Ht Hm) as (a & r & st1 & Hp & -> & Hi1 & Ha).
  exists a. cbn [mbind option_bind]. destruct a as [err|[len timeout]].
  { destruct Ha as [-> ->]. by exists err, st. }
  destruct Ha as [Hs [(l & Hl & -> & ->)|[Hno Ha]]]; cbn [negb] in *.
  - destruct (take_lock clock e st l timeout Hi ltac:(by eexists) Hs) as (wl & -> & Hw & Hh & Hk). cbn [mbind option_bind].
    eexists _, _. split; [done|]. split; [done|]. split; [done|]. right. split; [done|]. exists l. by split; [|split; [|split; [left|]]].
  - destruct (Z.eqb_spec mem NULL) as [Hz|Hz]; [destruct Ha as [-> ->]; exists (- ENOMEM), st; do 3 (split; [done|]); by left|].
    destruct Ha as (-> & Hnames & Hk0). assert (Hl : named (user_names st1) (take len t) mem) by (unfold named; by rewrite Hnames, lookup_insert_eq).
    destruct (take_lock clock e st1 mem timeout Hi1 ltac:(by eexists) Hs) as (wl & -> & Hw & Hh & Hk). cbn [mbind option_bind].
    eexists _, _. split; [done|]. split; [done|]. split; [done|]. right. split; [done|]. exists mem.
    split; [done|]. split; [done|]. split; [right; by split|]. intros l' Hne Hl'. apply (kept_trans _ _ _ (core_of (user_wl st1))); [by apply Hk0|].
    apply Hk; [done|]. by rewrite Hnames, lookup_insert_ne.
Qed.

Lemma user_unstore_ok e st t rest n : uinv st -> good_name t ->
  exists a r st', parse_arg (t ++ 0 :: rest) false = Some a /\ wake_unlock_store clock e (t ++ 0 :: rest) n st = Some (r, st') /\ uinv st' /\
    match a with
    | inl err => r = err /\ st' = st
    | inr (len, _) => let name := take len t in
        (r = - EINVAL /\ st' = st /\ forall l, ~ named (user_names st) name l) \/
        (r = n /\ user_names st' = user_names st /\ exists l, named (user_names st) name l /\ released st' l /\
           forall l', l' <> l -> is_Some (user_names st !! l') -> kept (jiffies e) (lock_of l') (core_of (user_wl st)) (core_of (user_wl st')))
    end.
Proof.
  intros Hi Ht. unfold wake_unlock_store.
  destruct (user_lookup_ok st t rest false false NULL Hi Ht ltac:(done)) as (a & r & st1 & Hp & -> & Hi1 & Ha).
  exists a. cbn [mbind option_bind]. destruct a as [err|[len timeout]].
  { destruct Ha as [-> ->]. by exists err, st. }
  destruct Ha as [Hs [(l & Hl & -> & ->)|[Hno [-> ->]]]]; [|exists (- EINVAL), st; do 3 (split; [done|]); by left].
  destruct (u_lock _ Hi l ltac:(by eexists)) as (Hin & v & Hv & Hty).
  destruct (unlock_wf clock e (lock_of l) (user_wl st) (u_wf _ Hi) Hin) as (wl & -> & Hw & Hc). cbn [mbind option_bind].
  destruct (unlock_use _ _ _ _ Hc) as (Hk & Hin' & Hid). specialize (Hid v Hv).
  destruct (used_inv st l wl (jiffies e) _ Hi ltac:(by eexists) Hw Hin' Hid Hty Hk) as [H1 H2].
  eexists _, _. split; [done|]. split; [done|]. split; [exact H1|]. right. split; [done|]. split; [done|]. exists l.
  split; [done|]. split; [by eexists|done].
Qed.

Lemma user_step_inv st st' : uinv st -> user_step st st' -> uinv st'.
Proof.
  intros Hi Hs. destruct Hs as [e t rest n mem r st' Ht Hm He|e t rest n r st' Ht He|e wl Hu].
  - destruct (user_store_ok e st t rest n mem Hi Ht Hm) as (a & r' & s2 & _ & He' & H2 & _). rewrite He in He'. by injection He' as _ <-.
  - destruct (user_unstore_ok e st t rest n Hi Ht) as (a & r' & s2 & _ & He' & H2 & _). rewrite He in He'. by injection He' as _ <-.
  - destruct Hi as [H1 H2 H3 H4 H5].
    assert (Hk : forall l, is_Some (user_names st !! l) -> wf (core_of wl) /\ kept (jiffies e) (lock_of l) (core_of (user_wl st)) (core_of wl)).
    { intros l Hl. apply (other_kept clock (is_user st) e _ _ _ H4 Hu); [by exists l|unfold lock_of; lia|by apply H5]. }
    split; cbn; try done; [|intros l Hl; destruct (Hk l Hl) as [_ [Hall Hview]], (H5 l Hl) as (Hin & v & Hv & Hty);
      split; [by apply Hall|]; destruct (Hview v Hv) as [?|(_ & _ & ?)]; by eexists].
    by apply (other_all clock (is_user st) e (user_wl st)).
Qed.

Lemma user_reach_inv st : user_reach st -> uinv st.
Proof.
  induction 1 as [e wl He|st st' _ IH Hs]; [|by eapply user_step_inv].
  destruct (init_state clock e) as (s2 & He2 & Hc). rewrite He in He2. injection He2 as <-.
  split; cbn; try done; [|rewrite Hc; apply init_wf|intros l [x Hx]; by rewrite lookup_empty in Hx].
  exists E. split; [constructor|]. split; [done|]. split; [constructor|]. split; [constructor|]. split; [by exists 0%nat; constructor|].
  split; [|constructor]. intros n. cbn. rewrite dom_empty_L. set_solver.
Qed.

(** C23: Writing a line of 7-bit characters into wake_lock, in any state reached by writing such lines and by other uses of the
    wake locks: the line is read inside its buffer; a malformed line or a failed allocation is refused and changes nothing;
    otherwise the one lock with that name, created if there was none, is held, without a number for good and with one for that
    many nanoseconds in jiffies rounded up, if these are below 2^31 (the code cuts the number to 32 bits: [timeout_cut]); and
    every other user lock stays as it is unless its own time-out has passed.  With characters of 128 and more there may be two
    locks with one name ([high_name_twice]). *)
Theorem user_wake_lock_correct e st t rest n mem : user_reach st -> good_name t -> (mem <> NULL -> fresh st mem) ->
  exists a r st', parse_arg (t ++ 0 :: rest) true = Some a /\ wake_lock_store clock e (t ++ 0 :: rest) n mem st = Some (r, st') /\
    match a with
    | inl err => r = err /\ st' = st
    | inr (len, timeout) => let name := take len t in
        (r = - ENOMEM /\ mem = NULL /\ st' = st /\ forall l, ~ named (user_names st) name l) \/
        (r = n /\ exists l, (forall l', named (user_names st') name l' <-> l' = l) /\ held_as_asked e (t ++ 0 :: rest) st' l /\
           (user_names st' = user_names st \/
            (forall l', ~ named (user_names st) name l') /\ l = mem /\ user_names st' = <[mem := name ++ [0]]> (user_names st)) /\
           forall l', l' <> l -> is_Some (user_names st !! l') -> kept (jiffies e) (lock_of l') (core_of (user_wl st)) (core_of (user_wl st')))
    end.
Proof.
  intros Hr Ht Hm. destruct (user_store_ok e st t rest n mem (user_reach_inv _ Hr) Ht Hm) as (a & r & st' & Hp & He & Hi & Ha).
  exists a, r, st'. split; [done|]. split; [done|]. destruct a as [err|[len timeout]]; [done|]. destruct Ha as [Ha|(-> & l & Hl & Hh & Hn & Hk)]; [by left|].
  right. split; [done|]. exists l. split; [intros l'; split; [intros Hl'; by apply (u_one _ Hi (take len t))|by intros ->]|].
  split; [by eapply asked_held|]. done.
Qed.

(** C24: Writing a line of 7-bit characters into wake_unlock, in any state reached by writing such lines and by other uses of the
    wake locks: a malformed line and the name of no lock are refused and change nothing; otherwise the lock with that name is
    released and every other user lock stays as it is unless its time-out has passed.  With characters of 128 and more, in this
    line or an earlier one, the name of an existing lock may be refused ([high_name_refused]). *)
Theorem user_wake_unlock_correct e st t rest n : user_reach st -> good_name t ->
  exists a r st', parse_arg (t ++ 0 :: rest) false = Some a /\ wake_unlock_store clock e (t ++ 0 :: rest) n st = Some (r, st') /\
    match a with
    | inl err => r = err /\ st' = st
    | inr (len, _) => let name := take len t in
        (r = - EINVAL /\ st' = st /\ forall l, ~ named (user_names st) name l) \/
        (r = n /\ user_names st' = user_names st /\ exists l, (forall l', named (user_names st) name l' <-> l' = l) /\ released st' l /\
           forall l', l' <> l -> is_Some (user_names st !! l') -> kept (jiffies e) (lock_of l') (core_of (user_wl st)) (core_of (user_wl st')))
    end.
Proof.
  intros Hr Ht. pose proof (user_reach_inv _ Hr) as Hi. destruct (user_unstore_ok e st t rest n Hi Ht) as (a & r & st' & Hp & He & _ & Ha).
  exists a, r, st'. split; [done|]. split; [done|]. destruct a as [err|[len timeout]]; [done|]. destruct Ha as [Ha|(-> & Hn & l & Hl & Hrel & Hk)]; [by left|].
  right. split; [done|]. split; [done|]. exists l. split; [|done]. intros l'. split; [intros Hl'; by apply (u_one _ Hi (take len t))|by intros ->].
Qed.

End Reach.

(** ** Examples *)

Definition still (_ : nat) : Z := 0.
Definition user_boot : option user_locks := wl ← wakelocks_init still demo_env; Some (UserLocks (RbState ∅ NULL) ∅ wl).

(** Lines written one after the other, each with the memory for a new lock. *)
Fixpoint write_lines (l : list (list Z * Z)) (st : user_locks) : option user_locks :=
  match l with
  | [] => Some st
  | (line, mem) :: l => '(_, st) ← wake_lock_store still demo_env (line ++ [10; 0]) 1 mem st; write_lines l st
  end.

(** With a character outside 7 bits the order of names is not transitive: after the tree has turned, a lock that
    exists is not found and a second one with its name is created. *)
Definition one_letter (l : list Z) : list (list Z * Z) := imap (fun i c => ([c], 16 + 16 * Z.of_nat i)) l.

Example high_name_twice : exists st st', (st0 ← user_boot; write_lines (one_letter [48; 192; 80; 81; 82; 83; 84; 85; 86; 87; 88; 89; 90]) st0) = Some st /\
  write_lines [([192], 512)] st = Some st' /\ named (user_names st') [192] 32 /\ named (user_names st') [192] 512.
Proof.
  destruct (st0 ← user_boot; write_lines _ st0) as [st|] eqn:E0; [|vm_compute in E0; discriminate E0].
  destruct (write_lines [([192], 512)] st) as [st'|] eqn:E1; [|vm_compute in E0; injection E0 as <-; vm_compute in E1; discriminate E1].
  exists st, st'. split; [done|]. split; [done|]. vm_compute in E0. injection E0 as <-. vm_compute in E1. injection E1 as <-. done.
Qed.

(** In the same state wake_unlock refuses the name of a lock that exists. *)
Example high_name_refused : exists st, (st0 ← user_boot; write_lines (one_letter [48; 192; 80; 81; 82; 83; 84; 85; 86; 87; 88; 89; 90]) st0) = Some st /\
  named (user_names st) [192] 32 /\ wake_unlock_store still demo_env [192; 10; 0] 2 st = Some (- EINVAL, st).
Proof.
  destruct (st0 ← user_boot; write_lines _ st0) as [st|] eqn:E0; [|vm_compute in E0; discriminate E0].
  exists st. split; [done|]. vm_compute in E0. injection E0 as <-. split; [done|]. vm_compute. reflexivity.
Qed.

(** A time-out of 2 ^ 32 jiffies is cut to 0 by the assignment to a [long], and 0 means that the lock is held for ever. *)
Example timeout_cut : timeout_jiffies (2 ^ 32 * NSEC_PER_JIFFY) = 0.
Proof. reflexivity. Qed.

Lemma demo_name : good_name [97; 98].
Proof. split; [repeat constructor; lia|]. rewrite NAME_MAX_eq. cbn. lia. Qed.
Lemma demo_fresh st : user_boot = Some st -> fresh st 16.
Proof.
  intros He. vm_compute in He. injection He as <-. split; [done|]. split; [done|]. by apply (bool_decide_eq_true_1 (_ ∉ _)).
Qed.
Lemma user_demo_reach st : user_boot = Some st -> user_reach still st.
Proof.
  unfold user_boot. destruct (wakelocks_init still demo_env) as [wl|] eqn:Ew; [|done]. intros [= <-]. by apply (ur_init still demo_env).
Qed.

Lemma user_wake_lock_correct_witness : exists st r st', user_boot = Some st /\
  wake_lock_store still demo_env [97; 98; 0] 2 16 st = Some (r, st') /\ r = 2 /\ exists l, held_for demo_env 0 st' l.
Proof.
  destruct user_boot as [st|] eqn:Eb; [|vm_compute in Eb; discriminate Eb].
  destruct (user_wake_lock_correct still demo_env st [97; 98] [] 2 16 (user_demo_reach st Eb) demo_name (fun _ => demo_fresh st Eb))
    as (a & r & st' & Hp & He & Ha). exists st, r, st'. split; [reflexivity|]. split; [exact He|].
  vm_compute in Hp. injection Hp as <-. destruct Ha as [(_ & Hm & _)|(-> & l & _ & Hh & _)]; [discriminate Hm|].
  split; [reflexivity|]. exists l. exact Hh.
Defined.

Lemma user_wake_unlock_correct_witness : exists st a r st', user_boot = Some st /\ parse_arg [97; 98; 0] false = Some a /\
  wake_unlock_store still demo_env [97; 98; 0] 2 st = Some (r, st').
Proof.
  destruct user_boot as [st|] eqn:Eb; [|vm_compute in Eb; discriminate Eb].
  destruct (user_wake_unlock_correct still demo_env st [97; 98] [] 2 (user_demo_reach st Eb) demo_name)
    as (a & r & st' & Hp & He & _). exists st, a, r, st'. split; [reflexivity|]. split; [exact Hp|exact He].
Defined.
